(* ===== verification/_CoqProject ===== *)
-Q . S2P
Prelude.v
CString.v
Endian.v
Varint.v
ByteArray.v
ByteArraySpec.v
ByteArrayCodec.v
ByteArrayTyped.v
ByteArrayIO.v
BufferTest.v
Timer.v
TimerSpec.v
Fiber.v
Scheduler.v
SchedulerSpec.v
SchedulerLife.v
IOManager.v
IOManagerSpec.v
EventLoop.v
Http.v
HttpSpec.v
Stream.v
BufferStream.v
Ragel.v
HttpParser.v
Http11.v
HttpclientParser.v
HttpSession.v
Http11Spec.v
Servlet.v
Address.v
AddressSpec.v
AddressText.v
Uri.v
UriParser.v
UriFamilies.v
UriSpec.v
HttpConnection.v
HttpConnectionSpec.v
HttpclientFamilies.v
HttpclientSpec.v
HttpPool.v
HttpClient.v
HttpConversation.v
FdManager.v
Hook.v
HookWait.v
HookTable.v
LogFormat.v
Util.v
Env.v
ConfigCast.v
Config.v
ConfigUnordered.v
Settings.v
Log.v
LogSpec.v
LogConfig.v
LogYaml.v
LogDump.v
Socket.v
SocketIO.v
EchoServer.v
TcpServer.v
Thread.v
ThreadTest.v
Application.v
Diagnostics.v
