(* ===== verification/Prelude.v ===== *)
(** * A verification of the sylar server framework

    sylar is a C++ framework for network servers: fibers, a scheduler that runs
    them on a pool of threads, an I/O event loop over [epoll] with timers, a
    serialisation buffer, and an HTTP server and client on top.  This library
    models its own logic, file by file, as functions and step relations, and
    proves what each part promises to the parts that use it.

    ** How the parts interact

    A [Fiber] is a coroutine of one thread.  The [Scheduler] keeps a queue of
    fibers and callbacks that its worker threads take and run.  The [IOManager]
    is a scheduler whose idle fiber waits in [epoll_wait]; code that would block
    registers the running fiber for an event ([addEvent]) and yields, and the
    event's arrival schedules it again.  The [TimerManager], its other base
    class, bounds the wait and hands due callbacks to the scheduler.
    [SocketStream] reads and writes sockets, [ByteArray] serialises into chains
    of blocks that sockets fill and drain.  [HttpSession] turns the bytes of a
    connection into requests with [HttpRequestParser], [HttpServer] dispatches
    them to servlets, and [HttpConnection] and its pool are the client.

    ** What models what

    - This file: faults and results, the state-and-fault monad [M], fixed-width
      integers with their wrap-around, buffer ranges ([splice], [slice]), the
      development's tactics and its hint database.
    - [Endian], [Varint]: [include/sylar/endian.hh] and the zigzag and varint
      coding of [src/bytearray.cc].
    - [ByteArray] (the model of [src/bytearray.cc]), [ByteArraySpec] (the buffer
      simulates a flat byte array), [ByteArrayCodec] (a class [Codec] of typed
      values and the round trips of messages), [ByteArrayTyped] (what typed reads
      do on arbitrary bytes), [ByteArrayIO] (scatter/gather views, files and
      dumps), [BufferTest] (the test of the buffer, [src/test/test_bytearray.cc]).
    - [Timer] and [TimerSpec]: [src/timer.cc].  Timers are shared objects in a
      store; the set holds their addresses in the comparator's order.
    - [Fiber]: [src/fiber.cc], one thread's fibers, contexts and thread-local
      pointers.
    - [Scheduler] and [SchedulerSpec]: [src/scheduler.cc], the steps of all
      worker threads interleaved arbitrarily.  [SchedulerLife]: construction, the
      creation and joining of the threads, [stop] and destruction around them.
    - [IOManager] and [IOManagerSpec]: [src/iomanager.cc], with the kernel's
      interest list as part of the state.  [EventLoop]: the turns of its idle
      fiber, with the timers and the pipe.
    - [CString]: byte strings and the C string functions the text code uses.
    - [Http] and [HttpSpec]: [src/http.cc], [include/http/http.hh].
    - [Stream]: [src/stream.cc] and [src/sockstream.cc]; the abstract class
      [Stream] and the socket it uses are typeclasses, and [Peer] is a connected
      socket with the segments the other side sent.  [BufferStream]: socket
      streams on a [ByteArray].
    - [Ragel]: the expressions of the language that the grammars in [src/rl] are
      written in, the automata they stand for and their execution.
    - [HttpParser]: [src/http_parser.cc]; the automata it uses are the typeclasses
      [RequestAutomaton] and [ResponseAutomaton].  [Http11]:
      [src/rl/http11_parser.rl], the grammar of requests and its parser, an
      instance of the first; [HttpclientParser]: [src/rl/httpclient_parser.rl],
      an instance of the second.  [Http11Spec], [HttpclientFamilies] and
      [HttpclientSpec]: what they read.
    - [HttpSession]: [src/http_session.cc].  [Servlet]: [src/servlet.cc] and
      [src/http_server.cc].
    - [HttpConnection] and [HttpConnectionSpec]: the client of
      [src/http_connection.cc].  [HttpPool]: its connection pool, as the
      interleaved steps of any number of threads.  [HttpClient]: the requests by
      URI and through the pool, and a client and a server in conversation;
      [HttpConversation]: the same through the parsers of the grammars.
    - [Uri]: [include/http/uri.hh] and the functions of [src/rl/uri.rl].
      [UriParser]: its grammar and [Uri::Create].  [UriFamilies], [UriSpec]: what
      it reads.
    - [Address], [AddressSpec], [AddressText]: [src/address.cc]; the last one has
      the text, the order and the interfaces.
    - [FdManager]: [src/fd_manager.cc] with the kernel's descriptors.  [Hook]:
      [src/hook.cc], the blocking calls against an environment that answers
      system calls and waits, and the calls that change a descriptor.
      [HookWait]: a wait of a hooked call on the event loop, the setting of its
      timer and the registration being separate steps.  [HookTable]: the
      pointers to the original functions and the flag of a thread.
    - [Socket]: [src/socket.cc] over the descriptor table and the event loop;
      [SocketIO]: its transfers and the addresses that the kernel fills in.
      [TcpServer]: [src/tcp_server.cc].  [EchoServer]: the echo servers of
      [src/example].
    - [Util]: the file-system helpers and the clock of [src/util.cc].  [Env]:
      [src/env.cc].
    - [ConfigCast]: the conversions between containers and YAML text of
      [include/sylar/config.hh], over a class of what yaml-cpp does.  [Config]:
      variables, listeners, the registry and its loaders ([src/config.cc]).
      [ConfigUnordered]: the unordered containers and [Visit].  [Settings]: the
      variables that the other files register and the statics that follow them.
    - [LogFormat]: levels, events and the pattern compiler of [src/log.cc].
      [Log]: loggers, appenders and their manager as shared objects in a store,
      and the listener that applies a configuration.  [LogSpec] and [LogConfig]:
      their invariant and theorems.  [LogYaml]: the YAML form of a
      configuration of logging.  [LogDump]: the printing of the manager.
    - [Thread]: [src/thread.cc] and the locks of [include/sylar/thread.hh].
      [ThreadTest]: the test of both, [src/test/test_thread.cc].
    - [Application]: [src/application.cc] and [src/daemon.cc], on top of the rest.
    - [Diagnostics]: log statements from the level test to the appenders, the text
      of times, backtraces and the process info.

    Records have the fields of the classes, and each member function is a
    definition of the same name (with the class's name first where two classes
    have it).  Before each definition that translates code a comment names the
    file, the lines and the function.

    ** What the theorems show

    - Buffer: for every sequence of operations a chain of blocks of any size does
      what a specification on one flat byte array allows, faults included, and keeps
      its invariant; typed values written are read back, within the limits of
      lengths and of the machine's strings, with the same bytes on machines of either
      byte order; on arbitrary bytes a typed read yields a value of its type or ends
      in one of the exceptions or, for an empty string, the fault that are listed;
      scatter/gather views are exactly the range asked for; files and hex dumps
      round-trip; the test of the buffer passes for all values.
    - Timers: after any history every operation completes without undefined
      behaviour; exactly the due callbacks are handed out, in order; a cancelled
      timer never fires; the time to the next timer is right, and a timer that
      becomes the first wakes the loop.
    - Fibers and scheduler: swapping in and yielding are inverse; in every
      interleaving of the workers no task is lost, the counters are exact (which
      does not make [stopping] exact: [stopping_too_early]), and,
      if a fiber is queued at most once at a time, none runs on two threads; when
      [stop] has returned all threads are joined and the queue is drained.
    - I/O loop: registration, delivery and cancellation keep the contexts, the
      kernel's interest list and the pending count in agreement and hand exactly
      the waiting tasks to the scheduler; a turn of the loop serves exactly the
      due timers and the reported events and, for timers within 2^31 ms, waits no
      longer than it may.
    - Threads: semaphores count exactly; scoped locks keep the contract of the
      locks under them for threads that do not provoke the errors that the code
      ignores, the spin lock is a mutex, and starting a thread hands everything over
      before the constructor returns if no signal interrupts it; the test of threads loses no
      increment, never deadlocks and ends.
    - Hooks: a blocking call returns what the system call would return to a
      thread, interruptions and waits being invisible, or times out; sockets are
      non-blocking in the kernel and look to the user as the user left them, except
      when they are created non-blocking; closing wakes who waits, and a fiber that
      waits is woken once, by its timer too unless that fired before the registration.
    - HTTP: header maps are finite maps on case-folded names; serialised messages
      are read back by a reference grammar and by the grammars of [src/rl]; the
      parsers stay within their assertions on any bytes of a buffer below 2^31; a
      request or response in the grammar sent over a connection arrives as it was
      sent, however its body is segmented, if its head comes in one segment; the
      server answers in order the requests of a connection that come in segments of
      their own; dispatch is a function of
      the history of registrations; the pool's count is exact and no connection
      is handed out twice; a client and a server in conversation exchange what
      each sent over one connection, within its limits, and no request leaks a socket.
    - URIs: the text of a URI splits into its parts, and [Uri::Create] reads it
      back if its parts are in the grammar; a GET goes from the text of a URL to the response.
    - Addresses: subnet arithmetic of both families, netmask lengths, splitting
      of host and port, Unix paths; the text of an IPv6 address reads back; the
      addresses of an interface are found with their prefix lengths.
    - Streams: a socket reads into and writes from the blocks of a buffer as into
      flat memory, and a buffer sent arrives in the receiver's buffer; the echo
      server sends back exactly what it receives.
    - Application: on which command lines and files it starts, does not start, or
      ends in the fault of [MKDir]; the daemon restarts exactly after crashes; all
      addresses that the configured texts resolve to are served, or none.
    - Sockets and servers: timeouts are kept exactly over their whole range;
      binding a server is all or nothing; every accepted connection is handed
      over once, in order; arrays of buffers move what one buffer would; the address
      the kernel stores is the one that is handed out.
    - Configuration: loading a document gives each variable the last value
      listed under its path and changes nothing else; the statics of the hooks and
      the parsers follow their variables; conversions of nested and of unordered
      containers are inverse; the command line is read as a grammar says.
    - Logging: a pattern prints what it says; as long as log files can be opened,
      after any history every operation on loggers returns, an event reaches exactly
      the appenders that want it, and a changed configuration takes effect, but for
      the appenders that are taken for equal ([second_file_dropped]), and a removed
      one is retired.

    Where the code does not do what it means to, a theorem says what it does:
    [read_nothing_at_end], [writeToFile_misaligned], [writeStringF16_truncates],
    [string_prefix_throws], [stopping_too_early], [timer_before_registration],
    [relock_breaks], [reader_overflow], [pipelined_lost],
    [http_parser_execute_large], [MKDir_cases],
    [addTimer_wraps], [construct_then_yield], [destroyed_fiber_dangles],
    [double_schedule_race], [hangup_asserts], [stale_resize_loses_events],
    [wait_timeout_negative], [readFixSize_overflows],
    [readFixSize_never_reports], [chunked_needs_more], [pool_overshoots],
    [short_prefix_undefined], [ipv6_host_prefix_overruns],
    [bare_ipv6_has_service], [fionbio_unhooks], [zero_timeout_immediate],
    [nonblock_socket_hidden], [negative_fd_undefined], [double_percent_fails],
    [unclosed_brace_reorders], [second_file_dropped], [uppercase_never_loaded],
    [MKDir_use_after_free], [CreateUDP_ignores_failure],
    [reconnect_keeps_address], [failed_address_twice],
    [readFixSize_ba_overreads], [write_nothing_undefined], [lt_cycle],
    [null_address_crashes], [interrupted_start_dangles],
    [timeout_not_compared], [ipv6_listen_dropped],
    [writeFixSize_error_undefined], [send_error_unreported],
    [stale_connection_fails], [port_truncated], [fcntl_drops_argument],
    [split_path_truncated], [field_name_spans_lines], [absolute_target_path],
    [socket_message_accepted], [relaxed_uninitialised],
    [empty_length_unfinished], [chunk_for_response], [user_digit_truncated],
    [path_not_saved], [empty_port_throws], [recvFrom_drops_length],
    [foreign_task_stranded], [Time2Str_leaks], [Backtrace_leaks],
    [hook_init_again], [echo_drops], [client_repeats], [udp_echoes].

    ** Conventions, bounds and fuel

    Bytes and machine integers are [Z]; conversions ([u32], [u64], [s32], ...)
    stand where the C++ types convert.  An operation returns [Ok], or the fault
    it ends in: an exception, a failed assertion, undefined behaviour.  A loop
    whose end is not structural carries fuel, and running out is a fault of its
    own, so every theorem that an operation returns proves that its fuel is
    enough: for the block chains the number of blocks, for varints ten bytes,
    for reading a request one unit per byte the peer sends, for a connection one
    per request.  The machines of the grammars are never made deterministic as a
    whole; what the theorems need of them is computed on finite families of their
    states.  Buffers are below 2^64 bytes and sockets' lengths below 2^31,
    the ranges of the C++ types.  A critical section is one step.

    ** What is not modelled

    Third-party code is an argument of the definitions that use it: [epoll],
    [getaddrinfo], [inet_pton], [fnmatch], [boost::lexical_cast], yaml-cpp,
    pthread.  What ragel generates is not read: [Ragel] is the documented meaning
    of what it is given.  The text of the system's messages ([strerror],
    [strftime], [vasprintf], [backtrace_symbols]) is an argument, and what the code
    writes to its own log is left out except where logging is the subject.

    Declarations in headers, the getters and setters of plain fields that nothing
    is said about, the macros, [Singleton] and [Noncopyable] have no definition of
    their own.  The programs in [src/test] and [src/example], apart from the echo
    servers, the sending loop of the client and the tests of the buffer and of
    threads, only call the library and print what it returns; there is nothing to
    prove about them that is not proved of the library.  [src/protobuf] and [src/puml] hold no code of the program. *)
From stdpp Require Export base tactics list gmap strings.
From Stdlib Require Export ZArith Lia.

#[global] Open Scope Z_scope.

(** ** Faults and results

    A C++ operation either returns, throws a C++ exception, fails a
    [SYLAR_ASSERT], or runs into undefined behaviour.  Loops that are not
    structurally recursive carry fuel; running out of it is a fault of its
    own, so that "the operation returns" is always something to prove. *)

Inductive exn :=
| out_of_range
| invalid_argument
| logic_error
| length_error
| bad_alloc
| bad_function_call.

Inductive undef :=
| null_deref
| out_of_bounds
| bad_iterator
| bad_unlock
| use_after_free
| bad_shift
| signed_overflow
| div_by_zero.

Inductive fault :=
| Throw (e : exn)
| AssertFail
| Undef (u : undef)
| OutOfFuel.

Inductive result (A : Type) :=
| Ok (a : A)
| Err (f : fault).
Arguments Ok {A} a.
Arguments Err {A} f.

#[export] Instance exn_eq_dec : EqDecision exn.
Proof. solve_decision. Defined.
#[export] Instance undef_eq_dec : EqDecision undef.
Proof. solve_decision. Defined.
#[export] Instance fault_eq_dec : EqDecision fault.
Proof. solve_decision. Defined.
#[export] Instance result_eq_dec `{EqDecision A} : EqDecision (result A).
Proof. solve_decision. Defined.

(** The state-and-fault monad.  The state survives a fault: a C++ exception
    leaves the object as the statements before the throw made it. *)
Definition M (S A : Type) : Type := S -> result A * S.

#[export] Instance M_ret S : MRet (M S) := fun A a s => (Ok a, s).
#[export] Instance M_bind S : MBind (M S) := fun A B f m s =>
  match m s with
  | (Ok a, s') => f a s'
  | (Err e, s') => (Err e, s')
  end.

Definition fail {S A} (f : fault) : M S A := fun s => (Err f, s).
Definition get {S} : M S S := fun s => (Ok s, s).
Definition put {S} (s : S) : M S unit := fun _ => (Ok tt, s).
Definition modify {S} (f : S -> S) : M S unit := fun s => (Ok tt, f s).
Definition gets {S A} (f : S -> A) : M S A := fun s => (Ok (f s), s).
Definition lift {S A} (r : result A) : M S A := fun s => (r, s).
Definition sylar_assert {S} (b : bool) : M S unit :=
  if b then mret () else fail AssertFail.
Definition deref {S A} (o : option A) (u : undef) : M S A :=
  match o with Some a => mret a | None => fail (Undef u) end.

(** ** Machine integers *)

Definition u8 (x : Z) : Z := x mod 2 ^ 8.
Definition u16 (x : Z) : Z := x mod 2 ^ 16.
Definition u32 (x : Z) : Z := x mod 2 ^ 32.
Definition u64 (x : Z) : Z := x mod 2 ^ 64.

Definition sgn (w x : Z) : Z := (x + 2 ^ (w - 1)) mod 2 ^ w - 2 ^ (w - 1).
Definition s8 (x : Z) : Z := sgn 8 x.
Definition s16 (x : Z) : Z := sgn 16 x.
Definition s32 (x : Z) : Z := sgn 32 x.
Definition s64 (x : Z) : Z := sgn 64 x.

Definition is_byte (b : Z) : Prop := 0 <= b < 256.

(** ** Overwriting a range of a buffer ([memcpy] into it) *)

Definition splice {A} (off : nat) (xs l : list A) : list A :=
  take off l ++ xs ++ drop (off + length xs) l.

(** [slice off n l] is the range a [memcpy] out of a buffer reads. *)
Definition slice {A} (off n : nat) (l : list A) : list A := take n (drop off l).

#[global] Arguments splice : simpl never.
#[global] Arguments slice : simpl never.
#[global] Arguments u8 : simpl never.
#[global] Arguments u16 : simpl never.
#[global] Arguments u32 : simpl never.
#[global] Arguments u64 : simpl never.
#[global] Arguments sgn : simpl never.

(** ** The development's tactics *)

(** Evaluate the monad's combinators in the goal. *)
Ltac mstep :=
  unfold mbind, mret, M_bind, M_ret, fail, get, put, modify, gets, lift,
    sylar_assert, deref in *; cbn [fst snd] in *.

(** Case on the boolean tests of the goal, turning them into inequalities. *)
Ltac bool_cases :=
  repeat match goal with
  | |- context [?a <? ?b] => destruct (Z.ltb_spec a b)
  | |- context [?a <=? ?b] => destruct (Z.leb_spec a b)
  | |- context [?a >? ?b] => rewrite (Z.gtb_ltb a b)
  | |- context [?a >=? ?b] => rewrite (Z.geb_leb a b)
  | |- context [?a =? ?b] => destruct (Z.eqb_spec a b)
  end.

Create HintDb sylar.

(** ** Machine-integer lemmas *)

Lemma u64_small x : 0 <= x < 2 ^ 64 -> u64 x = x.
Proof. apply Z.mod_small. Qed.

Lemma u32_small x : 0 <= x < 2 ^ 32 -> u32 x = x.
Proof. apply Z.mod_small. Qed.

Lemma u64_range x : 0 <= u64 x < 2 ^ 64.
Proof. apply Z.mod_pos_bound. lia. Qed.

Lemma u32_range x : 0 <= u32 x < 2 ^ 32.
Proof. apply Z.mod_pos_bound. lia. Qed.

Lemma u8_range x : 0 <= u8 x < 2 ^ 8.
Proof. apply Z.mod_pos_bound. lia. Qed.

Lemma sgn_range w x : 0 < w -> - 2 ^ (w - 1) <= sgn w x < 2 ^ (w - 1).
Proof.
  intros Hw. unfold sgn.
  pose proof (Z.mod_pos_bound (x + 2 ^ (w - 1)) (2 ^ w) ltac:(lia)).
  replace (2 ^ w) with (2 * 2 ^ (w - 1)) in *; [lia|].
  rewrite <-Z.pow_succ_r by lia. f_equal. lia.
Qed.

(** Two's complement: an integer in the signed range is recovered from its
    unsigned representation. *)
Lemma sgn_mod w x : 0 < w -> - 2 ^ (w - 1) <= x < 2 ^ (w - 1) -> sgn w (x mod 2 ^ w) = x.
Proof.
  intros Hw Hx. unfold sgn. rewrite Z.add_mod_idemp_l by lia.
  assert (2 ^ w = 2 * 2 ^ (w - 1)) as E.
  { rewrite <-Z.pow_succ_r by lia. f_equal. lia. }
  rewrite Z.mod_small by lia. lia.
Qed.

Lemma s32_small z : 0 <= z < 2 ^ 31 -> s32 z = z.
Proof.
  intros Hz. unfold s32. rewrite <-(Z.mod_small z (2 ^ 32)) at 1 by lia. apply sgn_mod; lia.
Qed.

(** The unsigned representation of a sign-wrapped integer. *)
Lemma mod_sgn w x : 0 < w -> (sgn w x) mod 2 ^ w = x mod 2 ^ w.
Proof.
  intros Hw. unfold sgn.
  rewrite Zminus_mod_idemp_l. f_equal. lia.
Qed.

#[export] Hint Resolve u64_small u32_small u64_range u32_range u8_range : sylar.
#[export] Hint Rewrite u64_small u32_small using lia : sylar.

(** Remove the wrap-around of [size_t]/[uint64_t] arithmetic whose operands
    are known to be in range. *)
Ltac unwrap64 :=
  repeat match goal with
  | |- context [u64 ?x] => rewrite (u64_small x) by lia
  | H : context [u64 ?x] |- _ => rewrite (u64_small x) in H by lia
  end.

(** ** Lemmas on [splice] and [slice] *)

Section Splice.
Context {A : Type}.
Implicit Types (l xs ys : list A).

Lemma length_splice off xs l :
  (off + length xs <= length l)%nat -> length (splice off xs l) = length l.
Proof. intros H. unfold splice. rewrite !length_app, length_take, length_drop. lia. Qed.

Lemma splice_nil off l : splice off [] l = l.
Proof. unfold splice. cbn. rewrite Nat.add_0_r. apply take_drop. Qed.

Lemma splice_app_r off xs l1 l2 :
  splice (length l1 + off) xs (l1 ++ l2) = l1 ++ splice off xs l2.
Proof.
  unfold splice. rewrite take_app_add, <-Nat.add_assoc, drop_app_add. by rewrite <-app_assoc.
Qed.

Lemma splice_app_l off xs l1 l2 :
  (off + length xs <= length l1)%nat -> splice off xs (l1 ++ l2) = splice off xs l1 ++ l2.
Proof.
  intros H. unfold splice.
  rewrite take_app_le by lia. rewrite drop_app_le by lia. by rewrite <-!app_assoc.
Qed.

Lemma splice_all xs l : length xs = length l -> splice 0 xs l = xs.
Proof. intros H. unfold splice. cbn. rewrite H, drop_all. apply app_nil_r. Qed.

(** Writing a buffer in two consecutive pieces is writing it at once. *)
Lemma splice_splice off xs ys l :
  (off + length xs + length ys <= length l)%nat ->
  splice (off + length xs) ys (splice off xs l) = splice off (xs ++ ys) l.
Proof.
  intros H. unfold splice at 2.
  rewrite app_assoc.
  replace (off + length xs)%nat with (length (take off l ++ xs) + 0)%nat at 1
    by (rewrite length_app, length_take; lia).
  rewrite splice_app_r. unfold splice. cbn. rewrite <-!app_assoc, drop_drop, length_app.
  rewrite take_0. cbn. by rewrite Nat.add_assoc.
Qed.

Lemma slice_splice off xs l :
  (off + length xs <= length l)%nat -> slice off (length xs) (splice off xs l) = xs.
Proof.
  intros H. unfold slice, splice.
  rewrite drop_app_length' by (rewrite length_take; lia).
  by rewrite take_app_length.
Qed.

Lemma length_slice off n l : (off + n <= length l)%nat -> length (slice off n l) = n.
Proof. intros H. unfold slice. rewrite length_take, length_drop. lia. Qed.

(** Reading in two consecutive pieces is reading at once. *)
Lemma slice_add off n m l :
  slice off n l ++ slice (off + n) m l = slice off (n + m) l.
Proof.
  unfold slice. rewrite <-drop_drop. rewrite take_take_drop. done.
Qed.

Lemma slice_app_l off n l1 l2 :
  (off + n <= length l1)%nat -> slice off n (l1 ++ l2) = slice off n l1.
Proof. intros H. unfold slice. rewrite drop_app_le by lia. rewrite take_app_le; [done|]. rewrite length_drop. lia. Qed.

Lemma slice_app_r off n l1 l2 :
  slice (length l1 + off) n (l1 ++ l2) = slice off n l2.
Proof. unfold slice. by rewrite drop_app_add. Qed.
End Splice.

(** ** Lemmas on [filter] *)

Section Filter.
Context {A : Type} (P Q : A -> Prop) `{forall a, Decision (P a)} `{forall a, Decision (Q a)}.
Implicit Types l : list A.

Lemma list_filter_all l : Forall P l -> filter P l = l.
Proof.
  induction 1 as [|a l Ha _ IH]; [done|]. rewrite filter_cons_True by done. by rewrite IH.
Qed.

Lemma list_filter_none l : Forall (fun a => ~ P a) l -> filter P l = [].
Proof.
  induction 1 as [|a l Ha _ IH]; [done|]. rewrite filter_cons_False by done. done.
Qed.

Lemma list_filter_iff_elem l : (forall a, a ∈ l -> P a <-> Q a) -> filter P l = filter Q l.
Proof.
  induction l as [|a l IH]; intros Hiff; [done|].
  rewrite !filter_cons, IH by (intros b Hb; apply Hiff; by right).
  pose proof (Hiff a (list_elem_of_here a l)) as Ha.
  destruct (decide (P a)), (decide (Q a)); tauto.
Qed.
End Filter.
