(* ===== verification/CString.v ===== *)
(** * Byte strings and the C string functions

    [std::string] values and [char] buffers are lists of bytes (integers, as in
    the serialisation buffer).  This file has string literals, [c_str()] (the
    bytes up to the first NUL), [strcmp], [strncmp], [strcasecmp], the decimal
    output of unsigned integers, and the order that [strcasecmp] induces. *)
From Stdlib Require Import Ascii String.
From S2P Require Import Prelude.

Notation bytes := (list Z).

(** The bytes of a literal. *)
Definition str (s : string) : bytes :=
  map (fun c => Z.of_N (N_of_ascii c)) (list_ascii_of_string s).

(** The bytes before the first NUL. *)
Fixpoint c_str (s : bytes) : bytes :=
  match s with
  | [] => []
  | c :: s => if c =? 0 then [] else c :: c_str s
  end.

Fixpoint bytes_eqb (a b : bytes) : bool :=
  match a, b with
  | [], [] => true
  | x :: a, y :: b => (x =? y) && bytes_eqb a b
  | _, _ => false
  end.

(** [strncmp(p, s, strlen(p)) == 0] *)
Fixpoint is_prefix (p s : bytes) : bool :=
  match p, s with
  | [], _ => true
  | x :: p, y :: s => (x =? y) && is_prefix p s
  | _ :: _, [] => false
  end.

(** [strcmp(a, b) == 0] for [a] without a NUL. *)
Definition streq (a b : bytes) : bool := bytes_eqb a (c_str b).

Definition tolower (c : Z) : Z := if (65 <=? c) && (c <=? 90) then c + 32 else c.

(** [strcasecmp]; only the sign of the result means anything. *)
Fixpoint casecmp (a b : bytes) : Z :=
  match a, b with
  | [], [] => 0
  | [], _ :: _ => -1
  | _ :: _, [] => 1
  | x :: a, y :: b =>
      let d := tolower x - tolower y in if d =? 0 then casecmp a b else d
  end.

Definition strcasecmp (a b : bytes) : Z := casecmp (c_str a) (c_str b).

(** [strncmp(a, b, n) == 0]; memory past the end of a list reads as NUL. *)
Fixpoint strneq (n : nat) (a b : bytes) : bool :=
  match n with
  | O => true
  | S n =>
      let x := default 0 (head a) in
      let y := default 0 (head b) in
      (x =? y) && ((x =? 0) || strneq n (tail a) (tail b))
  end.

(** The decimal digits of an unsigned 64-bit number, as [std::ostream] writes
    them; 20 digits are enough for 64 bits. *)
Fixpoint dec_go (fuel : nat) (n : Z) (acc : bytes) : bytes :=
  match fuel with
  | O => acc
  | S fuel =>
      let acc := 48 + n mod 10 :: acc in
      if n / 10 =? 0 then acc else dec_go fuel (n / 10) acc
  end.

Definition dec (n : Z) : bytes := dec_go 20 n [].

(** [os << n] for a signed integer. *)
Definition sdec (n : Z) : bytes := if n <? 0 then 45 :: dec (- n) else dec n.

(** The value of a string of decimal digits. *)
Definition undec (s : bytes) : Z := fold_left (fun v c => v * 10 + (c - 48)) s 0.

Definition is_digit (c : Z) : bool := (48 <=? c) && (c <=? 57).

(** [atoi]: blanks, a sign and digits. *)
Fixpoint digits_value (acc : Z) (s : bytes) : Z :=
  match s with
  | c :: s => if is_digit c then digits_value (acc * 10 + (c - 48)) s else acc
  | [] => acc
  end.

Fixpoint atoi (s : bytes) : Z :=
  match s with
  | c :: s' =>
      if (c =? 32) || ((9 <=? c) && (c <=? 13)) then atoi s'
      else if c =? 45 then - digits_value 0 s'
      else if c =? 43 then digits_value 0 s'
      else digits_value 0 s
  | [] => 0
  end.

(** [strtol] to base 10 or 16: blanks, a sign, [0x] before hexadecimal digits, and
    the value cut to a [long]. *)
Definition digit_of (base c : Z) : option Z :=
  let v := if is_digit c then c - 48 else if (65 <=? c) && (c <=? 70) then c - 55
           else if (97 <=? c) && (c <=? 102) then c - 87 else base in
  if v <? base then Some v else None.

Fixpoint strtol_digits (base acc : Z) (s : bytes) : Z :=
  match s with
  | c :: s' => match digit_of base c with Some v => strtol_digits base (acc * base + v) s' | None => acc end
  | [] => acc
  end.

Definition strtol_prefix (base : Z) (s : bytes) : bytes :=
  match s with
  | z :: x :: d :: s' =>
      if (base =? 16) && (z =? 48) && ((x =? 120) || (x =? 88)) && bool_decide (is_Some (digit_of 16 d))
      then d :: s' else s
  | _ => s
  end.

Definition clamp_long (n : Z) : Z := Z.max (- 2 ^ 63) (Z.min n (2 ^ 63 - 1)).

Fixpoint strtol (base : Z) (s : bytes) : Z :=
  match s with
  | c :: s' =>
      if (c =? 32) || ((9 <=? c) && (c <=? 13)) then strtol base s'
      else if c =? 45 then clamp_long (- strtol_digits base 0 (strtol_prefix base s'))
      else if c =? 43 then clamp_long (strtol_digits base 0 (strtol_prefix base s'))
      else clamp_long (strtol_digits base 0 (strtol_prefix base s))
  | [] => 0
  end.

Definition CR : Z := 13.
Definition LF : Z := 10.
Definition crlf : bytes := [CR; LF].

(** ** Lemmas *)

Lemma bytes_eqb_spec a b : reflect (a = b) (bytes_eqb a b).
Proof.
  revert b. induction a as [|x a IH]; intros [|y b]; cbn; try (constructor; congruence).
  destruct (Z.eqb_spec x y) as [->|]; cbn; [|constructor; congruence].
  destruct (IH b); constructor; congruence.
Qed.

Lemma bytes_eqb_refl a : bytes_eqb a a = true.
Proof. by destruct (bytes_eqb_spec a a). Qed.

Lemma bytes_eqb_sym a b : bytes_eqb a b = bytes_eqb b a.
Proof. by destruct (bytes_eqb_spec a b), (bytes_eqb_spec b a). Qed.

Lemma is_prefix_spec p s : is_prefix p s = true <-> exists r, s = p ++ r.
Proof.
  revert s. induction p as [|x p IH]; intros s; cbn.
  - split; [by exists s|done].
  - destruct s as [|y s]; [split; [done|intros [r [=]]]|].
    rewrite andb_true_iff, Z.eqb_eq, IH. split.
    + intros [-> [r ->]]. by exists r.
    + intros [r [= -> ->]]. split; [done|by exists r].
Qed.

Lemma c_str_id s : 0 ∉ s -> c_str s = s.
Proof.
  induction s as [|c s IH]; intros Hs; [done|]. cbn.
  apply not_elem_of_cons in Hs as [Hc Hs].
  rewrite (proj2 (Z.eqb_neq c 0)) by congruence. by rewrite IH.
Qed.

Lemma c_str_idemp s : c_str (c_str s) = c_str s.
Proof.
  induction s as [|c s IH]; [done|]. cbn. destruct (c =? 0) eqn:E; cbn; [done|]. by rewrite E, IH.
Qed.

(** *** Case folding: what [strcasecmp] compares. *)

Definition fold_case (s : bytes) : bytes := map tolower (c_str s).

(** Lexicographic order. *)
Fixpoint lexlt (a b : bytes) : bool :=
  match a, b with
  | _, [] => false
  | [], _ :: _ => true
  | x :: a, y :: b => (x <? y) || ((x =? y) && lexlt a b)
  end.

Lemma lexlt_irrefl a : lexlt a a = false.
Proof. induction a as [|x a IH]; [done|]. cbn. by rewrite Z.ltb_irrefl, Z.eqb_refl, IH. Qed.

Lemma lexlt_trans a b c : lexlt a b = true -> lexlt b c = true -> lexlt a c = true.
Proof.
  revert b c. induction a as [|x a IH]; intros [|y b] [|z c]; cbn; try done.
  rewrite !orb_true_iff, !andb_true_iff, !Z.ltb_lt, !Z.eqb_eq.
  intros [H1|[-> H1]] [H2|[-> H2]]; try (left; lia). right. eauto.
Qed.

Lemma lexlt_total a b : lexlt a b = false -> lexlt b a = false -> a = b.
Proof.
  revert b. induction a as [|x a IH]; intros [|y b]; cbn; try done.
  rewrite !orb_false_iff, !andb_false_iff, !Z.ltb_ge, !Z.eqb_neq.
  intros [H1 H2] [H3 H4]. assert (x = y) as -> by lia.
  destruct H2, H4; try done. f_equal. auto.
Qed.

Lemma casecmp_lt a b : (casecmp a b <? 0) = lexlt (map tolower a) (map tolower b).
Proof.
  revert b. induction a as [|x a IH]; intros [|y b]; cbn [casecmp map lexlt]; try done.
  destruct (Z.eqb_spec (tolower x - tolower y) 0) as [E|E].
  - rewrite IH, (proj2 (Z.ltb_ge _ _)), (proj2 (Z.eqb_eq _ _)) by lia. done.
  - rewrite (proj2 (Z.eqb_neq (tolower x) (tolower y))) by lia. cbn. rewrite orb_false_r.
    destruct (Z.ltb_spec (tolower x) (tolower y)), (Z.ltb_spec (tolower x - tolower y) 0); lia || done.
Qed.

Lemma casecmp_eq a b : (casecmp a b =? 0) = bytes_eqb (map tolower a) (map tolower b).
Proof.
  revert b. induction a as [|x a IH]; intros [|y b]; cbn [casecmp map bytes_eqb]; try done.
  destruct (Z.eqb_spec (tolower x - tolower y) 0) as [E|E].
  - by rewrite IH, (proj2 (Z.eqb_eq (tolower x) (tolower y))) by lia.
  - by rewrite (proj2 (Z.eqb_neq (tolower x) (tolower y))), (proj2 (Z.eqb_neq _ _)) by lia.
Qed.

Lemma strcasecmp_eq a b : (strcasecmp a b =? 0) = bytes_eqb (fold_case a) (fold_case b).
Proof. apply casecmp_eq. Qed.

Lemma strcasecmp_lt a b : (strcasecmp a b <? 0) = lexlt (fold_case a) (fold_case b).
Proof. apply casecmp_lt. Qed.

(** *** Decimal numbers *)

Lemma undec_snoc s c : undec (s ++ [c]) = undec s * 10 + (c - 48).
Proof. unfold undec. by rewrite fold_left_app. Qed.

Lemma dec_go_spec fuel : forall n acc, (0 < fuel)%nat -> 0 <= n < 10 ^ Z.of_nat fuel ->
  exists ds, dec_go fuel n acc = ds ++ acc /\ undec ds = n /\ ds <> [] /\ forallb is_digit ds = true.
Proof.
  induction fuel as [|fuel IH]; intros n acc Hf Hn; [lia|]. cbn [dec_go].
  pose proof (Z.mod_pos_bound n 10 ltac:(lia)) as Hm.
  assert (is_digit (48 + n mod 10) = true) as Hd
    by (unfold is_digit; rewrite andb_true_iff, !Z.leb_le; lia).
  destruct (Z.eqb_spec (n / 10) 0) as [E|E].
  - exists [48 + n mod 10]. split_and!; try done; [|cbn [forallb]; by rewrite Hd].
    cbn. rewrite (Z.div_mod n 10) at 2 by lia. lia.
  - pose proof (Z.div_mod n 10 ltac:(lia)).
    assert (0 <= n / 10) by (apply Z.div_pos; lia).
    rewrite Nat2Z.inj_succ, Z.pow_succ_r in Hn by lia.
    assert (0 < fuel)%nat by (destruct fuel; [cbn in Hn|]; lia).
    assert (n / 10 < 10 ^ Z.of_nat fuel) by (apply Z.div_lt_upper_bound; lia).
    destruct (IH (n / 10) (48 + n mod 10 :: acc)) as (ds & -> & Hu & Hne & Hall); [lia..|].
    exists (ds ++ [48 + n mod 10]). split_and!.
    + by rewrite <-app_assoc.
    + rewrite undec_snoc, Hu. lia.
    + by destruct ds.
    + by rewrite forallb_app, Hall; cbn [forallb]; rewrite Hd.
Qed.

Lemma dec_spec n : 0 <= n < 2 ^ 64 ->
  undec (dec n) = n /\ dec n <> [] /\ forallb is_digit (dec n) = true.
Proof.
  intros Hn. destruct (dec_go_spec 20 n []) as (ds & E & H); [lia| |].
  - split; [lia|]. apply Z.lt_trans with (2 ^ 64); [lia|]. by vm_compute.
  - unfold dec. by rewrite E, app_nil_r.
Qed.

Lemma digits_value_spec ds : forallb is_digit ds = true -> forall acc c rest, is_digit c = false ->
  digits_value acc (ds ++ c :: rest) = fold_left (fun v d => v * 10 + (d - 48)) ds acc.
Proof.
  induction ds as [|d ds IH]; intros Hd acc c rest Hc; cbn [app digits_value fold_left].
  - by rewrite Hc.
  - cbn in Hd. apply andb_true_iff in Hd as [H1 H2]. rewrite H1. by apply IH.
Qed.

Lemma atoi_dec n c rest : 0 <= n < 2 ^ 64 -> is_digit c = false -> atoi (dec n ++ c :: rest) = n.
Proof.
  intros Hn Hc. destruct (dec_spec n Hn) as (Hu & Hne & Hd). destruct (dec n) as [|d ds] eqn:E; [done|].
  assert (is_digit d = true) as H1 by (cbn in Hd; by apply andb_true_iff in Hd as [? _]).
  cbn [app atoi]. unfold is_digit in H1. apply andb_true_iff in H1 as [Hlo%Z.leb_le Hhi%Z.leb_le].
  rewrite (proj2 (Z.eqb_neq d 32)), (proj2 (Z.leb_gt d 13)), andb_false_r by lia. cbn [orb].
  rewrite (proj2 (Z.eqb_neq d 45)), (proj2 (Z.eqb_neq d 43)) by lia.
  change (d :: ds ++ c :: rest) with ((d :: ds) ++ c :: rest).
  rewrite (digits_value_spec (d :: ds) Hd) by done. exact Hu.
Qed.

Lemma dec_no c n : 0 <= n < 2 ^ 64 -> is_digit c = false -> c ∉ dec n.
Proof.
  intros Hn Hc Hin. destruct (dec_spec n Hn) as (_ & _ & Hd).
  rewrite forallb_forall in Hd. apply list_elem_of_In, Hd in Hin. congruence.
Qed.
