(* ===== verification/Endian.v ===== *)
(** * Byte order ([include/sylar/endian.hh])

    The byte representation of fixed-width integers in memory, the byte swaps
    of [endian.hh] and their algebra.  The byte order of the machine the
    program is compiled for ([SYLAR_BYTE_ORDER]) is a parameter [host]: every
    statement holds on both kinds of machine. *)
From S2P Require Import Prelude.

(** [src/include/sylar/endian.hh:4-5 SYLAR_LITTLE_ENDIAN] *)
Inductive endian :=
| SYLAR_LITTLE_ENDIAN
| SYLAR_BIG_ENDIAN.

#[export] Instance endian_eq_dec : EqDecision endian.
Proof. solve_decision. Defined.

(** The [n] low-order bytes of an integer, least significant first, and back. *)
Fixpoint le_split (n : nat) (z : Z) : list Z :=
  match n with
  | O => []
  | S n => z mod 256 :: le_split n (z / 256)
  end.

Fixpoint le_combine (bs : list Z) : Z :=
  match bs with
  | [] => 0
  | b :: bs => b + 256 * le_combine bs
  end.

(** [bswap_16], [bswap_32] and [bswap_64] of [<byteswap.h>]: the value whose
    bytes are those of the argument in reverse order. *)
Definition bswap (n : nat) (z : Z) : Z := le_combine (rev (le_split n z)).

(** An [n]-byte C++ integer type: [n] bytes, signed or not. *)
Record int_type := IntType { int_size : nat; int_signed : bool }.

Definition int_bits (t : int_type) : Z := 8 * Z.of_nat (int_size t).

(** Conversion of an arbitrary integer to the type (two's complement). *)
Definition int_cast (t : int_type) (z : Z) : Z :=
  if int_signed t then sgn (int_bits t) z else z mod 2 ^ int_bits t.

Definition int_range (t : int_type) (z : Z) : Prop :=
  if int_signed t then - 2 ^ (int_bits t - 1) <= z < 2 ^ (int_bits t - 1)
  else 0 <= z < 2 ^ int_bits t.

Abbreviation int8_t := (IntType 1 true).
Abbreviation uint8_t := (IntType 1 false).
Abbreviation int16_t := (IntType 2 true).
Abbreviation uint16_t := (IntType 2 false).
Abbreviation int32_t := (IntType 4 true).
Abbreviation uint32_t := (IntType 4 false).
Abbreviation int64_t := (IntType 8 true).
Abbreviation uint64_t := (IntType 8 false).

(** [src/include/sylar/endian.hh:16-41 byteswap]
    [(T)bswap_N((uintN_t)value)] for the three widths. *)
Definition byteswap (t : int_type) (value : Z) : Z :=
  int_cast t (bswap (int_size t) (value mod 2 ^ int_bits t)).

Section Host.
Variable host : endian.

(** The bytes of an object of type [t] as [memcpy] sees them. *)
Definition mem_of (t : int_type) (v : Z) : list Z :=
  let bs := le_split (int_size t) v in
  match host with SYLAR_LITTLE_ENDIAN => bs | SYLAR_BIG_ENDIAN => rev bs end.

Definition of_mem (t : int_type) (bs : list Z) : Z :=
  int_cast t
    (le_combine match host with SYLAR_LITTLE_ENDIAN => bs | SYLAR_BIG_ENDIAN => rev bs end).

(** [src/include/sylar/endian.hh:50-80 byteswapOnLittleEndian] *)
Definition byteswapOnLittleEndian (t : int_type) (v : Z) : Z :=
  match host with
  | SYLAR_BIG_ENDIAN => v
  | SYLAR_LITTLE_ENDIAN => byteswap t v
  end.
End Host.

(** ** Splitting and combining bytes *)

Lemma length_le_split n z : length (le_split n z) = n.
Proof. revert z; induction n; cbn; auto. Qed.

Lemma le_split_bytes n z : Forall is_byte (le_split n z).
Proof.
  revert z; induction n; cbn; constructor; auto.
  apply Z.mod_pos_bound. lia.
Qed.

Lemma pow256_succ n : 2 ^ (8 * Z.of_nat (S n)) = 256 * 2 ^ (8 * Z.of_nat n).
Proof. change 256 with (2 ^ 8). rewrite <-Z.pow_add_r by lia. f_equal. lia. Qed.

Lemma le_combine_split n z : le_combine (le_split n z) = z mod 2 ^ (8 * Z.of_nat n).
Proof.
  revert z; induction n as [|n IH]; intros z; cbn [le_split le_combine].
  - rewrite Z.mod_1_r. done.
  - rewrite IH, pow256_succ. rewrite Z.rem_mul_r by lia. done.
Qed.

Lemma le_combine_range bs :
  Forall is_byte bs -> 0 <= le_combine bs < 2 ^ (8 * Z.of_nat (length bs)).
Proof.
  induction 1 as [|b bs Hb _ IH]; cbn [le_combine length]; [done|].
  unfold is_byte in Hb. rewrite pow256_succ. lia.
Qed.

Lemma split_le_combine bs : Forall is_byte bs -> le_split (length bs) (le_combine bs) = bs.
Proof.
  induction 1 as [|b bs Hb _ IH]; cbn [le_split le_combine length]; [done|].
  unfold is_byte in Hb. f_equal.
  - rewrite Z.mul_comm, Z.mod_add by lia. apply Z.mod_small. lia.
  - rewrite Z.mul_comm, Z.div_add by lia. rewrite Z.div_small by lia. done.
Qed.

Lemma le_split_mod n z : le_split n (z mod 2 ^ (8 * Z.of_nat n)) = le_split n z.
Proof.
  rewrite <-le_combine_split. rewrite <-(length_le_split n z) at 1.
  apply split_le_combine, le_split_bytes.
Qed.

(** ** Byte swaps *)

Lemma le_split_bswap n z : le_split n (bswap n z) = rev (le_split n z).
Proof.
  unfold bswap. rewrite <-(length_le_split n z) at 1. rewrite <-length_rev.
  apply split_le_combine. apply Forall_rev, le_split_bytes.
Qed.

Lemma bswap_range n z : 0 <= bswap n z < 2 ^ (8 * Z.of_nat n).
Proof.
  pose proof (le_combine_range (rev (le_split n z))) as H.
  rewrite length_rev, length_le_split in H. apply H, Forall_rev, le_split_bytes.
Qed.

Lemma bswap_bswap n z : bswap n (bswap n z) = z mod 2 ^ (8 * Z.of_nat n).
Proof.
  unfold bswap at 1. rewrite le_split_bswap, rev_involutive. apply le_combine_split.
Qed.

Section IntType.
Variable t : int_type.
Hypothesis Ht : (0 < int_size t)%nat.

Lemma int_bits_pos : 0 < int_bits t.
Proof. unfold int_bits. lia. Qed.

Lemma int_cast_range z : int_range t (int_cast t z).
Proof.
  pose proof int_bits_pos. unfold int_range, int_cast. destruct (int_signed t).
  - by apply sgn_range.
  - apply Z.mod_pos_bound. lia.
Qed.

Lemma int_cast_mod z : int_cast t z mod 2 ^ int_bits t = z mod 2 ^ int_bits t.
Proof.
  unfold int_cast. destruct (int_signed t).
  - apply mod_sgn, int_bits_pos.
  - apply Zmod_mod.
Qed.

Lemma int_cast_of_mod z : int_range t z -> int_cast t (z mod 2 ^ int_bits t) = z.
Proof.
  pose proof int_bits_pos. unfold int_range, int_cast. destruct (int_signed t); intros Hz.
  - by apply sgn_mod.
  - rewrite Zmod_mod. by apply Z.mod_small.
Qed.

Lemma le_split_cast z : le_split (int_size t) (int_cast t z) = le_split (int_size t) z.
Proof.
  rewrite <-le_split_mod. fold (int_bits t). rewrite int_cast_mod.
  unfold int_bits. apply le_split_mod.
Qed.

Lemma le_split_byteswap z : le_split (int_size t) (byteswap t z) = rev (le_split (int_size t) z).
Proof.
  unfold byteswap. rewrite le_split_cast, le_split_bswap.
  unfold int_bits. by rewrite le_split_mod.
Qed.

Lemma byteswap_range z : int_range t (byteswap t z).
Proof. apply int_cast_range. Qed.

(** Swapping the bytes of a value of the type twice gives it back. *)
Lemma byteswap_involutive z : int_range t z -> byteswap t (byteswap t z) = z.
Proof.
  intros Hz. unfold byteswap at 1. rewrite <-(int_cast_of_mod z) at 2 by done. f_equal.
  unfold byteswap. rewrite int_cast_mod.
  rewrite (Z.mod_small (bswap _ _)) by apply bswap_range.
  rewrite bswap_bswap. unfold int_bits. apply Zmod_mod.
Qed.

Lemma length_mem_of host z : length (mem_of host t z) = int_size t.
Proof. unfold mem_of. destruct host; rewrite ?length_rev; apply length_le_split. Qed.

Lemma mem_of_bytes host z : Forall is_byte (mem_of host t z).
Proof. unfold mem_of. destruct host; [|apply Forall_rev]; apply le_split_bytes. Qed.

(** Storing an object to memory and loading it back. *)
Lemma of_mem_mem_of host z : int_range t z -> of_mem host t (mem_of host t z) = z.
Proof.
  intros Hz. transitivity (int_cast t (z mod 2 ^ int_bits t)); [|by apply int_cast_of_mod].
  unfold of_mem, mem_of, int_bits. rewrite <-le_combine_split.
  destruct host; [done|]. by rewrite rev_involutive.
Qed.

Lemma of_mem_range host bs : int_range t (of_mem host t bs).
Proof. apply int_cast_range. Qed.

(** Swapping a value reverses its memory image, on either machine. *)
Lemma mem_of_byteswap host z : mem_of host t (byteswap t z) = rev (mem_of host t z).
Proof. unfold mem_of. rewrite le_split_byteswap. by destruct host. Qed.
End IntType.

#[export] Hint Resolve int_cast_range byteswap_range of_mem_range mem_of_bytes : sylar.
