(* ===== verification/Varint.v ===== *)
(** * Variable-length integers ([src/src/bytearray.cc])

    The zigzag mapping between signed and unsigned integers and the base-128
    coding ("varint") of [ByteArray::writeUint32/64] and [readUint32/64],
    apart from the buffer they write to and read from. *)
From S2P Require Import Prelude.

(** ** Zigzag

    [<<] on a negative signed operand is the two's-complement shift (what GCC
    documents it computes, and what C++20 prescribes). *)

(** [src/src/bytearray.cc:112-114 EncodingZigzag32] *)
Definition EncodingZigzag32 (v : Z) : Z :=
  u32 (Z.lxor (s32 (Z.shiftl v 1)) (Z.shiftr v (4 * 8 - 1))).

(** [src/src/bytearray.cc:116-118 EncodingZigzag64] *)
Definition EncodingZigzag64 (v : Z) : Z :=
  u64 (Z.lxor (s64 (Z.shiftl v 1)) (Z.shiftr v (8 * 8 - 1))).

(** [src/src/bytearray.cc:120-122 DecodingZigzag32] *)
Definition DecodingZigzag32 (v : Z) : Z :=
  s32 (Z.lxor (Z.shiftr v 1) (u32 (- Z.land v 1))).

(** [src/src/bytearray.cc:124-126 DecodingZigzag64] *)
Definition DecodingZigzag64 (v : Z) : Z :=
  s64 (Z.lxor (Z.shiftr v 1) (u64 (- Z.land v 1))).

(** ** Base-128 coding *)

(** The [while(value >= 0x80)] loop of [writeUint32]/[writeUint64] and the
    store after it.  [tmp] holds the [i] bytes stored so far in an array of
    [cap] bytes; a store past its end is undefined behaviour. *)
Fixpoint varint_loop (fuel cap : nat) (value : Z) (tmp : list Z) : result (list Z) :=
  match fuel with
  | O => Err OutOfFuel
  | S fuel =>
      if (length tmp <? cap)%nat then
        if value >=? 0x80
        then varint_loop fuel cap (Z.shiftr value 7)
               (tmp ++ [u8 (Z.lor (Z.land value 0x7F) 0x80)])
        else Ok (tmp ++ [u8 value])
      else Err (Undef out_of_bounds)
  end.

(** [src/src/bytearray.cc:133-148 ByteArray::writeUint32]
    The bytes [tmp[0..i)] handed to [write]; [uint8_t tmp[5]]. *)
Definition varint32_bytes (value : Z) : result (list Z) := varint_loop 6 5 value [].

(** [src/src/bytearray.cc:156-166 ByteArray::writeUint64]
    The bytes [v[0..i)] handed to [write]; [uint8_t v[10]]. *)
Definition varint64_bytes (value : Z) : result (list Z) := varint_loop 11 10 value [].

(** The decoding loop [for(int i = 0; i < w; i += 7)] over a list of bytes:
    the value and the bytes left, [None] when the input ends first. *)
Fixpoint varint_read (fuel : nat) (w i res : Z) (bs : list Z) : option (Z * list Z) :=
  match fuel with
  | O => Some (res, bs)
  | S fuel =>
      if i <? w then
        match bs with
        | [] => None
        | b :: bs =>
            if b <? 0x80
            then Some (Z.lor res (Z.shiftl b i mod 2 ^ w), bs)
            else varint_read fuel w (i + 7)
                   (Z.lor res (Z.shiftl (Z.land b 0x7f) i mod 2 ^ w)) bs
        end
      else Some (res, bs)
  end.

(** The reference coding: groups of seven bits, least significant first, all
    but the last with the high bit set. *)
Fixpoint varint_ref (k : nat) (v : Z) : list Z :=
  match k with
  | O => [v]
  | S k => if v <? 128 then [v] else (v mod 128 + 128) :: varint_ref k (v / 128)
  end.

(** ** Zigzag is a bijection *)

Lemma lxor_m1 x : Z.lxor x (-1) = - x - 1.
Proof. rewrite Z.lxor_m1_r. unfold Z.lnot. lia. Qed.

Lemma lxor_ones x n : 0 <= n -> 0 <= x < 2 ^ n -> Z.lxor x (2 ^ n - 1) = 2 ^ n - 1 - x.
Proof.
  intros Hn Hx. replace (2 ^ n - 1) with (Z.ones n) by (rewrite Z.ones_equiv; lia).
  assert (Z.land x (Z.lxor x (Z.ones n)) = 0) as Hd.
  { apply Z.bits_inj'. intros i Hi. rewrite Z.land_spec, Z.lxor_spec, Z.bits_0.
    destruct (Z.lt_ge_cases i n).
    - rewrite Z.ones_spec_low by lia. by destruct (Z.testbit x i).
    - rewrite <-(Z.mod_small x (2 ^ n)) by lia.
      rewrite Z.mod_pow2_bits_high by lia. done. }
  pose proof (Z.add_nocarry_lxor x (Z.lxor x (Z.ones n)) Hd) as E.
  rewrite <-Z.lxor_assoc, Z.lxor_nilpotent, Z.lxor_0_l in E. lia.
Qed.

Section Zigzag.
Variable w : Z.
Hypothesis Hw : 1 < w.

Definition zigzag_enc (v : Z) : Z :=
  Z.lxor (sgn w (Z.shiftl v 1)) (Z.shiftr v (w - 1)) mod 2 ^ w.
Definition zigzag_dec (v : Z) : Z :=
  sgn w (Z.lxor (Z.shiftr v 1) ((- Z.land v 1) mod 2 ^ w)).

Lemma pow_w : 2 ^ w = 2 * 2 ^ (w - 1).
Proof. rewrite <-Z.pow_succ_r by lia. f_equal. lia. Qed.

Lemma zigzag_enc_eq v :
  - 2 ^ (w - 1) <= v < 2 ^ (w - 1) ->
  zigzag_enc v = if v <? 0 then - 2 * v - 1 else 2 * v.
Proof.
  intros Hv. unfold zigzag_enc. pose proof pow_w as E.
  rewrite Z.shiftl_mul_pow2, Z.shiftr_div_pow2 by lia. change (2 ^ 1) with 2.
  destruct (Z.ltb_spec v 0).
  - assert (v / 2 ^ (w - 1) = -1) as ->.
    { symmetry. apply Z.div_unique with (v + 2 ^ (w - 1)); lia. }
    rewrite lxor_m1. unfold sgn.
    assert (((v * 2 + 2 ^ (w - 1)) mod 2 ^ w) = v * 2 + 2 ^ (w - 1)
            \/ ((v * 2 + 2 ^ (w - 1)) mod 2 ^ w) = v * 2 + 2 ^ (w - 1) + 2 ^ w) as [-> | ->].
    { destruct (Z.le_gt_cases 0 (v * 2 + 2 ^ (w - 1))).
      - left. apply Z.mod_small. lia.
      - right. symmetry. apply Z.mod_unique with (-1); lia. }
    + rewrite Z.mod_small; lia.
    + symmetry. apply Z.mod_unique with (-1); lia.
  - rewrite Z.div_small by lia. rewrite Z.lxor_0_r, mod_sgn by lia.
    rewrite Z.mod_small; lia.
Qed.

Lemma zigzag_dec_eq u :
  0 <= u < 2 ^ w ->
  zigzag_dec u = if Z.even u then u / 2 else - (u / 2) - 1.
Proof.
  intros Hu. unfold zigzag_dec. pose proof pow_w as E.
  rewrite Z.shiftr_div_pow2 by lia. change (2 ^ 1) with 2.
  change 1 with (Z.ones 1) at 1. rewrite Z.land_ones by lia. change (2 ^ 1) with 2.
  rewrite Zmod_even.
  pose proof (Z.div_mod u 2 ltac:(lia)). pose proof (Z.mod_pos_bound u 2 ltac:(lia)).
  destruct (Z.even u).
  - rewrite Z.mod_0_l by lia. rewrite Z.lxor_0_r. unfold sgn. rewrite Z.mod_small; lia.
  - replace (-(1) mod 2 ^ w) with (2 ^ w - 1) by (apply Z.mod_unique with (-1); lia).
    rewrite lxor_ones by lia. unfold sgn.
    rewrite <-(Z.mod_unique (2 ^ w - 1 - u / 2 + 2 ^ (w - 1)) (2 ^ w) 1
                 (2 ^ (w - 1) - 1 - u / 2)); lia.
Qed.

Lemma zigzag_dec_enc v : - 2 ^ (w - 1) <= v < 2 ^ (w - 1) -> zigzag_dec (zigzag_enc v) = v.
Proof.
  intros Hv. pose proof pow_w as E. rewrite zigzag_enc_eq by done.
  destruct (Z.ltb_spec v 0).
  - rewrite zigzag_dec_eq by lia.
    replace (Z.even (-2 * v - 1)) with false
      by (replace (-2 * v - 1) with (1 + 2 * (- v - 1)) by lia; by rewrite Z.even_add_mul_2).
    replace ((-2 * v - 1) / 2) with (- v - 1); [lia|].
    apply Z.div_unique with 1; lia.
  - rewrite zigzag_dec_eq by lia. rewrite Z.even_mul. cbn.
    rewrite Z.mul_comm, Z.div_mul; lia.
Qed.

Lemma zigzag_enc_dec u : 0 <= u < 2 ^ w -> zigzag_enc (zigzag_dec u) = u.
Proof.
  intros Hu. pose proof pow_w as E. rewrite zigzag_dec_eq by done.
  pose proof (Z.div_mod u 2 ltac:(lia)) as D. rewrite Zmod_even in D.
  destruct (Z.even u).
  - rewrite zigzag_enc_eq by lia. bool_cases; lia.
  - rewrite zigzag_enc_eq by lia. bool_cases; lia.
Qed.

Lemma zigzag_enc_range v : 0 <= zigzag_enc v < 2 ^ w.
Proof. apply Z.mod_pos_bound. lia. Qed.

Lemma zigzag_dec_range u : - 2 ^ (w - 1) <= zigzag_dec u < 2 ^ (w - 1).
Proof. apply sgn_range. lia. Qed.
End Zigzag.

(** ** The coding loop computes the reference coding *)

Lemma u8_small x : 0 <= x < 256 -> u8 x = x.
Proof. apply Z.mod_small. Qed.

Lemma varint_group v :
  0 <= v -> u8 (Z.lor (Z.land v 0x7F) 0x80) = v mod 128 + 128.
Proof.
  intros Hv. change 0x7F with (Z.ones 7). rewrite Z.land_ones by lia. change (2 ^ 7) with 128.
  pose proof (Z.mod_pos_bound v 128 ltac:(lia)) as Hm.
  assert (Z.land (v mod 128) 0x80 = 0) as Hd.
  { apply Z.bits_inj'. intros i Hi. rewrite Z.land_spec, Z.bits_0.
    change 0x80 with (2 ^ 7). rewrite Z.pow2_bits_eqb by lia.
    destruct (Z.eqb_spec 7 i) as [<-|]; [|by rewrite andb_false_r].
    change 128 with (2 ^ 7). rewrite Z.mod_pow2_bits_high by lia. done. }
  rewrite <-Z.lxor_lor, <-Z.add_nocarry_lxor by done. apply u8_small. lia.
Qed.

Lemma varint_loop_ref k fuel cap v tmp :
  0 <= v < 2 ^ (7 * Z.of_nat (S k)) -> (k < fuel)%nat -> (length tmp + k < cap)%nat ->
  varint_loop fuel cap v tmp = Ok (tmp ++ varint_ref k v).
Proof.
  revert fuel v tmp. induction k as [|k IH]; intros fuel v tmp Hv Hf Hc;
    (destruct fuel as [|fuel]; [lia|]); cbn [varint_loop varint_ref];
    rewrite (proj2 (Nat.ltb_lt (length tmp) cap)) by lia; rewrite Z.geb_leb.
  - change (2 ^ _) with 128 in Hv. destruct (Z.leb_spec 0x80 v); [lia|]. by rewrite u8_small by lia.
  - destruct (Z.leb_spec 0x80 v), (Z.ltb_spec v 128); try lia; [|by rewrite u8_small by lia].
    rewrite varint_group by lia.
    rewrite Z.shiftr_div_pow2 by lia. change (2 ^ 7) with 128.
    rewrite IH; rewrite <-?app_assoc; [done| |lia|rewrite length_app; cbn; lia].
    split; [apply Z.div_pos; lia|]. apply Z.div_lt_upper_bound; [lia|].
    change 128 with (2 ^ 7). rewrite <-Z.pow_add_r by lia.
    replace (7 + 7 * Z.of_nat (S k)) with (7 * Z.of_nat (S (S k))) by lia. lia.
Qed.

Lemma varint32_bytes_ref v : 0 <= v < 2 ^ 32 -> varint32_bytes v = Ok (varint_ref 4 v).
Proof. intros. apply (varint_loop_ref 4); cbn; lia. Qed.

Lemma varint64_bytes_ref v : 0 <= v < 2 ^ 64 -> varint64_bytes v = Ok (varint_ref 9 v).
Proof. intros. apply (varint_loop_ref 9); cbn; lia. Qed.

Lemma length_varint_ref k v : (1 <= length (varint_ref k v) <= S k)%nat.
Proof.
  revert v; induction k as [|k IH]; intros v; cbn; [lia|].
  destruct (v <? 128); cbn; [lia|]. specialize (IH (v / 128)). lia.
Qed.

Lemma varint_ref_bytes k v :
  0 <= v < 2 ^ (7 * Z.of_nat (S k)) -> Forall is_byte (varint_ref k v).
Proof.
  revert v; induction k as [|k IH]; intros v Hv; cbn.
  - change (2 ^ _) with 128 in Hv. constructor; [unfold is_byte; lia|constructor].
  - destruct (Z.ltb_spec v 128); constructor; unfold is_byte; try lia; try by constructor.
    + pose proof (Z.mod_pos_bound v 128). lia.
    + apply IH. split; [apply Z.div_pos; lia|]. apply Z.div_lt_upper_bound; [lia|].
      change 128 with (2 ^ 7). rewrite <-Z.pow_add_r by lia.
      replace (7 + 7 * Z.of_nat (S k)) with (7 * Z.of_nat (S (S k))) by lia. lia.
Qed.

(** ** Decoding inverts the reference coding *)

(** Adding a group above the bits read so far. *)
Lemma lor_shiftl_add r b i : 0 <= i -> 0 <= r < 2 ^ i -> 0 <= b ->
  Z.lor r (Z.shiftl b i) = r + b * 2 ^ i.
Proof.
  intros Hi Hr Hb.
  assert (Z.land r (Z.shiftl b i) = 0) as Hd.
  { apply Z.bits_inj'. intros j Hj. rewrite Z.land_spec, Z.bits_0.
    destruct (Z.lt_ge_cases j i).
    - rewrite Z.shiftl_spec_low by lia. apply andb_false_r.
    - rewrite <-(Z.mod_small r (2 ^ i)) by lia.
      rewrite Z.mod_pow2_bits_high by lia. done. }
  rewrite <-Z.lxor_lor, <-Z.add_nocarry_lxor by done.
  by rewrite Z.shiftl_mul_pow2.
Qed.

(** The group value [b] at bit offset [i] fits in [w] bits because the whole
    remaining value does. *)
Lemma shiftl_mod_small b v i w :
  0 <= i -> 0 <= b <= v -> v * 2 ^ i < 2 ^ w -> Z.shiftl b i mod 2 ^ w = Z.shiftl b i.
Proof.
  intros Hi Hb Hv. apply Z.mod_small. rewrite Z.shiftl_mul_pow2 by done.
  pose proof (Z.pow_pos_nonneg 2 i ltac:(lia) ltac:(lia)). nia.
Qed.

Lemma varint_read_ref k fuel w i r v rest :
  0 <= i -> 0 < w -> 0 <= r < 2 ^ i -> 0 <= v < 2 ^ (7 * Z.of_nat (S k)) ->
  v * 2 ^ i < 2 ^ w -> i + 7 * Z.of_nat k < w -> (k < fuel)%nat ->
  varint_read fuel w i r (varint_ref k v ++ rest) = Some (r + v * 2 ^ i, rest).
Proof.
  revert fuel i r v. induction k as [|k IH]; intros fuel i r v Hi Hw Hr Hv Hvw Hk Hf;
    (destruct fuel as [|fuel]; [lia|]); cbn [varint_read varint_ref];
    rewrite (proj2 (Z.ltb_lt i w)) by lia.
  - change (2 ^ _) with 128 in Hv. cbn [app]. destruct (Z.ltb_spec v 0x80); [|lia].
    rewrite (shiftl_mod_small v v) by lia. rewrite lor_shiftl_add by lia. done.
  - destruct (Z.ltb_spec v 128); cbn [app].
    { destruct (Z.ltb_spec v 0x80); [|lia].
      rewrite (shiftl_mod_small v v) by lia. rewrite lor_shiftl_add by lia. done. }
    pose proof (Z.mod_pos_bound v 128 ltac:(lia)) as Hm.
    pose proof (Z.div_mod v 128 ltac:(lia)) as Hd.
    pose proof (Z.pow_pos_nonneg 2 i ltac:(lia) ltac:(lia)) as Hp.
    destruct (Z.ltb_spec (v mod 128 + 128) 0x80); [lia|].
    replace (Z.land (v mod 128 + 128) 0x7f) with (v mod 128).
    2:{ change 0x7f with (Z.ones 7). rewrite Z.land_ones by lia. change (2 ^ 7) with 128.
        rewrite <-Z.add_mod_idemp_r, Z.mod_same, Z.add_0_r, Zmod_mod by lia. done. }
    rewrite (shiftl_mod_small _ v) by lia. rewrite lor_shiftl_add by lia.
    assert (2 ^ (i + 7) = 128 * 2 ^ i) as E by (rewrite Z.pow_add_r by lia; lia).
    rewrite IH; rewrite ?E; try lia; try nia.
    + do 2 f_equal. nia.
    + split; [apply Z.div_pos; lia|]. apply Z.div_lt_upper_bound; [lia|].
      change 128 with (2 ^ 7). rewrite <-Z.pow_add_r by lia.
      replace (7 + 7 * Z.of_nat (S k)) with (7 * Z.of_nat (S (S k))) by lia. lia.
Qed.

(** The two instances the program uses. *)
Lemma varint32_read_back v rest :
  0 <= v < 2 ^ 32 -> varint_read 5 32 0 0 (varint_ref 4 v ++ rest) = Some (v, rest).
Proof.
  intros Hv. rewrite (varint_read_ref 4) by (cbn; lia). by rewrite Z.mul_1_r.
Qed.

Lemma varint64_read_back v rest :
  0 <= v < 2 ^ 64 -> varint_read 10 64 0 0 (varint_ref 9 v ++ rest) = Some (v, rest).
Proof.
  intros Hv. rewrite (varint_read_ref 9) by (cbn; lia). by rewrite Z.mul_1_r.
Qed.
