(* ===== verification/ByteArray.v ===== *)
(** * The serialisation buffer ([src/src/bytearray.cc], [include/sylar/bytearray.hh])

    [ByteArray] is a chain of equally sized memory blocks with a read/write
    position.  The chain is the list of its blocks in [next] order, the pointer
    [m_cur] an index into it ([None] for a null pointer).  [size_t] and
    [uint64_t] arithmetic wraps at 64 bits ([u64]); every pointer that is
    followed is checked, and a null one is the fault [Undef null_deref].  This
    file has the operations; [ByteArraySpec] has the invariant, the flat-buffer
    specification and the theorems. *)
From S2P Require Import Prelude Endian Varint.

(** What the operations depend on of the machine: its byte order, the
    indeterminate contents of freshly allocated memory, the value of
    [std::string::max_size] and the length of the longest string for which there is memory (short
    ones need none).  Blocks are always allocated. *)
Class Platform := {
  host : endian;
  junk : nat -> Z;
  junk_byte : forall i, is_byte (junk i);
  string_max_size : Z;
  string_memory : Z;
  string_limits : 15 <= string_memory <= string_max_size
}.

(** [src/include/sylar/bytearray.hh:32-53 ByteArray::Node]
    [next] is the position in the chain. *)
Record Node := { Node_ptr : list Z; Node_size : Z }.

(** [src/include/sylar/bytearray.hh:530-539 ByteArray] *)
Record ByteArray := {
  m_baseSize : Z;
  m_position : Z;
  m_capacity : Z;
  m_size : Z;
  m_endian : endian;
  m_nodes : list Node;
  m_cur : option nat
}.

Definition set_position (p : Z) (s : ByteArray) : ByteArray :=
  {| m_baseSize := m_baseSize s; m_position := p; m_capacity := m_capacity s;
     m_size := m_size s; m_endian := m_endian s; m_nodes := m_nodes s; m_cur := m_cur s |}.
Definition set_size (z : Z) (s : ByteArray) : ByteArray :=
  {| m_baseSize := m_baseSize s; m_position := m_position s; m_capacity := m_capacity s;
     m_size := z; m_endian := m_endian s; m_nodes := m_nodes s; m_cur := m_cur s |}.
Definition set_cur (c : option nat) (s : ByteArray) : ByteArray :=
  {| m_baseSize := m_baseSize s; m_position := m_position s; m_capacity := m_capacity s;
     m_size := m_size s; m_endian := m_endian s; m_nodes := m_nodes s; m_cur := c |}.
Definition set_nodes (ns : list Node) (s : ByteArray) : ByteArray :=
  {| m_baseSize := m_baseSize s; m_position := m_position s; m_capacity := m_capacity s;
     m_size := m_size s; m_endian := m_endian s; m_nodes := ns; m_cur := m_cur s |}.
Definition set_capacity (c : Z) (s : ByteArray) : ByteArray :=
  {| m_baseSize := m_baseSize s; m_position := m_position s; m_capacity := c;
     m_size := m_size s; m_endian := m_endian s; m_nodes := m_nodes s; m_cur := m_cur s |}.
Definition set_endian (e : endian) (s : ByteArray) : ByteArray :=
  {| m_baseSize := m_baseSize s; m_position := m_position s; m_capacity := m_capacity s;
     m_size := m_size s; m_endian := e; m_nodes := m_nodes s; m_cur := m_cur s |}.

(** [i->next]: the index of the following block, or a null pointer. *)
Definition next_of (ns : list Node) (i : nat) : option nat :=
  if (S i <? length ns)%nat then Some (S i) else None.

(** The index a non-null block pointer holds. *)
Definition idx (cur : option nat) : nat := match cur with Some i => i | None => 0%nat end.

(** The block a pointer points to. *)
Definition node_at (ns : list Node) (cur : option nat) : result Node :=
  match cur with
  | None => Err (Undef null_deref)
  | Some i => match ns !! i with Some n => Ok n | None => Err (Undef use_after_free) end
  end.

(** [src/src/bytearray.cc:46-51 ByteArray::~ByteArray]
    The blocks from [tmp] on are deleted, each with its memory ([~Node], lines 27 to
    31); the result is their order. *)
Fixpoint delete_loop (fuel : nat) (ns : list Node) (tmp : option nat) : result (list nat) :=
  match fuel with
  | O => Err OutOfFuel
  | S fuel =>
      match tmp with
      | None => Ok []
      | Some i =>
          match delete_loop fuel ns (next_of ns i) with Ok l => Ok (i :: l) | Err e => Err e end
      end
  end.

(** [src/src/bytearray.cc:44-52 ByteArray::~ByteArray] *)
Definition ByteArray_delete (s : ByteArray) : result (list nat) :=
  delete_loop (S (length (m_nodes s))) (m_nodes s) (match m_nodes s with [] => None | _ => Some 0%nat end).

Section Operations.
Context `{Platform}.

(** [src/src/bytearray.cc:15-19 ByteArray::Node::Node] *)
Definition Node_new (s : Z) : Node :=
  {| Node_ptr := junk <$> seq 0 (Z.to_nat s); Node_size := s |}.

(** [src/src/bytearray.cc:33-42 ByteArray::ByteArray] *)
Definition ByteArray_new (base_size : Z) : ByteArray :=
  {| m_baseSize := base_size; m_position := 0; m_capacity := base_size; m_size := 0;
     m_endian := SYLAR_BIG_ENDIAN; m_nodes := [Node_new base_size]; m_cur := Some 0%nat |}.

(** [src/include/sylar/bytearray.hh:508-508 ByteArray::getSizeForWrite] *)
Definition getSizeForWrite (s : ByteArray) : Z := u64 (m_capacity s - m_position s).

(** [src/include/sylar/bytearray.hh:513-513 ByteArray::getSizeForRead] *)
Definition getSizeForRead (s : ByteArray) : Z :=
  if m_position s >? m_size s then 0 else u64 (m_size s - m_position s).

(** [src/include/sylar/bytearray.hh:518-518 ByteArray::getSizeForAllFreeCapacity] *)
Definition getSizeForAllFreeCapacity (s : ByteArray) : Z := u64 (m_capacity s - m_size s).

(** [src/src/bytearray.cc:706-714 ByteArray::getNodeCount] *)
Definition getNodeCount (s : ByteArray) : nat := length (m_nodes s).

(** [src/src/bytearray.cc:716-749 ByteArray::addCapacityIfNeeded] *)
Definition addCapacityIfNeeded (ensureCapacity : Z) : M ByteArray unit := fun s =>
  if ensureCapacity =? 0 then (Ok tt, s) else
  let old_cap := getSizeForWrite s in
  if old_cap >=? ensureCapacity then (Ok tt, s) else
  let ensureCapacity := u64 (ensureCapacity - old_cap) in
  let count := ensureCapacity / m_baseSize s
               + (if ensureCapacity mod m_baseSize s =? 0 then 0 else 1) in
  let first := length (m_nodes s) in
  let s1 := set_nodes (m_nodes s ++ replicate (Z.to_nat count) (Node_new (m_baseSize s))) s in
  let s2 := set_capacity (u64 (m_capacity s + count * m_baseSize s)) s1 in
  (Ok tt, if old_cap =? 0 then set_cur (Some first) s2 else s2).

(** [memcpy] of [xs] into block [i] at offset [npos]. *)
Definition node_memcpy (i : nat) (npos : Z) (xs : list Z) : M ByteArray unit := fun s =>
  match m_nodes s !! i with
  | None => (Err (Undef use_after_free), s)
  | Some n =>
      if npos + Z.of_nat (length xs) <=? Z.of_nat (length (Node_ptr n)) then
        let n' := {| Node_ptr := splice (Z.to_nat npos) xs (Node_ptr n);
                     Node_size := Node_size n |} in
        (Ok tt, set_nodes (<[i := n']> (m_nodes s)) s)
      else (Err (Undef out_of_bounds), s)
  end.

(** [memcpy] of [len] bytes out of a block. *)
Definition node_read (n : Node) (npos len : Z) : result (list Z) :=
  if npos + len <=? Z.of_nat (length (Node_ptr n))
  then Ok (slice (Z.to_nat npos) (Z.to_nat len) (Node_ptr n))
  else Err (Undef out_of_bounds).

(** [src/src/bytearray.cc:372-394 ByteArray::write]
    The copying loop; [bpos] and [size] delimit what is left of [buf]. *)
Fixpoint write_loop (fuel : nat) (buf : list Z) (bpos size npos ncap : Z) : M ByteArray unit :=
  match fuel with
  | O => fail OutOfFuel
  | S fuel =>
    if size >? 0 then
      ns ← gets m_nodes; cur ← gets m_cur;
      node ← lift (node_at ns cur);
      let i := idx cur in
      if ncap >=? size then
        node_memcpy i npos (slice (Z.to_nat bpos) (Z.to_nat size) buf);;
        (if Node_size node =? u64 (npos + size)
         then modify (set_cur (next_of ns i)) else mret ());;
        modify (fun s => set_position (u64 (m_position s + size)) s);;
        write_loop fuel buf (u64 (bpos + size)) 0 npos ncap
      else
        node_memcpy i npos (slice (Z.to_nat bpos) (Z.to_nat ncap) buf);;
        modify (fun s => set_position (u64 (m_position s + ncap)) s);;
        let cur' := next_of ns i in
        modify (set_cur cur');;
        node' ← lift (node_at ns cur');
        write_loop fuel buf (u64 (bpos + ncap)) (u64 (size - ncap)) 0 (Node_size node')
    else mret ()
  end.

(** [src/src/bytearray.cc:361-399 ByteArray::write]
    The fuel is one more than the number of blocks, enough because every
    iteration but the last moves to the next block. *)
Definition ByteArray_write (buf : list Z) : M ByteArray unit :=
  let size := Z.of_nat (length buf) in
  if size =? 0 then mret () else
  addCapacityIfNeeded size;;
  st ← get;
  node ← lift (node_at (m_nodes st) (m_cur st));
  let npos := m_position st mod m_baseSize st in
  let ncap := u64 (Node_size node - npos) in
  write_loop (S (S (length (m_nodes st)))) buf 0 size npos ncap;;
  modify (fun s => if m_position s >? m_size s then set_size (m_position s) s else s).

(** [src/src/bytearray.cc:409-427 ByteArray::read]
    The copying loop; [buf] is what has been copied to the caller's buffer. *)
Fixpoint read_loop (fuel : nat) (buf : list Z) (read_size npos ncap : Z) : M ByteArray (list Z) :=
  match fuel with
  | O => fail OutOfFuel
  | S fuel =>
    if read_size >? 0 then
      ns ← gets m_nodes; cur ← gets m_cur;
      node ← lift (node_at ns cur);
      let i := idx cur in
      if ncap >=? read_size then
        xs ← lift (node_read node npos read_size);
        (if Node_size node =? u64 (npos + read_size)
         then modify (set_cur (next_of ns i)) else mret ());;
        modify (fun s => set_position (u64 (m_position s + read_size)) s);;
        read_loop fuel (buf ++ xs) 0 npos ncap
      else
        xs ← lift (node_read node npos ncap);
        modify (fun s => set_position (u64 (m_position s + ncap)) s);;
        let cur' := next_of ns i in
        modify (set_cur cur');;
        node' ← lift (node_at ns cur');
        read_loop fuel (buf ++ xs) (u64 (read_size - ncap)) 0 (Node_size node')
    else mret buf
  end.

(** [src/src/bytearray.cc:400-428 ByteArray::read] *)
Definition ByteArray_read (read_size : Z) : M ByteArray (list Z) :=
  st ← get;
  if read_size >? getSizeForRead st then fail (Throw out_of_range) else
  node ← lift (node_at (m_nodes st) (m_cur st));
  let npos := m_position st mod m_baseSize st in
  let ncap := u64 (Node_size node - npos) in
  read_loop (S (S (length (m_nodes st)))) [] read_size npos ncap.

(** [src/src/bytearray.cc:440-452 ByteArray::readForPeek]
    The copying loop, shared by [readForPeek] and [readForPeekAt]. *)
Fixpoint peek_loop (fuel : nat) (ns : list Node) (cur : option nat) (buf : list Z)
    (read_size npos ncap : Z) : result (list Z) :=
  match fuel with
  | O => Err OutOfFuel
  | S fuel =>
    if read_size >? 0 then
      match node_at ns cur with
      | Err e => Err e
      | Ok node =>
        if ncap >=? read_size then
          match node_read node npos read_size with
          | Err e => Err e | Ok xs => Ok (buf ++ xs) end
        else
          match node_read node npos ncap with
          | Err e => Err e
          | Ok xs =>
            let cur' := next_of ns (idx cur) in
            match node_at ns cur' with
            | Err e => Err e
            | Ok node' =>
              peek_loop fuel ns cur' (buf ++ xs) (u64 (read_size - ncap)) 0 (Node_size node')
            end
          end
      end
    else Ok buf
  end.

(** [src/src/bytearray.cc:430-453 ByteArray::readForPeek] *)
Definition readForPeek (s : ByteArray) (read_size : Z) : result (list Z) :=
  if read_size >? u64 (m_size s - m_position s) then Err (Throw out_of_range) else
  match node_at (m_nodes s) (m_cur s) with
  | Err e => Err e
  | Ok node =>
      let npos := m_position s mod m_baseSize s in
      peek_loop (S (S (length (m_nodes s)))) (m_nodes s) (m_cur s) [] read_size npos
        (u64 (Node_size node - npos))
  end.

(** [src/src/bytearray.cc:465-471 ByteArray::readForPeekAt]
    Locating the first block: its index, its size and the offset in it. *)
Fixpoint locate_loop (fuel : nat) (ns : list Node) (cur : option nat) (pos : Z)
    : result (option nat * Node * Z) :=
  match fuel with
  | O => Err OutOfFuel
  | S fuel =>
    match node_at ns cur with
    | Err e => Err e
    | Ok node =>
      if pos >=? Node_size node
      then locate_loop fuel ns (next_of ns (idx cur)) (u64 (pos - Node_size node))
      else Ok (cur, node, pos)
    end
  end.

(** [src/src/bytearray.cc:455-490 ByteArray::readForPeekAt] *)
Definition readForPeekAt (s : ByteArray) (read_size position : Z) : result (list Z) :=
  if read_size >? getSizeForRead s then Err (Throw out_of_range) else
  let ns := m_nodes s in
  match locate_loop (S (length ns)) ns (Some 0%nat) position with
  | Err e => Err e
  | Ok (cur, node, npos) =>
      peek_loop (S (S (length ns))) ns cur [] read_size npos (u64 (Node_size node - npos))
  end.

(** [src/src/bytearray.cc:507-514 ByteArray::setPosition]
    Locating the current block. *)
Fixpoint seek_loop (fuel : nat) (ns : list Node) (cur : option nat) (v : Z)
    : result (option nat) :=
  match fuel with
  | O => Err OutOfFuel
  | S fuel =>
    match node_at ns cur with
    | Err e => Err e
    | Ok node =>
      let nxt := next_of ns (idx cur) in
      if v >? Node_size node then seek_loop fuel ns nxt (u64 (v - Node_size node))
      else if v =? Node_size node then Ok nxt
      else Ok cur
    end
  end.

(** [src/src/bytearray.cc:493-515 ByteArray::setPosition] *)
Definition setPosition (v : Z) : M ByteArray unit :=
  st ← get;
  if v >? m_capacity st then fail (Throw out_of_range) else
  modify (set_position v);;
  modify (fun s => if m_position s >? m_size s then set_size (m_position s) s else s);;
  cur ← lift (seek_loop (S (length (m_nodes st))) (m_nodes st) (Some 0%nat) v);
  modify (set_cur cur).

(** [src/src/bytearray.cc:348-360 ByteArray::clear] *)
Definition clear (s : ByteArray) : ByteArray :=
  {| m_baseSize := m_baseSize s; m_position := 0; m_capacity := m_baseSize s; m_size := 0;
     m_endian := m_endian s; m_nodes := take 1 (m_nodes s); m_cur := Some 0%nat |}.

(** [src/src/bytearray.cc:561-564 ByteArray::isLittleEndian] *)
Definition isLittleEndian (s : ByteArray) : bool :=
  bool_decide (m_endian s = SYLAR_LITTLE_ENDIAN).

(** [src/src/bytearray.cc:566-573 ByteArray::setLittleEndian] *)
Definition setLittleEndian (val : bool) (s : ByteArray) : ByteArray :=
  set_endian (if val then SYLAR_LITTLE_ENDIAN else SYLAR_BIG_ENDIAN) s.

(** ** Fixed-width integers *)

(** [src/src/bytearray.cc:64-110 ByteArray::writeFint16]
    The body all fixed-width writes wider than a byte share: swap to the
    buffer's byte order, then [write(&value, sizeof(value))]. *)
Definition write_int (t : int_type) (value : Z) : M ByteArray unit :=
  e ← gets m_endian;
  let value := if decide (e = host) then value else byteswap t value in
  ByteArray_write (mem_of host t value).

(** [src/src/bytearray.cc:54-57 ByteArray::writeFint8] *)
Definition writeFint8 (value : Z) : M ByteArray unit :=
  ByteArray_write (mem_of host int8_t value).

(** [src/src/bytearray.cc:59-62 ByteArray::writeFuint8] *)
Definition writeFuint8 (value : Z) : M ByteArray unit :=
  ByteArray_write (mem_of host uint8_t value).

(** [src/src/bytearray.cc:64-70 ByteArray::writeFint16] *)
Definition writeFint16 (value : Z) : M ByteArray unit := write_int int16_t value.

(** [src/src/bytearray.cc:72-78 ByteArray::writeFuint16] *)
Definition writeFuint16 (value : Z) : M ByteArray unit := write_int uint16_t value.

(** [src/src/bytearray.cc:80-86 ByteArray::writeFint32] *)
Definition writeFint32 (value : Z) : M ByteArray unit := write_int int32_t value.

(** [src/src/bytearray.cc:88-94 ByteArray::writeFuint32] *)
Definition writeFuint32 (value : Z) : M ByteArray unit := write_int uint32_t value.

(** [src/src/bytearray.cc:96-102 ByteArray::writeFint64] *)
Definition writeFint64 (value : Z) : M ByteArray unit := write_int int64_t value.

(** [src/src/bytearray.cc:104-110 ByteArray::writeFuint64] *)
Definition writeFuint64 (value : Z) : M ByteArray unit := write_int uint64_t value.

(** [src/src/bytearray.cc:219-226 XX]
    The macro body of the fixed-width reads wider than a byte. *)
Definition read_int (t : int_type) : M ByteArray Z :=
  xs ← ByteArray_read (Z.of_nat (int_size t));
  e ← gets m_endian;
  let v := of_mem host t xs in
  mret (if decide (e = host) then v else byteswap t v).

(** [src/src/bytearray.cc:212-217 ByteArray::readFint8] *)
Definition readFint8 : M ByteArray Z := xs ← ByteArray_read 1; mret (of_mem host int8_t xs).

(** [src/src/bytearray.cc:228-231 ByteArray::readFint16] *)
Definition readFint16 : M ByteArray Z := read_int int16_t.

(** [src/src/bytearray.cc:233-236 ByteArray::readFint32] *)
Definition readFint32 : M ByteArray Z := read_int int32_t.

(** [src/src/bytearray.cc:238-241 ByteArray::readFint64] *)
Definition readFint64 : M ByteArray Z := read_int int64_t.

(** [src/src/bytearray.cc:243-249 ByteArray::readFuint8] *)
Definition readFuint8 : M ByteArray Z := xs ← ByteArray_read 1; mret (of_mem host uint8_t xs).

(** [src/src/bytearray.cc:250-253 ByteArray::readFuint16] *)
Definition readFuint16 : M ByteArray Z := read_int uint16_t.

(** [src/src/bytearray.cc:254-257 ByteArray::readFuint32] *)
Definition readFuint32 : M ByteArray Z := read_int uint32_t.

(** [src/src/bytearray.cc:258-261 ByteArray::readFuint64] *)
Definition readFuint64 : M ByteArray Z := read_int uint64_t.

(** ** Variable-length integers *)

(** [src/src/bytearray.cc:133-149 ByteArray::writeUint32] *)
Definition writeUint32 (value : Z) : M ByteArray unit :=
  bs ← lift (varint32_bytes value); ByteArray_write bs.

(** [src/src/bytearray.cc:128-131 ByteArray::writeInt32] *)
Definition writeInt32 (value : Z) : M ByteArray unit := writeUint32 (EncodingZigzag32 value).

(** [src/src/bytearray.cc:156-167 ByteArray::writeUint64] *)
Definition writeUint64 (value : Z) : M ByteArray unit :=
  bs ← lift (varint64_bytes value); ByteArray_write bs.

(** [src/src/bytearray.cc:151-154 ByteArray::writeInt64] *)
Definition writeInt64 (value : Z) : M ByteArray unit := writeUint64 (EncodingZigzag64 value).

(** The decoding loop at width [w]: [for(int i = 0; i < w; i += 7)]. *)
Fixpoint varint_read_loop (fuel : nat) (w i res : Z) : M ByteArray Z :=
  match fuel with
  | O => mret res
  | S fuel =>
      if i <? w then
        b ← readFuint8;
        if b <? 0x80 then mret (Z.lor res (Z.shiftl b i mod 2 ^ w))
        else varint_read_loop fuel w (i + 7) (Z.lor res (Z.shiftl (Z.land b 0x7f) i mod 2 ^ w))
      else mret res
  end.

(** [src/src/bytearray.cc:271-284 ByteArray::readUint32]
    At most five rounds: [i] takes the values 0, 7, 14, 21, 28. *)
Definition readUint32 : M ByteArray Z := varint_read_loop 5 32 0 0.

(** [src/src/bytearray.cc:266-269 ByteArray::readInt32] *)
Definition readInt32 : M ByteArray Z := v ← readUint32; mret (DecodingZigzag32 v).

(** [src/src/bytearray.cc:291-303 ByteArray::readUint64]
    At most ten rounds: [i] takes the values 0, 7, ..., 63. *)
Definition readUint64 : M ByteArray Z := varint_read_loop 10 64 0 0.

(** [src/src/bytearray.cc:286-289 ByteArray::readInt64] *)
Definition readInt64 : M ByteArray Z := v ← readUint64; mret (DecodingZigzag64 v).

(** ** Floating point: the bit pattern of the number, as [memcpy] copies it *)

(** [src/src/bytearray.cc:169-174 ByteArray::writeFloat] *)
Definition writeFloat (bits : Z) : M ByteArray unit := writeFuint32 bits.

(** [src/src/bytearray.cc:176-181 ByteArray::writeDouble] *)
Definition writeDouble (bits : Z) : M ByteArray unit := writeFuint64 bits.

(** [src/src/bytearray.cc:305-311 ByteArray::readFloat] *)
Definition readFloat : M ByteArray Z := readFuint32.

(** [src/src/bytearray.cc:313-319 ByteArray::readDouble] *)
Definition readDouble : M ByteArray Z := readFuint64.

(** ** Strings: a length prefix and the characters

    [value.size()] is converted to the parameter type of the length writer. *)

(** [src/src/bytearray.cc:183-187 ByteArray::writeStringF16] *)
Definition writeStringF16 (value : list Z) : M ByteArray unit :=
  writeFuint16 (u16 (Z.of_nat (length value)));; ByteArray_write value.

(** [src/src/bytearray.cc:189-193 ByteArray::writeStringF32] *)
Definition writeStringF32 (value : list Z) : M ByteArray unit :=
  writeFuint32 (u32 (Z.of_nat (length value)));; ByteArray_write value.

(** [src/src/bytearray.cc:195-199 ByteArray::writeStringF64] *)
Definition writeStringF64 (value : list Z) : M ByteArray unit :=
  writeFuint64 (u64 (Z.of_nat (length value)));; ByteArray_write value.

(** [src/src/bytearray.cc:201-205 ByteArray::writeStringVint] *)
Definition writeStringVint (value : list Z) : M ByteArray unit :=
  writeUint64 (u64 (Z.of_nat (length value)));; ByteArray_write value.

(** [src/src/bytearray.cc:207-210 ByteArray::writeStringWithoutLength] *)
Definition writeStringWithoutLength (value : list Z) : M ByteArray unit := ByteArray_write value.

(** [buff.resize(len)] of an empty string. *)
Definition string_resize (len : Z) : result unit :=
  if string_max_size <? len then Err (Throw length_error)
  else if string_memory <? len then Err (Throw bad_alloc)
  else Ok tt.

(** [src/src/bytearray.cc:321-326 XX]
    The macro body of the string reads: the string is given its length before
    [read] finds out whether there are so many bytes. *)
Definition read_string (fun_ : M ByteArray Z) : M ByteArray (list Z) :=
  len ← fun_; lift (string_resize len);; ByteArray_read len.

(** [src/src/bytearray.cc:328-331 ByteArray::readStringF16] *)
Definition readStringF16 : M ByteArray (list Z) := read_string readFuint16.

(** [src/src/bytearray.cc:333-336 ByteArray::readStringF32] *)
Definition readStringF32 : M ByteArray (list Z) := read_string readFuint32.

(** [src/src/bytearray.cc:337-340 ByteArray::readStringF64] *)
Definition readStringF64 : M ByteArray (list Z) := read_string readFuint64.

(** [src/src/bytearray.cc:342-345 ByteArray::readStringFVint] *)
Definition readStringFVint : M ByteArray (list Z) := read_string readUint64.

(** [src/src/bytearray.cc:575-584 ByteArray::toString] *)
Definition toString (s : ByteArray) : result (list Z) :=
  let n := getSizeForRead s in
  if n =? 0 then Ok [] else readForPeek s n.

(** A lower-case hexadecimal digit, as [std::hex] prints it. *)
Definition hex_digit (d : Z) : Z := if d <? 10 then 48 + d else 87 + d.

(** [src/src/bytearray.cc:590-600 ByteArray::toHexString]
    Two digits and a space per byte, a newline before every 32nd byte. *)
Fixpoint hex_loop (i : Z) (str : list Z) : list Z :=
  match str with
  | [] => []
  | c :: str =>
      (if (i >? 0) && (i mod 32 =? 0) then [10] else [])
      ++ [hex_digit (u8 c / 16); hex_digit (u8 c mod 16); 32] ++ hex_loop (i + 1) str
  end.

(** [src/src/bytearray.cc:586-603 ByteArray::toHexString] *)
Definition toHexString (s : ByteArray) : result (list Z) :=
  match toString s with Err e => Err e | Ok str => Ok (hex_loop 0 str) end.

(** ** Files *)

(** [src/src/bytearray.cc:531-538 ByteArray::writeToFile]
    The writing loop; [out] is what has been written to the stream.  The offset
    [diff] is an [int]. *)
Fixpoint file_write_loop (fuel : nat) (base : Z) (ns : list Node) (cur : option nat)
    (pos read_size : Z) (out : list Z) : result (list Z) :=
  match fuel with
  | O => Err OutOfFuel
  | S fuel =>
    if read_size >? 0 then
      let diff := s32 (pos mod base) in
      let len := (if read_size >? base then base else read_size) - diff in
      match node_at ns cur with
      | Err e => Err e
      | Ok node =>
        if (diff <? 0) || (len <? 0) then Err (Undef out_of_bounds) else
        match node_read node diff len with
        | Err e => Err e
        | Ok xs =>
            file_write_loop fuel base ns (next_of ns (idx cur))
              (pos + len) (read_size - len) (out ++ xs)
        end
      end
    else Ok out
  end.

(** [src/src/bytearray.cc:517-540 ByteArray::writeToFile]
    [opened] is whether the stream could be opened; the result is the value
    returned and the contents of the file. *)
Definition writeToFile (opened : bool) (s : ByteArray) : result (bool * list Z) :=
  if negb opened then Ok (false, []) else
  match file_write_loop (S (S (length (m_nodes s)))) (m_baseSize s) (m_nodes s) (m_cur s)
          (m_position s) (getSizeForRead s) [] with
  | Err e => Err e
  | Ok out => Ok (true, out)
  end.

(** [src/src/bytearray.cc:554-557 ByteArray::readFromFile]
    The reading loop over the rest of the file: [ifs.read] delivers at most
    [m_baseSize] bytes and sets [eof] when it delivers fewer. *)
Fixpoint file_read_loop (fuel : nat) (base : nat) (rest : list Z) : M ByteArray unit :=
  match fuel with
  | O => fail OutOfFuel
  | S fuel =>
      ByteArray_write (take base rest);;
      if (length rest <? base)%nat then mret ()
      else file_read_loop fuel base (drop base rest)
  end.

(** [src/src/bytearray.cc:542-559 ByteArray::readFromFile]
    [file] is [None] when the stream cannot be opened. *)
Definition readFromFile (file : option (list Z)) : M ByteArray bool :=
  match file with
  | None => mret false
  | Some content =>
      st ← get;
      file_read_loop (S (length content)) (Z.to_nat (m_baseSize st)) content;;
      mret true
  end.

(** ** Scatter/gather buffers *)

(** An [iovec] into the chain: the block, the offset in it, the length. *)
Record iovec := { iov_node : nat; iov_off : Z; iov_len : Z }.

(** [src/src/bytearray.cc:618-632 ByteArray::getReadBuffers]
    The loop shared by the three [get*Buffers]. *)
Fixpoint iov_loop (fuel : nat) (ns : list Node) (cur : option nat) (buffers : list iovec)
    (len npos ncap : Z) : result (list iovec) :=
  match fuel with
  | O => Err OutOfFuel
  | S fuel =>
    if len >? 0 then
      match node_at ns cur with
      | Err e => Err e
      | Ok _ =>
        let i := idx cur in
        if ncap >=? len then
          iov_loop fuel ns cur
            (buffers ++ [{| iov_node := i; iov_off := npos; iov_len := len |}]) 0 npos ncap
        else
          let cur' := next_of ns i in
          match node_at ns cur' with
          | Err e => Err e
          | Ok node' =>
              iov_loop fuel ns cur'
                (buffers ++ [{| iov_node := i; iov_off := npos; iov_len := ncap |}])
                (u64 (len - ncap)) 0 (Node_size node')
          end
      end
    else Ok buffers
  end.

(** [src/src/bytearray.cc:605-634 ByteArray::getReadBuffers] *)
Definition getReadBuffers (s : ByteArray) (len : Z) : result (list iovec * Z) :=
  let len := if len >? getSizeForRead s then getSizeForRead s else len in
  if len =? 0 then Ok ([], 0) else
  match node_at (m_nodes s) (m_cur s) with
  | Err e => Err e
  | Ok node =>
      let npos := m_position s mod m_baseSize s in
      match iov_loop (S (S (length (m_nodes s)))) (m_nodes s) (m_cur s) [] len npos
              (u64 (Node_size node - npos)) with
      | Err e => Err e
      | Ok buffers => Ok (buffers, len)
      end
  end.

(** [while(count--) { cur = cur->next; }] *)
Fixpoint advance (count : nat) (ns : list Node) (cur : option nat) : result (option nat) :=
  match count with
  | O => Ok cur
  | S count =>
      match node_at ns cur with
      | Err e => Err e
      | Ok _ => advance count ns (next_of ns (idx cur))
      end
  end.

(** [src/src/bytearray.cc:636-671 ByteArray::getReadBuffersAt] *)
Definition getReadBuffersAt (s : ByteArray) (len position : Z) : result (list iovec * Z) :=
  if position >=? m_size s then Ok ([], 0) else
  let len := Z.min len (u64 (m_size s - position)) in
  let npos := position mod m_baseSize s in
  match advance (Z.to_nat (position / m_baseSize s)) (m_nodes s) (Some 0%nat) with
  | Err e => Err e
  | Ok None => Ok ([], 0)
  | Ok (Some i) =>
      match node_at (m_nodes s) (Some i) with
      | Err e => Err e
      | Ok node =>
          match iov_loop (S (S (length (m_nodes s)))) (m_nodes s) (Some i) [] len npos
                  (u64 (Node_size node - npos)) with
          | Err e => Err e
          | Ok [] => Ok ([], 0)
          | Ok buffers => Ok (buffers, len)
          end
      end
  end.

(** [src/src/bytearray.cc:673-704 ByteArray::getWriteBuffers] *)
Definition getWriteBuffers (len : Z) : M ByteArray (list iovec * Z) :=
  if len =? 0 then mret ([], 0) else
  addCapacityIfNeeded len;;
  st ← get;
  node ← lift (node_at (m_nodes st) (m_cur st));
  let npos := m_position st mod m_baseSize st in
  buffers ← lift (iov_loop (S (S (length (m_nodes st)))) (m_nodes st) (m_cur st) [] len npos
                    (u64 (Node_size node - npos)));
  mret (buffers, match buffers with [] => 0 | _ => len end).
End Operations.
