(* ===== verification/ByteArraySpec.v ===== *)
(** * Correctness of the serialisation buffer

    The representation invariant of [ByteArray], the flat buffer it implements,
    and the refinement and round-trip theorems for its operations. *)
From S2P Require Import Prelude Endian Varint ByteArray.

(** ** The invariant *)

(** A block of the chain: its size is the chain's and it owns that many bytes. *)
Definition node_ok (b : Z) (n : Node) : Prop :=
  Node_size n = b /\ Z.of_nat (length (Node_ptr n)) = b /\ Forall is_byte (Node_ptr n).

(** Where [m_cur] points for a position: the block the next byte is in, null
    at the end of the chain. *)
Definition cur_of (b : Z) (count : nat) (pos : Z) : option nat :=
  if pos =? b * Z.of_nat count then None else Some (Z.to_nat (pos / b)).

Record wf (s : ByteArray) : Prop := {
  wf_base : 0 < m_baseSize s;
  wf_nodes : Forall (node_ok (m_baseSize s)) (m_nodes s);
  wf_ne : (0 < length (m_nodes s))%nat;
  wf_cap : m_capacity s = m_baseSize s * Z.of_nat (length (m_nodes s));
  wf_cap64 : m_capacity s < 2 ^ 64;
  wf_pos : 0 <= m_position s <= m_size s;
  wf_size : m_size s <= m_capacity s;
  wf_cur : m_cur s = cur_of (m_baseSize s) (length (m_nodes s)) (m_position s)
}.

(** ** The flat buffer *)

(** All the bytes of a chain, in order. *)
Definition chain (ns : list Node) : list Z := concat (Node_ptr <$> ns).

(** What a [ByteArray] stands for: the valid bytes and the position. *)
Record flat := Flat { f_data : list Z; f_pos : nat }.

Definition abs (s : ByteArray) : flat :=
  Flat (take (Z.to_nat (m_size s)) (chain (m_nodes s))) (Z.to_nat (m_position s)).

Definition flat_write (xs : list Z) (f : flat) : flat :=
  Flat (splice (f_pos f) xs (f_data f)) (f_pos f + length xs).

Definition flat_read (n : nat) (f : flat) : result (list Z) * flat :=
  if (n <=? length (f_data f) - f_pos f)%nat
  then (Ok (slice (f_pos f) n (f_data f)), Flat (f_data f) (f_pos f + n))
  else (Err (Throw out_of_range), f).

(** Room for [n] more bytes at the position, without overflowing [size_t]. *)
Definition room (n : Z) (s : ByteArray) : Prop :=
  m_position s + n + m_baseSize s < 2 ^ 64.

(** ** Clients of the buffer

    What a client does with a [ByteArray], as data, and its run on the chain of
    blocks. *)
Inductive op :=
| OpWrite (xs : list Z)
| OpRead (n : Z)
| OpPeek (n : Z)
| OpSeek (v : Z)
| OpClear.

Definition op_run `{Platform} (o : op) : M ByteArray (list Z) :=
  match o with
  | OpWrite xs => ByteArray_write xs;; mret []
  | OpRead n => ByteArray_read n
  | OpPeek n => fun s => (readForPeek s n, s)
  | OpSeek v => setPosition v;; mret []
  | OpClear => modify clear;; mret []
  end.

(** A client that goes on after an exception, collecting what it observes. *)
Fixpoint ops_run `{Platform} (os : list op) (s : ByteArray)
    : list (result (list Z)) * ByteArray :=
  match os with
  | [] => ([], s)
  | o :: os =>
      let '(r, s) := op_run o s in
      let '(rs, s) := ops_run os s in (r :: rs, s)
  end.

(** *** The specification

    What the operations do to the flat buffer, for a chain of blocks of [b] bytes of
    the capacity [cap].  The capacity is a multiple of [b] and grows by no more
    blocks than a write needs; it shows in two places, a seek and a read of nothing
    at its end. *)
Record view := View { v_flat : flat; v_cap : Z }.

Definition view_of (s : ByteArray) : view := View (abs s) (m_capacity s).

Definition grows (b cap fin cap' : Z) : Prop :=
  if fin <=? cap then cap' = cap else fin <= cap' < fin + b /\ cap' mod b = 0.

(** What a read or peek of [n] bytes comes to: too many bytes throw; no bytes at the
    end of the capacity follow the null block (see [read_nothing_at_end]). *)
Definition view_read (n : Z) (w : view) : result (list Z) :=
  let '(View (Flat data pos) cap) := w in
  if Z.of_nat (length data - pos) <? n then Err (Throw out_of_range)
  else if (n =? 0) && (Z.of_nat pos =? cap) then Err (Undef null_deref)
  else Ok (slice pos (Z.to_nat n) data).

(** What each operation may do: the capacity decides whether a seek throws, and what
    a seek past the data uncovers is whatever the blocks contain. *)
Definition view_step (b : Z) (o : op) (w : view) (r : result (list Z)) (w' : view) : Prop :=
  let '(View (Flat data pos) cap) := w in
  match o with
  | OpWrite xs =>
      r = Ok [] /\ v_flat w' = flat_write xs (Flat data pos) /\ grows b cap (Z.of_nat (pos + length xs)) (v_cap w')
  | OpRead n =>
      r = view_read n w
      /\ w' = match r with Ok xs => View (Flat data (pos + length xs)) cap | Err _ => w end
  | OpPeek n => r = view_read n w /\ w' = w
  | OpSeek v =>
      if cap <? v then r = Err (Throw out_of_range) /\ w' = w
      else r = Ok [] /\ exists gap, length gap = (Z.to_nat v - length data)%nat /\ Forall is_byte gap
           /\ w' = View (Flat (data ++ gap) (Z.to_nat v)) cap
  | OpClear => r = Ok [] /\ w' = View (Flat [] 0) b
  end.

Inductive view_steps (b : Z) : list op -> view -> list (result (list Z)) -> view -> Prop :=
| view_done w : view_steps b [] w [] w
| view_more o os w r w1 rs w2 :
    view_step b o w r w1 -> view_steps b os w1 rs w2 -> view_steps b (o :: os) w (r :: rs) w2.

(** The arguments that a caller can pass: bytes, and values of [size_t]. *)
Definition op_typed (o : op) : Prop :=
  match o with
  | OpWrite xs => Forall is_byte xs
  | OpRead n | OpPeek n | OpSeek n => 0 <= n < 2 ^ 64
  | OpClear => True
  end.

(** By how much an operation can move the end of the chain, for blocks of [b]. *)
Definition op_growth (b : Z) (o : op) : Z :=
  match o with OpWrite xs => Z.of_nat (length xs) + b | _ => 0 end.
Definition growth (b : Z) (os : list op) : Z := foldr (fun o n => op_growth b o + n) 0 os.

(** *** Within the data

    Where reads are not empty and seeks stay within the data the blocks do not show
    at all: the meaning of an operation on the flat buffer. *)
Definition flat_run (o : op) (f : flat) : option (result (list Z) * flat) :=
  match o with
  | OpWrite xs =>
      if forallb (fun x => (0 <=? x) && (x <? 256)) xs
         && (Z.of_nat (f_pos f + length xs) <? 2 ^ 62)
      then Some (Ok [], flat_write xs f) else None
  | OpRead n => if 0 <? n then Some (flat_read (Z.to_nat n) f) else None
  | OpPeek n => if 0 <? n then Some (fst (flat_read (Z.to_nat n) f), f) else None
  | OpSeek v =>
      if (0 <=? v) && (v <=? Z.of_nat (length (f_data f)))
      then Some (Ok [], Flat (f_data f) (Z.to_nat v)) else None
  | OpClear => Some (Ok [], Flat [] 0)
  end.

Fixpoint flat_runs (os : list op) (f : flat) : option (list (result (list Z)) * flat) :=
  match os with
  | [] => Some ([], f)
  | o :: os =>
      match flat_run o f with
      | None => None
      | Some (r, f) =>
          match flat_runs os f with
          | None => None
          | Some (rs, f) => Some (r :: rs, f)
          end
      end
  end.

(** Two concrete machines; fresh memory is zero on one and 0xff on the other, and one
    has memory for strings of 16 GiB, the other of 1 GiB. *)
Definition x86 : Platform.
Proof.
  refine {| host := SYLAR_LITTLE_ENDIAN; junk := fun _ => 0;
            string_max_size := 2 ^ 63 - 1; string_memory := 2 ^ 34 |}; [|lia].
  intros _. unfold is_byte. lia.
Defined.

Definition sparc : Platform.
Proof.
  refine {| host := SYLAR_BIG_ENDIAN; junk := fun _ => 255;
            string_max_size := 2 ^ 62 - 1; string_memory := 2 ^ 30 |}; [|lia].
  intros _. unfold is_byte. lia.
Defined.

(** ** Chains of equally long blocks *)

Section Chain.
Variable b : nat.

Lemma concat_length_uniform {A} (ls : list (list A)) :
  Forall (fun l => length l = b) ls -> length (concat ls) = (length ls * b)%nat.
Proof.
  induction 1 as [|l ls Hl _ IH]; cbn; [done|]. rewrite length_app, IH, Hl. done.
Qed.

Lemma concat_splice {A} (ls : list (list A)) i l off xs :
  Forall (fun l => length l = b) ls -> ls !! i = Some l -> (off + length xs <= b)%nat ->
  concat (<[i := splice off xs l]> ls) = splice (i * b + off) xs (concat ls).
Proof.
  intros Hu. revert i. induction Hu as [|l' ls Hl' Hu IH]; intros [|i] Hi Ho; try done.
  - cbn in Hi |- *. injection Hi as ->. rewrite splice_app_l by lia. done.
  - change (<[S i := splice off xs l]> (l' :: ls)) with (l' :: <[i := splice off xs l]> ls).
    cbn [concat]. rewrite (IH i) by done.
    replace (S i * b + off)%nat with (length l' + (i * b + off))%nat by lia.
    by rewrite splice_app_r.
Qed.

Lemma concat_slice {A} (ls : list (list A)) i l off n :
  Forall (fun l => length l = b) ls -> ls !! i = Some l -> (off + n <= b)%nat ->
  slice (i * b + off) n (concat ls) = slice off n l.
Proof.
  intros Hu. revert i. induction Hu as [|l' ls Hl' Hu IH]; intros [|i] Hi Ho; try done.
  - cbn in Hi |- *. injection Hi as ->. rewrite slice_app_l by lia. done.
  - cbn [concat]. replace (S i * b + off)%nat with (length l' + (i * b + off))%nat by lia.
    rewrite slice_app_r. by apply IH.
Qed.
End Chain.

(** The valid prefix of a buffer after an overwrite that may extend it. *)
Lemma take_splice {A} (pos size : nat) (xs l : list A) :
  (pos <= size <= length l)%nat -> (pos + length xs <= length l)%nat ->
  take (Nat.max size (pos + length xs)) (splice pos xs l) = splice pos xs (take size l).
Proof.
  intros Hp Hl. unfold splice.
  rewrite app_assoc, take_app.
  rewrite (take_ge (take pos l ++ xs)) by (rewrite length_app, length_take; lia).
  rewrite <-app_assoc, take_take, Nat.min_l by lia.
  do 2 f_equal. rewrite skipn_firstn_comm.
  f_equal. rewrite length_app, length_take. lia.
Qed.

Lemma nodes_uniform b ns :
  Forall (node_ok b) ns -> Forall (fun l => length l = Z.to_nat b) (Node_ptr <$> ns).
Proof.
  intros Hn. apply Forall_fmap. eapply Forall_impl; [exact Hn|]. intros n (_ & Hl & _).
  cbn. lia.
Qed.

Lemma length_chain b ns : Forall (node_ok b) ns -> length (chain ns) = (length ns * Z.to_nat b)%nat.
Proof.
  intros Hn. unfold chain. rewrite (concat_length_uniform (Z.to_nat b)).
  - by rewrite length_fmap.
  - by apply nodes_uniform.
Qed.

Lemma chain_bytes b ns : Forall (node_ok b) ns -> Forall is_byte (chain ns).
Proof.
  induction 1 as [|n ns (_ & _ & Hb) _ IH]; cbn; [constructor|]. by apply Forall_app.
Qed.

Lemma node_at_ok b ns i :
  Forall (node_ok b) ns -> (i < length ns)%nat ->
  exists n, ns !! i = Some n /\ node_at ns (Some i) = Ok n /\ node_ok b n.
Proof.
  intros Hn Hi. destruct (lookup_lt_is_Some_2 ns i Hi) as [n Hni].
  exists n. split; [done|]. split; [cbn; by rewrite Hni|].
  by eapply Forall_lookup_1.
Qed.

(** Overwriting part of one block. *)
Lemma chain_splice b ns i n off xs :
  Forall (node_ok b) ns -> ns !! i = Some n -> Forall is_byte xs ->
  0 <= off -> off + Z.of_nat (length xs) <= b ->
  let n' := {| Node_ptr := splice (Z.to_nat off) xs (Node_ptr n); Node_size := Node_size n |} in
  Forall (node_ok b) (<[i := n']> ns)
  /\ chain (<[i := n']> ns) = splice (i * Z.to_nat b + Z.to_nat off) xs (chain ns).
Proof.
  intros Hn Hi Hx Ho Hl n'. pose proof (Forall_lookup_1 _ _ _ _ Hn Hi) as (Hsz & Hlen & Hb).
  split.
  - apply Forall_insert; [done|]. split; [done|]. cbn. split.
    + rewrite length_splice by lia. done.
    + unfold splice. apply Forall_app. split; [by apply Forall_take|].
      apply Forall_app. split; [done|by apply Forall_drop].
  - unfold chain. rewrite list_fmap_insert. cbn.
    apply concat_splice; [by apply nodes_uniform| |lia].
    rewrite list_lookup_fmap, Hi. done.
Qed.

Lemma chain_slice b ns i n off len :
  Forall (node_ok b) ns -> ns !! i = Some n -> 0 <= off -> 0 <= len -> off + len <= b ->
  node_read n off len = Ok (slice (i * Z.to_nat b + Z.to_nat off) (Z.to_nat len) (chain ns)).
Proof.
  intros Hn Hi Ho Hl Hb. pose proof (Forall_lookup_1 _ _ _ _ Hn Hi) as (_ & Hlen & _).
  unfold node_read. rewrite (proj2 (Z.leb_le _ _)) by lia. f_equal.
  unfold chain. symmetry. apply concat_slice; [by apply nodes_uniform| |lia].
  by rewrite list_lookup_fmap, Hi.
Qed.

(** ** Positions in the chain *)

Lemma cur_of_in b count i off :
  0 < b -> (i < count)%nat -> 0 <= off < b -> cur_of b count (Z.of_nat i * b + off) = Some i.
Proof.
  intros Hb Hi Ho. unfold cur_of. destruct (Z.eqb_spec (Z.of_nat i * b + off) (b * Z.of_nat count)).
  - nia.
  - f_equal. rewrite Z.div_add_l by lia. rewrite Z.div_small by lia. lia.
Qed.

Lemma cur_of_next b ns i :
  0 < b -> (i < length ns)%nat ->
  next_of ns i = cur_of b (length ns) (Z.of_nat i * b + b).
Proof.
  intros Hb Hi. unfold next_of. destruct (Nat.ltb_spec (S i) (length ns)).
  - symmetry. replace (Z.of_nat i * b + b) with (Z.of_nat (S i) * b + 0) by lia.
    by apply cur_of_in.
  - unfold cur_of. rewrite (proj2 (Z.eqb_eq _ _)) by nia. done.
Qed.

(** A position strictly inside the chain is in the block [m_cur] points to. *)
Lemma cur_of_split b count pos :
  0 < b -> 0 <= pos < b * Z.of_nat count ->
  exists i, (i < count)%nat /\ cur_of b count pos = Some i
            /\ pos = Z.of_nat i * b + pos mod b /\ 0 <= pos mod b < b.
Proof.
  intros Hb Hp. exists (Z.to_nat (pos / b)).
  pose proof (Z.div_mod pos b ltac:(lia)). pose proof (Z.mod_pos_bound pos b ltac:(lia)).
  assert (0 <= pos / b < Z.of_nat count).
  { split; [apply Z.div_pos; lia|apply Z.div_lt_upper_bound; lia]. }
  split; [lia|]. split; [|split; [lia|done]].
  unfold cur_of. rewrite (proj2 (Z.eqb_neq _ _)) by lia. done.
Qed.

Section WithPlatform.
Context `{Platform}.

(** One pass of the copying loop of [write], within the chain. *)
Lemma write_loop_spec fuel buf bpos size npos s i :
  let b := m_baseSize s in
  let ns := m_nodes s in
  0 < b -> Forall (node_ok b) ns -> b * Z.of_nat (length ns) < 2 ^ 64 ->
  Forall is_byte buf -> 0 <= bpos -> 0 < size -> bpos + size = Z.of_nat (length buf) ->
  Z.of_nat (length buf) < 2 ^ 64 ->
  m_cur s = Some i -> (i < length ns)%nat -> 0 <= npos < b ->
  m_position s = Z.of_nat i * b + npos ->
  m_position s + size <= b * Z.of_nat (length ns) ->
  (length ns - i < fuel)%nat ->
  exists ns', length ns' = length ns /\ Forall (node_ok b) ns'
    /\ chain ns' = splice (Z.to_nat (m_position s))
                     (slice (Z.to_nat bpos) (Z.to_nat size) buf) (chain ns)
    /\ write_loop fuel buf bpos size npos (b - npos) s
       = (Ok tt, set_cur (cur_of b (length ns) (m_position s + size))
                   (set_position (m_position s + size) (set_nodes ns' s))).
Proof.
  revert bpos size npos s i. induction fuel as [|fuel IH];
    intros bpos size npos s i b ns Hb Hns Hcap Hbuf Hbp Hsz Hbs Hbl Hcur Hi Hnp Hpos Hfit Hf;
    [lia|].
  destruct (node_at_ok b ns i Hns Hi) as (n & Hni & Hna & Hn).
  pose proof Hn as (Hnsz & Hnlen & _).
  assert (forall k, 0 <= k <= size -> length (slice (Z.to_nat bpos) (Z.to_nat k) buf) = Z.to_nat k) as Hsl.
  { intros k Hk. apply length_slice. lia. }
  assert (forall k, Forall is_byte (slice (Z.to_nat bpos) k buf)) as Hsb.
  { intros k. unfold slice. by apply Forall_take, Forall_drop. }
  assert (Z.to_nat (m_position s) = i * Z.to_nat b + Z.to_nat npos)%nat as Hpn by nia.
  cbn [write_loop]. rewrite (proj2 (Z.gtb_lt size 0)) by lia.
  mstep. rewrite Hcur. fold ns. rewrite Hna. cbn [idx]. rewrite Z.geb_leb.
  destruct (Z.leb_spec size (b - npos)).
  - (* the rest fits in this block *)
    destruct (chain_splice b ns i n npos (slice (Z.to_nat bpos) (Z.to_nat size) buf)
                Hns Hni (Hsb _) ltac:(lia) ltac:(rewrite Hsl; lia)) as [Hok Hch].
    unfold node_memcpy; cbn beta iota. fold ns. rewrite Hni.
    rewrite (proj2 (Z.leb_le _ _)) by (rewrite Hsl; lia).
    eexists. split; [|split; [exact Hok|split; [rewrite Hpn; exact Hch|]]].
    { by rewrite length_insert. }
    cbn [m_nodes set_nodes]. unwrap64. rewrite Hnsz.
    destruct fuel as [|fuel]; [lia|]. cbn [write_loop Z.gtb Z.compare].
    destruct (Z.eqb_spec b (npos + size)) as [E|E]; cbn; unwrap64.
    + rewrite (cur_of_next b) by done.
      replace (m_position s + size) with (Z.of_nat i * b + b) by lia. done.
    + rewrite Hpos. rewrite <-Z.add_assoc. rewrite cur_of_in by lia.
      rewrite <-Hcur. destruct s; done.
  - (* the block is filled; the rest goes to the next one *)
    destruct (chain_splice b ns i n npos (slice (Z.to_nat bpos) (Z.to_nat (b - npos)) buf)
                Hns Hni (Hsb _) ltac:(lia) ltac:(rewrite Hsl; lia)) as [Hok Hch].
    unfold node_memcpy; cbn beta iota. fold ns. rewrite Hni.
    rewrite (proj2 (Z.leb_le _ _)) by (rewrite Hsl; lia).
    assert (S i < length ns)%nat as HSi by nia.
    destruct (node_at_ok b ns (S i) Hns HSi) as (n' & Hn'i & Hn'a & (Hn'sz & _)).
    unfold next_of. rewrite (proj2 (Nat.ltb_lt _ _) HSi).
    cbn [m_nodes set_nodes set_position set_cur m_position]. rewrite Hn'a, Hn'sz.
    unwrap64. set (s1 := set_cur _ _).
    destruct (IH (bpos + (b - npos)) (size - (b - npos)) 0 s1 (S i))
      as (ns' & Hl' & Hok' & Hch' & Hrun);
      try (cbn; rewrite ?length_insert; lia || done).
    cbn [m_baseSize s1 set_cur set_position set_nodes m_nodes m_position] in *.
    rewrite Z.sub_0_r in Hrun. fold b in Hrun. rewrite Hrun. rewrite length_insert in *.
    exists ns'. split; [done|]. split; [done|]. split.
    + rewrite Hch', Hch. rewrite <-Hpn.
      replace (Z.to_nat (m_position s + (b - npos)))
        with (Z.to_nat (m_position s)
              + length (slice (Z.to_nat bpos) (Z.to_nat (b - npos)) buf))%nat
        by (rewrite Hsl by lia; lia).
      rewrite splice_splice.
      * f_equal. replace (Z.to_nat (bpos + (b - npos)))
          with (Z.to_nat bpos + Z.to_nat (b - npos))%nat by lia.
        rewrite slice_add. f_equal. lia.
      * rewrite (length_chain b) by done. rewrite Hsl by lia.
        rewrite length_slice by lia. nia.
    + replace (m_position s + (b - npos) + (size - (b - npos))) with (m_position s + size) by lia.
      done.
Qed.

Lemma Node_new_ok b : 0 < b -> node_ok b (Node_new b).
Proof.
  intros Hb. split; [done|]. cbn. rewrite length_fmap, length_seq. split; [lia|].
  apply Forall_fmap, Forall_true. intros i. apply junk_byte.
Qed.

Lemma wf_new b : 0 < b < 2 ^ 64 -> wf (ByteArray_new b).
Proof.
  intros Hb. constructor; cbn; try lia.
  - apply Forall_singleton, Node_new_ok. lia.
  - unfold cur_of. rewrite (proj2 (Z.eqb_neq _ _)) by lia. rewrite Z.div_0_l by lia. done.
Qed.

Lemma ceil_div_bounds n b :
  0 < b -> 0 < n ->
  n <= (n / b + (if n mod b =? 0 then 0 else 1)) * b < n + b
  /\ 0 < n / b + (if n mod b =? 0 then 0 else 1).
Proof.
  intros Hb Hn. pose proof (Z.div_mod n b ltac:(lia)).
  pose proof (Z.mod_pos_bound n b ltac:(lia)).
  destruct (Z.eqb_spec (n mod b) 0); nia.
Qed.

(** [addCapacityIfNeeded] only appends blocks, enough for [n] more bytes. *)
Lemma addCapacity_spec n s :
  wf s -> 0 <= n -> room n s ->
  exists s' ext, addCapacityIfNeeded n s = (Ok tt, s') /\ wf s'
    /\ chain (m_nodes s') = chain (m_nodes s) ++ ext
    /\ m_position s' = m_position s /\ m_size s' = m_size s
    /\ m_endian s' = m_endian s /\ m_baseSize s' = m_baseSize s
    /\ m_position s + n <= m_capacity s'
    /\ (m_position s + n <= m_capacity s -> m_capacity s' = m_capacity s)
    /\ (m_capacity s < m_position s + n -> m_capacity s' < m_position s + n + m_baseSize s).
Proof.
  intros Hwf Hn Hroom. unfold room in Hroom. unfold addCapacityIfNeeded.
  destruct Hwf as [Hb Hns Hne Hcap Hc64 Hpos Hsz Hcur].
  assert (wf s) as Hwf by (by constructor).
  destruct (Z.eqb_spec n 0) as [->|Hn0].
  { exists s, []. rewrite app_nil_r. split_and!; auto; lia. }
  unfold getSizeForWrite. rewrite (u64_small (m_capacity s - _)) by lia. rewrite Z.geb_leb.
  destruct (Z.leb_spec n (m_capacity s - m_position s)).
  { exists s, []. rewrite app_nil_r. split_and!; auto; lia. }
  rewrite (u64_small (n - _)) by lia.
  set (need := n - (m_capacity s - m_position s)).
  destruct (ceil_div_bounds need (m_baseSize s) ltac:(lia) ltac:(lia)) as [Hc Hc0].
  set (count := need / m_baseSize s + _) in *.
  rewrite u64_small by lia.
  set (ns' := m_nodes s ++ replicate (Z.to_nat count) (Node_new (m_baseSize s))).
  assert (Forall (node_ok (m_baseSize s)) ns') as Hns'.
  { apply Forall_app. split; [done|]. apply Forall_replicate. by apply Node_new_ok. }
  assert (Z.of_nat (length ns') = Z.of_nat (length (m_nodes s)) + count) as Hlen.
  { unfold ns'. rewrite length_app, length_replicate. lia. }
  eexists _, (chain (replicate (Z.to_nat count) (Node_new (m_baseSize s)))). split; [done|].
  assert (chain ns' = chain (m_nodes s)
            ++ chain (replicate (Z.to_nat count) (Node_new (m_baseSize s)))) as Hch.
  { unfold chain, ns'. by rewrite fmap_app, concat_app. }
  destruct (Z.eqb_spec (m_capacity s - m_position s) 0);
    (split; [|split_and!; cbn -[chain]; done || lia]);
    constructor; cbn; fold ns'; try done; try lia.
  - unfold cur_of. rewrite (proj2 (Z.eqb_neq _ _)) by nia.
    replace (m_position s) with (Z.of_nat (length (m_nodes s)) * m_baseSize s) by lia.
    rewrite Z.div_mul by lia. f_equal. lia.
  - rewrite Hcur. unfold cur_of. rewrite !(proj2 (Z.eqb_neq _ _)) by nia. done.
Qed.

(** The invariant after a write of [n] bytes, given the new chain. *)
Lemma wf_advance s ns' n :
  wf s -> length ns' = length (m_nodes s) -> Forall (node_ok (m_baseSize s)) ns' ->
  0 <= n -> m_position s + n <= m_capacity s ->
  let s1 := set_cur (cur_of (m_baseSize s) (length (m_nodes s)) (m_position s + n))
              (set_position (m_position s + n) (set_nodes ns' s)) in
  wf (if m_position s1 >? m_size s1 then set_size (m_position s1) s1 else s1).
Proof.
  intros [Hb Hns Hne Hcap Hc64 Hpos Hsz Hcur] Hl Hn' Hn Hfit s1.
  rewrite Z.gtb_ltb. destruct (Z.ltb_spec (m_size s1) (m_position s1)) as [Hlt|Hge];
    cbn in *; constructor; cbn; rewrite ?Hl; try done; lia.
Qed.

(** Writing: the chain of blocks behaves as the flat buffer. *)
Lemma write_refines xs s :
  wf s -> Forall is_byte xs -> room (Z.of_nat (length xs)) s ->
  exists s', ByteArray_write xs s = (Ok tt, s') /\ wf s' /\ abs s' = flat_write xs (abs s)
    /\ m_endian s' = m_endian s /\ m_baseSize s' = m_baseSize s
    /\ m_position s' = m_position s + Z.of_nat (length xs)
    /\ m_size s' = Z.max (m_size s) (m_position s + Z.of_nat (length xs))
    /\ (m_position s + Z.of_nat (length xs) <= m_capacity s -> m_capacity s' = m_capacity s)
    /\ m_position s + Z.of_nat (length xs) <= m_capacity s'
    /\ (m_capacity s < m_position s + Z.of_nat (length xs) ->
        m_capacity s' < m_position s + Z.of_nat (length xs) + m_baseSize s).
Proof.
  intros Hwf Hxs Hroom. unfold ByteArray_write.
  destruct (Z.eqb_spec (Z.of_nat (length xs)) 0) as [E|E].
  { destruct xs; [|cbn in E; lia]. exists s. unfold flat_write. cbn.
    rewrite splice_nil, Nat.add_0_r. pose proof (wf_pos s Hwf). pose proof (wf_size s Hwf). split_and!; auto; lia. }
  destruct (addCapacity_spec (Z.of_nat (length xs)) s Hwf ltac:(lia) Hroom)
    as (s1 & ext & Hadd & Hwf1 & Hch & Hp1 & Hs1 & He1 & Hb1 & Hfit & Hfits & Hgrow).
  pose proof Hwf1 as [Hb Hns Hne Hcap Hc64 Hpos Hsz Hcur].
  destruct (cur_of_split (m_baseSize s1) (length (m_nodes s1)) (m_position s1))
    as (i & Hi & Hci & Hpi & Hoff); [lia..|].
  destruct (node_at_ok _ _ i Hns Hi) as (n & Hni & Hna & (Hnsz & _)).
  mstep. rewrite Hadd, Hcur, Hci, Hna, Hnsz. unfold room in Hroom.
  rewrite (u64_small (m_baseSize s1 - _)) by lia.
  edestruct (write_loop_spec (S (S (length (m_nodes s1)))) xs 0 (Z.of_nat (length xs))
    (m_position s1 mod m_baseSize s1) s1 i) as (ns' & Hl' & Hn' & Hch' & Hrun);
    try (done || lia || congruence). rewrite Hrun.
  eexists. split; [done|]. rewrite Z2Nat.inj_0, Nat2Z.id in Hch'.
  replace (slice 0 (length xs) xs) with xs in Hch' by (unfold slice; by rewrite take_ge).
  split; [apply wf_advance; done || lia|].
  set (s2 := set_cur _ _). assert (m_position s2 = m_position s1 + Z.of_nat (length xs)) as Hp2 by done.
  assert (m_size s2 = m_size s1) as Hs2 by done.
  pose proof (length_chain _ _ (wf_nodes s Hwf)) as Hlc.
  destruct Hwf as [Hb0 Hns0 Hne0 Hcap0 Hc640 Hpos0 Hsz0 Hcur0].
  pose proof (length_chain _ _ Hns) as Hlc1. rewrite Hb1 in Hlc1.
  assert (m_nodes s2 = ns') as Hn2 by done.
  rewrite Z.gtb_ltb. split; [clear Hfits Hgrow|destruct (Z.ltb_spec (m_size s2) (m_position s2)); cbn; split_and!; done || lia].
  unfold abs, flat_write; cbn [f_data f_pos]. f_equal.
  - assert (length (chain (m_nodes s)) = Z.to_nat (m_capacity s)) as Hlc' by (rewrite Hlc, Hcap0, Z2Nat.inj_mul, Nat2Z.id; lia).
    assert (length (chain (m_nodes s1)) = Z.to_nat (m_capacity s1)) as Hlc1'
      by (rewrite Hlc1, Hcap, Z2Nat.inj_mul, Nat2Z.id, Hb1; lia).
    rewrite <-(take_app_le (chain (m_nodes s)) ext) by lia. rewrite <-Hch.
    rewrite <-take_splice by lia. rewrite <-Hp1, <-Hch'.
    destruct (Z.ltb_spec (m_size s2) (m_position s2)); cbn [m_size m_nodes set_size];
      f_equal; lia.
  - destruct (Z.ltb_spec (m_size s2) (m_position s2)); cbn [m_position set_size]; lia.
Qed.

(** One pass of the copying loop of [read], within the chain. *)
Lemma read_loop_spec fuel buf size npos s i :
  let b := m_baseSize s in
  let ns := m_nodes s in
  0 < b -> Forall (node_ok b) ns -> b * Z.of_nat (length ns) < 2 ^ 64 -> 0 < size ->
  m_cur s = Some i -> (i < length ns)%nat -> 0 <= npos < b ->
  m_position s = Z.of_nat i * b + npos ->
  m_position s + size <= b * Z.of_nat (length ns) ->
  (length ns - i < fuel)%nat ->
  read_loop fuel buf size npos (b - npos) s
  = (Ok (buf ++ slice (Z.to_nat (m_position s)) (Z.to_nat size) (chain ns)),
     set_cur (cur_of b (length ns) (m_position s + size)) (set_position (m_position s + size) s)).
Proof.
  revert buf size npos s i. induction fuel as [|fuel IH];
    intros buf size npos s i b ns Hb Hns Hcap Hsz Hcur Hi Hnp Hpos Hfit Hf; [lia|].
  destruct (node_at_ok b ns i Hns Hi) as (n & Hni & Hna & (Hnsz & _)).
  assert (Z.to_nat (m_position s) = i * Z.to_nat b + Z.to_nat npos)%nat as Hpn by nia.
  cbn [read_loop]. rewrite (proj2 (Z.gtb_lt size 0)) by lia.
  mstep. rewrite Hcur. fold ns. rewrite Hna. cbn [idx]. rewrite Z.geb_leb.
  destruct (Z.leb_spec size (b - npos)).
  - rewrite (chain_slice b ns i) by (done || lia). rewrite <-Hpn, Hnsz. unwrap64.
    destruct fuel as [|fuel]; [lia|]. cbn [read_loop Z.gtb Z.compare].
    destruct (Z.eqb_spec b (npos + size)) as [E|E]; cbn; unwrap64.
    + rewrite (cur_of_next b) by done.
      replace (m_position s + size) with (Z.of_nat i * b + b) by lia. done.
    + rewrite Hpos. rewrite <-Z.add_assoc. rewrite cur_of_in by lia.
      rewrite <-Hcur. destruct s; done.
  - rewrite (chain_slice b ns i) by (done || lia). rewrite <-Hpn.
    assert (S i < length ns)%nat as HSi by nia.
    destruct (node_at_ok b ns (S i) Hns HSi) as (n' & Hn'i & Hn'a & (Hn'sz & _)).
    unfold next_of. rewrite (proj2 (Nat.ltb_lt _ _) HSi). rewrite Hn'a, Hn'sz. unwrap64.
    set (s1 := set_cur _ _).
    pose proof (IH (buf ++ slice (Z.to_nat (m_position s)) (Z.to_nat (b - npos)) (chain ns))
      (size - (b - npos)) 0 s1 (S i)) as Hrun.
    cbn [m_baseSize s1 set_cur set_position m_nodes m_position] in Hrun.
    rewrite Z.sub_0_r in Hrun. fold b ns in Hrun. rewrite Hrun by (done || lia).
    rewrite <-app_assoc.
    replace (Z.to_nat (m_position s + (b - npos)))
      with (Z.to_nat (m_position s) + Z.to_nat (b - npos))%nat by lia.
    rewrite slice_add.
    replace (Z.to_nat (b - npos) + Z.to_nat (size - (b - npos)))%nat with (Z.to_nat size) by lia.
    replace (m_position s + (b - npos) + (size - (b - npos))) with (m_position s + size) by lia.
    done.
Qed.

(** The loop of [readForPeek] and [readForPeekAt], within the chain. *)
Lemma peek_loop_spec fuel b ns buf size npos i :
  0 < b -> Forall (node_ok b) ns -> b * Z.of_nat (length ns) < 2 ^ 64 -> 0 < size ->
  (i < length ns)%nat -> 0 <= npos < b ->
  Z.of_nat i * b + npos + size <= b * Z.of_nat (length ns) ->
  (length ns - i < fuel)%nat ->
  peek_loop fuel ns (Some i) buf size npos (b - npos)
  = Ok (buf ++ slice (i * Z.to_nat b + Z.to_nat npos) (Z.to_nat size) (chain ns)).
Proof.
  revert buf size npos i. induction fuel as [|fuel IH];
    intros buf size npos i Hb Hns Hcap Hsz Hi Hnp Hfit Hf; [lia|].
  destruct (node_at_ok b ns i Hns Hi) as (n & Hni & Hna & (Hnsz & _)).
  cbn [peek_loop]. rewrite (proj2 (Z.gtb_lt size 0)) by lia. rewrite Hna, Z.geb_leb.
  destruct (Z.leb_spec size (b - npos)).
  - rewrite (chain_slice b ns i) by (done || lia). done.
  - rewrite (chain_slice b ns i) by (done || lia). cbn [idx].
    assert (S i < length ns)%nat as HSi by nia.
    destruct (node_at_ok b ns (S i) Hns HSi) as (n' & Hn'i & Hn'a & (Hn'sz & _)).
    unfold next_of. rewrite (proj2 (Nat.ltb_lt _ _) HSi). rewrite Hn'a, Hn'sz. unwrap64.
    specialize (IH (buf ++ slice (i * Z.to_nat b + Z.to_nat npos) (Z.to_nat (b - npos)) (chain ns))
      (size - (b - npos)) 0 (S i)).
    rewrite Z.sub_0_r in IH. rewrite IH by (done || lia). rewrite <-app_assoc.
    replace (S i * Z.to_nat b + Z.to_nat 0)%nat
      with (i * Z.to_nat b + Z.to_nat npos + Z.to_nat (b - npos))%nat by nia.
    rewrite slice_add. do 3 f_equal. lia.
Qed.

Lemma wf_base64 s : wf s -> m_baseSize s < 2 ^ 64.
Proof. intros [Hb Hns Hne Hcap Hc64 Hpos Hsz Hcur]. nia. Qed.

Lemma slice_take_flat (pos n size : nat) (l : list Z) :
  (pos + n <= size)%nat -> slice pos n (take size l) = slice pos n l.
Proof.
  intros Hl. unfold slice. rewrite skipn_firstn_comm, take_take. f_equal. lia.
Qed.

Lemma length_abs s : wf s -> length (f_data (abs s)) = Z.to_nat (m_size s).
Proof.
  intros [Hb Hns Hne Hcap Hc64 Hpos Hsz Hcur]. cbn.
  rewrite length_take, (length_chain (m_baseSize s)) by done. nia.
Qed.

Lemma flat_write_app xs ys f :
  (f_pos f <= length (f_data f))%nat ->
  flat_write ys (flat_write xs f) = flat_write (xs ++ ys) f.
Proof.
  intros Hp. unfold flat_write; cbn. f_equal; [|rewrite length_app; lia].
  unfold splice at 2. rewrite app_assoc.
  replace (f_pos f + length xs)%nat with (length (take (f_pos f) (f_data f) ++ xs) + 0)%nat at 1
    by (rewrite length_app, length_take; lia).
  rewrite splice_app_r. unfold splice. cbn.
  by rewrite <-!app_assoc, drop_drop, length_app, Nat.add_assoc.
Qed.

Lemma abs_pos s : wf s -> (f_pos (abs s) <= length (f_data (abs s)))%nat.
Proof. intros Hwf. rewrite length_abs by done. pose proof (wf_pos s Hwf). cbn. lia. Qed.

Lemma getSizeForRead_eq s : wf s -> getSizeForRead s = m_size s - m_position s.
Proof.
  intros [Hb Hns Hne Hcap Hc64 Hpos Hsz Hcur]. unfold getSizeForRead.
  rewrite Z.gtb_ltb. destruct (Z.ltb_spec (m_size s) (m_position s)); [lia|].
  apply u64_small. lia.
Qed.

(** Reading: the chain of blocks behaves as the flat buffer, except that a read
    of nothing at the very end of the chain follows a null [m_cur]. *)
Lemma read_refines n s :
  wf s -> 0 <= n -> n <> 0 \/ m_position s < m_capacity s ->
  exists s', ByteArray_read n s = (fst (flat_read (Z.to_nat n) (abs s)), s') /\ wf s'
    /\ abs s' = snd (flat_read (Z.to_nat n) (abs s))
    /\ m_endian s' = m_endian s /\ m_baseSize s' = m_baseSize s
    /\ m_capacity s' = m_capacity s /\ m_size s' = m_size s.
Proof.
  intros Hwf Hn Hend. pose proof (wf_base64 s Hwf) as Hb64.
  pose proof Hwf as [Hb Hns Hne Hcap Hc64 Hpos Hsz Hcur].
  unfold ByteArray_read, flat_read. mstep. rewrite getSizeForRead_eq, Z.gtb_ltb by done.
  rewrite length_abs by done. cbn [f_pos abs].
  destruct (Z.ltb_spec (m_size s - m_position s) n).
  { exists s. destruct (Nat.leb_spec (Z.to_nat n) (Z.to_nat (m_size s) - Z.to_nat (m_position s)));
      [lia|]. split_and!; done. }
  destruct (Nat.leb_spec (Z.to_nat n) (Z.to_nat (m_size s) - Z.to_nat (m_position s))); [|lia].
  destruct (cur_of_split (m_baseSize s) (length (m_nodes s)) (m_position s))
    as (i & Hi & Hci & Hpi & Hoff); [lia..|].
  destruct (node_at_ok _ _ i Hns Hi) as (nd & Hni & Hna & (Hnsz & _)).
  rewrite Hcur, Hci, Hna, Hnsz. unwrap64.
  destruct (decide (n = 0)) as [->|Hn0].
  { exists s. cbn. unfold slice. rewrite Nat.add_0_r, take_0. split_and!; done. }
  rewrite (read_loop_spec _ [] n _ s i) by (done || lia || congruence).
  eexists. split; [cbn [app fst f_data abs]; rewrite slice_take_flat by lia; reflexivity|].
  split; [|split_and!; try done].
  - constructor; cbn; done || lia.
  - unfold abs. cbn. f_equal. lia.
Qed.

(** [readForPeek] returns what [read] would, without moving. *)
Lemma peek_refines n s :
  wf s -> 0 <= n -> n <> 0 \/ m_position s < m_capacity s ->
  readForPeek s n = fst (flat_read (Z.to_nat n) (abs s)).
Proof.
  intros Hwf Hn Hend. pose proof (wf_base64 s Hwf) as Hb64.
  pose proof Hwf as [Hb Hns Hne Hcap Hc64 Hpos Hsz Hcur].
  unfold readForPeek, flat_read. rewrite u64_small, Z.gtb_ltb by lia.
  rewrite length_abs by done. cbn [f_pos abs].
  destruct (Z.ltb_spec (m_size s - m_position s) n).
  { destruct (Nat.leb_spec (Z.to_nat n) (Z.to_nat (m_size s) - Z.to_nat (m_position s)));
      [lia|done]. }
  destruct (Nat.leb_spec (Z.to_nat n) (Z.to_nat (m_size s) - Z.to_nat (m_position s))); [|lia].
  destruct (cur_of_split (m_baseSize s) (length (m_nodes s)) (m_position s))
    as (i & Hi & Hci & Hpi & Hoff); [lia..|].
  destruct (node_at_ok _ _ i Hns Hi) as (nd & Hni & Hna & (Hnsz & _)).
  rewrite Hcur, Hci, Hna, Hnsz. unwrap64. cbn [fst f_data abs].
  rewrite slice_take_flat by lia.
  destruct (decide (n = 0)) as [->|Hn0]; [done|].
  rewrite (peek_loop_spec _ (m_baseSize s)) by (done || lia).
  cbn [app]. do 2 f_equal. nia.
Qed.

(** At the end of the capacity [m_cur] is null, and a read or peek of nothing follows it. *)
Lemma cur_at_end s : wf s -> m_position s = m_capacity s -> m_cur s = None.
Proof.
  intros [Hb Hns Hne Hcap Hc64 Hpos Hsz Hcur] Hend. rewrite Hcur. unfold cur_of.
  by rewrite (proj2 (Z.eqb_eq _ _)) by lia.
Qed.

Lemma read_null s : wf s -> m_position s = m_capacity s ->
  ByteArray_read 0 s = (Err (Undef null_deref), s).
Proof.
  intros Hwf Hend. pose proof (wf_pos s Hwf). unfold ByteArray_read. mstep.
  rewrite getSizeForRead_eq, Z.gtb_ltb by done. rewrite (proj2 (Z.ltb_ge _ _)) by lia.
  by rewrite cur_at_end.
Qed.

Lemma peek_null s : wf s -> m_position s = m_capacity s -> readForPeek s 0 = Err (Undef null_deref).
Proof.
  intros Hwf Hend. pose proof (wf_pos s Hwf). pose proof (wf_size s Hwf). pose proof (wf_cap64 s Hwf).
  unfold readForPeek. rewrite u64_small, Z.gtb_ltb by lia. rewrite (proj2 (Z.ltb_ge _ _)) by lia.
  by rewrite cur_at_end.
Qed.

Lemma growth_nonneg b os : 0 <= b -> 0 <= growth b os.
Proof. intros Hb. unfold growth. induction os as [|[] os IH]; cbn; lia. Qed.

(** The search of [setPosition] ends at the block of the position. *)
Lemma seek_loop_spec fuel b ns i v :
  0 < b -> Forall (node_ok b) ns -> b * Z.of_nat (length ns) < 2 ^ 64 ->
  (i < length ns)%nat -> 0 <= v -> Z.of_nat i * b + v <= b * Z.of_nat (length ns) ->
  (length ns - i < fuel)%nat ->
  seek_loop fuel ns (Some i) v = Ok (cur_of b (length ns) (Z.of_nat i * b + v)).
Proof.
  revert i v. induction fuel as [|fuel IH]; intros i v Hb Hns Hcap Hi Hv Hfit Hf; [lia|].
  destruct (node_at_ok b ns i Hns Hi) as (n & Hni & Hna & (Hnsz & _)).
  cbn [seek_loop]. rewrite Hna, Hnsz, Z.gtb_ltb. cbn [idx].
  destruct (Z.ltb_spec b v).
  - assert (S i < length ns)%nat as HSi by nia.
    unfold next_of. rewrite (proj2 (Nat.ltb_lt _ _) HSi). unwrap64.
    rewrite IH by (done || lia). do 2 f_equal. lia.
  - destruct (Z.eqb_spec v b) as [->|].
    + by rewrite (cur_of_next b).
    + by rewrite cur_of_in by lia.
Qed.

(** The destructor deletes every block, and each once. *)
Lemma delete_loop_spec ns : forall fuel i, (i < length ns)%nat -> (length ns - i < fuel)%nat ->
  delete_loop fuel ns (Some i) = Ok (seq i (length ns - i)).
Proof.
  induction fuel as [|fuel IH]; intros i Hi Hf; [lia|]. cbn [delete_loop]. unfold next_of.
  destruct (Nat.ltb_spec (S i) (length ns)).
  - rewrite IH by lia. replace (length ns - i)%nat with (S (length ns - S i)) by lia. done.
  - destruct fuel as [|fuel]; [lia|]. cbn [delete_loop]. replace (length ns - i)%nat with 1%nat by lia. done.
Qed.

Lemma delete_frees_once s : wf s -> ByteArray_delete s = Ok (seq 0 (length (m_nodes s))).
Proof.
  intros [_ _ Hne _ _ _ _ _]. unfold ByteArray_delete. destruct (m_nodes s) as [|n ns] eqn:E; [done|].
  by rewrite delete_loop_spec, Nat.sub_0_r by (cbn; lia).
Qed.

(** Seeking moves the position; beyond the data, and within the capacity, it
    also extends the data. *)
Lemma setPosition_spec v s :
  wf s -> 0 <= v <= m_capacity s ->
  exists s', setPosition v s = (Ok tt, s') /\ wf s' /\ m_position s' = v
    /\ m_size s' = Z.max (m_size s) v /\ m_nodes s' = m_nodes s
    /\ m_endian s' = m_endian s /\ m_baseSize s' = m_baseSize s
    /\ m_capacity s' = m_capacity s.
Proof.
  intros Hwf Hv. pose proof Hwf as [Hb Hns Hne Hcap Hc64 Hpos Hsz Hcur].
  unfold setPosition. mstep. rewrite Z.gtb_ltb.
  destruct (Z.ltb_spec (m_capacity s) v); [lia|].
  rewrite (seek_loop_spec _ (m_baseSize s)) by (done || lia).
  eexists. split; [reflexivity|]. cbn [m_position set_position]. rewrite Z.gtb_ltb. cbn.
  destruct (Z.ltb_spec (m_size s) v); cbn; (split; [constructor; cbn; done || lia|]);
    split_and!; done || lia.
Qed.

Lemma seek_refines v s :
  wf s -> 0 <= v <= m_size s ->
  exists s', setPosition v s = (Ok tt, s') /\ wf s'
    /\ abs s' = Flat (f_data (abs s)) (Z.to_nat v)
    /\ m_endian s' = m_endian s /\ m_baseSize s' = m_baseSize s
    /\ m_size s' = m_size s.
Proof.
  intros Hwf Hv. pose proof (wf_size s Hwf).
  destruct (setPosition_spec v s) as (s' & Hrun & Hwf' & Hp & Hs & Hn & He & Hb & _);
    [done|lia|]. exists s'. split_and!; try done; try lia.
  unfold abs. cbn. rewrite Hp, Hs, Hn. do 2 f_equal. lia.
Qed.

Lemma clear_refines s :
  wf s -> wf (clear s) /\ abs (clear s) = Flat [] 0.
Proof.
  intros [Hb Hns Hne Hcap Hc64 Hpos Hsz Hcur]. split; [|done].
  assert (length (take 1 (m_nodes s)) = 1%nat) as Hl by (rewrite length_take; lia).
  constructor; cbn [m_baseSize m_nodes m_capacity m_position m_size m_cur clear];
    rewrite ?Hl; try lia; try nia.
  - by apply Forall_take.
  - rewrite <-(cur_of_in (m_baseSize s) 1 0 0) by lia. f_equal.
Qed.

(** One operation of a client. *)
Lemma op_refines o s r f :
  wf s -> m_baseSize s <= 2 ^ 62 -> flat_run o (abs s) = Some (r, f) ->
  exists s', op_run o s = (r, s') /\ wf s' /\ abs s' = f /\ m_baseSize s' = m_baseSize s.
Proof.
  intros Hwf Hb Ho. pose proof (length_abs s Hwf) as Hlen. pose proof (wf_pos s Hwf) as Hpos.
  destruct o as [xs|n|n|v|]; cbn [flat_run] in Ho; unfold op_run.
  - destruct (forallb _ xs) eqn:Hxs; [|done].
    destruct (Z.ltb_spec (Z.of_nat (f_pos (abs s) + length xs)) (2 ^ 62)) as [Hlt|]; [|done].
    cbn [abs f_pos] in Hlt.
    injection Ho as <- <-.
    destruct (write_refines xs s) as (s' & Hrun & Hwf' & Habs & _ & Hb' & _); try done.
    + apply Forall_forall. intros x Hx%list_elem_of_In. unfold is_byte.
      apply (proj1 (forallb_forall _ _) Hxs) in Hx. lia.
    + unfold room. lia.
    + exists s'. mstep. by rewrite Hrun.
  - destruct (Z.ltb_spec 0 n); [|done]. injection Ho as Ho.
    destruct (read_refines n s) as (s' & Hrun & Hwf' & Habs & _ & Hb' & _); try lia; try done.
    exists s'. rewrite Ho in *. done.
  - destruct (Z.ltb_spec 0 n); [|done]. injection Ho as <- <-.
    exists s. rewrite peek_refines by (lia || done). done.
  - destruct (Z.leb_spec 0 v), (Z.leb_spec v (Z.of_nat (length (f_data (abs s))))); try done.
    injection Ho as <- <-.
    destruct (seek_refines v s) as (s' & Hrun & Hwf' & Habs & _ & Hb' & _); try lia; try done.
    exists s'. mstep. by rewrite Hrun.
  - injection Ho as <- <-. exists (clear s). destruct (clear_refines s Hwf). done.
Qed.

Lemma ops_refine os s rs f :
  wf s -> m_baseSize s <= 2 ^ 62 -> flat_runs os (abs s) = Some (rs, f) ->
  exists s', ops_run os s = (rs, s') /\ wf s' /\ abs s' = f.
Proof.
  revert s rs. induction os as [|o os IH]; intros s rs Hwf Hb Hos; cbn in Hos |- *.
  { injection Hos as <- <-. by exists s. }
  destruct (flat_run o (abs s)) as [[r f1]|] eqn:Ho; [|done].
  destruct (flat_runs os f1) as [[rs1 f2]|] eqn:Hr; [|done]. injection Hos as <- <-.
  destruct (op_refines o s r f1 Hwf Hb Ho) as (s1 & Hrun & Hwf1 & <- & Hb1).
  destruct (IH s1 rs1 Hwf1 ltac:(lia) Hr) as (s2 & Hrun2 & Hwf2 & <-).
  exists s2. rewrite Hrun, Hrun2. done.
Qed.

(** What a read or peek comes to is what the specification says. *)
Lemma read_view n s : wf s -> 0 <= n ->
  exists s', ByteArray_read n s = (view_read n (view_of s), s') /\ wf s' /\ m_baseSize s' = m_baseSize s
  /\ view_of s' = match view_read n (view_of s) with
                  | Ok xs => View (Flat (f_data (abs s)) (f_pos (abs s) + length xs)) (m_capacity s)
                  | Err _ => view_of s end.
Proof.
  intros Hwf Hn. pose proof (length_abs s Hwf) as Hlen. pose proof (wf_pos s Hwf) as Hpos.
  pose proof (wf_size s Hwf) as Hsz. unfold view_read, view_of at 1 3; cbn [abs f_data] in *. rewrite Hlen.
  destruct (Z.ltb_spec (Z.of_nat (Z.to_nat (m_size s) - Z.to_nat (m_position s))) n) as [Hlt|Hge].
  - exists s. unfold ByteArray_read. mstep. rewrite getSizeForRead_eq, Z.gtb_ltb by done.
    by rewrite (proj2 (Z.ltb_lt _ _)) by lia.
  - destruct (decide (n = 0 /\ m_position s = m_capacity s)) as [[-> Hend]|Hne].
    + rewrite (proj2 (Z.eqb_eq (Z.of_nat _) _)) by lia. cbn [Z.eqb andb]. exists s.
      by rewrite read_null by (done || lia).
    + replace ((n =? 0) && (Z.of_nat (Z.to_nat (m_position s)) =? m_capacity s)) with false
        by (symmetry; apply andb_false_iff; rewrite !Z.eqb_neq; lia).
      destruct (read_refines n s) as (s' & Hrun & Hwf' & Habs & _ & Hb' & Hc' & _); [done|lia..|].
      exists s'. unfold flat_read in Hrun, Habs. rewrite (length_abs s Hwf) in Hrun, Habs.
      cbn [abs f_pos] in Hrun, Habs.
      rewrite (proj2 (Nat.leb_le _ _)) in Hrun, Habs by lia. split_and!; [done..|].
      unfold view_of. rewrite Habs, Hc'. cbn [snd f_data f_pos]. do 3 f_equal.
      rewrite length_slice by (cbn [abs f_data] in Hlen; lia). done.
Qed.

Lemma peek_view n s : wf s -> 0 <= n < 2 ^ 64 -> readForPeek s n = view_read n (view_of s).
Proof.
  intros Hwf Hn. destruct (decide (n = 0 /\ m_position s = m_capacity s)) as [[-> Hend]|Hne].
  - pose proof (length_abs s Hwf) as Hlen. unfold view_read, view_of; cbn [abs f_data] in *.
    rewrite (proj2 (Z.ltb_ge _ 0)), (proj2 (Z.eqb_eq (Z.of_nat _) _)) by (pose proof (wf_pos s Hwf); lia).
    by apply peek_null.
  - pose proof (wf_pos s Hwf). pose proof (wf_size s Hwf).
    rewrite peek_refines by (done || lia). destruct (read_view n s Hwf) as (s' & Hrun & _); [lia|].
    destruct (read_refines n s) as (s2 & Hrun2 & _); [done|lia..|]. congruence.
Qed.

(** A seek within the capacity uncovers bytes of the blocks. *)
Lemma seek_view v s : wf s -> 0 <= v <= m_capacity s ->
  exists s' gap, setPosition v s = (Ok tt, s') /\ wf s' /\ m_baseSize s' = m_baseSize s /\ m_capacity s' = m_capacity s
  /\ length gap = (Z.to_nat v - length (f_data (abs s)))%nat /\ Forall is_byte gap
  /\ abs s' = Flat (f_data (abs s) ++ gap) (Z.to_nat v).
Proof.
  intros Hwf Hv. destruct (setPosition_spec v s Hwf Hv) as (s' & Hrun & Hwf' & Hp & Hs & Hn & _ & Hb & Hc).
  pose proof Hwf as [Hb0 Hns Hne Hcap Hc64 Hpos Hsz Hcur]. pose proof (length_chain _ _ Hns) as Hl.
  assert (length (chain (m_nodes s)) = Z.to_nat (m_capacity s)) as Hl' by nia.
  exists s', (slice (Z.to_nat (m_size s)) (Z.to_nat v - Z.to_nat (m_size s)) (chain (m_nodes s))).
  rewrite length_abs by done. split_and!; try done.
  - apply length_slice. lia.
  - apply Forall_take, Forall_drop. unfold chain. apply Forall_concat, Forall_fmap.
    eapply Forall_impl; [exact Hns|]. by intros n (_ & _ & ?).
  - unfold abs. rewrite Hp, Hs, Hn. cbn [f_data]. f_equal. unfold slice. rewrite take_take_drop. f_equal. lia.
Qed.

(** One operation of any client. *)
Lemma op_view o s : wf s -> op_typed o -> m_capacity s + op_growth (m_baseSize s) o + m_baseSize s < 2 ^ 64 ->
  exists r s', op_run o s = (r, s') /\ wf s' /\ m_baseSize s' = m_baseSize s
  /\ m_capacity s' <= m_capacity s + op_growth (m_baseSize s) o
  /\ view_step (m_baseSize s) o (view_of s) r (view_of s').
Proof.
  intros Hwf Ho Hg. pose proof Hwf as [Hb Hns Hne Hcap Hc64 Hpos Hsz Hcur].
  destruct o as [xs|n|n|v|]; cbn [op_typed op_growth] in *; unfold op_run, view_step, view_of at 1.
  - destruct (write_refines xs s) as (s' & Hrun & Hwf' & Habs & _ & Hb' & _ & _ & Hc1 & Hc2 & Hc3);
      [done..|unfold room; lia|]. exists (Ok []), s'. mstep. rewrite Hrun. split_and!; try done; [lia|].
    unfold view_of; cbn [v_flat v_cap abs]. split_and!; [done..|]. unfold grows.
    destruct (Z.leb_spec (Z.of_nat (Z.to_nat (m_position s) + length xs)) (m_capacity s)); [apply Hc1; lia|].
    split; [lia|]. rewrite (wf_cap s' Hwf'), Hb', Z.mul_comm. apply Z_mod_mult.
  - destruct (read_view n s Hwf) as (s' & Hrun & Hwf' & Hb' & Hv); [lia|].
    eexists _, s'. rewrite Hrun. split_and!; try done.
    apply (f_equal v_cap) in Hv. cbn -[view_read] in Hv. case_match; cbn in Hv; lia.
  - eexists _, s. rewrite peek_view by done. split_and!; done || lia.
  - destruct (Z.ltb_spec (m_capacity s) v) as [Hlt|Hge].
    + exists (Err (Throw out_of_range)), s. unfold setPosition. mstep. rewrite Z.gtb_ltb.
      rewrite (proj2 (Z.ltb_lt _ _) Hlt). cbn [abs]. split_and!; done || lia.
    + destruct (seek_view v s Hwf) as (s' & gap & Hrun & Hwf' & Hb' & Hc' & Hgap & Hgb & Habs); [lia|].
      exists (Ok []), s'. mstep. rewrite Hrun. cbn [abs].
      split_and!; try done; [lia|]. exists gap. split_and!; try done. unfold view_of. by rewrite Habs, Hc'.
  - exists (Ok []), (clear s). destruct (clear_refines s Hwf) as [Hwf' Habs]. split_and!; try done.
    cbn. nia.
Qed.

Lemma ops_view os : forall s, wf s -> Forall op_typed os ->
  m_capacity s + growth (m_baseSize s) os + m_baseSize s < 2 ^ 64 ->
  exists rs s', ops_run os s = (rs, s') /\ wf s' /\ view_steps (m_baseSize s) os (view_of s) rs (view_of s').
Proof.
  induction os as [|o os IH]; intros s Hwf Ho Hg; cbn [ops_run].
  { exists [], s. split_and!; [done..|constructor]. }
  inversion Ho as [|? ? Ho1 Ho2]; subst. cbn [growth foldr] in Hg. fold (growth (m_baseSize s) os) in Hg.
  pose proof (growth_nonneg (m_baseSize s) os ltac:(pose proof (wf_base s Hwf); lia)).
  destruct (op_view o s Hwf Ho1) as (r & s1 & Hrun & Hwf1 & Hb1 & Hc1 & Hv1); [lia|].
  destruct (IH s1 Hwf1 Ho2) as (rs & s2 & Hrun2 & Hwf2 & Hv2); [rewrite Hb1; lia|].
  exists (r :: rs), s2. rewrite Hrun, Hrun2. split_and!; try done. rewrite Hb1 in Hv2. by econstructor.
Qed.
End WithPlatform.

(** ** Properties *)

(** Within the data a new buffer of any block size is one flat array of bytes: the
    same values and exceptions are observed. *)
Theorem contract_simulates_flat `{Platform} b os rs f :
  0 < b <= 2 ^ 62 -> flat_runs os (Flat [] 0) = Some (rs, f) ->
  exists s, ops_run os (ByteArray_new b) = (rs, s) /\ wf s /\ abs s = f.
Proof. intros Hb Hos. apply ops_refine; [apply wf_new; lia|cbn; lia|done]. Qed.

(** C1: a buffer implements its specification on a flat array of bytes.  For blocks of any
    size, every client and every sequence of operations whose writes do not grow the
    chain to 2^64 bytes, what is observed is what the specification allows: writes
    overwrite and extend the array; a read or peek yields the bytes at the position,
    throws when there are too few and, of no bytes at the end of the last block,
    follows a null pointer; a seek beyond the capacity throws, one beyond the data
    extends it by bytes of the blocks; clearing empties it.  No other fault occurs:
    no block is overrun, no loop runs out of fuel, and the invariant holds at the
    end, also after faults. *)
Theorem buffer_simulates_flat `{Platform} b os :
  0 < b -> Forall op_typed os -> 2 * b + growth b os < 2 ^ 64 ->
  exists rs s, ops_run os (ByteArray_new b) = (rs, s) /\ wf s
  /\ view_steps b os (View (Flat [] 0) b) rs (view_of s).
Proof.
  intros Hb Hos Hg. destruct (ops_view os (ByteArray_new b)) as (rs & s & Hrun & Hwf & Hv);
    [apply wf_new; pose proof (growth_nonneg b os); lia|done|cbn [m_capacity m_baseSize ByteArray_new]; lia|].
  by exists rs, s.
Qed.

(** Five bytes through blocks of two, a short read and a read too many. *)
Definition demo_ops : list op :=
  [OpWrite [1; 2; 3; 4; 5]; OpSeek 1; OpRead 3; OpPeek 1; OpRead 2; OpWrite [6; 7]; OpSeek 0;
   OpRead 6; OpClear; OpRead 1].

Definition demo_obs : list (result (list Z)) :=
  [Ok []; Ok []; Ok [2; 3; 4]; Ok [5]; Err (Throw out_of_range); Ok []; Ok [];
   Ok [1; 2; 3; 4; 6; 7]; Ok []; Err (Throw out_of_range)].

Lemma contract_simulates_flat_witness :
  exists s, @ops_run x86 demo_ops (@ByteArray_new x86 2) = (demo_obs, s) /\ wf s
            /\ abs s = Flat [] 0.
Proof. apply (@contract_simulates_flat x86 2 demo_ops); [lia|vm_compute; reflexivity]. Defined.

(** With reads of nothing, before and at the end of a block, and seeks past the data
    and past the capacity. *)
Definition demo_edges : list op :=
  [OpWrite [1; 2; 3]; OpRead 0; OpSeek 4; OpRead 0; OpPeek 1; OpSeek 5; OpSeek 2; OpRead 2].

Lemma buffer_simulates_flat_witness :
  (exists rs s, @ops_run x86 demo_edges (@ByteArray_new x86 2) = (rs, s) /\ wf s
   /\ view_steps 2 demo_edges (View (Flat [] 0) 2) rs (view_of s))
  /\ fst (@ops_run x86 demo_edges (@ByteArray_new x86 2))
     = [Ok []; Ok []; Ok []; Err (Undef null_deref); Err (Throw out_of_range); Err (Throw out_of_range); Ok []; Ok [3; 0]].
Proof.
  split; [|vm_compute; reflexivity]. apply (@buffer_simulates_flat x86 2 demo_edges); [lia| |vm_compute; reflexivity].
  repeat constructor; vm_compute; (done || discriminate).
Defined.

(** The positioning of the buffer on every branch: beyond the capacity
    [setPosition] throws and changes nothing; otherwise the invariant is kept,
    the blocks are untouched, [m_cur] is the block of the position and the size
    grows to the position when it lies beyond the data. *)
Theorem setPosition_total `{Platform} v s :
  wf s -> 0 <= v ->
  if v >? m_capacity s then setPosition v s = (Err (Throw out_of_range), s)
  else exists s', setPosition v s = (Ok tt, s') /\ wf s' /\ m_position s' = v
    /\ m_size s' = Z.max (m_size s) v /\ m_nodes s' = m_nodes s.
Proof.
  intros Hwf Hv. rewrite Z.gtb_ltb. destruct (Z.ltb_spec (m_capacity s) v) as [Hlt|Hle].
  - unfold setPosition. mstep. rewrite Z.gtb_ltb. by rewrite (proj2 (Z.ltb_lt _ _) Hlt).
  - destruct (setPosition_spec v s Hwf) as (s' & ? & ? & ? & ? & ? & _); [lia|]. by exists s'.
Qed.

Lemma setPosition_total_witness :
  exists s', @setPosition 5 (@ByteArray_new x86 8) = (Ok tt, s') /\ wf s' /\ m_position s' = 5
    /\ m_size s' = 5 /\ m_nodes s' = m_nodes (@ByteArray_new x86 8).
Proof.
  apply (@setPosition_total x86 5 (@ByteArray_new x86 8)); [apply wf_new; lia|lia].
Defined.

(** A read of no bytes at the end of a full chain follows the null
    [m_cur]: after writing a whole block and a seek to its end, [read(buf, 0)]
    is undefined behaviour although the size check lets it pass. *)
Theorem read_nothing_at_end `{Platform} xs b :
  Z.of_nat (length xs) = b -> 0 < b < 2 ^ 63 -> Forall is_byte xs ->
  exists s, ByteArray_write xs (ByteArray_new b) = (Ok tt, s) /\ getSizeForRead s = 0
            /\ ByteArray_read 0 s = (Err (Undef null_deref), s).
Proof.
  intros Hl Hb Hxs.
  destruct (write_refines xs (ByteArray_new b)) as (s & Hrun & Hwf & _ & _ & Hbs & Hp & Hs & Hc & _);
    [apply wf_new; lia|done|unfold room; cbn; lia|].
  pose proof Hwf as [_ _ Hne Hcap _ _ _ Hcur]. cbn in Hbs, Hp, Hs.
  exists s. split; [done|]. rewrite getSizeForRead_eq by done. split; [lia|].
  assert (length (m_nodes s) = 1%nat) as Hn.
  { specialize (Hc ltac:(cbn; lia)). cbn in Hc. nia. }
  unfold ByteArray_read. mstep. rewrite getSizeForRead_eq, Z.gtb_ltb by done.
  rewrite (proj2 (Z.ltb_ge _ _)) by lia.
  rewrite Hcur. unfold cur_of. rewrite Hn, Hp, Hbs. rewrite (proj2 (Z.eqb_eq _ _)) by lia. done.
Qed.

Lemma read_nothing_at_end_witness :
  exists s, @ByteArray_write x86 [7; 8] (@ByteArray_new x86 2) = (Ok tt, s) /\ getSizeForRead s = 0
            /\ ByteArray_read 0 s = (Err (Undef null_deref), s).
Proof.
  apply (@read_nothing_at_end x86 [7; 8] 2); [done|lia|].
  repeat constructor; unfold is_byte; lia.
Defined.
