(* ===== verification/ByteArrayCodec.v ===== *)
(** * Typed values in the serialisation buffer

    What the typed reads and writes of [ByteArray] promise to a client: a
    [Codec] says which bytes a value is on the wire, that the write appends
    exactly these and that the read takes exactly these back.  Every pair of
    typed operations of [bytearray.cc] is an instance; messages of several
    values follow from the interface alone. *)
From S2P Require Import Prelude Endian Varint ByteArray ByteArraySpec.

(** [s'] is [s] after [xs] were written at its position. *)
Record produces (s : ByteArray) (xs : list Z) (s' : ByteArray) : Prop := {
  prod_wf : wf s';
  prod_abs : abs s' = flat_write xs (abs s);
  prod_endian : m_endian s' = m_endian s;
  prod_base : m_baseSize s' = m_baseSize s
}.

(** [s'] is [s] after [n] bytes were read at its position. *)
Record consumes (s : ByteArray) (n : nat) (s' : ByteArray) : Prop := {
  cons_wf : wf s';
  cons_abs : abs s' = Flat (f_data (abs s)) (f_pos (abs s) + n);
  cons_endian : m_endian s' = m_endian s;
  cons_base : m_baseSize s' = m_baseSize s
}.

(** The unread bytes of [s] begin with [xs]. *)
Definition at_wire (xs : list Z) (s : ByteArray) : Prop :=
  slice (f_pos (abs s)) (length xs) (f_data (abs s)) = xs.

(** The interface between the typed operations and their clients. *)
Class Codec `{Platform} {A} (w : A -> M ByteArray unit) (r : M ByteArray A)
    (wire : endian -> A -> list Z) (dom : A -> Prop) : Prop := {
  codec_bytes e a : dom a -> Forall is_byte (wire e a);
  codec_write a s : wf s -> dom a -> room (Z.of_nat (length (wire (m_endian s) a))) s ->
    exists s', w a s = (Ok tt, s') /\ produces s (wire (m_endian s) a) s';
  codec_read a s : wf s -> dom a -> at_wire (wire (m_endian s) a) s ->
    exists s', r s = (Ok a, s') /\ consumes s (length (wire (m_endian s) a)) s'
}.

(** Integers on the wire: in the byte order of the buffer, whatever the host's. *)
Definition int_wire (t : int_type) (e : endian) (v : Z) : list Z :=
  match e with
  | SYLAR_LITTLE_ENDIAN => le_split (int_size t) v
  | SYLAR_BIG_ENDIAN => rev (le_split (int_size t) v)
  end.

Definition uint32_range (v : Z) : Prop := 0 <= v < 2 ^ 32.
Definition uint64_range (v : Z) : Prop := 0 <= v < 2 ^ 64.
Definition sint32_range (v : Z) : Prop := - 2 ^ 31 <= v < 2 ^ 31.
Definition sint64_range (v : Z) : Prop := - 2 ^ 63 <= v < 2 ^ 63.

(** A non-empty string of bytes, for which the machine has memory and whose length a
    [bits]-bit prefix can hold. *)
Definition string_dom `{Platform} (bits : Z) (v : list Z) : Prop :=
  (0 < length v)%nat /\ Z.of_nat (length v) < 2 ^ bits /\ Z.of_nat (length v) <= string_memory
  /\ Forall is_byte v.

(** The kinds of values a buffer holds. *)
Inductive kind :=
| KFint8 | KFuint8 | KFint16 | KFuint16 | KFint32 | KFuint32 | KFint64 | KFuint64
| KInt32 | KUint32 | KInt64 | KUint64 | KFloat | KDouble
| KStringF16 | KStringF32 | KStringF64 | KStringVint.

Definition kind_type (k : kind) : Type :=
  match k with
  | KStringF16 | KStringF32 | KStringF64 | KStringVint => list Z
  | _ => Z
  end.

(** [wire k e v]: the value [v] of kind [k] on the wire. *)
Definition wire (k : kind) (e : endian) : kind_type k -> list Z :=
  match k return kind_type k -> list Z with
  | KFint8 => int_wire int8_t e
  | KFuint8 => int_wire uint8_t e
  | KFint16 => int_wire int16_t e
  | KFuint16 => int_wire uint16_t e
  | KFint32 => int_wire int32_t e
  | KFuint32 => int_wire uint32_t e
  | KFint64 => int_wire int64_t e
  | KFuint64 => int_wire uint64_t e
  | KInt32 => fun v => varint_ref 4 (EncodingZigzag32 v)
  | KUint32 => fun v => varint_ref 4 v
  | KInt64 => fun v => varint_ref 9 (EncodingZigzag64 v)
  | KUint64 => fun v => varint_ref 9 v
  | KFloat => int_wire uint32_t e
  | KDouble => int_wire uint64_t e
  | KStringF16 => fun v => int_wire uint16_t e (Z.of_nat (length v)) ++ v
  | KStringF32 => fun v => int_wire uint32_t e (Z.of_nat (length v)) ++ v
  | KStringF64 => fun v => int_wire uint64_t e (Z.of_nat (length v)) ++ v
  | KStringVint => fun v => varint_ref 9 (Z.of_nat (length v)) ++ v
  end.

Definition dom `{Platform} (k : kind) : kind_type k -> Prop :=
  match k return kind_type k -> Prop with
  | KFint8 => int_range int8_t
  | KFuint8 => int_range uint8_t
  | KFint16 => int_range int16_t
  | KFuint16 => int_range uint16_t
  | KFint32 => int_range int32_t
  | KFuint32 => int_range uint32_t
  | KFint64 => int_range int64_t
  | KFuint64 => int_range uint64_t
  | KInt32 => sint32_range
  | KUint32 => uint32_range
  | KInt64 => sint64_range
  | KUint64 => uint64_range
  | KFloat => int_range uint32_t
  | KDouble => int_range uint64_t
  | KStringF16 => string_dom 16
  | KStringF32 => string_dom 32
  | KStringF64 => string_dom 64
  | KStringVint => string_dom 64
  end.

Section Messages.
Context `{Platform}.

(** The typed write and read of each kind. *)
Definition kind_write (k : kind) : kind_type k -> M ByteArray unit :=
  match k return kind_type k -> M ByteArray unit with
  | KFint8 => writeFint8 | KFuint8 => writeFuint8
  | KFint16 => writeFint16 | KFuint16 => writeFuint16
  | KFint32 => writeFint32 | KFuint32 => writeFuint32
  | KFint64 => writeFint64 | KFuint64 => writeFuint64
  | KInt32 => writeInt32 | KUint32 => writeUint32
  | KInt64 => writeInt64 | KUint64 => writeUint64
  | KFloat => writeFloat | KDouble => writeDouble
  | KStringF16 => writeStringF16 | KStringF32 => writeStringF32
  | KStringF64 => writeStringF64 | KStringVint => writeStringVint
  end.

Definition kind_read (k : kind) : M ByteArray (kind_type k) :=
  match k return M ByteArray (kind_type k) with
  | KFint8 => readFint8 | KFuint8 => readFuint8
  | KFint16 => readFint16 | KFuint16 => readFuint16
  | KFint32 => readFint32 | KFuint32 => readFuint32
  | KFint64 => readFint64 | KFuint64 => readFuint64
  | KInt32 => readInt32 | KUint32 => readUint32
  | KInt64 => readInt64 | KUint64 => readUint64
  | KFloat => readFloat | KDouble => readDouble
  | KStringF16 => readStringF16 | KStringF32 => readStringF32
  | KStringF64 => readStringF64 | KStringVint => readStringFVint
  end.

(** A message: values of several kinds, one after the other. *)
Inductive item := Item (k : kind) (v : kind_type k).
Definition item_kind (i : item) : kind := let 'Item k _ := i in k.
Definition item_wire (e : endian) (i : item) : list Z := let 'Item k v := i in wire k e v.
Definition item_dom (i : item) : Prop := let 'Item k v := i in dom k v.

Definition message_wire (e : endian) (its : list item) : list Z := concat (item_wire e <$> its).

Fixpoint message_write (its : list item) : M ByteArray unit :=
  match its with
  | [] => mret ()
  | Item k v :: its => kind_write k v;; message_write its
  end.

Fixpoint message_read (ks : list kind) : M ByteArray (list item) :=
  match ks with
  | [] => mret []
  | k :: ks => v ← kind_read k; its ← message_read ks; mret (Item k v :: its)
  end.
End Messages.

(** ** Composing writes and reads *)

Lemma produces_nil s : wf s -> produces s [] s.
Proof.
  intros Hwf. constructor; try done. unfold flat_write. cbn.
  by rewrite splice_nil, Nat.add_0_r.
Qed.

Lemma produces_app s xs s1 ys s2 :
  wf s -> produces s xs s1 -> produces s1 ys s2 -> produces s (xs ++ ys) s2.
Proof.
  intros Hwf [] []. constructor; try done; try congruence.
  rewrite prod_abs1, prod_abs0. apply flat_write_app. by apply abs_pos.
Qed.

Lemma produces_room s xs s1 n :
  wf s -> produces s xs s1 ->
  room (Z.of_nat (length xs) + n) s -> room n s1.
Proof.
  intros Hwf [Hwf1 Habs _ Hb] Hr. unfold room in *. rewrite Hb.
  apply (f_equal f_pos) in Habs. cbn in Habs.
  pose proof (wf_pos s Hwf). pose proof (wf_pos s1 Hwf1). lia.
Qed.

Lemma consumes_app s n s1 m s2 :
  consumes s n s1 -> consumes s1 m s2 -> consumes s (n + m) s2.
Proof.
  intros [] []. constructor; try done; try congruence.
  rewrite cons_abs1, cons_abs0. cbn. f_equal. lia.
Qed.

Lemma at_wire_app xs ys s s1 :
  at_wire (xs ++ ys) s ->
  at_wire xs s /\ (consumes s (length xs) s1 -> at_wire ys s1).
Proof.
  unfold at_wire. rewrite length_app, <-slice_add. intros Heq.
  assert (length (slice (f_pos (abs s)) (length xs) (f_data (abs s))) <= length xs)%nat
    by (unfold slice; rewrite length_take; lia).
  assert (length (slice (f_pos (abs s) + length xs) (length ys) (f_data (abs s))) <= length ys)%nat
    by (unfold slice; rewrite length_take; lia).
  pose proof (f_equal length Heq) as Hl. rewrite !length_app in Hl.
  apply app_inj_1 in Heq as [E1 E2]; [|lia].
  split; [done|]. intros [_ Habs _ _]. rewrite Habs. done.
Qed.

(** What was just written is there to be read from where it was written. *)
Lemma produced_at_wire s xs s1 s2 :
  wf s -> produces s xs s1 -> abs s2 = Flat (f_data (abs s1)) (f_pos (abs s)) -> at_wire xs s2.
Proof.
  intros Hwf [_ Habs _ _] H2. unfold at_wire. rewrite H2, Habs. cbn [f_pos f_data flat_write].
  pose proof (abs_pos s Hwf). unfold slice, splice.
  rewrite drop_app_length' by (rewrite length_take; lia). by rewrite take_app_length.
Qed.

Section Instances.
Context `{Platform}.

Lemma write_produces xs s :
  wf s -> Forall is_byte xs -> room (Z.of_nat (length xs)) s ->
  exists s', ByteArray_write xs s = (Ok tt, s') /\ produces s xs s'.
Proof.
  intros Hwf Hxs Hr. destruct (write_refines xs s Hwf Hxs Hr) as (s' & ? & ? & ? & ? & ? & _).
  by exists s'.
Qed.

Lemma read_consumes xs s :
  wf s -> (0 < length xs)%nat -> at_wire xs s ->
  exists s', ByteArray_read (Z.of_nat (length xs)) s = (Ok xs, s') /\ consumes s (length xs) s'.
Proof.
  intros Hwf Hl Hat.
  destruct (read_refines (Z.of_nat (length xs)) s Hwf) as (s' & Hrun & Hwf' & Habs & He & Hb & _);
    [lia..|].
  rewrite Nat2Z.id in *. unfold flat_read in *. unfold at_wire in Hat.
  assert (length xs <= length (f_data (abs s)) - f_pos (abs s))%nat as Hle.
  { apply (f_equal length) in Hat. unfold slice in Hat.
    rewrite length_take, length_drop in Hat. lia. }
  rewrite (proj2 (Nat.leb_le _ _) Hle) in *. cbn [fst snd] in *. rewrite Hat in Hrun.
  exists s'. done.
Qed.

(** ** Fixed-width integers *)

Lemma int_wire_bytes t e v : Forall is_byte (int_wire t e v).
Proof. destruct e; [|apply Forall_rev]; apply le_split_bytes. Qed.

Lemma length_int_wire t e v : length (int_wire t e v) = int_size t.
Proof. destruct e; cbn; rewrite ?length_rev; apply length_le_split. Qed.

Lemma write_int_wire t v s :
  (0 < int_size t)%nat -> write_int t v s = ByteArray_write (int_wire t (m_endian s) v) s.
Proof.
  intros Ht. unfold write_int. mstep. f_equal.
  destruct (decide (m_endian s = host)) as [->|Hne]; [done|].
  rewrite mem_of_byteswap by done. unfold int_wire, mem_of.
  destruct (m_endian s), host; try done. by rewrite rev_involutive.
Qed.

Lemma read_int_wire t v e :
  (0 < int_size t)%nat -> int_range t v ->
  (if decide (e = host) then of_mem host t (int_wire t e v)
   else byteswap t (of_mem host t (int_wire t e v))) = v.
Proof.
  intros Ht Hv. destruct (decide (e = host)) as [->|Hne].
  - by apply of_mem_mem_of.
  - assert (int_wire t e v = mem_of host t (byteswap t v)) as ->.
    { rewrite mem_of_byteswap by done. unfold int_wire, mem_of.
      destruct e, host; try done. by rewrite rev_involutive. }
    rewrite of_mem_mem_of by auto using byteswap_range. by apply byteswap_involutive.
Qed.

#[export] Instance int_codec t :
  (0 < int_size t)%nat -> Codec (write_int t) (read_int t) (int_wire t) (int_range t).
Proof.
  intros Ht. constructor.
  - intros; apply int_wire_bytes.
  - intros v s Hwf _ Hr. rewrite write_int_wire by done.
    apply write_produces; auto using int_wire_bytes.
  - intros v s Hwf Hv Hat.
    destruct (read_consumes _ s Hwf ltac:(by rewrite length_int_wire) Hat) as (s' & Hrun & Hc).
    exists s'. split; [|done]. unfold read_int. rewrite length_int_wire in Hrun.
    mstep. rewrite Hrun. rewrite (cons_endian _ _ _ Hc). by rewrite read_int_wire.
Qed.

(** One byte has no byte order. *)
#[export] Instance byte_codec b :
  let t := IntType 1 b in
  Codec (fun v => ByteArray_write (mem_of host t v))
    (xs ← ByteArray_read 1; mret (of_mem host t xs)) (int_wire t) (int_range t).
Proof.
  intros t. constructor.
  - intros; apply int_wire_bytes.
  - intros v s Hwf _ Hr. replace (mem_of host t v) with (int_wire t (m_endian s) v).
    + apply write_produces; auto using int_wire_bytes.
    + unfold int_wire, mem_of. by destruct (m_endian s), host.
  - intros v s Hwf Hv Hat.
    destruct (read_consumes (int_wire t (m_endian s) v) s Hwf
                ltac:(rewrite length_int_wire; apply Nat.lt_0_1) Hat) as (s' & Hrun & Hc).
    exists s'. split; [|done]. rewrite length_int_wire in Hrun.
    change (Z.of_nat (int_size t)) with 1 in Hrun. mstep. rewrite Hrun. do 2 f_equal.
    replace (int_wire t (m_endian s) v) with (mem_of host t v)
      by (unfold int_wire, mem_of; by destruct (m_endian s), host).
    apply of_mem_mem_of; [cbn; lia|done].
Qed.

(** ** Variable-length integers *)

Lemma readFuint8_at b rest s :
  wf s -> is_byte b -> at_wire (b :: rest) s ->
  exists s', readFuint8 s = (Ok b, s') /\ consumes s 1 s' /\ at_wire rest s'.
Proof.
  intros Hwf Hb Hat.
  assert (int_wire uint8_t (m_endian s) b = [b]) as E.
  { unfold int_wire, is_byte in *. cbn. rewrite Z.mod_small by done. by destruct (m_endian s). }
  destruct (codec_read (Codec := byte_codec false) b s Hwf) as (s' & Hrun & Hc).
  - exact Hb.
  - rewrite E. by apply (at_wire_app [b] rest s s).
  - rewrite E in Hc. exists s'. split; [done|]. split; [done|].
    by apply (at_wire_app [b] rest s s').
Qed.

(** The decoding loop on the buffer does what it does on a list of bytes. *)
Lemma varint_read_loop_spec fuel w i res xs v s :
  wf s -> Forall is_byte xs -> at_wire xs s -> varint_read fuel w i res xs = Some (v, []) ->
  exists s', varint_read_loop fuel w i res s = (Ok v, s') /\ consumes s (length xs) s'.
Proof.
  revert i res xs s. induction fuel as [|fuel IH]; intros i res xs s Hwf Hxs Hat Hr;
    cbn [varint_read varint_read_loop] in *.
  { injection Hr as -> ->. exists s. split; [done|]. constructor; try done.
    cbn. by rewrite Nat.add_0_r. }
  destruct (i <? w).
  2: { injection Hr as -> ->. exists s. split; [done|]. constructor; try done.
       cbn. by rewrite Nat.add_0_r. }
  destruct xs as [|b xs]; [done|]. apply Forall_cons in Hxs as [Hb Hxs].
  destruct (readFuint8_at b xs s Hwf Hb Hat) as (s1 & Hrun & Hc & Hat1).
  mstep. rewrite Hrun. destruct (b <? 0x80).
  - injection Hr as -> ->. by exists s1.
  - destruct (IH _ _ xs s1 (cons_wf _ _ _ Hc) Hxs Hat1 Hr) as (s2 & Hrun2 & Hc2).
    exists s2. split; [done|]. by apply (consumes_app _ 1 s1 (length xs)).
Qed.

#[export] Instance uint32_codec :
  Codec writeUint32 readUint32 (fun _ => varint_ref 4) uint32_range.
Proof.
  unfold uint32_range. constructor.
  - intros _ v Hv. apply varint_ref_bytes. cbn. lia.
  - intros v s Hwf Hv Hr. unfold writeUint32. mstep. rewrite varint32_bytes_ref by done.
    apply write_produces; auto. apply varint_ref_bytes. cbn. lia.
  - intros v s Hwf Hv Hat. apply (varint_read_loop_spec 5 32); try done.
    + apply varint_ref_bytes. cbn. lia.
    + rewrite <-(app_nil_r (varint_ref 4 v)). by apply varint32_read_back.
Qed.

#[export] Instance uint64_codec :
  Codec writeUint64 readUint64 (fun _ => varint_ref 9) uint64_range.
Proof.
  unfold uint64_range. constructor.
  - intros _ v Hv. apply varint_ref_bytes. cbn. lia.
  - intros v s Hwf Hv Hr. unfold writeUint64. mstep. rewrite varint64_bytes_ref by done.
    apply write_produces; auto. apply varint_ref_bytes. cbn. lia.
  - intros v s Hwf Hv Hat. apply (varint_read_loop_spec 10 64); try done.
    + apply varint_ref_bytes. cbn. lia.
    + rewrite <-(app_nil_r (varint_ref 9 v)). by apply varint64_read_back.
Qed.

(** A codec composed with an injection of the values. *)
Lemma codec_map {A B} (w : B -> M ByteArray unit) r wr (D : B -> Prop)
    (enc : A -> B) (dec : B -> A) (D' : A -> Prop) :
  Codec w r wr D -> (forall a, D' a -> D (enc a)) -> (forall a, D' a -> dec (enc a) = a) ->
  Codec (fun a => w (enc a)) (v ← r; mret (dec v)) (fun e a => wr e (enc a)) D'.
Proof.
  intros HC Hd Hi. constructor.
  - intros e a Ha. eapply codec_bytes; eauto.
  - intros a s Hwf Ha Hr. eapply (codec_write (Codec := HC)); eauto.
  - intros a s Hwf Ha Hat. edestruct (codec_read (Codec := HC)) as (s' & Hrun & Hc); eauto.
    exists s'. split; [|done]. mstep. rewrite Hrun. by rewrite Hi.
Qed.

#[export] Instance int32_codec :
  Codec writeInt32 readInt32 (fun _ v => varint_ref 4 (EncodingZigzag32 v)) sint32_range.
Proof.
  apply (codec_map _ _ _ _ EncodingZigzag32 DecodingZigzag32 _ uint32_codec).
  - intros v _. apply u32_range.
  - intros v Hv. by apply (zigzag_dec_enc 32).
Qed.

#[export] Instance int64_codec :
  Codec writeInt64 readInt64 (fun _ v => varint_ref 9 (EncodingZigzag64 v)) sint64_range.
Proof.
  apply (codec_map _ _ _ _ EncodingZigzag64 DecodingZigzag64 _ uint64_codec).
  - intros v _. apply u64_range.
  - intros v Hv. by apply (zigzag_dec_enc 64).
Qed.

(** ** Length-prefixed strings, from the codec of the length *)

Lemma string_resize_ok n : n <= string_memory -> string_resize n = Ok tt.
Proof. intros Hn. pose proof string_limits. unfold string_resize. bool_cases; done || lia. Qed.

Lemma string_codec (w : Z -> M ByteArray unit) r wr (D : Z -> Prop) bits (cast : Z -> Z) :
  Codec w r wr D -> (forall n, 0 <= n < 2 ^ bits -> D n /\ cast n = n) ->
  Codec (fun v => w (cast (Z.of_nat (length v)));; ByteArray_write v) (read_string r)
    (fun e v => wr e (Z.of_nat (length v)) ++ v) (string_dom bits).
Proof.
  intros HC HD.
  assert (forall v : list Z, string_dom bits v ->
    D (Z.of_nat (length v)) /\ cast (Z.of_nat (length v)) = Z.of_nat (length v)) as Hlen.
  { intros v (Hne & Hl & _). apply HD. lia. }
  constructor.
  - intros e v Hv. apply Forall_app. split; [|apply Hv].
    eapply codec_bytes. by apply Hlen.
  - intros v s Hwf Hv Hr. destruct (Hlen v Hv) as [HDv Hcast]. rewrite length_app in Hr.
    destruct (codec_write (Codec := HC) (Z.of_nat (length v)) s Hwf HDv)
      as (s1 & Hrun1 & Hp1); [unfold room in *; lia|].
    destruct (write_produces v s1 (prod_wf _ _ _ Hp1)) as (s2 & Hrun2 & Hp2); [apply Hv|..].
    { eapply produces_room; [exact Hwf|exact Hp1|]. unfold room in *; lia. }
    exists s2. split; [|by eapply produces_app].
    mstep. rewrite Hcast, Hrun1. done.
  - intros v s Hwf Hv Hat. destruct (Hlen v Hv) as [HDv _].
    pose proof (at_wire_app _ _ s s Hat) as [Hat1 _].
    destruct (codec_read (Codec := HC) _ s Hwf HDv Hat1) as (s1 & Hrun1 & Hc1).
    apply (at_wire_app _ _ s s1) in Hat as [_ Hat2]. specialize (Hat2 Hc1).
    destruct (read_consumes v s1 (cons_wf _ _ _ Hc1)) as (s2 & Hrun2 & Hc2);
      [apply Hv|done|].
    exists s2. split.
    + unfold read_string. mstep. rewrite Hrun1, string_resize_ok by apply Hv. done.
    + rewrite length_app. by eapply consumes_app.
Qed.

Lemma fixed_len_dom t n :
  int_signed t = false -> 0 <= n < 2 ^ int_bits t ->
  int_range t n /\ n mod 2 ^ int_bits t = n.
Proof.
  intros Hs Hn. unfold int_range. rewrite Hs. split; [done|]. by apply Z.mod_small.
Qed.

(** Every kind of value has its codec. *)
#[export] Instance kind_codec (k : kind) : Codec (kind_write k) (kind_read k) (wire k) (dom k).
Proof.
  destruct k; cbn [kind_write kind_read wire dom];
    try (exact (byte_codec _)); try (apply int_codec; cbn; lia); try apply _.
  - apply (string_codec _ _ _ _ 16 u16 (int_codec uint16_t ltac:(cbn; lia))).
    intros n Hn. by apply (fixed_len_dom uint16_t).
  - apply (string_codec _ _ _ _ 32 u32 (int_codec uint32_t ltac:(cbn; lia))).
    intros n Hn. by apply (fixed_len_dom uint32_t).
  - apply (string_codec _ _ _ _ 64 u64 (int_codec uint64_t ltac:(cbn; lia))).
    intros n Hn. by apply (fixed_len_dom uint64_t).
  - apply (string_codec _ _ _ _ 64 u64 uint64_codec).
    intros n Hn. split; [done|]. by apply u64_small.
Qed.

(** [writeStringF16] of any string: the prefix is the length modulo 2^16. *)
Lemma writeStringF16_produces v s :
  wf s -> Forall is_byte v -> room (Z.of_nat (length v) + 2) s ->
  exists s1, writeStringF16 v s = (Ok tt, s1)
    /\ produces s (int_wire uint16_t (m_endian s) (u16 (Z.of_nat (length v))) ++ v) s1.
Proof.
  intros Hwf Hv Hr.
  destruct (codec_write (Codec := int_codec uint16_t ltac:(cbn; lia))
    (u16 (Z.of_nat (length v))) s Hwf) as (sa & Hwa & Hpa).
  { apply (Z.mod_pos_bound _ (2 ^ 16)). lia. }
  { unfold room in *. rewrite length_int_wire. cbn [int_size]. lia. }
  destruct (write_produces v sa (prod_wf _ _ _ Hpa) Hv) as (s1 & Hwb & Hpb).
  { eapply produces_room; [exact Hwf|exact Hpa|]. unfold room in *.
    rewrite length_int_wire. cbn [int_size]. lia. }
  exists s1. split; [|by eapply produces_app].
  unfold writeStringF16. mstep. unfold writeFuint16. by rewrite Hwa.
Qed.

(** ** Messages *)

Lemma message_write_produces its s :
  wf s -> Forall item_dom its -> room (Z.of_nat (length (message_wire (m_endian s) its))) s ->
  exists s', message_write its s = (Ok tt, s') /\ produces s (message_wire (m_endian s) its) s'.
Proof.
  revert s. induction its as [|[k v] its IH]; intros s Hwf Hd Hr.
  { exists s. split; [done|]. by apply produces_nil. }
  apply Forall_cons in Hd as [Hv Hd]. unfold message_wire in *. cbn [fmap list_fmap concat] in *.
  rewrite length_app in Hr. cbn [item_wire message_write] in *.
  destruct (codec_write (Codec := kind_codec k) v s Hwf Hv) as (s1 & Hrun1 & Hp1);
    [unfold room in *; lia|].
  pose proof (prod_endian _ _ _ Hp1) as He.
  destruct (IH s1 (prod_wf _ _ _ Hp1) Hd) as (s2 & Hrun2 & Hp2).
  { eapply produces_room; [exact Hwf|exact Hp1|]. rewrite He. unfold room in *; lia. }
  exists s2. rewrite He in Hp2. split; [|by eapply produces_app].
  mstep. by rewrite Hrun1.
Qed.

Lemma message_read_consumes its s :
  wf s -> Forall item_dom its -> at_wire (message_wire (m_endian s) its) s ->
  exists s', message_read (item_kind <$> its) s = (Ok its, s')
    /\ consumes s (length (message_wire (m_endian s) its)) s'.
Proof.
  revert s. induction its as [|[k v] its IH]; intros s Hwf Hd Hat.
  { exists s. split; [done|]. constructor; try done. cbn. by rewrite Nat.add_0_r. }
  apply Forall_cons in Hd as [Hv Hd]. unfold message_wire in *. cbn [fmap list_fmap concat] in *.
  cbn [item_wire item_kind message_read] in *.
  pose proof (at_wire_app _ _ s s Hat) as [Hat1 _].
  destruct (codec_read (Codec := kind_codec k) v s Hwf Hv Hat1) as (s1 & Hrun1 & Hc1).
  apply (at_wire_app _ _ s s1) in Hat as [_ Hat2]. specialize (Hat2 Hc1).
  pose proof (cons_endian _ _ _ Hc1) as He. rewrite <-He in Hat2 at 1.
  destruct (IH s1 (cons_wf _ _ _ Hc1) Hd Hat2) as (s2 & Hrun2 & Hc2).
  exists s2. split.
  - mstep. by rewrite Hrun1, Hrun2.
  - rewrite length_app. rewrite He in Hc2. by eapply consumes_app.
Qed.
End Instances.

(** ** Properties *)

(** C3: writing a message and reading it back.  The message has values of any of the
    eighteen kinds: integers and floating-point patterns of their C++ types, and
    strings that are not empty, that have fewer bytes than their length prefix can
    say (2^16 for [F16], 2^32 for [F32]) and for which there is memory.  Wherever its
    parts fall on block boundaries, seeking back to where it began and reading values
    of these kinds returns the message, ends where the writing ended, and keeps the
    invariant; on either kind of machine and in either byte order of the buffer.  The
    limits on strings are needed: see [writeStringF16_truncates],
    [read_nothing_at_end] and [string_prefix_throws]. *)
Theorem message_roundtrip `{Platform} its s :
  wf s -> Forall item_dom its -> room (Z.of_nat (length (message_wire (m_endian s) its))) s ->
  exists s1 s2 s3, message_write its s = (Ok tt, s1)
    /\ setPosition (m_position s) s1 = (Ok tt, s2)
    /\ message_read (item_kind <$> its) s2 = (Ok its, s3)
    /\ wf s3 /\ m_position s3 = m_position s1.
Proof.
  intros Hwf Hd Hr. destruct (message_write_produces its s Hwf Hd Hr) as (s1 & Hw & Hp).
  pose proof (wf_pos s Hwf) as Hpos. pose proof (wf_pos s1 (prod_wf _ _ _ Hp)) as Hpos1.
  pose proof (f_equal f_pos (prod_abs _ _ _ Hp)) as Hpp. cbn in Hpp.
  destruct (seek_refines (m_position s) s1 (prod_wf _ _ _ Hp))
    as (s2 & Hseek & Hwf2 & Habs2 & He2 & _); [lia|].
  rewrite (prod_endian _ _ _ Hp) in He2.
  destruct (message_read_consumes its s2 Hwf2 Hd) as (s3 & Hread & Hc).
  { rewrite He2. by eapply (produced_at_wire s). }
  exists s1, s2, s3. split_and!; try done; [apply Hc|].
  pose proof (f_equal f_pos (cons_abs _ _ _ Hc)) as Hp3.
  rewrite Habs2, He2 in Hp3. cbn in Hp3. pose proof (wf_pos s3 (cons_wf _ _ _ Hc)). lia.
Qed.

(** A message that crosses the blocks of a buffer with blocks of three bytes. *)
Definition demo_message : list item :=
  [Item KFint32 (-2); Item KInt64 (- 2 ^ 63); Item KStringF16 [104; 105]; Item KUint32 300;
   Item KDouble (2 ^ 63); Item KStringVint [1; 2; 3]].

Lemma string_dom_intro `{Platform} bits v :
  (0 < length v)%nat -> Z.of_nat (length v) < 2 ^ bits -> Z.of_nat (length v) <= string_memory ->
  forallb (fun x => (0 <=? x) && (x <? 256)) v = true -> string_dom bits v.
Proof.
  intros Hl Hb Hm Hv. split_and!; try done. apply Forall_forall. intros x Hx%list_elem_of_In.
  apply (proj1 (forallb_forall _ _) Hv) in Hx. unfold is_byte. lia.
Qed.

Lemma demo_message_dom `{Platform} : Forall item_dom demo_message.
Proof.
  pose proof string_limits. unfold demo_message. rewrite !Forall_cons, Forall_nil.
  split_and!; try done; apply string_dom_intro; cbn; lia || done.
Qed.

Lemma message_roundtrip_witness :
  exists s1 s2 s3, @message_write x86 demo_message (@ByteArray_new x86 3) = (Ok tt, s1)
    /\ setPosition 0 s1 = (Ok tt, s2)
    /\ @message_read x86 (item_kind <$> demo_message) s2 = (Ok demo_message, s3)
    /\ wf s3 /\ m_position s3 = m_position s1.
Proof.
  apply (@message_roundtrip x86 demo_message (@ByteArray_new x86 3));
    [apply wf_new; lia|apply demo_message_dom|vm_compute; reflexivity].
Defined.

(** The wire format is portable: two machines of any byte orders that
    write the same message into buffers with the same contents (and the same
    buffer byte order) end with the same contents, so either can read what the
    other wrote. *)
Theorem wire_format_portable (P1 P2 : Platform) its s t :
  wf s -> wf t -> abs s = abs t -> m_endian s = m_endian t -> Forall (@item_dom P1) its -> Forall (@item_dom P2) its ->
  room (Z.of_nat (length (message_wire (m_endian s) its))) s ->
  room (Z.of_nat (length (message_wire (m_endian t) its))) t ->
  exists s' t', @message_write P1 its s = (Ok tt, s') /\ @message_write P2 its t = (Ok tt, t')
    /\ abs s' = abs t'.
Proof.
  intros Hs Ht Ha He Hd1 Hd2 Hrs Hrt.
  destruct (@message_write_produces P1 its s Hs Hd1 Hrs) as (s' & Hws & Hps).
  destruct (@message_write_produces P2 its t Ht Hd2 Hrt) as (t' & Hwt & Hpt).
  exists s', t'. split_and!; try done.
  rewrite (prod_abs _ _ _ Hps), (prod_abs _ _ _ Hpt). by rewrite He, Ha.
Qed.

Lemma wire_format_portable_witness :
  exists s' t', @message_write x86 demo_message (@ByteArray_new x86 4) = (Ok tt, s')
    /\ @message_write sparc demo_message (@ByteArray_new sparc 5) = (Ok tt, t')
    /\ abs s' = abs t'.
Proof.
  apply (wire_format_portable x86 sparc demo_message (@ByteArray_new x86 4) (@ByteArray_new sparc 5));
    try (apply wf_new; lia); try apply demo_message_dom; vm_compute; reflexivity.
Defined.

(** A 16-bit length prefix does not hold longer strings: for a string
    of 2^16 + n bytes, n > 0, [writeStringF16] succeeds, but reading the string
    back from its start returns the first n bytes only. *)
Theorem writeStringF16_truncates `{Platform} n v s :
  wf s -> Forall is_byte v -> Z.of_nat (length v) = 2 ^ 16 + n -> 0 < n < 2 ^ 16 -> n <= string_memory ->
  room (2 ^ 17 + 2) s ->
  exists s1 s2 s3, writeStringF16 v s = (Ok tt, s1)
    /\ setPosition (m_position s) s1 = (Ok tt, s2)
    /\ readStringF16 s2 = (Ok (take (Z.to_nat n) v), s3).
Proof.
  intros Hwf Hv Hl Hn Hm Hr.
  set (v1 := take (Z.to_nat n) v). set (v2 := drop (Z.to_nat n) v).
  assert (v = v1 ++ v2) as Ev by (symmetry; apply take_drop).
  assert (length v1 = Z.to_nat n) as Hl1 by (unfold v1; rewrite length_take; lia).
  assert (string_dom 16 v1) as Hd1.
  { split_and!; [lia..|]. by apply Forall_take. }
  assert (length v = length v1 + length v2)%nat as Hl12 by (rewrite Ev at 1; apply length_app).
  assert (u16 (Z.of_nat (length v)) = u16 (Z.of_nat (length v1))) as Hu.
  { rewrite Hl, Hl1, Z2Nat.id by lia. unfold u16.
    rewrite <-Zplus_mod_idemp_l, Z_mod_same_full. done. }
  destruct (writeStringF16_produces v s Hwf Hv) as (s1 & Hw & Hp); [unfold room in *; lia|].
  rewrite Hu in Hp. unfold u16 in Hp. rewrite Z.mod_small in Hp by lia.
  rewrite Ev, app_assoc in Hp at 1.
  pose proof (wf_pos s Hwf) as Hpos. pose proof (wf_pos s1 (prod_wf _ _ _ Hp)) as Hpos1.
  pose proof (f_equal f_pos (prod_abs _ _ _ Hp)) as Hpp. cbn [f_pos abs flat_write] in Hpp.
  destruct (seek_refines (m_position s) s1 (prod_wf _ _ _ Hp))
    as (s2 & Hseek & Hwf2 & Habs2 & He2 & _); [lia|].
  rewrite (prod_endian _ _ _ Hp) in He2.
  assert (at_wire (wire KStringF16 (m_endian s2) v1) s2) as Hat.
  { rewrite He2. apply (at_wire_app _ v2 s2 s2). by eapply (produced_at_wire s). }
  destruct (codec_read (Codec := kind_codec KStringF16) v1 s2 Hwf2 Hd1 Hat) as (s3 & Hread & _).
  exists s1, s2, s3. done.
Qed.

Lemma writeStringF16_truncates_witness :
  exists s1 s2 s3,
    @writeStringF16 x86 (replicate (Z.to_nat 65537) 7) (@ByteArray_new x86 4096) = (Ok tt, s1)
    /\ setPosition 0 s1 = (Ok tt, s2)
    /\ @readStringF16 x86 s2 = (Ok (take (Z.to_nat 1) (replicate (Z.to_nat 65537) 7)), s3).
Proof.
  apply (@writeStringF16_truncates x86 1 (replicate (Z.to_nat 65537) 7) (@ByteArray_new x86 4096)).
  - apply wf_new; lia.
  - apply Forall_replicate. unfold is_byte. lia.
  - rewrite length_replicate. lia.
  - lia.
  - vm_compute. discriminate.
  - vm_compute. reflexivity.
Defined.
