(* ===== verification/ByteArrayTyped.v ===== *)
(** * Reading arbitrary bytes

    What the typed reads of [ByteArray] do on a buffer whose contents nobody
    wrote with the typed writes: a type discipline.  A read yields a value of
    its C++ type or throws, and leaves a good buffer with the same contents.
    The rules for sequences of reads follow from the type of each read alone. *)
From S2P Require Import Prelude Endian Varint ByteArray ByteArraySpec ByteArrayCodec.

(** [s'] is [s] with the position possibly moved on. *)
Record advanced (s s' : ByteArray) : Prop := {
  adv_wf : wf s';
  adv_data : f_data (abs s') = f_data (abs s);
  adv_pos : m_position s <= m_position s';
  adv_cap : m_capacity s' = m_capacity s;
  adv_endian : m_endian s' = m_endian s
}.

(** What a read of type [T] may come to: a value of the type, [out_of_range],
    or, where strings are read ([z]), what becomes of a prefix that is longer than
    the machine's strings and, where nothing is to be read, the null block at the end
    of a full buffer (see [read_nothing_at_end]). *)
Definition outcome {A} (z : bool) (T : A -> Prop) (r : result A) (s' : ByteArray) : Prop :=
  match r with
  | Ok v => T v
  | Err (Throw out_of_range) => True
  | Err (Throw length_error | Throw bad_alloc) => z = true
  | Err (Undef null_deref) => z = true /\ m_position s' = m_capacity s'
  | Err _ => False
  end.

(** The typing judgement: from any good buffer [m] has such an outcome. *)
Definition reads {A} (z : bool) (T : A -> Prop) (m : M ByteArray A) : Prop :=
  forall s, wf s -> exists r s', m s = (r, s') /\ advanced s s' /\ outcome z T r s'.

(** The strings that a read yields: bytes, as many as the prefix can say and the
    memory holds. *)
Definition string_typed `{Platform} (bits : Z) (v : list Z) : Prop :=
  Z.of_nat (length v) < 2 ^ bits /\ Z.of_nat (length v) <= string_memory /\ Forall is_byte v.

(** The values of a kind that its read yields; the empty string is among them,
    though it cannot always be read. *)
Definition typed `{Platform} (k : kind) : kind_type k -> Prop :=
  match k return kind_type k -> Prop with
  | KStringF16 => string_typed 16
  | KStringF32 => string_typed 32
  | KStringF64 => string_typed 64
  | KStringVint => string_typed 64
  | k => dom k
  end.

(** Whether a value of the kind has a length prefix. *)
Definition is_string (k : kind) : bool :=
  match k with KStringF16 | KStringF32 | KStringF64 | KStringVint => true | _ => false end.

Definition item_typed `{Platform} (i : item) : Prop := let 'Item k v := i in typed k v.

(** ** Structural rules *)

Lemma advanced_refl s : wf s -> advanced s s.
Proof. by constructor. Qed.

Lemma advanced_trans s1 s2 s3 : advanced s1 s2 -> advanced s2 s3 -> advanced s1 s3.
Proof. intros [] []. constructor; try done; try congruence; lia. Qed.

Lemma outcome_fault {A B} z (T : A -> Prop) (U : B -> Prop) e s :
  outcome z T (Err e) s -> outcome z U (Err e) s.
Proof. done. Qed.

Lemma reads_ret {A} z (T : A -> Prop) a : T a -> reads z T (mret a).
Proof. intros Ha s Hwf. exists (Ok a), s. split; [done|]. split; [by apply advanced_refl|done]. Qed.

Lemma reads_bind {A B} z (T : A -> Prop) (U : B -> Prop) m f :
  reads z T m -> (forall a, T a -> reads z U (f a)) -> reads z U (m ≫= f).
Proof.
  intros Hm Hf s Hwf. destruct (Hm s Hwf) as ([a|e] & s1 & Hrun & Hadv & Hout).
  - destruct (Hf a Hout s1 (adv_wf _ _ Hadv)) as (r & s2 & Hrun2 & Hadv2 & Hout2).
    exists r, s2. split; [|split; [by eapply advanced_trans|done]].
    unfold mbind, M_bind. by rewrite Hrun.
  - exists (Err e), s1. split; [|done]. unfold mbind, M_bind. by rewrite Hrun.
Qed.

Lemma reads_weaken {A} z (T U : A -> Prop) m : (forall a, T a -> U a) -> reads false T m -> reads z U m.
Proof.
  intros HTU Hm s Hwf. destruct (Hm s Hwf) as (r & s' & Hrun & Hadv & Hout).
  exists r, s'. split; [done|]. split; [done|].
  destruct r as [a|[[]| |[]|]]; try done; [by apply HTU|by destruct Hout].
Qed.

Section Reads.
Context `{Platform}.

(** ** The reads *)

(** The raw read of [n] bytes; of none, it may meet the null block. *)
Lemma read_typed n : 0 <= n ->
  reads (n =? 0) (fun xs => Z.of_nat (length xs) = n /\ Forall is_byte xs) (ByteArray_read n).
Proof.
  intros Hn s Hwf. pose proof Hwf as [Hb Hns Hne Hcap Hc64 Hpos Hsz Hcur].
  destruct (decide (n = 0 /\ m_position s = m_capacity s)) as [[-> Hend]|Hsome].
  - exists (Err (Undef null_deref)), s. split; [|split; [by apply advanced_refl|done]].
    unfold ByteArray_read. mstep. rewrite getSizeForRead_eq, Z.gtb_ltb by done.
    rewrite (proj2 (Z.ltb_ge _ 0)) by lia. rewrite Hcur. unfold cur_of.
    by rewrite <-Hcap, Hend, Z.eqb_refl.
  - destruct (read_refines n s Hwf Hn) as (s' & Hrun & Hwf' & Habs & He & _ & Hc' & _); [lia|].
    unfold flat_read in *. pose proof (length_abs s Hwf) as Hlen.
    destruct (Nat.leb_spec (Z.to_nat n) (length (f_data (abs s)) - f_pos (abs s))) as [Hle|];
      cbn [fst snd] in *.
    + eexists _, s'. split; [exact Hrun|]. pose proof (f_equal f_pos Habs) as Hp. cbn in Hp.
      pose proof (wf_pos s' Hwf'). split; [constructor; try done; [by rewrite Habs|lia]|].
      cbn [abs f_pos] in *. split.
      * rewrite length_slice by lia. lia.
      * unfold slice. apply Forall_take, Forall_drop. cbn. apply Forall_take. by eapply chain_bytes.
    + eexists _, s'. split; [exact Hrun|]. pose proof (f_equal f_pos Habs) as Hp. cbn in Hp.
      pose proof (wf_pos s' Hwf'). split; [constructor; try done; [by rewrite Habs|lia]|done].
Qed.

(** A fixed-width integer is in the range of its type. *)
Lemma fixed_typed t : (0 < int_size t)%nat -> reads false (int_range t) (read_int t).
Proof.
  intros Ht. unfold read_int. eapply reads_bind.
  - eapply reads_weaken; [|replace false with (Z.of_nat (int_size t) =? 0) by (apply Z.eqb_neq; lia);
      apply read_typed; lia]. intros xs Hxs. exact Hxs.
  - intros xs _ s Hwf. eexists _, s. split; [done|]. split; [by apply advanced_refl|]. cbn.
    destruct (decide _); [by apply of_mem_range|by apply byteswap_range].
Qed.

Lemma byte_typed b : reads false (int_range (IntType 1 b))
  (xs ← ByteArray_read 1; mret (of_mem host (IntType 1 b) xs)).
Proof.
  eapply reads_bind; [apply (read_typed 1); lia|]. intros xs _. apply reads_ret, of_mem_range. cbn. lia.
Qed.

(** A group of seven bits at any place keeps the number below [2 ^ w]. *)
Lemma varint_group_range w i res b : 0 <= w -> 0 <= res < 2 ^ w ->
  0 <= Z.lor res (Z.shiftl b i mod 2 ^ w) < 2 ^ w.
Proof.
  intros Hw Hr. rewrite <-(Z.mod_small res (2 ^ w) Hr), <-!Z.land_ones, <-Z.land_lor_distr_l, Z.land_ones by lia.
  apply Z.mod_pos_bound. lia.
Qed.

Lemma varint_typed fuel w i res : 0 <= w -> 0 <= res < 2 ^ w ->
  reads false (fun v => 0 <= v < 2 ^ w) (varint_read_loop fuel w i res).
Proof.
  intros Hw. revert i res. induction fuel as [|fuel IH]; intros i res Hr; cbn [varint_read_loop].
  - by apply reads_ret.
  - destruct (i <? w); [|by apply reads_ret]. eapply reads_bind; [apply (byte_typed false)|].
    intros b _. destruct (b <? 0x80).
    + by apply reads_ret, varint_group_range.
    + by apply IH, varint_group_range.
Qed.

(** Making room for a string. *)
Lemma string_resize_typed n : reads true (fun _ => n <= string_memory) (lift (string_resize n)).
Proof.
  intros s Hwf. eexists _, s. split; [done|]. split; [by apply advanced_refl|].
  unfold string_resize. destruct (Z.ltb_spec string_max_size n), (Z.ltb_spec string_memory n); cbn; done || lia.
Qed.

(** A string of a length that the prefix says. *)
Lemma string_read_typed bits r : reads false (fun n => 0 <= n < 2 ^ bits) r ->
  reads true (string_typed bits) (read_string r).
Proof.
  intros Hr. unfold read_string. eapply reads_bind; [by eapply reads_weaken; [|exact Hr]; intros n Hn; exact Hn|].
  intros n Hn. eapply reads_bind; [apply (string_resize_typed n)|]. cbn beta. intros _ Hm s Hwf.
  destruct (read_typed n (proj1 Hn) s Hwf) as (o & s' & Hrun & Hadv & Hout).
  exists o, s'. split; [done|]. split; [done|].
  destruct o as [xs|[[]| |[]|]]; try done.
  - destruct Hout as [Hl Hxs]. cbn in Hn. split_and!; [lia..|done].
  - by destruct Hout.
Qed.

(** Every kind's read has its type. *)
Lemma kind_typed k : reads (is_string k) (typed k) (kind_read k).
Proof.
  destruct k; cbn [kind_read typed is_string dom kind_type];
    try (exact (byte_typed _)); try (by apply fixed_typed; cbn; lia);
    try (apply string_read_typed); try (apply (fixed_typed uint16_t); cbn; lia);
    try (apply (fixed_typed uint32_t); cbn; lia); try (apply (fixed_typed uint64_t); cbn; lia);
    try (apply (varint_typed _ _ 0 0); lia).
  - eapply reads_bind; [apply (varint_typed 5 32 0 0); lia|]. intros v _. apply reads_ret.
    apply (sgn_range 32). lia.
  - eapply reads_bind; [apply (varint_typed 10 64 0 0); lia|]. intros v _. apply reads_ret.
    apply (sgn_range 64). lia.
Qed.

(** Sequences of reads. *)
Lemma message_typed ks :
  reads (existsb is_string ks) (fun its => item_kind <$> its = ks /\ Forall item_typed its)
    (message_read ks).
Proof.
  induction ks as [|k ks IH]; cbn [message_read existsb].
  { apply reads_ret. by split. }
  assert (forall A z z' (T : A -> Prop) m, (z' = true -> z = true) -> reads z' T m -> reads z T m) as Hup.
  { intros A z z' T m Hz Hm s Hwf. destruct (Hm s Hwf) as (r & s' & Hrun & Hadv & Hout).
    exists r, s'. split; [done|]. split; [done|]. destruct r as [a|[[]| |[]|]]; try done.
    all: cbn in Hout |- *; intuition. }
  eapply reads_bind; [eapply Hup, kind_typed; by intros ->|]. intros v Hv.
  eapply reads_bind; [eapply Hup, IH; intros ->; apply orb_true_r|]. intros its [Hk Hits].
  apply reads_ret. split; [cbn; by rewrite Hk|by constructor].
Qed.
End Reads.

(** ** Property *)

(** C34: reading is type-safe on arbitrary bytes.  Whatever a buffer contains and
    wherever its position is, a sequence of typed reads (fixed-width integers,
    varints, zigzag, floating-point patterns, length-prefixed strings) either
    yields one value of each type asked for (an integer in the range of its C++
    type, a string of bytes not longer than its prefix can say and than there is
    memory for) or throws [out_of_range]; the buffer keeps its invariant and its
    contents.  Only when strings are asked for there are other ends: a prefix that
    the machine's strings cannot hold throws [length_error] or [bad_alloc], before
    it is compared with what is left (see [string_prefix_throws]), and the empty
    string whose prefix ends a full buffer follows the null block. *)
Theorem reads_well_typed `{Platform} ks s : wf s ->
  exists r s', message_read ks s = (r, s')
  /\ wf s' /\ f_data (abs s') = f_data (abs s) /\ m_position s <= m_position s' <= m_size s'
  /\ match r with
     | Ok its => item_kind <$> its = ks /\ Forall item_typed its
     | Err e => e = Throw out_of_range
                \/ existsb is_string ks = true
                   /\ (e = Throw length_error \/ e = Throw bad_alloc
                       \/ e = Undef null_deref /\ m_position s' = m_capacity s')
     end.
Proof.
  intros Hwf. destruct (message_typed ks s Hwf) as (r & s' & Hrun & [Hwf' Hd Hp _ _] & Hout).
  exists r, s'. pose proof (wf_pos s' Hwf'). split_and!; try done; [lia|].
  destruct r as [its|[[]| |[]|]]; try done; cbn in Hout; naive_solver.
Qed.

(** Seven bytes with every bit set, in blocks of three: a varint that ends for
    want of bits, then not enough bytes for a 32-bit number. *)
Definition demo_ones : ByteArray :=
  set_cur (Some 0%nat) (set_position 0 (snd (@ByteArray_write x86 (repeat 255 7) (@ByteArray_new x86 3)))).

Lemma demo_ones_wf : wf demo_ones.
Proof.
  constructor; try (vm_compute; (done || (split; discriminate))).
  - repeat constructor; vm_compute; (done || discriminate).
  - by apply Nat.ltb_lt; vm_compute.
Qed.

Lemma reads_well_typed_witness :
  (exists r s', @message_read x86 [KUint32; KFint16] demo_ones = (r, s')
  /\ wf s' /\ f_data (abs s') = f_data (abs demo_ones) /\ m_position demo_ones <= m_position s' <= m_size s'
  /\ match r with
     | Ok its => item_kind <$> its = [KUint32; KFint16] /\ Forall (@item_typed x86) its
     | Err e => e = Throw out_of_range
                \/ existsb is_string [KUint32; KFint16] = true
                   /\ (e = Throw length_error \/ e = Throw bad_alloc
                       \/ e = Undef null_deref /\ m_position s' = m_capacity s')
     end)
  /\ fst (@message_read x86 [KUint32; KFint16] demo_ones)
     = Ok [Item KUint32 (2 ^ 32 - 1); Item KFint16 (-1)]
  /\ fst (@message_read x86 [KUint32; KFint32] demo_ones) = Err (Throw out_of_range).
Proof.
  split; [apply (@reads_well_typed x86 [KUint32; KFint16] demo_ones), demo_ones_wf|].
  split; vm_compute; reflexivity.
Defined.

(** The prefix of a string is trusted: when it says more bytes than a string can
    have, or than there is memory for, [resize] throws before [read] is asked
    whether the buffer has them.  The documented exception is [out_of_range]. *)
Lemma string_prefix_throws `{Platform} n s :
  wf s -> string_memory < n < 2 ^ 64 -> at_wire (wire KFuint64 (m_endian s) n) s ->
  exists e s', readStringF64 s = (Err (Throw e), s') /\ (e = length_error \/ e = bad_alloc)
  /\ m_position s' = m_position s + 8.
Proof.
  intros Hwf Hn Hat. pose proof string_limits.
  destruct (codec_read (Codec := int_codec uint64_t ltac:(cbn; lia)) n s Hwf) as (s' & Hrun & Hc);
    [apply (fixed_len_dom uint64_t); [done|change (int_bits uint64_t) with 64; lia]|done|].
  exists (if string_max_size <? n then length_error else bad_alloc), s'.
  split_and!; [|destruct (_ <? _); auto|].
  - unfold readStringF64, read_string. mstep. unfold readFuint64. rewrite Hrun.
    unfold string_resize. rewrite (proj2 (Z.ltb_lt string_memory n)) by lia. by destruct (_ <? _).
  - pose proof (f_equal f_pos (cons_abs _ _ _ Hc)) as Hp. rewrite length_int_wire in Hp. cbn in Hp.
    pose proof (wf_pos s Hwf). pose proof (wf_pos s' (cons_wf _ _ _ Hc)). lia.
Qed.

(** Eight bytes with every bit set. *)
Definition demo_prefix : ByteArray :=
  set_cur (Some 0%nat) (set_position 0 (snd (@ByteArray_write x86 (repeat 255 8) (@ByteArray_new x86 16)))).

Lemma demo_prefix_wf : wf demo_prefix.
Proof.
  constructor; try (vm_compute; (done || (split; discriminate))).
  repeat constructor; vm_compute; (done || discriminate).
Qed.

Lemma string_prefix_throws_witness :
  (exists e s', @readStringF64 x86 demo_prefix = (Err (Throw e), s') /\ (e = length_error \/ e = bad_alloc)
   /\ m_position s' = m_position demo_prefix + 8)
  /\ fst (@readStringF64 x86 demo_prefix) = Err (Throw length_error).
Proof.
  split; [|vm_compute; reflexivity]. apply (@string_prefix_throws x86 (2 ^ 64 - 1)).
  - apply demo_prefix_wf.
  - vm_compute. done.
  - vm_compute. reflexivity.
Defined.
