(* ===== verification/ByteArrayIO.v ===== *)
(** * The serialisation buffer, files and scatter/gather I/O

    [writeToFile], [readFromFile], the three [get*Buffers] and [toHexString]
    against the flat contents of the buffer. *)
From S2P Require Import Prelude Endian Varint ByteArray ByteArraySpec.

(** The [iovec]s cover the range [start, start + len) of the chain in order:
    none is empty, each lies within its block, each begins where the one before
    it ends. *)
Fixpoint iov_covers (b start len : Z) (l : list iovec) : Prop :=
  match l with
  | [] => len = 0
  | v :: l =>
      0 < iov_len v /\ 0 <= iov_off v /\ iov_off v + iov_len v <= b
      /\ Z.of_nat (iov_node v) * b + iov_off v = start
      /\ iov_covers b (start + iov_len v) (len - iov_len v) l
  end.

(** What [writev]/[sendmsg] gathers from the [iovec]s. *)
Definition iov_bytes (ns : list Node) (l : list iovec) : list Z :=
  concat ((fun v => match ns !! iov_node v with
                    | Some n => slice (Z.to_nat (iov_off v)) (Z.to_nat (iov_len v)) (Node_ptr n)
                    | None => [] end) <$> l).

Definition from_hex (c : Z) : Z := if c <? 58 then c - 48 else c - 87.

(** The bytes a hex dump shows: newlines skipped, two digits and a space each. *)
Fixpoint unhex (l : list Z) : option (list Z) :=
  match l with
  | [] => Some []
  | h :: rest =>
      if h =? 10 then unhex rest else
      match rest with
      | l :: sp :: rest =>
          if sp =? 32 then
            match unhex rest with
            | Some bs => Some (16 * from_hex h + from_hex l :: bs)
            | None => None
            end
          else None
      | _ => None
      end
  end.

Lemma iov_covers_app b l1 l2 start len1 len2 :
  iov_covers b start len1 l1 -> iov_covers b (start + len1) len2 l2 ->
  iov_covers b start (len1 + len2) (l1 ++ l2).
Proof.
  revert start len1. induction l1 as [|v l1 IH]; intros start len1; cbn [iov_covers app].
  - intros -> H2. rewrite Z.add_0_r in H2. done.
  - intros (H1 & H3 & H4 & H5 & H6) H2. split_and!; try done.
    replace (len1 + len2 - iov_len v) with (len1 - iov_len v + len2) by lia.
    apply IH; [done|]. replace (start + iov_len v + (len1 - iov_len v)) with (start + len1) by lia.
    done.
Qed.

Lemma iov_covers_nonneg b l start len : iov_covers b start len l -> 0 <= len.
Proof.
  revert start len. induction l as [|v l IH]; intros start len; cbn [iov_covers]; [lia|].
  intros (H1 & _ & _ & _ & H5%IH). lia.
Qed.

(** Gathering a covered range is reading it. *)
Lemma iov_covers_bytes b ns l start len :
  0 < b -> Forall (node_ok b) ns -> 0 <= start ->
  start + len <= b * Z.of_nat (length ns) -> iov_covers b start len l ->
  iov_bytes ns l = slice (Z.to_nat start) (Z.to_nat len) (chain ns).
Proof.
  intros Hb Hns. revert start len. induction l as [|v l IH]; intros start len Hs Hfit Hc;
    cbn [iov_covers] in Hc.
  { subst len. done. }
  destruct Hc as (H1 & H2 & H3 & H4 & Hc). unfold iov_bytes in *. cbn [fmap list_fmap concat].
  pose proof (iov_covers_nonneg _ _ _ _ Hc) as Hle.
  assert (iov_node v < length ns)%nat as Hi by nia.
  destruct (node_at_ok b ns _ Hns Hi) as (n & Hni & _ & _). rewrite Hni.
  pose proof (chain_slice b ns _ n (iov_off v) (iov_len v) Hns Hni) as Hr.
  unfold node_read in Hr. destruct (Z.leb_spec (iov_off v + iov_len v) (Z.of_nat (length (Node_ptr n))));
    [|discriminate Hr; lia]. injection Hr as ->; try lia.
  rewrite IH with (len := len - iov_len v) (start := start + iov_len v) by (lia || done).
  replace (Z.to_nat (start + iov_len v)) with (Z.to_nat start + Z.to_nat (iov_len v))%nat by lia.
  replace (iov_node v * Z.to_nat b + Z.to_nat (iov_off v))%nat with (Z.to_nat start) by nia.
  rewrite slice_add. f_equal. lia.
Qed.

Section WithPlatform.
Context `{Platform}.

Lemma iov_loop_spec fuel b ns bufs len npos i :
  0 < b -> Forall (node_ok b) ns -> b * Z.of_nat (length ns) < 2 ^ 64 -> 0 < len ->
  (i < length ns)%nat -> 0 <= npos < b ->
  Z.of_nat i * b + npos + len <= b * Z.of_nat (length ns) ->
  (S (length ns - i) < fuel)%nat ->
  exists l, iov_loop fuel ns (Some i) bufs len npos (b - npos) = Ok (bufs ++ l)
    /\ iov_covers b (Z.of_nat i * b + npos) len l.
Proof.
  revert bufs len npos i. induction fuel as [|fuel IH];
    intros bufs len npos i Hb Hns Hcap Hlen Hi Hnp Hfit Hf; [lia|].
  destruct (node_at_ok b ns i Hns Hi) as (n & Hni & Hna & (Hnsz & _)).
  cbn [iov_loop]. rewrite (proj2 (Z.gtb_lt len 0)) by lia. rewrite Hna, Z.geb_leb. cbn [idx].
  destruct (Z.leb_spec len (b - npos)).
  - destruct fuel as [|fuel]; [lia|]. cbn [iov_loop Z.gtb Z.compare].
    eexists. split; [reflexivity|]. cbn. split_and!; lia.
  - assert (S i < length ns)%nat as HSi by nia.
    destruct (node_at_ok b ns (S i) Hns HSi) as (n' & Hn'i & Hn'a & (Hn'sz & _)).
    unfold next_of. rewrite (proj2 (Nat.ltb_lt _ _) HSi), Hn'a, Hn'sz. unwrap64.
    destruct (IH (bufs ++ [{| iov_node := i; iov_off := npos; iov_len := b - npos |}])
      (len - (b - npos)) 0 (S i)) as (l & Hl & Hc); try (done || lia).
    rewrite Z.sub_0_r in Hl. rewrite Hl. rewrite <-app_assoc. eexists. split; [done|].
    cbn [app iov_covers iov_len iov_off iov_node]. split_and!; try lia.
    replace (Z.of_nat i * b + npos + (b - npos)) with (Z.of_nat (S i) * b + 0) by lia. done.
Qed.

Lemma advance_spec b ns k i :
  Forall (node_ok b) ns -> (i + k < length ns)%nat -> advance k ns (Some i) = Ok (Some (i + k)%nat).
Proof.
  intros Hns. revert i. induction k as [|k IH]; intros i Hk; cbn [advance].
  { by rewrite Nat.add_0_r. }
  destruct (node_at_ok b ns i Hns ltac:(lia)) as (n & _ & -> & _). cbn [idx].
  unfold next_of. rewrite (proj2 (Nat.ltb_lt _ _)) by lia. rewrite IH by lia. do 2 f_equal. lia.
Qed.

Lemma cur_of_if b count pos :
  0 < b -> 0 <= pos <= b * Z.of_nat count ->
  cur_of b count pos = if (Z.to_nat (pos / b) <? count)%nat then Some (Z.to_nat (pos / b)) else None.
Proof.
  intros Hb Hp. unfold cur_of. pose proof (Z.div_mod pos b ltac:(lia)).
  pose proof (Z.mod_pos_bound pos b Hb).
  destruct (Z.eqb_spec pos (b * Z.of_nat count)), (Nat.ltb_spec (Z.to_nat (pos / b)) count);
    try done; nia.
Qed.

(** Any range of the data, as [iovec]s. *)
Lemma range_buffers s pos len i :
  wf s -> 0 <= pos -> 0 < len -> pos + len <= m_size s ->
  pos = Z.of_nat i * m_baseSize s + pos mod m_baseSize s ->
  exists nd l, node_at (m_nodes s) (Some i) = Ok nd
    /\ iov_loop (S (S (length (m_nodes s)))) (m_nodes s) (Some i) [] len
         (pos mod m_baseSize s) (u64 (Node_size nd - pos mod m_baseSize s)) = Ok l
    /\ l <> [] /\ iov_covers (m_baseSize s) pos len l
    /\ iov_bytes (m_nodes s) l = slice (Z.to_nat pos) (Z.to_nat len) (f_data (abs s)).
Proof.
  intros Hwf Hp Hl Hfit Hi. pose proof (wf_base64 s Hwf).
  pose proof Hwf as [Hb Hns Hne Hcap Hc64 Hpos Hsz Hcur].
  pose proof (Z.mod_pos_bound pos (m_baseSize s) Hb).
  assert (i < length (m_nodes s))%nat as Hilt by nia.
  destruct (node_at_ok _ _ i Hns Hilt) as (nd & _ & Hna & (Hnsz & _)).
  destruct (iov_loop_spec (S (S (length (m_nodes s)))) (m_baseSize s) (m_nodes s) [] len
    (pos mod m_baseSize s) i) as (l & Hrun & Hc); try (done || lia).
  exists nd, l. rewrite Hnsz. unwrap64. rewrite <-Hi in Hc. split_and!; try done.
  - intros ->. cbn in Hc. lia.
  - rewrite (iov_covers_bytes (m_baseSize s) (m_nodes s) l pos len) by (done || lia).
    cbn [abs f_data]. rewrite slice_take_flat by lia. done.
Qed.

Lemma read_buffers_spec s len :
  wf s -> 0 <= len ->
  exists l n, getReadBuffers s len = Ok (l, n) /\ n = Z.min len (m_size s - m_position s)
    /\ iov_covers (m_baseSize s) (m_position s) n l
    /\ iov_bytes (m_nodes s) l = slice (Z.to_nat (m_position s)) (Z.to_nat n) (f_data (abs s)).
Proof.
  intros Hwf Hlen. pose proof Hwf as [Hb Hns Hne Hcap Hc64 Hpos Hsz Hcur].
  unfold getReadBuffers. rewrite getSizeForRead_eq, Z.gtb_ltb by done.
  replace (if m_size s - m_position s <? len then m_size s - m_position s else len)
    with (Z.min len (m_size s - m_position s)) by (bool_cases; lia).
  set (n := Z.min len _). destruct (Z.eqb_spec n 0) as [->|Hn0].
  { eexists [], 0. done. }
  destruct (cur_of_split (m_baseSize s) (length (m_nodes s)) (m_position s))
    as (i & Hi & Hci & Hpi & Hoff); [lia..|].
  destruct (range_buffers s (m_position s) n i) as (nd & l & Hna & Hl & _ & Hc & Hby);
    try (done || lia).
  rewrite Hcur, Hci, Hna, Hl. eexists l, n. done.
Qed.

Lemma read_buffers_at_spec s len position :
  wf s -> 0 <= len -> 0 <= position ->
  exists l n, getReadBuffersAt s len position = Ok (l, n)
    /\ n = Z.max 0 (Z.min len (m_size s - position))
    /\ iov_covers (m_baseSize s) position n l
    /\ iov_bytes (m_nodes s) l = slice (Z.to_nat position) (Z.to_nat n) (f_data (abs s)).
Proof.
  intros Hwf Hlen Hp. pose proof Hwf as [Hb Hns Hne Hcap Hc64 Hpos Hsz Hcur].
  unfold getReadBuffersAt. rewrite Z.geb_leb. destruct (Z.leb_spec (m_size s) position).
  { eexists [], 0. split_and!; try done. lia. }
  unwrap64. set (n := Z.min len _). replace (Z.max 0 n) with n by lia.
  pose proof (Z.div_mod position (m_baseSize s) ltac:(lia)).
  pose proof (Z.mod_pos_bound position (m_baseSize s) Hb).
  set (i := Z.to_nat (position / m_baseSize s)).
  assert (0 <= position / m_baseSize s) by (apply Z.div_pos; lia).
  rewrite (advance_spec (m_baseSize s)) by (done || nia). rewrite Nat.add_0_l.
  destruct (decide (n = 0)) as [E|E].
  - destruct (node_at_ok _ _ i Hns ltac:(nia)) as (nd & _ & Hna & _). rewrite Hna, E.
    cbn [iov_loop Z.gtb Z.compare]. eexists [], 0. done.
  - destruct (range_buffers s position n i) as (nd & l & Hna & Hl & Hnil & Hc & Hby);
      try (done || lia).
    rewrite Hna, Hl. destruct l as [|v l]; [done|]. eexists (v :: l), n. done.
Qed.

Lemma toString_spec s :
  wf s -> toString s = Ok (drop (f_pos (abs s)) (f_data (abs s))).
Proof.
  intros Hwf. pose proof (length_abs s Hwf) as Hl. pose proof (wf_pos s Hwf).
  unfold toString. rewrite getSizeForRead_eq by done.
  destruct (Z.eqb_spec (m_size s - m_position s) 0).
  - rewrite drop_ge; [done|]. rewrite Hl. cbn. lia.
  - rewrite peek_refines by (done || lia). unfold flat_read. rewrite Hl. cbn [f_pos abs].
    rewrite (proj2 (Nat.leb_le _ _)) by lia. cbn [fst]. f_equal. unfold slice.
    apply take_ge. rewrite length_drop, length_abs by done. lia.
Qed.

(** The file-writing loop, from a block boundary or with a block and more to go. *)
Lemma file_write_loop_spec fuel b ns i pos n out :
  0 < b -> Forall (node_ok b) ns -> 0 <= n ->
  pos = Z.of_nat i * b + pos mod b -> pos + n <= b * Z.of_nat (length ns) ->
  pos mod b = 0 \/ pos mod b < 2 ^ 31 /\ b <= n -> (length ns - i < fuel)%nat ->
  file_write_loop fuel b ns (if (i <? length ns)%nat then Some i else None) pos n out
  = Ok (out ++ slice (Z.to_nat pos) (Z.to_nat n) (chain ns)).
Proof.
  revert i pos n out. induction fuel as [|fuel IH];
    intros i pos n out Hb Hns Hn Hpos Hfit Hal Hf; [lia|].
  pose proof (Z.mod_pos_bound pos b Hb) as Hmod. cbn [file_write_loop].
  rewrite Z.gtb_ltb. destruct (Z.ltb_spec 0 n).
  2: { replace n with 0 by lia. unfold slice. cbn. by rewrite app_nil_r. }
  assert (i < length ns)%nat as Hi by nia. rewrite (proj2 (Nat.ltb_lt _ _) Hi).
  destruct (node_at_ok b ns i Hns Hi) as (nd & Hni & Hna & _). rewrite Hna.
  assert (s32 (pos mod b) = pos mod b) as -> by (destruct Hal as [->|[]]; [done|apply s32_small; lia]).
  set (diff := pos mod b) in *. set (len := (if n >? b then b else n) - diff).
  assert (0 < len /\ diff + len <= b /\ len <= n /\ (len = n \/ diff + len = b)) as (Hl1 & Hl2 & Hl3 & Hl4).
  { unfold len. rewrite Z.gtb_ltb. destruct (Z.ltb_spec b n); lia. }
  rewrite (proj2 (Z.ltb_ge diff 0)), (proj2 (Z.ltb_ge len 0)) by lia. cbn [orb].
  rewrite (chain_slice b ns i) by (done || lia). cbn [idx].
  replace (i * Z.to_nat b + Z.to_nat diff)%nat with (Z.to_nat pos) by nia.
  destruct (decide (len = n)) as [E|E].
  - rewrite E, Z.sub_diag. destruct fuel as [|fuel]; [lia|]. cbn [file_write_loop]. done.
  - assert (diff + len = b) as Hd by lia.
    assert ((pos + len) mod b = 0) as Hm.
    { replace (pos + len) with ((Z.of_nat i + 1) * b) by lia. apply Z.mod_mul. lia. }
    unfold next_of. rewrite IH; try lia; try done.
    rewrite <-app_assoc.
    replace (Z.to_nat (pos + len)) with (Z.to_nat pos + Z.to_nat len)%nat by lia.
    rewrite slice_add. do 3 f_equal. lia.
Qed.

(** The file-reading loop writes the whole rest of the file. *)
Lemma file_read_loop_spec fuel rest s :
  wf s -> Forall is_byte rest -> room (Z.of_nat (length rest)) s -> (length rest < fuel)%nat ->
  exists s', file_read_loop fuel (Z.to_nat (m_baseSize s)) rest s = (Ok tt, s')
    /\ wf s' /\ abs s' = flat_write rest (abs s).
Proof.
  revert rest s. induction fuel as [|fuel IH]; intros rest s Hwf Hr Hroom Hf; [lia|].
  pose proof (wf_base s Hwf) as Hb. cbn [file_read_loop].
  set (b := Z.to_nat (m_baseSize s)).
  destruct (write_refines (take b rest) s Hwf) as (s1 & Hw & Hwf1 & Ha1 & _ & Hb1 & Hp1 & _).
  { by apply Forall_take. }
  { unfold room in *. rewrite length_take. lia. }
  mstep. rewrite Hw. destruct (Nat.ltb_spec (length rest) b).
  - exists s1. rewrite take_ge in Ha1 by lia. done.
  - destruct (IH (drop b rest) s1) as (s2 & Hw2 & Hwf2 & Ha2); try done.
    + by apply Forall_drop.
    + unfold room in *. rewrite length_drop. rewrite length_take in Hp1. lia.
    + rewrite length_drop. lia.
    + rewrite Hb1 in Hw2. exists s2. split; [done|]. split; [done|]. rewrite Ha2, Ha1.
      rewrite (flat_write_app (take b rest) (drop b rest)); [by rewrite take_drop|].
      by apply abs_pos.
Qed.

(** With a partial block to go from inside a block, the first chunk is cut
    short by the offset; no round of the loop after it makes progress. *)
Lemma file_write_stuck fuel b ns cur pos n out :
  0 < b -> n < 2 ^ 31 -> pos mod b = n -> 0 < n < b ->
  exists f, file_write_loop fuel b ns cur pos n out = Err f.
Proof.
  intros Hb Hn31 Hpos Hn. revert cur out. induction fuel as [|fuel IH]; intros cur out.
  { by exists OutOfFuel. }
  cbn [file_write_loop]. rewrite (proj2 (Z.gtb_lt n 0)) by lia.
  destruct (node_at ns cur) as [nd|e]; [|by exists e].
  rewrite Z.gtb_ltb, (proj2 (Z.ltb_ge b n)) by lia. rewrite Hpos, s32_small, Z.sub_diag by lia.
  rewrite (proj2 (Z.ltb_ge n 0)) by lia.
  cbn [Z.ltb Z.compare orb]. destruct (node_read nd n 0) as [xs|e]; [|by exists e].
  rewrite Z.add_0_r, Z.sub_0_r. apply IH.
Qed.

Lemma file_write_misaligned fuel b ns cur pos n out :
  0 < b <= 2 ^ 31 -> 0 < pos mod b -> 0 < n < b ->
  exists f, file_write_loop fuel b ns cur pos n out = Err f.
Proof.
  intros Hb Hpos Hn. destruct fuel as [|fuel]; [by exists OutOfFuel|].
  pose proof (Z.mod_pos_bound pos b ltac:(lia)).
  cbn [file_write_loop]. rewrite (proj2 (Z.gtb_lt n 0)) by lia.
  destruct (node_at ns cur) as [nd|e]; [|by exists e].
  rewrite Z.gtb_ltb, (proj2 (Z.ltb_ge b n)) by lia.
  rewrite s32_small, (proj2 (Z.ltb_ge (pos mod b) 0)) by lia. cbn [orb].
  destruct (Z.ltb_spec (n - pos mod b) 0); [by eexists|].
  destruct (node_read nd (pos mod b) (n - pos mod b)) as [xs|e]; [|by exists e].
  replace (n - (n - pos mod b)) with (pos mod b) by lia.
  assert ((pos + (n - pos mod b)) mod b = n) as Hm.
  { replace (pos + (n - pos mod b)) with (n + pos / b * b)
      by (pose proof (Z.div_mod pos b ltac:(lia)); lia).
    rewrite Z.mod_add by lia. apply Z.mod_small. lia. }
  destruct (decide (n = pos mod b)) as [E|E].
  { apply file_write_stuck; [lia|lia| |lia]. rewrite Hm. done. }
  destruct fuel as [|fuel]; [by exists OutOfFuel|].
  cbn [file_write_loop]. rewrite (proj2 (Z.gtb_lt (pos mod b) 0)) by lia.
  destruct (node_at ns _) as [nd'|e]; [|by exists e].
  rewrite Hm, Z.gtb_ltb, (proj2 (Z.ltb_ge b (pos mod b))), s32_small, (proj2 (Z.ltb_ge n 0)) by lia. cbn [orb].
  rewrite (proj2 (Z.ltb_lt (pos mod b - n) 0)) by lia. by eexists.
Qed.
End WithPlatform.

Lemma from_hex_digit d : 0 <= d < 16 -> from_hex (hex_digit d) = d /\ hex_digit d <> 10.
Proof. intros Hd. unfold from_hex, hex_digit. bool_cases; lia. Qed.

Lemma unhex_hex i str : Forall is_byte str -> unhex (hex_loop i str) = Some str.
Proof.
  intros Hs. revert i. induction Hs as [|c str Hc _ IH]; intros i; [done|].
  unfold is_byte in Hc. cbn [hex_loop].
  assert (u8 c = c) as -> by (apply Z.mod_small; lia).
  assert (0 <= c / 16 < 16) as Hq
    by (split; [apply Z.div_pos|apply Z.div_lt_upper_bound]; lia).
  pose proof (Z.div_mod c 16 ltac:(lia)) as Hc16.
  pose proof (Z.mod_pos_bound c 16 ltac:(lia)) as Hr.
  destruct (from_hex_digit _ Hq) as [Eq Nq], (from_hex_digit _ Hr) as [Er _].
  assert (unhex ([hex_digit (c / 16); hex_digit (c mod 16); 32] ++ hex_loop (i + 1) str)
          = Some (c :: str)) as Hu.
  { cbn [app unhex]. rewrite (proj2 (Z.eqb_neq _ _) Nq). cbn [Z.eqb Pos.eqb].
    rewrite IH, Eq, Er. do 2 f_equal. lia. }
  destruct ((i >? 0) && (i mod 32 =? 0)); [|done]. done.
Qed.

(** ** Properties *)

(** Gathering. [getReadBuffers] and, within the data, [getReadBuffersAt]
    return as many bytes as asked for or as there are, as non-empty ranges that
    follow one another through the blocks, and what the kernel gathers from
    them is that range of the contents. *)
Theorem getReadBuffers_gather `{Platform} s len position :
  wf s -> 0 <= len -> 0 <= position ->
  (exists l n, getReadBuffers s len = Ok (l, n) /\ n = Z.min len (m_size s - m_position s)
    /\ iov_covers (m_baseSize s) (m_position s) n l
    /\ iov_bytes (m_nodes s) l = slice (Z.to_nat (m_position s)) (Z.to_nat n) (f_data (abs s)))
  /\ (exists l n, getReadBuffersAt s len position = Ok (l, n)
    /\ n = Z.max 0 (Z.min len (m_size s - position))
    /\ iov_covers (m_baseSize s) position n l
    /\ iov_bytes (m_nodes s) l = slice (Z.to_nat position) (Z.to_nat n) (f_data (abs s))).
Proof.
  intros Hwf Hlen Hposn. split.
  - apply (read_buffers_spec s len Hwf Hlen).
  - apply (read_buffers_at_spec s len position Hwf Hlen Hposn).
Qed.

Definition demo_buffer : ByteArray :=
  snd (@ops_run x86 [OpWrite [1; 2; 3; 4; 5]; OpSeek 1] (@ByteArray_new x86 2)).

Lemma demo_buffer_wf : wf demo_buffer.
Proof.
  destruct (@ops_refine x86 [OpWrite [1; 2; 3; 4; 5]; OpSeek 1] (@ByteArray_new x86 2) [Ok []; Ok []]
    (Flat [1; 2; 3; 4; 5] 1)) as (s & Hrun & Hwf & _); [apply wf_new; lia|cbn; lia|done|].
  unfold demo_buffer. by rewrite Hrun.
Qed.

Lemma getReadBuffers_gather_witness :
  exists l n, getReadBuffers demo_buffer 3 = Ok (l, n) /\ n = Z.min 3 4
    /\ iov_covers 2 1 n l
    /\ iov_bytes (m_nodes demo_buffer) l = slice 1 (Z.to_nat n) [1; 2; 3; 4; 5].
Proof. apply (@getReadBuffers_gather x86 demo_buffer 3 2); [exact demo_buffer_wf|lia|lia]. Defined.

(** [getWriteBuffers] makes room and returns the ranges from the position on. *)
Lemma write_buffers_spec `{Platform} s len :
  wf s -> 0 <= len -> room len s ->
  exists l s', getWriteBuffers len s = (Ok (l, len), s') /\ wf s' /\ abs s' = abs s
    /\ m_position s + len <= m_capacity s'
    /\ iov_covers (m_baseSize s) (m_position s) len l
    /\ m_position s' = m_position s /\ m_size s' = m_size s /\ m_baseSize s' = m_baseSize s
    /\ m_endian s' = m_endian s.
Proof.
  intros Hwf Hlen Hr. unfold getWriteBuffers. destruct (Z.eqb_spec len 0) as [->|Hn0].
  { exists [], s. pose proof (wf_pos s Hwf). pose proof (wf_size s Hwf).
    cbn [iov_covers]. split_and!; done || lia. }
  destruct (addCapacity_spec len s Hwf ltac:(lia) Hr)
    as (s1 & ext & Hadd & Hwf1 & Hch & Hp1 & Hs1 & He1 & Hb1 & Hfit & _).
  pose proof (wf_base64 s1 Hwf1). pose proof Hwf1 as [Hb Hns Hne Hcap Hc64 Hpos Hsz Hcur].
  destruct (cur_of_split (m_baseSize s1) (length (m_nodes s1)) (m_position s1))
    as (i & Hi & Hci & Hpi & Hoff); [lia..|].
  destruct (node_at_ok _ _ i Hns Hi) as (nd & _ & Hna & (Hnsz & _)).
  mstep. rewrite Hadd, Hcur, Hci, Hna, Hnsz. unwrap64.
  destruct (iov_loop_spec (S (S (length (m_nodes s1)))) (m_baseSize s1) (m_nodes s1) [] len
    (m_position s1 mod m_baseSize s1) i) as (l & Hl & Hc); try (done || lia).
  rewrite Hl. rewrite <-Hpi, Hb1, Hp1 in Hc. destruct l as [|v l]; [cbn in Hc; lia|].
  eexists _, s1. split; [done|]. split; [done|]. split; [|by split_and!].
  unfold abs. rewrite Hp1, Hs1, Hch. f_equal. apply take_app_le.
  rewrite (length_chain _ _ (wf_nodes s Hwf)).
  pose proof (wf_size s Hwf). pose proof (wf_cap s Hwf). pose proof (wf_base s Hwf). nia.
Qed.

(** Scattering. [getWriteBuffers] makes room, returns ranges that cover
    the [len] bytes from the position on, and changes neither the contents nor
    the position. *)
Theorem getWriteBuffers_scatter `{Platform} s len :
  wf s -> 0 <= len -> room len s ->
  exists l s', getWriteBuffers len s = (Ok (l, len), s') /\ wf s' /\ abs s' = abs s
    /\ m_position s + len <= m_capacity s'
    /\ iov_covers (m_baseSize s) (m_position s) len l.
Proof.
  intros Hwf Hlen Hr. destruct (write_buffers_spec s len Hwf Hlen Hr) as (l & s' & ? & ? & ? & ? & ? & _).
  exists l, s'. by split_and!.
Qed.

Lemma getWriteBuffers_scatter_witness :
  exists l s', @getWriteBuffers x86 9 demo_buffer = (Ok (l, 9), s') /\ wf s'
    /\ abs s' = abs demo_buffer /\ 1 + 9 <= m_capacity s' /\ iov_covers 2 1 9 l.
Proof.
  apply (@getWriteBuffers_scatter x86 demo_buffer 9); [exact demo_buffer_wf|lia|].
  vm_compute. reflexivity.
Defined.

(** Files round-trip. When the position is on a block boundary, or less than 2^31
    bytes into a block with as much as a block left to write, [writeToFile] writes exactly the unread bytes,
    and reading that file into a new buffer, of any block size and on any
    machine, gives these bytes. *)
Theorem file_roundtrip `{P1 : Platform} (P2 : Platform) s b :
  wf s -> 0 < b < 2 ^ 62 -> m_size s < 2 ^ 62 ->
  m_position s mod m_baseSize s = 0
  \/ m_position s mod m_baseSize s < 2 ^ 31 /\ m_baseSize s <= m_size s - m_position s ->
  exists content s', writeToFile true s = Ok (true, content)
    /\ content = drop (f_pos (abs s)) (f_data (abs s))
    /\ @readFromFile P2 (Some content) (@ByteArray_new P2 b) = (Ok true, s') /\ wf s'
    /\ abs s' = Flat content (length content).
Proof.
  intros Hwf Hb Hs62 Hal. pose proof Hwf as [Hb0 Hns Hne Hcap Hc64 Hpos Hsz Hcur].
  set (content := drop (f_pos (abs s)) (f_data (abs s))).
  assert (writeToFile true s = Ok (true, content)) as Hw.
  { unfold writeToFile. cbn [negb]. rewrite getSizeForRead_eq, Hcur by done.
    rewrite cur_of_if by lia.
    rewrite file_write_loop_spec; try lia; try done.
    - unfold content. cbn [app abs f_pos f_data]. do 2 f_equal.
      rewrite skipn_firstn_comm. unfold slice. f_equal. lia.
    - pose proof (Z.div_mod (m_position s) (m_baseSize s) ltac:(lia)).
      pose proof (Z.div_pos (m_position s) (m_baseSize s) ltac:(lia) ltac:(lia)). lia. }
  destruct (@file_read_loop_spec P2 (S (length content)) content (@ByteArray_new P2 b))
    as (s' & Hr & Hwf' & Ha').
  - apply wf_new. lia.
  - apply Forall_drop, Forall_take. by eapply chain_bytes.
  - unfold room. cbn [m_position m_baseSize ByteArray_new]. unfold content.
    rewrite length_drop, length_abs by done. lia.
  - lia.
  - exists content, s'. split_and!; try done.
    + unfold readFromFile. mstep. by rewrite Hr.
    + rewrite Ha'. change (abs (@ByteArray_new P2 b)) with (Flat [] 0).
      unfold flat_write, splice. cbn [f_pos f_data take app Nat.add].
      rewrite drop_nil. by rewrite app_nil_r.
Qed.

Lemma file_roundtrip_witness :
  exists content s', writeToFile true demo_buffer = Ok (true, content)
    /\ content = [2; 3; 4; 5]
    /\ @readFromFile sparc (Some content) (@ByteArray_new sparc 3) = (Ok true, s') /\ wf s'
    /\ abs s' = Flat content (length content).
Proof.
  apply (@file_roundtrip x86 sparc demo_buffer 3); [exact demo_buffer_wf|lia|by vm_compute|].
  right. split; by vm_compute.
Defined.

(** Inside a block, of at most 2^31 bytes, with less than a block left
    [writeToFile] never completes: the length it computes subtracts the block
    offset from the number of bytes left, so that it writes too little, then a
    negative amount or runs off the end of the chain. *)
Theorem writeToFile_misaligned `{Platform} s :
  wf s -> m_baseSize s <= 2 ^ 31 -> 0 < m_position s mod m_baseSize s ->
  0 < m_size s - m_position s < m_baseSize s ->
  exists f, writeToFile true s = Err f.
Proof.
  intros Hwf Hb31 Hp Hn. unfold writeToFile. cbn [negb]. rewrite getSizeForRead_eq by done.
  destruct (file_write_misaligned (S (S (length (m_nodes s)))) (m_baseSize s) (m_nodes s) (m_cur s)
    (m_position s) (m_size s - m_position s) []) as [f ->]; try done; [pose proof (wf_base s Hwf); lia|by exists f].
Qed.

Lemma writeToFile_misaligned_witness :
  exists f, writeToFile true
    (snd (@ops_run x86 [OpWrite [1; 2; 3; 4; 5; 6]; OpSeek 2] (@ByteArray_new x86 8))) = Err f.
Proof.
  apply (@writeToFile_misaligned x86); [|by vm_compute..].
  destruct (@ops_refine x86 [OpWrite [1; 2; 3; 4; 5; 6]; OpSeek 2] (@ByteArray_new x86 8)
    [Ok []; Ok []] (Flat [1; 2; 3; 4; 5; 6] 2)) as (s & Hrun & Hwf & _);
    [apply wf_new; lia|cbn; lia|done|]. by rewrite Hrun.
Defined.

(** The hex dump shows the unread bytes: it succeeds, and decoding it
    gives them back. *)
Theorem toHexString_faithful `{Platform} s :
  wf s -> exists h, toHexString s = Ok h
    /\ unhex h = Some (drop (f_pos (abs s)) (f_data (abs s))).
Proof.
  intros Hwf. unfold toHexString. rewrite toString_spec by done. eexists. split; [done|].
  apply unhex_hex, Forall_drop, Forall_take. eapply chain_bytes, Hwf.
Qed.

Lemma toHexString_faithful_witness :
  exists h, toHexString demo_buffer = Ok h /\ unhex h = Some [2; 3; 4; 5].
Proof. apply (@toHexString_faithful x86 demo_buffer), demo_buffer_wf. Defined.
