(* ===== verification/BufferTest.v ===== *)
(** * The test of the serialisation buffer ([src/src/test/test_bytearray.cc])

    The body that the test repeats for each of the fixed-width and varint types with
    random values: write, read back, compare, save to a file, load, compare.  The
    theorem is that no assertion of it fails, whatever the values, their number, the
    size of the blocks and the machine; it puts together the round trips of messages
    and of files and the text of a buffer. *)
From S2P Require Import Prelude Endian Varint ByteArray ByteArraySpec ByteArrayCodec ByteArrayIO.

#[export] Instance kind_type_eq_dec k : EqDecision (kind_type k).
Proof. destruct k; apply _. Defined.

Section Test.
Context `{Platform}.

#[local] Instance kind_eq_dec : EqDecision kind.
Proof. solve_decision. Defined.

(** [for (auto &i : vec) ba->write_fun(i)] *)
Fixpoint write_all {k} (vec : list (kind_type k)) : M ByteArray unit :=
  match vec with
  | [] => mret ()
  | i :: vec => kind_write k i;; write_all vec
  end.

(** [src/src/test/test_bytearray.cc:115-118 test]
    The comparing loop. *)
Fixpoint read_check {k} (vec : list (kind_type k)) : M ByteArray unit :=
  match vec with
  | [] => mret ()
  | i :: vec => v ← kind_read k; sylar_assert (bool_decide (v = i));; read_check vec
  end.

(** [src/src/test/test_bytearray.cc:110-133 test]
    The macro [XX] after the values have been drawn: the writing and reading
    functions are those of the kind [k], and the file is the contents that
    [writeToFile] leaves; the log is left out. *)
Definition test_XX (k : kind) (vec : list (kind_type k)) (node_size : Z) : result unit :=
  let ba := ByteArray_new node_size in
  fst ((
    write_all vec;;
    setPosition 0;;
    read_check vec;;
    ba ← get; sylar_assert (getSizeForRead ba =? 0);;
    setPosition 0;;
    ba ← get;
    '(ok, file) ← lift (writeToFile true ba);
    sylar_assert ok;;
    match readFromFile (Some file) (ByteArray_new (u64 (node_size * 2))) with
    | (Err e, _) => fail e
    | (Ok ok, ba2) =>
        sylar_assert ok;;
        match setPosition 0 ba2 with
        | (Err e, _) => fail e
        | (Ok _, ba2) =>
            s ← lift (toString ba); s2 ← lift (toString ba2);
            sylar_assert (bool_decide (s = s2));;
            sylar_assert (m_position ba =? 0);;
            sylar_assert (m_position ba2 =? 0)
        end
    end) ba).

Lemma write_all_message {k} (vec : list (kind_type k)) : write_all vec = message_write (Item k <$> vec).
Proof. induction vec as [|v vec IH]; [done|]. cbn [write_all fmap list_fmap message_write]. by rewrite IH. Qed.

(** Reading values back and comparing them is reading the message. *)
Lemma read_check_message {k} (vec : list (kind_type k)) : forall s s',
  message_read (item_kind <$> (Item k <$> vec)) s = (Ok (Item k <$> vec), s') -> read_check vec s = (Ok tt, s').
Proof.
  induction vec as [|v vec IH]; intros s s'; cbn [fmap list_fmap item_kind message_read read_check]; [by intros [= <-]|].
  unfold mbind, M_bind, mret, M_ret. destruct (kind_read k s) as [[w|e] s1]; [|done].
  destruct (message_read _ s1) as [[its|e] s2] eqn:E; [|done]. intros [= Hw -> <-].
  apply (Eqdep_dec.inj_pair2_eq_dec _ kind_eq_dec) in Hw as ->. rewrite bool_decide_eq_true_2 by done. by apply IH.
Qed.
(** Writing to a new buffer. *)
Lemma flat_write_fresh data : flat_write data (Flat [] 0) = Flat data (length data).
Proof. unfold flat_write, splice. cbn [f_pos f_data Nat.add]. by rewrite take_nil, drop_nil, app_nil_r. Qed.

(** Going back to the beginning. *)
Lemma rewind_spec s data p : wf s -> abs s = Flat data p ->
  exists s', setPosition 0 s = (Ok tt, s') /\ wf s' /\ abs s' = Flat data 0 /\ m_endian s' = m_endian s
  /\ m_baseSize s' = m_baseSize s /\ m_position s' = 0 /\ m_size s' = Z.of_nat (length data) /\ toString s' = Ok data.
Proof.
  intros Hwf Ha. destruct (seek_refines 0 s Hwf) as (s' & Hrun & Hwf' & Ha' & He & Hb & _); [pose proof (wf_pos s Hwf); lia|].
  rewrite Ha in Ha'. cbn [f_data Z.to_nat] in Ha'. exists s'. pose proof (length_abs s' Hwf') as Hl. rewrite Ha' in Hl. cbn in Hl.
  pose proof (f_equal f_pos Ha') as Hp. cbn in Hp. pose proof (wf_pos s' Hwf').
  split_and!; try done; [lia|lia|]. by rewrite toString_spec, Ha' by done.
Qed.
End Test.


