(* ===== verification/Timer.v ===== *)
(** * Timers ([src/src/timer.cc], [include/sylar/timer.hh])

    A [TimerManager] keeps a [std::set] of shared [Timer] objects ordered by
    their next trigger time and, for equal times, by their address.  The key of
    an element is a field of the shared object, so the objects live in a store
    ([heap], address to object) and the set is the list of addresses in the
    order of its tree.  Every operation is atomic: it runs under the manager's
    write lock.  ([getNextTimer] holds the read lock and writes [m_tickled]; its
    caller is the only reader.)  The clock is an argument of each operation and
    need not be monotone; the address of a new object is an argument, constrained
    only to be unused.  The callbacks are of an arbitrary type [C]. *)
From S2P Require Import Prelude.

Section Timers.
Context {C : Type}.

(** [src/include/sylar/timer.hh:43-47 Timer]
    [m_manager] is the one manager of the model. *)
Record Timer := mkTimer {
  m_recurring : bool;
  m_ms : Z;
  m_next : Z;
  m_cb : option C
}.

(** [src/include/sylar/timer.hh:112-118 TimerManager] *)
Record TimerManager := mkTimerManager {
  heap : gmap nat Timer;
  m_timers : list nat;
  m_tickled : bool;
  m_previousTime : Z
}.

Definition set_heap h (s : TimerManager) :=
  mkTimerManager h (m_timers s) (m_tickled s) (m_previousTime s).
Definition set_timers l (s : TimerManager) :=
  mkTimerManager (heap s) l (m_tickled s) (m_previousTime s).
Definition set_tickled b (s : TimerManager) :=
  mkTimerManager (heap s) (m_timers s) b (m_previousTime s).
Definition set_previousTime z (s : TimerManager) :=
  mkTimerManager (heap s) (m_timers s) (m_tickled s) z.

(** The trigger time of the object at an address. *)
Definition next_at (h : gmap nat Timer) (a : nat) : Z := default 0 (m_next <$> h !! a).

(** [src/src/timer.cc:6-29 Timer::Comparator::operator()] *)
Definition Comparator (h : gmap nat Timer) (lhs rhs : option nat) : bool :=
  match lhs, rhs with
  | None, None => false
  | None, Some _ => true
  | Some _, None => false
  | Some a, Some b =>
      if next_at h a <? next_at h b then true
      else if next_at h a >? next_at h b then false
      else (a <? b)%nat
  end.

Definition less (h : gmap nat Timer) (a b : nat) : bool := Comparator h (Some a) (Some b).

(** [std::set]: [lower_bound] splits the elements at the first one that is
    not less than the key; [find] is [lower_bound] and a test for equivalence;
    [insert] puts the key there unless an equivalent element is present. *)
Fixpoint lower_bound (h : gmap nat Timer) (k : nat) (l : list nat) : list nat * list nat :=
  match l with
  | [] => ([], [])
  | a :: l' =>
      if less h a k then let '(l1, l2) := lower_bound h k l' in (a :: l1, l2) else ([], l)
  end.

Definition set_find (h : gmap nat Timer) (k : nat) (l : list nat) : option nat :=
  match lower_bound h k l with
  | (_, a :: _) => if less h k a then None else Some a
  | (_, []) => None
  end.

Definition set_insert (h : gmap nat Timer) (k : nat) (l : list nat) : list nat :=
  match lower_bound h k l with
  | (l1, a :: l2) => if less h k a then l1 ++ k :: a :: l2 else l
  | (l1, []) => l1 ++ [k]
  end.

(** [erase(it)] of the element an iterator points to. *)
Definition set_erase (a : nat) (l : list nat) : list nat := filter (fun b => b <> a) l.

(** The object behind a [Timer::ptr]. *)
Definition timer_at (a : nat) : M TimerManager Timer := fun s =>
  match heap s !! a with Some t => (Ok t, s) | None => (Err (Undef use_after_free), s) end.

Definition timer_put (a : nat) (t : Timer) : M TimerManager unit :=
  modify (fun s => set_heap (<[a := t]> (heap s)) s).

(** [src/src/timer.cc:31-36 Timer::Timer] *)
Definition Timer_new (now ms : Z) (cb : option C) (recurring : bool) : Timer :=
  mkTimer recurring ms (u64 (now + ms)) cb.

(** [src/src/timer.cc:38-38 Timer::Timer]
    The key [listExpiredCb] searches with. *)
Definition Timer_key (next : Z) : Timer := mkTimer false 0 next None.

(** [src/src/timer.cc:105-119 TimerManager::addTimer]
    The result says whether [onTimerInsertedAtFront] was called. *)
Definition addTimer_locked (val : nat) : M TimerManager bool :=
  modify (fun s => set_timers (set_insert (heap s) val (m_timers s)) s);;
  s ← get;
  let at_front := bool_decide (head (m_timers s) = Some val) && negb (m_tickled s) in
  (if at_front then modify (set_tickled true) else mret ());;
  mret at_front.

(** [src/src/timer.cc:40-52 Timer::cancel] *)
Definition cancel (this : nat) : M TimerManager bool :=
  t ← timer_at this;
  match m_cb t with
  | Some _ =>
      timer_put this (mkTimer (m_recurring t) (m_ms t) (m_next t) None);;
      s ← get;
      match set_find (heap s) this (m_timers s) with
      | Some it => modify (set_timers (set_erase it (m_timers s)));; mret true
      | None => fail (Undef bad_iterator)
      end
  | None => mret false
  end.

(** [src/src/timer.cc:54-71 Timer::refresh] *)
Definition refresh (now : Z) (this : nat) : M TimerManager bool :=
  t ← timer_at this;
  match m_cb t with
  | None => mret false
  | Some _ =>
      s ← get;
      match set_find (heap s) this (m_timers s) with
      | None => mret false
      | Some it =>
          modify (set_timers (set_erase it (m_timers s)));;
          timer_put this (mkTimer (m_recurring t) (m_ms t) (u64 (now + m_ms t)) (m_cb t));;
          modify (fun s => set_timers (set_insert (heap s) this (m_timers s)) s);;
          mret true
      end
  end.

(** [src/src/timer.cc:73-103 Timer::reset]
    The result and whether [onTimerInsertedAtFront] was called. *)
Definition reset (now : Z) (this : nat) (ms : Z) (from_now : bool) : M TimerManager (bool * bool) :=
  t ← timer_at this;
  if (ms =? m_ms t) && negb from_now then mret (true, false) else
  match m_cb t with
  | None => mret (false, false)
  | Some _ =>
      s ← get;
      match set_find (heap s) this (m_timers s) with
      | None => mret (false, false)
      | Some it =>
          modify (set_timers (set_erase it (m_timers s)));;
          let start := if from_now then now else u64 (m_next t - m_ms t) in
          timer_put this (mkTimer (m_recurring t) ms (u64 (start + ms)) (m_cb t));;
          at_front ← addTimer_locked this;
          mret (true, at_front)
      end
  end.

(** [src/src/timer.cc:121-131 TimerManager::detectClockRollover] *)
Definition detectClockRollover (now_ms : Z) : M TimerManager bool :=
  s ← get;
  let rollover := (now_ms <? m_previousTime s)
                  && (now_ms <? u64 (m_previousTime s - 60 * 60 * 1000)) in
  modify (set_previousTime now_ms);;
  mret rollover.

(** [src/src/timer.cc:133-133 TimerManager::TimerManager] *)
Definition TimerManager_new (now : Z) : TimerManager := mkTimerManager ∅ [] false now.

(** [src/src/timer.cc:137-145 TimerManager::addTimer]
    [addr] is where [new Timer] puts the object. *)
Definition addTimer (addr : nat) (now ms : Z) (cb : option C) (recurring : bool)
    : M TimerManager (nat * bool) :=
  timer_put addr (Timer_new now ms cb recurring);;
  at_front ← addTimer_locked addr;
  mret (addr, at_front).

(** [src/src/timer.cc:168-186 TimerManager::getNextTimer] *)
Definition getNextTimer (now_ms : Z) : M TimerManager Z :=
  modify (set_tickled false);;
  s ← get;
  match m_timers s with
  | [] => mret (2 ^ 64 - 1)
  | a :: _ =>
      next ← timer_at a;
      if now_ms >=? m_next next then mret 0 else mret (u64 (m_next next - now_ms))
  end.

(** [src/src/timer.cc:219-221 TimerManager::listExpiredCb]
    The [while] over the timers due exactly now: moves elements over to
    the expired ones. *)
Fixpoint skip_equal (h : gmap nat Timer) (now_ms : Z) (l1 l2 : list nat) : list nat * list nat :=
  match l2 with
  | a :: l2' => if next_at h a =? now_ms then skip_equal h now_ms (l1 ++ [a]) l2' else (l1, l2)
  | [] => (l1, l2)
  end.

(** [src/src/timer.cc:228-238 TimerManager::listExpiredCb]
    The loop over the expired timers. *)
Fixpoint fire_loop (now_ms : Z) (expired : list nat) (cbs : list (option C))
    : M TimerManager (list (option C)) :=
  match expired with
  | [] => mret cbs
  | a :: expired =>
      t ← timer_at a;
      (if m_recurring t then
         timer_put a (mkTimer (m_recurring t) (m_ms t) (u64 (now_ms + m_ms t)) (m_cb t));;
         modify (fun s => set_timers (set_insert (heap s) a (m_timers s)) s)
       else timer_put a (mkTimer (m_recurring t) (m_ms t) (m_next t) None));;
      fire_loop now_ms expired (cbs ++ [m_cb t])
  end.

(** The range [begin, it) of the set that [listExpiredCb] takes out, and the rest;
    [key] is the address of [now_timer]. *)
Definition expired_split (h : gmap nat Timer) (key : nat) (now_ms : Z) (rollover : bool) (l : list nat)
    : list nat * list nat :=
  if rollover then (l, [])
  else let '(l1, l2) := lower_bound (<[key := Timer_key now_ms]> h) key l in
       skip_equal h now_ms l1 l2.

(** [src/src/timer.cc:188-239 TimerManager::listExpiredCb]
    The part under the write lock; the check for an empty set under the read
    lock before it is the same test. *)
Definition listExpiredCb (key : nat) (now_ms : Z) : M TimerManager (list (option C)) :=
  s ← get;
  match m_timers s with
  | [] => mret []
  | first :: _ =>
      rollover ← detectClockRollover now_ms;
      t ← timer_at first;
      if negb rollover && (m_next t >? now_ms) then mret [] else
      let '(expired, rest) := expired_split (heap s) key now_ms rollover (m_timers s) in
      modify (set_timers rest);;
      fire_loop now_ms expired []
  end.
End Timers.

Arguments Timer C : clear implicits.
Arguments TimerManager C : clear implicits.

(** ** Condition timers *)

(** The callables of [addTimer] and [addConditionTimer]: a user's function, or
    the closure over [OnTimer] with a weak reference and a user's function. *)
Inductive callable (W U : Type) :=
| Direct (u : U)
| Guarded_cb (weak_cond : W) (cb : option U).
Arguments Direct {W U} u.
Arguments Guarded_cb {W U} weak_cond cb.

(** [src/src/timer.cc:147-155 OnTimer]
    [alive w] is whether [weak_cond.lock()] yields an object; the result is the
    user's functions called.  Calling an empty [std::function] throws. *)
Definition OnTimer {W U} (alive : W -> bool) (weak_cond : W) (cb : option U) : result (list U) :=
  if alive weak_cond then
    match cb with Some u => Ok [u] | None => Err (Throw bad_function_call) end
  else Ok [].

(** Calling a callable. *)
Definition invoke {W U} (alive : W -> bool) (c : callable W U) : result (list U) :=
  match c with Direct u => Ok [u] | Guarded_cb w cb => OnTimer alive w cb end.

(** [src/src/timer.cc:157-166 TimerManager::addConditionTimer] *)
Definition addConditionTimer {W U} (addr : nat) (now ms : Z) (cb : option U) (weak_cond : W)
    (recurring : bool) : M (TimerManager (callable W U)) (nat * bool) :=
  addTimer addr now ms (Some (Guarded_cb weak_cond cb)) recurring.
