(* ===== verification/TimerSpec.v ===== *)
(** * Correctness of the timers

    The invariant of [TimerManager], what each operation does to it and to the
    set, and the safety of every interleaving of the operations. *)
From stdpp Require Import sorting.
From S2P Require Import Prelude Timer.

Section TimerSpec.
Context {C : Type}.
Implicit Types (h : gmap nat (Timer C)) (s : TimerManager C) (l : list nat) (a k : nat).

(** The set is in the order of its comparator. *)
Definition sorted h l : Prop := StronglySorted (fun a b => less h a b = true) l.

Record inv s : Prop := {
  inv_sorted : sorted (heap s) (m_timers s);
  inv_live : Forall (fun a => is_Some (heap s !! a)) (m_timers s);
  inv_cb a t : heap s !! a = Some t -> m_cb t <> None -> a ∈ m_timers s;
  inv_range a t : heap s !! a = Some t -> 0 <= m_next t < 2 ^ 64
}.

(** Operations with what their callers guarantee: a pointer they hold is to a
    live object, the allocator returns unused addresses, [uint64_t] arguments. *)
Inductive top :=
| TAdd (a : nat) (now ms : Z) (cb : option C) (recurring : bool)
| TCancel (a : nat)
| TRefresh (now : Z) (a : nat)
| TReset (now : Z) (a : nat) (ms : Z) (from_now : bool)
| TNext (now : Z)
| TExpire (key : nat) (now : Z)
| TFree (a : nat).

Definition top_ok (o : top) s : Prop :=
  match o with
  | TAdd a _ _ _ _ => heap s !! a = None
  | TCancel a | TRefresh _ a | TReset _ a _ _ => is_Some (heap s !! a)
  | TNext now => 0 <= now < 2 ^ 64
  | TExpire key now => heap s !! key = None
  | TFree a => a ∉ m_timers s
  end.

(** What an operation shows to the outside: the callbacks handed out. *)
Definition top_run (o : top) : M (TimerManager C) (list (option C)) :=
  match o with
  | TAdd a now ms cb r => addTimer a now ms cb r;; mret []
  | TCancel a => cancel a;; mret []
  | TRefresh now a => refresh now a;; mret []
  | TReset now a ms f => reset now a ms f;; mret []
  | TNext now => getNextTimer now;; mret []
  | TExpire key now => listExpiredCb key now
  | TFree a => modify (fun s => set_heap (delete a (heap s)) s);; mret []
  end.

(** Executions: any interleaving of the operations, with the callbacks handed
    out by each. *)
Inductive steps : list (top * list (option C)) -> TimerManager C -> TimerManager C -> Prop :=
| steps_refl s : steps [] s s
| steps_step o cbs os s s1 s2 :
    top_ok o s -> top_run o s = (Ok cbs, s1) -> steps os s1 s2 -> steps ((o, cbs) :: os) s s2.

(** A timer that was cancelled or has fired for the last time. *)
Definition dead (a : nat) s : Prop := a ∉ m_timers s /\ exists t, heap s !! a = Some t /\ m_cb t = None.

(** What happens to a timer that fires. *)
Definition fired (now : Z) (t : Timer C) : Timer C :=
  if m_recurring t then mkTimer true (m_ms t) (u64 (now + m_ms t)) (m_cb t)
  else mkTimer false (m_ms t) (m_next t) None.

(** The clock went back by more than an hour since it was last looked at. *)
Definition rolled_over s (now : Z) : bool :=
  (now <? m_previousTime s) && (now <? u64 (m_previousTime s - 60 * 60 * 1000)).

(** The timers [listExpiredCb] has to take out. *)
Definition due s (now : Z) : list nat :=
  if rolled_over s now then m_timers s
  else filter (fun a => next_at (heap s) a <= now) (m_timers s).

Definition cb_at h a : option C := h !! a ≫= m_cb.
Definition recurring_at h a : bool := default false (m_recurring <$> h !! a).

(** ** The order *)

Lemma less_spec h a b :
  less h a b = true <-> next_at h a < next_at h b \/ (next_at h a = next_at h b /\ (a < b)%nat).
Proof.
  unfold less, Comparator. rewrite Z.gtb_ltb.
  destruct (Z.ltb_spec (next_at h a) (next_at h b)); [split; [by left|done]|].
  destruct (Z.ltb_spec (next_at h b) (next_at h a)); [split; [done|lia]|].
  rewrite Nat.ltb_lt. split; intros; [right; lia|lia].
Qed.

Lemma less_irrefl h a : less h a a = false.
Proof. apply not_true_iff_false. rewrite less_spec. lia. Qed.

Lemma less_trans h a b c : less h a b = true -> less h b c = true -> less h a c = true.
Proof. rewrite !less_spec. lia. Qed.

Lemma less_total h a b : less h a b = false -> a <> b -> less h b a = true.
Proof. rewrite <-not_true_iff_false, !less_spec. lia. Qed.

Lemma less_ext h h' a b :
  next_at h a = next_at h' a -> next_at h b = next_at h' b -> less h a b = less h' a b.
Proof. intros Ha Hb. unfold less, Comparator. by rewrite Ha, Hb. Qed.

Lemma next_at_insert_ne h a b t : a <> b -> next_at (<[a := t]> h) b = next_at h b.
Proof. intros Hab. unfold next_at. by rewrite lookup_insert_ne. Qed.

Lemma next_at_insert h a t : next_at (<[a := t]> h) a = m_next t.
Proof. unfold next_at. by rewrite lookup_insert_eq. Qed.

Lemma sorted_ext h h' l :
  (forall a, a ∈ l -> next_at h a = next_at h' a) -> sorted h l -> sorted h' l.
Proof.
  intros He. induction 1 as [|a l Hs IH Ha]; constructor.
  - apply IH. intros b Hb. apply He. by right.
  - rewrite Forall_forall in *. intros b Hb. rewrite <-(less_ext h); [by apply Ha|..];
      apply He; [left|by right].
Qed.

Lemma sorted_app h l1 l2 :
  sorted h (l1 ++ l2) <->
  sorted h l1 /\ sorted h l2 /\ (forall a b, a ∈ l1 -> b ∈ l2 -> less h a b = true).
Proof.
  induction l1 as [|a l1 IH]; cbn [app].
  - split; [intros Hs|intros (_ & Hs & _); done]. split_and!; [constructor|done|].
    intros a b Ha. by apply not_elem_of_nil in Ha.
  - split.
    + intros Hs. inversion Hs as [|? ? Hs' Ha]; subst. apply IH in Hs' as (H1 & H2 & H3).
      apply Forall_app in Ha as [Ha1 Ha2]. split_and!; [by constructor|done|].
      intros b c [->|Hb]%elem_of_cons Hc; [|by apply H3].
      rewrite Forall_forall in Ha2. by apply Ha2.
    + intros (H1 & H2 & H3). inversion H1 as [|? ? H1' Ha]; subst. constructor.
      * apply IH. split_and!; try done. intros b c Hb Hc. apply H3; [by right|done].
      * apply Forall_app. split; [done|]. apply Forall_forall. intros b Hb.
        apply H3; [by left|done].
Qed.

Lemma sorted_NoDup h l : sorted h l -> NoDup l.
Proof.
  induction 1 as [|a l Hs IH Ha]; constructor; [|done].
  intros Hin. rewrite Forall_forall in Ha. specialize (Ha a Hin). by rewrite less_irrefl in Ha.
Qed.

Lemma sorted_sublist h l1 l2 : l1 `sublist_of` l2 -> sorted h l2 -> sorted h l1.
Proof.
  intros Hsub. induction Hsub as [|a l1 l2 Hsub IH|a l1 l2 Hsub IH]; intros Hs.
  - constructor.
  - inversion Hs as [|? ? Hs' Ha]; subst. constructor; [by apply IH|].
    rewrite Forall_forall in *. intros b Hb. apply Ha. by eapply sublist_subseteq.
  - inversion Hs; subst. by apply IH.
Qed.

Lemma sorted_filter h (P : nat -> Prop) `{forall a, Decision (P a)} l :
  sorted h l -> sorted h (filter P l).
Proof. apply sorted_sublist, sublist_filter. Qed.

(** ** The operations of [std::set] *)

Lemma lower_bound_spec h k l l1 l2 :
  sorted h l -> lower_bound h k l = (l1, l2) ->
  l = l1 ++ l2 /\ Forall (fun a => less h a k = true) l1 /\ Forall (fun a => less h a k = false) l2.
Proof.
  intros Hs. revert l1 l2. induction Hs as [|a l Hs IH Ha]; cbn [lower_bound]; intros l1 l2.
  { intros Hl; injection Hl as <- <-. done. }
  destruct (less h a k) eqn:Hak.
  - destruct (lower_bound h k l) as [m1 m2]. intros Hl; injection Hl as <- <-.
    destruct (IH m1 m2 eq_refl) as (-> & H1 & H2). split_and!; auto.
  - intros Hl; injection Hl as <- <-. split_and!; [done|constructor|]. constructor; [done|].
    apply (Forall_impl _ _ _ Ha). intros b Hab.
    destruct (less h b k) eqn:Hbk; [|done]. rewrite (less_trans h a b k) in Hak; done.
Qed.

Lemma set_find_spec h k l : sorted h l -> set_find h k l = if decide (k ∈ l) then Some k else None.
Proof.
  intros Hs. unfold set_find. destruct (lower_bound h k l) as [l1 l2] eqn:Hl.
  destruct (lower_bound_spec h k l l1 l2 Hs Hl) as (-> & H1 & H2).
  assert (k ∉ l1) as Hk1.
  { intros Hin. rewrite Forall_forall in H1. specialize (H1 k Hin). by rewrite less_irrefl in H1. }
  destruct l2 as [|b l2].
  - rewrite decide_False; [done|]. rewrite app_nil_r. done.
  - apply Forall_cons in H2 as [Hb _]. destruct (decide (k = b)) as [->|Hne].
    + rewrite less_irrefl. rewrite decide_True; [done|]. apply elem_of_app. right. left.
    + rewrite (less_total h b k Hb) by done.
      rewrite decide_False; [done|].
      intros [?|[?|Hin]%elem_of_cons]%elem_of_app; try done.
      apply sorted_app in Hs as (_ & Hs & _). inversion Hs as [|? ? _ Hall]; subst.
      rewrite Forall_forall in Hall. specialize (Hall k Hin). by rewrite Hall in Hb.
Qed.

Lemma set_insert_spec h k l :
  sorted h l -> k ∉ l -> sorted h (set_insert h k l) /\ set_insert h k l ≡ₚ k :: l.
Proof.
  intros Hs Hk. unfold set_insert. destruct (lower_bound h k l) as [l1 l2] eqn:Hl.
  destruct (lower_bound_spec h k l l1 l2 Hs Hl) as (-> & H1 & H2).
  rewrite not_elem_of_app in Hk. destruct Hk as [Hk1 Hk2].
  rewrite Forall_forall in H1, H2. apply sorted_app in Hs as (Hs1 & Hs2 & H12).
  assert (sorted h (l1 ++ k :: l2)) as Hs'.
  { apply sorted_app. split_and!; [done| |].
    - constructor; [done|]. apply Forall_forall. intros b Hb.
      apply less_total; [by apply H2|]. intros ->. done.
    - intros a b Ha [->|Hb]%elem_of_cons; [by apply H1|by apply H12]. }
  destruct l2 as [|b l2].
  - split; [done|]. by rewrite app_nil_r, Permutation_app_comm.
  - rewrite (less_total h b k); [|by apply H2; left|intros ->; apply Hk2; left].
    split; [done|]. by rewrite Permutation_middle.
Qed.

Lemma set_erase_spec a l : a ∉ set_erase a l.
Proof. unfold set_erase. rewrite list_elem_of_filter. tauto. Qed.

Lemma elem_of_set_erase a b l : b ∈ set_erase a l <-> b <> a /\ b ∈ l.
Proof. unfold set_erase. by rewrite list_elem_of_filter. Qed.

(** ** The invariant through the operations *)

Lemma erase_inv_sorted h a l : sorted h l -> sorted h (set_erase a l).
Proof. apply sorted_filter. Qed.

Lemma Forall_erase (P : nat -> Prop) a l : Forall P l -> Forall P (set_erase a l).
Proof. rewrite !Forall_forall. intros HP b [_ Hb]%elem_of_set_erase. by apply HP. Qed.

(** Changing the object of an address outside a list keeps its order. *)
Lemma sorted_insert_ne h a t l : a ∉ l -> sorted h l -> sorted (<[a := t]> h) l.
Proof.
  intros Ha. apply sorted_ext. intros b Hb. rewrite next_at_insert_ne; [done|]. by intros ->.
Qed.

(** Putting a changed object back into the set it was taken out of. *)
Lemma inv_put h l a t b p s :
  sorted h l -> a ∉ l -> Forall (fun b => is_Some (h !! b)) l ->
  (forall b t, h !! b = Some t -> m_cb t <> None -> b <> a -> b ∈ l) ->
  (forall b t, h !! b = Some t -> b <> a -> 0 <= m_next t < 2 ^ 64) -> 0 <= m_next t < 2 ^ 64 ->
  let h' := <[a := t]> h in
  inv (mkTimerManager h' (set_insert h' a l) b p).
Proof.
  intros Hs Ha Hlive Hcb Hr Ht h'.
  destruct (set_insert_spec h' a l) as [Hs' Hp]; [by apply sorted_insert_ne|done|].
  constructor; cbn [heap m_timers].
  - done.
  - rewrite Hp. constructor; [unfold h'; rewrite lookup_insert_eq; by eexists|].
    apply (Forall_impl _ _ _ Hlive). intros c [t' Hc]. unfold h'.
    destruct (decide (a = c)) as [->|]; [rewrite lookup_insert_eq|rewrite lookup_insert_ne by done];
      by eexists.
  - intros c t' Hc Hcb'. rewrite Hp. destruct (decide (a = c)) as [->|Hne]; [left|].
    unfold h' in Hc. rewrite lookup_insert_ne in Hc by done. right. by eapply Hcb.
  - intros c t' Hc. unfold h' in Hc. destruct (decide (a = c)) as [->|Hne].
    + rewrite lookup_insert_eq in Hc. by injection Hc as <-.
    + rewrite lookup_insert_ne in Hc by done. by eapply Hr.
Qed.

(** [inv_put] for an object already in the set. *)
Lemma inv_update s a t t' b p :
  inv s -> heap s !! a = Some t -> 0 <= m_next t' < 2 ^ 64 ->
  let h' := <[a := t']> (heap s) in
  inv (mkTimerManager h' (set_insert h' a (set_erase a (m_timers s))) b p).
Proof.
  intros [Hs Hl Hcb Hr] Ha Ht'. apply inv_put; try done.
  - by apply erase_inv_sorted.
  - apply set_erase_spec.
  - by apply Forall_erase.
  - intros c t0 Hc Hcb' Hne. apply elem_of_set_erase. split; [done|]. by eapply Hcb.
  - intros c t0 Hc _. by eapply Hr.
Qed.

Lemma inv_flags s b p : inv s -> inv (mkTimerManager (heap s) (m_timers s) b p).
Proof. intros [Hs Hl Hcb Hr]. by constructor. Qed.

Lemma addTimer_locked_eq a s :
  addTimer_locked a s
  = let l := set_insert (heap s) a (m_timers s) in
    let f := bool_decide (head l = Some a) && negb (m_tickled s) in
    (Ok f, mkTimerManager (heap s) l (m_tickled s || f) (m_previousTime s)).
Proof.
  unfold addTimer_locked. mstep. cbn [set_timers m_timers m_tickled].
  destruct (bool_decide _), (m_tickled s) eqn:E; cbn; unfold set_timers, set_tickled; cbn;
    rewrite ?E; done.
Qed.

Lemma addTimer_inv a now ms cb r s :
  inv s -> heap s !! a = None ->
  exists f s', addTimer a now ms cb r s = (Ok (a, f), s') /\ inv s'
    /\ heap s' = <[a := Timer_new now ms cb r]> (heap s) /\ m_timers s' ≡ₚ a :: m_timers s
    /\ (head (m_timers s') = Some a -> m_tickled s' = true)
    /\ f = bool_decide (head (m_timers s') = Some a) && negb (m_tickled s).
Proof.
  intros Hinv Ha. pose proof Hinv as [Hs Hl Hcb Hr].
  unfold addTimer, timer_put. mstep. rewrite addTimer_locked_eq. cbn [set_heap heap m_timers m_tickled].
  assert (a ∉ m_timers s) as Hnin.
  { intros Hin. rewrite Forall_forall in Hl. destruct (Hl a Hin). congruence. }
  eexists _, _. split; [reflexivity|]. cbn [heap m_timers m_tickled m_previousTime]. split_and!.
  - apply inv_put; try done.
    + intros c t Hc Hcb' _. by eapply Hcb.
    + intros c t Hc _. by eapply Hr.
    + apply u64_range.
  - done.
  - apply set_insert_spec; [|done]. by apply sorted_insert_ne.
  - intros ->. rewrite bool_decide_eq_true_2 by done. by destruct (m_tickled s).
  - done.
Qed.

(** A timer with a callback is found in the set: [cancel] never erases
    [end()]. *)
Lemma cancel_inv a t s :
  inv s -> heap s !! a = Some t ->
  exists s', cancel a s = (Ok (bool_decide (m_cb t <> None)), s') /\ inv s'
    /\ (m_cb t <> None -> m_timers s' = set_erase a (m_timers s))
    /\ cb_at (heap s') a = None.
Proof.
  intros Hinv Ha. pose proof Hinv as [Hs Hl Hcb Hr].
  unfold cancel, timer_at. mstep. rewrite Ha.
  destruct (m_cb t) as [c|] eqn:Ecb.
  2: { exists s. rewrite bool_decide_eq_false_2 by (intros ?; done). split_and!; try done.
       unfold cb_at. by rewrite Ha. }
  unfold timer_put. mstep. cbn [set_heap heap m_timers].
  set (t' := mkTimer _ _ _ None). set (h' := <[a := t']> (heap s)).
  assert (forall b, next_at h' b = next_at (heap s) b) as Hnext.
  { intros b. unfold h'. destruct (decide (a = b)) as [->|]; [|by apply next_at_insert_ne].
    rewrite next_at_insert. unfold next_at. by rewrite Ha. }
  assert (sorted h' (m_timers s)) as Hs' by (by eapply sorted_ext; [|exact Hs]).
  rewrite set_find_spec by done. rewrite decide_True by (eapply Hcb; [exact Ha|by rewrite Ecb]).
  rewrite bool_decide_eq_true_2 by done.
  eexists. split; [reflexivity|]. cbn. split_and!; [|done|by unfold cb_at, h'; rewrite lookup_insert_eq].
  constructor; cbn [heap m_timers set_timers set_heap].
  - by apply erase_inv_sorted.
  - apply Forall_erase. apply (Forall_impl _ _ _ Hl). intros b [tb Hb].
    unfold h'. destruct (decide (a = b)) as [->|]; [rewrite lookup_insert_eq|rewrite lookup_insert_ne by done];
      by eexists.
  - intros b tb Hb Hcb'. unfold h' in Hb. apply elem_of_set_erase.
    destruct (decide (a = b)) as [->|]; [rewrite lookup_insert_eq in Hb; by injection Hb as <-|].
    rewrite lookup_insert_ne in Hb by done. split; [done|]. by eapply Hcb.
  - intros b tb Hb. unfold h' in Hb. destruct (decide (a = b)) as [->|].
    + rewrite lookup_insert_eq in Hb. injection Hb as <-. cbn. by eapply Hr.
    + rewrite lookup_insert_ne in Hb by done. by eapply Hr.
Qed.

Lemma cb_at_update h a t t' b :
  h !! a = Some t -> m_cb t' = m_cb t -> cb_at (<[a := t']> h) b = cb_at h b.
Proof.
  intros Ha Hcb. unfold cb_at. destruct (decide (a = b)) as [->|].
  - rewrite lookup_insert_eq, Ha. cbn. done.
  - by rewrite lookup_insert_ne.
Qed.

Lemma refresh_inv now a t s :
  inv s -> heap s !! a = Some t ->
  exists s', refresh now a s = (Ok (bool_decide (m_cb t <> None)), s') /\ inv s'
    /\ (forall b, cb_at (heap s') b = cb_at (heap s) b)
    /\ (m_cb t <> None -> next_at (heap s') a = u64 (now + m_ms t)).
Proof.
  intros Hinv Ha. pose proof Hinv as [Hs Hl Hcb Hr].
  unfold refresh, timer_at. mstep. rewrite Ha.
  destruct (m_cb t) as [c|] eqn:Ecb.
  2: { exists s. rewrite bool_decide_eq_false_2 by (intros ?; done). done. }
  rewrite set_find_spec by done. rewrite decide_True by (eapply Hcb; [exact Ha|by rewrite Ecb]).
  rewrite bool_decide_eq_true_2 by done.
  eexists. split; [reflexivity|]. cbn [set_heap set_timers heap m_timers]. split_and!.
  - apply (inv_update s a t); try done. apply u64_range.
  - intros b. by eapply cb_at_update.
  - intros _. by rewrite next_at_insert.
Qed.

Lemma reset_inv now a ms from_now t s :
  inv s -> heap s !! a = Some t ->
  exists b f s', reset now a ms from_now s = (Ok (b, f), s') /\ inv s'
    /\ (forall b, cb_at (heap s') b = cb_at (heap s) b)
    /\ (b = bool_decide (m_cb t <> None) \/ (b = true /\ s' = s)).
Proof.
  intros Hinv Ha. pose proof Hinv as [Hs Hl Hcb Hr].
  unfold reset, timer_at. mstep. rewrite Ha.
  destruct ((ms =? m_ms t) && negb from_now).
  { exists true, false, s. split_and!; try done. by right. }
  destruct (m_cb t) as [c|] eqn:Ecb.
  2: { exists false, false, s. rewrite bool_decide_eq_false_2 by (intros ?; done).
       split_and!; try done. by left. }
  rewrite set_find_spec by done. rewrite decide_True by (eapply Hcb; [exact Ha|by rewrite Ecb]).
  rewrite bool_decide_eq_true_2 by done. unfold timer_put. mstep. rewrite addTimer_locked_eq.
  eexists true, _, _. split; [reflexivity|]. cbn [set_heap set_timers heap m_timers]. split_and!.
  - apply (inv_update s a t); try done. apply u64_range.
  - intros b. by eapply cb_at_update.
  - by left.
Qed.

(** ** Expiry *)

Lemma skip_equal_spec h now l1 l2 e r :
  sorted h l2 -> Forall (fun a => now <= next_at h a) l2 -> skip_equal h now l1 l2 = (e, r) ->
  e = l1 ++ filter (fun a => next_at h a <= now) l2
  /\ r = filter (fun a => now < next_at h a) l2.
Proof.
  intros Hs. revert l1. induction Hs as [|a l Hs IH Ha]; intros l1 Hge; cbn [skip_equal].
  { intros [= <- <-]. by rewrite app_nil_r. }
  apply Forall_cons in Hge as [Hga Hge]. destruct (Z.eqb_spec (next_at h a) now) as [E|E].
  - intros Hsk. apply IH in Hsk as [-> ->]; [|done].
    rewrite (filter_cons_True _ a) by lia. rewrite (filter_cons_False _ a) by lia.
    by rewrite <-app_assoc.
  - intros [= <- <-].
    assert (Forall (fun b => now < next_at h b) (a :: l)) as Hgt.
    { constructor; [lia|]. apply (Forall_impl _ _ _ Ha). intros b Hb%less_spec. lia. }
    rewrite (list_filter_all (fun a => now < next_at h a)) by done.
    rewrite list_filter_none; [by rewrite app_nil_r|]. apply (Forall_impl _ _ _ Hgt). lia.
Qed.

(** Whatever the address of the search key, what is taken out is what is due. *)
Lemma expired_split_spec s key now :
  inv s -> heap s !! key = None ->
  expired_split (heap s) key now (rolled_over s now) (m_timers s)
  = (due s now, filter (fun a => a ∉ due s now) (m_timers s)).
Proof.
  intros [Hs Hl Hcb Hr] Hk. unfold expired_split, due. destruct (rolled_over s now).
  { f_equal. symmetry. apply list_filter_none, Forall_forall. intros a Ha. tauto. }
  set (h' := <[key := Timer_key now]> (heap s)).
  assert (key ∉ m_timers s) as Hnin.
  { intros Hin. rewrite Forall_forall in Hl. destruct (Hl key Hin). congruence. }
  assert (forall a, a ∈ m_timers s -> next_at h' a = next_at (heap s) a) as Hnext.
  { intros a Ha. apply next_at_insert_ne. by intros ->. }
  destruct (lower_bound h' key (m_timers s)) as [l1 l2] eqn:Hlb.
  apply lower_bound_spec in Hlb as (El & H1 & H2); [|by apply sorted_insert_ne].
  assert (next_at h' key = now) as Hkey by apply next_at_insert.
  rewrite El in Hs, Hnext |- *. apply sorted_app in Hs as (Hs1 & Hs2 & H12).
  destruct (skip_equal (heap s) now l1 l2) as [e r] eqn:Hsk.
  assert (Forall (fun a => next_at (heap s) a <= now) l1) as Hle1.
  { rewrite Forall_forall in H1 |- *. intros a Ha. rewrite <-Hnext by (apply elem_of_app; by left).
    specialize (H1 a Ha). apply less_spec in H1. lia. }
  apply skip_equal_spec in Hsk as [-> ->]; [|done|].
  2: { rewrite Forall_forall in H2 |- *. intros a Ha. rewrite <-Hnext by (apply elem_of_app; by right).
       specialize (H2 a Ha). rewrite <-not_true_iff_false, less_spec in H2. lia. }
  rewrite !filter_app. rewrite (list_filter_all _ l1) by done. f_equal.
  assert (forall a, a ∈ l1 ++ l2 -> (a ∉ l1 ++ filter (fun a => next_at (heap s) a <= now) l2)
                                  <-> now < next_at (heap s) a) as Hiff.
  { intros a Ha. rewrite elem_of_app, list_elem_of_filter. rewrite Forall_forall in Hle1.
    rewrite elem_of_app in Ha. split.
    - intros Hn. destruct Ha as [Ha|Ha]; [tauto|]. destruct (Z.lt_ge_cases now (next_at (heap s) a)); [done|].
      exfalso. apply Hn. right. split; [lia|done].
    - intros Hlt [Hin|[Hle _]]; [apply Hle1 in Hin|]; lia. }
  rewrite (list_filter_none _ l1); [cbn|].
  - apply list_filter_iff_elem. intros a Ha. symmetry. apply Hiff. apply elem_of_app. by right.
  - apply Forall_forall. intros a Ha. rewrite Hiff by (apply elem_of_app; by left).
    rewrite Forall_forall in Hle1. specialize (Hle1 a Ha). lia.
Qed.
(** The invariant while the timers [e] are out of the set. *)
Record inv_but (e : list nat) s : Prop := {
  ib_sorted : sorted (heap s) (m_timers s);
  ib_live : Forall (fun a => is_Some (heap s !! a)) (m_timers s);
  ib_cb a t : heap s !! a = Some t -> m_cb t <> None -> a ∈ m_timers s \/ a ∈ e;
  ib_range a t : heap s !! a = Some t -> 0 <= m_next t < 2 ^ 64;
  ib_out : Forall (fun a => is_Some (heap s !! a) /\ a ∉ m_timers s) e;
  ib_nodup : NoDup e
}.

Lemma inv_but_nil s : inv_but [] s -> inv s.
Proof.
  intros [Hs Hl Hcb Hr _ _]. constructor; try done.
  intros a t Ha Hc. destruct (Hcb a t Ha Hc) as [|Hn]; [done|]. by apply not_elem_of_nil in Hn.
Qed.

Lemma inv_but_put e a t t' s l' :
  inv_but (a :: e) s -> heap s !! a = Some t -> 0 <= m_next t' < 2 ^ 64 ->
  let h' := <[a := t']> (heap s) in
  sorted h' l' -> (forall b, b ∈ l' <-> b ∈ m_timers s \/ (b = a /\ m_recurring t = true)) ->
  (m_cb t' <> None -> m_recurring t = true) ->
  inv_but e (set_timers l' (set_heap h' s)).
Proof.
  intros [Hs Hl Hcb Hr Ho Hnd] Ha Hn h' Hs' Hel Hc.
  apply Forall_cons in Ho as [[_ Hout] Ho]. apply NoDup_cons in Hnd as [Hae Hnd].
  assert (forall b, is_Some (heap s !! b) -> is_Some (h' !! b)) as Hlive.
  { intros b [tb Hb]. unfold h'.
    destruct (decide (a = b)) as [->|]; [rewrite lookup_insert_eq|rewrite lookup_insert_ne by done];
      by eexists. }
  constructor; cbn [heap m_timers set_timers set_heap]; try done.
  - apply Forall_forall. intros b [Hb|[-> _]]%Hel.
    + apply Hlive. rewrite Forall_forall in Hl. by apply Hl.
    + apply Hlive. by eexists.
  - intros b tb Hb Hcbb. unfold h' in Hb. destruct (decide (a = b)) as [->|Hne].
    + rewrite lookup_insert_eq in Hb. injection Hb as <-. left. apply Hel. right. auto.
    + rewrite lookup_insert_ne in Hb by done.
      destruct (Hcb b tb Hb Hcbb) as [Hin|[->|Hin]%elem_of_cons]; [|done|by right].
      left. apply Hel. by left.
  - intros b tb Hb. unfold h' in Hb. destruct (decide (a = b)) as [->|Hne].
    + rewrite lookup_insert_eq in Hb. by injection Hb as <-.
    + rewrite lookup_insert_ne in Hb by done. by eapply Hr.
  - rewrite Forall_forall in Ho |- *. intros b Hb. destruct (Ho b Hb) as [Hbl Hbo].
    split; [by apply Hlive|]. intros [?|[-> _]]%Hel; done.
Qed.

(** One round of the loop over the expired timers. *)
Lemma fire_one now a e t s :
  inv_but (a :: e) s -> heap s !! a = Some t ->
  exists l', inv_but e (set_timers l' (set_heap (<[a := fired now t]> (heap s)) s))
    /\ (forall b, b ∈ l' <-> b ∈ m_timers s \/ (b = a /\ m_recurring t = true))
    /\ forall cbs, fire_loop now (a :: e) cbs s
       = fire_loop now e (cbs ++ [m_cb t]) (set_timers l' (set_heap (<[a := fired now t]> (heap s)) s)).
Proof.
  intros Hib Ha. pose proof Hib as [Hs Hl Hcb Hr Ho Hnd].
  apply Forall_cons in Ho as [[_ Hout] _].
  assert (forall t', sorted (<[a := t']> (heap s)) (m_timers s)) as Hs'
    by (intros t'; by apply sorted_insert_ne).
  cbn [fire_loop]. unfold timer_at, timer_put. mstep. rewrite Ha.
  unfold fired. destruct (m_recurring t) eqn:Hrec.
  - destruct (set_insert_spec _ a _ (Hs' (mkTimer true (m_ms t) (u64 (now + m_ms t)) (m_cb t))) Hout)
      as [Hs2 Hp].
    eexists (set_insert (<[a := mkTimer true (m_ms t) (u64 (now + m_ms t)) (m_cb t)]> (heap s)) a (m_timers s)).
    assert (forall b, b ∈ set_insert (<[a := mkTimer true (m_ms t) (u64 (now + m_ms t)) (m_cb t)]> (heap s)) a
      (m_timers s) <-> b ∈ m_timers s \/ (b = a /\ true = true)) as Hel.
    { intros b. rewrite Hp, elem_of_cons. tauto. }
    split_and!; [|done|done].
    eapply inv_but_put; try done; [apply u64_range|by rewrite Hrec].
  - exists (m_timers s). split_and!.
    + eapply inv_but_put; try done; [cbn; by eapply Hr|].
      intros b. rewrite Hrec. split; [by left|]. by intros [?|[_ ?]].
    + intros b. split; [by left|]. by intros [?|[_ ?]].
    + done.
Qed.

Lemma fire_loop_spec now e cbs s :
  inv_but e s ->
  exists s', fire_loop now e cbs s = (Ok (cbs ++ (cb_at (heap s) <$> e)), s') /\ inv s'
    /\ (forall a, heap s' !! a = if decide (a ∈ e) then fired now <$> heap s !! a else heap s !! a)
    /\ (forall a, a ∈ m_timers s' <-> a ∈ m_timers s \/ (a ∈ e /\ recurring_at (heap s) a = true))
    /\ m_tickled s' = m_tickled s /\ m_previousTime s' = m_previousTime s.
Proof.
  revert cbs s. induction e as [|a e IH]; intros cbs s Hib.
  { exists s. cbn. rewrite app_nil_r. split_and!; try done; [by apply inv_but_nil|].
    intros a. rewrite elem_of_nil. tauto. }
  pose proof (ib_out _ _ Hib) as Ho. apply Forall_cons in Ho as [[[t Ha] _] _].
  pose proof (ib_nodup _ _ Hib) as Hnd. apply NoDup_cons in Hnd as [Hae _].
  destruct (fire_one now a e t s Hib Ha) as (l' & Hib' & Hel & Hrun). rewrite Hrun.
  destruct (IH (cbs ++ [m_cb t]) _ Hib') as (s' & Hrun' & Hinv & Hh & Ht & Htk & Hpt).
  exists s'. cbn [heap m_timers set_timers set_heap m_tickled m_previousTime] in *.
  assert (forall b, b <> a -> <[a := fired now t]> (heap s) !! b = heap s !! b) as Hne
    by (intros b Hb; by rewrite lookup_insert_ne).
  split_and!; try done.
  - rewrite Hrun'. do 2 f_equal. rewrite <-app_assoc. cbn. f_equal.
    unfold cb_at at 2. rewrite Ha. cbn. f_equal. apply list_fmap_ext. intros i b Hb.
    unfold cb_at. rewrite Hne; [done|]. intros ->. apply Hae. by eapply list_elem_of_lookup_2.
  - intros b. rewrite Hh. destruct (decide (b = a)) as [->|Hb].
    + rewrite decide_False by done. rewrite decide_True by left.
      by rewrite lookup_insert_eq, Ha.
    + rewrite Hne by done. destruct (decide (b ∈ e)).
      * rewrite decide_True by (by right). done.
      * rewrite decide_False; [done|]. by intros [?|?]%elem_of_cons.
  - intros b. rewrite Ht, Hel, elem_of_cons. unfold recurring_at.
    destruct (decide (b = a)) as [->|Hb].
    + rewrite Ha. cbn. split; [|tauto]. intros [[?|[_ ?]]|[? _]]; tauto.
    + rewrite Hne by done. tauto.
Qed.

(** [listExpiredCb] takes out exactly the due timers, in the order of the set. *)
Lemma listExpired_inv key now s :
  inv s -> heap s !! key = None ->
  exists s', listExpiredCb key now s = (Ok (cb_at (heap s) <$> due s now), s') /\ inv s'
    /\ (forall a, heap s' !! a
          = if decide (a ∈ due s now) then fired now <$> heap s !! a else heap s !! a)
    /\ (forall a, a ∈ m_timers s' <->
          a ∈ m_timers s /\ (a ∉ due s now \/ recurring_at (heap s) a = true)).
Proof.
  intros Hinv Hk. pose proof Hinv as [Hs Hl Hcb Hr]. unfold listExpiredCb. mstep.
  destruct (m_timers s) as [|first l] eqn:El.
  { exists s. assert (due s now = []) as -> by (unfold due; rewrite El; by destruct (rolled_over s now)).
    split_and!; try done. intros a. rewrite El, elem_of_nil. tauto. }
  unfold detectClockRollover. mstep. fold (rolled_over s now).
  pose proof Hl as Hl'. apply Forall_cons in Hl' as [[t Ht] _].
  unfold timer_at. cbn [heap set_previousTime]. rewrite Ht.
  assert (forall a, a ∈ due s now -> a ∈ m_timers s) as Hsub.
  { intros a. unfold due. destruct (rolled_over s now); [done|].
    rewrite list_elem_of_filter. tauto. }
  destruct (negb (rolled_over s now) && (m_next t >? now)) eqn:Hearly.
  - apply andb_true_iff in Hearly as [Hro%negb_true_iff Hgt].
    exists (set_previousTime now s).
    assert (due s now = []) as ->.
    { unfold due. rewrite Hro, El. apply list_filter_none, Forall_forall.
      intros a Ha. assert (next_at (heap s) first = m_next t) as Hf by (unfold next_at; by rewrite Ht).
      apply elem_of_cons in Ha as [->|Ha]; [lia|].
      inversion Hs as [|? ? _ Hall]; subst. rewrite Forall_forall in Hall.
      specialize (Hall a Ha). apply less_spec in Hall. lia. }
    split_and!; [done|by apply inv_flags|done|].
    intros a. cbn. rewrite El, elem_of_nil. tauto.
  - rewrite <-El. rewrite (expired_split_spec s key now Hinv Hk).
    set (rest := filter _ _).
    destruct (fire_loop_spec now (due s now) [] (set_timers rest (set_previousTime now s)))
      as (s' & Hrun & Hinv' & Hh & Hel & _).
    + assert (forall a, a ∈ rest <-> a ∉ due s now /\ a ∈ m_timers s) as Hrest
        by (intros a; unfold rest; by rewrite list_elem_of_filter).
      rewrite <-El in Hs, Hl, Hcb.
      constructor; cbn [heap m_timers set_timers set_previousTime]; try done.
      * by apply sorted_filter.
      * rewrite Forall_forall in Hl |- *. intros a [_ Ha]%Hrest. by apply Hl.
      * intros a ta Ha Hc. rewrite Hrest. destruct (decide (a ∈ due s now)); [by right|].
        left. split; [done|]. by eapply Hcb.
      * rewrite Forall_forall in Hl |- *. intros a Ha. split; [by apply Hl, Hsub|].
        rewrite Hrest. tauto.
      * unfold due. destruct (rolled_over s now); [by eapply sorted_NoDup|].
        by apply NoDup_filter; eapply sorted_NoDup.
    + exists s'. cbn [heap m_timers set_timers set_previousTime app] in *. split_and!; try done.
      intros a. rewrite Hel. unfold rest. rewrite list_elem_of_filter.
      destruct (decide (a ∈ due s now)) as [Hd|Hd]; [|tauto]. pose proof (Hsub a Hd). tauto.
Qed.

(** ** Every operation, in any order *)

Lemma getNextTimer_inv now s :
  inv s -> exists r, getNextTimer now s = (Ok r, set_tickled false s)
    /\ r = match m_timers s with
           | [] => 2 ^ 64 - 1
           | a :: _ => if now >=? next_at (heap s) a then 0 else u64 (next_at (heap s) a - now)
           end.
Proof.
  intros [Hs Hl Hcb Hr]. unfold getNextTimer, timer_at. mstep. cbn [m_timers set_tickled heap].
  destruct (m_timers s) as [|a l]; [by eexists|]. apply Forall_cons in Hl as [[t Ht] _].
  cbn. rewrite Ht. unfold next_at. rewrite Ht. cbn. destruct (now >=? m_next t); by eexists.
Qed.

Lemma free_inv a s : inv s -> a ∉ m_timers s -> inv (set_heap (delete a (heap s)) s).
Proof.
  intros [Hs Hl Hcb Hr] Ha.
  assert (forall b t, delete a (heap s) !! b = Some t -> heap s !! b = Some t) as Hd.
  { intros b t Hb. apply lookup_delete_Some in Hb. tauto. }
  constructor; cbn [heap m_timers set_heap].
  - eapply sorted_ext; [|exact Hs]. intros b Hb. unfold next_at.
    rewrite lookup_delete_ne; [done|]. by intros ->.
  - rewrite Forall_forall in Hl |- *. intros b Hb. rewrite lookup_delete_ne; [by apply Hl|].
    by intros ->.
  - intros b t Hb%Hd. by apply Hcb.
  - intros b t Hb%Hd. by eapply Hr.
Qed.

Lemma top_safe o s : inv s -> top_ok o s -> exists cbs s', top_run o s = (Ok cbs, s') /\ inv s'.
Proof.
  intros Hinv Hok. destruct o as [a now ms cb r|a|now a|now a ms f|now|key now|a]; cbn in Hok.
  - destruct (addTimer_inv a now ms cb r s Hinv Hok) as (f & s' & Hrun & Hi & _).
    exists [], s'. cbn. mstep. by rewrite Hrun.
  - destruct Hok as [t Ht]. destruct (cancel_inv a t s Hinv Ht) as (s' & Hrun & Hi & _).
    exists [], s'. cbn. mstep. by rewrite Hrun.
  - destruct Hok as [t Ht]. destruct (refresh_inv now a t s Hinv Ht) as (s' & Hrun & Hi & _).
    exists [], s'. cbn. mstep. by rewrite Hrun.
  - destruct Hok as [t Ht]. destruct (reset_inv now a ms f t s Hinv Ht) as (? & ? & s' & Hrun & Hi & _).
    exists [], s'. cbn. mstep. by rewrite Hrun.
  - destruct (getNextTimer_inv now s Hinv) as (r & Hrun & _).
    exists [], (set_tickled false s). cbn. mstep. rewrite Hrun. split; [done|]. by apply inv_flags.
  - destruct (listExpired_inv key now s Hinv Hok) as (s' & Hrun & Hi & _). by eexists _, s'.
  - exists [], (set_heap (delete a (heap s)) s). split; [done|]. by apply free_inv.
Qed.

Lemma steps_inv os s s' : steps os s s' -> inv s -> inv s'.
Proof.
  induction 1 as [|o cbs os s s1 s2 Hok Hrun _ IH]; [done|]. intros Hinv.
  destruct (top_safe o s Hinv Hok) as (cbs' & s1' & Hrun' & Hi). apply IH. congruence.
Qed.

Lemma TimerManager_new_inv now : inv (@TimerManager_new C now).
Proof.
  constructor; cbn [heap m_timers TimerManager_new].
  - apply SSorted_nil.
  - by apply Forall_nil.
  - intros a t Ha. by rewrite lookup_empty in Ha.
  - intros a t Ha. by rewrite lookup_empty in Ha.
Qed.

Lemma dead_due a s now : dead a s -> a ∉ due s now.
Proof.
  intros [Hn _]. unfold due. destruct (rolled_over s now); [done|].
  rewrite list_elem_of_filter. tauto.
Qed.

(** An operation on another timer leaves a dead timer dead. *)
Lemma dead_insert a b t s l b' p :
  dead a s -> a <> b -> (forall c, c ∈ l -> c = b \/ c ∈ m_timers s) ->
  dead a (mkTimerManager (<[b := t]> (heap s)) l b' p).
Proof.
  intros [Hn (ta & Ha & Hc)] Hne Hl. split; cbn.
  - intros [->|?]%Hl; done.
  - exists ta. by rewrite lookup_insert_ne.
Qed.

Lemma elem_of_set_insert h k l a : a ∈ set_insert h k l -> a = k \/ a ∈ l.
Proof.
  unfold set_insert. destruct (lower_bound h k l) as [l1 l2] eqn:El.
  assert (l = l1 ++ l2) as ->.
  { revert l1 l2 El. induction l as [|b l IH]; cbn [lower_bound]; intros l1 l2.
    - by intros [= <- <-].
    - destruct (less h b k); [|by intros [= <- <-]].
      destruct (lower_bound h k l) as [m1 m2]. intros [= <- <-]. cbn. f_equal. by apply IH. }
  destruct l2 as [|b l2]; [|destruct (less h k b)];
    rewrite ?elem_of_app, ?elem_of_cons, ?elem_of_nil; tauto.
Qed.

Lemma dead_step a o cbs s s' :
  inv s -> dead a s -> top_ok o s -> o <> TFree a -> top_run o s = (Ok cbs, s') -> dead a s'.
Proof.
  intros Hinv Hd Hok Hne Hrun. pose proof Hd as [Hn (ta & Ha & Hc)].
  destruct o as [b now ms cb r|b|now b|now b ms f|now|key now|b]; cbn in Hok, Hrun.
  - revert Hrun. unfold addTimer, timer_put. mstep. rewrite addTimer_locked_eq. cbn. intros [= _ <-].
    apply dead_insert; [done|congruence|]. intros c Hin%elem_of_set_insert. done.
  - destruct Hok as [t Ht]. revert Hrun. unfold cancel, timer_at. mstep. rewrite Ht.
    destruct (m_cb t) as [cb|] eqn:Ecb; [|by intros [= _ <-]].
    unfold timer_put. mstep. cbn [set_heap heap m_timers].
    destruct (set_find _ b _) as [it|]; [|done]. intros [= _ <-].
    apply dead_insert; [done|congruence|]. cbn. intros c [_ ?]%elem_of_set_erase. by right.
  - destruct Hok as [t Ht]. revert Hrun. unfold refresh, timer_at. mstep. rewrite Ht.
    destruct (m_cb t) as [cb|] eqn:Ecb; [|by intros [= _ <-]].
    destruct (set_find _ b _) as [it|]; [|by intros [= _ <-]]. unfold timer_put. mstep.
    intros [= _ <-]. apply dead_insert; [done|congruence|]. cbn.
    intros c [?|[_ ?]%elem_of_set_erase]%elem_of_set_insert; [by left|by right].
  - destruct Hok as [t Ht]. revert Hrun. unfold reset, timer_at. mstep. rewrite Ht.
    destruct (_ && _); [by intros [= _ <-]|].
    destruct (m_cb t) as [cb|] eqn:Ecb; [|by intros [= _ <-]].
    destruct (set_find _ b _) as [it|]; [|by intros [= _ <-]]. unfold timer_put. mstep.
    rewrite addTimer_locked_eq. intros [= _ <-]. apply dead_insert; [done|congruence|]. cbn.
    intros c [?|[_ ?]%elem_of_set_erase]%elem_of_set_insert; [by left|by right].
  - destruct (getNextTimer_inv now s Hinv) as (r & Hr & _). revert Hrun. mstep. rewrite Hr.
    by intros [= _ <-].
  - destruct (listExpired_inv key now s Hinv Hok) as (s1 & Hr & _ & Hh & Hel).
    rewrite Hr in Hrun. injection Hrun as _ <-. split; [rewrite Hel; tauto|].
    exists ta. rewrite Hh, decide_False by (by apply dead_due). done.
  - injection Hrun as _ <-. split; [done|]. exists ta. cbn.
    rewrite lookup_delete_ne; [done|]. by intros ->.
Qed.

(** ** Properties *)

(** C4: whatever operations ran before, in whatever order and however the
    clock jumped, the set is in its order, every timer with a callback is in it,
    and the next operation completes: [cancel] never erases a missing element,
    no dead object is touched. *)
Theorem timers_always_safe now os s o :
  steps os (TimerManager_new now) s -> top_ok o s ->
  inv s /\ exists cbs s', top_run o s = (Ok cbs, s') /\ inv s'.
Proof.
  intros Hst Hok. pose proof (steps_inv _ _ _ Hst (TimerManager_new_inv now)) as Hinv.
  split; [done|]. by apply top_safe.
Qed.

(** C5: [listExpiredCb] hands out the callbacks of exactly the timers whose
    time has come (all of them after the clock went back by over an hour), in
    the order of the set, wherever the allocator puts the search key; of these
    the one-shot ones leave the set and lose their callback, the recurring ones
    are re-armed at [now + ms]; all other timers are untouched. *)
Theorem listExpiredCb_exact key now s :
  inv s -> heap s !! key = None ->
  exists s', listExpiredCb key now s = (Ok (cb_at (heap s) <$> due s now), s') /\ inv s'
    /\ (forall a, heap s' !! a
          = if decide (a ∈ due s now) then fired now <$> heap s !! a else heap s !! a)
    /\ (forall a, a ∈ m_timers s' <->
          a ∈ m_timers s /\ (a ∉ due s now \/ recurring_at (heap s) a = true))
    /\ sorted (heap s) (due s now).
Proof.
  intros Hinv Hk. destruct (listExpired_inv key now s Hinv Hk) as (s' & ? & ? & ? & ?).
  exists s'. split_and!; try done. unfold due. pose proof (inv_sorted s Hinv).
  destruct (rolled_over s now); [done|]. by apply sorted_filter.
Qed.

(** [getNextTimer] is the time until the earliest timer: 0 when it is
    overdue, the [uint64_t] maximum when there is none; it clears the notification
    flag and changes nothing else. *)
Theorem getNextTimer_earliest now s :
  inv s -> 0 <= now < 2 ^ 64 ->
  exists r, getNextTimer now s = (Ok r, set_tickled false s)
    /\ (m_timers s = [] -> r = 2 ^ 64 - 1)
    /\ (forall a, a ∈ m_timers s -> r <= Z.max 0 (next_at (heap s) a - now))
    /\ (m_timers s <> [] -> exists a, a ∈ m_timers s /\ r = Z.max 0 (next_at (heap s) a - now)).
Proof.
  intros Hinv Hnow. destruct (getNextTimer_inv now s Hinv) as (r & Hrun & ->).
  eexists. split; [done|]. pose proof Hinv as [Hs Hl Hcb Hr].
  destruct (m_timers s) as [|a l]; [split_and!; [done| |done]; intros b Hb; by apply not_elem_of_nil in Hb|].
  apply Forall_cons in Hl as [[t Ht] _]. specialize (Hr a t Ht).
  assert (next_at (heap s) a = m_next t) as Hn by (unfold next_at; by rewrite Ht).
  assert ((if now >=? next_at (heap s) a then 0 else u64 (next_at (heap s) a - now))
          = Z.max 0 (next_at (heap s) a - now)) as ->.
  { rewrite Hn, Z.geb_leb. destruct (Z.leb_spec (m_next t) now); [lia|]. unwrap64. lia. }
  split_and!; [done| |].
  - intros b [->|Hb]%elem_of_cons; [lia|]. inversion Hs as [|? ? _ Hall]; subst.
    rewrite Forall_forall in Hall. specialize (Hall b Hb). apply less_spec in Hall. lia.
  - intros _. exists a. split; [left|done].
Qed.


(** Once [cancel] has returned true the timer's callback is never handed
    out again: whatever runs afterwards, as long as the object is not freed, it
    is in no set of due timers and has no callback. *)
Theorem cancelled_never_fires a t s s1 os s2 now :
  inv s -> heap s !! a = Some t -> cancel a s = (Ok true, s1) ->
  steps os s1 s2 -> Forall (fun oc => fst oc <> TFree a) os ->
  a ∉ due s2 now /\ cb_at (heap s2) a = None.
Proof.
  intros Hinv Ha Hrun Hst Hnf.
  destruct (cancel_inv a t s Hinv Ha) as (s1' & Hrun' & Hinv1 & Hm & Hcb).
  rewrite Hrun in Hrun'. injection Hrun' as Hb <-.
  symmetry in Hb. apply bool_decide_eq_true_1 in Hb. specialize (Hm Hb).
  assert (dead a s1) as Hd.
  { split; [rewrite Hm; apply set_erase_spec|]. revert Hrun. unfold cancel, timer_at. mstep.
    rewrite Ha. destruct (m_cb t); [|done]. unfold timer_put. mstep.
    destruct (set_find _ _ _); [|done]. intros [= <-]. cbn. eexists. by rewrite lookup_insert_eq. }
  clear Hrun Hm Hcb Hinv Ha. assert (dead a s2) as Hd2.
  { induction Hst as [|o cbs os s0 s1 s2 Hok Hr Hst IH]; [done|].
    apply Forall_cons in Hnf as [Hne Hnf].
    destruct (top_safe o s0 Hinv1 Hok) as (cbs' & s1' & Hr' & Hi). assert (s1' = s1) as -> by congruence.
    apply IH; try done. exact (dead_step a o cbs s0 s1 Hinv1 Hd Hok Hne Hr). }
  split; [by apply dead_due|]. destruct Hd2 as [_ (t2 & Ht2 & Hc2)].
  unfold cb_at. by rewrite Ht2.
Qed.

(** The sum of clock and interval wraps at 64 bits: a timer that is to fire
    "never" is due at once. *)
Lemma addTimer_wraps a now cb r s :
  inv s -> heap s !! a = None -> 0 < now < 2 ^ 64 ->
  exists f s', addTimer a now (2 ^ 64 - 1) cb r s = (Ok (a, f), s') /\ a ∈ due s' now.
Proof.
  intros Hinv Ha Hnow.
  destruct (addTimer_inv a now (2 ^ 64 - 1) cb r s Hinv Ha) as (f & s' & Hrun & _ & Hh & Hp & _).
  exists f, s'. split; [done|]. unfold due.
  assert (a ∈ m_timers s') as Hin by (rewrite Hp; left).
  destruct (rolled_over s' now); [done|]. apply list_elem_of_filter. split; [|done].
  rewrite Hh, next_at_insert. cbn. replace (now + (2 ^ 64 - 1)) with (now - 1 + 1 * 2 ^ 64) by lia.
  unfold u64. rewrite Z.mod_add by lia. rewrite Z.mod_small by lia. lia.
Qed.
End TimerSpec.

(** Three timers: 1 and 2 due at 110 (2 recurring), 3 later; 3 is cancelled. *)
Definition demo_timers : list (@top nat) :=
  [TAdd 1 100 10 (Some 1%nat) false; TAdd 2 100 10 (Some 2%nat) true;
   TAdd 3 100 50 (Some 3%nat) false].

Fixpoint tops_run {C} (os : list (@top C)) (s : TimerManager C) : TimerManager C :=
  match os with [] => s | o :: os => tops_run os (snd (top_run o s)) end.

Definition demo_tm : TimerManager nat := tops_run demo_timers (TimerManager_new 100).

Lemma demo_steps : steps (zip demo_timers [[]; []; []]) (TimerManager_new 100) demo_tm.
Proof.
  repeat (eapply steps_step; [vm_compute; reflexivity|vm_compute; reflexivity|]).
  apply steps_refl.
Qed.

Lemma demo_inv : inv demo_tm.
Proof. eapply steps_inv; [apply demo_steps|apply TimerManager_new_inv]. Qed.

Lemma timers_always_safe_witness :
  inv demo_tm /\ exists cbs s', top_run (TCancel 3) demo_tm = (Ok cbs, s') /\ inv s'.
Proof.
  apply (timers_always_safe 100 (zip demo_timers [[]; []; []]) demo_tm (TCancel 3));
    [exact demo_steps|]. eexists. vm_compute. reflexivity.
Defined.

Lemma listExpiredCb_exact_witness :
  exists s', listExpiredCb 9 110 demo_tm = (Ok (cb_at (heap demo_tm) <$> due demo_tm 110), s') /\ inv s'
    /\ (forall a, heap s' !! a
          = if decide (a ∈ due demo_tm 110) then fired 110 <$> heap demo_tm !! a else heap demo_tm !! a)
    /\ (forall a, a ∈ m_timers s' <->
          a ∈ m_timers demo_tm /\ (a ∉ due demo_tm 110 \/ recurring_at (heap demo_tm) a = true))
    /\ sorted (heap demo_tm) (due demo_tm 110).
Proof. apply (listExpiredCb_exact 9 110 demo_tm); [exact demo_inv|reflexivity]. Defined.

Lemma getNextTimer_earliest_witness :
  exists r, getNextTimer 103 demo_tm = (Ok r, set_tickled false demo_tm)
    /\ (m_timers demo_tm = [] -> r = 2 ^ 64 - 1)
    /\ (forall a, a ∈ m_timers demo_tm -> r <= Z.max 0 (next_at (heap demo_tm) a - 103))
    /\ (m_timers demo_tm <> [] ->
        exists a, a ∈ m_timers demo_tm /\ r = Z.max 0 (next_at (heap demo_tm) a - 103)).
Proof. apply (getNextTimer_earliest 103 demo_tm); [exact demo_inv|lia]. Defined.


Lemma cancelled_never_fires_witness :
  3%nat ∉ due (snd (cancel 3 demo_tm)) 1000 /\ cb_at (heap (snd (cancel 3 demo_tm))) 3 = None.
Proof.
  apply (cancelled_never_fires 3 (mkTimer false 50 150 (Some 3%nat)) demo_tm
           (snd (cancel 3 demo_tm)) [] (snd (cancel 3 demo_tm)) 1000);
    [exact demo_inv|reflexivity|vm_compute; reflexivity|apply steps_refl|by apply Forall_nil].
Defined.
