(* ===== verification/Fiber.v ===== *)
(** * Fibers ([src/src/fiber.cc], [include/sylar/fiber.hh])

    The fibers of one thread: the objects, the thread-local pointers to the
    current and the main fiber ([fiber.cc]) and to the scheduling fiber
    ([scheduler.cc]), and the machine context that is on the CPU.  A
    [ucontext_t] is either fresh ([makecontext]) or holds the point at which the
    code of some fiber was suspended; [swapcontext] saves whatever is running
    into the first context and resumes the second, so a context saved into the
    wrong object is visible in the model.  [getcontext] and [swapcontext] do not
    fail; addresses of new objects are arguments. *)
From S2P Require Import Prelude.

(** [src/include/sylar/fiber.hh:19-26 Fiber::State] *)
Inductive State := INIT | HOLD | EXEC | TERM | READY | EXCEPT.

#[export] Instance State_eq_dec : EqDecision State.
Proof. solve_decision. Defined.

(** The entry points given to [makecontext]. *)
Inductive entry := MainFiberFunc_entry | SchedulerFiberFunc_entry.

(** A [ucontext_t]: the code it continues. [Resume r] is the suspended code of
    fiber [r] ([None]: code of the thread before it had a fiber). *)
Inductive context :=
| Uninit
| Fresh (e : entry)
| Resume (r : option nat).

Section Fibers.
Context {C : Type}.

(** [src/include/sylar/fiber.hh:118-125 Fiber] *)
Record Fiber := mkFiber {
  m_id : Z;
  m_stacksize : Z;
  m_state : State;
  m_ctx : context;
  m_stack : bool;
  m_cb : option C
}.

(** [src/src/fiber.cc:12-29 s_fiber_id]
    The counters, the thread-local pointers of [fiber.cc:22], [fiber.cc:29] and
    [scheduler.cc:13], and the code on the CPU. *)
Record thread := mkThread {
  fibers : gmap nat Fiber;
  s_fiber_id : Z;
  s_fiber_count : Z;
  t_thread_current_fiber : option nat;
  t_thread_main_fiber : option nat;
  t_sched_fiber : option nat;
  running : option nat
}.

Definition set_fiber (a : nat) (f : Fiber) : M thread unit :=
  modify (fun w => mkThread (<[a := f]> (fibers w)) (s_fiber_id w) (s_fiber_count w)
    (t_thread_current_fiber w) (t_thread_main_fiber w) (t_sched_fiber w) (running w)).
Definition set_counts (i c : Z) : M thread unit :=
  modify (fun w => mkThread (fibers w) i c
    (t_thread_current_fiber w) (t_thread_main_fiber w) (t_sched_fiber w) (running w)).
Definition set_main (m : option nat) : M thread unit :=
  modify (fun w => mkThread (fibers w) (s_fiber_id w) (s_fiber_count w)
    (t_thread_current_fiber w) m (t_sched_fiber w) (running w)).
Definition set_sched (m : option nat) : M thread unit :=
  modify (fun w => mkThread (fibers w) (s_fiber_id w) (s_fiber_count w)
    (t_thread_current_fiber w) (t_thread_main_fiber w) m (running w)).
Definition set_running (r : option nat) : M thread unit :=
  modify (fun w => mkThread (fibers w) (s_fiber_id w) (s_fiber_count w)
    (t_thread_current_fiber w) (t_thread_main_fiber w) (t_sched_fiber w) r).
Definition free_fiber (a : nat) : M thread unit :=
  modify (fun w => mkThread (delete a (fibers w)) (s_fiber_id w) (s_fiber_count w)
    (t_thread_current_fiber w) (t_thread_main_fiber w) (t_sched_fiber w) (running w)).

Definition with_state (st : State) (f : Fiber) : Fiber :=
  mkFiber (m_id f) (m_stacksize f) st (m_ctx f) (m_stack f) (m_cb f).
Definition with_cb (cb : option C) (f : Fiber) : Fiber :=
  mkFiber (m_id f) (m_stacksize f) (m_state f) (m_ctx f) (m_stack f) cb.
Definition with_ctx (c : context) (f : Fiber) : Fiber :=
  mkFiber (m_id f) (m_stacksize f) (m_state f) c (m_stack f) (m_cb f).

(** The object a pointer points to. *)
Definition fiber_at (p : option nat) : M thread (nat * Fiber) := fun w =>
  match p with
  | None => (Err (Undef null_deref), w)
  | Some a => match fibers w !! a with
              | Some f => (Ok (a, f), w)
              | None => (Err (Undef use_after_free), w)
              end
  end.

(** [swapcontext(&from->m_ctx, &to->m_ctx)] *)
Definition swapcontext (from to : option nat) : M thread unit :=
  w ← get;
  '(a, fa) ← fiber_at from;
  set_fiber a (with_ctx (Resume (running w)) fa);;
  '(b, fb) ← fiber_at to;
  match m_ctx fb with
  | Uninit => fail (Undef bad_iterator)
  | Fresh _ => set_running (Some b)
  | Resume r => set_running r
  end.

(** [src/src/fiber.cc:170-170 Fiber::SetThreadCurrentFiber] *)
Definition SetThreadCurrentFiber (f : option nat) : M thread unit :=
  modify (fun w => mkThread (fibers w) (s_fiber_id w) (s_fiber_count w)
    f (t_thread_main_fiber w) (t_sched_fiber w) (running w)).

(** [src/src/fiber.cc:43-58 Fiber::Fiber]
    The root fiber: it stands for the code that is running. *)
Definition Fiber_root (this : nat) : M thread unit :=
  w ← get;
  set_fiber this (mkFiber (s_fiber_id w) 0 EXEC Uninit false None);;
  SetThreadCurrentFiber (Some this);;
  set_counts (u64 (s_fiber_id w + 1)) (u64 (s_fiber_count w + 1));;
  set_running (Some this).

(** [src/src/fiber.cc:60-92 Fiber::Fiber]
    [default_size] is the value of the configuration variable
    [fiber.stack_size]. *)
Definition Fiber_new (default_size : Z) (this : nat) (cb : option C) (stacksize : Z)
    (return_to_mainFiber : bool) : M thread unit :=
  w ← get;
  let size := if stacksize =? 0 then default_size else u32 stacksize in
  let e := if return_to_mainFiber then MainFiberFunc_entry else SchedulerFiberFunc_entry in
  SetThreadCurrentFiber (Some this);;
  set_fiber this (mkFiber (s_fiber_id w) size INIT (Fresh e) true cb);;
  set_counts (u64 (s_fiber_id w + 1)) (u64 (s_fiber_count w + 1)).

(** [src/src/fiber.cc:94-116 Fiber::~Fiber] *)
Definition Fiber_dtor (this : nat) : M thread unit :=
  w ← get;
  set_counts (s_fiber_id w) (u64 (s_fiber_count w - 1));;
  '(_, f) ← fiber_at (Some this);
  (if m_stack f then
     sylar_assert (bool_decide (m_state f = TERM \/ m_state f = INIT \/ m_state f = EXCEPT))
   else
     sylar_assert (bool_decide (m_cb f = None));;
     sylar_assert (bool_decide (m_state f = EXEC));;
     if decide (t_thread_current_fiber w = Some this) then SetThreadCurrentFiber None
     else mret ());;
  SetThreadCurrentFiber (Some this);;
  free_fiber this.

(** [src/src/fiber.cc:118-133 Fiber::reset] *)
Definition reset (this : nat) (cb : option C) : M thread unit :=
  '(_, f) ← fiber_at (Some this);
  sylar_assert (m_stack f);;
  sylar_assert (bool_decide (m_state f = TERM \/ m_state f = EXCEPT \/ m_state f = INIT));;
  set_fiber this (mkFiber (m_id f) (m_stacksize f) INIT (Fresh SchedulerFiberFunc_entry)
                    (m_stack f) cb).

(** [src/src/fiber.cc:135-142 Fiber::call] *)
Definition call (this : nat) : M thread unit :=
  SetThreadCurrentFiber (Some this);;
  '(_, f) ← fiber_at (Some this);
  set_fiber this (with_state EXEC f);;
  w ← get;
  swapcontext (t_thread_main_fiber w) (Some this).

(** [src/src/fiber.cc:144-150 Fiber::back] *)
Definition back (this : nat) : M thread unit :=
  w ← get;
  SetThreadCurrentFiber (t_thread_main_fiber w);;
  swapcontext (Some this) (t_thread_main_fiber w).

(** [src/src/fiber.cc:152-160 Fiber::swapIn] *)
Definition swapIn (this : nat) : M thread unit :=
  SetThreadCurrentFiber (Some this);;
  '(_, f) ← fiber_at (Some this);
  sylar_assert (bool_decide (m_state f <> EXEC));;
  set_fiber this (with_state EXEC f);;
  w ← get;
  swapcontext (t_sched_fiber w) (Some this).

(** [src/src/fiber.cc:162-168 Fiber::swapOut] *)
Definition swapOut (this : nat) : M thread unit :=
  w ← get;
  SetThreadCurrentFiber (t_sched_fiber w);;
  swapcontext (Some this) (t_sched_fiber w).

(** [src/src/fiber.cc:172-181 Fiber::GetCurrentFiber]
    [fresh] is where a root fiber would be allocated. *)
Definition GetCurrentFiber (fresh : nat) : M thread nat :=
  w ← get;
  match t_thread_current_fiber w with
  | Some _ => '(a, _) ← fiber_at (t_thread_current_fiber w); mret a
  | None =>
      Fiber_root fresh;;
      w' ← get;
      sylar_assert (bool_decide (t_thread_current_fiber w' = Some fresh));;
      set_main (Some fresh);;
      '(a, _) ← fiber_at (t_thread_current_fiber w'); mret a
  end.

(** [src/src/fiber.cc:183-189 Fiber::YieldToReady] *)
Definition YieldToReady (fresh : nat) : M thread unit :=
  cur ← GetCurrentFiber fresh;
  '(_, f) ← fiber_at (Some cur);
  sylar_assert (bool_decide (m_state f = EXEC));;
  set_fiber cur (with_state READY f);;
  swapOut cur.

(** [src/src/fiber.cc:191-197 Fiber::YieldToHold] *)
Definition YieldToHold (fresh : nat) : M thread unit :=
  cur ← GetCurrentFiber fresh;
  '(_, f) ← fiber_at (Some cur);
  sylar_assert (bool_decide (m_state f = EXEC));;
  swapOut cur.

(** [src/src/fiber.cc:199-199 Fiber::TotalFibers] *)
Definition TotalFibers (w : thread) : Z := s_fiber_count w.

(** How the function of a fiber ends. *)
Inductive completion := Returns | Throws.

(** The common end of the two entry functions, once the callback of [cur] is
    over ([cur] is the local taken at entry): record how it ended and switch
    away with [leave].  Calling an empty function throws. *)
Definition fiber_end (leave : nat -> M thread unit) (cur : nat) (how : completion) : M thread unit :=
  '(_, f) ← fiber_at (Some cur);
  let how := match m_cb f with Some _ => how | None => Throws end in
  match how with
  | Returns => set_fiber cur (with_state TERM (with_cb None f))
  | Throws => set_fiber cur (with_state EXCEPT f)
  end;;
  leave cur.

(** [src/src/fiber.cc:201-228 Fiber::SchedulerFiberFunc]
    A callback that runs to its end without switching. *)
Definition SchedulerFiberFunc (fresh : nat) (how : completion) : M thread unit :=
  cur ← GetCurrentFiber fresh; fiber_end swapOut cur how.

(** [src/src/fiber.cc:230-256 Fiber::MainFiberFunc] *)
Definition MainFiberFunc (fresh : nat) (how : completion) : M thread unit :=
  cur ← GetCurrentFiber fresh; fiber_end back cur how.

(** [src/src/fiber.cc:258-265 Fiber::GetFiberId] *)
Definition GetFiberId : M thread Z :=
  w ← get;
  match t_thread_current_fiber w with
  | Some _ => '(_, f) ← fiber_at (t_thread_current_fiber w); mret (m_id f)
  | None => mret 0
  end.

(** ** Running a fiber

    What a fiber does from being resumed to leaving the CPU. *)
Inductive segment := SegReady | SegHold | SegEnd (how : completion).

Definition run_segment (fresh this : nat) (seg : segment) : M thread unit :=
  match seg with
  | SegReady => YieldToReady fresh
  | SegHold => YieldToHold fresh
  | SegEnd how => fiber_end swapOut this how
  end.

(** The state [seg] leaves the fiber in. *)
Definition segment_state (f : Fiber) (seg : segment) : State :=
  match seg with
  | SegReady => READY
  | SegHold => EXEC
  | SegEnd how => match m_cb f, how with Some _, Returns => TERM | _, _ => EXCEPT end
  end.

(** The scheduling fiber [s] is on the CPU, the thread knows it, and every
    other fiber, if it was suspended, was suspended in its own context. *)
Record scheduling (s : nat) (w : thread) : Prop := {
  sch_sched : t_sched_fiber w = Some s;
  sch_current : t_thread_current_fiber w = Some s;
  sch_running : running w = Some s;
  sch_live : is_Some (fibers w !! s);
  sch_ctx a f : fibers w !! a = Some f -> a <> s ->
    (exists e, m_ctx f = Fresh e) \/ m_ctx f = Resume (Some a)
}.
End Fibers.

Arguments Fiber C : clear implicits.
Arguments thread C : clear implicits.

Section FiberTheorems.
Context {C : Type}.
Implicit Types (w : thread C) (f : Fiber C).

Ltac fstep := unfold swapIn, swapOut, YieldToReady, YieldToHold, GetCurrentFiber, swapcontext,
  fiber_end, set_fiber, set_running, SetThreadCurrentFiber, fiber_at in *; mstep;
  cbn [fibers s_fiber_id s_fiber_count t_thread_current_fiber t_thread_main_fiber t_sched_fiber running
       m_state m_ctx m_cb m_stack with_state with_ctx with_cb] in *.

(** [swapIn]: the fiber is on the CPU and current, its state is [EXEC], and
    the scheduling fiber is suspended in its own context. *)
Lemma swapIn_runs s a w f fs :
  scheduling s w -> a <> s -> fibers w !! a = Some f -> fibers w !! s = Some fs -> m_state f <> EXEC ->
  swapIn a w = (Ok tt, mkThread
    (<[s := with_ctx (Resume (Some s)) fs]> (<[a := with_state EXEC f]> (fibers w)))
    (s_fiber_id w) (s_fiber_count w) (Some a) (t_thread_main_fiber w) (Some s) (Some a)).
Proof.
  intros [Hsc Hcur Hrun Hlive Hctx] Hne Ha Hs Hst. fstep. rewrite Ha.
  rewrite bool_decide_eq_true_2 by done. cbn. rewrite Hsc.
  rewrite lookup_insert_ne, Hs by done. cbn.
  rewrite lookup_insert_ne, lookup_insert_eq by done. cbn.
  destruct (Hctx a f Ha Hne) as [[e ->]| ->]; rewrite Hrun; done.
Qed.

(** [swapOut] by the fiber on the CPU resumes the suspended scheduling fiber. *)
Lemma swapOut_returns s a w f fs :
  a <> s -> t_sched_fiber w = Some s -> running w = Some a ->
  fibers w !! a = Some f -> fibers w !! s = Some fs -> m_ctx fs = Resume (Some s) ->
  swapOut a w = (Ok tt, mkThread (<[a := with_ctx (Resume (Some a)) f]> (fibers w))
    (s_fiber_id w) (s_fiber_count w) (Some s) (t_thread_main_fiber w) (Some s) (Some s)).
Proof.
  intros Hne Hsc Hrun Ha Hs Hctx. fstep. rewrite Ha, Hsc. cbn.
  rewrite lookup_insert_ne, Hs by done. cbn. rewrite Hctx, Hrun. done.
Qed.

(** [swapOut] right after an assignment to a field of the running fiber. *)
Lemma swapOut_put s a g fs w :
  a <> s -> t_sched_fiber w = Some s -> running w = Some a ->
  fibers w !! s = Some fs -> m_ctx fs = Resume (Some s) ->
  swapOut a (mkThread (<[a := g]> (fibers w)) (s_fiber_id w) (s_fiber_count w)
    (t_thread_current_fiber w) (t_thread_main_fiber w) (t_sched_fiber w) (running w))
  = (Ok tt, mkThread (<[a := with_ctx (Resume (Some a)) g]> (fibers w))
      (s_fiber_id w) (s_fiber_count w) (Some s) (t_thread_main_fiber w) (Some s) (Some s)).
Proof.
  intros Hne Hsc Hrun Hs Hctx. rewrite (swapOut_returns s a _ g fs); cbn; try done.
  - by rewrite insert_insert_eq.
  - by rewrite lookup_insert_eq.
  - by rewrite lookup_insert_ne.
Qed.

Lemma segment_returns s a w f fs fresh seg :
  a <> s -> t_sched_fiber w = Some s -> t_thread_current_fiber w = Some a -> running w = Some a ->
  fibers w !! a = Some f -> m_state f = EXEC -> fibers w !! s = Some fs -> m_ctx fs = Resume (Some s) ->
  exists f', run_segment fresh a seg w = (Ok tt, mkThread (<[a := f']> (fibers w))
    (s_fiber_id w) (s_fiber_count w) (Some s) (t_thread_main_fiber w) (Some s) (Some s))
    /\ m_state f' = segment_state f seg /\ m_ctx f' = Resume (Some a).
Proof.
  intros Hne Hsc Hcur Hrun Ha Hst Hs Hctx. destruct seg as [| |how]; cbn [run_segment segment_state].
  - unfold YieldToReady, GetCurrentFiber, set_fiber, fiber_at. mstep. rewrite Hcur, Ha. cbn. rewrite Ha.
    rewrite bool_decide_eq_true_2 by done. cbn -[swapOut].
    rewrite (swapOut_put s a _ fs) by done. by eexists.
  - unfold YieldToHold, GetCurrentFiber, fiber_at. mstep. rewrite Hcur, Ha. cbn. rewrite Ha.
    rewrite bool_decide_eq_true_2 by done. cbn -[swapOut].
    erewrite (swapOut_returns s a _ f fs); try done. eexists. split; [done|]. done.
  - unfold fiber_end, set_fiber, fiber_at. mstep. rewrite Ha.
    destruct (m_cb f), how; cbn -[swapOut]; rewrite (swapOut_put s a _ fs) by done; by eexists.
Qed.

(** ** Properties *)

(** Switching to a fiber and back. When the scheduling fiber swaps in a
    fiber that is not executing, that fiber runs as the thread's current fiber
    in state [EXEC], and whether it then yields to ready, yields to hold, or its
    function ends, control comes back to the scheduling fiber, which is again
    current and on the CPU; the fiber is left in the state its end calls for
    (still [EXEC] after [YieldToHold]) with its own code suspended in its own
    context, and every other fiber is as it was. *)
Theorem swap_roundtrip s a f fresh seg w :
  scheduling s w -> a <> s -> fibers w !! a = Some f -> m_state f <> EXEC ->
  exists w1 w2, swapIn a w = (Ok tt, w1) /\ t_thread_current_fiber w1 = Some a /\ running w1 = Some a
    /\ run_segment fresh a seg w1 = (Ok tt, w2) /\ scheduling s w2
    /\ (m_state <$> fibers w2 !! a) = Some (segment_state f seg)
    /\ (forall b, b <> a -> b <> s -> fibers w2 !! b = fibers w !! b)
    /\ (m_state <$> fibers w2 !! s) = (m_state <$> fibers w !! s).
Proof.
  intros Hw Hne Ha Hst. pose proof Hw as [Hsc Hcur Hrun [fs Hs] Hctx].
  rewrite (swapIn_runs s a w f fs) by done. eexists _.
  set (w1 := mkThread _ _ _ _ _ _ _).
  destruct (segment_returns s a w1 (with_state EXEC f) (with_ctx (Resume (Some s)) fs) fresh seg)
    as (f' & Hseg & Hst' & Hctx'); try done.
  { cbn. by rewrite lookup_insert_ne, lookup_insert_eq. }
  { cbn. by rewrite lookup_insert_eq. }
  eexists. split; [reflexivity|]. split; [done|]. split; [done|]. split; [exact Hseg|].
  cbn [fibers w1]. split_and!.
  - constructor; cbn [t_sched_fiber t_thread_current_fiber running fibers]; try done.
    + rewrite lookup_insert_ne, lookup_insert_eq by done. by eexists.
    + intros b g Hb Hbs. destruct (decide (a = b)) as [->|Hab].
      * rewrite lookup_insert_eq in Hb. injection Hb as <-. by right.
      * rewrite lookup_insert_ne in Hb by done. rewrite lookup_insert_ne in Hb by done.
        rewrite lookup_insert_ne in Hb by done. by apply Hctx.
  - cbn. rewrite lookup_insert_eq. cbn. by rewrite Hst'.
  - intros b Hba Hbs. cbn. by rewrite !lookup_insert_ne by done.
  - cbn. by rewrite lookup_insert_ne, lookup_insert_eq, Hs by done.
Qed.

(** Constructing a [Fiber] makes it the thread's current fiber although
    it does not run: a fiber that creates another one and then yields to hold
    (or to ready) fails the assertion in the yield. *)
Theorem construct_then_yield size a f b cb ss r fresh w :
  t_thread_current_fiber w = Some a -> fibers w !! a = Some f -> m_state f = EXEC ->
  running w = Some a -> fibers w !! b = None ->
  exists w1, Fiber_new size b cb ss r w = (Ok tt, w1) /\ running w1 = Some a
    /\ fst (YieldToHold fresh w1) = Err AssertFail /\ fst (YieldToReady fresh w1) = Err AssertFail.
Proof.
  intros Hcur Ha Hst Hrun Hb.
  unfold Fiber_new, SetThreadCurrentFiber, set_fiber, set_counts. mstep.
  eexists. split; [reflexivity|]. cbn. split; [done|].
  unfold YieldToHold, YieldToReady, GetCurrentFiber, fiber_at. mstep. cbn.
  rewrite lookup_insert_eq. cbn. rewrite lookup_insert_eq. done.
Qed.

(** Destroying a fiber leaves the thread's current-fiber pointer on the
    freed object, whatever was current before: the next [GetFiberId] (every log
    line calls it) uses freed memory. *)
Theorem destroyed_fiber_dangles a f w :
  fibers w !! a = Some f -> m_stack f = true -> m_state f = TERM ->
  exists w1, Fiber_dtor a w = (Ok tt, w1) /\ t_thread_current_fiber w1 = Some a
    /\ fibers w1 !! a = None /\ fst (GetFiberId w1) = Err (Undef use_after_free).
Proof.
  intros Ha Hst Ht. unfold Fiber_dtor, fiber_at, set_counts, SetThreadCurrentFiber, free_fiber. mstep.
  cbn. rewrite Ha, Hst, Ht. rewrite bool_decide_eq_true_2 by (by left).
  eexists. split; [reflexivity|]. cbn. split; [done|].
  split; [apply lookup_delete_eq|]. unfold GetFiberId, fiber_at. mstep. cbn.
  by rewrite lookup_delete_eq.
Qed.
End FiberTheorems.

(** A worker thread after [GetCurrentFiber] and [t_thread_main_fiber = ...] of
    [Scheduler::run], with two fibers. *)
Definition demo_thread : thread nat :=
  mkThread {[ 0%nat := mkFiber 0 0 EXEC Uninit false None;
              1%nat := mkFiber 1 1024 INIT (Fresh SchedulerFiberFunc_entry) true (Some 7%nat);
              2%nat := mkFiber 2 1024 TERM (Resume (Some 2%nat)) true None ]}
    3 3 (Some 0%nat) (Some 0%nat) (Some 0%nat) (Some 0%nat).

Lemma demo_scheduling : scheduling 0 demo_thread.
Proof.
  constructor; try done.
  intros a f Ha Hne. unfold demo_thread in Ha. cbn in Ha.
  rewrite lookup_insert_ne in Ha by done.
  apply lookup_insert_Some in Ha as [[<- <-]|[_ Ha]]; [left; by eexists|].
  apply lookup_singleton_Some in Ha as [<- <-]. by right.
Qed.

Lemma swap_roundtrip_witness :
  exists w1 w2, swapIn 1 demo_thread = (Ok tt, w1) /\ t_thread_current_fiber w1 = Some 1%nat
    /\ running w1 = Some 1%nat
    /\ run_segment 9 1 SegHold w1 = (Ok tt, w2) /\ scheduling 0 w2
    /\ (m_state <$> fibers w2 !! 1%nat) = Some EXEC
    /\ (forall b, b <> 1%nat -> b <> 0%nat -> fibers w2 !! b = fibers demo_thread !! b)
    /\ (m_state <$> fibers w2 !! 0%nat) = (m_state <$> fibers demo_thread !! 0%nat).
Proof.
  apply (swap_roundtrip 0 1 (mkFiber 1 1024 INIT (Fresh SchedulerFiberFunc_entry) true (Some 7%nat))
           9 SegHold demo_thread); [exact demo_scheduling|lia|reflexivity|discriminate].
Defined.

Lemma construct_then_yield_witness :
  exists w1, Fiber_new 1024 5 (Some 8%nat) 0 false (snd (swapIn 1 demo_thread)) = (Ok tt, w1)
    /\ running w1 = Some 1%nat /\ fst (YieldToHold 9 w1) = Err AssertFail
    /\ fst (YieldToReady 9 w1) = Err AssertFail.
Proof.
  apply (construct_then_yield 1024 1
    (mkFiber 1 1024 EXEC (Fresh SchedulerFiberFunc_entry) true (Some 7%nat)) 5 (Some 8%nat) 0 false 9
    (snd (swapIn 1 demo_thread))); vm_compute; reflexivity.
Defined.

Lemma destroyed_fiber_dangles_witness :
  exists w1, Fiber_dtor 2 demo_thread = (Ok tt, w1) /\ t_thread_current_fiber w1 = Some 2%nat
    /\ fibers w1 !! 2%nat = None /\ fst (GetFiberId w1) = Err (Undef use_after_free).
Proof.
  apply (destroyed_fiber_dangles 2 (mkFiber 2 1024 TERM (Resume (Some 2%nat)) true None) demo_thread);
    vm_compute; reflexivity.
Defined.
