(* ===== verification/Scheduler.v ===== *)
(** * The scheduler ([src/src/scheduler.cc], [include/sylar/scheduler.hh])

    The task queue, the counters and flags of [Scheduler], and the loop of
    [Scheduler::run] as a step relation: a step is one thread's work between two
    points at which other threads can interfere (a section under [m_mutex], an
    update of an atomic counter, an assignment to the state of a fiber).  A
    fiber's own code appears as the steps that can end its time on the CPU.
    Fibers are named by the address of their object. *)
From S2P Require Import Prelude Fiber.

Section Schedulers.
Context {C : Type}.

(** [src/include/sylar/scheduler.hh:166-218 Scheduler::FiberAndThread] *)
Record FiberAndThread := mkFT { ft_thread : Z; ft_fiber : option nat; ft_cb : option C }.

(** [src/include/sylar/scheduler.hh:176-176 FiberAndThread::FiberAndThread] *)
Definition FT_fiber (f : option nat) (thr : Z) : FiberAndThread := mkFT thr f None.

(** [src/include/sylar/scheduler.hh:184-184 FiberAndThread::FiberAndThread]
    The pointer is swapped out: the second component is what is left of it. *)
Definition FT_fiber_ptr (f : option nat) (thr : Z) : FiberAndThread * option nat :=
  (mkFT thr f None, None).

(** [src/include/sylar/scheduler.hh:191-191 FiberAndThread::FiberAndThread] *)
Definition FT_cb (f : option C) (thr : Z) : FiberAndThread := mkFT thr None f.

(** [src/include/sylar/scheduler.hh:199-202 FiberAndThread::FiberAndThread] *)
Definition FT_cb_ptr (f : option C) (thr : Z) : FiberAndThread * option C :=
  (mkFT thr None f, None).

(** [src/include/sylar/scheduler.hh:212-217 FiberAndThread::reset] *)
Definition FT_reset : FiberAndThread := mkFT (-1) None None.

(** Where a thread is in [Scheduler::run]. *)
Inductive pc :=
| Top                                    (* before the locked section *)
| Got (ft : FiberAndThread)              (* holds a task, counted as active *)
| Exec (f : nat) (from_cb : bool)        (* inside [swapIn]: [f] is on the CPU *)
| Back (f : nat) (from_cb : bool)        (* [swapIn] has returned *)
| Fix (f : nat) (from_cb : bool)         (* no longer counted as active *)
| NoTask                                 (* found nothing to do *)
| Idling                                 (* the idle fiber is on the CPU *)
| Exited.

(** [src/src/scheduler.cc:153-158 Scheduler::run]
    The locals of [run]. *)
Record local := mkLocal {
  l_tid : Z;
  l_pc : pc;
  l_cb_fiber : option nat;
  l_idle_term : bool
}.

(** [src/include/sylar/scheduler.hh:108-115 Scheduler]
    With the queue of line 222, the states of all fibers, the threads, and the
    number of calls of the virtual [tickle]. *)
Record Scheduler := mkScheduler {
  m_fibers : list FiberAndThread;
  m_activeThreadCount : Z;
  m_idleThreadCount : Z;
  m_stopping : bool;
  m_autoStop : bool;
  states : gmap nat State;
  threads : list local;
  tickles : nat
}.

Definition set_queue q s := mkScheduler q (m_activeThreadCount s) (m_idleThreadCount s)
  (m_stopping s) (m_autoStop s) (states s) (threads s) (tickles s).
Definition set_active n s := mkScheduler (m_fibers s) n (m_idleThreadCount s)
  (m_stopping s) (m_autoStop s) (states s) (threads s) (tickles s).
Definition set_idle n s := mkScheduler (m_fibers s) (m_activeThreadCount s) n
  (m_stopping s) (m_autoStop s) (states s) (threads s) (tickles s).
Definition set_stop b s := mkScheduler (m_fibers s) (m_activeThreadCount s) (m_idleThreadCount s)
  b b (states s) (threads s) (tickles s).
Definition set_fstate f st s := mkScheduler (m_fibers s) (m_activeThreadCount s) (m_idleThreadCount s)
  (m_stopping s) (m_autoStop s) (<[f := st]> (states s)) (threads s) (tickles s).
Definition set_thread i l s := mkScheduler (m_fibers s) (m_activeThreadCount s) (m_idleThreadCount s)
  (m_stopping s) (m_autoStop s) (states s) (<[i := l]> (threads s)) (tickles s).
Definition tickle s := mkScheduler (m_fibers s) (m_activeThreadCount s) (m_idleThreadCount s)
  (m_stopping s) (m_autoStop s) (states s) (threads s) (S (tickles s)).

Definition at_pc (p : pc) (l : local) : local := mkLocal (l_tid l) p (l_cb_fiber l) (l_idle_term l).

(** [src/include/sylar/scheduler.hh:151-161 Scheduler::scheduleNoLock] *)
Definition scheduleNoLock (ft : FiberAndThread) (s : Scheduler) : bool * Scheduler :=
  let need_tickle := match m_fibers s with [] => true | _ => false end in
  (need_tickle,
   match ft_fiber ft, ft_cb ft with
   | None, None => s
   | _, _ => set_queue (m_fibers s ++ [ft]) s
   end).

(** [src/include/sylar/scheduler.hh:71-83 Scheduler::schedule] *)
Definition schedule (ft : FiberAndThread) (s : Scheduler) : Scheduler :=
  let '(need_tickle, s) := scheduleNoLock ft s in if need_tickle then tickle s else s.

(** [src/include/sylar/scheduler.hh:94-100 Scheduler::schedule]
    The loop over the range. *)
Fixpoint schedule_loop (fts : list FiberAndThread) (need_tickle : bool) (s : Scheduler)
    : bool * Scheduler :=
  match fts with
  | [] => (need_tickle, s)
  | ft :: fts =>
      let '(b, s) := scheduleNoLock ft s in schedule_loop fts (b || need_tickle) s
  end.

(** [src/include/sylar/scheduler.hh:90-105 Scheduler::schedule] *)
Definition schedule_range (fts : list FiberAndThread) (s : Scheduler) : Scheduler :=
  let '(need_tickle, s) := schedule_loop fts false s in if need_tickle then tickle s else s.

(** The state of a fiber ([INIT] for a new one). *)
Definition state_of (s : gmap nat State) (f : nat) : State := default INIT (s !! f).

(** [src/src/scheduler.cc:171-194 Scheduler::run]
    The search for a task: [seen] is what has been skipped. *)
Fixpoint pick_loop (tid : Z) (st : gmap nat State) (seen l : list FiberAndThread) (tickle_me : bool)
    : result (bool * option FiberAndThread * list FiberAndThread) :=
  match l with
  | [] => Ok (tickle_me, None, seen)
  | ft :: l =>
      if negb (ft_thread ft =? -1) && negb (ft_thread ft =? tid)
      then pick_loop tid st (seen ++ [ft]) l true
      else match ft_fiber ft, ft_cb ft with
           | None, None => Err AssertFail
           | Some f, _ =>
               if decide (state_of st f = EXEC) then pick_loop tid st (seen ++ [ft]) l tickle_me
               else Ok (tickle_me, Some ft, seen ++ l)
           | None, Some _ => Ok (tickle_me, Some ft, seen ++ l)
           end
  end.

(** [src/src/scheduler.cc:277-283 Scheduler::stopping] *)
Definition stopping (s : Scheduler) : bool :=
  m_autoStop s && m_stopping s && match m_fibers s with [] => true | _ => false end
  && (m_activeThreadCount s =? 0).

(** [src/src/scheduler.cc:161-200 Scheduler::run]
    The locked section and the tickle after it, by thread [i]. *)
Definition run_pick (i : nat) (l : local) (s : Scheduler) : result Scheduler :=
  match pick_loop (l_tid l) (states s) [] (m_fibers s) false with
  | Err e => Err e
  | Ok (tickle_me, o, q) =>
      let s := if tickle_me then tickle s else s in
      match o with
      | Some ft => Ok (set_thread i (at_pc (Got ft) l)
                        (set_active (u64 (m_activeThreadCount s + 1)) (set_queue q s)))
      | None => Ok (set_thread i (at_pc NoTask l) (set_queue q s))
      end
  end.

(** [src/src/scheduler.cc:205-257 Scheduler::run]
    Starting the task taken: swap in its fiber, or a fiber for its callback
    (a new one at [fresh], or the thread's one reset), or nothing when the fiber
    is over. *)
Definition run_start (fresh : nat) (i : nat) (l : local) (ft : FiberAndThread) (s : Scheduler)
    : result Scheduler :=
  let dead := match ft_fiber ft with
              | Some f => bool_decide (state_of (states s) f = TERM \/ state_of (states s) f = EXCEPT)
              | None => true
              end in
  match ft_fiber ft, dead, ft_cb ft with
  | Some f, false, _ =>
      if decide (state_of (states s) f = EXEC) then Err AssertFail
      else Ok (set_thread i (at_pc (Exec f false) l) (set_fstate f EXEC s))
  | _, _, Some _ =>
      match l_cb_fiber l with
      | Some c =>
          if bool_decide (state_of (states s) c = TERM \/ state_of (states s) c = EXCEPT
                          \/ state_of (states s) c = INIT)
          then Ok (set_thread i (at_pc (Exec c true) l) (set_fstate c EXEC s))
          else Err AssertFail
      | None => Ok (set_thread i (mkLocal (l_tid l) (Exec fresh true) (Some fresh) (l_idle_term l))
                     (set_fstate fresh EXEC s))
      end
  | _, _, None =>
      Ok (set_thread i (at_pc Top l) (set_active (u64 (m_activeThreadCount s - 1)) s))
  end.

(** [src/src/scheduler.cc:212-252 Scheduler::run]
    After [swapIn] and the decrement: reschedule, put on hold, or recycle. *)
Definition run_fix (i : nat) (l : local) (f : nat) (from_cb : bool) (s : Scheduler) : Scheduler :=
  let keep := at_pc Top l in
  let drop_ := mkLocal (l_tid l) Top (if from_cb then None else l_cb_fiber l) (l_idle_term l) in
  match state_of (states s) f with
  | READY => set_thread i drop_ (schedule (FT_fiber (Some f) (-1)) s)
  | TERM | EXCEPT =>
      if from_cb then set_thread i keep (set_fstate f INIT s) else set_thread i keep s
  | _ => set_thread i drop_ (set_fstate f HOLD s)
  end.

(** [src/src/scheduler.cc:258-271 Scheduler::run]
    Nothing to do: leave the loop, or swap in the idle fiber. *)
Definition run_idle (i : nat) (l : local) (s : Scheduler) : Scheduler :=
  if l_idle_term l then set_thread i (at_pc Exited l) s
  else set_thread i (at_pc Idling l) (set_idle (u64 (m_idleThreadCount s + 1)) s).

(** [src/src/scheduler.cc:285-292 Scheduler::idle]
    One round of the idle fiber and the return to the loop: it ends when the
    scheduler can stop, otherwise it yields to hold. *)
Definition idle_round (i : nat) (l : local) (s : Scheduler) : Scheduler :=
  set_thread i (mkLocal (l_tid l) Top (l_cb_fiber l) (stopping s))
    (set_idle (u64 (m_idleThreadCount s - 1)) s).

(** [src/src/scheduler.cc:15-42 Scheduler::Scheduler]
    With the threads [tids] that [start] creates (and the caller's when it
    takes part). *)
Definition Scheduler_new (tids : list Z) : Scheduler :=
  mkScheduler [] 0 0 true false ∅ ((fun t => mkLocal t Top None false) <$> tids) 0.

(** [src/src/scheduler.cc:59-81 Scheduler::start]
    [started] is whether [m_threads] already has threads. *)
Definition start (started : bool) (s : Scheduler) : result Scheduler :=
  if negb (m_stopping s) then Ok s
  else if started then Err AssertFail
  else Ok (mkScheduler (m_fibers s) (m_activeThreadCount s) (m_idleThreadCount s) false (m_autoStop s)
             (states s) (threads s) (tickles s)).

Fixpoint tickle_n (n : nat) (s : Scheduler) : Scheduler :=
  match n with O => s | S n => tickle_n n (tickle s) end.

(** [src/src/scheduler.cc:83-133 Scheduler::stop]
    [root] is the state of the root fiber, when the caller's thread takes part;
    [caller_is] whether the calling thread's scheduler is this one.  The result
    says whether the root fiber is called; joining the threads follows. *)
Definition stop (root : option State) (m_threadCount : nat) (caller_is : bool) (s : Scheduler)
    : result (bool * Scheduler) :=
  let s := mkScheduler (m_fibers s) (m_activeThreadCount s) (m_idleThreadCount s) (m_stopping s) true
             (states s) (threads s) (tickles s) in
  let early := bool_decide (root = Some TERM \/ root = Some INIT) && (m_threadCount =? 0)%nat in
  let s := if early then set_stop true s else s in
  if early && stopping s then Ok (false, s) else
  if negb (Bool.eqb (bool_decide (is_Some root)) caller_is) then Err AssertFail else
  let s := tickle_n m_threadCount (set_stop true s) in
  match root with
  | None => Ok (false, s)
  | Some _ => let s := tickle s in Ok (negb (stopping s), s)
  end.
End Schedulers.

Arguments FiberAndThread C : clear implicits.
Arguments pc C : clear implicits.
Arguments local C : clear implicits.
Arguments Scheduler C : clear implicits.
