(* ===== verification/SchedulerSpec.v ===== *)
(** * Correctness of the scheduler

    All interleavings of the threads of a scheduler and of the code that
    schedules work on it: the counters are exact, no task is lost or run twice,
    workers leave only after [stop], and, when a fiber is scheduled at most once
    at a time, no fiber is ever on two CPUs and no assertion of the loop fails. *)
From S2P Require Import Prelude Fiber Scheduler.

Section SchedulerSpec.
Context {C : Type}.
Implicit Types (s : Scheduler C) (l : local C) (ls : list (local C)) (q : list (FiberAndThread C))
  (st : gmap nat State).

(** What a step does that others may rely on. *)
Inductive label :=
| LTau
| LTake (ft : FiberAndThread C)
| LYieldReady (f : nat)
| LEnd (f : nat)
| LResched (ft : FiberAndThread C)
| LSchedule (ft : FiberAndThread C).

(** What the locked section took, and what [run_fix] puts back. *)
Definition take_label (o : option (local C)) : label :=
  match o with Some l => match l_pc l with Got ft => LTake ft | _ => LTau end | None => LTau end.
Definition fix_label st (f : nat) : label :=
  if decide (state_of st f = READY) then LResched (FT_fiber (Some f) (-1)) else LTau.

(** The interleaving semantics. *)
Inductive step : Scheduler C -> label -> Scheduler C -> Prop :=
| step_pick i l s s' :
    threads s !! i = Some l -> l_pc l = Top -> run_pick i l s = Ok s' ->
    step s (take_label (threads s' !! i)) s'
| step_start fresh i l ft s s' :
    threads s !! i = Some l -> l_pc l = Got ft -> states s !! fresh = None ->
    run_start fresh i l ft s = Ok s' -> step s LTau s'
| step_yield_ready i l f b s :
    threads s !! i = Some l -> l_pc l = Exec f b ->
    step s (LYieldReady f) (set_thread i (at_pc (Back f b) l) (set_fstate f READY s))
| step_yield_hold i l f b s :
    threads s !! i = Some l -> l_pc l = Exec f b ->
    step s LTau (set_thread i (at_pc (Back f b) l) s)
| step_end i l f b how s :
    threads s !! i = Some l -> l_pc l = Exec f b -> how = TERM \/ how = EXCEPT ->
    step s (LEnd f) (set_thread i (at_pc (Back f b) l) (set_fstate f how s))
| step_back i l f b s :
    threads s !! i = Some l -> l_pc l = Back f b ->
    step s LTau (set_thread i (at_pc (Fix f b) l) (set_active (u64 (m_activeThreadCount s - 1)) s))
| step_fix i l f b s :
    threads s !! i = Some l -> l_pc l = Fix f b ->
    step s (fix_label (states s) f) (run_fix i l f b s)
| step_idle i l s :
    threads s !! i = Some l -> l_pc l = NoTask -> step s LTau (run_idle i l s)
| step_idle_round i l s :
    threads s !! i = Some l -> l_pc l = Idling -> step s LTau (idle_round i l s)
| step_new_fiber f s :
    states s !! f = None -> step s LTau (set_fstate f INIT s)
| step_schedule ft s :
    (forall f, ft_fiber ft = Some f -> is_Some (states s !! f)) ->
    ft_fiber ft <> None \/ ft_cb ft <> None ->
    step s (LSchedule ft) (schedule ft s)
| step_stop s : step s LTau (set_stop true s).

(** Executions with the tasks scheduled and the tasks taken so far. *)
Inductive reach (s0 : Scheduler C) : list (FiberAndThread C) -> list (FiberAndThread C) -> Scheduler C -> Prop :=
| reach_refl : reach s0 [] [] s0
| reach_step sched taken s lab s' :
    reach s0 sched taken s -> step s lab s' ->
    reach s0 (match lab with LSchedule ft | LResched ft => ft :: sched | _ => sched end)
             (match lab with LTake ft => ft :: taken | _ => taken end) s'.

(** ** Counters *)

(** A thread has a task at hand from taking it until it has decided what becomes of
    the fiber: put it back into the queue, on hold, or end it.  It is counted only
    until [--m_activeThreadCount], which comes before that decision. *)
Definition is_active l : bool :=
  match l_pc l with Got _ | Exec _ _ | Back _ _ | Fix _ _ => true | _ => false end.
Definition is_counted l : bool :=
  match l_pc l with Got _ | Exec _ _ | Back _ _ => true | _ => false end.
Definition is_idle l : bool := match l_pc l with Idling => true | _ => false end.

Definition count (p : local C -> bool) ls : Z := Z.of_nat (length (filter (fun l => p l = true) ls)).

(** The counters count; threads that leave do so after [stop]. *)
Record counted s : Prop := {
  cnt_active : m_activeThreadCount s = count is_counted (threads s);
  cnt_idle : m_idleThreadCount s = count is_idle (threads s);
  cnt_few : Z.of_nat (length (threads s)) < 2 ^ 64;
  cnt_exit : Forall (fun l => l_idle_term l = true \/ l_pc l = Exited -> m_autoStop s = true /\ m_stopping s = true)
               (threads s)
}.

(** ** Exclusive execution *)

Definition queued q : list nat := omap ft_fiber q.
Definition got_of l : option nat := match l_pc l with Got ft => ft_fiber ft | _ => None end.
Definition own_of l : option nat :=
  match l_pc l with Exec f _ | Back f _ | Fix f _ => Some f | _ => None end.

(** The state of a fiber some thread has on its stack. *)
Definition own_ok q st l : Prop :=
  match l_pc l with
  | Exec f b => state_of st f = EXEC /\ (l_cb_fiber l = Some f <-> b = true)
  | Back f b | Fix f b =>
      (state_of st f = EXEC
       \/ ((state_of st f = READY \/ state_of st f = TERM \/ state_of st f = EXCEPT) /\ f ∉ queued q))
      /\ (l_cb_fiber l = Some f <-> b = true)
  | _ => True
  end.

(** The fiber a thread keeps for callbacks. *)
Definition cb_ok q ls st l : Prop :=
  forall c, l_cb_fiber l = Some c ->
    own_of l = Some c
    \/ (c ∉ queued q /\ c ∉ omap own_of ls
        /\ (state_of st c = INIT \/ state_of st c = TERM \/ state_of st c = EXCEPT)).

Record exclusive q ls st : Prop := {
  ex_pend : NoDup (queued q ++ omap got_of ls);
  ex_own : NoDup (omap own_of ls);
  ex_cb : NoDup (omap l_cb_fiber ls);
  ex_got f : f ∈ omap got_of ls -> f ∉ omap own_of ls /\ f ∉ omap l_cb_fiber ls /\ state_of st f <> EXEC;
  ex_ok : Forall (own_ok q st) ls;
  ex_cb_ok : Forall (cb_ok q ls st) ls;
  ex_known f : f ∈ queued q ++ omap got_of ls ++ omap own_of ls ++ omap l_cb_fiber ls -> is_Some (st !! f);
  ex_task : Forall (fun ft => ft_fiber ft <> None \/ ft_cb ft <> None) q
}.

(** The discipline on clients: a fiber is scheduled only when it is not already
    waiting for its turn, it is new, on hold or about to hold, and it is not
    the idle callback fiber of a thread; a fiber that yields to ready or ends has
    not been scheduled by someone else meanwhile. *)
Definition disciplined s (lab : label) : Prop :=
  match lab with
  | LYieldReady f | LEnd f => f ∉ queued (m_fibers s)
  | LSchedule ft =>
      forall f, ft_fiber ft = Some f ->
        f ∉ queued (m_fibers s) /\ f ∉ omap got_of (threads s)
        /\ (state_of (states s) f = EXEC
            \/ ((state_of (states s) f = INIT \/ state_of (states s) f = HOLD)
                /\ f ∉ omap l_cb_fiber (threads s)))
  | _ => True
  end.

Inductive dreach (s0 : Scheduler C) : Scheduler C -> Prop :=
| dreach_refl : dreach s0 s0
| dreach_step s lab s' : dreach s0 s -> step s lab s' -> disciplined s lab -> dreach s0 s'.

(** ** Lists of threads up to order *)

Lemma thread_insert ls i l :
  ls !! i = Some l -> exists R, ls ≡ₚ l :: R /\ forall l', <[i := l']> ls ≡ₚ l' :: R.
Proof.
  intros Hi. exists (delete i ls). split; [by apply delete_Permutation|]. intros l'.
  assert (i < length ls)%nat as Hlt by (by eapply lookup_lt_Some).
  rewrite insert_take_drop, delete_take_drop by done. by rewrite <-Permutation_middle.
Qed.

Lemma count_perm p ls ls' : ls ≡ₚ ls' -> count p ls = count p ls'.
Proof. intros Hp. unfold count. by rewrite Hp. Qed.

Lemma count_cons p l ls : count p (l :: ls) = (if p l then 1 else 0) + count p ls.
Proof.
  unfold count. rewrite filter_cons. destruct (p l); [|done].
  cbn [decide]. destruct (decide _); [cbn [length]; lia|done].
Qed.

Lemma count_nonneg p ls : 0 <= count p ls <= Z.of_nat (length ls).
Proof. unfold count. split; [lia|]. apply inj_le. apply length_filter. Qed.

(** Changing one thread changes the counts by that thread's share. *)
Lemma count_insert p ls i l l' :
  ls !! i = Some l ->
  count p (<[i := l']> ls) = count p ls - (if p l then 1 else 0) + (if p l' then 1 else 0).
Proof.
  intros Hi. destruct (thread_insert ls i l Hi) as (R & H1 & H2).
  rewrite (count_perm p _ _ H1), (count_perm p _ _ (H2 l')), !count_cons. lia.
Qed.

Lemma count_pos p ls i l : ls !! i = Some l -> p l = true -> 0 < count p ls.
Proof.
  intros Hi Hp. destruct (thread_insert ls i l Hi) as (R & H1 & _).
  rewrite (count_perm p _ _ H1), count_cons, Hp. pose proof (count_nonneg p R). lia.
Qed.

(** ** The search for a task *)

(** A task thread [tid] may run now. *)
Definition runnable (tid : Z) st (ft : FiberAndThread C) : bool :=
  ((ft_thread ft =? -1) || (ft_thread ft =? tid))
  && match ft_fiber ft with Some f => bool_decide (state_of st f <> EXEC) | None => true end.

Definition foreign (tid : Z) (ft : FiberAndThread C) : bool :=
  negb (ft_thread ft =? -1) && negb (ft_thread ft =? tid).

(** The first such task, with what is before and after it. *)
Fixpoint first_runnable (tid : Z) st q
    : option (list (FiberAndThread C) * FiberAndThread C * list (FiberAndThread C)) :=
  match q with
  | [] => None
  | ft :: q =>
      if runnable tid st ft then Some ([], ft, q)
      else match first_runnable tid st q with
           | Some (q1, ft', q2) => Some (ft :: q1, ft', q2)
           | None => None
           end
  end.

Lemma pick_loop_eq tid st seen q b :
  Forall (fun ft => ft_fiber ft <> None \/ ft_cb ft <> None) q ->
  pick_loop tid st seen q b
  = match first_runnable tid st q with
    | Some (q1, ft, q2) => Ok (b || existsb (foreign tid) q1, Some ft, seen ++ q1 ++ q2)
    | None => Ok (b || existsb (foreign tid) q, None, seen ++ q)
    end.
Proof.
  revert seen b. induction q as [|ft q IH]; intros seen b Hq.
  { cbn. by rewrite orb_false_r, app_nil_r. }
  apply Forall_cons in Hq as [Hft Hq]. cbn [pick_loop first_runnable].
  change (negb (ft_thread ft =? -1) && negb (ft_thread ft =? tid)) with (foreign tid ft).
  assert (runnable tid st ft = negb (foreign tid ft)
    && match ft_fiber ft with Some f => bool_decide (state_of st f <> EXEC) | None => true end) as ->.
  { unfold runnable, foreign. by rewrite negb_andb, !negb_involutive. }
  destruct (foreign tid ft) eqn:Hf; cbn [negb andb].
  - rewrite IH by done.
    destruct (first_runnable tid st q) as [[[q1 ft'] q2]|]; cbn [existsb]; rewrite Hf;
      rewrite <-!app_assoc; by rewrite !orb_true_r.
  - destruct (ft_fiber ft) as [f|] eqn:Eft.
    + destruct (decide (state_of st f = EXEC)) as [E|E].
      * rewrite bool_decide_eq_false_2 by tauto. rewrite IH by done.
        destruct (first_runnable tid st q) as [[[q1 ft'] q2]|]; cbn [existsb]; rewrite Hf;
          by rewrite <-!app_assoc.
      * rewrite bool_decide_eq_true_2 by done. cbn. by rewrite orb_false_r.
    + destruct (ft_cb ft); [|tauto]. cbn. by rewrite orb_false_r.
Qed.

Lemma first_runnable_spec tid st q q1 ft q2 :
  first_runnable tid st q = Some (q1, ft, q2) ->
  q = q1 ++ ft :: q2 /\ runnable tid st ft = true /\ Forall (fun ft => runnable tid st ft = false) q1.
Proof.
  revert q1. induction q as [|ft' q IH]; intros q1; cbn [first_runnable]; [done|].
  destruct (runnable tid st ft') eqn:Hr; [intros [= <- <- <-]; done|].
  destruct (first_runnable tid st q) as [[[p1 ft0] p2]|]; [|done]. intros [= <- <- <-].
  destruct (IH p1 eq_refl) as (-> & Hr' & Hall). split_and!; try done. by constructor.
Qed.

Lemma first_runnable_none tid st q :
  first_runnable tid st q = None -> Forall (fun ft => runnable tid st ft = false) q.
Proof.
  induction q as [|ft q IH]; cbn [first_runnable]; [by constructor|].
  destruct (runnable tid st ft) eqn:Hr; [done|].
  destruct (first_runnable tid st q) as [[[p1 ft0] p2]|]; [done|]. constructor; auto.
Qed.

(** Nothing is lost by the search. *)
Lemma pick_loop_perm tid st seen q b b' o q' :
  pick_loop tid st seen q b = Ok (b', o, q') ->
  seen ++ q ≡ₚ match o with Some ft => ft :: q' | None => q' end.
Proof.
  revert seen b. induction q as [|ft q IH]; intros seen b; cbn [pick_loop].
  { intros [= <- <- <-]. by rewrite app_nil_r. }
  assert (forall b, pick_loop tid st (seen ++ [ft]) q b = Ok (b', o, q') ->
    seen ++ ft :: q ≡ₚ match o with Some ft => ft :: q' | None => q' end) as Hskip.
  { intros b0 Hp%IH. by rewrite <-app_assoc in Hp. }
  destruct (negb _ && _); [by apply Hskip|].
  destruct (ft_fiber ft) as [f|]; [destruct (decide _); [by apply Hskip|]|destruct (ft_cb ft); [|done]];
    intros [= <- <- <-]; by rewrite Permutation_middle.
Qed.

(** ** The counters *)

Definition b2z (b : bool) : Z := if b then 1 else 0.

Lemma counted_upd i l l' s s' :
  counted s -> threads s !! i = Some l -> threads s' = <[i := l']> (threads s) ->
  m_activeThreadCount s' = u64 (m_activeThreadCount s - b2z (is_counted l) + b2z (is_counted l')) ->
  m_idleThreadCount s' = u64 (m_idleThreadCount s - b2z (is_idle l) + b2z (is_idle l')) ->
  m_autoStop s' = m_autoStop s -> m_stopping s' = m_stopping s ->
  (l_idle_term l' = true \/ l_pc l' = Exited ->
   l_idle_term l = true \/ l_pc l = Exited \/ (m_autoStop s = true /\ m_stopping s = true)) ->
  counted s'.
Proof.
  intros [Ha Hi Hf He] Hl Ht Ha' Hi' Hau Hst Hex.
  assert (length (<[i := l']> (threads s)) = length (threads s)) as Hlen by apply length_insert.
  constructor.
  - rewrite Ha', Ha, Ht, (count_insert _ _ _ l) by done. unfold b2z. apply u64_small.
    pose proof (count_nonneg is_counted (<[i := l']> (threads s))) as Hn.
    rewrite (count_insert _ _ _ l), Hlen in Hn by done. lia.
  - rewrite Hi', Hi, Ht, (count_insert _ _ _ l) by done. unfold b2z. apply u64_small.
    pose proof (count_nonneg is_idle (<[i := l']> (threads s))) as Hn.
    rewrite (count_insert _ _ _ l), Hlen in Hn by done. lia.
  - by rewrite Ht, Hlen.
  - rewrite Ht, Hau, Hst. apply Forall_insert; [done|]. intros Hx.
    pose proof (Forall_lookup_1 _ _ _ _ He Hl) as Hl'. cbn in Hl'. tauto.
Qed.

Lemma counted_u64 s : counted s ->
  u64 (m_activeThreadCount s) = m_activeThreadCount s /\ u64 (m_idleThreadCount s) = m_idleThreadCount s.
Proof.
  intros [Ha Hi Hf _]. rewrite Ha, Hi.
  pose proof (count_nonneg is_counted (threads s)). pose proof (count_nonneg is_idle (threads s)).
  split; apply u64_small; lia.
Qed.

(** The same, for steps that leave a counter alone. *)
Lemma counted_same i l l' s s' :
  counted s -> threads s !! i = Some l -> threads s' = <[i := l']> (threads s) ->
  is_counted l' = is_counted l -> is_idle l' = is_idle l ->
  m_activeThreadCount s' = m_activeThreadCount s -> m_idleThreadCount s' = m_idleThreadCount s ->
  m_autoStop s' = m_autoStop s -> m_stopping s' = m_stopping s ->
  l_idle_term l' = l_idle_term l -> (l_pc l' = Exited -> l_idle_term l = true) ->
  counted s'.
Proof.
  intros Hc Hl Ht Hal Hil Ha Hi Hau Hst Hterm Hex. destruct (counted_u64 s Hc) as [Hua Hui].
  apply (counted_upd i l l' s s' Hc Hl Ht); try done.
  - rewrite Ha, Hal. rewrite Z.sub_add. done.
  - rewrite Hi, Hil. rewrite Z.sub_add. done.
  - rewrite Hterm. tauto.
Qed.

Ltac counted_trivial Hc Hl Hpc := eapply (counted_same _ _ _ _ _ Hc Hl);
  cbn; try reflexivity; unfold is_counted, is_idle; cbn; rewrite ?Hpc; done.

Ltac counted_step Hc Hl Hpc := eapply (counted_upd _ _ _ _ _ Hc Hl);
  cbn; try reflexivity; unfold is_counted, is_idle; cbn; rewrite ?Hpc; cbn [b2z];
  rewrite ?Z.sub_0_r, ?Z.add_0_r; try done;
  try (intros [?|?]; [first [by left|congruence]|done]).

Lemma schedule_fields ft s :
  threads (schedule ft s) = threads s /\ m_activeThreadCount (schedule ft s) = m_activeThreadCount s
  /\ m_idleThreadCount (schedule ft s) = m_idleThreadCount s /\ m_autoStop (schedule ft s) = m_autoStop s
  /\ m_stopping (schedule ft s) = m_stopping s /\ states (schedule ft s) = states s.
Proof.
  unfold schedule, scheduleNoLock. destruct (m_fibers s), (ft_fiber ft), (ft_cb ft); done.
Qed.

Lemma schedule_queue ft s :
  ft_fiber ft <> None \/ ft_cb ft <> None -> m_fibers (schedule ft s) = m_fibers s ++ [ft].
Proof.
  intros Hft. unfold schedule, scheduleNoLock.
  destruct (m_fibers s) eqn:E, (ft_fiber ft), (ft_cb ft); cbn; rewrite ?E; try done; tauto.
Qed.

Lemma step_counted s lab s' : step s lab s' -> counted s -> counted s'.
Proof.
  intros Hstep Hc. destruct (counted_u64 s Hc) as [Hua Hui].
  destruct Hstep as [i l s s' Hl Hpc Hrun|fresh i l ft s s' Hl Hpc Hfr Hrun|i l f b s Hl Hpc|i l f b s Hl Hpc
    |i l f b how s Hl Hpc Hhow|i l f b s Hl Hpc|i l f b s Hl Hpc|i l s Hl Hpc|i l s Hl Hpc|f s Hf|ft s Hk Hft|s].
  - unfold run_pick in Hrun. destruct (pick_loop _ _ _ _ _) as [[[tm o] q']|]; [|done].
    destruct o as [ft|]; injection Hrun as <-.
    + destruct tm; counted_step Hc Hl Hpc.
    + destruct tm; counted_trivial Hc Hl Hpc.
  - assert (forall l' s1, threads s1 = <[i := l']> (threads s) -> is_counted l' = true -> is_idle l' = false ->
      l_idle_term l' = l_idle_term l -> l_pc l' <> Exited ->
      m_activeThreadCount s1 = m_activeThreadCount s -> m_idleThreadCount s1 = m_idleThreadCount s ->
      m_autoStop s1 = m_autoStop s -> m_stopping s1 = m_stopping s -> counted s1) as Hgo.
    { intros l' s1 Ht Ha Hi Hterm Hx **.
      eapply (counted_same _ _ _ _ _ Hc Hl Ht); try done; unfold is_counted, is_idle in *; by rewrite Hpc. }
    assert (counted (set_thread i (at_pc Top l) (set_active (u64 (m_activeThreadCount s - 1)) s))) as Hdrop.
    { counted_step Hc Hl Hpc. }
    unfold run_start in Hrun.
    destruct (ft_fiber ft) as [f|]; [destruct (bool_decide _)|]; try destruct (decide _);
      try destruct (ft_cb ft) as [cb|]; try destruct (l_cb_fiber l) as [c|]; try destruct (bool_decide _);
      try discriminate Hrun; injection Hrun as <-; try exact Hdrop; (eapply Hgo; [reflexivity|done..]).
  - counted_trivial Hc Hl Hpc.
  - counted_trivial Hc Hl Hpc.
  - counted_trivial Hc Hl Hpc.
  - counted_step Hc Hl Hpc.
  - unfold run_fix. destruct (schedule_fields (FT_fiber (Some f) (-1)) s) as (Ht & Ha & Hi & Hau & Hst & _).
    destruct (state_of (states s) f), b; eapply (counted_same _ _ _ _ _ Hc Hl); cbn -[schedule];
      rewrite ?Ht, ?Ha, ?Hi, ?Hau, ?Hst; try reflexivity; unfold is_counted, is_idle; cbn; rewrite ?Hpc; done.
  - unfold run_idle. destruct (l_idle_term l) eqn:Et.
    + eapply (counted_same _ _ _ _ _ Hc Hl); cbn; try reflexivity; unfold is_counted, is_idle; cbn;
        rewrite ?Hpc; done.
    + counted_step Hc Hl Hpc.
  - counted_step Hc Hl Hpc.
    intros [Hs|]; [|done]. right. right. unfold stopping in Hs.
    apply andb_true_iff in Hs as [Hs _]. apply andb_true_iff in Hs as [Hs _].
    apply andb_true_iff in Hs. done.
  - by destruct Hc.
  - destruct (schedule_fields ft s) as (Ht & Ha & Hi & Hau & Hst & _). destruct Hc as [Hca Hci Hcf Hce].
    constructor; rewrite ?Ht, ?Ha, ?Hi, ?Hau, ?Hst; done.
  - destruct Hc as [Hca Hci Hcf Hce]. constructor; try done. cbn.
    apply Forall_true. done.
Qed.

(** ** Exclusive execution *)

Lemma queued_app q1 q2 : queued (q1 ++ q2) = queued q1 ++ queued q2.
Proof. apply omap_app. Qed.

#[local] Instance queued_perm : Proper ((≡ₚ) ==> (≡ₚ)) queued.
Proof. intros q1 q2 Hq. unfold queued. by rewrite Hq. Qed.

Lemma own_ok_queue q q' st l :
  (forall f, f ∈ queued q' -> f ∈ queued q \/ (state_of st f <> READY /\ state_of st f <> TERM /\ state_of st f <> EXCEPT)) ->
  own_ok q st l -> own_ok q' st l.
Proof.
  intros Hq. unfold own_ok. destruct (l_pc l); try done;
    (intros [[He|[Hs Hn]] Hb]; split; [by left|done| |done]);
    right; (split; [done|]); intros [?|?]%Hq; tauto.
Qed.

Lemma own_ok_state q st f x l : own_of l <> Some f -> own_ok q st l -> own_ok q (<[f := x]> st) l.
Proof.
  unfold own_ok, own_of, state_of. destruct (l_pc l) as [| |g b|g b|g b| | |]; try done;
    intros Hne; rewrite lookup_insert_ne by congruence; done.
Qed.

Lemma state_of_insert st f x : state_of (<[f := x]> st) f = x.
Proof. unfold state_of. by rewrite lookup_insert_eq. Qed.

Lemma state_of_insert_ne st f g x : f <> g -> state_of (<[f := x]> st) g = state_of st g.
Proof. intros Hne. unfold state_of. by rewrite lookup_insert_ne. Qed.

(** [cb_ok] when the queue, the owners or a state change. *)
Lemma cb_ok_mono q q' ls ls' st st' l :
  cb_ok q ls st l ->
  (forall c, l_cb_fiber l = Some c -> own_of l <> Some c -> c ∉ queued q -> c ∉ omap own_of ls ->
     (state_of st c = INIT \/ state_of st c = TERM \/ state_of st c = EXCEPT) ->
     c ∉ queued q' /\ c ∉ omap own_of ls'
     /\ (state_of st' c = INIT \/ state_of st' c = TERM \/ state_of st' c = EXCEPT)) ->
  cb_ok q' ls' st' l.
Proof.
  intros Hcb Hm c Hc. destruct (Hcb c Hc) as [Ho|(Hq & Ho & Hs)]; [by left|].
  destruct (decide (own_of l = Some c)) as [E|E]; [by left|]. right. by apply Hm.
Qed.

Lemma exclusive_perm q ls ls' st : ls ≡ₚ ls' -> exclusive q ls st -> exclusive q ls' st.
Proof.
  intros Hp [H1 H2 H3 H4 H5 H6 H7 H8]. constructor.
  - by rewrite <-Hp.
  - by rewrite <-Hp.
  - by rewrite <-Hp.
  - intros f. rewrite <-Hp. apply H4.
  - by rewrite <-Hp.
  - apply Forall_forall. intros l Hl. rewrite <-Hp in Hl. rewrite Forall_forall in H6.
    eapply cb_ok_mono; [by apply H6|]. intros c _ _ Hq Ho Hs. by rewrite <-Hp.
  - intros f. rewrite <-Hp. apply H7.
  - done.
Qed.

Lemma omap_cons_opt (g : local C -> option nat) l ls :
  omap g (l :: ls) = option_list (g l) ++ omap g ls.
Proof. cbn. by destruct (g l). Qed.

Lemma elem_of_option_list (o : option nat) x : x ∈ option_list o <-> o = Some x.
Proof.
  destruct o as [y|]; cbn; [rewrite list_elem_of_singleton|rewrite elem_of_nil]; split; congruence || done.
Qed.

(** A fiber that is queued while a thread has it on its stack is still to be
    put on hold; the callback fiber of a thread is queued only in that case. *)
Lemma owned_queued q ls st f :
  exclusive q ls st -> f ∈ omap own_of ls -> f ∈ queued q -> state_of st f = EXEC.
Proof.
  intros [_ _ _ _ H5 _ _ _] Ho Hq. apply list_elem_of_omap in Ho as (l & Hl & Ho).
  rewrite Forall_forall in H5. specialize (H5 l Hl). unfold own_ok, own_of in *.
  destruct (l_pc l); try done; injection Ho as ->; tauto.
Qed.

Lemma cb_queued q ls st c :
  exclusive q ls st -> c ∈ omap l_cb_fiber ls -> c ∈ queued q -> c ∈ omap own_of ls.
Proof.
  intros [_ _ _ _ _ H6 _ _] Hc Hq. apply list_elem_of_omap in Hc as (l & Hl & Hc).
  rewrite Forall_forall in H6. destruct (H6 l Hl c Hc) as [Ho|(Hn & _)]; [|done].
  apply list_elem_of_omap. by exists l.
Qed.

(** A step of a thread that keeps what it holds. *)
Lemma exclusive_same q l l' R st :
  exclusive q (l :: R) st -> got_of l' = got_of l -> own_of l' = own_of l ->
  l_cb_fiber l' = l_cb_fiber l -> own_ok q st l' -> exclusive q (l' :: R) st.
Proof.
  intros [H1 H2 H3 H4 H5 H6 H7 H8] Hg Ho Hc Hok.
  apply Forall_cons in H5 as [_ H5]. apply Forall_cons in H6 as [H6 H6'].
  rewrite !omap_cons_opt in *.
  constructor; rewrite ?omap_cons_opt, ?Hg, ?Ho, ?Hc; try done.
  - by constructor.
  - constructor.
    + intros c Hcc. rewrite Hc in Hcc. specialize (H6 c Hcc).
      by rewrite ?omap_cons_opt, ?Ho in *.
    + apply (Forall_impl _ _ _ H6'). intros l0 Hl0. eapply cb_ok_mono; [exact Hl0|].
      intros c _ _ Hq Hn Hs. by rewrite ?omap_cons_opt, ?Ho in *.
Qed.

(** A task is taken from the queue. *)
Lemma exclusive_take q ft q' l l' R st :
  exclusive q (l :: R) st -> q ≡ₚ ft :: q' -> got_of l = None -> own_of l = None ->
  l_pc l' = Got ft -> l_cb_fiber l' = l_cb_fiber l ->
  (forall f, ft_fiber ft = Some f -> state_of st f <> EXEC) ->
  exclusive q' (l' :: R) st.
Proof.
  intros Hex Hq Hg Ho Hpc Hc Hst. pose proof Hex as [H1 H2 H3 H4 H5 H6 H7 H8].
  assert (got_of l' = ft_fiber ft) as Hg' by (unfold got_of; by rewrite Hpc).
  assert (own_of l' = None) as Ho' by (unfold own_of; by rewrite Hpc).
  assert (queued q ≡ₚ option_list (ft_fiber ft) ++ queued q') as Hqq.
  { rewrite Hq. unfold queued. cbn. by destruct (ft_fiber ft). }
  assert (forall f, f ∈ queued q' -> f ∈ queued q) as Hsub
    by (intros f Hf; rewrite Hqq; apply elem_of_app; by right).
  assert (forall f, ft_fiber ft = Some f -> f ∈ queued q) as Hftq
    by (intros f Hf; rewrite Hqq, Hf; left).
  assert (forall f, ft_fiber ft = Some f ->
    f ∉ omap own_of (l :: R) /\ f ∉ omap l_cb_fiber (l :: R)) as Hfree.
  { intros f Hf. assert (f ∉ omap own_of (l :: R)) as Hno.
    { intros Hin. apply (Hst f Hf). eapply owned_queued; eauto. }
    split; [done|]. intros Hin. apply Hno. eapply cb_queued; eauto. }
  apply Forall_cons in H5 as [_ H5]. apply Forall_cons in H6 as [H6 H6'].
  rewrite !omap_cons_opt, Hg, Ho in *. cbn [option_list app] in *.
  assert (forall l0, cb_ok q (l :: R) st l0 -> cb_ok q' (l' :: R) st l0) as Hcbm.
  { intros l0 Hl0. eapply cb_ok_mono; [exact Hl0|]. intros c _ _ Hnq Hno Hs.
    rewrite omap_cons_opt, Ho in Hno. rewrite omap_cons_opt, Ho'. split_and!; try done.
    intros Hin. by apply Hnq, Hsub. }
  constructor; rewrite ?omap_cons_opt, ?Hg', ?Ho', ?Hc; cbn [option_list app]; try done.
  - rewrite Hqq in H1. by rewrite Permutation_app_swap_app, app_assoc.
  - intros f [Hf%elem_of_option_list|Hf]%elem_of_app; [|by apply H4].
    destruct (Hfree f Hf) as [Hn1 Hn2]. auto.
  - constructor; [unfold own_ok; by rewrite Hpc|].
    apply (Forall_impl _ _ _ H5). intros l0. apply own_ok_queue. auto.
  - constructor.
    + intros c Hcc. rewrite Hc in Hcc.
      destruct (Hcbm l H6 c Hcc) as [E|E]; [congruence|by right].
    + apply (Forall_impl _ _ _ H6'). auto.
  - intros f Hf. apply H7. rewrite Hqq. rewrite !elem_of_app in *. tauto.
  - rewrite Hq in H8. by apply Forall_cons in H8 as [_ H8].
Qed.

(** The frame: what the other threads keep when one of them changes the state
    of a fiber that is neither theirs nor kept by them. *)
Lemma others_keep q q' l l' R st st' f :
  Forall (own_ok q st) R -> Forall (cb_ok q (l :: R) st) R ->
  (forall g, g <> f -> state_of st' g = state_of st g) ->
  f ∉ omap own_of R -> f ∉ omap l_cb_fiber R ->
  (forall g, g <> f -> g ∈ queued q' -> g ∈ queued q) ->
  (forall g, g <> f -> own_of l' = Some g -> own_of l = Some g) ->
  Forall (own_ok q' st') R /\ Forall (cb_ok q' (l' :: R) st') R.
Proof.
  intros Hok Hcb Hst Ho Hc Hq Hl. rewrite !Forall_forall in *. split.
  - intros l0 Hl0. specialize (Hok l0 Hl0).
    assert (own_of l0 <> Some f) as Hne
      by (intros E; apply Ho, list_elem_of_omap; by exists l0).
    unfold own_ok, own_of in *. destruct (l_pc l0) as [| |g b|g b|g b| | |]; try done;
      rewrite Hst by congruence; [done|..]; destruct Hok as [[?|[? Hn]] ?]; (split; [|done]); [by left| |by left|];
      right; (split; [done|]); intros Hin; apply Hn, Hq; congruence || done.
  - intros l0 Hl0. specialize (Hcb l0 Hl0). eapply cb_ok_mono; [exact Hcb|].
    intros c Hcc Hno Hnq Hnow Hs.
    assert (c <> f) as Hne by (intros ->; apply Hc, list_elem_of_omap; by exists l0).
    rewrite Hst by done. split_and!; [intros Hin; by apply Hnq, Hq| |done].
    rewrite omap_cons_opt, elem_of_app, elem_of_option_list in *. intros [E|E]; [|tauto].
    apply Hl in E; [tauto|done].
Qed.

(** A thread lets go of a task without running it. *)
Lemma exclusive_drop q l l' R st :
  exclusive q (l :: R) st -> own_of l = None -> own_of l' = None -> got_of l' = None ->
  l_cb_fiber l' = l_cb_fiber l -> exclusive q (l' :: R) st.
Proof.
  intros [H1 H2 H3 H4 H5 H6 H7 H8] Ho Ho' Hg' Hc.
  apply Forall_cons in H5 as [_ H5]. apply Forall_cons in H6 as [H6 H6'].
  rewrite !omap_cons_opt, Ho in *. cbn [option_list app] in *.
  assert (forall l0, cb_ok q (l :: R) st l0 -> cb_ok q (l' :: R) st l0) as Hcbm.
  { intros l0 Hl0. eapply cb_ok_mono; [exact Hl0|]. intros c _ _ Hnq Hno Hs.
    rewrite omap_cons_opt, Ho in Hno. by rewrite omap_cons_opt, Ho'. }
  constructor; rewrite ?omap_cons_opt, ?Hg', ?Ho', ?Hc; cbn [option_list app]; try done.
  - rewrite Permutation_app_swap_app in H1. by apply NoDup_app in H1 as (_ & _ & H1).
  - intros f Hf. apply H4. apply elem_of_app. by right.
  - constructor; [|done]. unfold own_ok, own_of in *. by destruct (l_pc l').
  - constructor.
    + intros c Hcc. rewrite Hc in Hcc. destruct (Hcbm l H6 c Hcc) as [E|E]; [congruence|by right].
    + apply (Forall_impl _ _ _ H6'). auto.
  - intros f Hf. apply H7. rewrite !elem_of_app in *. tauto.
Qed.

(** A thread swaps in a fiber that nobody else has. *)
Lemma exclusive_start q l l' R st f b :
  exclusive q (l :: R) st -> own_of l = None -> l_pc l' = Exec f b ->
  f ∉ omap own_of R -> f ∉ omap got_of R -> f ∉ omap l_cb_fiber R ->
  (if b then l_cb_fiber l' = Some f /\ (l_cb_fiber l = Some f \/ l_cb_fiber l = None)
   else l_cb_fiber l' = l_cb_fiber l /\ l_cb_fiber l <> Some f) ->
  exclusive q (l' :: R) (<[f := EXEC]> st).
Proof.
  intros [H1 H2 H3 H4 H5 H6 H7 H8] Ho Hpc Hfo Hfg Hfc Hcb.
  assert (got_of l' = None) as Hg' by (unfold got_of; by rewrite Hpc).
  assert (own_of l' = Some f) as Ho' by (unfold own_of; by rewrite Hpc).
  apply Forall_cons in H5 as [_ H5]. apply Forall_cons in H6 as [H6 H6'].
  destruct (others_keep q q l l' R st (<[f := EXEC]> st) f) as [H5' H6'']; try done.
  { intros g Hg. by rewrite state_of_insert_ne. }
  { intros g Hg. congruence. }
  rewrite !omap_cons_opt, Ho in *. cbn [option_list app] in *.
  constructor; rewrite ?omap_cons_opt, ?Hg', ?Ho'; cbn [option_list app]; try done.
  - rewrite Permutation_app_swap_app in H1. by apply NoDup_app in H1 as (_ & _ & H1).
  - by constructor.
  - destruct b; [|by rewrite (proj1 Hcb)]. destruct Hcb as [-> _]. cbn. constructor; [done|].
    destruct (l_cb_fiber l); [by apply NoDup_cons in H3 as [_ H3]|done].
  - intros g Hg. destruct (H4 g) as (G1 & G2 & G3); [apply elem_of_app; by right|].
    assert (g <> f) as Hne by (by intros ->). rewrite state_of_insert_ne by done.
    split_and!; [|intros Hin; apply elem_of_app in Hin as [Hin|Hin]; [|apply G2; apply elem_of_app; by right]|done].
    + by intros [?|?]%elem_of_cons.
    + apply elem_of_option_list in Hin. destruct b; [destruct Hcb as [E _]; congruence|].
      apply G2. apply elem_of_app. left. apply elem_of_option_list. destruct Hcb; congruence.
  - constructor; [|done]. unfold own_ok. rewrite Hpc, state_of_insert. split; [done|].
    destruct b; [tauto|]. destruct Hcb as [-> ?]. split; [done|]. by intros.
  - constructor; [|done]. intros c Hcc. destruct b; [left; destruct Hcb; congruence|].
    destruct Hcb as [E Hne]. rewrite E in Hcc. assert (c <> f) as Hcf by (intros ->; done).
    destruct (H6 c Hcc) as [E'|(Hq & Hn & Hs)]; [congruence|]. right.
    rewrite state_of_insert_ne by done. split_and!; try done.
    rewrite omap_cons_opt, Ho'. rewrite omap_cons_opt, Ho in Hn. cbn in *.
    by intros [?|?]%elem_of_cons.
  - intros g Hg. destruct (decide (g = f)) as [->|Hne]; [rewrite lookup_insert_eq; by eexists|].
    rewrite lookup_insert_ne by done. apply H7.
    repeat (rewrite elem_of_app in Hg || rewrite elem_of_cons in Hg).
    rewrite !elem_of_app, !elem_of_option_list in *.
    assert (l_cb_fiber l' = Some g -> l_cb_fiber l = Some g) as Hcg
      by (destruct b, Hcb; congruence).
    assert (Some f <> Some g /\ None <> Some g) by (split; congruence). tauto.
Qed.

(** The fiber on the CPU leaves it, ready or over. *)
Lemma exclusive_leave q l l' R st f b x :
  exclusive q (l :: R) st -> l_pc l = Exec f b -> l_pc l' = Back f b -> l_cb_fiber l' = l_cb_fiber l ->
  x = READY \/ x = TERM \/ x = EXCEPT -> f ∉ queued q ->
  exclusive q (l' :: R) (<[f := x]> st).
Proof.
  intros [H1 H2 H3 H4 H5 H6 H7 H8] Hpc Hpc' Hc Hx Hnq.
  assert (got_of l' = None /\ got_of l = None) as [Hg' Hg] by (unfold got_of; by rewrite Hpc, Hpc').
  assert (own_of l' = Some f /\ own_of l = Some f) as [Ho' Ho] by (unfold own_of; by rewrite Hpc, Hpc').
  apply Forall_cons in H5 as [H5l H5]. apply Forall_cons in H6 as [H6 H6'].
  rewrite !omap_cons_opt, Ho, Hg in *. cbn [option_list app] in *.
  apply NoDup_cons in H2 as [Hfo H2].
  assert (f ∉ omap l_cb_fiber R) as Hfc.
  { intros Hin. apply list_elem_of_omap in Hin as (l0 & Hl0 & E). rewrite Forall_forall in H6'.
    destruct (H6' l0 Hl0 f E) as [Eo|(_ & Hn & _)].
    - apply Hfo, list_elem_of_omap. by exists l0.
    - apply Hn. rewrite omap_cons_opt, Ho. by left. }
  destruct (others_keep q q l l' R st (<[f := x]> st) f) as [H5' H6'']; try done.
  { intros g Hg0. by rewrite state_of_insert_ne. }
  { intros g Hg0. congruence. }
  constructor; rewrite ?omap_cons_opt, ?Hg', ?Ho', ?Hc; cbn [option_list app]; try done.
  - by constructor.
  - intros g Hgg. destruct (H4 g Hgg) as (G1 & G2 & G3).
    assert (g <> f) as Hne by (intros ->; apply G1; left). by rewrite state_of_insert_ne.
  - constructor; [|done]. unfold own_ok in *. rewrite Hpc in H5l. rewrite Hpc', state_of_insert, Hc.
    split; [|apply H5l]. right. split; [|done]. destruct Hx as [->|[->| ->]]; tauto.
  - constructor; [|done]. intros c Hcc. rewrite Hc in Hcc.
    destruct (H6 c Hcc) as [E|(Hq & Hn & Hs)]; [left; congruence|]. right.
    assert (c <> f) as Hcf. { intros ->. apply Hn. rewrite omap_cons_opt, Ho. by left. }
    rewrite state_of_insert_ne by done. split_and!; try done.
    rewrite omap_cons_opt, Ho in Hn. by rewrite omap_cons_opt, Ho'.
  - intros g Hgg. destruct (decide (g = f)) as [->|Hne]; [rewrite lookup_insert_eq; by eexists|].
    rewrite lookup_insert_ne by done. by apply H7.
Qed.

(** The thread puts the fiber it ran away: [q'] and [st'] are the queue and
    the states afterwards. *)
Lemma exclusive_release q q' l l' R st st' f b :
  exclusive q (l :: R) st -> l_pc l = Fix f b -> l_pc l' = Top ->
  (forall g, g <> f -> state_of st' g = state_of st g) ->
  (forall g, is_Some (st !! g) -> is_Some (st' !! g)) ->
  (forall g, g <> f -> g ∈ queued q' -> g ∈ queued q) ->
  (forall g, g ∈ queued q' -> is_Some (st' !! g)) ->
  NoDup (queued q' ++ omap got_of R) ->
  Forall (fun ft => ft_fiber ft <> None \/ ft_cb ft <> None) q' ->
  (l_cb_fiber l' = (if b then None else l_cb_fiber l)
   \/ (l_cb_fiber l' = l_cb_fiber l /\ f ∉ queued q'
       /\ (b = true -> state_of st' f = INIT \/ state_of st' f = TERM \/ state_of st' f = EXCEPT))) ->
  exclusive q' (l' :: R) st'.
Proof.
  intros [H1 H2 H3 H4 H5 H6 H7 H8] Hpc Hpc' Hst Hdom Hq Hqk Hnd Htask Hcb.
  assert (got_of l' = None /\ got_of l = None) as [Hg' Hg] by (unfold got_of; by rewrite Hpc, Hpc').
  assert (own_of l' = None /\ own_of l = Some f) as [Ho' Ho] by (unfold own_of; by rewrite Hpc, Hpc').
  apply Forall_cons in H5 as [H5l H5]. apply Forall_cons in H6 as [H6 H6'].
  assert (l_cb_fiber l = Some f <-> b = true) as Hb by (unfold own_ok in H5l; rewrite Hpc in H5l; tauto).
  rewrite !omap_cons_opt, Ho, Hg in *. cbn [option_list app] in *.
  apply NoDup_cons in H2 as [Hfo H2].
  assert (f ∉ omap l_cb_fiber R) as Hfc.
  { intros Hin. apply list_elem_of_omap in Hin as (l0 & Hl0 & E). rewrite Forall_forall in H6'.
    destruct (H6' l0 Hl0 f E) as [Eo|(_ & Hn & _)].
    - apply Hfo, list_elem_of_omap. by exists l0.
    - apply Hn. rewrite omap_cons_opt, Ho. by left. }
  destruct (others_keep q q' l l' R st st' f) as [H5' H6'']; try done.
  { intros g _. congruence. }
  assert (forall c, l_cb_fiber l' = Some c -> l_cb_fiber l = Some c) as Hsub.
  { intros c E. destruct Hcb as [E'|[E' _]]; [|congruence]. destruct b; congruence. }
  constructor; rewrite ?omap_cons_opt, ?Hg', ?Ho'; cbn [option_list app]; try done.
  - destruct (l_cb_fiber l') as [c|] eqn:Ec.
    + by rewrite (Hsub c eq_refl) in H3.
    + cbn. by apply NoDup_app in H3 as (_ & _ & H3).
  - intros g Hgg. destruct (H4 g Hgg) as (G1 & G2 & G3).
    assert (g <> f) as Hne by (intros ->; apply G1; left). rewrite Hst by done. split_and!; try done.
    + intros Hin. apply G1. by right.
    + intros [Hin|Hin]%elem_of_app; apply G2, elem_of_app; [left|by right].
      rewrite elem_of_option_list in *. by apply Hsub.
  - constructor; [unfold own_ok; by rewrite Hpc'|done].
  - constructor; [|done]. intros c Hcc. right. rewrite omap_cons_opt, Ho'. cbn.
    destruct (decide (c = f)) as [->|Hne].
    + destruct Hcb as [E|(E & Hnq & Hs)].
      * destruct b; [congruence|]. apply Hsub, Hb in Hcc. done.
      * split_and!; try done. apply Hs, Hb. by apply Hsub.
    + destruct (H6 c (Hsub c Hcc)) as [E|(Hnq & Hn & Hs)]; [congruence|].
      rewrite Hst by done. split_and!; [intros Hin; by apply Hnq, Hq| |done].
      rewrite omap_cons_opt, Ho in Hn. intros Hin. apply Hn. by right.
  - intros g [Hin|Hin]%elem_of_app; [by apply Hqk|]. apply Hdom, H7.
    repeat (rewrite elem_of_app in * || rewrite elem_of_cons || rewrite elem_of_option_list in *).
    pose proof (Hsub g). tauto.
Qed.

(** A client schedules a task. *)
Lemma exclusive_schedule q ft ls st :
  exclusive q ls st -> ft_fiber ft <> None \/ ft_cb ft <> None ->
  (forall f, ft_fiber ft = Some f -> is_Some (st !! f) /\ f ∉ queued q /\ f ∉ omap got_of ls
     /\ (state_of st f = EXEC
         \/ ((state_of st f = INIT \/ state_of st f = HOLD) /\ f ∉ omap l_cb_fiber ls))) ->
  exclusive (q ++ [ft]) ls st.
Proof.
  intros [H1 H2 H3 H4 H5 H6 H7 H8] Hft Hf.
  assert (queued (q ++ [ft]) ≡ₚ option_list (ft_fiber ft) ++ queued q) as Hq.
  { rewrite queued_app, Permutation_app_comm. unfold queued at 1. cbn. by destruct (ft_fiber ft). }
  assert (forall g, g ∈ queued (q ++ [ft]) <-> ft_fiber ft = Some g \/ g ∈ queued q) as Hqe
    by (intros g; by rewrite Hq, elem_of_app, elem_of_option_list).
  constructor; try done.
  - rewrite Hq. destruct (ft_fiber ft) as [f|]; [|done]. cbn. constructor; [|done].
    rewrite elem_of_app. destruct (Hf f eq_refl) as (_ & ? & ? & _). tauto.
  - apply (Forall_impl _ _ _ H5). intros l. apply own_ok_queue. intros f [E|E]%Hqe; [|by left].
    right. destruct (Hf f E) as (_ & _ & _ & [Hs|[[Hs|Hs] _]]); by rewrite Hs.
  - rewrite Forall_forall in H6 |- *. intros l Hl. eapply cb_ok_mono; [by apply H6|].
    intros c Hc _ Hnq Hno Hs. split_and!; try done. rewrite Hqe. intros [E|E]; [|done].
    destruct (Hf c E) as (_ & _ & _ & [Hx|[_ Hn]]); [destruct Hs as [Hs|[Hs|Hs]]; congruence|].
    apply Hn, list_elem_of_omap. by exists l.
  - intros g [Hin%Hqe|Hin]%elem_of_app; [|apply H7, elem_of_app; by right].
    destruct Hin as [E|Hin]; [by apply Hf|]. apply H7, elem_of_app. by left.
  - apply Forall_app. split; [done|]. by apply Forall_singleton.
Qed.

Lemma exclusive_new q ls st f :
  exclusive q ls st -> st !! f = None -> exclusive q ls (<[f := INIT]> st).
Proof.
  intros [H1 H2 H3 H4 H5 H6 H7 H8] Hf.
  assert (forall g, state_of (<[f := INIT]> st) g = state_of st g) as Hst.
  { intros g. destruct (decide (f = g)) as [->|Hne]; [|by apply state_of_insert_ne].
    rewrite state_of_insert. unfold state_of. by rewrite Hf. }
  constructor; try done.
  - intros g. rewrite Hst. apply H4.
  - apply (Forall_impl _ _ _ H5). intros l. unfold own_ok. destruct (l_pc l); by rewrite ?Hst.
  - apply (Forall_impl _ _ _ H6). intros l Hl c Hc. rewrite Hst. by apply Hl.
  - intros g Hg. destruct (decide (f = g)) as [->|Hne]; [rewrite lookup_insert_eq; by eexists|].
    rewrite lookup_insert_ne by done. by apply H7.
Qed.

(** Replacing one thread of the list. *)
Lemma exclusive_insert q q' i l l' ls st st' :
  ls !! i = Some l -> exclusive q ls st ->
  (forall R, ls ≡ₚ l :: R -> exclusive q (l :: R) st -> exclusive q' (l' :: R) st') ->
  exclusive q' (<[i := l']> ls) st'.
Proof.
  intros Hi Hex Hgo. destruct (thread_insert ls i l Hi) as (R & H1 & H2).
  eapply exclusive_perm; [by symmetry; apply H2|]. apply Hgo; [done|].
  by eapply exclusive_perm.
Qed.

Lemma pick_runnable tid st seen q b b' ft q' :
  pick_loop tid st seen q b = Ok (b', Some ft, q') ->
  forall f, ft_fiber ft = Some f -> state_of st f <> EXEC.
Proof.
  revert seen b. induction q as [|ft0 q IH]; intros seen b; cbn [pick_loop]; [done|].
  destruct (negb _ && _); [by apply IH|].
  destruct (ft_fiber ft0) as [f|] eqn:Ef.
  - destruct (decide _); [by apply IH|]. intros [= <- <- <-] f' Hf'. congruence.
  - destruct (ft_cb ft0); [|done]. intros [= <- <- <-] f' Hf'. congruence.
Qed.

Lemma start_exclusive fresh i l ft s s' :
  exclusive (m_fibers s) (threads s) (states s) -> threads s !! i = Some l -> l_pc l = Got ft ->
  states s !! fresh = None -> run_start fresh i l ft s = Ok s' ->
  exclusive (m_fibers s') (threads s') (states s').
Proof.
  intros Hex Hl Hpc Hfr Hrun.
  assert (own_of l = None) as Ho by (unfold own_of; by rewrite Hpc).
  assert (got_of l = ft_fiber ft) as Hg by (unfold got_of; by rewrite Hpc).
  assert (exclusive (m_fibers s) (<[i := at_pc Top l]> (threads s)) (states s)) as Hdrop.
  { eapply exclusive_insert; [done..|]. intros R _ HR. by eapply exclusive_drop. }
  assert (forall f, ft_fiber ft = Some f ->
    exclusive (m_fibers s) (<[i := at_pc (Exec f false) l]> (threads s)) (<[f := EXEC]> (states s))) as Hfib.
  { intros f Hf. eapply exclusive_insert; [done..|]. intros R _ HR.
    destruct (ex_got _ _ _ HR f) as (G1 & G2 & _).
    { rewrite omap_cons_opt, Hg, Hf. left. }
    pose proof (ex_pend _ _ _ HR) as Hnd. rewrite omap_cons_opt, Hg, Hf in Hnd.
    apply NoDup_app in Hnd as (_ & _ & Hnd). apply NoDup_cons in Hnd as [Hnd _].
    rewrite !omap_cons_opt, elem_of_app, elem_of_option_list in *.
    eapply (exclusive_start _ l); try done; try tauto. cbn. tauto. }
  assert (forall c l', l_pc l' = Exec c true -> l_cb_fiber l' = Some c ->
    (l_cb_fiber l = Some c \/ (l_cb_fiber l = None /\ c = fresh)) ->
    exclusive (m_fibers s) (<[i := l']> (threads s)) (<[c := EXEC]> (states s))) as Hcb.
  { intros c l' Hpc' Hc' Hcl. eapply exclusive_insert; [done..|]. intros R _ HR.
    assert (c ∉ omap own_of R /\ c ∉ omap got_of R /\ c ∉ omap l_cb_fiber R) as (? & ? & ?).
    { destruct Hcl as [Ec|[Ec ->]].
      - pose proof (ex_cb _ _ _ HR) as Hnd. rewrite omap_cons_opt, Ec in Hnd.
        apply NoDup_cons in Hnd as [Hnd _]. split_and!; [| |done].
        + pose proof (ex_cb_ok _ _ _ HR) as Hok. apply Forall_cons in Hok as [Hok _].
          destruct (Hok c Ec) as [E|(_ & Hn & _)]; [congruence|].
          by rewrite omap_cons_opt, Ho in Hn.
        + intros Hin. destruct (ex_got _ _ _ HR c) as (_ & G & _).
          { rewrite omap_cons_opt. apply elem_of_app. by right. }
          apply G. rewrite omap_cons_opt, Ec. left.
      - assert (forall g, g ∈ omap got_of R ++ omap own_of R ++ omap l_cb_fiber R -> g <> fresh) as Hk.
        { intros g Hin ->. destruct (ex_known _ _ _ HR fresh) as [x Hx]; [|congruence].
          rewrite !omap_cons_opt. rewrite !elem_of_app in *. tauto. }
        split_and!; intros Hin; (eapply Hk; [|reflexivity]); rewrite !elem_of_app; tauto. }
    eapply (exclusive_start _ l); try done. cbn. split; [done|]. tauto. }
  unfold run_start in Hrun.
  destruct (ft_fiber ft) as [f|] eqn:Ef; [destruct (bool_decide _)|]; try destruct (decide _);
    try destruct (ft_cb ft) as [cb|]; try destruct (l_cb_fiber l) as [c|] eqn:Ec;
    try destruct (bool_decide _); try discriminate Hrun; injection Hrun as <-; try exact Hdrop;
    cbn [threads states m_fibers set_thread set_fstate];
    try (by apply Hfib); apply Hcb; cbn; try done; tauto.
Qed.

Lemma fix_exclusive i l f b s :
  exclusive (m_fibers s) (threads s) (states s) -> threads s !! i = Some l -> l_pc l = Fix f b ->
  exclusive (m_fibers (run_fix i l f b s)) (threads (run_fix i l f b s)) (states (run_fix i l f b s)).
Proof.
  intros Hex Hl Hpc.
  assert (own_of l = Some f) as Ho by (unfold own_of; by rewrite Hpc).
  assert (own_ok (m_fibers s) (states s) l) as Hok
    by (pose proof (Forall_lookup_1 _ _ _ _ (ex_ok _ _ _ Hex) Hl); done).
  unfold own_ok in Hok. rewrite Hpc in Hok. destruct Hok as [Hstf Hb].
  assert (is_Some (states s !! f)) as Hkf.
  { apply (ex_known _ _ _ Hex). rewrite !elem_of_app. right. right. left.
    apply list_elem_of_omap. exists l. split; [by eapply list_elem_of_lookup_2|done]. }
  assert (forall l' x, l_pc l' = Top ->
    (l_cb_fiber l' = (if b then None else l_cb_fiber l)
     \/ (l_cb_fiber l' = l_cb_fiber l /\ f ∉ queued (m_fibers s)
         /\ (b = true -> x = INIT \/ x = TERM \/ x = EXCEPT))) ->
    exclusive (m_fibers s) (<[i := l']> (threads s)) (<[f := x]> (states s))) as Hset.
  { intros l' x Hpc' Hc'. eapply exclusive_insert; [done..|]. intros R _ HR.
    eapply exclusive_release; try done.
    - intros g Hg. by apply state_of_insert_ne.
    - intros g Hg. destruct (decide (f = g)) as [->|]; [rewrite lookup_insert_eq; by eexists|].
      by rewrite lookup_insert_ne.
    - intros g Hg. destruct (decide (f = g)) as [->|]; [rewrite lookup_insert_eq; by eexists|].
      rewrite lookup_insert_ne by done. apply (ex_known _ _ _ Hex). apply elem_of_app. by left.
    - pose proof (ex_pend _ _ _ HR) as Hnd. rewrite omap_cons_opt in Hnd.
      unfold got_of at 1 in Hnd. by rewrite Hpc in Hnd.
    - apply Hex.
    - rewrite state_of_insert. done. }
  assert (forall x, state_of (states s) f = x -> exclusive (m_fibers s) (<[i := at_pc Top l]> (threads s)) (<[f := x]> (states s))
    -> exclusive (m_fibers s) (<[i := at_pc Top l]> (threads s)) (states s)) as Hsame.
  { intros x Hx. rewrite insert_id; [done|]. destruct Hkf as [y Hy]. unfold state_of in Hx.
    rewrite Hy in *. cbn in Hx. congruence. }
  unfold run_fix. destruct (state_of (states s) f) eqn:Est;
    cbn [set_thread set_fstate m_fibers threads states].
  1-3: apply Hset; [done|by left].
  - destruct Hstf as [|[_ Hnq]]; [done|]. destruct b; cbn [set_thread set_fstate m_fibers threads states].
    + apply Hset; [done|]. right. tauto.
    + apply (Hsame TERM); [done|]. apply Hset; [done|by left].
  - destruct Hstf as [|[_ Hnq]]; [done|].
    destruct (schedule_fields (FT_fiber (Some f) (-1)) s) as (Ht & _ & _ & _ & _ & Hs).
    rewrite Ht, Hs, schedule_queue by (left; done).
    eapply exclusive_insert; [done..|]. intros R _ HR.
    assert (forall g, g ∈ queued (m_fibers s ++ [FT_fiber (Some f) (-1)]) <-> g ∈ queued (m_fibers s) \/ g = f) as Hq.
    { intros g. rewrite queued_app, elem_of_app. unfold queued at 2. cbn. by rewrite list_elem_of_singleton. }
    eapply exclusive_release; try done.
    + intros g Hg [?|?]%Hq; done.
    + intros g [Hg| ->]%Hq; [|done]. apply (ex_known _ _ _ Hex). apply elem_of_app. by left.
    + pose proof (ex_pend _ _ _ HR) as Hnd. rewrite omap_cons_opt in Hnd.
      unfold got_of at 1 in Hnd. rewrite Hpc in Hnd. cbn in Hnd.
      rewrite queued_app. unfold queued at 2. cbn. rewrite <-app_assoc. cbn.
      rewrite <-Permutation_middle. constructor; [|done]. rewrite elem_of_app. intros [?|Hin]; [done|].
      destruct (ex_got _ _ _ HR f) as (G & _); [rewrite omap_cons_opt; apply elem_of_app; by right|].
      apply G. rewrite omap_cons_opt, Ho. left.
    + apply Forall_app. split; [apply Hex|]. apply Forall_singleton. by left.
    + by left.
  - destruct Hstf as [|[_ Hnq]]; [done|]. destruct b; cbn [set_thread set_fstate m_fibers threads states].
    + apply Hset; [done|]. right. tauto.
    + apply (Hsame EXCEPT); [done|]. apply Hset; [done|by left].
Qed.

Lemma step_exclusive s lab s' :
  step s lab s' -> disciplined s lab ->
  exclusive (m_fibers s) (threads s) (states s) -> exclusive (m_fibers s') (threads s') (states s').
Proof.
  intros Hstep Hd Hex.
  destruct Hstep as [i l s s' Hl Hpc Hrun|fresh i l ft s s' Hl Hpc Hfr Hrun|i l f b s Hl Hpc|i l f b s Hl Hpc
    |i l f b how s Hl Hpc Hhow|i l f b s Hl Hpc|i l f b s Hl Hpc|i l s Hl Hpc|i l s Hl Hpc|f s Hf|ft s Hk Hft|s].
  - unfold run_pick in Hrun. destruct (pick_loop _ _ _ _ _) as [[[tm o] q']|] eqn:Hp; [|done].
    pose proof (pick_loop_perm _ _ _ _ _ _ _ _ Hp) as Hq. cbn in Hq.
    destruct o as [ft|]; injection Hrun as <-.
    + replace (exclusive _ _ _) with
        (exclusive q' (<[i := at_pc (Got ft) l]> (threads s)) (states s)) by (by destruct tm).
      eapply exclusive_insert; [done..|]. intros R _ HR.
      eapply (exclusive_take _ ft); try done; [unfold got_of; by rewrite Hpc|unfold own_of; by rewrite Hpc|].
      by eapply pick_runnable.
    + replace (exclusive _ _ _) with
        (exclusive q' (<[i := at_pc NoTask l]> (threads s)) (states s)) by (by destruct tm).
      eapply exclusive_insert; [done..|]. intros R _ HR.
      assert (m_fibers s = q') as <-.
      { destruct (first_runnable (l_tid l) (states s) (m_fibers s)) as [[[q1 ft] q2]|] eqn:Ef;
          rewrite pick_loop_eq, Ef in Hp by apply Hex; by injection Hp. }
      eapply exclusive_same; try done; [unfold got_of|unfold own_of]; by rewrite Hpc.
  - by eapply start_exclusive.
  - cbn. eapply exclusive_insert; [done..|]. intros R _ HR. eapply exclusive_leave; try done. by left.
  - cbn. eapply exclusive_insert; [done..|]. intros R _ HR. eapply exclusive_same; try done;
      [unfold got_of; by rewrite Hpc|unfold own_of; by rewrite Hpc|].
    pose proof (ex_ok _ _ _ HR) as Hok. apply Forall_cons in Hok as [Hok _].
    unfold own_ok in *. cbn. rewrite Hpc in Hok. tauto.
  - cbn. eapply exclusive_insert; [done..|]. intros R _ HR. eapply exclusive_leave; try done. tauto.
  - cbn. eapply exclusive_insert; [done..|]. intros R _ HR. eapply exclusive_same; try done;
      [unfold got_of; by rewrite Hpc|unfold own_of; by rewrite Hpc|].
    pose proof (ex_ok _ _ _ HR) as Hok. apply Forall_cons in Hok as [Hok _].
    unfold own_ok in *. cbn. by rewrite Hpc in Hok.
  - by apply fix_exclusive.
  - unfold run_idle. destruct (l_idle_term l); cbn; (eapply exclusive_insert; [done..|]); intros R _ HR;
      (eapply exclusive_same; [exact HR|..]; cbn; unfold got_of, own_of; by rewrite ?Hpc).
  - cbn. eapply exclusive_insert; [done..|]. intros R _ HR.
    eapply exclusive_same; [exact HR|..]; cbn; unfold got_of, own_of; by rewrite ?Hpc.
  - cbn. by apply exclusive_new.
  - destruct (schedule_fields ft s) as (Ht & _ & _ & _ & _ & Hs). rewrite Ht, Hs, schedule_queue by done.
    apply exclusive_schedule; try done. intros f Hf. destruct (Hd f Hf) as (? & ? & ?). auto.
  - done.
Qed.

(** ** Tasks *)

Lemma step_tasks s lab s' :
  step s lab s' ->
  match lab with LSchedule ft | LResched ft => [ft] | _ => [] end ++ m_fibers s
  ≡ₚ match lab with LTake ft => [ft] | _ => [] end ++ m_fibers s'.
Proof.
  intros Hstep.
  destruct Hstep as [i l s s' Hl Hpc Hrun|fresh i l ft s s' Hl Hpc Hfr Hrun|i l f b s Hl Hpc|i l f b s Hl Hpc
    |i l f b how s Hl Hpc Hhow|i l f b s Hl Hpc|i l f b s Hl Hpc|i l s Hl Hpc|i l s Hl Hpc|f s Hf|ft s Hk Hft|s];
    try done.
  - unfold run_pick in Hrun. destruct (pick_loop _ _ _ _ _) as [[[tm o] q']|] eqn:Hp; [|done].
    pose proof (pick_loop_perm _ _ _ _ _ _ _ _ Hp) as Hq. cbn in Hq.
    assert (i < length (threads s))%nat as Hlt by (by eapply lookup_lt_Some).
    destruct o as [ft|]; injection Hrun as <-.
    + assert (take_label (<[i := at_pc (Got ft) l]> (threads s) !! i) = LTake ft) as Hlab
        by (by rewrite list_lookup_insert_eq).
      destruct tm; cbn; rewrite Hlab; done.
    + assert (take_label (<[i := at_pc NoTask l]> (threads s) !! i) = LTau) as Hlab
        by (by rewrite list_lookup_insert_eq).
      destruct tm; cbn; rewrite Hlab; done.
  - unfold run_start in Hrun.
    destruct (ft_fiber ft) as [f|]; [destruct (bool_decide _)|]; try destruct (decide _);
      try destruct (ft_cb ft) as [cb|]; try destruct (l_cb_fiber l) as [c|]; try destruct (bool_decide _);
      try discriminate Hrun; injection Hrun as <-; done.
  - unfold fix_label, run_fix. destruct (state_of (states s) f); cbn -[schedule];
      try (by destruct b).
    rewrite schedule_queue by (by left). by rewrite <-Permutation_cons_append.
  - unfold run_idle. by destruct (l_idle_term l).
  - rewrite schedule_queue by done. by rewrite <-Permutation_cons_append.
Qed.

(** [step_pick] with its label given. *)
Lemma step_pick_as i l lab s s' :
  threads s !! i = Some l -> l_pc l = Top -> run_pick i l s = Ok s' ->
  take_label (threads s' !! i) = lab -> step s lab s'.
Proof. intros Hl Hpc Hrun <-. by apply (step_pick i l). Qed.

Lemma Scheduler_new_exclusive tids :
  exclusive (m_fibers (@Scheduler_new C tids)) (threads (@Scheduler_new C tids))
    (states (@Scheduler_new C tids)).
Proof.
  cbn. assert (forall g : local C -> option nat,
    (forall t, g (mkLocal t Top None false) = None) ->
    omap g ((fun t => mkLocal t Top None false) <$> tids) = []) as Hnil.
  { intros g Hg. induction tids as [|t tids IH]; cbn; [done|]. by rewrite Hg. }
  constructor; rewrite ?Hnil by done; cbn; try by constructor.
  - intros f Hf. by apply not_elem_of_nil in Hf.
  - apply Forall_fmap, Forall_true. done.
  - apply Forall_fmap, Forall_true. intros t c. done.
  - intros f Hf. by apply not_elem_of_nil in Hf.
Qed.

Lemma Scheduler_new_counted tids :
  Z.of_nat (length tids) < 2 ^ 64 -> counted (@Scheduler_new C tids).
Proof.
  intros Hlen. constructor; cbn.
  - unfold count. rewrite list_filter_none; [done|]. apply Forall_fmap, Forall_true. done.
  - unfold count. rewrite list_filter_none; [done|]. apply Forall_fmap, Forall_true. done.
  - by rewrite length_fmap.
  - apply Forall_fmap, Forall_true. intros t. cbn. by intros [?|?].
Qed.

(** ** Properties *)

(** C6: the counters in every interleaving.  The active count is the number of
    threads between taking a task and the decrement after [swapIn], the idle count the
    number of threads in the idle fiber, neither wraps; a worker has left its loop only
    if [stop] was called.  When [stopping()] is true the queue is empty, and a thread that
    still has a task at hand is past the decrement and about to decide what becomes of
    its fiber.  That exception is real: see [stopping_too_early]. *)
Theorem counters_exact tids sched taken s :
  Z.of_nat (length tids) < 2 ^ 64 -> reach (Scheduler_new tids) sched taken s ->
  m_activeThreadCount s = count is_counted (threads s)
  /\ m_idleThreadCount s = count is_idle (threads s)
  /\ (stopping s = true -> m_fibers s = []
      /\ Forall (fun l => is_active l = true -> exists f b, l_pc l = Fix f b) (threads s))
  /\ Forall (fun l => l_pc l = Exited -> m_autoStop s = true /\ m_stopping s = true) (threads s).
Proof.
  intros Hlen Hr. assert (counted s) as [Ha Hi Hf He].
  { induction Hr as [|sched taken s lab s' _ IH Hst]; [by apply Scheduler_new_counted|].
    by eapply step_counted. }
  split_and!; try done.
  - unfold stopping. intros [[_ Hq]%andb_true_iff Hz]%andb_true_iff. apply Z.eqb_eq in Hz.
    split; [by destruct (m_fibers s)|]. apply Forall_lookup. intros i l Hl Hact.
    assert (is_counted l = false) as Hc.
    { destruct (is_counted l) eqn:E; [|done]. pose proof (count_pos is_counted _ _ _ Hl E). lia. }
    unfold is_active in Hact. unfold is_counted in Hc. destruct (l_pc l); try done. by eexists _, _.
  - apply (Forall_impl _ _ _ He). tauto.
Qed.

(** C7: no task is lost, duplicated or made up: in every interleaving the
    tasks ever scheduled are those taken by a worker and those in the queue. *)
Theorem no_task_lost tids sched taken s :
  reach (Scheduler_new tids) sched taken s -> sched ≡ₚ taken ++ m_fibers s.
Proof.
  induction 1 as [|sched taken s lab s' _ IH Hst]; [done|].
  apply step_tasks in Hst. destruct lab as [|ft|f|f|ft|ft]; cbn in *;
    try (by rewrite IH, Hst); try (rewrite <-Hst, IH; by rewrite Permutation_middle).
  rewrite IH, Hst. by rewrite Permutation_middle.
Qed.

(** C2: exclusive execution. When clients schedule a fiber only while it is
    not already waiting, no fiber is ever on the stack of two threads, a fiber
    handed to a thread is on no stack, and neither the assertion of the search
    nor those of [swapIn] and [reset] can fail. *)
Theorem exclusive_execution tids s :
  dreach (Scheduler_new tids) s ->
  (forall i j l l' f, threads s !! i = Some l -> threads s !! j = Some l' ->
     own_of l = Some f -> own_of l' = Some f -> i = j)
  /\ (forall i j l l' f, threads s !! i = Some l -> threads s !! j = Some l' ->
     got_of l = Some f -> own_of l' <> Some f)
  /\ (forall i l, threads s !! i = Some l -> exists s', run_pick i l s = Ok s')
  /\ (forall fresh i l ft, threads s !! i = Some l -> l_pc l = Got ft ->
     exists s', run_start fresh i l ft s = Ok s').
Proof.
  intros Hr. assert (exclusive (m_fibers s) (threads s) (states s)) as Hex.
  { induction Hr as [|s lab s' _ IH Hst Hd]; [apply Scheduler_new_exclusive|].
    by eapply step_exclusive. }
  pose proof Hex as [H1 H2 H3 H4 H5 H6 H7 H8]. split_and!.
  - intros i j l l' f Hi Hj Hl Hl'. destruct (decide (i = j)) as [|Hne]; [done|]. exfalso.
    destruct (thread_insert _ _ _ Hi) as (R & Hp & Hp').
    rewrite Hp, omap_cons_opt, Hl in H2. apply NoDup_cons in H2 as [Hn _]. apply Hn.
    apply list_elem_of_omap. exists l'. split; [|done].
    assert (l' ∈ <[i := at_pc Exited l]> (threads s)) as Hin.
    { eapply list_elem_of_lookup_2. by rewrite list_lookup_insert_ne. }
    rewrite Hp' in Hin. apply elem_of_cons in Hin as [->|Hin]; [done|done].
  - intros i j l l' f Hi Hj Hg Ho. destruct (H4 f) as (Hn & _).
    + apply list_elem_of_omap. exists l. split; [by eapply list_elem_of_lookup_2|done].
    + apply Hn, list_elem_of_omap. exists l'. split; [by eapply list_elem_of_lookup_2|done].
  - intros i l Hl. unfold run_pick. rewrite pick_loop_eq by done.
    destruct (first_runnable _ _ _) as [[[q1 ft] q2]|]; by eexists.
  - intros fresh i l ft Hl Hpc. unfold run_start.
    assert (own_of l = None) as Ho by (unfold own_of; by rewrite Hpc).
    pose proof (Forall_lookup_1 _ _ _ _ H6 Hl) as Hcb.
    assert (forall c, l_cb_fiber l = Some c -> bool_decide (state_of (states s) c = TERM
      \/ state_of (states s) c = EXCEPT \/ state_of (states s) c = INIT) = true) as Hreset.
    { intros c Hc. apply bool_decide_eq_true_2. destruct (Hcb c Hc) as [E|(_ & _ & ?)]; [congruence|tauto]. }
    destruct (ft_fiber ft) as [f|] eqn:Ef.
    + destruct (H4 f) as (_ & _ & Hne).
      { apply list_elem_of_omap. exists l. split; [by eapply list_elem_of_lookup_2|].
        unfold got_of. by rewrite Hpc. }
      destruct (bool_decide _); [|destruct (decide _); [done|by eexists]].
      destruct (ft_cb ft) as [cb0|]; [|by eexists].
      destruct (l_cb_fiber l) as [c|] eqn:Ec; [rewrite Hreset by done|]; by eexists.
    + destruct (ft_cb ft) as [cb0|]; [|by eexists].
      destruct (l_cb_fiber l) as [c|] eqn:Ec; [rewrite Hreset by done|]; by eexists.
Qed.

(** The search takes the first task in the queue that this thread may
    run now (not bound to another thread, its fiber not executing), leaves the
    others in their order, and wakes other threads exactly when it passed over a
    task bound to one of them. *)
Theorem pick_takes_first_runnable tid st q :
  Forall (fun ft => ft_fiber ft <> None \/ ft_cb ft <> None) q ->
  (exists q1 ft q2, q = q1 ++ ft :: q2 /\ runnable tid st ft = true
     /\ Forall (fun ft => runnable tid st ft = false) q1
     /\ pick_loop tid st [] q false = Ok (existsb (foreign tid) q1, Some ft, q1 ++ q2))
  \/ (Forall (fun ft => runnable tid st ft = false) q
      /\ pick_loop tid st [] q false = Ok (existsb (foreign tid) q, None, q)).
Proof.
  intros Hq. rewrite pick_loop_eq by done.
  destruct (first_runnable tid st q) as [[[q1 ft] q2]|] eqn:E.
  - left. exists q1, ft, q2. apply first_runnable_spec in E as (-> & ? & ?). done.
  - right. apply first_runnable_none in E. done.
Qed.
End SchedulerSpec.

(** ** Concrete schedulers *)

(** Two workers; the fiber 7 is created and scheduled twice, both workers take
    it, the first swaps it in. *)
Definition race_taken : Scheduler nat :=
  let ft := FT_fiber (Some 7%nat) (-1) in
  set_thread 1 (at_pc (Got ft) (mkLocal 2 Top None false)) (set_active 2 (set_queue []
    (set_thread 0 (at_pc (Got ft) (mkLocal 1 Top None false))
      (set_active 1 (set_queue [ft]
        (schedule ft (schedule ft (set_fstate 7 INIT (Scheduler_new [1; 2]))))))))).

Definition race : Scheduler nat :=
  set_thread 0 (at_pc (Exec 7 false) (mkLocal 1 Top None false)) (set_fstate 7 EXEC race_taken).

Lemma race_reach :
  reach (Scheduler_new [1; 2]) [FT_fiber (Some 7%nat) (-1); FT_fiber (Some 7%nat) (-1)]
    [FT_fiber (Some 7%nat) (-1); FT_fiber (Some 7%nat) (-1)] race.
Proof.
  set (ft := @FT_fiber nat (Some 7%nat) (-1)).
  set (s1 := set_fstate 7 INIT (@Scheduler_new nat [1; 2])).
  assert (forall s, states s = states s1 -> step s (LSchedule ft) (schedule ft s)) as Hsch.
  { intros s Hs. apply step_schedule; [|by left]. intros f [= <-]. rewrite Hs. by eexists. }
  assert (reach (Scheduler_new [1; 2]) [] [] s1) as R1
    by (apply (reach_step _ _ _ _ LTau _ (reach_refl _)), (step_new_fiber 7); reflexivity).
  assert (reach (Scheduler_new [1; 2]) [ft] [] (schedule ft s1)) as R2
    by (apply (reach_step _ _ _ _ (LSchedule ft) _ R1), Hsch; reflexivity).
  assert (reach (Scheduler_new [1; 2]) [ft; ft] [] (schedule ft (schedule ft s1))) as R3
    by (apply (reach_step _ _ _ _ (LSchedule ft) _ R2), Hsch; reflexivity).
  assert (reach (Scheduler_new [1; 2]) [ft; ft] [ft]
    (set_thread 0 (at_pc (Got ft) (mkLocal 1 Top None false))
      (set_active 1 (set_queue [ft] (schedule ft (schedule ft s1)))))) as R4
    by (apply (reach_step _ _ _ _ (LTake ft) _ R3), (step_pick_as 0 (mkLocal 1 Top None false)); vm_compute; reflexivity).
  assert (reach (Scheduler_new [1; 2]) [ft; ft] [ft; ft] race_taken) as R5
    by (apply (reach_step _ _ _ _ (LTake ft) _ R4), (step_pick_as 1 (mkLocal 2 Top None false)); vm_compute; reflexivity).
  apply (reach_step _ _ _ _ LTau _ R5).
  apply (step_start 9 0 (at_pc (Got ft) (mkLocal 1 Top None false)) ft race_taken race); vm_compute; reflexivity.
Qed.

(** Scheduling a fiber twice before it runs is not safe: between taking
    a task and marking its fiber as executing another worker can take the same
    fiber, and the assertion in its [swapIn] fails. *)
Theorem double_schedule_race :
  exists taken s i l ft, @reach nat (Scheduler_new [1; 2]) [ft; ft] taken s
    /\ threads s !! i = Some l /\ l_pc l = Got ft
    /\ forall fresh, run_start fresh i l ft s = Err AssertFail.
Proof.
  eexists _, race, 1%nat, (at_pc (Got (FT_fiber (Some 7%nat) (-1))) (mkLocal 2 Top None false)), _.
  split; [exact race_reach|]. split; [vm_compute; reflexivity|].
  split; [vm_compute; reflexivity|]. intros fresh. vm_compute. reflexivity.
Qed.

(** Two workers; the fiber 7 is scheduled once, [stop] is called, the first worker
    runs the fiber, which yields to be run again, and takes itself off the count. *)
Definition early : Scheduler nat :=
  set_thread 0 (at_pc (Fix 7 false) (mkLocal 1 Top None false)) (set_active 0 (set_fstate 7 READY
    (set_active 1 (set_queue [] (set_stop true
      (schedule (FT_fiber (Some 7%nat) (-1)) (set_fstate 7 INIT (Scheduler_new [1; 2])))))))).

Lemma early_reach :
  reach (Scheduler_new [1; 2]) [FT_fiber (Some 7%nat) (-1)] [FT_fiber (Some 7%nat) (-1)] early.
Proof.
  set (ft := @FT_fiber nat (Some 7%nat) (-1)).
  set (l0 := @mkLocal nat 1 Top None false).
  set (s1 := set_fstate 7 INIT (@Scheduler_new nat [1; 2])).
  set (s2 := set_stop true (schedule ft s1)). set (s3 := set_active 1 (set_queue [] s2)).
  assert (reach (Scheduler_new [1; 2]) [] [] s1) as R1
    by (apply (reach_step _ _ _ _ LTau _ (reach_refl _)), (step_new_fiber 7); reflexivity).
  assert (reach (Scheduler_new [1; 2]) [ft] [] (schedule ft s1)) as R2.
  { apply (reach_step _ _ _ _ (LSchedule ft) _ R1), step_schedule; [|by left]. intros f [= <-]. by eexists. }
  assert (reach (Scheduler_new [1; 2]) [ft] [] s2) as R3
    by (apply (reach_step _ _ _ _ LTau _ R2), step_stop).
  assert (reach (Scheduler_new [1; 2]) [ft] [ft] (set_thread 0 (at_pc (Got ft) l0) s3)) as R4
    by (apply (reach_step _ _ _ _ (LTake ft) _ R3), (step_pick_as 0 l0); vm_compute; reflexivity).
  set (s5 := set_thread 0 (at_pc (Exec 7 false) l0) (set_fstate 7 EXEC s3)).
  assert (reach (Scheduler_new [1; 2]) [ft] [ft] s5) as R5
    by (apply (reach_step _ _ _ _ LTau _ R4), (step_start 9 0 (at_pc (Got ft) l0) ft); vm_compute; reflexivity).
  set (s6 := set_thread 0 (at_pc (Back 7 false) l0) (set_fstate 7 READY s5)).
  assert (reach (Scheduler_new [1; 2]) [ft] [ft] s6) as R6.
  { apply (reach_step _ _ _ _ (LYieldReady 7) _ R5).
    apply (step_yield_ready 0 (at_pc (Exec 7 false) l0) 7 false); reflexivity. }
  replace early with (set_thread 0 (at_pc (Fix 7 false) l0) (set_active (u64 (m_activeThreadCount s6 - 1)) s6))
    by (vm_compute; reflexivity).
  apply (reach_step _ _ _ _ LTau _ R6), (step_back 0 (at_pc (Back 7 false) l0)); reflexivity.
Qed.

(** [stopping()] can be true too early: a worker that has just taken itself off the
    active count holds a fiber that wants to run again; an idle worker that looks now
    leaves for good; then the fiber is put back and the scheduler is not stopping any
    more. *)
Theorem stopping_too_early :
  reach (Scheduler_new [1; 2]) [FT_fiber (Some 7%nat) (-1)] [FT_fiber (Some 7%nat) (-1)] early
  /\ stopping early = true
  /\ (exists l, threads early !! 0%nat = Some l /\ l_pc l = Fix 7 false /\ state_of (states early) 7 = READY)
  /\ let s := run_fix 0 (at_pc (Fix 7 false) (mkLocal 1 Top None false)) 7 false early in
     m_fibers s = [FT_fiber (Some 7%nat) (-1)] /\ stopping s = false.
Proof.
  split; [exact early_reach|]. split; [vm_compute; reflexivity|]. split; [|vm_compute; done].
  eexists. split_and!; vm_compute; reflexivity.
Qed.

Lemma counters_exact_witness :
  m_activeThreadCount race = count is_counted (threads race)
  /\ m_idleThreadCount race = count is_idle (threads race)
  /\ (stopping race = true -> m_fibers race = []
      /\ Forall (fun l => is_active l = true -> exists f b, l_pc l = Fix f b) (threads race))
  /\ Forall (fun l => l_pc l = Exited -> m_autoStop race = true /\ m_stopping race = true) (threads race).
Proof.
  apply (counters_exact [1; 2] [FT_fiber (Some 7%nat) (-1); FT_fiber (Some 7%nat) (-1)]
    [FT_fiber (Some 7%nat) (-1); FT_fiber (Some 7%nat) (-1)] race); [cbn; lia|exact race_reach].
Defined.

Lemma no_task_lost_witness :
  [@FT_fiber nat (Some 7%nat) (-1); FT_fiber (Some 7%nat) (-1)]
  ≡ₚ [FT_fiber (Some 7%nat) (-1); FT_fiber (Some 7%nat) (-1)] ++ m_fibers race.
Proof.
  apply (no_task_lost [1; 2] [FT_fiber (Some 7%nat) (-1); FT_fiber (Some 7%nat) (-1)]
    [FT_fiber (Some 7%nat) (-1); FT_fiber (Some 7%nat) (-1)] race), race_reach.
Defined.

(** One worker holds the fiber 7 it was given. *)
Definition held : Scheduler nat :=
  let ft := FT_fiber (Some 7%nat) (-1) in
  set_thread 0 (at_pc (Got ft) (mkLocal 1 Top None false))
    (set_active 1 (set_queue [] (schedule ft (set_fstate 7 INIT (Scheduler_new [1; 2]))))).

Lemma held_dreach : dreach (Scheduler_new [1; 2]) held.
Proof.
  set (ft := @FT_fiber nat (Some 7%nat) (-1)).
  set (s1 := set_fstate 7 INIT (@Scheduler_new nat [1; 2])).
  assert (dreach (Scheduler_new [1; 2]) s1) as R1
    by (eapply (dreach_step _ _ LTau _ (dreach_refl _)); [apply (step_new_fiber 7); reflexivity|done]).
  assert (dreach (Scheduler_new [1; 2]) (schedule ft s1)) as R2.
  { eapply (dreach_step _ _ (LSchedule ft) _ R1).
    - apply step_schedule; [|by left]. intros f [= <-]. by eexists.
    - intros f [= <-]. cbn. split_and!; try apply not_elem_of_nil. right. split; [by left|].
      apply not_elem_of_nil. }
  eapply (dreach_step _ _ (LTake ft) _ R2); [|done].
  apply (step_pick_as 0 (mkLocal 1 Top None false)); vm_compute; reflexivity.
Qed.

Lemma exclusive_execution_witness :
  (forall i j l l' f, threads held !! i = Some l -> threads held !! j = Some l' ->
     own_of l = Some f -> own_of l' = Some f -> i = j)
  /\ (forall i j l l' f, threads held !! i = Some l -> threads held !! j = Some l' ->
     got_of l = Some f -> own_of l' <> Some f)
  /\ (forall i l, threads held !! i = Some l -> exists s', run_pick i l held = Ok s')
  /\ (forall fresh i l ft, threads held !! i = Some l -> l_pc l = Got ft ->
     exists s', run_start fresh i l ft held = Ok s').
Proof. apply (exclusive_execution [1; 2] held), held_dreach. Defined.

Lemma pick_takes_first_runnable_witness :
  let q := [mkFT 5 None (Some 1%nat); mkFT (-1) None (Some 2%nat)] in
  (exists q1 ft q2, q = q1 ++ ft :: q2 /\ runnable 1 ∅ ft = true
     /\ Forall (fun ft => runnable 1 ∅ ft = false) q1
     /\ pick_loop 1 ∅ [] q false = Ok (existsb (foreign 1) q1, Some ft, q1 ++ q2))
  \/ (Forall (fun ft => runnable 1 ∅ ft = false) q
      /\ pick_loop 1 ∅ [] q false = Ok (existsb (foreign 1) q, None, q)).
Proof.
  apply (pick_takes_first_runnable 1 ∅ [mkFT 5 None (Some 1%nat); mkFT (-1) None (Some 2%nat)]).
  repeat (apply Forall_cons; split); try apply Forall_nil; try done; by right.
Defined.
