(* ===== verification/SchedulerLife.v ===== *)
(** * The life of a scheduler ([src/src/scheduler.cc])

    Construction, the creation of the threads in [Scheduler::start], the phases of
    [Scheduler::stop] up to the joining of the threads, and destruction, around the
    steps of the run loops of [SchedulerSpec].  The theorem is that stopping drains
    the queue. *)
From S2P Require Import Prelude CString Fiber Scheduler SchedulerSpec.

(** [src/src/scheduler.cc:9-10 t_current_scheduler]
    The scheduler of every thread, by its id: [thread_local]. *)
Definition CurrentSchedulers : Type := gmap Z nat.

(** [src/include/sylar/scheduler.hh:147-224 Scheduler]
    What the thread that owns a scheduler uses, with lines 108 and 114 to 115: the
    address of the object, the state of the root fiber, and the created threads as
    positions in [threads]. *)
Record Owner := mkOwner {
  o_this : nat;
  m_name : bytes;
  m_rootFiber : option State;
  m_rootThread : Z;
  m_threadCount : nat;
  m_threads : list nat;
  m_threadIds : list Z
}.

(** [src/src/scheduler.cc:15-42 Scheduler::Scheduler]
    By thread [tid], with [cur] the thread-local pointers; [threads] is a [size_t].
    The pointers afterwards come with the object. *)
Definition Scheduler_ctor (this threads : nat) (include_caller_thread : bool) (name : bytes) (tid : Z)
    (cur : CurrentSchedulers) : result (Owner * CurrentSchedulers) :=
  if (threads =? 0)%nat then Err AssertFail else
  if include_caller_thread then
    if decide (cur !! tid = None)
    then Ok (mkOwner this name (Some INIT) tid (threads - 1) [] [tid], <[tid := this]> cur)
    else Err AssertFail
  else Ok (mkOwner this name None (-1) threads [] [], cur).

(** [src/src/scheduler.cc:44-50 Scheduler::~Scheduler] *)
Definition Scheduler_dtor (this : nat) (stopping_flag : bool) (tid : Z) (cur : CurrentSchedulers)
    : result CurrentSchedulers :=
  if negb stopping_flag then Err AssertFail
  else Ok (if decide (cur !! tid = Some this) then delete tid cur else cur).

(** [src/src/scheduler.cc:52-55 Scheduler::GetCurrentScheduler] *)
Definition GetCurrentScheduler (tid : Z) (cur : CurrentSchedulers) : option nat := cur !! tid.

(** [src/src/scheduler.cc:135-135 Scheduler::setCurrentScheduler] *)
Definition setCurrentScheduler (this : nat) (tid : Z) (cur : CurrentSchedulers) : CurrentSchedulers :=
  <[tid := this]> cur.

(** [src/src/scheduler.cc:137-148 Scheduler::run]
    Entering the loop: the main fiber of the thread (line 57 returns it; the root
    thread's is set by the constructor), the hooks and the current scheduler. *)
Definition run_enter (this : nat) (rootThread tid : Z) (current_fiber : nat) (main : gmap Z nat)
    (cur : CurrentSchedulers) : gmap Z nat * bool * CurrentSchedulers :=
  (if tid =? rootThread then main else <[tid := current_fiber]> main, true, setCurrentScheduler this tid cur).

Section Life.
Context {C : Type}.
Implicit Types (s : Scheduler C) (l : local C) (ft : FiberAndThread C).

(** Where [stop] is: not called, past its first part, calling the root fiber, joining
    the threads [rest], or back; [called] says whether the root fiber was called. *)
Inductive stop_pc :=
| S_none
| S_flagged
| S_root
| S_join (called : bool) (rest : list nat)
| S_returned (called : bool).

Record Life := mkLife { sch : Scheduler C; own : Owner; phase : stop_pc; started : bool }.

(** A new scheduler; the caller's place in the loop waits for the root fiber. *)
Definition Life_new (o : Owner) : Life :=
  mkLife (Scheduler_new (match m_rootFiber o with Some _ => [m_rootThread o] | None => [] end)) o S_none false.

(** [src/src/scheduler.cc:59-81 Scheduler::start]
    [tids] are the ids that the system gives the new threads. *)
Definition start_threads (tids : list Z) (x : Life) : result Life :=
  let s := sch x in let o := own x in
  if negb (m_stopping s) then Ok x else
  match start (match m_threads o with [] => false | _ => true end) s with
  | Err e => Err e
  | Ok s =>
      let new := (fun t => mkLocal t Top None false) <$> tids in
      let first := length (threads s) in
      Ok (mkLife (mkScheduler (m_fibers s) (m_activeThreadCount s) (m_idleThreadCount s) (m_stopping s)
                    (m_autoStop s) (states s) (threads s ++ new) (tickles s))
            (mkOwner (o_this o) (m_name o) (m_rootFiber o) (m_rootThread o) (m_threadCount o)
               (seq first (length tids)) (m_threadIds o ++ tids))
            (phase x) true)
  end.

(** [src/src/scheduler.cc:83-113 Scheduler::stop]
    The flags, the early return of a scheduler without threads, the assertions and
    the wake-ups. *)
Definition stop_flags (caller_is : bool) (x : Life) : result Life :=
  let s := sch x in let o := own x in let root := m_rootFiber o in
  let s := mkScheduler (m_fibers s) (m_activeThreadCount s) (m_idleThreadCount s) (m_stopping s) true
             (states s) (threads s) (tickles s) in
  let early := bool_decide (root = Some TERM \/ root = Some INIT) && (m_threadCount o =? 0)%nat in
  let s := if early then set_stop true s else s in
  if early && stopping s then Ok (mkLife s o (S_returned false) (started x)) else
  if negb (Bool.eqb (negb (m_rootThread o =? -1)) caller_is) then Err AssertFail else
  Ok (mkLife (tickle_n (m_threadCount o) (set_stop true s)) o S_flagged (started x)).

Definition set_threads (ts : list nat) (o : Owner) : Owner :=
  mkOwner (o_this o) (m_name o) (m_rootFiber o) (m_rootThread o) (m_threadCount o) ts (m_threadIds o).

(** [src/src/scheduler.cc:125-132 Scheduler::stop]
    Taking the threads out of the object, to be joined. *)
Definition take_threads (called : bool) (x : Life) : Life :=
  mkLife (sch x) (set_threads [] (own x)) (S_join called (m_threads (own x))) (started x).

(** [src/src/scheduler.cc:115-122 Scheduler::stop]
    The root fiber is called unless there is nothing left to do. *)
Definition stop_call (x : Life) : Life :=
  match m_rootFiber (own x) with
  | None => take_threads false x
  | Some _ =>
      let s := tickle (sch x) in
      if negb (stopping s) then mkLife s (own x) S_root (started x)
      else take_threads false (mkLife s (own x) (phase x) (started x))
  end.

(** [src/src/scheduler.cc:130-132 Scheduler::stop]
    One round of joining: the thread at hand must have left [run]. *)
Definition join_next (x : Life) : option Life :=
  match phase x with
  | S_join called [] => Some (mkLife (sch x) (own x) (S_returned called) (started x))
  | S_join called (i :: rest) =>
      match threads (sch x) !! i with
      | Some l => match l_pc l with
                  | Exited => Some (mkLife (sch x) (own x) (S_join called rest) (started x))
                  | _ => None
                  end
      | None => None
      end
  | _ => None
  end.

(** Whether the caller's place in the loop does not move: it is the first thread
    and runs only while [stop] calls it. *)
Definition frozen (x : Life) : bool :=
  match m_rootFiber (own x), phase x with Some _, S_root => false | Some _, _ => true | None, _ => false end.

(** What anybody does: run a step of the loops or of the code that schedules,
    start, stop, join. *)
Inductive lstep (x : Life) : label (C := C) -> Life -> Prop :=
| l_run lab s' :
    step (sch x) lab s' -> m_autoStop s' = m_autoStop (sch x) -> m_stopping s' = m_stopping (sch x) ->
    (frozen x = true -> threads s' !! 0%nat = threads (sch x) !! 0%nat) ->
    lstep x lab (mkLife s' (own x) (phase x) (started x))
| l_start tids x' :
    phase x = S_none -> length tids = m_threadCount (own x) -> start_threads tids x = Ok x' -> lstep x LTau x'
| l_stop caller_is x' :
    phase x = S_none -> stop_flags caller_is x = Ok x' -> lstep x LTau x'
| l_call : phase x = S_flagged -> lstep x LTau (stop_call x)
| l_root l :
    phase x = S_root -> threads (sch x) !! 0%nat = Some l -> l_pc l = Exited ->
    lstep x LTau (take_threads true x)
| l_join x' : join_next x = Some x' -> lstep x LTau x'.

(** The discipline on clients: once [stop] was called only tasks that run schedule
    further tasks. *)
Definition from_tasks (x : Life) (lab : label (C := C)) : Prop :=
  match lab with
  | LSchedule _ => phase x = S_none \/ exists l f b, l ∈ threads (sch x) /\ l_pc l = Exec f b
  | _ => True
  end.

Inductive lreach (x0 : Life) : list (FiberAndThread C) -> list (FiberAndThread C) -> Life -> Prop :=
| lreach_refl : lreach x0 [] [] x0
| lreach_step sched taken x lab x' :
    lreach x0 sched taken x -> lstep x lab x' -> from_tasks x lab ->
    lreach x0 (match lab with LSchedule ft | LResched ft => ft :: sched | _ => sched end)
      (match lab with LTake ft => ft :: taken | _ => taken end) x'.

(** ** What a step of the loops does *)

(** A thread that will not look into the queue again. *)
Definition leaving l : bool :=
  match l_pc l with Exited => true | NoTask => l_idle_term l | _ => false end.

(** A task that any thread may run. *)
Definition unbound ft : Prop := ft_thread ft = -1.

(** A task whose fiber is on a CPU. *)
Definition on_cpu (st : gmap nat State) ft : Prop := exists f, ft_fiber ft = Some f /\ state_of st f = EXEC.

(** A step is one thread's, which goes on, or leaves because it was leaving or finds
    nothing that it may run; or it is nobody's, and then only [schedule] adds to the
    queue. *)
Inductive effect s (lab : label (C := C)) s' : Prop :=
| eff_goes i l l' :
    threads s !! i = Some l -> threads s' = <[i := l']> (threads s) -> l_pc l <> Exited -> l_pc l <> l_pc l' ->
    leaving l' = false -> effect s lab s'
| eff_leaves i l l' :
    threads s !! i = Some l -> threads s' = <[i := l']> (threads s) -> l_pc l <> Exited -> l_pc l <> l_pc l' ->
    m_fibers s' = m_fibers s ->
    leaving l = true \/ l_pc l = Top /\ Forall (fun ft => unbound ft -> on_cpu (states s) ft) (m_fibers s) ->
    effect s lab s'
| eff_nobody :
    threads s' = threads s -> (exists ft, lab = LSchedule ft) \/ m_fibers s' = m_fibers s -> effect s lab s'.

Lemma pick_nothing tid st seen q b b' q' : pick_loop tid st seen q b = Ok (b', None, q') ->
  q' = seen ++ q /\ Forall (fun ft => unbound ft -> on_cpu st ft) q.
Proof.
  revert seen b. induction q as [|ft q IH]; intros seen b; cbn [pick_loop].
  { intros [= _ <-]. by rewrite app_nil_r. }
  destruct (negb (ft_thread ft =? -1) && negb (ft_thread ft =? tid)) eqn:Ebound.
  { intros [Hq Hall]%IH. rewrite <-app_assoc in Hq. split; [exact Hq|]. constructor; [|done].
    intros Hu. by rewrite Hu in Ebound. }
  destruct (ft_fiber ft) as [f|] eqn:Ef; [|by destruct (ft_cb ft)].
  destruct (decide (state_of st f = EXEC)) as [He|]; [|done].
  intros [Hq Hall]%IH. rewrite <-app_assoc in Hq. split; [exact Hq|]. constructor; [|done]. intros _. by exists f.
Qed.

Lemma step_effect s lab s' : step s lab s' -> effect s lab s'.
Proof.
  intros Hst. inversion Hst as [i l s1 s1' Hl Hpc Hrun|fresh i l ft s1 s1' Hl Hpc Hf Hrun|i l f b s1 Hl Hpc
    |i l f b s1 Hl Hpc|i l f b how s1 Hl Hpc Hhow|i l f b s1 Hl Hpc|i l f b s1 Hl Hpc|i l s1 Hl Hpc|i l s1 Hl Hpc
    |f s1 Hf|ft s1 Hk Ht|s1]; subst.
  - unfold run_pick in Hrun. destruct (pick_loop _ _ _ _ _) as [[[b o] q]|] eqn:Ep; [|done].
    destruct o as [ft|]; injection Hrun as <-.
    + eapply (eff_goes _ _ _ i l); [done|by destruct b|by rewrite Hpc|by rewrite Hpc|done].
    + apply pick_nothing in Ep as [Hq Hall].
      eapply (eff_leaves _ _ _ i l); [done|by destruct b|by rewrite Hpc|by rewrite Hpc|by destruct b|by right].
  - unfold run_start in Hrun. destruct (ft_fiber ft) as [f|]; [destruct (bool_decide _)|];
      try destruct (decide _); try destruct (ft_cb ft) as [cb|]; try destruct (l_cb_fiber l) as [c|];
      try destruct (bool_decide _); try discriminate Hrun; injection Hrun as <-;
      (eapply (eff_goes _ _ _ i l); [done|done|by rewrite Hpc|by rewrite Hpc|done]).
  - eapply (eff_goes _ _ _ i l); [done|done|by rewrite Hpc|by rewrite Hpc|done].
  - eapply (eff_goes _ _ _ i l); [done|done|by rewrite Hpc|by rewrite Hpc|done].
  - eapply (eff_goes _ _ _ i l); [done|done|by rewrite Hpc|by rewrite Hpc|done].
  - eapply (eff_goes _ _ _ i l); [done|done|by rewrite Hpc|by rewrite Hpc|done].
  - unfold run_fix. destruct (schedule_fields (FT_fiber (Some f) (-1)) s) as (Ht & _).
    destruct (state_of (states s) f), b; (eapply (eff_goes _ _ _ i l);
      [done|cbn -[schedule FT_fiber]; rewrite ?Ht; reflexivity|by rewrite Hpc|by rewrite Hpc|done]).
  - unfold run_idle. destruct (l_idle_term l) eqn:E.
    + eapply (eff_leaves _ _ _ i l); [done|done|by rewrite Hpc|by rewrite Hpc|done|].
      left. unfold leaving. by rewrite Hpc.
    + eapply (eff_goes _ _ _ i l); [done|done|by rewrite Hpc|by rewrite Hpc|done].
  - eapply (eff_goes _ _ _ i l); [done|done|by rewrite Hpc|by rewrite Hpc|done].
  - apply eff_nobody; [done|by right].
  - apply eff_nobody; [by apply schedule_fields|left; by eexists].
  - apply eff_nobody; [done|by right].
Qed.

(** ** Who runs what *)

(** A fiber that is on a CPU is on the stack of some thread. *)
Definition cpu_owned s : Prop :=
  forall f, state_of (states s) f = EXEC -> exists i l, threads s !! i = Some l /\ own_of l = Some f.

(** A step of thread [i] that changes the state of at most one fiber [g]. *)
Lemma owned_upd s s' i l l' (g : option nat) : cpu_owned s ->
  threads s !! i = Some l -> threads s' = <[i := l']> (threads s) ->
  (forall f, g <> Some f -> state_of (states s') f = EXEC -> state_of (states s) f = EXEC) ->
  (forall f, g = Some f -> state_of (states s') f = EXEC -> own_of l' = Some f) ->
  (forall f, g <> Some f -> own_of l = Some f -> state_of (states s') f = EXEC -> own_of l' = Some f) ->
  cpu_owned s'.
Proof.
  intros Hk Hl Ht Hold Hg Hown f Hf. pose proof (lookup_lt_Some _ _ _ Hl) as Hlt.
  destruct (decide (g = Some f)) as [->|Hne].
  - exists i, l'. split; [by rewrite Ht, list_lookup_insert_eq|]. by apply Hg.
  - destruct (Hk f (Hold f Hne Hf)) as (j & lj & Hj & Ho). destruct (decide (j = i)) as [->|Hji].
    + exists i, l'. split; [by rewrite Ht, list_lookup_insert_eq|]. apply Hown; congruence.
    + exists j, lj. by rewrite Ht, list_lookup_insert_ne.
Qed.

Lemma owned_same s s' i l l' : cpu_owned s ->
  threads s !! i = Some l -> threads s' = <[i := l']> (threads s) -> states s' = states s ->
  own_of l = None \/ own_of l' = own_of l -> cpu_owned s'.
Proof.
  intros Hk Hl Ht Hst Ho. apply (owned_upd s s' i l l' None); try done.
  - intros f _. by rewrite Hst.
  - intros f _ Hlf _. destruct Ho as [Ho | ->]; congruence.
Qed.

(** A step of thread [i] after which the state of [g] is [x], and that takes the
    thread to where it has [g] or leaves it. *)
Lemma owned_state s s' i l l' g x : cpu_owned s ->
  threads s !! i = Some l -> threads s' = <[i := l']> (threads s) -> states s' = <[g := x]> (states s) ->
  (own_of l = None \/ own_of l = Some g) -> (x = EXEC -> own_of l' = Some g) -> cpu_owned s'.
Proof.
  intros Hk Hl Ht Hst Ho Hx. apply (owned_upd s s' i l l' (Some g)); try done.
  - intros f Hne. rewrite Hst, state_of_insert_ne by congruence. done.
  - intros f [= <-]. by rewrite Hst, state_of_insert.
  - intros f Hne Hlf _. destruct Ho as [Ho|Ho]; congruence.
Qed.

(** The thread leaves a fiber that is off the CPU. *)
Lemma owned_left s s' i l l' g : cpu_owned s ->
  threads s !! i = Some l -> threads s' = <[i := l']> (threads s) -> states s' = states s ->
  own_of l = Some g -> state_of (states s) g <> EXEC -> cpu_owned s'.
Proof.
  intros Hk Hl Ht Hst Ho Hg. apply (owned_upd s s' i l l' (Some g)); try done; rewrite Hst.
  - done.
  - intros f [= <-]. done.
  - intros f Hne Hlf. congruence.
Qed.

Lemma step_owned s lab s' : step s lab s' -> cpu_owned s -> cpu_owned s'.
Proof.
  intros Hst Hk. destruct Hst as [i l s s' Hl Hpc Hrun|fresh i l ft s s' Hl Hpc Hfr Hrun|i l f b s Hl Hpc
    |i l f b s Hl Hpc|i l f b how s Hl Hpc Hhow|i l f b s Hl Hpc|i l f b s Hl Hpc|i l s Hl Hpc|i l s Hl Hpc
    |f s Hf|ft s Hk' Ht|s];
    try (assert (own_of l = None) as Ho by (unfold own_of; by rewrite Hpc));
    try (assert (own_of l = Some f) as Ho by (unfold own_of; by rewrite Hpc)).
  - unfold run_pick in Hrun. destruct (pick_loop _ _ _ _ _) as [[[tm o] q]|]; [|done].
    destruct o as [ft|]; injection Hrun as <-; (eapply (owned_same s _ i l); [done|done|by destruct tm|by destruct tm|by left]).
  - unfold run_start in Hrun.
    destruct (ft_fiber ft) as [f|]; [destruct (bool_decide _)|]; try destruct (decide _);
      try destruct (ft_cb ft) as [cb|]; try destruct (l_cb_fiber l) as [c|] eqn:Ec; try destruct (bool_decide _);
      try discriminate Hrun; injection Hrun as <-;
      first [eapply (owned_same s _ i l); [done|done|done|done|by left]
            |eapply (owned_state s _ i l); [done|done|done|done|by left|done]].
  - eapply (owned_state s _ i l); [done|done|done|done|by right|done].
  - eapply (owned_same s _ i l); [done|done|done|done|by right].
  - eapply (owned_state s _ i l); [done|done|done|done|by right|by destruct Hhow as [-> | ->]].
  - eapply (owned_same s _ i l); [done|done|done|done|by right].
  - unfold run_fix. destruct (schedule_fields (FT_fiber (Some f) (-1)) s) as (Ht & _ & _ & _ & _ & Hs).
    destruct (state_of (states s) f) eqn:E; try (eapply (owned_state s _ i l); [done|done|done|done|by right|done]).
    + destruct b; [eapply (owned_state s _ i l); [done|done|done|done|by right|done]
                  |eapply (owned_left s _ i l); [done|done|done|done|done|by rewrite E]].
    + eapply (owned_left s _ i l); [done|done|cbn -[schedule FT_fiber]; rewrite Ht; reflexivity|done|done|by rewrite E].
    + destruct b; [eapply (owned_state s _ i l); [done|done|done|done|by right|done]
                  |eapply (owned_left s _ i l); [done|done|done|done|done|by rewrite E]].
  - unfold run_idle. destruct (l_idle_term l); (eapply (owned_same s _ i l); [done|done|done|done|by left]).
  - eapply (owned_same s _ i l); [done|done|done|done|by left].
  - intros g. unfold set_fstate. cbn. destruct (decide (f = g)) as [->|Hne].
    + by rewrite state_of_insert.
    + rewrite state_of_insert_ne by done. apply Hk.
  - destruct (schedule_fields ft s) as (Hts & _ & _ & _ & _ & Hs). intros g. rewrite Hs, Hts. apply Hk.
  - exact Hk.
Qed.

(** Until [stop] is called no thread leaves. *)
Definition staying l : Prop := l_idle_term l = false /\ l_pc l <> Exited.

Lemma step_staying s lab s' : step s lab s' -> m_autoStop s = false -> Forall staying (threads s) ->
  Forall staying (threads s').
Proof.
  intros Hst Ha Hall.
  assert (forall i l l', threads s !! i = Some l -> l_idle_term l' = l_idle_term l -> l_pc l' <> Exited ->
    Forall staying (<[i := l']> (threads s))) as Hput.
  { intros i l l' Hl Hid Hpc. apply Forall_insert; [done|]. split; [|done]. rewrite Hid.
    by apply (Forall_lookup_1 _ _ _ _ Hall Hl). }
  destruct Hst as [i l s s' Hl Hpc Hrun|fresh i l ft s s' Hl Hpc Hfr Hrun|i l f b s Hl Hpc
    |i l f b s Hl Hpc|i l f b how s Hl Hpc Hhow|i l f b s Hl Hpc|i l f b s Hl Hpc|i l s Hl Hpc|i l s Hl Hpc
    |f s Hf|ft s Hk' Ht|s]; try (by apply (Hput i l)).
  - unfold run_pick in Hrun. destruct (pick_loop _ _ _ _ _) as [[[tm o] q]|]; [|done].
    destruct o as [ft|]; injection Hrun as <-; destruct tm; by apply (Hput i l).
  - unfold run_start in Hrun.
    destruct (ft_fiber ft) as [f|]; [destruct (bool_decide _)|]; try destruct (decide _);
      try destruct (ft_cb ft) as [cb|]; try destruct (l_cb_fiber l) as [c|] eqn:Ec; try destruct (bool_decide _);
      try discriminate Hrun; injection Hrun as <-; by apply (Hput i l).
  - unfold run_fix. destruct (schedule_fields (FT_fiber (Some f) (-1)) s) as (Ht & _).
    destruct (state_of (states s) f), b; cbn -[schedule FT_fiber]; rewrite ?Ht; by apply (Hput i l).
  - unfold run_idle. rewrite (proj1 (Forall_lookup_1 _ _ _ _ Hall Hl)). by apply (Hput i l).
  - unfold idle_round. cbn. apply Forall_insert; [done|]. split; [|done]. cbn. unfold stopping. by rewrite Ha.
  - done.
  - by rewrite (proj1 (schedule_fields ft s)).
  - done.
Qed.

(** ** The invariant of a scheduler's life *)

Definition roots (o : Owner) : nat := match m_rootFiber o with Some _ => 1%nat | None => 0%nat end.

Definition exited s (i : nat) : Prop := exists l, threads s !! i = Some l /\ l_pc l = Exited.

(** The threads that [start] created, as far as they are not joined. *)
Definition joining (x : Life) : Prop :=
  let created i := (roots (own x) <= i < length (threads (sch x)))%nat in
  match phase x with
  | S_none | S_flagged | S_root =>
      m_threads (own x) = seq (roots (own x)) (length (threads (sch x)) - roots (own x))
  | S_join _ rest => m_threads (own x) = [] /\ forall i, created i -> i ∈ rest \/ exited (sch x) i
  | S_returned _ => m_threads (own x) = [] /\ forall i, created i -> exited (sch x) i
  end.

(** Where the caller's place is while it does not move. *)
Definition root_rests (x : Life) l : Prop :=
  match phase x with
  | S_root => True
  | S_join true _ | S_returned true => l_pc l = Exited
  | _ => l_pc l = Top
  end.

(** Somebody will look into the queue: a thread that is not leaving; the caller's
    place counts while [stop] has not decided against calling it. *)
Definition watched (x : Life) : Prop :=
  exists i l, threads (sch x) !! i = Some l /\ leaving l = false
    /\ (roots (own x) = 1%nat -> i = 0%nat -> phase x = S_flagged \/ phase x = S_root).

Record life_inv (o : Owner) (x : Life) : Prop := {
  li_root : m_rootFiber (own x) = m_rootFiber o;
  li_count : m_threadCount (own x) = m_threadCount o;
  li_none : phase x = S_none -> m_autoStop (sch x) = false;
  li_flag : phase x <> S_none -> m_stopping (sch x) = true;
  li_stay : m_autoStop (sch x) = false -> Forall staying (threads (sch x));
  li_cpu : cpu_owned (sch x);
  li_rest : roots (own x) = 1%nat -> exists l, threads (sch x) !! 0%nat = Some l /\ root_rests x l;
  li_length : length (threads (sch x)) = (roots o + if started x then m_threadCount o else 0)%nat;
  li_joining : joining x;
  li_watched : phase x <> S_none -> started x = true -> Exists unbound (m_fibers (sch x)) -> watched x
}.

Lemma exited_stays s lab s' i : step s lab s' -> exited s i -> exited s' i.
Proof.
  intros [j l l' Hl Ht Hne _ _|j l l' Hl Ht Hne _ _ _|Ht _]%step_effect (li & Hi & Hpc); unfold exited; rewrite Ht.
  3: by exists li.
  all: exists li; split; [|done]; rewrite list_lookup_insert_ne; [done|]; intros ->; congruence.
Qed.

Lemma step_length s lab s' : step s lab s' -> length (threads s') = length (threads s).
Proof. intros [j l l' Hl Ht Hne _ _|j l l' Hl Ht Hne _ _ _|Ht _]%step_effect; rewrite Ht; by rewrite ?length_insert. Qed.

(** A step of the loops keeps somebody watching. *)
Lemma step_watched o x lab s' : life_inv o x -> step (sch x) lab s' ->
  (frozen x = true -> threads s' !! 0%nat = threads (sch x) !! 0%nat) -> from_tasks x lab ->
  phase x <> S_none -> started x = true -> Exists unbound (m_fibers s') ->
  watched (mkLife s' (own x) (phase x) (started x)).
Proof.
  intros Hinv Hst Hfr Hd Hph Hs Hex.
  (* whoever stepped is not the caller's place at rest *)
  assert (forall i l l', threads (sch x) !! i = Some l -> threads s' = <[i := l']> (threads (sch x)) ->
    l_pc l <> l_pc l' -> roots (own x) = 1%nat -> i = 0%nat -> phase x = S_flagged \/ phase x = S_root) as Hmoved.
  { intros i l l' Hl Ht Hne Hr ->. destruct (phase x) eqn:Ep; try (by right). all: exfalso.
    all: assert (frozen x = true) as Hf by (unfold frozen, roots in *; rewrite Ep; by destruct (m_rootFiber (own x))).
    all: specialize (Hfr Hf); rewrite Ht, list_lookup_insert_eq in Hfr by (by eapply lookup_lt_Some).
    all: congruence. }
  (* a thread with a fiber on its stack watches *)
  assert (forall j lj, threads (sch x) !! j = Some lj -> own_of lj <> None ->
    roots (own x) = 1%nat -> j = 0%nat -> phase x = S_flagged \/ phase x = S_root) as Howns.
  { intros j lj Hj Ho Hr ->. destruct (li_rest _ _ Hinv Hr) as (l & Hl & Hrest).
    assert (lj = l) as -> by congruence. unfold root_rests in Hrest. unfold own_of in Ho.
    destruct (phase x) as [| | |[] ?|[]]; try (by rewrite Hrest in Ho); by right. }
  destruct (step_effect _ _ _ Hst) as [i l l' Hl Ht Hne Hpc Hgo|i l l' Hl Ht Hne Hpc Hq Hwhy|Ht Hq].
  - exists i, l'. cbn. split; [by rewrite Ht, list_lookup_insert_eq by (by eapply lookup_lt_Some)|].
    split; [done|]. by apply (Hmoved i l l').
  - rewrite Hq in Hex.
    assert (exists j lj, threads (sch x) !! j = Some lj /\ leaving lj = false /\ j <> i
      /\ (roots (own x) = 1%nat -> j = 0%nat -> phase x = S_flagged \/ phase x = S_root)) as (j & lj & Hj & Hlj & Hji & Hr).
    + destruct Hwhy as [Hlv|[Htop Hcpu]].
      * destruct (li_watched _ _ Hinv Hph Hs Hex) as (j & lj & Hj & Hlj & Hr). exists j, lj. split_and!; try done.
        intros ->. congruence.
      * apply Exists_exists in Hex as (ft & Hin & Hu). rewrite Forall_forall in Hcpu.
        destruct (Hcpu ft Hin Hu) as (f & _ & He). destruct (li_cpu _ _ Hinv f He) as (j & lj & Hj & Ho).
        exists j, lj. split; [done|]. split; [unfold leaving; unfold own_of in Ho; by destruct (l_pc lj)|].
        split; [|apply (Howns j lj Hj); congruence].
        intros ->. assert (lj = l) as -> by congruence. unfold own_of in Ho. by rewrite Htop in Ho.
    + exists j, lj. cbn. split_and!; try done. by rewrite Ht, list_lookup_insert_ne.
  - destruct Hq as [[ft ->]|Hq].
    + destruct Hd as [|(l & f & b & Hin & Hpc)]; [done|]. apply list_elem_of_lookup_1 in Hin as [i Hi].
      exists i, l. cbn. rewrite Ht. split; [done|]. split; [unfold leaving; by rewrite Hpc|].
      apply (Howns i l Hi). unfold own_of. by rewrite Hpc.
    + rewrite Hq in Hex. destruct (li_watched _ _ Hinv Hph Hs Hex) as (i & l & Hi & Hlv & Hr).
      exists i, l. cbn. by rewrite Ht.
Qed.

Lemma l_run_inv o x lab s' : life_inv o x -> step (sch x) lab s' -> m_autoStop s' = m_autoStop (sch x) ->
  m_stopping s' = m_stopping (sch x) ->
  (frozen x = true -> threads s' !! 0%nat = threads (sch x) !! 0%nat) -> from_tasks x lab ->
  life_inv o (mkLife s' (own x) (phase x) (started x)).
Proof.
  intros Hinv Hst Ha Hb Hfr Hd. pose proof (step_length _ _ _ Hst) as Hlen.
  pose proof Hinv as [Hroot Hcount Hnone Hflag Hstay Hcpu Hrest Hlength Hjoin Hwatch].
  constructor; cbn [sch own phase started]; try done.
  - intros Hp. rewrite Ha. by apply Hnone.
  - intros Hp. rewrite Hb. by apply Hflag.
  - rewrite Ha. intros Hf. eapply step_staying; eauto.
  - by eapply step_owned.
  - intros Hr. destruct (Hrest Hr) as (l & Hl & Hx). destruct (frozen x) eqn:Ef.
    + exists l. by rewrite Hfr.
    + assert (phase x = S_root) as Hp.
      { unfold frozen, roots in *. destruct (m_rootFiber (own x)); [by destruct (phase x)|done]. }
      destruct (lookup_lt_is_Some_2 (threads s') 0%nat) as [l' Hl'].
      { rewrite Hlen. by eapply lookup_lt_Some. }
      exists l'. split; [done|]. unfold root_rests. cbn. by rewrite Hp.
  - by rewrite Hlen.
  - unfold joining in *. cbn [phase own sch]. rewrite Hlen.
    destruct (phase x) as [| | |c rest|c]; try done; destruct Hjoin as [Hm Hall]; (split; [done|]); intros i Hi.
    + destruct (Hall i Hi) as [?|?]; [by left|right; by eapply exited_stays].
    + eapply exited_stays; eauto.
  - intros Hp Hs Hex. by eapply (step_watched o x lab).
Qed.

Lemma l_start_inv o x tids x' : life_inv o x -> phase x = S_none -> length tids = m_threadCount (own x) ->
  start_threads tids x = Ok x' -> life_inv o x'.
Proof.
  intros [Hroot Hcount Hnone Hflag Hstay Hcpu Hrest Hlength Hjoin Hwatch] Hp Ht. unfold start_threads, start.
  destruct (m_stopping (sch x)); cbn [negb]; [|by intros [= <-]].
  unfold joining in Hjoin. rewrite Hp in Hjoin.
  destruct (m_threads (own x)) eqn:Em; [|done]. intros [= <-].
  assert (length (threads (sch x)) = roots o) as Hl.
  { pose proof (f_equal length Hjoin) as Hz. rewrite length_seq in Hz. cbn in Hz. unfold roots in *.
    rewrite Hroot in Hz. destruct (started x); lia. }
  assert (roots (own x) = roots o) as Hr by (unfold roots; by rewrite Hroot).
  specialize (Hnone Hp). specialize (Hstay Hnone).
  constructor; unfold joining, roots, watched, frozen, root_rests in *; cbn [sch own phase started m_rootFiber m_threadCount
    threads m_autoStop states m_fibers m_threads] in *; try done.
  - intros _. apply Forall_app. split; [done|]. apply Forall_fmap, Forall_true. done.
  - intros f Hf. destruct (Hcpu f Hf) as (i & l & Hi & Ho). exists i, l. split; [|done]. by apply lookup_app_l_Some.
  - intros Hone. destruct (Hrest Hone) as (l & Hl0 & Hx). exists l. split; [by apply lookup_app_l_Some|].
    by rewrite Hp in *.
  - rewrite length_app, length_fmap, Hl. lia.
  - rewrite Hp, length_app, length_fmap, Hl, Hr. f_equal. lia.
Qed.

Lemma tickle_n_fields n s : m_fibers (tickle_n n s) = m_fibers s /\ m_autoStop (tickle_n n s) = m_autoStop s
  /\ m_stopping (tickle_n n s) = m_stopping s /\ states (tickle_n n s) = states s /\ threads (tickle_n n s) = threads s
  /\ m_activeThreadCount (tickle_n n s) = m_activeThreadCount s.
Proof. revert s. induction n as [|n IH]; intros s; [done|]. cbn. by destruct (IH (tickle s)) as (-> & -> & -> & -> & -> & ->). Qed.

(** Whatever [stop] does to the flags leaves the threads and the queue alone. *)
Lemma flags_inv o x s' p' : life_inv o x -> phase x = S_none -> (0 < roots o + m_threadCount o)%nat ->
  threads s' = threads (sch x) -> m_fibers s' = m_fibers (sch x) -> states s' = states (sch x) -> m_autoStop s' = true ->
  m_stopping s' = true -> p' = S_flagged \/ p' = S_returned false /\ m_fibers s' = [] /\ m_threadCount (own x) = 0%nat ->
  life_inv o (mkLife s' (own x) p' (started x)).
Proof.
  intros [Hroot Hcount Hnone Hflag Hstay Hcpu Hrest Hlength Hjoin Hwatch] Hp Hpos Ht Hq Hs Ha Hb Hp'.
  specialize (Hstay (Hnone Hp)).
  assert (roots (own x) = roots o) as Hr by (unfold roots; by rewrite Hroot).
  constructor; unfold joining, watched, root_rests, cpu_owned in *; cbn [sch own phase started] in *; try done;
    rewrite ?Ht, ?Hq, ?Hs; try done.
  - by destruct Hp' as [-> | [-> _]].
  - intros Hone. destruct (Hrest Hone) as (l & Hl & Hx). exists l. split; [done|]. rewrite Hp in Hx.
    by destruct Hp' as [-> | [-> _]].
  - rewrite Hp in Hjoin. destruct Hp' as [-> | (-> & _ & Hc)]; [done|].
    assert (length (threads (sch x)) = roots (own x)) as Hl by (rewrite Hlength, Hr; destruct (started x); lia).
    split; [by rewrite Hjoin, Hl, Nat.sub_diag|]. intros i Hi. lia.
  - intros _ Hst Hex. rewrite Hst in Hlength. destruct Hp' as [-> | (_ & He & _)]; [|by rewrite <-Hq, He in Hex; inversion Hex].
    destruct (lookup_lt_is_Some_2 (threads (sch x)) 0%nat) as [l Hl]; [lia|].
    exists 0%nat, l. split; [done|]. split; [|by left].
    destruct (Forall_lookup_1 _ _ _ _ Hstay Hl) as [Hid Hpc]. unfold leaving. by destruct (l_pc l).
Qed.

Lemma l_stop_inv o x caller_is x' : life_inv o x -> phase x = S_none -> (0 < roots o + m_threadCount o)%nat ->
  stop_flags caller_is x = Ok x' -> life_inv o x'.
Proof.
  intros Hinv Hp Hpos. unfold stop_flags. cbv zeta.
  set (s1 := mkScheduler _ _ _ _ true _ _ _). set (early := bool_decide _ && (_ =? _)%nat).
  assert (early = true -> m_threadCount (own x) = 0%nat) as He.
  { unfold early. intros [_ H0]%andb_true_iff. by apply Nat.eqb_eq in H0. }
  set (s2 := if early then set_stop true s1 else s1).
  assert (threads s2 = threads (sch x) /\ m_fibers s2 = m_fibers (sch x) /\ states s2 = states (sch x)
          /\ m_autoStop s2 = true) as (E1 & E2 & E3 & E4) by (unfold s2; by destruct early).
  destruct (early && stopping s2) eqn:Eret.
  - intros [= <-]. apply andb_true_iff in Eret as [Hearly Hstop]. apply flags_inv; try done; [unfold s2; by rewrite Hearly|]. right.
    split; [done|]. split; [|by apply He]. unfold stopping in Hstop.
    apply andb_true_iff in Hstop as [[_ Hq]%andb_true_iff _]. by destruct (m_fibers s2).
  - destruct (negb _); [done|]. intros [= <-].
    destruct (tickle_n_fields (m_threadCount (own x)) (set_stop true s2)) as (T1 & T2 & T3 & T4 & T5 & T6).
    apply flags_inv; try done; rewrite ?T1, ?T2, ?T3, ?T4, ?T5; try done. by left.
Qed.

(** Taking the threads out to join them; the queue is watched by others or empty. *)
Lemma take_inv o x called : life_inv o x -> phase x = S_flagged \/ phase x = S_root ->
  (called = true -> exists l, threads (sch x) !! 0%nat = Some l /\ l_pc l = Exited) ->
  (called = false -> phase x = S_flagged /\ (roots (own x) = 0%nat \/ m_fibers (sch x) = [])) ->
  life_inv o (take_threads called x).
Proof.
  intros [Hroot Hcount Hnone Hflag Hstay Hcpu Hrest Hlength Hjoin Hwatch] Hp Hyes Hno.
  constructor; unfold joining, watched, root_rests, take_threads, set_threads in *; cbn [sch own phase started roots m_threads
    m_rootFiber m_threadCount] in *; try done.
  - intros _. apply Hflag. by destruct Hp as [-> | ->].
  - intros Hone. destruct (Hrest Hone) as (l & Hl & Hx). exists l. split; [done|]. destruct called.
    + destruct Hyes as (l' & Hl' & Hpc); [done|]. congruence.
    + destruct Hno as [Hf _]; [done|]. by rewrite Hf in Hx.
  - split; [done|]. intros i Hi. left.
    assert (m_threads (own x) = seq (roots (own x)) (length (threads (sch x)) - roots (own x))) as ->
      by (by destruct Hp as [Hp|Hp]; rewrite Hp in Hjoin).
    unfold roots in *. cbn in *. apply elem_of_seq. lia.
  - intros _ Hst Hex. destruct (Hwatch ltac:(by destruct Hp as [-> | ->]) Hst Hex) as (i & l & Hl & Hlv & Hi).
    exists i, l. split; [done|]. split; [done|]. intros Hone ->. exfalso. change (roots (own x) = 1%nat) in Hone. destruct called.
    + destruct Hyes as (l' & Hl' & Hpc); [done|]. assert (l' = l) as -> by congruence.
      unfold leaving in Hlv. by rewrite Hpc in Hlv.
    + destruct Hno as [_ [Hz|Hz]]; [done|lia|rewrite Hz in Hex; inversion Hex].
Qed.

Lemma l_call_inv o x : life_inv o x -> phase x = S_flagged -> life_inv o (stop_call x).
Proof.
  intros Hinv Hp. unfold stop_call. destruct (m_rootFiber (own x)) as [st|] eqn:Er.
  - pose proof Hinv as [Hroot Hcount Hnone Hflag Hstay Hcpu Hrest Hlength Hjoin Hwatch].
    assert (forall p', p' = S_flagged \/ p' = S_root ->
      life_inv o (mkLife (tickle (sch x)) (own x) p' (started x))) as Htick.
    { intros p' Hp'. constructor; unfold joining, watched, root_rests in *; cbn [sch own phase started] in *; try done.
      - by destruct Hp' as [-> | ->].
      - intros _. cbn. apply Hflag. by rewrite Hp.
      - intros Hone. destruct (Hrest Hone) as (l & Hl & Hx). exists l. split; [done|]. rewrite Hp in Hx.
        by destruct Hp' as [-> | ->].
      - rewrite Hp in Hjoin. by destruct Hp' as [-> | ->].
      - intros _ Hst Hex. destruct (Hwatch ltac:(by rewrite Hp) Hst Hex) as (i & l & Hl & Hlv & Hi).
        exists i, l. split; [done|]. split; [done|]. by intros _ _. }
    destruct (negb (stopping (tickle (sch x)))) eqn:Es; [by apply Htick; right|].
    apply take_inv; cbn [phase]; [rewrite Hp; apply Htick; by left|by left|done|].
    intros _. split; [done|]. right. apply negb_false_iff in Es. unfold stopping in Es.
    apply andb_true_iff in Es as [[_ Hq]%andb_true_iff _]. cbn [sch tickle m_fibers] in *. by destruct (m_fibers (sch x)).
  - apply take_inv; [done|by left|done|]. intros _. split; [done|]. left. unfold roots. by rewrite Er.
Qed.

Lemma l_join_inv o x x' : life_inv o x -> join_next x = Some x' -> life_inv o x'.
Proof.
  intros [Hroot Hcount Hnone Hflag Hstay Hcpu Hrest Hlength Hjoin Hwatch] Hn. unfold join_next in Hn.
  destruct (phase x) as [| | |c rest|c] eqn:Hp; try done.
  assert (exists p', x' = mkLife (sch x) (own x) p' (started x)
    /\ (p' = S_returned c /\ rest = []
        \/ exists i rest', p' = S_join c rest' /\ rest = i :: rest' /\ exited (sch x) i)) as (p' & -> & Hp').
  { destruct rest as [|i rest]; [injection Hn as <-; eexists; split; [done|by left]|].
    destruct (threads (sch x) !! i) as [l|] eqn:Hl; [|done]. destruct (l_pc l) eqn:Hpc; try done.
    injection Hn as <-. eexists; split; [done|]. right. exists i, rest. split_and!; try done. by exists l. }
  constructor; unfold joining, watched, root_rests in *; cbn [sch own phase started] in *; try done.
  - by destruct Hp' as [[-> _]|(? & ? & -> & _)].
  - intros _. apply Hflag. done || by rewrite Hp.
  - intros Hone. destruct (Hrest Hone) as (l & Hl & Hx). exists l. split; [done|]. rewrite Hp in Hx.
    by destruct Hp' as [[-> _]|(? & ? & -> & _)].
  - rewrite Hp in Hjoin. destruct Hjoin as [Hm Hall]. destruct Hp' as [[-> ->]|(i & rest' & -> & -> & Hex)].
    + split; [done|]. intros j Hj. destruct (Hall j Hj) as [Hin|?]; [by apply not_elem_of_nil in Hin|done].
    + split; [done|]. intros j Hj. destruct (Hall j Hj) as [[->|Hin]%elem_of_cons|?]; [by right|by left|by right].
  - intros _ Hst Hex. destruct (Hwatch ltac:(done || by rewrite Hp) Hst Hex) as (i & l & Hl & Hlv & Hi).
    exists i, l. split; [done|]. split; [done|]. intros Hone Hz. rewrite ?Hp in Hi. by destruct (Hi Hone Hz).
Qed.

Lemma lstep_inv o x lab x' : (0 < roots o + m_threadCount o)%nat -> life_inv o x -> lstep x lab x' -> from_tasks x lab ->
  life_inv o x'.
Proof.
  intros Hpos Hinv Hst Hd. destruct Hst as [lab s' Hst Ha Hb Hfr|tids x' Hp Hl Hrun|caller_is x' Hp Hrun|Hp|l Hp Hl Hpc|x' Hj].
  - by eapply l_run_inv.
  - by eapply l_start_inv.
  - by eapply l_stop_inv.
  - by apply l_call_inv.
  - apply take_inv; [done|by right|intros _; by exists l|done].
  - by eapply l_join_inv.
Qed.

Lemma Life_new_inv o : m_threads o = [] -> life_inv o (Life_new o).
Proof.
  intros Hm. constructor; unfold Life_new, joining, roots, root_rests; cbn; try done; rewrite ?Hm; destruct (m_rootFiber o);
    try done.
  - intros _. by repeat constructor.
  - intros _. by eexists.
Qed.

(** The tasks of a life: the steps of the loops are the only ones that touch them. *)
Lemma lstep_tasks x lab x' : lstep x lab x' ->
  match lab with LSchedule ft | LResched ft => [ft] | _ => [] end ++ m_fibers (sch x)
  ≡ₚ match lab with LTake ft => [ft] | _ => [] end ++ m_fibers (sch x').
Proof.
  intros [lab' s' Hst _ _ _|tids x1 _ _ Hrun|caller_is x1 _ Hrun|_|l _ _ _|x1 Hj]; cbn [app].
  - by apply step_tasks.
  - unfold start_threads, start in Hrun. destruct (m_stopping _); cbn in Hrun; [|by injection Hrun as <-].
    destruct (m_threads _); [|done]. by injection Hrun as <-.
  - unfold stop_flags in Hrun. cbv zeta in Hrun.
    assert (forall b : bool, m_fibers (if b then set_stop true (mkScheduler (m_fibers (sch x)) (m_activeThreadCount (sch x))
      (m_idleThreadCount (sch x)) (m_stopping (sch x)) true (states (sch x)) (threads (sch x)) (tickles (sch x)))
      else mkScheduler (m_fibers (sch x)) (m_activeThreadCount (sch x)) (m_idleThreadCount (sch x)) (m_stopping (sch x))
      true (states (sch x)) (threads (sch x)) (tickles (sch x))) = m_fibers (sch x)) as Hb by (by intros []).
    destruct (_ && stopping _); [injection Hrun as <-; cbn [sch]; by rewrite Hb|].
    destruct (negb _); [done|]. injection Hrun as <-. cbn [sch].
    rewrite (proj1 (tickle_n_fields _ _)). cbn [set_stop m_fibers]. by rewrite Hb.
  - unfold stop_call. destruct (m_rootFiber _); [by destruct (negb _)|done].
  - done.
  - unfold join_next in Hj. destruct (phase x) as [| | |c rest|]; try done.
    destruct rest as [|i rest]; [by injection Hj as <-|].
    destruct (threads (sch x) !! i) as [l|]; [|done]. destruct (l_pc l); try done. by injection Hj as <-.
Qed.

Lemma lreach_tasks x0 sched taken x : m_fibers (sch x0) = [] -> lreach x0 sched taken x ->
  sched ≡ₚ taken ++ m_fibers (sch x).
Proof.
  intros H0. induction 1 as [|sched taken x lab x' _ IH Hst _]; [by rewrite H0|].
  apply lstep_tasks in Hst. destruct lab as [|ft|f|f|ft|ft]; cbn in *;
    try (by rewrite IH, Hst); try (rewrite <-Hst, IH; by rewrite Permutation_middle).
  rewrite IH, Hst. by rewrite Permutation_middle.
Qed.

Lemma lreach_inv o sched taken x : (0 < roots o + m_threadCount o)%nat -> m_threads o = [] -> lreach (Life_new o) sched taken x ->
  life_inv o x.
Proof.
  intros Hpos Hm. induction 1 as [|sched taken x lab x' _ IH Hst Hd]; [by apply Life_new_inv|]. by eapply lstep_inv.
Qed.

Lemma ctor_spec this n inc name tid cur o cur' : Scheduler_ctor this n inc name tid cur = Ok (o, cur') ->
  (roots o + m_threadCount o)%nat = n /\ (0 < n)%nat /\ m_threads o = []
  /\ (roots o = 1%nat <-> inc = true) /\ cur' = (if inc then <[tid := this]> cur else cur).
Proof.
  unfold Scheduler_ctor. destruct (Nat.eqb_spec n 0); [done|]. destruct inc.
  - destruct (decide _); [|done]. intros [= <- <-]. unfold roots. cbn. split_and!; try done; lia.
  - intros [= <- <-]. unfold roots. cbn. split_and!; try done; lia.
Qed.

(** C35: stopping drains the scheduler.  In every interleaving of its threads, of the
    caller that starts and stops it and, until [stop] is called, of anybody who
    schedules (afterwards of the tasks that run): when [stop] has returned, it has
    created exactly as many threads as it was asked for, counting the caller's;
    all of them have left the loop and none is left to be joined; no thread holds a
    task; every task was taken exactly once, except that a task bound to one thread
    may be left in the queue; and destroying the scheduler fails no assertion. *)
Theorem stop_drains this n inc name tid cur o cur' sched taken x called :
  Scheduler_ctor this n inc name tid cur = Ok (o, cur') ->
  lreach (Life_new o) sched taken x -> phase x = S_returned called -> started x = true ->
  length (threads (sch x)) = n /\ m_threads (own x) = []
  /\ (forall i, (roots o <= i < n)%nat -> exited (sch x) i)
  /\ Forall (fun l => is_active l = false) (threads (sch x))
  /\ sched ≡ₚ taken ++ m_fibers (sch x) /\ Forall (fun ft => ft_thread ft <> -1) (m_fibers (sch x))
  /\ exists cur'', Scheduler_dtor this (m_stopping (sch x)) tid cur' = Ok cur''.
Proof.
  intros Hc Hr Hp Hs. destruct (ctor_spec _ _ _ _ _ _ _ _ Hc) as (Hn & Hpos & Hm0 & _).
  pose proof (lreach_inv o sched taken x ltac:(lia) Hm0 Hr) as [Hroot Hcount _ Hflag _ _ Hrest Hlength Hjoin Hwatch].
  rewrite Hs in Hlength. unfold joining in Hjoin. rewrite Hp in Hjoin. destruct Hjoin as [Hm Hall].
  assert (roots (own x) = roots o) as Hro by (unfold roots; by rewrite Hroot).
  rewrite Hro, Hlength, Hn in Hall. rewrite Hn in Hlength.
  assert (forall i l, threads (sch x) !! i = Some l -> l_pc l = Exited \/ l_pc l = Top /\ i = 0%nat /\ roots o = 1%nat)
    as Hwhere.
  { intros i l Hi. destruct (decide (roots o <= i)%nat) as [Hge|Hlt].
    - destruct (Hall i) as (l' & Hl' & Hpc); [|left; congruence]. apply lookup_lt_Some in Hi. lia.
    - assert (i = 0%nat /\ roots o = 1%nat) as [-> Hone] by (unfold roots in *; destruct (m_rootFiber o); lia).
      destruct (Hrest ltac:(congruence)) as (l' & Hl' & Hx). assert (l' = l) as -> by congruence.
      unfold root_rests in Hx. rewrite Hp in Hx. destruct called; [by left|by right]. }
  split_and!; try done.
  - apply Forall_lookup. intros i l Hl. unfold is_active. by destruct (Hwhere i l Hl) as [-> | [-> _]].
  - by apply (lreach_tasks (Life_new o)).
  - apply (Forall_impl (not ∘ unbound)); [|done]. apply not_Exists_Forall; [intros ft; unfold unbound; apply _|]. intros Hex.
    destruct (Hwatch ltac:(by rewrite Hp) Hs Hex) as (i & l & Hl & Hlv & Hi).
    destruct (Hwhere i l Hl) as [Hpc|(Hpc & Hz & Hone)].
    + unfold leaving in Hlv. by rewrite Hpc in Hlv.
    + rewrite Hp in Hi. destruct (Hi ltac:(congruence) Hz); done.
  - unfold Scheduler_dtor. rewrite Hflag by (by rewrite Hp). cbn. by eexists.
Qed.
End Life.

(** ** A concrete life *)

(** The next step of a lone thread whose fibers end as soon as they run. *)
Definition lone_next (s : Scheduler nat) : option (label (C := nat) * Scheduler nat) :=
  match threads s !! 0%nat with
  | None => None
  | Some l =>
      match l_pc l with
      | Top => match run_pick 0 l s with Ok s' => Some (take_label (threads s' !! 0%nat), s') | Err _ => None end
      | Got ft =>
          let fresh := length (map_to_list (states s)) in
          match states s !! fresh, run_start fresh 0 l ft s with None, Ok s' => Some (LTau, s') | _, _ => None end
      | Exec f b => Some (LEnd f, set_thread 0 (at_pc (Back f b) l) (set_fstate f TERM s))
      | Back f b => Some (LTau, set_thread 0 (at_pc (Fix f b) l) (set_active (u64 (m_activeThreadCount s - 1)) s))
      | Fix f b => Some (fix_label (states s) f, run_fix 0 l f b s)
      | NoTask => Some (LTau, run_idle 0 l s)
      | Idling => Some (LTau, idle_round 0 l s)
      | Exited => None
      end
  end.

Lemma lone_next_step s lab s' : lone_next s = Some (lab, s') -> step s lab s' /\ forall ft, lab <> LSchedule ft.
Proof.
  unfold lone_next. destruct (threads s !! 0%nat) as [l|] eqn:Hl; [|done]. destruct (l_pc l) as [|ft|f b|f b|f b| | |] eqn:Hpc;
    try (by intros [= <- <-]; split; [econstructor; eauto|]); [..|done].
  - destruct (run_pick 0 l s) as [s1|] eqn:Hr; [|done]. intros [= <- <-]. split; [by apply (step_pick 0 l)|].
    intros ft. unfold take_label. destruct (threads s1 !! 0%nat) as [l1|]; [|done]. by destruct (l_pc l1).
  - cbv zeta. destruct (states s !! _) eqn:Hf; [done|]. destruct (run_start _ 0 l ft s) as [s1|] eqn:Hr; [|done].
    intros [= <- <-]. split; [by eapply (step_start _ 0 l)|done].
  - intros [= <- <-]. split; [by apply step_fix|]. intros ft. unfold fix_label. by destruct (decide _).
Qed.

(** [n] such steps in the life of a scheduler, with the tasks scheduled and taken. *)
Fixpoint lone_play (n : nat) (r : list (FiberAndThread nat) * list (FiberAndThread nat) * Life (C := nat))
    : option (list (FiberAndThread nat) * list (FiberAndThread nat) * Life (C := nat)) :=
  match n with
  | O => Some r
  | S n =>
      let '(sched, taken, x) := r in
      match lone_next (sch x) with
      | None => None
      | Some (lab, s') =>
          if Bool.eqb (m_autoStop s') (m_autoStop (sch x)) && Bool.eqb (m_stopping s') (m_stopping (sch x))
          then lone_play n (match lab with LSchedule ft | LResched ft => ft :: sched | _ => sched end,
                            match lab with LTake ft => ft :: taken | _ => taken end,
                            mkLife s' (own x) (phase x) (started x))
          else None
      end
  end.

Lemma lone_reach x0 n sched taken x r : lreach x0 sched taken x -> m_rootFiber (own x) = None ->
  lone_play n (sched, taken, x) = Some r -> lreach x0 r.1.1 r.1.2 r.2.
Proof.
  revert sched taken x. induction n as [|n IH]; intros sched taken x Hr Hroot; cbn [lone_play]; [by intros [= <-]|].
  destruct (lone_next (sch x)) as [[lab s']|] eqn:Hn; [|done].
  destruct (Bool.eqb _ _ && Bool.eqb _ _) eqn:Ef; [|done]. apply andb_true_iff in Ef as [Ea%eqb_prop Eb%eqb_prop].
  destruct (lone_next_step _ _ _ Hn) as [Hst Hlab]. apply IH; [|done].
  apply (lreach_step _ _ _ x); [done| |by destruct lab as [| | | | |ft]; try done; destruct (Hlab ft)].
  apply l_run; try done. unfold frozen. by rewrite Hroot.
Qed.

(** One created thread, with id 7, that runs one callback; then [stop]. *)
Definition demo_owner : Owner := mkOwner 3 [] None (-1) 1 [] [].
Definition demo_task : FiberAndThread nat := FT_cb (Some 5%nat) (-1).

Definition from_result {A} (d : A) (r : result A) : A := match r with Ok a => a | Err _ => d end.

Definition demo_working : list (FiberAndThread nat) * list (FiberAndThread nat) * Life (C := nat) :=
  let x0 := Life_new demo_owner in
  let x1 := from_result x0 (start_threads [7] x0) in
  default ([], [], x0)
    (lone_play 5 ([demo_task], [], mkLife (schedule demo_task (sch x1)) (own x1) (phase x1) (started x1))).

Definition demo_stopped : list (FiberAndThread nat) * list (FiberAndThread nat) * Life (C := nat) :=
  let '(sched, taken, x) := demo_working in
  default demo_working (lone_play 5 (sched, taken, stop_call (from_result x (stop_flags false x)))).

Definition demo_over : Life (C := nat) :=
  let x := demo_stopped.2 in default x (join_next x ≫= join_next).

Lemma demo_reach : lreach (Life_new demo_owner) [demo_task] [demo_task] demo_over.
Proof.
  set (x0 := Life_new (C := nat) demo_owner). set (x1 := from_result x0 (start_threads [7] x0)).
  assert (lreach x0 [] [] x1) as R1
    by (apply (lreach_step _ _ _ _ LTau _ (lreach_refl x0)); [apply (l_start x0 [7]); vm_compute; reflexivity|done]).
  assert (lreach x0 [demo_task] [] (mkLife (schedule demo_task (sch x1)) (own x1) (phase x1) (started x1))) as R2.
  { apply (lreach_step _ _ _ _ (LSchedule demo_task) _ R1); [|by left].
    apply l_run; [apply step_schedule; [done|by right]|done|done|done]. }
  assert (lreach x0 demo_working.1.1 demo_working.1.2 demo_working.2) as R3
    by (apply (lone_reach x0 5 _ _ _ demo_working R2); vm_compute; reflexivity).
  set (x2 := from_result demo_working.2 (stop_flags false demo_working.2)).
  assert (lreach x0 demo_working.1.1 demo_working.1.2 x2) as R4
    by (apply (lreach_step _ _ _ _ LTau _ R3); [apply (l_stop _ false); vm_compute; reflexivity|done]).
  assert (lreach x0 demo_working.1.1 demo_working.1.2 (stop_call x2)) as R5
    by (apply (lreach_step _ _ _ _ LTau _ R4); [apply l_call; vm_compute; reflexivity|done]).
  assert (lreach x0 demo_stopped.1.1 demo_stopped.1.2 demo_stopped.2) as R6
    by (apply (lone_reach x0 5 _ _ _ demo_stopped R5); vm_compute; reflexivity).
  assert (exists x6, join_next demo_stopped.2 = Some x6 /\ join_next x6 = Some demo_over) as (x6 & J1 & J2)
    by (eexists; split; vm_compute; reflexivity).
  pose proof (lreach_step _ _ _ _ LTau _ R6 (l_join _ _ J1) I) as R7.
  exact (lreach_step _ _ _ _ LTau _ R7 (l_join _ _ J2) I).
Qed.

Lemma stop_drains_witness :
  length (threads (sch demo_over)) = 1%nat /\ m_threads (own demo_over) = []
  /\ (forall i, (0 <= i < 1)%nat -> exited (sch demo_over) i)
  /\ Forall (fun l => is_active l = false) (threads (sch demo_over))
  /\ [demo_task] ≡ₚ [demo_task] ++ m_fibers (sch demo_over)
  /\ Forall (fun ft => ft_thread ft <> -1) (m_fibers (sch demo_over))
  /\ exists cur'', Scheduler_dtor 3 (m_stopping (sch demo_over)) 1 ∅ = Ok cur''.
Proof.
  apply (stop_drains 3 1 false [] 1 ∅ demo_owner ∅ [demo_task] [demo_task] demo_over false);
    [reflexivity|exact demo_reach|vm_compute; reflexivity|vm_compute; reflexivity].
Defined.

(** ** What goes wrong *)

(** [schedule] takes any thread id: a task for a thread that the scheduler does not
    have stays in the queue whatever happens, so that [stopping] is never true again
    and [stop] does not return. *)
Section Stranded.
Context {C : Type}.

Lemma pick_keeps tid st seen q b b' o q' (ft : FiberAndThread C) : ft_thread ft <> -1 -> ft_thread ft <> tid ->
  ft ∈ seen ++ q -> pick_loop tid st seen q b = Ok (b', o, q') -> ft ∈ q'.
Proof.
  intros H1 Ht. revert seen b. induction q as [|g q IH]; intros seen b Hin; cbn [pick_loop].
  { rewrite app_nil_r in Hin. by intros [= _ _ <-]. }
  assert (ft ∈ (seen ++ [g]) ++ q) as Hin' by (by rewrite <-app_assoc).
  destruct (negb (ft_thread g =? -1) && negb (ft_thread g =? tid)) eqn:Eb; [by apply IH|].
  assert (ft <> g) as Hne.
  { intros <-. apply andb_false_iff in Eb as [Eb%negb_false_iff|Eb%negb_false_iff]; apply Z.eqb_eq in Eb; congruence. }
  assert (ft ∈ seen ++ q) as Hin2.
  { apply elem_of_app in Hin as [?|Hin]; [apply elem_of_app; by left|].
    apply elem_of_cons in Hin as [?|?]; [done|apply elem_of_app; by right]. }
  destruct (ft_fiber g) as [f|]; [destruct (decide _); [by apply IH|by intros [= _ _ <-]]|].
  destruct (ft_cb g); [by intros [= _ _ <-]|done].
Qed.

Lemma foreign_task_stranded (s : Scheduler C) lab s' ft : step s lab s' -> ft ∈ m_fibers s -> ft_thread ft <> -1 ->
  Forall (fun l => l_tid l <> ft_thread ft) (threads s) ->
  ft ∈ m_fibers s' /\ Forall (fun l => l_tid l <> ft_thread ft) (threads s') /\ stopping s' = false.
Proof.
  intros Hst Hin Hb Hall. enough (ft ∈ m_fibers s' /\ Forall (fun l => l_tid l <> ft_thread ft) (threads s')) as [Hq Ht].
  { split; [done|]. split; [done|]. unfold stopping. destruct (m_fibers s'); [by apply not_elem_of_nil in Hq|].
    by rewrite andb_false_r. }
  assert (forall i l l', threads s !! i = Some l -> l_tid l' = l_tid l ->
    Forall (fun l => l_tid l <> ft_thread ft) (<[i := l']> (threads s))) as Hput.
  { intros i l l' Hl Hid. apply Forall_insert; [done|]. rewrite Hid. by apply (Forall_lookup_1 _ _ _ _ Hall Hl). }
  destruct Hst as [i l s s' Hl Hpc Hrun|fresh i l g s s' Hl Hpc Hfr Hrun|i l f b s Hl Hpc
    |i l f b s Hl Hpc|i l f b how s Hl Hpc Hhow|i l f b s Hl Hpc|i l f b s Hl Hpc|i l s Hl Hpc|i l s Hl Hpc
    |f s Hf|g s Hk' Hg|s]; try (split; [done|by apply (Hput i l)]); try done.
  - unfold run_pick in Hrun. destruct (pick_loop _ _ _ _ _) as [[[tm o] q]|] eqn:Ep; [|done].
    pose proof (pick_keeps (l_tid l) (states s) [] (m_fibers s) false tm o q ft Hb
      (not_eq_sym (Forall_lookup_1 _ _ _ _ Hall Hl)) Hin Ep) as Hq.
    destruct o as [g|]; injection Hrun as <-; destruct tm; (split; [done|by apply (Hput i l)]).
  - unfold run_start in Hrun.
    destruct (ft_fiber g) as [f|]; [destruct (bool_decide _)|]; try destruct (decide _);
      try destruct (ft_cb g) as [cb|]; try destruct (l_cb_fiber l) as [c|] eqn:Ec; try destruct (bool_decide _);
      try discriminate Hrun; injection Hrun as <-; (split; [done|by apply (Hput i l)]).
  - unfold run_fix. destruct (schedule_fields (FT_fiber (Some f) (-1)) s) as (Ht & _).
    destruct (state_of (states s) f), b; cbn -[schedule FT_fiber]; rewrite ?Ht;
      (split; [rewrite ?schedule_queue by (by left); try done; by apply elem_of_app; left|by apply (Hput i l)]).
  - unfold run_idle. destruct (l_idle_term l); (split; [done|by apply (Hput i l)]).
  - rewrite (proj1 (schedule_fields g s)). split; [|done]. rewrite schedule_queue by done.
    by apply elem_of_app; left.
Qed.
End Stranded.
