(* ===== verification/IOManager.v ===== *)
(** * The I/O event loop ([src/src/iomanager.cc], [include/sylar/iomanager.hh])

    Per-descriptor contexts with the tasks waiting for readiness, the count of
    pending events, registration with [epoll], and the handling of reported
    events in [IOManager::idle].  The contexts are heap objects ([fd_heap]) that
    the vector [m_fdContexts] and the kernel point to; the kernel's interest list
    is part of the state and [epoll_ctl] is modelled by its documented effect on
    it, with other failures left to an argument.  Tasks handed to the scheduler
    are collected in [scheduled]. *)
From S2P Require Import Prelude Fiber Scheduler.

(** [src/include/sylar/iomanager.hh:21-27 IOManager::Event] *)
Inductive Event := NONE | READ | WRITE.

#[export] Instance Event_eq_dec : EqDecision Event.
Proof. solve_decision. Defined.

Definition EPOLLIN : Z := 1.
Definition EPOLLOUT : Z := 4.
Definition EPOLLERR : Z := 8.
Definition EPOLLHUP : Z := 16.
Definition EPOLLET : Z := 2 ^ 31.

Definition ev_val (e : Event) : Z :=
  match e with NONE => 0 | READ => EPOLLIN | WRITE => EPOLLOUT end.

Section IOManagers.
Context {C : Type}.

(** [src/include/sylar/iomanager.hh:39-44 EventContext]
    [ec_scheduler] is whether the scheduler pointer is set. *)
Record EventContext := mkEC { ec_scheduler : bool; ec_fiber : option nat; ec_cb : option C }.

(** [src/include/sylar/iomanager.hh:33-70 FdContext] *)
Record FdContext := mkFd { fc_read : EventContext; fc_write : EventContext; fc_fd : Z; fc_events : Z }.

(** [src/include/sylar/iomanager.hh:146-153 IOManager]
    With the heap of contexts, the next free address, the kernel's interest
    list (descriptor to event mask and context) and the tasks scheduled. *)
Record IOManager := mkIO {
  fd_heap : gmap nat FdContext;
  next_addr : nat;
  m_fdContexts : list nat;
  m_pendingEventCount : Z;
  interest : gmap Z (Z * nat);
  scheduled : list (FiberAndThread C)
}.

Definition set_fd (a : nat) (c : FdContext) (s : IOManager) : IOManager :=
  mkIO (<[a := c]> (fd_heap s)) (next_addr s) (m_fdContexts s) (m_pendingEventCount s) (interest s)
    (scheduled s).
Definition set_pending (n : Z) (s : IOManager) : IOManager :=
  mkIO (fd_heap s) (next_addr s) (m_fdContexts s) n (interest s) (scheduled s).
Definition set_interest (i : gmap Z (Z * nat)) (s : IOManager) : IOManager :=
  mkIO (fd_heap s) (next_addr s) (m_fdContexts s) (m_pendingEventCount s) i (scheduled s).
Definition add_scheduled (ft : FiberAndThread C) (s : IOManager) : IOManager :=
  mkIO (fd_heap s) (next_addr s) (m_fdContexts s) (m_pendingEventCount s) (interest s)
    (scheduled s ++ [ft]).

Definition EC_empty : EventContext := mkEC false None None.
Definition Fd_new (fd : Z) : FdContext := mkFd EC_empty EC_empty fd 0.

Definition fd_at (a : nat) : M IOManager FdContext := fun s =>
  match fd_heap s !! a with Some c => (Ok c, s) | None => (Err (Undef use_after_free), s) end.

Definition has_event (c : FdContext) (e : Event) : bool := negb (Z.land (fc_events c) (ev_val e) =? 0).

(** [events & ~event] *)
Definition without (evs : Z) (e : Z) : Z := Z.land evs (Z.lnot e).

(** [src/src/iomanager.cc:15-28 FdContext::getContext] *)
Definition getContext (c : FdContext) (e : Event) : result EventContext :=
  match e with READ => Ok (fc_read c) | WRITE => Ok (fc_write c) | NONE => Err AssertFail end.

(** Assigning through the reference [getContext] returns. *)
Definition put_context (c : FdContext) (e : Event) (x : EventContext) : FdContext :=
  match e with
  | READ => mkFd x (fc_write c) (fc_fd c) (fc_events c)
  | WRITE => mkFd (fc_read c) x (fc_fd c) (fc_events c)
  | NONE => c
  end.
Definition put_events (c : FdContext) (evs : Z) : FdContext := mkFd (fc_read c) (fc_write c) (fc_fd c) evs.

(** [src/src/iomanager.cc:30-35 FdContext::resetContext] *)
Definition resetContext (x : EventContext) : EventContext := EC_empty.

(** [src/src/iomanager.cc:37-51 FdContext::triggerEvent]
    The callback or the fiber is moved into the task that is scheduled. *)
Definition triggerEvent (a : nat) (e : Event) : M IOManager unit :=
  c ← fd_at a;
  sylar_assert (has_event c e);;
  let c := put_events c (without (fc_events c) (ev_val e)) in
  ctx ← lift (getContext c e);
  if negb (ec_scheduler ctx) then fail (Undef null_deref) else
  match ec_cb ctx with
  | Some _ =>
      let '(ft, cb') := FT_cb_ptr (ec_cb ctx) (-1) in
      modify (add_scheduled ft);;
      modify (set_fd a (put_context c e (mkEC false (ec_fiber ctx) cb')))
  | None =>
      let '(ft, fiber') := FT_fiber_ptr (ec_fiber ctx) (-1) in
      (match ft_fiber ft with Some _ => modify (add_scheduled ft) | None => mret () end);;
      modify (set_fd a (put_context c e (mkEC false fiber' (ec_cb ctx))))
  end.

(** ** The kernel side *)

Inductive ctl_op := CTL_ADD | CTL_MOD | CTL_DEL.

(** [epoll_ctl]: adding a registered descriptor, or modifying or deleting an
    unregistered one, fails; [allow] is false when it fails for another reason.
    The result is whether it succeeded. *)
Definition epoll_ctl (allow : bool) (op : ctl_op) (fd : Z) (ev : Z) (ptr : nat) : M IOManager bool :=
  s ← get;
  match allow, op, interest s !! fd with
  | true, CTL_ADD, None => modify (set_interest (<[fd := (ev, ptr)]> (interest s)));; mret true
  | true, CTL_MOD, Some _ => modify (set_interest (<[fd := (ev, ptr)]> (interest s)));; mret true
  | true, CTL_DEL, Some _ => modify (set_interest (delete fd (interest s)));; mret true
  | _, _, _ => mret false
  end.

(** ** Registration *)

(** New contexts for the descriptors [from, from + count). *)
Fixpoint new_contexts (count : nat) (from : Z) (s : IOManager) : IOManager :=
  match count with
  | O => s
  | S count =>
      let a := next_addr s in
      new_contexts count (from + 1)
        (mkIO (<[a := Fd_new from]> (fd_heap s)) (S a) (m_fdContexts s ++ [a]) (m_pendingEventCount s)
           (interest s) (scheduled s))
  end.

(** [src/src/iomanager.cc:79-89 IOManager::contextResize]
    [vector::resize] cuts the vector when [size] is smaller. *)
Definition contextResize (size : Z) (s : IOManager) : IOManager :=
  let old := m_fdContexts s in
  let s := mkIO (fd_heap s) (next_addr s) (take (Z.to_nat size) old) (m_pendingEventCount s)
             (interest s) (scheduled s) in
  new_contexts (Z.to_nat size - length old) (Z.of_nat (length old)) s.

(** [m_fdContexts[fd]] *)
Definition context_of (fd : Z) : M IOManager nat :=
  s ← get;
  if fd <? 0 then fail (Undef out_of_bounds) else deref (m_fdContexts s !! Z.to_nat fd) out_of_bounds.

(** [src/src/iomanager.cc:107-120 IOManager::addEvent]
    Finding or making the context.  The comparison is of [int]s: a negative
    descriptor passes it. *)
Definition find_context (fd : Z) : M IOManager nat :=
  s ← get;
  (if Z.of_nat (length (m_fdContexts s)) >? fd then mret ()
   else modify (contextResize (fd * 3 / 2)));;
  context_of fd.

(** [src/src/iomanager.cc:122-169 IOManager::addEvent]
    Under the lock of the context [a]; [cur] is the current fiber and its state,
    [in_sched] whether the thread has a scheduler. *)
Definition addEvent_locked (allow in_sched : bool) (cur : nat * State) (a : nat) (fd : Z) (e : Event)
    (cb : option C) : M IOManager Z :=
  c ← fd_at a;
  sylar_assert (negb (has_event c e));;
  let op := if fc_events c =? 0 then CTL_ADD else CTL_MOD in
  ok ← epoll_ctl allow op fd (Z.lor EPOLLET (Z.lor (fc_events c) (ev_val e))) a;
  if negb ok then mret (-1) else
  modify (fun s => set_pending (u64 (m_pendingEventCount s + 1)) s);;
  let c := put_events c (Z.lor (fc_events c) (ev_val e)) in
  modify (set_fd a c);;
  ctx ← lift (getContext c e);
  sylar_assert (negb (ec_scheduler ctx) && bool_decide (ec_fiber ctx = None)
                && match ec_cb ctx with None => true | Some _ => false end);;
  match cb with
  | Some _ => modify (set_fd a (put_context c e (mkEC in_sched (ec_fiber ctx) cb)))
  | None =>
      modify (set_fd a (put_context c e (mkEC in_sched (Some (fst cur)) (ec_cb ctx))));;
      sylar_assert (bool_decide (snd cur = EXEC))
  end;;
  mret 0.

(** [src/src/iomanager.cc:105-169 IOManager::addEvent] *)
Definition addEvent (allow in_sched : bool) (cur : nat * State) (fd : Z) (e : Event) (cb : option C)
    : M IOManager Z :=
  a ← find_context fd; addEvent_locked allow in_sched cur a fd e cb.

(** [src/src/iomanager.cc:171-209 IOManager::delEvent] *)
Definition delEvent (allow : bool) (fd : Z) (e : Event) : M IOManager bool :=
  s ← get;
  if Z.of_nat (length (m_fdContexts s)) <=? fd then mret false else
  a ← context_of fd;
  c ← fd_at a;
  if negb (has_event c e) then mret false else
  let new_events := without (fc_events c) (ev_val e) in
  let op := if new_events =? 0 then CTL_DEL else CTL_MOD in
  ok ← epoll_ctl allow op fd (Z.lor EPOLLET new_events) a;
  if negb ok then mret false else
  modify (fun s => set_pending (u64 (m_pendingEventCount s - 1)) s);;
  let c := put_events c new_events in
  ctx ← lift (getContext c e);
  modify (set_fd a (put_context c e (resetContext ctx)));;
  mret true.

(** [src/src/iomanager.cc:211-243 IOManager::cancelEvent] *)
Definition cancelEvent (allow : bool) (fd : Z) (e : Event) : M IOManager bool :=
  s ← get;
  if Z.of_nat (length (m_fdContexts s)) <=? fd then mret false else
  a ← context_of fd;
  c ← fd_at a;
  if negb (has_event c e) then mret false else
  let new_events := without (fc_events c) (ev_val e) in
  let op := if new_events =? 0 then CTL_DEL else CTL_MOD in
  ok ← epoll_ctl allow op fd (Z.lor EPOLLET new_events) a;
  if negb ok then mret false else
  triggerEvent a e;;
  modify (fun s => set_pending (u64 (m_pendingEventCount s - 1)) s);;
  mret true.

(** One registered event of [cancelAll]: trigger it and count it off. *)
Definition cancel_one (a : nat) (e : Event) : M IOManager unit :=
  c ← fd_at a;
  if has_event c e then
    triggerEvent a e;;
    modify (fun s => set_pending (u64 (m_pendingEventCount s - 1)) s)
  else mret ().

(** [src/src/iomanager.cc:245-286 IOManager::cancelAll] *)
Definition cancelAll (allow : bool) (fd : Z) : M IOManager bool :=
  s ← get;
  if Z.of_nat (length (m_fdContexts s)) <=? fd then mret false else
  a ← context_of fd;
  c ← fd_at a;
  if fc_events c =? 0 then mret false else
  ok ← epoll_ctl allow CTL_DEL fd 0 a;
  if negb ok then mret false else
  cancel_one a READ;;
  cancel_one a WRITE;;
  c ← fd_at a;
  sylar_assert (fc_events c =? 0);;
  mret true.

(** ** The idle loop *)

(** [src/src/iomanager.cc:340-357 IOManager::idle]
    The [timeout] argument of [epoll_wait], from the time to the next timer. *)
Definition wait_timeout (next_timeout : Z) : Z :=
  let MAX_TIMEOUT := 3000 in
  let next_timeout :=
    if negb (next_timeout =? 2 ^ 64 - 1) then
      if s32 next_timeout >? MAX_TIMEOUT then MAX_TIMEOUT else next_timeout
    else MAX_TIMEOUT in
  s32 next_timeout.

(** [src/src/iomanager.cc:388-397 IOManager::idle]
    The events a report stands for. *)
Definition real_events (events : Z) : Z :=
  let events := if negb (Z.land events (Z.lor EPOLLERR EPOLLHUP) =? 0)
                then Z.lor events (Z.lor EPOLLIN EPOLLOUT) else events in
  Z.lor (if negb (Z.land events EPOLLIN =? 0) then EPOLLIN else 0)
        (if negb (Z.land events EPOLLOUT =? 0) then EPOLLOUT else 0).

(** One of the two events of a report: trigger it and count it off. *)
Definition fire_one_event (a : nat) (real : Z) (e : Event) : M IOManager unit :=
  if negb (Z.land real (ev_val e) =? 0) then
    triggerEvent a e;;
    modify (fun s => set_pending (u64 (m_pendingEventCount s - 1)) s)
  else mret ().

(** [src/src/iomanager.cc:385-425 IOManager::idle]
    One report of [epoll_wait] for the context [a]. *)
Definition handle_event (allow : bool) (a : nat) (events : Z) : M IOManager unit :=
  c ← fd_at a;
  let real := real_events events in
  if Z.land (fc_events c) real =? 0 then mret () else
  let left_events := without (fc_events c) real in
  let op := if left_events =? 0 then CTL_DEL else CTL_MOD in
  ok ← epoll_ctl allow op (fc_fd c) (Z.lor EPOLLET left_events) a;
  if negb ok then mret () else
  fire_one_event a real READ;;
  fire_one_event a real WRITE.

(** [src/src/iomanager.cc:302-308 IOManager::stopping]
    [next_timer] is the value of [getNextTimer], [sched_stopping] that of
    [Scheduler::stopping]. *)
Definition stopping_io (next_timer : Z) (sched_stopping : bool) (s : IOManager) : bool :=
  (next_timer =? 2 ^ 64 - 1) && (m_pendingEventCount s =? 0) && sched_stopping.

(** [src/src/iomanager.cc:293-300 IOManager::tickle]
    Whether a byte is written to the pipe; [idle] is the idle-thread count. *)
Definition tickle_io (idle : Z) : bool := negb (idle =? 0).

(** [src/src/iomanager.cc:53-77 IOManager::IOManager]
    The contexts; [epoll] and the pipe exist. *)
Definition IOManager_new : IOManager := contextResize 32 (mkIO ∅ 0 [] 0 ∅ []).
End IOManagers.

Arguments EventContext C : clear implicits.
Arguments FdContext C : clear implicits.
Arguments IOManager C : clear implicits.
