(* ===== verification/IOManagerSpec.v ===== *)
(** * Correctness of the I/O event loop

    The invariant that ties the contexts, the kernel's interest list and the
    pending count together, its preservation, and what each operation does with
    the task that waits for an event. *)
From S2P Require Import Prelude Fiber Scheduler IOManager.

Section IOSpec.
Context {C : Type}.
Implicit Types (s : IOManager C) (c : FdContext C) (x : EventContext C).

(** An event context in use holds a scheduler and a fiber or a callback; one
    not in use is empty. *)
Definition ec_ok (used : bool) x : Prop :=
  if used then ec_scheduler x = true
    /\ ((exists f, ec_fiber x = Some f /\ ec_cb x = None) \/ (exists cb, ec_cb x = Some cb /\ ec_fiber x = None))
  else x = EC_empty.

Definition ctx_ok c : Prop :=
  (fc_events c = 0 \/ fc_events c = 1 \/ fc_events c = 4 \/ fc_events c = 5)
  /\ ec_ok (has_event c READ) (fc_read c) /\ ec_ok (has_event c WRITE) (fc_write c).

(** The number of events registered in a context. *)
Definition n_events c : Z :=
  (if has_event c READ then 1 else 0) + (if has_event c WRITE then 1 else 0).

(** What the kernel has for the descriptor of a context at [a]. *)
Definition registration (a : nat) c : option (Z * nat) :=
  if fc_events c =? 0 then None else Some (Z.lor EPOLLET (fc_events c), a).

(** The task waiting in an event context. *)
Definition waiting x : FiberAndThread C :=
  match ec_cb x with Some _ => mkFT (-1) None (ec_cb x) | None => mkFT (-1) (ec_fiber x) None end.

Definition context c (e : Event) : EventContext C :=
  match e with READ => fc_read c | WRITE => fc_write c | NONE => EC_empty end.

Fixpoint pending_of (h : gmap nat (FdContext C)) (l : list nat) : Z :=
  match l with
  | [] => 0
  | a :: l => match h !! a with Some c => n_events c | None => 0 end + pending_of h l
  end.

Record io_inv s : Prop := {
  io_vec i a : m_fdContexts s !! i = Some a ->
    exists c, fd_heap s !! a = Some c /\ fc_fd c = Z.of_nat i;
  io_nodup : NoDup (m_fdContexts s);
  io_dom a c : fd_heap s !! a = Some c -> a ∈ m_fdContexts s /\ ctx_ok c
    /\ interest s !! fc_fd c = registration a c;
  io_fresh a : (next_addr s <= a)%nat -> fd_heap s !! a = None;
  io_rest fd : Z.of_nat (length (m_fdContexts s)) <= fd -> interest s !! fd = None;
  io_pending : m_pendingEventCount s = pending_of (fd_heap s) (m_fdContexts s);
  io_bound : 4 * Z.of_nat (length (m_fdContexts s)) < 2 ^ 64
}.

(** The context of a descriptor. *)
Definition ctx_of s (fd : Z) : option (FdContext C) :=
  m_fdContexts s !! Z.to_nat fd ≫= fun a => fd_heap s !! a.

(** The tasks waiting for the events of a mask, reads first. *)
Definition waiters c (mask : Z) : list (FiberAndThread C) :=
  (if negb (Z.land mask EPOLLIN =? 0) then [waiting (fc_read c)] else [])
  ++ (if negb (Z.land mask EPOLLOUT =? 0) then [waiting (fc_write c)] else []).

(** ** The pending count *)

Lemma n_events_range c : 0 <= n_events c <= 2.
Proof. unfold n_events. destruct (has_event c READ), (has_event c WRITE); lia. Qed.

Lemma pending_range h l : 0 <= pending_of h l <= 2 * Z.of_nat (length l).
Proof.
  induction l as [|a l IH]; cbn [pending_of length]; [lia|].
  destruct (h !! a) as [c|]; [pose proof (n_events_range c)|]; lia.
Qed.

Lemma pending_insert_out h l a c : a ∉ l -> pending_of (<[a := c]> h) l = pending_of h l.
Proof.
  induction l as [|b l IH]; cbn [pending_of]; [done|]. intros [Hne Hni]%not_elem_of_cons.
  rewrite lookup_insert_ne by done. by rewrite IH.
Qed.

Lemma pending_insert h l a c c' :
  NoDup l -> a ∈ l -> h !! a = Some c ->
  pending_of (<[a := c']> h) l = pending_of h l - n_events c + n_events c'.
Proof.
  induction 1 as [|b l Hb Hnd IH]; [by intros ?%not_elem_of_nil|].
  intros [->|Ha]%elem_of_cons Hc; cbn [pending_of].
  - rewrite lookup_insert_eq, Hc, pending_insert_out by done. lia.
  - rewrite lookup_insert_ne by (by intros ->). rewrite IH by done. lia.
Qed.

Lemma pending_pos h l a c : a ∈ l -> h !! a = Some c -> n_events c <= pending_of h l.
Proof.
  induction l as [|b l IH]; [by intros ?%not_elem_of_nil|].
  intros [->|Ha]%elem_of_cons Hc; cbn [pending_of].
  - rewrite Hc. pose proof (pending_range h l). lia.
  - specialize (IH Ha Hc). destruct (h !! b) as [d|]; [pose proof (n_events_range d)|]; lia.
Qed.

(** ** Changing one context *)

Lemma io_update s a c c' i' sch :
  io_inv s -> fd_heap s !! a = Some c -> ctx_ok c' -> fc_fd c' = fc_fd c ->
  i' !! fc_fd c = registration a c' -> (forall fd, fd <> fc_fd c -> i' !! fd = interest s !! fd) ->
  io_inv (mkIO (<[a := c']> (fd_heap s)) (next_addr s) (m_fdContexts s)
            (u64 (m_pendingEventCount s - n_events c + n_events c')) i' sch).
Proof.
  intros [Hvec Hnd Hdom Hfresh Hrest Hpend Hbound] Ha Hok Hfd Hi Hother.
  destruct (Hdom a c Ha) as (Hin & _ & _).
  apply list_elem_of_lookup_1 in Hin as [k Hk].
  destruct (Hvec k a Hk) as (c0 & Hc0 & Hfdk). assert (c0 = c) as -> by congruence.
  constructor; cbn [m_fdContexts fd_heap next_addr interest m_pendingEventCount]; try done.
  - intros j b Hb. destruct (decide (a = b)) as [<-|Hne].
    + exists c'. rewrite lookup_insert_eq. split; [done|].
      destruct (Hvec j a Hb) as (c1 & Hc1 & Hj). congruence.
    + rewrite lookup_insert_ne by done. by apply Hvec.
  - intros b d Hb. destruct (decide (a = b)) as [<-|Hne].
    + rewrite lookup_insert_eq in Hb. injection Hb as <-. rewrite Hfd.
      split_and!; try done. by eapply list_elem_of_lookup_2.
    + rewrite lookup_insert_ne in Hb by done. destruct (Hdom b d Hb) as (Hinb & Hokb & Hrb).
      split_and!; try done. rewrite Hother; [done|]. intros E.
      apply list_elem_of_lookup_1 in Hinb as [m Hm]. destruct (Hvec m b Hm) as (d' & Hd' & Hfdm).
      assert (d' = d) as -> by congruence. assert (m = k) as -> by lia. congruence.
  - intros b Hb. rewrite lookup_insert_ne; [by apply Hfresh|].
    intros <-. rewrite Hfresh in Ha by done. done.
  - intros fd Hlen. rewrite Hother; [by apply Hrest|].
    apply lookup_lt_Some in Hk. lia.
  - rewrite (pending_insert _ _ _ c) by (done || by eapply list_elem_of_lookup_2).
    rewrite Hpend. apply u64_small.
    pose proof (pending_range (fd_heap s) (m_fdContexts s)). pose proof (n_events_range c').
    pose proof (n_events_range c).
    pose proof (pending_pos (fd_heap s) (m_fdContexts s) a c ltac:(by eapply list_elem_of_lookup_2) Ha).
    apply lookup_lt_Some in Hk. lia.
Qed.

(** Finding the context of a descriptor. *)
Lemma context_of_ok s fd :
  io_inv s -> 0 <= fd < Z.of_nat (length (m_fdContexts s)) ->
  exists a c, context_of fd s = (Ok a, s) /\ fd_heap s !! a = Some c /\ fc_fd c = fd
    /\ a ∈ m_fdContexts s /\ ctx_ok c /\ interest s !! fd = registration a c.
Proof.
  intros Hinv Hfd. destruct (lookup_lt_is_Some_2 (m_fdContexts s) (Z.to_nat fd)) as [a Ha]; [lia|].
  destruct (io_vec s Hinv _ _ Ha) as (c & Hc & Hcfd). rewrite Z2Nat.id in Hcfd by lia.
  destruct (io_dom s Hinv a c Hc) as (Hin & Hok & Hr). rewrite Hcfd in Hr.
  exists a, c. split_and!; try done. unfold context_of. mstep.
  rewrite (proj2 (Z.ltb_ge fd 0)) by lia. by rewrite Ha.
Qed.

(** ** Events of a context, by cases on the four masks *)

(** Compute the operations on closed event masks. *)
Ltac mask_compute :=
  unfold without, ev_val, EPOLLIN, EPOLLOUT in *;
  repeat match goal with
  | |- context [Z.land ?a ?b] => let v := eval vm_compute in (Z.land a b) in
      match v with 0 => idtac | Z.pos _ => idtac end; change (Z.land a b) with v
  | H : context [Z.land ?a ?b] |- _ => let v := eval vm_compute in (Z.land a b) in
      match v with 0 => idtac | Z.pos _ => idtac end; change (Z.land a b) with v in H
  | |- context [Z.lor ?a ?b] => let v := eval vm_compute in (Z.lor a b) in
      match v with 0 => idtac | Z.pos _ => idtac end; change (Z.lor a b) with v
  end; cbn in *.

Lemma ctx_ok_cases c :
  ctx_ok c ->
  (fc_events c = 0 /\ fc_read c = EC_empty /\ fc_write c = EC_empty)
  \/ (fc_events c = 1 /\ ec_ok true (fc_read c) /\ fc_write c = EC_empty)
  \/ (fc_events c = 4 /\ fc_read c = EC_empty /\ ec_ok true (fc_write c))
  \/ (fc_events c = 5 /\ ec_ok true (fc_read c) /\ ec_ok true (fc_write c)).
Proof.
  unfold ctx_ok, has_event. intros ([E|[E|[E|E]]] & Hr & Hw); rewrite E in Hr, Hw; mask_compute; tauto.
Qed.

(** Registering an event. *)
Lemma ctx_ok_add c e x :
  ctx_ok c -> e <> NONE -> has_event c e = false -> ec_ok true x ->
  let c' := put_context (put_events c (Z.lor (fc_events c) (ev_val e))) e x in
  ctx_ok c' /\ fc_fd c' = fc_fd c /\ n_events c' = n_events c + 1
  /\ context c e = EC_empty /\ fc_events c' = Z.lor (fc_events c) (ev_val e) /\ fc_events c' <> 0.
Proof.
  intros Hok He Hh Hx. unfold ctx_ok, n_events, has_event in *.
  destruct (ctx_ok_cases c Hok) as [(E & Hr & Hw)|[(E & Hr & Hw)|[(E & Hr & Hw)|(E & Hr & Hw)]]];
    destruct e; try done; rewrite E in *;
    mask_compute; try discriminate Hh; rewrite ?Hr, ?Hw; mask_compute; split_and!; auto; first [tauto|lia].
Qed.

(** Removing an event. *)
Lemma ctx_ok_remove c e :
  ctx_ok c -> e <> NONE -> has_event c e = true ->
  let c' := put_context (put_events c (without (fc_events c) (ev_val e))) e EC_empty in
  ctx_ok c' /\ fc_fd c' = fc_fd c /\ n_events c' = n_events c - 1 /\ ec_ok true (context c e)
  /\ fc_events c' = without (fc_events c) (ev_val e) /\ fc_events c <> 0.
Proof.
  intros Hok He Hh. unfold ctx_ok, n_events, has_event in *.
  destruct (ctx_ok_cases c Hok) as [(E & Hr & Hw)|[(E & Hr & Hw)|[(E & Hr & Hw)|(E & Hr & Hw)]]];
    destruct e; try done; rewrite E in *;
    mask_compute; try discriminate Hh; rewrite ?Hr, ?Hw; mask_compute; split_and!; auto; first [tauto|lia].
Qed.

(** ** The operations *)

Lemma reg_none a c : fc_events c = 0 -> registration a c = None.
Proof. intros E. unfold registration. by rewrite E. Qed.

Lemma reg_some a c : fc_events c <> 0 -> registration a c = Some (Z.lor EPOLLET (fc_events c), a).
Proof. intros E. unfold registration. by rewrite (proj2 (Z.eqb_neq _ _) E). Qed.

(** [epoll_ctl] with the operation the code chooses always fits the interest
    list; it updates the entry of the descriptor to the new mask. *)
Lemma epoll_ctl_add s a c mask :
  interest s !! fc_fd c = registration a c -> mask <> 0 ->
  exists i', epoll_ctl true (if fc_events c =? 0 then CTL_ADD else CTL_MOD) (fc_fd c) (Z.lor EPOLLET mask) a s
    = (Ok true, set_interest i' s)
    /\ i' !! fc_fd c = Some (Z.lor EPOLLET mask, a)
    /\ forall fd, fd <> fc_fd c -> i' !! fd = interest s !! fd.
Proof.
  intros Hi Hm. unfold epoll_ctl. mstep. rewrite Hi. unfold registration.
  destruct (fc_events c =? 0); (eexists; split; [reflexivity|]; split; [apply lookup_insert_eq|]);
    intros fd Hfd; by rewrite lookup_insert_ne.
Qed.

Lemma epoll_ctl_remove s a c mask :
  interest s !! fc_fd c = registration a c -> fc_events c <> 0 ->
  exists i', epoll_ctl true (if mask =? 0 then CTL_DEL else CTL_MOD) (fc_fd c) (Z.lor EPOLLET mask) a s
    = (Ok true, set_interest i' s)
    /\ i' !! fc_fd c = (if mask =? 0 then None else Some (Z.lor EPOLLET mask, a))
    /\ forall fd, fd <> fc_fd c -> i' !! fd = interest s !! fd.
Proof.
  intros Hi Hne. unfold epoll_ctl. mstep. rewrite Hi, reg_some by done.
  destruct (mask =? 0); (eexists; split; [reflexivity|]; split; [by rewrite ?lookup_insert_eq, ?lookup_delete_eq|]);
    intros fd Hfd; by rewrite ?lookup_insert_ne, ?lookup_delete_ne.
Qed.

Lemma epoll_ctl_fails op fd ev a s : epoll_ctl false op fd ev a s = (Ok false, s).
Proof. unfold epoll_ctl. mstep. by destruct op, (interest s !! fd). Qed.

(** [triggerEvent] on a registered event moves the waiting task to the scheduler. *)
Lemma trigger_spec s a c e :
  fd_heap s !! a = Some c -> ctx_ok c -> e <> NONE -> has_event c e = true ->
  triggerEvent a e s = (Ok tt, set_fd a (put_context (put_events c (without (fc_events c) (ev_val e))) e EC_empty)
                                 (add_scheduled (waiting (context c e)) s)).
Proof.
  intros Ha Hok He Hh. destruct (ctx_ok_remove c e Hok He Hh) as (_ & _ & _ & Hx & _).
  unfold triggerEvent, fd_at. mstep. rewrite Ha, Hh. unfold getContext.
  assert ((match e with READ => Ok (fc_read (put_events c (without (fc_events c) (ev_val e))))
    | WRITE => Ok (fc_write (put_events c (without (fc_events c) (ev_val e)))) | NONE => Err AssertFail end)
    = Ok (context c e)) as -> by (by destruct e).
  destruct Hx as [Hs Hcb]. rewrite Hs. cbn [negb].
  destruct Hcb as [(f & Hf & Hn)|(cb & Hc & Hf)]; unfold waiting.
  - rewrite Hn, Hf. done.
  - rewrite Hc, Hf. done.
Qed.

(** Growing the vector of contexts. *)
Lemma new_contexts_inv n from s :
  io_inv s -> from = Z.of_nat (length (m_fdContexts s)) ->
  4 * (from + Z.of_nat n) < 2 ^ 64 ->
  io_inv (new_contexts n from s)
  /\ length (m_fdContexts (new_contexts n from s)) = (length (m_fdContexts s) + n)%nat
  /\ (forall i a, m_fdContexts s !! i = Some a -> m_fdContexts (new_contexts n from s) !! i = Some a)
  /\ (forall a c, fd_heap s !! a = Some c -> fd_heap (new_contexts n from s) !! a = Some c)
  /\ m_pendingEventCount (new_contexts n from s) = m_pendingEventCount s
  /\ scheduled (new_contexts n from s) = scheduled s
  /\ (forall a c, fd_heap (new_contexts n from s) !! a = Some c ->
       fd_heap s !! a = Some c \/ fc_events c = 0).
Proof.
  revert from s. induction n as [|n IH]; intros from s Hinv Hfrom Hb; cbn [new_contexts].
  { split_and!; try (done || lia). by left. }
  pose proof Hinv as [Hvec Hnd Hdom Hfresh Hrest Hpend Hbound].
  set (a := next_addr s). assert (a ∉ m_fdContexts s) as Hna.
  { intros Hin. apply list_elem_of_lookup_1 in Hin as [i Hi]. destruct (Hvec i a Hi) as (c & Hc & _).
    rewrite Hfresh in Hc by (unfold a; lia). done. }
  set (s1 := mkIO _ _ _ _ _ _).
  assert (io_inv s1) as Hinv1.
  { constructor; cbn [s1 m_fdContexts fd_heap next_addr interest m_pendingEventCount].
    - intros i b Hi. apply lookup_app_Some in Hi as [Hi|[Hle Hi]].
      + destruct (Hvec i b Hi) as (c & Hc & Hfd). exists c. rewrite lookup_insert_ne; [done|].
        intros <-. apply Hna. by eapply list_elem_of_lookup_2.
      + apply list_lookup_singleton_Some in Hi as [Hi <-]. exists (Fd_new from).
        rewrite lookup_insert_eq. split; [done|]. cbn. lia.
    - apply NoDup_app. split_and!; [done| |apply NoDup_singleton].
      intros b Hb' ->%list_elem_of_singleton. done.
    - intros b c Hbc. destruct (decide (a = b)) as [<-|Hne].
      + rewrite lookup_insert_eq in Hbc. injection Hbc as <-. split_and!.
        * apply elem_of_app. right. by apply list_elem_of_singleton.
        * unfold ctx_ok. split_and!; [by left|done|done].
        * cbn. apply Hrest. lia.
      + rewrite lookup_insert_ne in Hbc by done. destruct (Hdom b c Hbc) as (? & ? & ?).
        split_and!; try done. apply elem_of_app. by left.
    - intros b Hle. rewrite lookup_insert_ne by (unfold a; lia). apply Hfresh. lia.
    - intros fd Hfd. rewrite length_app in Hfd. cbn in Hfd. apply Hrest. lia.
    - rewrite Hpend. assert (forall l h, pending_of h (l ++ [a]) = pending_of h l + pending_of h [a]) as Happ.
      { intros l h. induction l as [|b l IHl]; cbn [pending_of app]; [lia|]. rewrite IHl.
        cbn [pending_of]. lia. }
      rewrite Happ, pending_insert_out by done. cbn [pending_of]. rewrite lookup_insert_eq.
      change (n_events (Fd_new from)) with 0. lia.
    - rewrite length_app. cbn [length]. lia. }
  destruct (IH (from + 1) s1 Hinv1) as (I1 & I2 & I3 & I4 & I5 & I6 & I7).
  { cbn. rewrite length_app. cbn. lia. }
  { lia. }
  split_and!; try done.
  - rewrite I2. cbn. rewrite length_app. cbn. lia.
  - intros i b Hi. apply I3. cbn. by apply lookup_app_l_Some.
  - intros b c Hc. apply I4. cbn. rewrite lookup_insert_ne; [done|].
    intros <-. rewrite Hfresh in Hc by (unfold a; lia). done.
  - intros b c [Hc|Hc]%I7; [|by right]. cbn in Hc.
    apply lookup_insert_Some in Hc as [[_ <-]|[_ Hc]]; [by right|by left].
Qed.

Lemma find_context_ok s fd :
  io_inv s -> 0 <= fd -> 32 <= Z.of_nat (length (m_fdContexts s)) -> 8 * fd < 2 ^ 64 ->
  exists a c s', find_context fd s = (Ok a, s') /\ io_inv s' /\ fd_heap s' !! a = Some c /\ fc_fd c = fd
    /\ ctx_ok c /\ interest s' !! fd = registration a c
    /\ (forall b d, fd_heap s !! b = Some d -> fd_heap s' !! b = Some d)
    /\ (forall i b, m_fdContexts s !! i = Some b -> m_fdContexts s' !! i = Some b)
    /\ m_pendingEventCount s' = m_pendingEventCount s /\ scheduled s' = scheduled s
    /\ (fd_heap s !! a = Some c \/ fc_events c = 0)
    /\ (forall b d, fd_heap s' !! b = Some d -> fd_heap s !! b = Some d \/ fc_events d = 0).
Proof.
  intros Hinv Hfd H32 Hb. unfold find_context. mstep. rewrite Z.gtb_ltb.
  destruct (Z.ltb_spec fd (Z.of_nat (length (m_fdContexts s)))) as [Hlt|Hge].
  - destruct (context_of_ok s fd Hinv) as (a & c & Hrun & Hc & Hcfd & _ & Hok & Hr); [lia|].
    exists a, c, s. split_and!; try done; by left.
  - set (size := fd * 3 / 2). assert (fd < size) as Hsz.
    { unfold size. assert (2 * (fd + 1) <= fd * 3) by lia.
      apply Z.lt_le_trans with (fd + 1); [lia|]. apply Z.div_le_lower_bound; lia. }
    assert (size <= 2 * fd) as Hsz2.
    { unfold size. apply Z.div_le_upper_bound; lia. }
    assert (contextResize size s = new_contexts (Z.to_nat size - length (m_fdContexts s))
              (Z.of_nat (length (m_fdContexts s))) s) as ->.
    { unfold contextResize. rewrite take_ge by lia. by destruct s. }
    destruct (new_contexts_inv (Z.to_nat size - length (m_fdContexts s))
      (Z.of_nat (length (m_fdContexts s))) s Hinv eq_refl) as (I1 & I2 & I3 & I4 & I5 & I6 & I7); [lia|].
    set (s' := new_contexts _ _ s) in *.
    destruct (context_of_ok s' fd I1) as (a & c & Hrun & Hc & Hcfd & _ & Hok & Hr); [lia|].
    exists a, c, s'. split_and!; try done. by apply I7.
Qed.

(** The context of a descriptor after its object was replaced. *)
Lemma ctx_of_set s a c fd :
  io_inv s -> fd_heap s !! a = Some c -> fc_fd c = fd -> 0 <= fd ->
  m_fdContexts s !! Z.to_nat fd = Some a.
Proof.
  intros Hinv Ha Hfd H0. destruct (io_dom s Hinv a c Ha) as (Hin & _).
  apply list_elem_of_lookup_1 in Hin as [k Hk]. destruct (io_vec s Hinv k a Hk) as (c' & Hc' & Hk').
  assert (c' = c) as -> by congruence. replace (Z.to_nat fd) with k by lia. done.
Qed.

(** Triggering one event and counting it off, once the kernel entry has been
    updated to the remaining mask. *)
Lemma trigger_count_inv s a c e i' :
  io_inv s -> fd_heap s !! a = Some c -> e <> NONE -> has_event c e = true ->
  let c' := put_context (put_events c (without (fc_events c) (ev_val e))) e EC_empty in
  i' !! fc_fd c = registration a c' -> (forall fd, fd <> fc_fd c -> i' !! fd = interest s !! fd) ->
  exists s', (triggerEvent a e;; modify (fun s => set_pending (u64 (m_pendingEventCount s - 1)) s))
               (set_interest i' s) = (Ok tt, s')
    /\ io_inv s' /\ fd_heap s' = <[a := c']> (fd_heap s) /\ m_fdContexts s' = m_fdContexts s
    /\ scheduled s' = scheduled s ++ [waiting (context c e)]
    /\ m_pendingEventCount s' = m_pendingEventCount s - 1 /\ interest s' = i'.
Proof.
  intros Hinv Ha He Hh c' Hi Hother. destruct (io_dom s Hinv a c Ha) as (Hin & Hok & _).
  destruct (ctx_ok_remove c e Hok He Hh) as (Hok' & Hfd & Hn & _ & _).
  mstep. rewrite (trigger_spec (set_interest i' s) a c e) by done.
  eexists. split; [reflexivity|]. cbn -[u64 without].
  pose proof (io_update s a c c' i' (scheduled s ++ [waiting (context c e)]) Hinv Ha Hok' Hfd Hi Hother) as Hup.
  assert (m_pendingEventCount s - n_events c + n_events c' = m_pendingEventCount s - 1) as Hp
    by (unfold c'; lia).
  rewrite Hp in Hup. split_and!; try done. apply u64_small.
  rewrite (io_pending s Hinv). pose proof (pending_range (fd_heap s) (m_fdContexts s)).
  pose proof (pending_pos _ _ _ _ Hin Ha). pose proof (n_events_range c'). unfold c' in *.
  pose proof (io_bound s Hinv). lia.
Qed.

Lemma ctx_of_ok s fd c :
  io_inv s -> 0 <= fd -> ctx_of s fd = Some c ->
  exists a, m_fdContexts s !! Z.to_nat fd = Some a /\ fd_heap s !! a = Some c
    /\ context_of fd s = (Ok a, s) /\ (Z.of_nat (length (m_fdContexts s)) <=? fd) = false
    /\ fc_fd c = fd /\ ctx_ok c /\ interest s !! fc_fd c = registration a c.
Proof.
  intros Hinv H0 Hc. unfold ctx_of in Hc.
  destruct (m_fdContexts s !! Z.to_nat fd) as [a|] eqn:Ea; [|done]. cbn in Hc.
  pose proof (lookup_lt_Some _ _ _ Ea) as Hlt.
  destruct (context_of_ok s fd Hinv) as (a' & c' & Hrun & Hc' & Hcfd & Hin & Hok & Hr); [lia|].
  assert (a' = a) as -> by (revert Hrun; unfold context_of; mstep;
    rewrite (proj2 (Z.ltb_ge fd 0)), Ea by lia; by intros [= <-]).
  assert (c' = c) as -> by congruence. exists a. split_and!; try done; [|by rewrite Hcfd].
  apply Z.leb_gt. lia.
Qed.

(** A context after the events of a mask were triggered. *)
Definition cleared c (m : Z) : FdContext C :=
  mkFd (if negb (Z.land m EPOLLIN =? 0) then EC_empty else fc_read c)
       (if negb (Z.land m EPOLLOUT =? 0) then EC_empty else fc_write c)
       (fc_fd c) (without (fc_events c) m).

Definition n_mask (m : Z) : Z :=
  (if negb (Z.land m EPOLLIN =? 0) then 1 else 0) + (if negb (Z.land m EPOLLOUT =? 0) then 1 else 0).

(** Every event of the mask is registered. *)
Definition covered c (m : Z) : Prop :=
  (Z.land m EPOLLIN <> 0 -> has_event c READ = true) /\ (Z.land m EPOLLOUT <> 0 -> has_event c WRITE = true).

(** The task waiting for an event of a descriptor. *)
Definition waits s (fd : Z) (e : Event) : option (FiberAndThread C) :=
  c ← ctx_of s fd; if has_event c e then Some (waiting (context c e)) else None.

(** What triggering the events [m] of the context [c] at [a] comes to. *)
Record fires s (a : nat) c (m : Z) s' : Prop := {
  fi_mask : m = 1 \/ m = 4 \/ m = 5;
  fi_ctx : fd_heap s !! a = Some c;
  fi_heap : fd_heap s' = <[a := cleared c m]> (fd_heap s);
  fi_vec : m_fdContexts s' = m_fdContexts s;
  fi_covered : covered c m;
  fi_sched : scheduled s' = scheduled s ++ waiters c m
}.

Lemma cleared_event c e : e <> NONE ->
  put_context (put_events c (without (fc_events c) (ev_val e))) e EC_empty = cleared c (ev_val e).
Proof. by destruct e. Qed.

Lemma cancel_spec s fd e c :
  io_inv s -> 0 <= fd -> e <> NONE -> ctx_of s fd = Some c -> has_event c e = true ->
  exists s', cancelEvent true fd e s = (Ok true, s') /\ io_inv s'
    /\ scheduled s' = scheduled s ++ [waiting (context c e)]
    /\ m_pendingEventCount s' = m_pendingEventCount s - 1
    /\ ctx_of s' fd = Some (put_context (put_events c (without (fc_events c) (ev_val e))) e EC_empty)
    /\ exists a, fires s a c (ev_val e) s'.
Proof.
  intros Hinv H0 He Hctx Hh.
  destruct (ctx_of_ok s fd c Hinv H0 Hctx) as (a & Ea & Hc & Hrun & Hlen & Hcfd & Hok & Hr).
  destruct (ctx_ok_remove c e Hok He Hh) as (Hok' & Hfd' & Hn & _ & Hev & Hne).
  destruct (epoll_ctl_remove s a c (without (fc_events c) (ev_val e)) Hr Hne) as (i' & Hctl & Hi & Hother).
  destruct (trigger_count_inv s a c e i' Hinv Hc He Hh) as (s' & Htr & Hinv' & Hh' & Hv & Hsch & Hp & _).
  { rewrite Hi. unfold registration. rewrite Hev. done. }
  { done. }
  exists s'. split_and!; try done.
  - unfold cancelEvent. mstep. rewrite Hlen, Hrun.
    unfold fd_at at 1. rewrite Hc, Hh. cbn [negb]. rewrite <-Hcfd at 1. rewrite Hctl. cbn [negb].
    revert Htr. mstep. destruct (triggerEvent a e (set_interest i' s)) as [[[]|] s1]; [|done].
    intros [= ->]. done.
  - unfold ctx_of. rewrite Hv, Ea. cbn. rewrite Hh'. by rewrite lookup_insert_eq.
  - exists a. constructor; try done.
    + destruct e; [done|by left|by right; left].
    + by rewrite Hh', cleared_event.
    + by destruct e.
    + rewrite Hsch. by destruct e.
Qed.

Lemma delete_spec s fd e c :
  io_inv s -> 0 <= fd -> e <> NONE -> ctx_of s fd = Some c -> has_event c e = true ->
  exists s', delEvent true fd e s = (Ok true, s') /\ io_inv s'
    /\ scheduled s' = scheduled s /\ m_pendingEventCount s' = m_pendingEventCount s - 1
    /\ ctx_of s' fd = Some (put_context (put_events c (without (fc_events c) (ev_val e))) e EC_empty).
Proof.
  intros Hinv H0 He Hctx Hh.
  destruct (ctx_of_ok s fd c Hinv H0 Hctx) as (a & Ea & Hc & Hrun & Hlen & Hcfd & Hok & Hr).
  destruct (ctx_ok_remove c e Hok He Hh) as (Hok' & Hfd' & Hn & _ & Hev & Hne).
  destruct (epoll_ctl_remove s a c (without (fc_events c) (ev_val e)) Hr Hne) as (i' & Hctl & Hi & Hother).
  set (c' := put_context _ e EC_empty) in *.
  pose proof (io_update s a c c' i' (scheduled s) Hinv Hc Hok' Hfd') as Hup.
  replace (m_pendingEventCount s - n_events c + n_events c') with (m_pendingEventCount s - 1) in Hup by lia.
  eexists. split.
  { unfold delEvent. mstep. rewrite Hlen, Hrun. unfold fd_at. rewrite Hc, Hh. cbn [negb].
    rewrite <-Hcfd at 1. rewrite Hctl. cbn [negb].
    assert (getContext (put_events c (without (fc_events c) (ev_val e))) e
            = Ok (context (put_events c (without (fc_events c) (ev_val e))) e)) as -> by (by destruct e).
    reflexivity. }
  cbn -[u64 without]. split_and!; try done.
  - apply Hup; [|done]. rewrite Hi. unfold registration. by rewrite Hev.
  - apply u64_small. rewrite (io_pending s Hinv). destruct (io_dom s Hinv a c Hc) as (Hin & _).
    pose proof (pending_range (fd_heap s) (m_fdContexts s)). pose proof (pending_pos _ _ _ _ Hin Hc).
    pose proof (n_events_range c'). pose proof (io_bound s Hinv). lia.
  - unfold ctx_of. cbn. rewrite Ea. cbn. by rewrite lookup_insert_eq.
Qed.

(** [real_events] only has the two bits the code looks at. *)
Lemma real_events_cases evs :
  real_events evs = 0 \/ real_events evs = 1 \/ real_events evs = 4 \/ real_events evs = 5.
Proof.
  unfold real_events. cbv zeta. generalize (if negb (Z.land evs (Z.lor EPOLLERR EPOLLHUP) =? 0)
    then Z.lor evs (Z.lor EPOLLIN EPOLLOUT) else evs). intros z.
  destruct (negb (Z.land z EPOLLIN =? 0)), (negb (Z.land z EPOLLOUT =? 0)); cbn; tauto.
Qed.

Lemma cleared_ok c m :
  ctx_ok c -> m = 1 \/ m = 4 \/ m = 5 -> covered c m ->
  ctx_ok (cleared c m) /\ n_events (cleared c m) = n_events c - n_mask m /\ fc_events c <> 0
  /\ fc_events (cleared c m) = without (fc_events c) m.
Proof.
  intros Hok Hm [H1 H2]. unfold ctx_ok, n_events, n_mask, cleared, has_event in *.
  destruct (ctx_ok_cases c Hok) as [(E & Hr & Hw)|[(E & Hr & Hw)|[(E & Hr & Hw)|(E & Hr & Hw)]]];
    destruct Hm as [->|[->| ->]]; rewrite E in *; mask_compute;
    try (discriminate H1; done); try (discriminate H2; done);
    rewrite ?Hr, ?Hw; mask_compute; split_and!; auto; first [tauto|lia].
Qed.

(** Triggering the events of a covered mask, reads first, and counting them off. *)
Lemma fire_events_spec s a c m :
  fd_heap s !! a = Some c -> ctx_ok c -> m = 1 \/ m = 4 \/ m = 5 -> covered c m ->
  n_mask m <= m_pendingEventCount s < 2 ^ 64 ->
  (fire_one_event a m READ;; fire_one_event a m WRITE) s
  = (Ok tt, mkIO (<[a := cleared c m]> (fd_heap s)) (next_addr s) (m_fdContexts s)
              (m_pendingEventCount s - n_mask m) (interest s) (scheduled s ++ waiters c m)).
Proof.
  intros Ha Hok Hm [H1 H2] Hp. unfold fire_one_event. mstep.
  assert (forall s1 c1 e, fd_heap s1 !! a = Some c1 -> ctx_ok c1 -> e <> NONE -> has_event c1 e = true ->
    1 <= m_pendingEventCount s1 < 2 ^ 64 ->
    (triggerEvent a e;; modify (fun s => set_pending (u64 (m_pendingEventCount s - 1)) s)) s1
    = (Ok tt, mkIO (<[a := put_context (put_events c1 (without (fc_events c1) (ev_val e))) e EC_empty]> (fd_heap s1))
        (next_addr s1) (m_fdContexts s1) (m_pendingEventCount s1 - 1) (interest s1)
        (scheduled s1 ++ [waiting (context c1 e)]))) as Hone.
  { intros s1 c1 e Hc1 Hok1 He Hh Hp1. mstep. rewrite (trigger_spec s1 a c1 e) by done.
    cbn -[u64 without]. rewrite u64_small by lia. done. }
  mstep. destruct Hm as [->|[->| ->]]; cbn [ev_val];
    change (Z.land 1 EPOLLIN) with 1 in *; change (Z.land 1 EPOLLOUT) with 0 in *;
    change (Z.land 4 EPOLLIN) with 0 in *; change (Z.land 4 EPOLLOUT) with 4 in *;
    change (Z.land 5 EPOLLIN) with 1 in *; change (Z.land 5 EPOLLOUT) with 4 in *; cbn [negb Z.eqb Pos.eqb].
  - change (n_mask 1) with 1 in *. rewrite (Hone s c READ) by (done || lia || by apply H1). done.
  - change (n_mask 4) with 1 in *. rewrite (Hone s c WRITE) by (done || lia || by apply H2). done.
  - change (n_mask 5) with 2 in *. specialize (H1 ltac:(done)). specialize (H2 ltac:(done)).
    rewrite (Hone s c READ) by (done || lia).
    destruct (ctx_ok_remove c READ Hok ltac:(done) H1) as (Hok1 & _).
    rewrite (Hone _ (put_context (put_events c (without (fc_events c) (ev_val READ))) READ EC_empty) WRITE);
      cbn [fd_heap m_pendingEventCount]; try done; try lia.
    + cbn [next_addr m_fdContexts interest scheduled context].
      rewrite insert_insert_eq, <-app_assoc.
      replace (m_pendingEventCount s - 1 - 1) with (m_pendingEventCount s - 2) by lia.
      do 3 f_equal. unfold cleared, put_context, put_events, without. cbn.
      by rewrite <-Z.land_assoc.
    + by rewrite lookup_insert_eq.
    + revert H2. unfold has_event, put_context, put_events, without. cbn. intros H2.
      rewrite <-Z.land_assoc. done.
Qed.

(** The same for a context of the invariant whose kernel entry has been
    updated to the remaining mask. *)
Lemma fire_events_inv s a c m i' :
  io_inv s -> fd_heap s !! a = Some c -> m = 1 \/ m = 4 \/ m = 5 -> covered c m ->
  i' !! fc_fd c = (if without (fc_events c) m =? 0 then None
                   else Some (Z.lor EPOLLET (without (fc_events c) m), a)) ->
  (forall fd, fd <> fc_fd c -> i' !! fd = interest s !! fd) ->
  exists s', (fire_one_event a m READ;; fire_one_event a m WRITE) (set_interest i' s) = (Ok tt, s')
    /\ io_inv s' /\ scheduled s' = scheduled s ++ waiters c m
    /\ m_pendingEventCount s' = m_pendingEventCount s - n_mask m
    /\ fd_heap s' = <[a := cleared c m]> (fd_heap s) /\ m_fdContexts s' = m_fdContexts s.
Proof.
  intros Hinv Ha Hm Hcov Hi Hother. destruct (io_dom s Hinv a c Ha) as (Hin & Hok & _).
  destruct (cleared_ok c m Hok Hm Hcov) as (Hok' & Hn & Hne & Hev).
  assert (n_mask m <= m_pendingEventCount s < 2 ^ 64) as Hp.
  { rewrite (io_pending s Hinv). pose proof (pending_range (fd_heap s) (m_fdContexts s)).
    pose proof (pending_pos _ _ _ _ Hin Ha). pose proof (n_events_range (cleared c m)).
    pose proof (io_bound s Hinv). lia. }
  rewrite (fire_events_spec _ a c m) by done. eexists. split; [reflexivity|].
  pose proof (io_update s a c (cleared c m) i' (scheduled s ++ waiters c m) Hinv Ha Hok' eq_refl) as Hup.
  replace (m_pendingEventCount s - n_events c + n_events (cleared c m))
    with (m_pendingEventCount s - n_mask m) in Hup by lia.
  rewrite u64_small in Hup by (unfold n_mask in *; repeat destruct (negb _); lia).
  split_and!; try done. apply Hup; [|done]. rewrite Hi. unfold registration. by rewrite Hev.
Qed.

(** An unregistered event, or a descriptor without a context. *)
Lemma absent_ops s fd e :
  io_inv s -> 0 <= fd -> (forall c, ctx_of s fd = Some c -> has_event c e = false) ->
  forall allow, cancelEvent allow fd e s = (Ok false, s) /\ delEvent allow fd e s = (Ok false, s).
Proof.
  intros Hinv H0 Habs allow. unfold cancelEvent, delEvent. mstep.
  destruct (Z.leb_spec (Z.of_nat (length (m_fdContexts s))) fd); [done|].
  destruct (context_of_ok s fd Hinv) as (a & c & Hrun & Hc & _); [lia|].
  rewrite Hrun. unfold fd_at. rewrite Hc.
  assert (has_event c e = false) as ->; [|done]. apply Habs. unfold ctx_of.
  revert Hrun. unfold context_of. mstep. rewrite (proj2 (Z.ltb_ge fd 0)) by lia.
  destruct (m_fdContexts s !! Z.to_nat fd) as [a'|]; [|done]. intros [= ->]. done.
Qed.

(** Growing the table changes no wait. *)
Lemma grow_waits s s1 : io_inv s -> io_inv s1 ->
  (forall b d, fd_heap s !! b = Some d -> fd_heap s1 !! b = Some d) ->
  (forall i b, m_fdContexts s !! i = Some b -> m_fdContexts s1 !! i = Some b) ->
  (forall b d, fd_heap s1 !! b = Some d -> fd_heap s !! b = Some d \/ fc_events d = 0) ->
  forall fd e, 0 <= fd -> waits s1 fd e = waits s fd e.
Proof.
  intros Hi Hi1 Hheap Hvec Hnew fd e H0. unfold waits. destruct (ctx_of s fd) as [c|] eqn:Hc.
  - destruct (ctx_of_ok s fd c Hi H0 Hc) as (a & Ha & Hca & _). unfold ctx_of. rewrite (Hvec _ _ Ha). cbn.
    by rewrite (Hheap _ _ Hca).
  - destruct (ctx_of s1 fd) as [d|] eqn:Hd; [|done]. cbn.
    destruct (ctx_of_ok s1 fd d Hi1 H0 Hd) as (b & Hb & Hdb & _ & _ & Hfd & _).
    destruct (Hnew b d Hdb) as [Hold|E0]; [|unfold has_event; by rewrite E0].
    assert (ctx_of s fd = Some d); [|congruence].
    unfold ctx_of. rewrite (ctx_of_set s b d fd Hi Hold Hfd H0). done.
Qed.

(** Replacing the context of one descriptor. *)
Lemma put_waits s s' a c c' : io_inv s -> fd_heap s !! a = Some c -> fd_heap s' = <[a := c']> (fd_heap s) ->
  m_fdContexts s' = m_fdContexts s -> forall fd e, 0 <= fd ->
  waits s' fd e = if decide (fd = fc_fd c)
                  then (if has_event c' e then Some (waiting (context c' e)) else None) else waits s fd e.
Proof.
  intros Hi Ha Hh Hv fd e H0. unfold waits, ctx_of. rewrite Hv, Hh. case_decide as Hfd.
  - rewrite (ctx_of_set s a c fd Hi Ha) by done. cbn. by rewrite lookup_insert_eq.
  - destruct (m_fdContexts s !! Z.to_nat fd) as [b|] eqn:Hb; [|done]. cbn. rewrite lookup_insert_ne; [done|].
    intros <-. destruct (io_vec s Hi _ _ Hb) as (c0 & Hc0 & Hfd0). apply Hfd. assert (c0 = c) as -> by congruence. lia.
Qed.

(** Triggering ends exactly the waits for the events of the mask. *)
Lemma fires_waits s a c m s' : io_inv s -> fires s a c m s' -> forall fd e, 0 <= fd ->
  waits s' fd e = if decide (fd = fc_fd c /\ Z.land m (ev_val e) <> 0) then None else waits s fd e.
Proof.
  intros Hi [Hm Ha Hh Hv _ _] fd e H0. rewrite (put_waits s s' a c (cleared c m)) by done.
  destruct (io_dom s Hi a c Ha) as (_ & Hok & _).
  destruct (decide (fd = fc_fd c)) as [->|Hfd]; [|by rewrite decide_False by tauto].
  assert (waits s (fc_fd c) e = if has_event c e then Some (waiting (context c e)) else None) as ->.
  { unfold waits, ctx_of. rewrite (ctx_of_set s a c _ Hi Ha) by done. cbn. by rewrite Ha. }
  destruct (ctx_ok_cases c Hok) as [(E & _)|[(E & _)|[(E & _)|(E & _)]]];
    destruct Hm as [->|[->| ->]], e; unfold has_event, cleared; cbn [fc_events]; rewrite E; mask_compute;
    case_decide as Hd; try done; (destruct Hd as [_ []]; done) || (by destruct Hd).
Qed.

Lemma add_spec s fd e cb cur :
  io_inv s -> 0 <= fd -> 8 * fd < 2 ^ 64 -> 32 <= Z.of_nat (length (m_fdContexts s)) -> e <> NONE ->
  (forall c, ctx_of s fd = Some c -> has_event c e = false) ->
  (cb = None -> snd cur = EXEC) ->
  exists s' c', addEvent true true cur fd e cb s = (Ok 0, s') /\ io_inv s'
    /\ scheduled s' = scheduled s /\ m_pendingEventCount s' = m_pendingEventCount s + 1
    /\ ctx_of s' fd = Some c' /\ has_event c' e = true
    /\ waiting (context c' e) = match cb with Some _ => mkFT (-1) None cb
                                | None => mkFT (-1) (Some (fst cur)) None end
    /\ (forall fd1 e1, 0 <= fd1 -> ~ (fd1 = fd /\ e1 = e) -> waits s' fd1 e1 = waits s fd1 e1)
    /\ (length (m_fdContexts s) <= length (m_fdContexts s'))%nat.
Proof.
  intros Hinv H0 H8 H32 He Habs Hcur.
  destruct (find_context_ok s fd Hinv H0 H32 H8)
    as (a & c & s1 & Hrun & Hinv1 & Hc & Hfd & Hok & Hr & Hheap & Hvec & Hp & Hsch & Hold & Hnew).
  pose proof (ctx_of_set s1 a c fd Hinv1 Hc Hfd H0) as Hva.
  assert (has_event c e = false) as Hh.
  { destruct Hold as [Hold|E0]; [|unfold has_event; by rewrite E0]. apply Habs.
    unfold ctx_of. rewrite (ctx_of_set s a c fd Hinv Hold Hfd H0). done. }
  set (x := match cb with Some _ => mkEC true None cb | None => mkEC true (Some (fst cur)) None end).
  assert (ec_ok true x) as Hx.
  { unfold x. destruct cb as [k|]; cbn; split; try done; [right|left]; by eexists. }
  destruct (ctx_ok_add c e x Hok He Hh Hx) as (Hok' & Hfd' & Hn & Hempty & Hev & Hne0).
  set (c' := put_context _ e x) in *.
  assert (Z.lor (fc_events c) (ev_val e) <> 0) as Hm by (by rewrite <-Hev).
  rewrite <-Hfd in Hr.
  destruct (epoll_ctl_add s1 a c (Z.lor (fc_events c) (ev_val e)) Hr Hm) as (i' & Hctl & Hi & Hother).
  pose proof (io_update s1 a c c' i' (scheduled s1) Hinv1 Hc Hok' Hfd') as Hup.
  replace (m_pendingEventCount s1 - n_events c + n_events c') with (m_pendingEventCount s1 + 1) in Hup by lia.
  exists (mkIO (<[a := c']> (fd_heap s1)) (next_addr s1) (m_fdContexts s1) (u64 (m_pendingEventCount s1 + 1)) i'
            (scheduled s1)), c'.
  split.
  { unfold addEvent, addEvent_locked. mstep. rewrite Hrun. unfold fd_at. rewrite Hc, Hh. cbn [negb]. mstep.
    rewrite <-Hfd at 1. rewrite Hctl. cbn [negb].
    assert (getContext (put_events c (Z.lor (fc_events c) (ev_val e))) e = Ok EC_empty) as ->.
    { destruct e; cbn in *; try done; by rewrite Hempty. }
    cbn -[u64]. unfold c', x. destruct cb as [k|].
    - unfold set_fd. cbn. by rewrite insert_insert_eq.
    - rewrite bool_decide_eq_true_2 by (by apply Hcur). unfold set_fd. cbn.
      by rewrite insert_insert_eq. }
  cbn. split_and!; try done.
  - apply Hup; [|done]. rewrite Hi, reg_some by done. by rewrite Hev.
  - rewrite u64_small; [lia|]. rewrite (io_pending s1 Hinv1).
    pose proof (pending_range (fd_heap s1) (m_fdContexts s1)). pose proof (io_bound s1 Hinv1).
    apply lookup_lt_Some in Hva. lia.
  - unfold ctx_of. cbn. rewrite Hva. cbn. by rewrite lookup_insert_eq.
  - unfold has_event. rewrite Hev. destruct (ctx_ok_cases c Hok) as [(E & _)|[(E & _)|[(E & _)|(E & _)]]];
      rewrite E in *; destruct e; done.
  - unfold c', x. destruct e, cb; done.
  - intros fd1 e1 H1 Hne. rewrite <-(grow_waits s s1 Hinv Hinv1 Hheap Hvec Hnew) by done.
    erewrite (put_waits s1 _ a c c' Hinv1 Hc); [|reflexivity|reflexivity|done].
    destruct (decide (fd1 = fc_fd c)) as [->|]; [|done].
    unfold waits, ctx_of. rewrite (ctx_of_set s1 a c _ Hinv1 Hc) by (done || lia). cbn. rewrite Hc. cbn.
    assert (e1 <> e) as He1 by (intros ->; by apply Hne).
    unfold c', x, has_event. destruct (ctx_ok_cases c Hok) as [(E & _)|[(E & _)|[(E & _)|(E & _)]]];
      destruct e, e1; try done; cbn [put_context put_events fc_events]; rewrite E; mask_compute; done.
  - destruct (m_fdContexts s) as [|b l] eqn:El; [cbn; lia|].
    destruct (lookup_lt_is_Some_2 (b :: l) (length l)) as [b' Hb']; [cbn; lia|].
    apply Hvec, lookup_lt_Some in Hb'. cbn. lia.
Qed.

(** [cancelAll] triggers the events that are registered. *)
Lemma cancel_all_fires s a c :
  fd_heap s !! a = Some c -> ctx_ok c -> fc_events c <> 0 -> n_events c <= m_pendingEventCount s < 2 ^ 64 ->
  (cancel_one a READ;; cancel_one a WRITE) s
  = (fire_one_event a (fc_events c) READ;; fire_one_event a (fc_events c) WRITE) s.
Proof.
  intros Ha Hok Hne Hp. unfold cancel_one, fire_one_event, fd_at. mstep. rewrite Ha.
  change (negb (Z.land (fc_events c) (ev_val READ) =? 0)) with (has_event c READ).
  change (negb (Z.land (fc_events c) (ev_val WRITE) =? 0)) with (has_event c WRITE).
  destruct (has_event c READ) eqn:Hr.
  - rewrite (trigger_spec s a c READ) by done. cbn. rewrite lookup_insert_eq.
    assert (forall d : FdContext C, fc_events d = without (fc_events c) 1 -> has_event d WRITE = has_event c WRITE) as Hw.
    { intros d Hd. unfold has_event. rewrite Hd. unfold without. by rewrite <-Z.land_assoc. }
    rewrite Hw by done. done.
  - rewrite Ha. done.
Qed.

Lemma covered_self c : covered c (fc_events c).
Proof.
  unfold covered, has_event. split; intros Hne; apply negb_true_iff, Z.eqb_neq; done.
Qed.

Lemma mask_cases c : ctx_ok c -> fc_events c <> 0 -> fc_events c = 1 \/ fc_events c = 4 \/ fc_events c = 5.
Proof. intros [H _] Hne. tauto. Qed.

Lemma without_self c : ctx_ok c -> without (fc_events c) (fc_events c) = 0.
Proof. intros [[->|[->|[->| ->]]] _]; done. Qed.

Lemma cancel_all_spec s fd c :
  io_inv s -> 0 <= fd -> ctx_of s fd = Some c -> fc_events c <> 0 ->
  exists s', cancelAll true fd s = (Ok true, s') /\ io_inv s'
    /\ scheduled s' = scheduled s ++ waiters c (fc_events c)
    /\ m_pendingEventCount s' = m_pendingEventCount s - n_events c
    /\ ctx_of s' fd = Some (cleared c (fc_events c))
    /\ exists a, fires s a c (fc_events c) s'.
Proof.
  intros Hinv H0 Hctx Hne.
  destruct (ctx_of_ok s fd c Hinv H0 Hctx) as (a & Ea & Hc & Hrun & Hlen & Hcfd & Hok & Hr).
  destruct (io_dom s Hinv a c Hc) as (Hin & _).
  pose proof (without_self c Hok) as Hws.
  destruct (epoll_ctl_remove s a c 0 Hr Hne) as (i' & Hctl & Hi & Hother). cbn in Hctl, Hi.
  destruct (fire_events_inv s a c (fc_events c) i' Hinv Hc (mask_cases c Hok Hne) (covered_self c))
    as (s' & Hf & Hinv' & Hsch & Hp & Hh' & Hv); [by rewrite Hws|done|].
  assert (n_events c <= m_pendingEventCount s < 2 ^ 64) as Hb.
  { rewrite (io_pending s Hinv). pose proof (pending_range (fd_heap s) (m_fdContexts s)).
    pose proof (pending_pos _ _ _ _ Hin Hc). pose proof (io_bound s Hinv). lia. }
  rewrite <-(cancel_all_fires (set_interest i' s) a c) in Hf by done.
  exists s'. split_and!; try done.
  - unfold cancelAll. mstep. rewrite Hlen, Hrun. unfold fd_at. rewrite Hc.
    rewrite (proj2 (Z.eqb_neq _ _) Hne). 
    assert (epoll_ctl true CTL_DEL fd 0 a s = (Ok true, set_interest i' s)) as ->.
    { rewrite <-Hcfd. unfold epoll_ctl in *. mstep. rewrite Hr, reg_some in * by done. done. }
    cbn [negb]. revert Hf. mstep. destruct (cancel_one a READ (set_interest i' s)) as [[[]|] s1]; [|done].
    intros ->. rewrite Hh', lookup_insert_eq. cbn. rewrite Hws. done.
  - unfold ctx_of. rewrite Hv, Ea. cbn. rewrite Hh'. by rewrite lookup_insert_eq.
  - exists a. constructor; try done; [by apply mask_cases|apply covered_self].
Qed.

(** ** Properties *)

(** C10: registering. [addEvent] for an event that is not registered keeps the
    invariant (contexts, kernel interest list and pending count agree, whatever
    growth of the context table the descriptor needs), counts one more pending
    event, and leaves the callback, or the calling fiber, waiting for it; when
    [epoll_ctl] refuses, it returns -1 and nothing is pending. *)
Theorem addEvent_registers s fd e cb cur :
  io_inv s -> 0 <= fd -> 8 * fd < 2 ^ 64 -> 32 <= Z.of_nat (length (m_fdContexts s)) -> e <> NONE ->
  (forall c, ctx_of s fd = Some c -> has_event c e = false) -> (cb = None -> snd cur = EXEC) ->
  (exists s' c', addEvent true true cur fd e cb s = (Ok 0, s') /\ io_inv s'
    /\ scheduled s' = scheduled s /\ m_pendingEventCount s' = m_pendingEventCount s + 1
    /\ ctx_of s' fd = Some c' /\ has_event c' e = true
    /\ waiting (context c' e) = match cb with Some _ => mkFT (-1) None cb
                                | None => mkFT (-1) (Some (fst cur)) None end)
  /\ (exists s', addEvent false true cur fd e cb s = (Ok (-1), s') /\ io_inv s'
      /\ m_pendingEventCount s' = m_pendingEventCount s /\ scheduled s' = scheduled s).
Proof.
  intros Hinv H0 H8 H32 He Habs Hcur. split.
  { destruct (add_spec s fd e cb cur) as (s' & c' & H1 & H2 & H3 & H4 & H5 & H6 & H7 & _); try done. by exists s', c'. }
  destruct (find_context_ok s fd Hinv H0 H32 H8)
    as (a & c & s1 & Hrun & Hinv1 & Hc & Hfd & Hok & Hr & Hheap & Hvec & Hp & Hsch & Hold & Hnew).
  assert (has_event c e = false) as Hh.
  { destruct Hold as [Hold|E0]; [|unfold has_event; by rewrite E0]. apply Habs.
    unfold ctx_of. rewrite (ctx_of_set s a c fd Hinv Hold Hfd H0). done. }
  exists s1. split_and!; try done. unfold addEvent, addEvent_locked. mstep. rewrite Hrun.
  unfold fd_at. rewrite Hc, Hh. cbn [negb]. mstep. by rewrite epoll_ctl_fails.
Qed.

(** C12: cancelling and deleting. For a registered event [cancelEvent] hands
    exactly the waiting task to the scheduler and [delEvent] drops it; both
    unregister the event and count it off; for an unregistered one both return
    false and change nothing; [cancelAll] hands over the tasks of both events. *)
Theorem cancel_hands_over s fd e c :
  io_inv s -> 0 <= fd -> e <> NONE -> ctx_of s fd = Some c ->
  (has_event c e = true ->
    (exists s', cancelEvent true fd e s = (Ok true, s') /\ io_inv s'
       /\ scheduled s' = scheduled s ++ [waiting (context c e)]
       /\ m_pendingEventCount s' = m_pendingEventCount s - 1)
    /\ (exists s', delEvent true fd e s = (Ok true, s') /\ io_inv s' /\ scheduled s' = scheduled s
       /\ m_pendingEventCount s' = m_pendingEventCount s - 1)
    /\ (exists s', cancelAll true fd s = (Ok true, s') /\ io_inv s'
       /\ scheduled s' = scheduled s ++ waiters c (fc_events c)
       /\ m_pendingEventCount s' = m_pendingEventCount s - n_events c))
  /\ (has_event c e = false ->
     forall allow, cancelEvent allow fd e s = (Ok false, s) /\ delEvent allow fd e s = (Ok false, s)).
Proof.
  intros Hinv H0 He Hctx. split.
  - intros Hh. split_and!.
    + destruct (cancel_spec s fd e c Hinv H0 He Hctx Hh) as (s' & ? & ? & ? & ? & _). by exists s'.
    + destruct (delete_spec s fd e c Hinv H0 He Hctx Hh) as (s' & ? & ? & ? & ? & _). by exists s'.
    + destruct (ctx_of_ok s fd c Hinv H0 Hctx) as (a & _ & _ & _ & _ & _ & Hok & _).
      destruct (ctx_ok_remove c e Hok He Hh) as (_ & _ & _ & _ & _ & Hne).
      destruct (cancel_all_spec s fd c Hinv H0 Hctx Hne) as (s' & ? & ? & ? & ? & _). by exists s'.
  - intros Hh. apply absent_ops; try done. intros c' Hc'. congruence.
Qed.

(** A report of registered events: their tasks are scheduled and counted off. *)
Lemma handle_event_run s a c evs :
  io_inv s -> fd_heap s !! a = Some c -> real_events evs <> 0 -> covered c (real_events evs) ->
  exists s', handle_event true a evs s = (Ok tt, s') /\ io_inv s'
    /\ scheduled s' = scheduled s ++ waiters c (real_events evs)
    /\ m_pendingEventCount s' = m_pendingEventCount s - n_mask (real_events evs)
    /\ fd_heap s' = <[a := cleared c (real_events evs)]> (fd_heap s)
    /\ fires s a c (real_events evs) s'.
Proof.
  intros Hinv Ha Hne Hcov. destruct (io_dom s Hinv a c Ha) as (Hin & Hok & Hr).
  assert (real_events evs = 1 \/ real_events evs = 4 \/ real_events evs = 5) as Hm
    by (destruct (real_events_cases evs); tauto).
  destruct (cleared_ok c _ Hok Hm Hcov) as (_ & _ & Hne0 & _).
  assert (Z.land (fc_events c) (real_events evs) <> 0) as Hz.
  { destruct Hcov as [H1 H2]. unfold has_event in *.
    destruct (ctx_ok_cases c Hok) as [(E & _)|[(E & _)|[(E & _)|(E & _)]]]; rewrite E in *;
      destruct Hm as [Em|[Em|Em]]; rewrite Em in *; mask_compute; try done;
      try (discriminate H1; done); discriminate H2; done. }
  destruct (epoll_ctl_remove s a c (without (fc_events c) (real_events evs)) Hr Hne0)
    as (i' & Hctl & Hi & Hother).
  destruct (fire_events_inv s a c _ i' Hinv Ha Hm Hcov Hi Hother)
    as (s' & Hf & Hinv' & Hsch & Hp & Hh' & Hv).
  exists s'. split_and!; try done.
  unfold handle_event. mstep. unfold fd_at at 1. rewrite Ha. rewrite (proj2 (Z.eqb_neq _ _) Hz).
  rewrite Hctl. exact Hf.
Qed.

(** C11: readiness. When [epoll_wait] reports events that are all registered,
    [idle] hands exactly their waiting tasks to the scheduler, reads first,
    counts them off, and re-registers the rest; a report of unregistered events
    only is ignored. *)
Theorem handle_event_wakes s a c evs :
  io_inv s -> fd_heap s !! a = Some c ->
  (Z.land (fc_events c) (real_events evs) = 0 -> forall allow, handle_event allow a evs s = (Ok tt, s))
  /\ (real_events evs <> 0 -> covered c (real_events evs) ->
     exists s', handle_event true a evs s = (Ok tt, s') /\ io_inv s'
       /\ scheduled s' = scheduled s ++ waiters c (real_events evs)
       /\ m_pendingEventCount s' = m_pendingEventCount s - n_mask (real_events evs)
       /\ fd_heap s' !! a = Some (cleared c (real_events evs))).
Proof.
  intros Hinv Ha. split.
  - intros Hz allow. unfold handle_event, fd_at. mstep. rewrite Ha, Hz. done.
  - intros Hne Hcov. destruct (handle_event_run s a c evs Hinv Ha Hne Hcov) as (s' & ? & ? & ? & ? & Hh & _).
    exists s'. split_and!; try done. by rewrite Hh, lookup_insert_eq.
Qed.

(** A report of both events when one of them is not registered fails an assertion. *)
Lemma uncovered_asserts s a c evs :
  io_inv s -> fd_heap s !! a = Some c -> fc_events c = 1 \/ fc_events c = 4 -> real_events evs = 5 ->
  fst (handle_event true a evs s) = Err AssertFail.
Proof.
  intros Hinv Ha Hev Hreal. destruct (io_dom s Hinv a c Ha) as (Hin & Hok & Hr).
  assert (fc_events c <> 0) as Hne by lia.
  destruct (epoll_ctl_remove s a c (without (fc_events c) 5) Hr Hne) as (i' & Hctl & _ & _).
  unfold handle_event. mstep. unfold fd_at at 1. rewrite Ha, Hreal.
  assert ((Z.land (fc_events c) 5 =? 0) = false) as -> by (by destruct Hev as [-> | ->]).
  rewrite Hctl. cbn [negb]. unfold fire_one_event. mstep.
  change (negb (Z.land 5 (ev_val READ) =? 0)) with true. cbn [ev_val].
  change (negb (Z.land 5 EPOLLOUT =? 0)) with true. cbn beta iota.
  destruct Hev as [E|E].
  - rewrite (trigger_spec (set_interest i' s) a c READ); try done; [|unfold has_event; by rewrite E].
    cbn -[triggerEvent without]. unfold triggerEvent, fd_at. mstep. cbn.
    rewrite lookup_insert_eq. cbn. unfold has_event, without. cbn. rewrite E. done.
  - assert (triggerEvent a READ (set_interest i' s) = (Err AssertFail, set_interest i' s)) as ->; [|done].
    unfold triggerEvent, fd_at. mstep. cbn. rewrite Ha. unfold has_event. rewrite E. done.
Qed.

(** So a report that is survived is ignored or of registered events. *)
Lemma handle_event_ok s a evs s' : io_inv s -> handle_event true a evs s = (Ok tt, s') ->
  s' = s \/ exists c, fd_heap s !! a = Some c /\ real_events evs <> 0 /\ covered c (real_events evs).
Proof.
  intros Hinv Hrun. destruct (fd_heap s !! a) as [c|] eqn:Ha.
  2: { unfold handle_event in Hrun. revert Hrun. mstep. unfold fd_at at 1. by rewrite Ha. }
  destruct (Z.eq_dec (Z.land (fc_events c) (real_events evs)) 0) as [Hz|Hz].
  { left. unfold handle_event in Hrun. revert Hrun. mstep. unfold fd_at at 1. rewrite Ha, Hz. by intros [= <-]. }
  right. exists c. split; [done|]. destruct (io_dom s Hinv a c Ha) as (_ & Hok & _).
  destruct (decide (real_events evs = 5 /\ (fc_events c = 1 \/ fc_events c = 4))) as [[H5 Hev]|Hno].
  { pose proof (uncovered_asserts s a c evs Hinv Ha Hev H5) as Hx. rewrite Hrun in Hx. discriminate Hx. }
  unfold covered, has_event.
  destruct (real_events_cases evs) as [Em|[Em|[Em|Em]]], (ctx_ok_cases c Hok) as [(E & _)|[(E & _)|[(E & _)|(E & _)]]];
    rewrite E, Em in *; try (split; [lia|]); cbn; try tauto; try (exfalso; apply Hz; reflexivity);
    try (split; done); exfalso; apply Hno; (split; [done|lia]).
Qed.

(** An error or hang-up on a descriptor with only one of its two events
    registered fails an assertion: the report is widened to both events and is
    not restricted to the registered ones before they are triggered. *)
Theorem hangup_asserts s a c evs :
  io_inv s -> fd_heap s !! a = Some c -> fc_events c = 1 \/ fc_events c = 4 ->
  Z.land evs (Z.lor EPOLLERR EPOLLHUP) <> 0 ->
  fst (handle_event true a evs s) = Err AssertFail.
Proof.
  intros Hinv Ha Hev Hhup. destruct (io_dom s Hinv a c Ha) as (Hin & Hok & Hr).
  assert (real_events evs = 5) as Hreal.
  { unfold real_events. rewrite (proj2 (Z.eqb_neq _ _) Hhup). cbn [negb].
    rewrite !Z.land_lor_distr_l.
    assert (forall y b : Z, 0 < b -> Z.lor (Z.land y b) b = b) as Habs.
    { intros y b Hb. apply Z.bits_inj'. intros n Hn. rewrite Z.lor_spec, Z.land_spec.
      by destruct (Z.testbit y n), (Z.testbit b n). }
    change (Z.lor (Z.land EPOLLIN EPOLLIN) (Z.land EPOLLOUT EPOLLIN)) with EPOLLIN.
    change (Z.lor (Z.land EPOLLIN EPOLLOUT) (Z.land EPOLLOUT EPOLLOUT)) with EPOLLOUT.
    rewrite !Habs by (unfold EPOLLIN, EPOLLOUT; lia). done. }
  by apply (uncovered_asserts s a c).
Qed.

(** A stale resize loses contexts. [addEvent] decides to resize under the
    read lock but resizes under a later write lock; when another thread has grown
    the table meanwhile, the resize cuts it: an event registered for a descriptor
    beyond the cut can no longer be cancelled, while the kernel keeps reporting it
    and the pending count never returns to zero. *)
Theorem stale_resize_loses_events s fd c size :
  io_inv s -> 0 <= fd -> ctx_of s fd = Some c -> fc_events c <> 0 -> 0 <= size <= fd ->
  let s' := contextResize size s in
  ctx_of s' fd = None /\ (forall allow, cancelAll allow fd s' = (Ok false, s'))
  /\ m_pendingEventCount s' = m_pendingEventCount s /\ 0 < m_pendingEventCount s'
  /\ interest s' !! fd = interest s !! fd /\ interest s' !! fd <> None.
Proof.
  intros Hinv H0 Hctx Hne Hsz s'.
  destruct (ctx_of_ok s fd c Hinv H0 Hctx) as (a & Ea & Hc & Hrun & Hlen & Hcfd & Hok & Hr).
  apply Z.leb_gt in Hlen.
  assert (s' = mkIO (fd_heap s) (next_addr s) (take (Z.to_nat size) (m_fdContexts s))
            (m_pendingEventCount s) (interest s) (scheduled s)) as Hs'.
  { unfold s', contextResize. replace (Z.to_nat size - length (m_fdContexts s))%nat with 0%nat by lia. done. }
  assert (length (m_fdContexts s') = Z.to_nat size) as Hl'
    by (rewrite Hs'; cbn; rewrite length_take; lia).
  split_and!.
  - unfold ctx_of. rewrite lookup_ge_None_2 by (rewrite Hl'; lia). done.
  - intros allow. unfold cancelAll. mstep. rewrite Hl', (proj2 (Z.leb_le _ _)) by lia. done.
  - by rewrite Hs'.
  - rewrite Hs'. cbn. rewrite (io_pending s Hinv). destruct (io_dom s Hinv a c Hc) as (Hin & _).
    pose proof (pending_pos _ _ _ _ Hin Hc).
    assert (0 < n_events c); [|lia]. unfold n_events, has_event.
    destruct (mask_cases c Hok Hne) as [->|[->| ->]]; done.
  - by rewrite Hs'.
  - rewrite Hs'. cbn. rewrite <-Hcfd, Hr, reg_some by done. done.
Qed.
End IOSpec.

(** The wait of the event loop never outlasts the next timer nor three
    seconds, for timers due within 2^31 milliseconds or none at all. *)
Theorem wait_timeout_clamped t :
  0 <= t < 2 ^ 31 \/ t = 2 ^ 64 - 1 -> 0 <= wait_timeout t <= 3000 /\ wait_timeout t <= t.
Proof.
  intros [Ht| ->]; [|done]. unfold wait_timeout.
  rewrite (proj2 (Z.eqb_neq t (2 ^ 64 - 1))) by lia. cbn [negb].
  rewrite (s32_small t) by done. rewrite Z.gtb_ltb. destruct (Z.ltb_spec 3000 t); rewrite s32_small; lia.
Qed.

Lemma wait_timeout_clamped_witness : 0 <= wait_timeout 5000 <= 3000 /\ wait_timeout 5000 <= 5000.
Proof. apply (wait_timeout_clamped 5000). lia. Defined.

(** A timer between 2^31 and 2^32 milliseconds away makes the cast negative:
    [epoll_wait] then blocks without a timeout. *)
Lemma wait_timeout_negative t : 2 ^ 31 <= t < 2 ^ 32 -> wait_timeout t = t - 2 ^ 32.
Proof.
  intros Ht. unfold wait_timeout, s32.
  rewrite (proj2 (Z.eqb_neq t (2 ^ 64 - 1))) by lia. cbn [negb].
  assert (sgn 32 t = t - 2 ^ 32) as Hs.
  { replace t with ((t - 2 ^ 32) + 1 * 2 ^ 32) at 1 by lia.
    rewrite <-(sgn_mod 32 (t - 2 ^ 32)) at 2 by lia. unfold sgn.
    rewrite Zplus_mod_idemp_l. f_equal. rewrite <-!Z.add_assoc, (Z.add_comm (1 * _)), Z.add_assoc.
    by rewrite Z.mod_add. }
  rewrite Hs, Z.gtb_ltb, (proj2 (Z.ltb_ge _ _)) by lia. done.
Qed.

(** ** A concrete manager: fiber 7 waits for reading on descriptor 5. *)

Lemma IOManager_new_inv {C} : io_inv (@IOManager_new C).
Proof.
  unfold IOManager_new, contextResize. cbn [m_fdContexts length take].
  apply new_contexts_inv; [|done|done]. constructor; cbn.
  - intros i a Hi. by rewrite take_nil in Hi.
  - by rewrite take_nil; constructor.
  - intros a c Ha. by rewrite lookup_empty in Ha.
  - intros a _. apply lookup_empty.
  - intros fd _. apply lookup_empty.
  - done.
  - by rewrite take_nil.
Qed.

Definition demo_io : IOManager nat := snd (addEvent true true (7%nat, EXEC) 5 READ None IOManager_new).

Definition demo_ctx : FdContext nat := mkFd (mkEC true (Some 7%nat) None) EC_empty 5 1.

Lemma demo_io_inv : io_inv demo_io.
Proof.
  destruct (add_spec (@IOManager_new nat) 5 READ None (7%nat, EXEC)) as (s' & c' & Hrun & Hinv & _);
    [exact IOManager_new_inv|lia|lia|vm_compute; discriminate|discriminate| |reflexivity|].
  - intros c. vm_compute. by intros [= <-].
  - unfold demo_io. rewrite Hrun. exact Hinv.
Qed.

Lemma addEvent_registers_witness :
  (exists s' c', addEvent true true (8%nat, EXEC) 5 WRITE (Some 1%nat) demo_io = (Ok 0, s') /\ io_inv s'
    /\ scheduled s' = scheduled demo_io /\ m_pendingEventCount s' = m_pendingEventCount demo_io + 1
    /\ ctx_of s' 5 = Some c' /\ has_event c' WRITE = true
    /\ waiting (context c' WRITE) = mkFT (-1) None (Some 1%nat))
  /\ (exists s', addEvent false true (8%nat, EXEC) 5 WRITE (Some 1%nat) demo_io = (Ok (-1), s') /\ io_inv s'
      /\ m_pendingEventCount s' = m_pendingEventCount demo_io /\ scheduled s' = scheduled demo_io).
Proof.
  apply (addEvent_registers demo_io 5 WRITE (Some 1%nat) (8%nat, EXEC));
    [exact demo_io_inv|lia|lia|vm_compute; discriminate|discriminate| |discriminate].
  intros c. vm_compute. by intros [= <-].
Defined.

Lemma cancel_hands_over_witness :
  (exists s', cancelEvent true 5 READ demo_io = (Ok true, s') /\ io_inv s'
     /\ scheduled s' = scheduled demo_io ++ [waiting (context demo_ctx READ)]
     /\ m_pendingEventCount s' = m_pendingEventCount demo_io - 1)
  /\ (exists s', delEvent true 5 READ demo_io = (Ok true, s') /\ io_inv s' /\ scheduled s' = scheduled demo_io
     /\ m_pendingEventCount s' = m_pendingEventCount demo_io - 1)
  /\ (exists s', cancelAll true 5 demo_io = (Ok true, s') /\ io_inv s'
     /\ scheduled s' = scheduled demo_io ++ waiters demo_ctx (fc_events demo_ctx)
     /\ m_pendingEventCount s' = m_pendingEventCount demo_io - n_events demo_ctx).
Proof.
  apply (cancel_hands_over demo_io 5 READ demo_ctx);
    [exact demo_io_inv|lia|done|vm_compute; reflexivity|vm_compute; reflexivity].
Defined.

Lemma handle_event_wakes_witness :
  exists s', handle_event true 5 1 demo_io = (Ok tt, s') /\ io_inv s'
       /\ scheduled s' = scheduled demo_io ++ waiters demo_ctx (real_events 1)
       /\ m_pendingEventCount s' = m_pendingEventCount demo_io - n_mask (real_events 1)
       /\ fd_heap s' !! 5%nat = Some (cleared demo_ctx (real_events 1)).
Proof.
  apply (handle_event_wakes demo_io 5 demo_ctx 1);
    [exact demo_io_inv|vm_compute; reflexivity|done|split; [done|by vm_compute]].
Defined.

Lemma hangup_asserts_witness : fst (handle_event true 5 EPOLLHUP demo_io) = Err AssertFail.
Proof.
  apply (hangup_asserts demo_io 5 demo_ctx EPOLLHUP);
    [exact demo_io_inv|vm_compute; reflexivity|by left|done].
Defined.

Lemma stale_resize_loses_events_witness :
  let s' := contextResize 4 demo_io in
  ctx_of s' 5 = None /\ (forall allow, cancelAll allow 5 s' = (Ok false, s'))
  /\ m_pendingEventCount s' = m_pendingEventCount demo_io /\ 0 < m_pendingEventCount s'
  /\ interest s' !! 5 = interest demo_io !! 5 /\ interest s' !! 5 <> None.
Proof.
  apply (stale_resize_loses_events demo_io 5 demo_ctx 4);
    [exact demo_io_inv|lia|vm_compute; reflexivity|done|lia].
Defined.
