(* ===== verification/EventLoop.v ===== *)
(** * The event loop ([src/src/iomanager.cc])

    One turn of [IOManager::idle]: the contexts of descriptors ([IOManager]) and the
    timers ([Timer]) that it serves, both base classes of one object, together with
    the pipe that [tickle] writes to.  What [epoll_wait] answers, the clock and what
    [Scheduler::stopping] says are arguments.  A report carries either the pipe or a
    context: the two members of the [epoll_data] union are taken to be different. *)
From S2P Require Import Prelude Fiber Scheduler IOManager IOManagerSpec Timer TimerSpec.

Section Loops.
Context {C : Type}.

(** [lo_pipe] is the number of bytes in the pipe. *)
Record Loop := mkLoop { lo_io : IOManager C; lo_tm : TimerManager C; lo_pipe : Z }.

Definition on_io {T} (m : M (IOManager C) T) : M Loop T :=
  fun s => let '(r, io) := m (lo_io s) in (r, mkLoop io (lo_tm s) (lo_pipe s)).
Definition on_tm {T} (m : M (TimerManager C) T) : M Loop T :=
  fun s => let '(r, tm) := m (lo_tm s) in (r, mkLoop (lo_io s) tm (lo_pipe s)).

(** [src/src/iomanager.cc:293-300 IOManager::tickle]
    [idle] is the idle-thread count. *)
Definition Loop_tickle (idle : Z) : M Loop unit :=
  if negb (tickle_io idle) then mret () else
  modify (fun s => mkLoop (lo_io s) (lo_tm s) (lo_pipe s + 1)).

(** [src/src/iomanager.cc:437-437 IOManager::onTimerInsertedAtFront] *)
Definition onTimerInsertedAtFront (idle : Z) : M Loop unit := Loop_tickle idle.

(** [src/src/iomanager.cc:91-104 IOManager::~IOManager]
    The contexts; every address is deleted once. *)
Fixpoint delete_contexts (l : list nat) : M (IOManager C) unit :=
  match l with
  | [] => mret ()
  | a :: l =>
      fd_at a;;
      modify (fun s => mkIO (delete a (fd_heap s)) (next_addr s) (m_fdContexts s) (m_pendingEventCount s)
                         (interest s) (scheduled s));;
      delete_contexts l
  end.

(** [src/src/iomanager.cc:91-104 IOManager::~IOManager]
    After [stop]; closing [m_epfd] drops the kernel's interest list. *)
Definition IOManager_delete : M (IOManager C) unit :=
  s ← get;
  modify (set_interest ∅);;
  delete_contexts (m_fdContexts s).

(** ** Waiting *)

Inductive EventData := DataTickle | DataCtx (a : nat).

(** An [epoll_event]; [rp_allow] says whether the kernel lets [epoll_ctl] succeed
    when the report is handled. *)
Record Report := mkReport { rp_data : EventData; rp_events : Z; rp_allow : bool }.

(** What [epoll_wait] answers: interrupted, another error, or reports. *)
Inductive WaitAnswer := Interrupted | WaitError | Ready (l : list Report).

(** [src/src/iomanager.cc:340-349 IOManager::idle]
    The new value of [next_timeout]. *)
Definition clamp (next_timeout : Z) : Z :=
  let MAX_TIMEOUT := 3000 in
  if negb (next_timeout =? 2 ^ 64 - 1) then
    if s32 next_timeout >? MAX_TIMEOUT then MAX_TIMEOUT else next_timeout
  else MAX_TIMEOUT.

(** [src/src/iomanager.cc:337-357 IOManager::idle]
    The [do] loop: the timeouts passed to [epoll_wait] and the reports. *)
Fixpoint wait_loop (answers : list WaitAnswer) (next_timeout : Z) : result (list Z * list Report) :=
  let t := clamp next_timeout in
  match answers with
  | [] => Err OutOfFuel
  | Interrupted :: answers =>
      match wait_loop answers t with Ok (asked, r) => Ok (s32 t :: asked, r) | Err e => Err e end
  | WaitError :: _ => Ok ([s32 t], [])
  | Ready l :: _ => Ok ([s32 t], l)
  end.

(** ** Handing over *)

(** [src/src/iomanager.cc:359-364 IOManager::idle]
    [schedule] takes the callbacks over; an empty one is not queued. *)
Fixpoint schedule_cbs (cbs : list (option C)) : M (IOManager C) unit :=
  match cbs with
  | [] => mret ()
  | cb :: cbs =>
      (match fst (FT_cb_ptr cb (-1)) with
       | mkFT _ None None => mret ()
       | ft => modify (add_scheduled ft)
       end);;
      schedule_cbs cbs
  end.

(** [src/src/iomanager.cc:366-426 IOManager::idle]
    The loop over the reports. *)
Fixpoint handle_reports (l : list Report) : M Loop unit :=
  match l with
  | [] => mret ()
  | r :: l =>
      (match rp_data r with
       | DataTickle => modify (fun s => mkLoop (lo_io s) (lo_tm s) 0)
       | DataCtx a => on_io (handle_event (rp_allow r) a (rp_events r))
       end);;
      handle_reports l
  end.

(** [src/src/iomanager.cc:310-314 IOManager::stopping]
    For the scheduler, which calls it through the virtual function. *)
Definition IOManager_stopping (now1 : Z) (sched_stopping : bool) : M Loop bool :=
  timeout ← on_tm (getNextTimer now1);
  s ← get;
  mret (stopping_io timeout sched_stopping (lo_io s)).

(** [src/src/iomanager.cc:316-434 IOManager::idle]
    One turn of the loop up to [swapOut]: none when it ends, otherwise the timeouts
    it waited with.  [now1] and [now2] are the clock before and after the wait. *)
Definition idle_turn (now1 now2 : Z) (key : nat) (answers : list WaitAnswer) (sched_stopping : bool)
    : M Loop (option (list Z)) :=
  next_timeout ← on_tm (getNextTimer now1);
  s ← get;
  if stopping_io next_timeout sched_stopping (lo_io s) then mret None else
  '(asked, reports) ← lift (wait_loop answers next_timeout);
  cbs ← on_tm (listExpiredCb key now2);
  on_io (schedule_cbs cbs);;
  handle_reports reports;;
  mret (Some asked).
End Loops.

Arguments Loop C : clear implicits.

(** ** One turn *)

Section Turn.
Context {C : Type}.
Implicit Types (s : Loop C) (io : IOManager C) (r : Report).

Definition loop_ok s : Prop := io_inv (lo_io s) /\ TimerSpec.inv (lo_tm s).

(** A report of events that are registered; the kernel reports a descriptor once. *)
Definition report_ok io r : Prop :=
  match rp_data r with
  | DataTickle => True
  | DataCtx a => rp_allow r = true /\ real_events (rp_events r) <> 0
      /\ exists c, fd_heap io !! a = Some c /\ covered c (real_events (rp_events r))
  end.

Definition report_ctx r : list nat := match rp_data r with DataTickle => [] | DataCtx a => [a] end.

(** The tasks that wait for what a report says, and their number. *)
Definition woken io r : list (FiberAndThread C) :=
  match rp_data r with
  | DataTickle => []
  | DataCtx a => match fd_heap io !! a with Some c => waiters c (real_events (rp_events r)) | None => [] end
  end.
Definition woken_count r : Z := match rp_data r with DataTickle => 0 | DataCtx _ => n_mask (real_events (rp_events r)) end.

Lemma schedule_cbs_spec cbs : forall io,
  schedule_cbs cbs io = (Ok tt, mkIO (fd_heap io) (next_addr io) (m_fdContexts io) (m_pendingEventCount io) (interest io)
    (scheduled io ++ omap (fun cb => option_map (fun f => FT_cb (Some f) (-1)) cb) cbs)).
Proof.
  induction cbs as [|cb cbs IH]; intros io; cbn [schedule_cbs].
  - cbn. rewrite app_nil_r. by destruct io.
  - destruct cb as [f|]; unfold mbind, M_bind; cbn; rewrite IH; cbn; [by rewrite <-app_assoc|done].
Qed.

(** Only [scheduled] changes, which the invariant does not speak of. *)
Lemma io_inv_scheduled io l :
  io_inv io -> io_inv (mkIO (fd_heap io) (next_addr io) (m_fdContexts io) (m_pendingEventCount io) (interest io) l).
Proof. intros []. by constructor. Qed.

Lemma handle_reports_spec l : forall s,
  loop_ok s -> Forall (report_ok (lo_io s)) l -> NoDup (concat (map report_ctx l)) ->
  exists s', handle_reports l s = (Ok tt, s') /\ loop_ok s' /\ lo_tm s' = lo_tm s
  /\ scheduled (lo_io s') = scheduled (lo_io s) ++ concat (map (woken (lo_io s)) l)
  /\ m_pendingEventCount (lo_io s') = m_pendingEventCount (lo_io s) - foldr (fun r n => woken_count r + n) 0 l
  /\ lo_pipe s' = if existsb (fun r => match rp_data r with DataTickle => true | _ => false end) l then 0 else lo_pipe s.
Proof.
  induction l as [|[d evs allow] l IH]; intros s Hok Hr Hnd.
  { exists s. cbn. rewrite app_nil_r, Z.sub_0_r. by destruct s. }
  apply Forall_cons in Hr as [Hr Hrs]. cbn [map concat foldr existsb] in *. cbn [handle_reports rp_data rp_allow rp_events].
  destruct d as [|a].
  - unfold mbind, M_bind, modify. destruct (IH (mkLoop (lo_io s) (lo_tm s) 0)) as (s' & -> & H1 & H2 & H3 & H4 & H5); [done..|].
    exists s'. cbn in *. split_and!; try done. destruct (existsb _ l); done.
  - destruct Hr as (Hallow & Hne & c & Hc & Hcov). cbn in Hallow, Hne, Hcov. subst allow. destruct Hok as [Hio Htm].
    destruct (handle_event_run (lo_io s) a c evs Hio Hc Hne Hcov) as (io' & Hrun & Hio' & Hsch & Hp & Hh & _).
    apply NoDup_app in Hnd as (_ & Hni & Hnd). unfold mbind, M_bind, on_io at 1. rewrite Hrun.
    assert (forall r, r ∈ l -> forall b, rp_data r = DataCtx b -> b <> a) as Hother.
    { intros r Hin b Hb ->. apply (Hni a); [cbn; left|]. apply list_elem_of_In, in_concat. exists (report_ctx r).
      split; [by apply in_map, list_elem_of_In|]. unfold report_ctx. rewrite Hb. by left. }
    destruct (IH (mkLoop io' (lo_tm s) (lo_pipe s))) as (s' & -> & H1 & H2 & H3 & H4 & H5); [done| |done|].
    { apply Forall_forall. intros r Hin. rewrite Forall_forall in Hrs. specialize (Hrs r Hin). unfold report_ok in *.
      destruct (rp_data r) as [|b] eqn:E; [done|]. destruct Hrs as (G1 & G2 & d & G3 & G4). split; [done|]. split; [done|].
      exists d. split; [|done]. cbn. rewrite Hh, lookup_insert_ne; [done|]. intros <-. by apply (Hother r Hin a). }
    exists s'. cbn in *. split_and!; try done; [|lia].
    rewrite H3, Hsch, <-app_assoc. unfold woken at 2. cbn. rewrite Hc. f_equal. f_equal. f_equal. apply map_ext_in.
    intros r Hin. unfold woken. destruct (rp_data r) as [|b] eqn:E; [done|]. rewrite Hh, lookup_insert_ne; [done|].
    intros <-. by apply (Hother r (proj2 (list_elem_of_In _ _) Hin) a).
Qed.

(** ** The time waited *)

Lemma clamp_range t : 0 <= t < 2 ^ 31 \/ t = 2 ^ 64 - 1 -> 0 <= clamp t <= 3000 /\ (t <> 2 ^ 64 - 1 -> clamp t <= t).
Proof.
  unfold clamp. intros [Ht| ->]; [|split; [done|by intros ?]].
  rewrite (proj2 (Z.eqb_neq t (2 ^ 64 - 1))) by lia. cbn [negb]. rewrite (s32_small t), Z.gtb_ltb by lia.
  destruct (Z.ltb_spec 3000 t); lia.
Qed.

Lemma wait_loop_spec n reports : forall t, 0 <= t < 2 ^ 31 \/ t = 2 ^ 64 - 1 ->
  exists asked, wait_loop (repeat Interrupted n ++ [Ready reports]) t = Ok (asked, reports)
  /\ length asked = S n /\ Forall (fun x => 0 <= x <= 3000 /\ (t <> 2 ^ 64 - 1 -> x <= t)) asked.
Proof.
  induction n as [|n IH]; intros t Ht; destruct (clamp_range t Ht) as [Hc Hct]; cbn [repeat app wait_loop].
  - eexists. split; [done|]. split; [done|]. repeat constructor; rewrite s32_small by lia; [lia..|]. exact Hct.
  - destruct (IH (clamp t)) as (asked & -> & Hl & Hall); [lia|]. eexists. split; [done|]. split; [cbn; by rewrite Hl|].
    constructor; [rewrite s32_small by lia; split; [lia|exact Hct]|]. eapply Forall_impl; [exact Hall|].
    cbn. intros x [Hx1 Hx2]. split; [done|]. intros Hne. specialize (Hct Hne). specialize (Hx2 ltac:(lia)). lia.
Qed.

Lemma wait_loop_returns n reports : forall t, exists asked,
  wait_loop (repeat Interrupted n ++ [Ready reports]) t = Ok (asked, reports).
Proof.
  induction n as [|n IH]; intros t; cbn [repeat app wait_loop]; [by eexists|].
  destruct (IH (clamp t)) as (asked & ->). by eexists.
Qed.


(** The destructor deletes every context, and each one once. *)
(** The idle fiber ends its loop exactly when a worker that asks [stopping] at that
    moment is told so. *)
Lemma idle_ends_when_stopping (s : Loop C) now1 now2 key answers stopping :
  (exists s', IOManager_stopping now1 stopping s = (Ok true, s')) ->
  fst (idle_turn now1 now2 key answers stopping s) = Ok None.
Proof.
  unfold IOManager_stopping, idle_turn, mbind, M_bind, get, mret, M_ret. intros [s' Hs].
  destruct (on_tm _ s) as [[t|e] s1]; [|done]. injection Hs as -> ->. done.
Qed.

Lemma IOManager_delete_frees io : io_inv io -> exists io', IOManager_delete io = (Ok tt, io') /\ fd_heap io' = ∅.
Proof.
  intros Hinv. unfold IOManager_delete. unfold mbind, M_bind, get, modify. cbv beta iota.
  cut (forall l (io0 : IOManager C), NoDup l -> (forall a, is_Some (fd_heap io0 !! a) <-> a ∈ l) ->
    exists io', delete_contexts l io0 = (Ok tt, io') /\ fd_heap io' = ∅).
  { intros H. apply H; [apply Hinv|]. intros a. cbn. split.
    - intros [c Hc]. by apply (io_dom io Hinv a c).
    - intros (i & Hi)%list_elem_of_lookup. destruct (io_vec io Hinv i a Hi) as (c & Hc & _). by exists c. }
  clear io Hinv. induction l as [|a l IH]; intros io Hnd Hdom; cbn [delete_contexts].
  - exists io. split; [done|]. apply map_eq. intros a. rewrite lookup_empty. apply eq_None_not_Some. rewrite Hdom.
    apply not_elem_of_nil.
  - apply NoDup_cons in Hnd as [Hni Hnd]. destruct (proj2 (Hdom a) ltac:(left)) as [c Hc].
    unfold mbind, M_bind, fd_at, modify. rewrite Hc. apply IH; [done|]. intros b. cbn.
    destruct (decide (b = a)) as [->|Hne].
    + rewrite lookup_delete_eq. split; [by intros [? ?]|done].
    + rewrite lookup_delete_ne by done. rewrite Hdom, elem_of_cons. tauto.
Qed.
End Turn.

(** ** A witness *)

Definition demo_loop : Loop nat := mkLoop demo_io demo_tm 1.

Definition demo_reports : list Report := [mkReport DataTickle 1 true; mkReport (DataCtx 5) 1 true].

Lemma demo_reports_ok : Forall (report_ok demo_io) demo_reports.
Proof.
  repeat constructor; [discriminate|]. exists demo_ctx. split; [reflexivity|]. split; intros Hm; vm_compute in Hm |- *; reflexivity || discriminate || (exfalso; by apply Hm).
Qed.

