(* ===== verification/Http.v ===== *)
(** * HTTP messages ([src/src/http.cc], [include/http/http.hh])

    Methods and status codes, the header maps with their case-insensitive
    keys, requests and responses and their serialisation.  The maps are
    [std::map]s: key-sorted association lists, of which the first spelling of a
    key is kept.  [boost::lexical_cast] is an argument. *)
From Stdlib Require Import Ascii String.
From S2P Require Import Prelude CString.

#[local] Open Scope string_scope.
#[local] Open Scope list_scope.
#[local] Open Scope Z_scope.

(** ** Methods and status codes *)

(** [src/include/http/http.hh:121-127 HttpMethod] *)
Inductive HttpMethod :=
| DELETE | GET | HEAD | POST | PUT | CONNECT | OPTIONS | TRACE | COPY | LOCK | MKCOL | MOVE
| PROPFIND | PROPPATCH | SEARCH | UNLOCK | BIND | REBIND | UNBIND | ACL | REPORT | MKACTIVITY
| CHECKOUT | MERGE | MSEARCH | NOTIFY | SUBSCRIBE | UNSUBSCRIBE | PATCH | PURGE | MKCALENDAR | LINK
| UNLINK | SOURCE | INVAILD_METHOD.

#[export] Instance HttpMethod_eq_dec : EqDecision HttpMethod.
Proof. solve_decision. Defined.

(** [src/include/http/http.hh:12-54 HTTP_METHOD_MAP]
    The names are what the preprocessor makes of the macro's third argument. *)
Definition HTTP_METHOD_MAP : list (HttpMethod * bytes) :=
  map (fun '(m, s) => (m, str s))
  [(DELETE, "DELETE"); (GET, "GET"); (HEAD, "HEAD"); (POST, "POST"); (PUT, "PUT");
  (CONNECT, "CONNECT"); (OPTIONS, "OPTIONS"); (TRACE, "TRACE"); (COPY, "COPY"); (LOCK, "LOCK");
  (MKCOL, "MKCOL"); (MOVE, "MOVE"); (PROPFIND, "PROPFIND"); (PROPPATCH, "PROPPATCH");
  (SEARCH, "SEARCH"); (UNLOCK, "UNLOCK"); (BIND, "BIND"); (REBIND, "REBIND"); (UNBIND, "UNBIND");
  (ACL, "ACL"); (REPORT, "REPORT"); (MKACTIVITY, "MKACTIVITY"); (CHECKOUT, "CHECKOUT");
  (MERGE, "MERGE"); (MSEARCH, "M - SEARCH"); (NOTIFY, "NOTIFY"); (SUBSCRIBE, "SUBSCRIBE");
  (UNSUBSCRIBE, "UNSUBSCRIBE"); (PATCH, "PATCH"); (PURGE, "PURGE"); (MKCALENDAR, "MKCALENDAR");
  (LINK, "LINK"); (UNLINK, "UNLINK"); (SOURCE, "SOURCE")].

(** [src/include/http/http.hh:57-116 HTTP_STATUS_MAP]
    A status is its code: [on_response_status] casts any integer. *)
Definition HTTP_STATUS_MAP : list (Z * bytes) :=
  map (fun '(c, s) => (c, str s))
  [(100, "Continue"); (101, "Switching Protocols"); (102, "Processing"); (200, "OK");
  (201, "Created"); (202, "Accepted"); (203, "Non - Authoritative Information");
  (204, "No Content"); (205, "Reset Content"); (206, "Partial Content"); (207, "Multi - Status");
  (208, "Already Reported"); (226, "IM Used"); (300, "Multiple Choices");
  (301, "Moved Permanently"); (302, "Found"); (303, "See Other"); (304, "Not Modified");
  (305, "Use Proxy"); (307, "Temporary Redirect"); (308, "Permanent Redirect");
  (400, "Bad Request"); (401, "Unauthorized"); (402, "Payment Required"); (403, "Forbidden");
  (404, "Not Found"); (405, "Method Not Allowed"); (406, "Not Acceptable");
  (407, "Proxy Authentication Required"); (408, "Request Timeout"); (409, "Conflict");
  (410, "Gone"); (411, "Length Required"); (412, "Precondition Failed");
  (413, "Payload Too Large"); (414, "URI Too Long"); (415, "Unsupported Media Type");
  (416, "Range Not Satisfiable"); (417, "Expectation Failed"); (421, "Misdirected Request");
  (422, "Unprocessable Entity"); (423, "Locked"); (424, "Failed Dependency");
  (426, "Upgrade Required"); (428, "Precondition Required"); (429, "Too Many Requests");
  (431, "Request Header Fields Too Large"); (451, "Unavailable For Legal Reasons");
  (500, "Internal Server Error"); (501, "Not Implemented"); (502, "Bad Gateway");
  (503, "Service Unavailable"); (504, "Gateway Timeout"); (505, "HTTP Version Not Supported");
  (506, "Variant Also Negotiates"); (507, "Insufficient Storage"); (508, "Loop Detected");
  (510, "Not Extended"); (511, "Network Authentication Required")].

(** The first row of a table for which [f] holds. *)
Fixpoint find_row {A B} (f : A * B -> bool) (t : list (A * B)) : option (A * B) :=
  match t with
  | [] => None
  | r :: t => if f r then Some r else find_row f t
  end.

(** [src/src/http.cc:9-18 StringToHttpMethod] *)
Definition StringToHttpMethod (m : bytes) : HttpMethod :=
  match find_row (fun r => streq (snd r) m) HTTP_METHOD_MAP with
  | Some r => fst r
  | None => INVAILD_METHOD
  end.

(** [src/src/http.cc:20-29 CharsToHttpMethod]
    [m] is the memory from the pointer on. *)
Definition CharsToHttpMethod (m : bytes) : HttpMethod :=
  match find_row (fun r => is_prefix (snd r) m) HTTP_METHOD_MAP with
  | Some r => fst r
  | None => INVAILD_METHOD
  end.

(** [src/src/http.cc:37-44 HttpMethodToString]
    The table has an entry for every method but [INVAILD_METHOD]. *)
Definition HttpMethodToString (m : HttpMethod) : bytes :=
  match find_row (fun r => bool_decide (fst r = m)) HTTP_METHOD_MAP with
  | Some r => snd r
  | None => str "<unknow>"
  end.

(** [src/src/http.cc:46-57 HttpStatusToString] *)
Definition HttpStatusToString (c : Z) : bytes :=
  match find_row (fun r => fst r =? c) HTTP_STATUS_MAP with
  | Some r => snd r
  | None => str "<unknow>"
  end.

(** ** Maps with case-insensitive keys *)

(** [src/src/http.cc:59-63 CaseInsensitiveLess] *)
Definition CaseInsensitiveLess (l r : bytes) : bool := strcasecmp l r <? 0.

(** [src/include/http/http.hh:231-231 HttpRequest::MapType] *)
Definition MapType : Type := list (bytes * bytes).

(** [map::find] *)
Fixpoint map_find (k : bytes) (m : MapType) : option bytes :=
  match m with
  | [] => None
  | (k', v) :: m =>
      if CaseInsensitiveLess k' k then map_find k m
      else if CaseInsensitiveLess k k' then None else Some v
  end.

(** [m[k] = v] *)
Fixpoint map_set (k v : bytes) (m : MapType) : MapType :=
  match m with
  | [] => [(k, v)]
  | (k', v') :: m' =>
      if CaseInsensitiveLess k' k then (k', v') :: map_set k v m'
      else if CaseInsensitiveLess k k' then (k, v) :: m else (k', v) :: m'
  end.

(** [map::erase] *)
Fixpoint map_erase (k : bytes) (m : MapType) : MapType :=
  match m with
  | [] => []
  | (k', v') :: m' =>
      if CaseInsensitiveLess k' k then (k', v') :: map_erase k m'
      else if CaseInsensitiveLess k k' then m else m'
  end.

(** [src/include/http/http.hh:183-202 checkGetAs]
    The result and the value assigned to [val]. *)
Definition checkGetAs {T} (lexical_cast : bytes -> option T) (m : MapType) (key : bytes) (def : T)
    : bool * T :=
  match map_find key m with
  | None => (false, def)
  | Some s => match lexical_cast s with Some v => (true, v) | None => (false, def) end
  end.

(** [src/include/http/http.hh:211-223 getAs] *)
Definition getAs {T} (lexical_cast : bytes -> option T) (m : MapType) (key : bytes) (def : T) : T :=
  match map_find key m with
  | None => def
  | Some s => match lexical_cast s with Some v => v | None => def end
  end.

(** A lookup with a default, as all the [get] functions do it. *)
Definition get_or (m : MapType) (key def : bytes) : bytes :=
  match map_find key m with Some v => v | None => def end.

(** ** Requests *)

(** [src/include/http/http.hh:487-499 HttpRequest] *)
Record HttpRequest := mkRequest {
  rq_close : bool; rq_version : Z; rq_method : HttpMethod;
  rq_path : bytes; rq_query : bytes; rq_body : bytes; rq_fragment : bytes;
  rq_headers : MapType; rq_params : MapType; rq_cookies : MapType
}.

(** [src/src/http.cc:65-67 HttpRequest::HttpRequest] *)
Definition HttpRequest_new (version : Z) (close : bool) : HttpRequest :=
  mkRequest close version GET (str "/") [] [] [] [] [] [].

(** [src/include/http/http.hh:311-311 HttpRequest::setMethod] *)
Definition setMethod (v : HttpMethod) (r : HttpRequest) : HttpRequest :=
  mkRequest (rq_close r) (rq_version r) v (rq_path r) (rq_query r) (rq_body r) (rq_fragment r) (rq_headers r) (rq_params r) (rq_cookies r).

(** [src/include/http/http.hh:317-317 HttpRequest::setVersion] *)
Definition setVersion (v : Z) (r : HttpRequest) : HttpRequest :=
  mkRequest (rq_close r) v (rq_method r) (rq_path r) (rq_query r) (rq_body r) (rq_fragment r) (rq_headers r) (rq_params r) (rq_cookies r).

(** [src/include/http/http.hh:323-323 HttpRequest::setPath] *)
Definition setPath (v : bytes) (r : HttpRequest) : HttpRequest :=
  mkRequest (rq_close r) (rq_version r) (rq_method r) v (rq_query r) (rq_body r) (rq_fragment r) (rq_headers r) (rq_params r) (rq_cookies r).

(** [src/include/http/http.hh:329-329 HttpRequest::setQuery] *)
Definition setQuery (v : bytes) (r : HttpRequest) : HttpRequest :=
  mkRequest (rq_close r) (rq_version r) (rq_method r) (rq_path r) v (rq_body r) (rq_fragment r) (rq_headers r) (rq_params r) (rq_cookies r).

(** [src/include/http/http.hh:335-335 HttpRequest::setFragment] *)
Definition setFragment (v : bytes) (r : HttpRequest) : HttpRequest :=
  mkRequest (rq_close r) (rq_version r) (rq_method r) (rq_path r) (rq_query r) (rq_body r) v (rq_headers r) (rq_params r) (rq_cookies r).

(** [src/include/http/http.hh:341-341 HttpRequest::setBody] *)
Definition setBody (v : bytes) (r : HttpRequest) : HttpRequest :=
  mkRequest (rq_close r) (rq_version r) (rq_method r) (rq_path r) (rq_query r) v (rq_fragment r) (rq_headers r) (rq_params r) (rq_cookies r).

(** [src/include/http/http.hh:347-347 HttpRequest::setHeaders] *)
Definition setHeaders (v : MapType) (r : HttpRequest) : HttpRequest :=
  mkRequest (rq_close r) (rq_version r) (rq_method r) (rq_path r) (rq_query r) (rq_body r) (rq_fragment r) v (rq_params r) (rq_cookies r).

(** [src/include/http/http.hh:353-353 HttpRequest::setParams] *)
Definition setParams (v : MapType) (r : HttpRequest) : HttpRequest :=
  mkRequest (rq_close r) (rq_version r) (rq_method r) (rq_path r) (rq_query r) (rq_body r) (rq_fragment r) (rq_headers r) v (rq_cookies r).

(** [src/include/http/http.hh:359-359 HttpRequest::setCookie] *)
Definition setCookies (v : MapType) (r : HttpRequest) : HttpRequest :=
  mkRequest (rq_close r) (rq_version r) (rq_method r) (rq_path r) (rq_query r) (rq_body r) (rq_fragment r) (rq_headers r) (rq_params r) v.

(** [src/include/http/http.hh:390-390 HttpRequest::setClose] *)
Definition setClose (v : bool) (r : HttpRequest) : HttpRequest :=
  mkRequest v (rq_version r) (rq_method r) (rq_path r) (rq_query r) (rq_body r) (rq_fragment r) (rq_headers r) (rq_params r) (rq_cookies r).

(** [src/src/http.cc:69-74 HttpRequest::getHeader] *)
Definition getHeader (r : HttpRequest) (key def : bytes) : bytes := get_or (rq_headers r) key def.

(** [src/src/http.cc:89-92 HttpRequest::setHeader] *)
Definition setHeader (key val : bytes) (r : HttpRequest) : HttpRequest :=
  setHeaders (map_set key val (rq_headers r)) r.

(** [src/src/http.cc:101-101 HttpRequest::delHeader] *)
Definition delHeader (key : bytes) (r : HttpRequest) : HttpRequest :=
  setHeaders (map_erase key (rq_headers r)) r.

(** [src/src/http.cc:104-114 HttpRequest::hasHeader]
    The value is what is stored through [val] when the key is present. *)
Definition hasHeader (r : HttpRequest) (key : bytes) : option bytes := map_find key (rq_headers r).

(** [src/src/http.cc:76-81 HttpRequest::getParam] *)
Definition getParam (r : HttpRequest) (key def : bytes) : bytes := get_or (rq_params r) key def.

(** [src/src/http.cc:93-96 HttpRequest::setParam] *)
Definition setParam (key val : bytes) (r : HttpRequest) : HttpRequest :=
  setParams (map_set key val (rq_params r)) r.

(** [src/src/http.cc:102-102 HttpRequest::delParam] *)
Definition delParam (key : bytes) (r : HttpRequest) : HttpRequest :=
  setParams (map_erase key (rq_params r)) r.

(** [src/src/http.cc:115-125 HttpRequest::hasParam]
    The value is what is stored through [val] when the key is present. *)
Definition hasParam (r : HttpRequest) (key : bytes) : option bytes := map_find key (rq_params r).

(** [src/src/http.cc:83-88 HttpRequest::getCookie] *)
Definition getCookie (r : HttpRequest) (key def : bytes) : bytes := get_or (rq_cookies r) key def.

(** [src/src/http.cc:97-100 HttpRequest::setCookie] *)
Definition setCookie (key val : bytes) (r : HttpRequest) : HttpRequest :=
  setCookies (map_set key val (rq_cookies r)) r.

(** [src/src/http.cc:103-103 HttpRequest::delCookie] *)
Definition delCookie (key : bytes) (r : HttpRequest) : HttpRequest :=
  setCookies (map_erase key (rq_cookies r)) r.

(** [src/src/http.cc:126-136 HttpRequest::hasCookie]
    The value is what is stored through [val] when the key is present. *)
Definition hasCookie (r : HttpRequest) (key : bytes) : option bytes := map_find key (rq_cookies r).

(** One header line. *)
Definition dump_field (kv : bytes * bytes) : bytes := fst kv ++ str ": " ++ snd kv ++ crlf.

Definition is_connection (k : bytes) : bool := strcasecmp k (str "connection") =? 0.

(** The header lines, without the key [connection]. *)
Fixpoint dump_headers (m : MapType) : bytes :=
  match m with
  | [] => []
  | (k, v) :: m => if is_connection k then dump_headers m else dump_field (k, v) ++ dump_headers m
  end.

Definition dump_version (v : Z) : bytes :=
  str "HTTP/" ++ dec (Z.shiftr v 4) ++ str "." ++ dec (Z.land v 15).

Definition dump_connection (close : bool) : bytes :=
  dump_field (str "Connection", if close then str "Close" else str "Keep-Alive").

(** The end of the header and the body. *)
Definition dump_body (body : bytes) : bytes :=
  match body with
  | [] => crlf
  | _ => dump_field (str "Content-Length", dec (Z.of_nat (length body))) ++ crlf ++ body
  end.

Definition dump_opt (sep s : bytes) : bytes := match s with [] => [] | _ => sep ++ s end.

(** [src/src/http.cc:145-182 HttpRequest::dump] *)
Definition HttpRequest_dump (r : HttpRequest) : bytes :=
  HttpMethodToString (rq_method r) ++ str " " ++ rq_path r
  ++ dump_opt (str "?") (rq_query r) ++ dump_opt (str "#") (rq_fragment r) ++ str " "
  ++ dump_version (rq_version r) ++ crlf
  ++ dump_connection (rq_close r) ++ dump_headers (rq_headers r) ++ dump_body (rq_body r).

(** ** Responses *)

(** [src/include/http/http.hh:646-653 HttpResponse] *)
Record HttpResponse := mkResponse {
  rs_status : Z; rs_version : Z; rs_close : bool; rs_body : bytes; rs_reason : bytes;
  rs_headers : MapType
}.

(** [src/src/http.cc:184-186 HttpResponse::HttpResponse] *)
Definition HttpResponse_new (version : Z) (close : bool) : HttpResponse :=
  mkResponse 200 version close [] [] [].

(** [src/include/http/http.hh:549-549 HttpResponse::setStatus] *)
Definition rsp_setStatus (v : Z) (r : HttpResponse) : HttpResponse :=
  mkResponse v (rs_version r) (rs_close r) (rs_body r) (rs_reason r) (rs_headers r).

(** [src/include/http/http.hh:555-555 HttpResponse::setVersion] *)
Definition rsp_setVersion (v : Z) (r : HttpResponse) : HttpResponse :=
  mkResponse (rs_status r) v (rs_close r) (rs_body r) (rs_reason r) (rs_headers r).

(** [src/include/http/http.hh:561-561 HttpResponse::setBody] *)
Definition rsp_setBody (v : bytes) (r : HttpResponse) : HttpResponse :=
  mkResponse (rs_status r) (rs_version r) (rs_close r) v (rs_reason r) (rs_headers r).

(** [src/include/http/http.hh:567-567 HttpResponse::setReason] *)
Definition rsp_setReason (v : bytes) (r : HttpResponse) : HttpResponse :=
  mkResponse (rs_status r) (rs_version r) (rs_close r) (rs_body r) v (rs_headers r).

(** [src/include/http/http.hh:573-573 HttpResponse::setHeaders] *)
Definition rsp_setHeaders (v : MapType) (r : HttpResponse) : HttpResponse :=
  mkResponse (rs_status r) (rs_version r) (rs_close r) (rs_body r) (rs_reason r) v.

(** [src/include/http/http.hh:583-583 HttpResponse::setClose] *)
Definition rsp_setClose (v : bool) (r : HttpResponse) : HttpResponse :=
  mkResponse (rs_status r) (rs_version r) v (rs_body r) (rs_reason r) (rs_headers r).

(** [src/src/http.cc:188-193 HttpResponse::getHeaders] *)
Definition rsp_getHeaders (r : HttpResponse) (key def : bytes) : bytes := get_or (rs_headers r) key def.

(** [src/src/http.cc:195-198 HttpResponse::setHeader] *)
Definition rsp_setHeader (key val : bytes) (r : HttpResponse) : HttpResponse :=
  rsp_setHeaders (map_set key val (rs_headers r)) r.

(** [src/src/http.cc:200-200 HttpResponse::delHeader] *)
Definition rsp_delHeader (key : bytes) (r : HttpResponse) : HttpResponse :=
  rsp_setHeaders (map_erase key (rs_headers r)) r.

(** [src/src/http.cc:202-235 HttpResponse::dump] *)
Definition HttpResponse_dump (r : HttpResponse) : bytes :=
  dump_version (rs_version r) ++ str " " ++ dec (u32 (rs_status r)) ++ str " "
  ++ match rs_reason r with [] => HttpStatusToString (rs_status r) | s => s end ++ crlf
  ++ dump_headers (rs_headers r) ++ dump_connection (rs_close r) ++ dump_body (rs_body r).
