(* ===== verification/HttpSpec.v ===== *)
(** * What the HTTP message layer promises

    The header maps implement finite maps keyed by the case-folded name
    ([headers_refine_map]); the method tables are inverse to each other
    ([method_names_roundtrip]); a serialised message, read by a reference
    grammar of HTTP/1.x messages defined here, is the message
    ([request_dump_parses], [response_dump_parses]). *)
From Stdlib Require Import Ascii String.
From S2P Require Import Prelude CString Http.

#[local] Open Scope string_scope.
#[local] Open Scope list_scope.
#[local] Open Scope Z_scope.

(** ** The case-insensitive order *)

Lemma less_fold a b : CaseInsensitiveLess a b = lexlt (fold_case a) (fold_case b).
Proof. apply strcasecmp_lt. Qed.

(** Two keys the maps do not distinguish. *)
Definition same_key (a b : bytes) : Prop := fold_case a = fold_case b.

#[export] Instance same_key_equiv : Equivalence same_key.
Proof. split; unfold same_key; repeat intro; congruence. Qed.

#[export] Instance less_proper : Proper (same_key ==> same_key ==> eq) CaseInsensitiveLess.
Proof. intros a b Hab c d Hcd. rewrite !less_fold. congruence. Qed.

#[export] Instance map_find_proper : Proper (same_key ==> eq ==> eq) map_find.
Proof.
  intros a b Hab m _ <-. induction m as [|[k v] m IH]; [done|]. cbn [map_find].
  by rewrite (less_fold k a), (less_fold a k), Hab, <-!less_fold, IH.
Qed.

#[export] Instance map_erase_proper : Proper (same_key ==> eq ==> eq) map_erase.
Proof.
  intros a b Hab m _ <-. induction m as [|[k v] m IH]; [done|]. cbn [map_erase].
  by rewrite (less_fold k a), (less_fold a k), Hab, <-!less_fold, IH.
Qed.

(** The keys of a map are strictly increasing. *)
Fixpoint sorted_from (lo : option bytes) (m : MapType) : Prop :=
  match m with
  | [] => True
  | (k, _) :: m =>
      match lo with Some l => lexlt l (fold_case k) = true | None => True end
      /\ sorted_from (Some (fold_case k)) m
  end.

Definition sorted_map (m : MapType) : Prop := sorted_from None m.

(** The finite map a sorted list stands for. *)
Definition abs (m : MapType) : gmap bytes bytes :=
  list_to_map (map (fun kv => (fold_case (fst kv), snd kv)) m).

#[local] Arguments abs : simpl never.
#[local] Arguments sorted_map : simpl never.

Lemma abs_cons k v m : abs ((k, v) :: m) = <[fold_case k := v]> (abs m).
Proof. done. Qed.

Lemma sorted_weaken lo m : sorted_from lo m -> sorted_map m.
Proof. destruct m as [|[k v] m]; [done|]. by intros [_ H]. Qed.

Lemma sorted_lower lo lo' m :
  lexlt lo' lo = true -> sorted_from (Some lo) m -> sorted_from (Some lo') m.
Proof.
  destruct m as [|[k v] m]; [done|]. intros Hlt [H1 H2]. split; [|done]. by eapply lexlt_trans.
Qed.

(** Keys below the least key are not in the map. *)
Lemma abs_below lo m k : sorted_from (Some lo) m -> k = lo \/ lexlt k lo = true -> abs m !! k = None.
Proof.
  revert lo. induction m as [|[k' v] m IH]; intros lo Hs Hk; [apply lookup_empty|].
  destruct Hs as [H1 H2]. rewrite abs_cons.
  assert (lexlt k (fold_case k') = true) as Hlt.
  { destruct Hk as [->|Hk]; [done|]. by eapply lexlt_trans. }
  rewrite lookup_insert_ne; [by eapply IH; [|right]|].
  intros <-. by rewrite lexlt_irrefl in Hlt.
Qed.

(** The comparisons of a step of [find]. *)
Lemma key_cases k k' :
  (CaseInsensitiveLess k' k = true /\ lexlt (fold_case k') (fold_case k) = true /\ fold_case k' <> fold_case k)
  \/ (CaseInsensitiveLess k' k = false /\ CaseInsensitiveLess k k' = true
      /\ lexlt (fold_case k) (fold_case k') = true)
  \/ (CaseInsensitiveLess k' k = false /\ CaseInsensitiveLess k k' = false /\ fold_case k' = fold_case k).
Proof.
  rewrite !less_fold. destruct (lexlt (fold_case k') (fold_case k)) eqn:E1.
  - left. split_and!; [done..|]. intros E. rewrite E, lexlt_irrefl in E1. done.
  - destruct (lexlt (fold_case k) (fold_case k')) eqn:E2; [by right; left|].
    right; right. split_and!; [done..|]. by apply lexlt_total.
Qed.

Lemma map_find_abs k m : sorted_map m -> map_find k m = abs m !! fold_case k.
Proof.
  unfold sorted_map. generalize (@None bytes) as lo.
  induction m as [|[k' v] m IH]; intros lo Hs; [done|].
  destruct Hs as [_ Hs]. cbn [map_find]. rewrite abs_cons.
  destruct (key_cases k k') as [(-> & Hlt & Hne)|[(-> & -> & Hlt)|(-> & -> & ->)]].
  - rewrite lookup_insert_ne by done. by eapply IH.
  - rewrite lookup_insert_ne by (intros E; by rewrite E, lexlt_irrefl in Hlt).
    symmetry. eapply abs_below; [done|by right].
  - by rewrite lookup_insert_eq.
Qed.

Lemma map_set_sorted k v m lo :
  sorted_from lo m -> match lo with Some l => lexlt l (fold_case k) = true | None => True end ->
  sorted_from lo (map_set k v m).
Proof.
  revert lo. induction m as [|[k' v'] m IH]; intros lo Hs Hlo; [by split|].
  destruct Hs as [H1 H2]. cbn [map_set].
  destruct (key_cases k k') as [(-> & Hlt & Hne)|[(-> & -> & Hlt)|(-> & -> & E)]].
  - split; [done|]. by apply IH.
  - by split.
  - by split.
Qed.

Lemma map_set_abs k v m lo : sorted_from lo m -> abs (map_set k v m) = <[fold_case k := v]> (abs m).
Proof.
  revert lo. induction m as [|[k' v'] m IH]; intros lo Hs; [done|].
  destruct Hs as [H1 H2]. cbn [map_set].
  destruct (key_cases k k') as [(-> & Hlt & Hne)|[(-> & -> & Hlt)|(-> & -> & E)]].
  - rewrite !abs_cons, (IH _ H2). by rewrite insert_insert_ne.
  - done.
  - rewrite !abs_cons, E. by rewrite insert_insert_eq.
Qed.

Lemma map_erase_sorted k m lo : sorted_from lo m -> sorted_from lo (map_erase k m).
Proof.
  revert lo. induction m as [|[k' v'] m IH]; intros lo Hs; [done|].
  destruct Hs as [H1 H2]. cbn [map_erase].
  destruct (key_cases k k') as [(-> & Hlt & Hne)|[(-> & -> & Hlt)|(-> & -> & E)]].
  - split; [done|]. by apply IH.
  - by split.
  - destruct lo as [lo|]; [by eapply sorted_lower|by eapply sorted_weaken].
Qed.

Lemma map_erase_abs k m lo : sorted_from lo m -> abs (map_erase k m) = delete (fold_case k) (abs m).
Proof.
  revert lo. induction m as [|[k' v'] m IH]; intros lo Hs; [done|].
  destruct Hs as [H1 H2]. cbn [map_erase].
  destruct (key_cases k k') as [(-> & Hlt & Hne)|[(-> & -> & Hlt)|(-> & -> & E)]].
  - rewrite !abs_cons, (IH _ H2). by rewrite delete_insert_ne.
  - rewrite delete_id; [done|]. apply (abs_below (fold_case k)); [|by left]. by split.
  - rewrite abs_cons, E, delete_insert_eq. rewrite delete_id; [done|].
    apply (abs_below (fold_case k')); [done|by left].
Qed.

(** ** Header operations *)

Inductive header_op := SetHeader (key val : bytes) | DelHeader (key : bytes).

Definition run_op (r : HttpRequest) (o : header_op) : HttpRequest :=
  match o with SetHeader k v => setHeader k v r | DelHeader k => delHeader k r end.

Definition rsp_run_op (r : HttpResponse) (o : header_op) : HttpResponse :=
  match o with SetHeader k v => rsp_setHeader k v r | DelHeader k => rsp_delHeader k r end.

Definition spec_op (m : gmap bytes bytes) (o : header_op) : gmap bytes bytes :=
  match o with
  | SetHeader k v => <[fold_case k := v]> m
  | DelHeader k => delete (fold_case k) m
  end.

Lemma run_ops_spec (ops : list header_op) : forall r m,
  sorted_map (rq_headers r) -> abs (rq_headers r) = m ->
  sorted_map (rq_headers (fold_left run_op ops r))
  /\ abs (rq_headers (fold_left run_op ops r)) = fold_left spec_op ops m.
Proof.
  induction ops as [|[k v|k] ops IH]; intros r m Hs Ha; [done|apply IH..]; cbn.
  - by apply map_set_sorted.
  - by rewrite (map_set_abs _ _ _ None), Ha.
  - by apply map_erase_sorted.
  - by rewrite (map_erase_abs _ _ None), Ha.
Qed.

Lemma rsp_run_ops_spec (ops : list header_op) : forall r m,
  sorted_map (rs_headers r) -> abs (rs_headers r) = m ->
  sorted_map (rs_headers (fold_left rsp_run_op ops r))
  /\ abs (rs_headers (fold_left rsp_run_op ops r)) = fold_left spec_op ops m.
Proof.
  induction ops as [|[k v|k] ops IH]; intros r m Hs Ha; [done|apply IH..]; cbn.
  - by apply map_set_sorted.
  - by rewrite (map_set_abs _ _ _ None), Ha.
  - by apply map_erase_sorted.
  - by rewrite (map_erase_abs _ _ None), Ha.
Qed.

(** After any sequence of setHeader and delHeader calls on a new request or
    response, getHeader, hasHeader and getHeaderAs answer like a finite map
    keyed by the case-folded header name. *)
Theorem headers_refine_map (T : Type) (cast : bytes -> option T) (dflt : T) version close
    (ops : list header_op) key def :
  let m := fold_left spec_op ops ∅ in
  let r := fold_left run_op ops (HttpRequest_new version close) in
  let s := fold_left rsp_run_op ops (HttpResponse_new version close) in
  getHeader r key def = default def (m !! fold_case key)
  /\ hasHeader r key = m !! fold_case key
  /\ rsp_getHeaders s key def = default def (m !! fold_case key)
  /\ getAs cast (rq_headers r) key dflt = default dflt (m !! fold_case key ≫= cast)
  /\ checkGetAs cast (rs_headers s) key dflt
     = match m !! fold_case key ≫= cast with Some v => (true, v) | None => (false, dflt) end.
Proof.
  intros m r s.
  destruct (run_ops_spec ops (HttpRequest_new version close) ∅) as [Hs Ha]; [done..|].
  destruct (rsp_run_ops_spec ops (HttpResponse_new version close) ∅) as [Hs' Ha']; [done..|].
  fold r m in Hs, Ha. fold s m in Hs', Ha'.
  unfold getHeader, rsp_getHeaders, hasHeader, get_or, getAs, checkGetAs.
  rewrite (map_find_abs _ _ Hs), (map_find_abs _ _ Hs'), Ha, Ha'.
  destruct (m !! fold_case key) as [v|]; cbn; [|done]. by destruct (cast v).
Qed.

(** ** Methods *)

Definition all_methods : list HttpMethod := map fst HTTP_METHOD_MAP.

Lemma all_methods_complete m : m <> INVAILD_METHOD -> m ∈ all_methods.
Proof. intros H. apply list_elem_of_In. destruct m; try done; vm_compute; tauto. Qed.

(** No name is a prefix of another: the scan of [CharsToHttpMethod] finds the
    method whatever follows the name. *)
Lemma prefix_free p q rest : is_prefix p (q ++ rest) = true ->
  is_prefix p q = true \/ is_prefix q p = true.
Proof.
  revert q. induction p as [|x p IH]; intros [|y q]; cbn; try tauto.
  rewrite !andb_true_iff, !Z.eqb_eq. intros [-> H]. destruct (IH _ H); tauto.
Qed.

Definition method_table_ok (t : list (HttpMethod * bytes)) : bool :=
  forallb (fun r => forallb (fun r' => bool_decide (fst r = fst r')
     || negb (is_prefix (snd r) (snd r') || is_prefix (snd r') (snd r))) t) t.

Lemma find_row_prefix (t : list (HttpMethod * bytes)) m s rest :
  (m, s) ∈ t -> (forall r, r ∈ t -> fst r <> m -> is_prefix (snd r) (s ++ rest) = false) ->
  exists s', find_row (fun r => is_prefix (snd r) (s ++ rest)) t = Some (m, s').
Proof.
  induction t as [|[m' s'] t IH]; intros Hin Hno; [by apply not_elem_of_nil in Hin|].
  cbn [find_row]. destruct (is_prefix (snd (m', s')) (s ++ rest)) eqn:E.
  - destruct (decide (m' = m)) as [->|Hne]; [by exists s'|].
    rewrite (Hno (m', s')) in E; [done|left|done].
  - apply elem_of_cons in Hin as [[= <- <-]|Hin].
    + assert (is_prefix s (s ++ rest) = true) as H by (apply is_prefix_spec; by exists rest).
      cbn in E. congruence.
    + apply IH; [done|]. intros r Hr. apply Hno. by right.
Qed.

Lemma chars_method_name m rest :
  m <> INVAILD_METHOD -> CharsToHttpMethod (HttpMethodToString m ++ rest) = m.
Proof.
  intros Hm.
  assert ((m, HttpMethodToString m) ∈ HTTP_METHOD_MAP) as Hin.
  { apply list_elem_of_In. destruct m; try done; vm_compute; tauto. }
  unfold CharsToHttpMethod.
  destruct (find_row_prefix HTTP_METHOD_MAP m (HttpMethodToString m) rest Hin) as [s' ->]; [|done].
  intros [m' s''] Hr Hne. destruct (is_prefix _ _) eqn:E; [exfalso|done].
  apply prefix_free in E.
  assert (method_table_ok HTTP_METHOD_MAP = true) as Hok by (vm_compute; reflexivity).
  unfold method_table_ok in Hok. rewrite forallb_forall in Hok.
  apply list_elem_of_In in Hr, Hin. specialize (Hok _ Hr). rewrite forallb_forall in Hok.
  specialize (Hok _ Hin). cbn [fst snd] in *. rewrite bool_decide_eq_false_2 in Hok by done.
  rewrite orb_false_l in Hok. apply negb_true_iff, orb_false_iff in Hok as [H1 H2].
  destruct E; congruence.
Qed.

(** Every method is recovered from its name, by StringToHttpMethod from the
    whole string and by CharsToHttpMethod from the name followed by anything,
    as it stands in a request line. *)
Theorem method_names_roundtrip m rest :
  m <> INVAILD_METHOD ->
  StringToHttpMethod (HttpMethodToString m) = m
  /\ CharsToHttpMethod (HttpMethodToString m ++ rest) = m.
Proof.
  intros Hm. split; [by destruct m|by apply chars_method_name].
Qed.


Lemma method_names_roundtrip_witness :
  StringToHttpMethod (HttpMethodToString MSEARCH) = MSEARCH
  /\ CharsToHttpMethod (HttpMethodToString MSEARCH ++ str " /x") = MSEARCH.
Proof. apply (method_names_roundtrip MSEARCH (str " /x")). discriminate. Defined.

(** The method name of the protocol, without the blanks the macro leaves in it,
    is not recognised; and a method is recognised as a prefix of a longer one. *)
Lemma msearch_unknown : StringToHttpMethod (str "M-SEARCH") = INVAILD_METHOD.
Proof. by vm_compute. Qed.

Lemma method_prefix_accepted : CharsToHttpMethod (str "GETX /") = GET.
Proof. by vm_compute. Qed.

(** ** A reference grammar of messages

    A start line, header lines [name: value], an empty line and the body. *)

(** Split at the first occurrence of a byte. *)
Fixpoint split_at (c : Z) (s : bytes) : option (bytes * bytes) :=
  match s with
  | [] => None
  | x :: s =>
      if x =? c then Some ([], s)
      else match split_at c s with Some (a, b) => Some (x :: a, b) | None => None end
  end.

(** The text before the first CRLF, and what follows it. *)
Definition parse_line (s : bytes) : option (bytes * bytes) :=
  match split_at CR s with
  | Some (line, c :: rest) => if c =? LF then Some (line, rest) else None
  | _ => None
  end.

Definition parse_field (line : bytes) : option (bytes * bytes) :=
  match split_at 58 line with
  | Some (name, 32 :: value) => Some (name, value)
  | _ => None
  end.

(** Header lines up to the empty line; one unit of fuel per line. *)
Fixpoint parse_fields (fuel : nat) (s : bytes) : option (list (bytes * bytes) * bytes) :=
  match fuel with
  | O => None
  | S fuel =>
      '(line, rest) ← parse_line s;
      match line with
      | [] => Some ([], rest)
      | _ =>
          f ← parse_field line;
          '(fs, body) ← parse_fields fuel rest;
          Some (f :: fs, body)
      end
  end.

(** The three parts of a start line, the fields and the body. *)
Definition parse_message (s : bytes) : option (bytes * bytes * bytes * list (bytes * bytes) * bytes) :=
  '(line, rest) ← parse_line s;
  '(a, line) ← split_at 32 line;
  '(b, c) ← split_at 32 line;
  '(fs, body) ← parse_fields (S (length rest)) rest;
  Some (a, b, c, fs, body).

(** What may stand in a message without changing its structure. *)
Definition word_ok (s : bytes) : Prop := 32 ∉ s /\ CR ∉ s.
Definition name_ok (s : bytes) : Prop := s <> [] /\ 58 ∉ s /\ CR ∉ s.
Definition field_ok (kv : bytes * bytes) : Prop := name_ok (fst kv) /\ CR ∉ snd kv.

Lemma split_at_spec c a b : c ∉ a -> split_at c (a ++ c :: b) = Some (a, b).
Proof.
  induction a as [|x a IH]; intros Hc; cbn; [by rewrite Z.eqb_refl|].
  apply not_elem_of_cons in Hc as [Hx Hc].
  rewrite (proj2 (Z.eqb_neq x c)) by congruence. by rewrite IH.
Qed.

Lemma parse_line_spec line rest : CR ∉ line -> parse_line (line ++ crlf ++ rest) = Some (line, rest).
Proof. intros H. unfold parse_line, crlf. cbn. by rewrite split_at_spec. Qed.

Lemma parse_field_spec kv : name_ok (fst kv) -> parse_field (fst kv ++ str ": " ++ snd kv) = Some kv.
Proof.
  destruct kv as [k v]. intros (_ & Hk & _). unfold parse_field.
  change (str ": ") with [58; 32]. cbn [fst snd app]. by rewrite split_at_spec.
Qed.

Lemma parse_fields_spec fs body : Forall field_ok fs ->
  forall fuel, (length fs < fuel)%nat ->
  parse_fields fuel (concat (map dump_field fs) ++ crlf ++ body) = Some (fs, body).
Proof.
  induction 1 as [|kv fs [Hn Hv] _ IH]; intros [|fuel] Hf; cbn in Hf; try lia.
  - cbn [map concat parse_fields]. rewrite app_nil_l, <-(app_nil_l (crlf ++ body)), parse_line_spec; [done|].
    apply not_elem_of_nil.
  - cbn [map concat parse_fields]. unfold dump_field at 1.
    replace ((fst kv ++ str ": " ++ snd kv ++ crlf) ++ concat (map dump_field fs))
      with ((fst kv ++ str ": " ++ snd kv) ++ crlf ++ concat (map dump_field fs))
      by (by rewrite <-!app_assoc).
    rewrite <-app_assoc, <-(app_assoc crlf), parse_line_spec.
    + cbn [mbind option_bind]. rewrite parse_field_spec by done. cbn [mbind option_bind].
      rewrite IH by lia. cbn. destruct Hn as [Hne _]. by destruct (fst kv).
    + destruct Hn as (_ & _ & Hc). rewrite !not_elem_of_app. split_and!; [done| |done].
      change (str ": ") with [58; 32]. unfold CR. intros H%list_elem_of_In. cbn in H. lia.
Qed.

(** The start line and the fields as one message. *)
Lemma parse_message_spec a b c fs body :
  word_ok a -> word_ok b -> CR ∉ c -> Forall field_ok fs ->
  parse_message (a ++ [32] ++ b ++ [32] ++ c ++ crlf ++ concat (map dump_field fs) ++ crlf ++ body)
  = Some (a, b, c, fs, body).
Proof.
  intros [Ha Ha'] [Hb Hb'] Hc Hfs. unfold parse_message.
  replace (a ++ [32] ++ b ++ [32] ++ c ++ crlf ++ concat (map dump_field fs) ++ crlf ++ body)
    with ((a ++ [32] ++ b ++ [32] ++ c) ++ crlf ++ concat (map dump_field fs) ++ crlf ++ body)
    by (by rewrite <-!app_assoc).
  rewrite parse_line_spec.
  2: { assert (CR ∉ [32]) by (unfold CR; intros H%list_elem_of_In; cbn in H; lia).
       by rewrite !not_elem_of_app. }
  cbn [mbind option_bind app]. rewrite split_at_spec by done. cbn [mbind option_bind].
  rewrite split_at_spec by done. cbn [mbind option_bind].
  rewrite parse_fields_spec; [done|done|].
  rewrite !length_app. cbn [length crlf].
  assert (length fs <= length (concat (map dump_field fs)))%nat; [|lia].
  clear. induction fs as [|kv fs IH]; [done|]. cbn [map concat length]. unfold dump_field at 1.
  rewrite !length_app. cbn [length crlf]. lia.
Qed.

(** ** Serialised messages *)

Definition kept (m : list (bytes * bytes)) : list (bytes * bytes) :=
  filter (fun kv => is_connection (fst kv) = false) m.

Definition connection_field (close : bool) : bytes * bytes :=
  (str "Connection", if close then str "Close" else str "Keep-Alive").

Definition length_fields (body : bytes) : list (bytes * bytes) :=
  match body with [] => [] | _ => [(str "Content-Length", dec (Z.of_nat (length body)))] end.

Lemma dump_headers_kept m : dump_headers m = concat (map dump_field (kept m)).
Proof.
  induction m as [|[k v] m IH]; [done|]. cbn [dump_headers]. unfold kept. rewrite filter_cons.
  cbn [fst]. destruct (is_connection k) eqn:E.
  - rewrite decide_False by done. apply IH.
  - rewrite decide_True by done. cbn [map concat]. by rewrite IH.
Qed.

Lemma dump_body_fields body :
  dump_body body = concat (map dump_field (length_fields body)) ++ crlf ++ body.
Proof.
  destruct body as [|b body]; [by rewrite app_nil_r|]. cbn [dump_body length_fields map concat].
  by rewrite app_nil_r.
Qed.

Lemma field_ok_lit (k v : string) :
  forallb (fun c => negb ((c =? 58) || (c =? CR))) (str k) = true -> str k <> [] ->
  forallb (fun c => negb (c =? CR)) (str v) = true -> field_ok (str k, str v).
Proof.
  intros Hk Hne Hv. rewrite forallb_forall in Hk, Hv.
  split; [split; [done|split]|]; intros Hin; apply list_elem_of_In in Hin; cbn in Hin.
  - by specialize (Hk _ Hin).
  - specialize (Hk _ Hin). by rewrite orb_true_r in Hk.
  - by specialize (Hv _ Hin).
Qed.

Lemma connection_field_ok close : field_ok (connection_field close).
Proof. destruct close; by apply field_ok_lit. Qed.

Lemma length_fields_ok body : Z.of_nat (length body) < 2 ^ 64 -> Forall field_ok (length_fields body).
Proof.
  intros H. destruct body as [|b body]; [done|]. apply Forall_singleton. split.
  - apply (field_ok_lit "Content-Length" ""); done.
  - apply dec_no; [|done]. split; [lia|done].
Qed.

Lemma kept_ok m : Forall field_ok m -> Forall field_ok (kept m).
Proof.
  rewrite !Forall_forall. intros H kv Hkv. apply list_elem_of_filter in Hkv as [_ Hkv]. auto.
Qed.

Lemma version_ok v : 0 <= v < 256 -> word_ok (dump_version v).
Proof.
  intros Hv. unfold dump_version.
  assert (0 <= Z.shiftr v 4 < 2 ^ 64).
  { rewrite Z.shiftr_div_pow2 by lia. split; [apply Z.div_pos; lia|].
    apply Z.div_lt_upper_bound; lia. }
  assert (0 <= Z.land v 15 < 2 ^ 64).
  { change 15 with (Z.ones 4). rewrite Z.land_ones by lia.
    pose proof (Z.mod_pos_bound v (2 ^ 4)). lia. }
  split; rewrite !not_elem_of_app; split_and!; try (by apply dec_no);
    intros Hin; apply list_elem_of_In in Hin; vm_compute in Hin; intuition discriminate.
Qed.

Lemma method_string_word m : word_ok (HttpMethodToString m) \/ m = MSEARCH.
Proof.
  destruct (decide (m = MSEARCH)); [by right|left].
  destruct m; try done; split; intros Hin; apply list_elem_of_In in Hin; vm_compute in Hin;
    intuition discriminate.
Qed.

Definition target (r : HttpRequest) : bytes :=
  rq_path r ++ dump_opt (str "?") (rq_query r) ++ dump_opt (str "#") (rq_fragment r).

(** A request that can be written as a message. *)
Definition request_ok (r : HttpRequest) : Prop :=
  rq_method r <> MSEARCH /\ word_ok (target r) /\ 0 <= rq_version r < 256
  /\ Forall field_ok (rq_headers r) /\ Z.of_nat (length (rq_body r)) < 2 ^ 64.

(** The serialisation of a request, read by the reference grammar, is its
    method, target and version, the connection field, its header map without
    that key, the length of a non-empty body, and the body. *)
Theorem request_dump_parses r :
  request_ok r ->
  parse_message (HttpRequest_dump r)
  = Some (HttpMethodToString (rq_method r), target r, dump_version (rq_version r),
          connection_field (rq_close r) :: kept (rq_headers r) ++ length_fields (rq_body r), rq_body r).
Proof.
  intros (Hm & Ht & Hv & Hh & Hb).
  rewrite <-parse_message_spec; [|by destruct (method_string_word (rq_method r))|done
    |by apply version_ok|].
  - unfold HttpRequest_dump, target. f_equal. change (str " ") with [32].
    rewrite dump_headers_kept, dump_body_fields. cbn [map concat].
    rewrite map_app, concat_app, <-!app_assoc. done.
  - constructor; [apply connection_field_ok|]. apply Forall_app. split; [by apply kept_ok|].
    by apply length_fields_ok.
Qed.

Lemma dec_word n : 0 <= n < 2 ^ 64 -> word_ok (dec n).
Proof. intros H. split; by apply dec_no. Qed.

Lemma status_string_cr c : CR ∉ HttpStatusToString c.
Proof.
  unfold HttpStatusToString.
  assert (forallb (fun r => forallb (fun b => negb (b =? CR)) (snd r)) HTTP_STATUS_MAP = true) as H
    by (vm_compute; reflexivity).
  revert H. generalize HTTP_STATUS_MAP as t.
  induction t as [|[c' s] t IH]; cbn [find_row forallb snd fst].
  - intros _ Hin. apply list_elem_of_In in Hin. vm_compute in Hin. intuition discriminate.
  - rewrite andb_true_iff. intros [Hs Ht]. destruct (c' =? c); [|by apply IH]. cbn [snd].
    intros Hin. rewrite forallb_forall in Hs. apply list_elem_of_In in Hin. by apply Hs in Hin.
Qed.

(** A response that can be written as a message. *)
Definition response_ok (r : HttpResponse) : Prop :=
  0 <= rs_version r < 256 /\ CR ∉ rs_reason r /\ Forall field_ok (rs_headers r)
  /\ Z.of_nat (length (rs_body r)) < 2 ^ 64.

(** The serialisation of a response, read by the reference grammar, is its
    version, status code and reason (the standard one when none is set), its
    header map without the connection key, the connection field, the length of
    a non-empty body, and the body. *)
Theorem response_dump_parses r :
  response_ok r ->
  parse_message (HttpResponse_dump r)
  = Some (dump_version (rs_version r), dec (u32 (rs_status r)),
          match rs_reason r with [] => HttpStatusToString (rs_status r) | s => s end,
          kept (rs_headers r) ++ connection_field (rs_close r) :: length_fields (rs_body r), rs_body r).
Proof.
  intros (Hv & Hr & Hh & Hb).
  rewrite <-parse_message_spec; [|by apply version_ok| | |].
  - unfold HttpResponse_dump. f_equal. change (str " ") with [32].
    rewrite dump_headers_kept, dump_body_fields, map_app, concat_app. cbn [map concat].
    rewrite <-!app_assoc. done.
  - apply dec_word. pose proof (u32_range (rs_status r)). lia.
  - destruct (rs_reason r); [apply status_string_cr|done].
  - apply Forall_app. split; [by apply kept_ok|].
    constructor; [apply connection_field_ok|by apply length_fields_ok].
Qed.

(** A POST with a header and a body, and its answer. *)
Definition demo_request : HttpRequest :=
  setBody (str "a=1") (setQuery (str "q=2") (setPath (str "/x")
    (setMethod POST (setHeader (str "Host") (str "h") (HttpRequest_new 17 false))))).

Definition demo_response : HttpResponse :=
  rsp_setBody (str "ok") (rsp_setHeader (str "Server") (str "s") (HttpResponse_new 17 true)).

Lemma demo_host_ok (k v : string) : str k <> [] ->
  forallb (fun c => negb ((c =? 58) || (c =? CR))) (str k) = true ->
  forallb (fun c => negb (c =? CR)) (str v) = true -> Forall field_ok [(str k, str v)].
Proof. intros. apply Forall_singleton. by apply field_ok_lit. Qed.

Lemma demo_request_ok : request_ok demo_request.
Proof.
  split; [done|]. split.
  { split; intros Hin; apply list_elem_of_In in Hin; vm_compute in Hin; intuition discriminate. }
  split; [done|]. split; [by apply (demo_host_ok "Host" "h")|done].
Qed.

Lemma request_dump_parses_witness :
  parse_message (HttpRequest_dump demo_request)
  = Some (str "POST", str "/x?q=2", str "HTTP/1.1",
          [(str "Connection", str "Keep-Alive"); (str "Host", str "h"); (str "Content-Length", str "3")],
          str "a=1").
Proof. apply (request_dump_parses demo_request). exact demo_request_ok. Defined.

Lemma response_dump_parses_witness :
  parse_message (HttpResponse_dump demo_response)
  = Some (str "HTTP/1.1", str "200", str "OK",
          [(str "Server", str "s"); (str "Connection", str "Close"); (str "Content-Length", str "2")],
          str "ok").
Proof.
  apply (response_dump_parses demo_response). split; [done|]. split; [apply not_elem_of_nil|].
  split; [by apply (demo_host_ok "Server" "s")|done].
Defined.

(** A [Content-Length] in the header map is written besides the one the body
    brings. *)
Lemma content_length_twice :
  parse_message (HttpResponse_dump (rsp_setHeader (str "content-length") (str "9") demo_response))
  = Some (str "HTTP/1.1", str "200", str "OK",
          [(str "content-length", str "9"); (str "Server", str "s"); (str "Connection", str "Close");
           (str "Content-Length", str "2")], str "ok").
Proof. by vm_compute. Qed.
