(* ===== verification/Stream.v ===== *)
(** * Streams ([src/src/stream.cc], [src/src/sockstream.cc])

    The abstract class [Stream] is the typeclass [Stream]: the virtual [read],
    [write] and [close] that its [readFixSize] and [writeFixSize] call.  A
    [SocketStream] implements it on top of a socket, the typeclass [Socket].
    [Peer] is a connected socket with the segments the other side has sent. *)
From S2P Require Import Prelude CString.

(** [src/include/http/stream.hh:20-117 Stream]
    [st_read n] is [read(buffer, n)]: the result and the bytes it stores. *)
Class Stream (S : Type) := {
  st_read : Z -> S -> (Z * bytes) * S;
  st_write : bytes -> S -> Z * S;
  st_close : S -> S
}.

(** [src/include/http/stream.hh:31-76 Stream::read]
    What [read] and [write] promise: a positive result is the number of bytes
    moved and does not exceed the length asked for. *)
Class StreamLaws (S : Type) `{Stream S} := {
  st_read_law : forall n s r bs s', st_read n s = ((r, bs), s') ->
    if 0 <? r then r = Z.of_nat (length bs) /\ r <= n else bs = [];
  st_write_law : forall bs s r s', st_write bs s = (r, s') -> r <= Z.of_nat (length bs)
}.

Section FixSize.
Context {S : Type} `{Stream S}.

(** [src/src/stream.cc:5-21 Stream::readFixSize]
    The loop; [buf] is the destination buffer.  [read_size] is a [size_t]. *)
Fixpoint read_fix_loop (fuel : nat) (len offset left : Z) (buf : bytes) : M S (Z * bytes) :=
  match fuel with
  | O => fail OutOfFuel
  | Datatypes.S fuel =>
      if left =? 0 then mret (s32 len, buf) else
      '(r, bs) ← (fun s => let '(x, s') := st_read len s in (Ok x, s'));
      let read_size := u64 r in
      if read_size <=? 0 then mret (s32 read_size, buf) else
      (if negb (Z.of_nat (length bs) =? 0) && (Z.of_nat (length buf) <? offset + Z.of_nat (length bs))
       then fail (Undef out_of_bounds) else mret ());;
      read_fix_loop fuel len (u64 (offset + read_size)) (u64 (left - read_size))
        (match bs with [] => buf | _ => splice (Z.to_nat offset) bs buf end)
  end.

(** [src/src/stream.cc:5-21 Stream::readFixSize] *)
Definition readFixSize (fuel : nat) (buf : bytes) (len : Z) : M S (Z * bytes) :=
  read_fix_loop fuel len 0 len buf.

(** [src/src/stream.cc:40-57 Stream::writeFixSize]
    The loop; [mem] is the memory from the buffer on. *)
Fixpoint write_fix_loop (fuel : nat) (len offset left : Z) (mem : bytes) : M S Z :=
  match fuel with
  | O => fail OutOfFuel
  | Datatypes.S fuel =>
      if left =? 0 then mret (s32 len) else
      if Z.of_nat (length mem) <? offset + len then fail (Undef out_of_bounds) else
      r ← (fun s => let '(x, s') := st_write (slice (Z.to_nat offset) (Z.to_nat len) mem) s in (Ok x, s'));
      let write_size := u64 r in
      if write_size <=? 0 then mret (s32 write_size) else
      write_fix_loop fuel len (u64 (offset + write_size)) (u64 (left - write_size)) mem
  end.

(** [src/src/stream.cc:40-57 Stream::writeFixSize] *)
Definition writeFixSize (fuel : nat) (mem : bytes) (len : Z) : M S Z :=
  write_fix_loop fuel len 0 len mem.

(** [src/src/stream.cc:23-37 Stream::readFixSize(ByteArray)]
    [step] is [read(ba, length)] or [write(ba, length)] on the stream and the
    byte array. *)
Fixpoint fix_loop_ba {B} (step : Z -> M (S * B) Z) (fuel : nat) (len left : Z) : M (S * B) Z :=
  match fuel with
  | O => fail OutOfFuel
  | Datatypes.S fuel =>
      if left =? 0 then mret (s32 len) else
      r ← step len;
      let size := u64 r in
      if size <=? 0 then mret (s32 size) else fix_loop_ba step fuel len (u64 (left - size))
  end.

(** [src/src/stream.cc:23-37 Stream::readFixSize(ByteArray)] *)
Definition readFixSize_ba {B} (read : Z -> M (S * B) Z) (fuel : nat) (len : Z) : M (S * B) Z :=
  fix_loop_ba read fuel len len.

(** [src/src/stream.cc:59-74 Stream::writeFixSize(ByteArray)] *)
Definition writeFixSize_ba {B} (write : Z -> M (S * B) Z) (fuel : nat) (len : Z) : M (S * B) Z :=
  fix_loop_ba write fuel len len.
End FixSize.

(** ** Socket streams *)

(** The operations of [Socket] that [SocketStream] uses. *)
Class Socket (K : Type) := {
  sk_isConnected : K -> bool;
  sk_recv : Z -> K -> (Z * bytes) * K;
  sk_send : bytes -> K -> Z * K;
  sk_close : K -> K
}.

Class SocketLaws (K : Type) `{Socket K} := {
  sk_recv_law : forall n k r bs k', sk_recv n k = ((r, bs), k') ->
    if 0 <? r then r = Z.of_nat (length bs) /\ r <= n else bs = [];
  sk_send_law : forall bs k r k', sk_send bs k = (r, k') -> r <= Z.of_nat (length bs)
}.

(** [src/include/http/socketstream.hh:89-92 SocketStream] *)
Record SocketStream (K : Type) := mkSS { m_socket : option K; m_owner : bool }.
Arguments mkSS {K} _ _.
Arguments m_socket {K} _.
Arguments m_owner {K} _.

Section SocketStreams.
Context {K : Type} `{Socket K}.

(** [src/src/sockstream.cc:7-10 SocketStream::SocketStream] *)
Definition SocketStream_new (sock : option K) (owner : bool) : SocketStream K := mkSS sock owner.

(** [src/src/sockstream.cc:71-74 SocketStream::isConnected] *)
Definition isConnected (s : SocketStream K) : bool :=
  match m_socket s with Some k => sk_isConnected k | None => false end.

(** [src/src/sockstream.cc:19-25 SocketStream::read] *)
Definition SocketStream_read (n : Z) (s : SocketStream K) : (Z * bytes) * SocketStream K :=
  if negb (isConnected s) then ((-1, []), s) else
  match m_socket s with
  | Some k => let '(x, k') := sk_recv n k in (x, mkSS (Some k') (m_owner s))
  | None => ((-1, []), s)
  end.

(** [src/src/sockstream.cc:41-47 SocketStream::write] *)
Definition SocketStream_write (bs : bytes) (s : SocketStream K) : Z * SocketStream K :=
  if negb (isConnected s) then (-1, s) else
  match m_socket s with
  | Some k => let '(x, k') := sk_send bs k in (x, mkSS (Some k') (m_owner s))
  | None => (-1, s)
  end.

(** [src/src/sockstream.cc:63-68 SocketStream::close] *)
Definition SocketStream_close (s : SocketStream K) : SocketStream K :=
  mkSS (match m_socket s with Some k => Some (sk_close k) | None => None end) (m_owner s).

(** [src/src/sockstream.cc:12-17 SocketStream::~SocketStream]
    The socket as the destructor leaves it. *)
Definition SocketStream_dtor (s : SocketStream K) : option K :=
  match m_socket s with Some k => Some (if m_owner s then sk_close k else k) | None => None end.

#[export] Instance SocketStream_Stream : Stream (SocketStream K) := {
  st_read := SocketStream_read;
  st_write := SocketStream_write;
  st_close := SocketStream_close
}.

#[export] Instance SocketStream_Laws `{!SocketLaws K} : StreamLaws (SocketStream K).
Proof.
  split; cbn.
  - intros n s r bs s'. unfold SocketStream_read. destruct (isConnected s); cbn; [|by intros [= <- <- <-]].
    destruct (m_socket s) as [k|]; [|by intros [= <- <- <-]].
    destruct (sk_recv n k) as [[r0 bs0] k'] eqn:E. intros [= <- <- <-]. by eapply sk_recv_law.
  - intros bs s r s'. unfold SocketStream_write. destruct (isConnected s); cbn; [|intros [= <- <-]; lia].
    destruct (m_socket s) as [k|]; [|intros [= <- <-]; lia].
    destruct (sk_send bs k) as [r0 k'] eqn:E. intros [= <- <-]. by eapply sk_send_law.
Qed.
End SocketStreams.

(** ** A connected peer

    The segments the other side sent, received one at a time; a segment longer
    than the buffer is received in parts; after the last one the connection is
    at its end ([recv] returns 0).  What is sent is collected. *)

Record Peer := mkPeer { p_open : bool; p_incoming : list bytes; p_outgoing : bytes }.

#[export] Instance Peer_Socket : Socket Peer := {
  sk_isConnected := p_open;
  sk_recv n p :=
    match p_incoming p with
    | [] => ((0, []), p)
    | c :: cs =>
        if Z.of_nat (length c) <=? n
        then ((Z.of_nat (length c), c), mkPeer (p_open p) cs (p_outgoing p))
        else ((Z.max 0 n, take (Z.to_nat n) c),
              mkPeer (p_open p) (drop (Z.to_nat n) c :: cs) (p_outgoing p))
    end;
  sk_send bs p := (Z.of_nat (length bs), mkPeer (p_open p) (p_incoming p) (p_outgoing p ++ bs));
  sk_close p := mkPeer false (p_incoming p) (p_outgoing p)
}.

#[export] Instance Peer_Laws : SocketLaws Peer.
Proof.
  split; cbn.
  - intros n [o [|c cs] out] r bs k'; cbn; [by intros [= <- <- <-]|].
    destruct (Z.leb_spec (Z.of_nat (length c)) n).
    + intros [= <- <- <-]. destruct (Z.ltb_spec 0 (Z.of_nat (length c))); [lia|].
      destruct c; [done|cbn in *; lia].
    + intros [= <- <- <-]. destruct (Z.ltb_spec 0 (Z.max 0 n)).
      * rewrite length_take. lia.
      * by replace (Z.to_nat n) with 0%nat by lia.
  - intros bs p r k' [= <- <-]. lia.
Qed.

Definition peer_stream (cs : list bytes) : SocketStream Peer := mkSS (Some (mkPeer true cs [])) true.

(** A stream whose peer has [cs] left to receive and has been sent [out]. *)
Definition peer_with (cs : list bytes) (out : bytes) : SocketStream Peer :=
  mkSS (Some (mkPeer true cs out)) true.

Lemma peer_read c cs out n : c <> [] -> Z.of_nat (length c) <= n ->
  st_read n (peer_with (c :: cs) out) = ((Z.of_nat (length c), c), peer_with cs out).
Proof.
  intros Hc Hn. cbn. unfold SocketStream_read. cbn.
  by rewrite (proj2 (Z.leb_le _ _)) by lia.
Qed.

(** ** Reading and writing a fixed size *)

(** The loop over segments that end exactly where the request does. *)
Lemma read_fix_loop_ok cs : forall rest out fuel len offset buf,
  Forall (fun c => c <> []) cs ->
  let n := Z.of_nat (length (concat cs)) in
  0 <= offset -> n <= len -> 0 <= len < 2 ^ 31 -> offset + n <= Z.of_nat (length buf) < 2 ^ 31 ->
  (length cs < fuel)%nat ->
  read_fix_loop fuel len offset n buf (peer_with (cs ++ rest) out)
  = (Ok (len, splice (Z.to_nat offset) (concat cs) buf), peer_with rest out).
Proof.
  induction cs as [|c cs IH]; intros rest out fuel len offset buf Hne n Ho Hn Hl Hb Hf.
  - destruct fuel as [|fuel]; [cbn in Hf; lia|]. cbn. mstep. by rewrite s32_small, splice_nil by lia.
  - destruct fuel as [|fuel]; [cbn in Hf; lia|].
    inversion_clear Hne as [|? ? Hc Hne']. cbn [concat] in *.
    assert (length (c ++ concat cs) = length c + length (concat cs))%nat as Hlen by apply length_app.
    assert (0 < length c)%nat by (destruct c; [done|cbn; lia]).
    cbn [read_fix_loop app]. mstep.
    rewrite (proj2 (Z.eqb_neq n 0)) by lia.
    rewrite peer_read by (done || lia).
    rewrite (u64_small (Z.of_nat (length c))) by lia.
    rewrite (proj2 (Z.leb_gt _ _)) by lia.
    rewrite (proj2 (Z.ltb_ge (Z.of_nat (length buf)) _)) by lia. rewrite andb_false_r.
    rewrite !u64_small by lia. replace (n - Z.of_nat (length c)) with (Z.of_nat (length (concat cs))) by lia.
    destruct c as [|b c]; [done|]. set (c0 := b :: c) in *.
    rewrite IH; try done; try lia.
    + f_equal. f_equal. f_equal. rewrite Z2Nat.inj_add, Nat2Z.id by lia. apply splice_splice. lia.
    + rewrite length_splice by lia. lia.
    + cbn in Hf. lia.
Qed.

Section Fix.
Implicit Types (buf out : bytes) (cs rest : list bytes).

Lemma readFixSize_ok cs rest out buf fuel :
  let len := Z.of_nat (length buf) in
  Forall (fun c => c <> []) cs -> length (concat cs) = length buf -> len < 2 ^ 31 ->
  (length cs < fuel)%nat ->
  readFixSize fuel buf len (peer_with (cs ++ rest) out) = (Ok (len, concat cs), peer_with rest out).
Proof.
  intros len Hne Hlen H31 Hf. unfold readFixSize.
  pose proof (read_fix_loop_ok cs rest out fuel len 0 buf Hne) as IH. cbn zeta in IH.
  rewrite Hlen in IH. fold len in IH. rewrite IH by (done || lia).
  by rewrite splice_all.
Qed.

(** ReadFixSize fills the buffer with the bytes the peer sends, however they
    are segmented, when a segment ends where the buffer does or the first
    segment holds everything asked for; what follows stays in the stream. *)
Theorem readFixSize_exact cs rest out buf fuel :
  let len := Z.of_nat (length buf) in
  Forall (fun c => c <> []) cs -> length (concat cs) = length buf -> len < 2 ^ 31 ->
  (length cs < fuel)%nat ->
  readFixSize fuel buf len (peer_with (cs ++ rest) out) = (Ok (len, concat cs), peer_with rest out).
Proof. apply readFixSize_ok. Qed.

(** Each round of readFixSize asks for the whole length again: when the
    first segment is short and the peer has sent more than the rest, the second
    read writes past the end of the buffer. *)
Theorem readFixSize_overflows c1 c2 rest out buf fuel :
  let len := Z.of_nat (length buf) in
  c1 <> [] -> (length c1 < length buf)%nat -> (length buf < length c1 + length c2)%nat ->
  len < 2 ^ 31 ->
  fst (readFixSize (S (S fuel)) buf len (peer_with (c1 :: c2 :: rest) out)) = Err (Undef out_of_bounds).
Proof.
  intros len H1 Hl1 Hl2 H31. assert (0 < length c1)%nat by (destruct c1; [done|cbn; lia]).
  unfold readFixSize. cbn [read_fix_loop]. mstep.
  rewrite (proj2 (Z.eqb_neq len 0)) by lia. rewrite peer_read by (done || lia).
  rewrite (u64_small (Z.of_nat (length c1))) by lia. rewrite (proj2 (Z.leb_gt _ _)) by lia.
  rewrite (proj2 (Z.ltb_ge len _)) by lia. rewrite andb_false_r, !u64_small by lia.
  rewrite (proj2 (Z.eqb_neq (len - Z.of_nat (length c1)) 0)) by lia.
  destruct c1 as [|b1 c1]; [done|].
  assert (forall bs : bytes, (length buf < length (b1 :: c1) + length bs)%nat ->
    negb (Z.of_nat (length bs) =? 0)
    && (Z.of_nat (length (splice (Z.to_nat 0) (b1 :: c1) buf))
        <? 0 + Z.of_nat (length (b1 :: c1)) + Z.of_nat (length bs)) = true) as Hover.
  { intros bs Hbs. rewrite length_splice by lia. fold len.
    rewrite (proj2 (Z.ltb_lt _ _)) by lia. by rewrite (proj2 (Z.eqb_neq _ 0)) by lia. }
  cbn [st_read SocketStream_Stream SocketStream_read]. unfold SocketStream_read. cbn -[splice Z.of_nat u64].
  destruct (Z.leb_spec (Z.of_nat (length c2)) len); cbn -[splice Z.of_nat u64].
  - rewrite u64_small, (proj2 (Z.leb_gt _ _)) by lia. by rewrite Hover by lia.
  - rewrite u64_small, (proj2 (Z.leb_gt _ _)) by lia.
    rewrite Hover; [done|]. rewrite length_take. lia.
Qed.

(** On a stream whose reads fail with -1, readFixSize does not report the
    error: converted to size_t the result counts as progress, and the loop goes
    on for all the 2^64 - length rounds of its counter. *)
Theorem readFixSize_never_reports (T : Type) `{Stream T} (s : T) buf fuel :
  let len := Z.of_nat (length buf) in
  st_read len s = ((-1, []), s) -> 0 < len < 2 ^ 31 -> Z.of_nat fuel <= 2 ^ 64 - len ->
  readFixSize fuel buf len s = (Err OutOfFuel, s).
Proof.
  intros len Hrd Hl Hf. unfold readFixSize.
  assert (forall fuel offset left, 0 < left -> left + Z.of_nat fuel <= 2 ^ 64 ->
    read_fix_loop fuel len offset left buf s = (Err OutOfFuel, s)) as Hloop; [|apply Hloop; lia].
  clear Hf. clear fuel. intros fuel.
  induction fuel as [|fuel IH]; intros offset left Hp Hle; [done|].
  cbn [read_fix_loop]. mstep. rewrite (proj2 (Z.eqb_neq left 0)), Hrd by lia.
  change (u64 (-1)) with (2 ^ 64 - 1).
  cbn [length Z.of_nat Z.eqb negb andb]. cbn.
  destruct (Nat.eq_dec fuel 0) as [->|Hf0]; [done|].
  apply IH; unfold u64;
    replace (left - (2 ^ 64 - 1)) with ((left + 1) + (-1) * 2 ^ 64) by lia;
    rewrite Z.mod_add by lia; rewrite Z.mod_small; lia.
Qed.

(** When [write] reports an error, writeFixSize does not: the result -1 is kept in
    a [size_t], so the next round writes from one byte before the buffer. *)
Theorem writeFixSize_error_undefined (T : Type) `{Stream T} (s s' : T) mem len fuel :
  st_write (slice 0 (Z.to_nat len) mem) s = (-1, s') -> 0 < len < 2 ^ 31 ->
  len <= Z.of_nat (length mem) < 2 ^ 64 -> (1 < fuel)%nat ->
  writeFixSize fuel mem len s = (Err (Undef out_of_bounds), s').
Proof.
  intros Hw Hl Hm Hf. destruct fuel as [|[|fuel]]; [lia..|].
  unfold writeFixSize. cbn [write_fix_loop]. mstep.
  rewrite (proj2 (Z.eqb_neq len 0)), (proj2 (Z.ltb_ge _ _)) by lia. change (Z.to_nat 0) with 0%nat.
  rewrite Hw. change (u64 (-1)) with (2 ^ 64 - 1). rewrite (proj2 (Z.leb_gt _ _)) by lia.
  replace (u64 (len - (2 ^ 64 - 1))) with (len + 1)
    by (unfold u64; replace (len - (2 ^ 64 - 1)) with ((len + 1) + (-1) * 2 ^ 64) by lia;
        rewrite Z.mod_add, Z.mod_small by lia; lia).
  rewrite (proj2 (Z.eqb_neq _ 0)) by lia. change (u64 (0 + (2 ^ 64 - 1))) with (2 ^ 64 - 1).
  by rewrite (proj2 (Z.ltb_lt _ _)) by lia.
Qed.

(** All that writeFixSize can return. *)
Lemma writeFixSize_result (T : Type) `{Stream T} fuel mem len (s s' : T) r : 0 <= len < 2 ^ 31 ->
  writeFixSize fuel mem len s = (Ok r, s') -> r = len \/ r = 0.
Proof.
  intros Hl. unfold writeFixSize. generalize 0 at 1 as offset. generalize len at 2 as left. intros left offset.
  revert left offset s. induction fuel as [|fuel IH]; intros left offset s; [done|].
  cbn [write_fix_loop]. destruct (left =? 0); [mstep; intros [= <- <-]; left; by apply s32_small|].
  destruct (_ <? _); [done|]. mstep. destruct (st_write _ s) as [w s1].
  destruct (Z.leb_spec (u64 w) 0); [|apply IH].
  pose proof (u64_range w). replace (u64 w) with 0 by lia. intros [= <- <-]. by right.
Qed.

Lemma writeFixSize_ok data more cs out fuel :
  let len := Z.of_nat (length data) in
  0 < len < 2 ^ 31 -> (1 < fuel)%nat ->
  writeFixSize fuel (data ++ more) len (peer_with cs out) = (Ok len, peer_with cs (out ++ data)).
Proof.
  intros len Hl Hf. destruct fuel as [|[|fuel]]; [lia..|].
  unfold writeFixSize. cbn [write_fix_loop]. mstep.
  rewrite (proj2 (Z.eqb_neq len 0)), (proj2 (Z.ltb_ge _ _)) by (rewrite ?length_app; lia).
  cbn [st_write SocketStream_Stream]. unfold SocketStream_write. cbn -[u64 s32 Z.of_nat slice app].
  assert (slice (Z.to_nat 0) (Z.to_nat len) (data ++ more) = data) as ->.
  { unfold slice, len. rewrite Nat2Z.id. apply take_app_length. }
  fold len. rewrite (u64_small len), (proj2 (Z.leb_gt _ _)) by lia.
  rewrite Z.sub_diag. change (u64 0) with 0. cbn -[u64 s32].
  rewrite s32_small by lia. done.
Qed.

(** On a socket that accepts everything, writeFixSize sends exactly the
    given part of the memory, once, and returns its length. *)
Theorem writeFixSize_sends data more cs out fuel :
  let len := Z.of_nat (length data) in
  0 < len < 2 ^ 31 -> (1 < fuel)%nat ->
  writeFixSize fuel (data ++ more) len (peer_with cs out) = (Ok len, peer_with cs (out ++ data)).
Proof. apply writeFixSize_ok. Qed.
End Fix.

Lemma readFixSize_exact_witness :
  readFixSize 3 [0; 0; 0] 3 (peer_with [[1]; [2; 3]; [4]] []) = (Ok (3, [1; 2; 3]), peer_with [[4]] []).
Proof.
  apply (readFixSize_exact [[1]; [2; 3]] [[4]] [] [0; 0; 0] 3);
    [repeat constructor; discriminate|reflexivity|cbn; lia|cbn; lia].
Defined.

Lemma readFixSize_overflows_witness :
  fst (readFixSize 2 [0; 0; 0] 3 (peer_with [[1]; [2; 3; 4]] [])) = Err (Undef out_of_bounds).
Proof.
  apply (readFixSize_overflows [1] [2; 3; 4] [] [] [0; 0; 0] 0);
    [discriminate|cbn; lia|cbn; lia|cbn; lia].
Defined.

(** A stream without a socket. *)
Definition no_socket : SocketStream Peer := mkSS None true.

Lemma readFixSize_never_reports_witness :
  readFixSize 100 [0; 0; 0] 3 no_socket = (Err OutOfFuel, no_socket).
Proof.
  apply (readFixSize_never_reports (SocketStream Peer) no_socket [0; 0; 0] 100); [reflexivity|cbn; lia|cbn; lia].
Defined.

Lemma writeFixSize_sends_witness :
  writeFixSize 2 ([1; 2] ++ [0]) 2 (peer_with [] [9]) = (Ok 2, peer_with [] [9; 1; 2]).
Proof. apply (writeFixSize_sends [1; 2] [0] [] [9] 2); [cbn; lia|lia]. Defined.

(** A socket on which [send] fails. *)
Record Broken := mkBroken { b_open : bool }.

#[export] Instance Broken_Socket : Socket Broken := {
  sk_isConnected := b_open;
  sk_recv _ k := ((-1, []), k);
  sk_send _ k := (-1, k);
  sk_close _ := mkBroken false
}.

Lemma writeFixSize_error_undefined_witness :
  writeFixSize 2 [1; 2; 0] 2 (mkSS (Some (mkBroken true)) true)
  = (Err (Undef out_of_bounds), mkSS (Some (mkBroken true)) true).
Proof.
  apply (writeFixSize_error_undefined (SocketStream Broken)); [reflexivity|lia|cbn; lia|lia].
Defined.
