(* ===== verification/BufferStream.v ===== *)
(** * Socket streams on byte arrays ([src/src/sockstream.cc], [src/src/stream.cc])

    [SocketStream::read] and [write] on a [ByteArray]: the buffer lends its blocks
    as [iovec]s, [recvmsg] fills them in order or [sendmsg] gathers them, and the
    position moves by what was transferred.  The theorems say that this is writing
    to and reading from the flat buffer, and that a buffer sent with
    [writeFixSize] arrives in the buffer that receives it with [readFixSize]. *)
From S2P Require Import Prelude Endian Varint ByteArray ByteArraySpec ByteArrayIO CString Stream.

(** ** Vectored I/O *)

Definition iov_total (l : list iovec) : Z := foldr (fun v n => iov_len v + n) 0 l.

(** What [recvmsg] does with the bytes it received: it fills the ranges in order. *)
Fixpoint scatter (bs : bytes) (l : list iovec) (ns : list Node) : list Node :=
  match l with
  | [] => ns
  | v :: l =>
      let n := Z.to_nat (iov_len v) in
      scatter (drop n bs) l
        (alter (fun nd => {| Node_ptr := splice (Z.to_nat (iov_off v)) (take n bs) (Node_ptr nd);
                             Node_size := Node_size nd |}) (iov_node v) ns)
  end.

Section Transfers.
Context `{Platform} {K : Type} `{Socket K}.

Definition on_ba {T} (m : M ByteArray T) : M (SocketStream K * ByteArray) T :=
  fun '(s, ba) => let '(r, ba') := m ba in (r, (s, ba')).
Definition on_stream {T} (f : SocketStream K -> T * SocketStream K) : M (SocketStream K * ByteArray) T :=
  fun '(s, ba) => let '(x, s') := f s in (Ok x, (s', ba)).

(** [&iovs[0]] of an empty vector is not defined. *)
Definition iovs_data (iovs : list iovec) : M (SocketStream K * ByteArray) unit :=
  match iovs with [] => fail (Undef out_of_bounds) | _ => mret () end.

(** [src/src/sockstream.cc:27-39 SocketStream::read(ByteArray)] *)
Definition SocketStream_read_ba (length : Z) : M (SocketStream K * ByteArray) Z :=
  st ← get;
  if negb (isConnected st.1) then mret (-1) else
  '(iovs, _) ← on_ba (getWriteBuffers length);
  iovs_data iovs;;
  '(read_size, bs) ← on_stream (SocketStream_read (iov_total iovs));
  on_ba (modify (fun ba => set_nodes (scatter bs iovs (m_nodes ba)) ba));;
  (if read_size >? 0 then on_ba (ba ← get; setPosition (u64 (m_position ba + read_size))) else mret ());;
  mret read_size.

(** [src/src/sockstream.cc:49-61 SocketStream::write(ByteArray)] *)
Definition SocketStream_write_ba (length : Z) : M (SocketStream K * ByteArray) Z :=
  st ← get;
  if negb (isConnected st.1) then mret (-1) else
  '(iovs, _) ← on_ba (fun ba => (getReadBuffers ba length, ba));
  iovs_data iovs;;
  write_size ← on_stream (SocketStream_write (iov_bytes (m_nodes st.2) iovs));
  (if write_size >? 0 then on_ba (ba ← get; setPosition (u64 (m_position ba + write_size))) else mret ());;
  mret write_size.
End Transfers.

(** ** Scattering a covered range is writing it *)

Lemma iov_covers_total b l start len : iov_covers b start len l -> iov_total l = len.
Proof.
  revert start len. induction l as [|v l IH]; intros start len; cbn [iov_covers iov_total foldr]; [done|].
  intros (_ & _ & _ & _ & Hc%IH). unfold iov_total in Hc. rewrite Hc. lia.
Qed.

Lemma alter_as_insert {A} (f : A -> A) (l : list A) (i : nat) x : l !! i = Some x -> alter f i l = <[i := f x]> l.
Proof.
  revert i. induction l as [|y l IH]; intros [|i] Hi; try done; cbn in *.
  - by injection Hi as ->.
  - f_equal. by apply IH.
Qed.

Lemma scatter_spec b ns l start len bs :
  0 < b -> Forall (node_ok b) ns -> 0 <= start -> start + len <= b * Z.of_nat (length ns) ->
  iov_covers b start len l -> Forall is_byte bs -> Z.of_nat (length bs) <= len ->
  Forall (node_ok b) (scatter bs l ns) /\ length (scatter bs l ns) = length ns
  /\ chain (scatter bs l ns) = splice (Z.to_nat start) bs (chain ns).
Proof.
  intros Hb. revert start len bs ns. induction l as [|v l IH]; intros start len bs ns Hns Hs Hfit Hc Hbs Hl;
    cbn [iov_covers scatter] in *.
  { destruct bs; [by rewrite splice_nil|cbn in Hl; lia]. }
  destruct Hc as (H1 & H2 & H3 & H4 & Hc). pose proof (iov_covers_nonneg _ _ _ _ Hc) as Hle.
  destruct (node_at_ok b ns (iov_node v) Hns ltac:(nia)) as (n & Hni & _ & _).
  set (k := Z.to_nat (iov_len v)). set (f := fun nd : Node => _).
  rewrite (alter_as_insert f ns (iov_node v) n Hni).
  destruct (chain_splice b ns (iov_node v) n (iov_off v) (take k bs) Hns Hni) as [Hns' Hch];
    [by apply Forall_take|done|rewrite length_take; lia|].
  change {| Node_ptr := _; Node_size := _ |} with (f n) in Hns', Hch.
  destruct (IH (start + iov_len v) (len - iov_len v) (drop k bs) (<[iov_node v := f n]> ns)) as (G1 & G2 & G3);
    [done|lia|rewrite length_insert; lia|done|by apply Forall_drop|rewrite length_drop; lia|].
  rewrite length_insert in G2. split; [done|]. split; [done|].
  rewrite G3, Hch. replace (iov_node v * Z.to_nat b + Z.to_nat (iov_off v))%nat with (Z.to_nat start) by nia.
  pose proof (length_chain b ns Hns) as Hlc.
  destruct (decide (k <= length bs)%nat) as [Hk|Hk].
  - assert (length (take k bs) = k) as Ht by (rewrite length_take; lia).
    replace (Z.to_nat (start + iov_len v)) with (Z.to_nat start + length (take k bs))%nat by lia.
    rewrite splice_splice by (rewrite length_drop; nia). by rewrite take_drop.
  - rewrite take_ge, drop_ge by lia. by rewrite splice_nil.
Qed.

(** Bytes put into the ranges after the position, and then the position moved
    behind them: the flat buffer's write. *)
Lemma filled_spec `{Platform} s l len bs :
  wf s -> iov_covers (m_baseSize s) (m_position s) len l -> m_position s + len <= m_capacity s ->
  Forall is_byte bs -> Z.of_nat (length bs) <= len ->
  let s2 := set_nodes (scatter bs l (m_nodes s)) s in
  wf s2 /\ exists s3, setPosition (m_position s + Z.of_nat (length bs)) s2 = (Ok tt, s3) /\ wf s3
    /\ abs s3 = flat_write bs (abs s) /\ m_position s3 = m_position s + Z.of_nat (length bs)
    /\ m_baseSize s3 = m_baseSize s /\ m_endian s3 = m_endian s.
Proof.
  intros Hwf Hcov Hfit Hbs Hle s2. pose proof Hwf as [Hb Hns Hne Hcap Hc64 Hpos Hsz Hcur].
  destruct (scatter_spec _ _ _ _ len bs Hb Hns (proj1 Hpos) ltac:(lia) Hcov Hbs Hle) as (Hn2 & Hl2 & Hch).
  assert (wf s2) as Hwf2 by (constructor; cbn; rewrite ?Hl2; done || lia).
  split; [done|]. destruct (setPosition_spec (m_position s + Z.of_nat (length bs)) s2 Hwf2) as
    (s3 & Hrun & Hwf3 & Hp3 & Hs3 & Hn3 & He3 & Hb3 & _); [cbn; lia|].
  exists s3. split_and!; try done. unfold abs, flat_write. cbn [f_pos f_data]. rewrite Hp3, Hs3, Hn3.
  cbn [s2 set_nodes m_nodes m_size]. rewrite Hch. pose proof (length_chain _ _ Hns) as Hlc. f_equal; [|lia].
  rewrite <-take_splice by nia. f_equal. lia.
Qed.

(** ** One transfer *)

Section Spec.
Context `{Platform} {K : Type} `{SocketLaws K}.
Implicit Types (st : SocketStream K) (ba : ByteArray).

Lemma read_ba_run st ba len r bs st' :
  wf ba -> 0 < len -> room len ba -> isConnected st = true ->
  SocketStream_read len st = ((r, bs), st') -> Forall is_byte bs ->
  exists ba', SocketStream_read_ba len (st, ba) = (Ok r, (st', ba')) /\ wf ba' /\ abs ba' = flat_write bs (abs ba)
  /\ m_position ba' = m_position ba + Z.of_nat (length bs) /\ m_baseSize ba' = m_baseSize ba
  /\ m_endian ba' = m_endian ba.
Proof.
  intros Hwf Hlen Hroom Hconn Hrecv Hbs. unfold SocketStream_read_ba.
  destruct (write_buffers_spec ba len Hwf ltac:(lia) Hroom)
    as (l & s1 & Hrun & Hwf1 & Habs & Hfit & Hcov & Hp & Hs & Hb & He).
  unfold mbind, M_bind, get, on_ba, on_stream, modify. cbn [fst snd]. rewrite Hconn. cbn [negb]. rewrite Hrun.
  destruct l as [|v l]; [cbn in Hcov; lia|]. cbn [iovs_data mret M_ret]. unfold mret, M_ret.
  rewrite (iov_covers_total _ _ _ _ Hcov), Hrecv.
  assert (if 0 <? r then r = Z.of_nat (length bs) /\ r <= len else bs = []) as Hlaw.
  { exact (st_read_law (S := SocketStream K) len st r bs st' Hrecv). }
  assert (Z.of_nat (length bs) <= len) as Hle.
  { destruct (0 <? r); [lia|]. subst bs. cbn. lia. }
  destruct (filled_spec s1 (v :: l) len bs) as (Hwf2 & Hadv); [done|by rewrite Hb, Hp|by rewrite Hp|done..|].
  set (s2 := set_nodes _ s1) in *. rewrite Z.gtb_ltb. destruct (Z.ltb_spec 0 r) as [Hr|Hr].
  - destruct Hlaw as [Hrl _]. subst r.
    assert (u64 (m_position s2 + Z.of_nat (length bs)) = m_position s1 + Z.of_nat (length bs)) as ->.
    { pose proof (wf_cap64 s1 Hwf1). pose proof (wf_pos s1 Hwf1). apply u64_small. cbn. lia. }
    destruct Hadv as (s3 & -> & Hwf3 & H3). exists s3. rewrite <-Habs, <-Hp, <-Hb, <-He. done.
  - subst bs. exists s2. rewrite <-Habs, <-Hp, <-Hb, <-He. split; [done|]. split; [done|].
    split; [|cbn; split_and!; done || lia]. unfold flat_write. cbn [length]. rewrite splice_nil, Nat.add_0_r.
    unfold abs at 1. cbn [m_size m_nodes s2 set_nodes m_position].
    destruct (scatter_spec (m_baseSize s1) (m_nodes s1) (v :: l) (m_position ba) len []) as (_ & _ & ->);
      [apply Hwf1|apply Hwf1|pose proof (wf_pos ba Hwf); lia|rewrite <-(wf_cap s1 Hwf1); lia|by rewrite Hb|done|cbn; lia|].
    by rewrite splice_nil.
Qed.

Lemma write_ba_run st ba len r st' :
  wf ba -> 0 < len -> m_position ba < m_size ba -> isConnected st = true ->
  let n := Z.min len (m_size ba - m_position ba) in
  SocketStream_write (slice (f_pos (abs ba)) (Z.to_nat n) (f_data (abs ba))) st = (r, st') ->
  exists ba', SocketStream_write_ba len (st, ba) = (Ok r, (st', ba')) /\ wf ba' /\ r <= n
  /\ abs ba' = Flat (f_data (abs ba)) (f_pos (abs ba) + Z.to_nat r)
  /\ m_position ba' = m_position ba + Z.max 0 r /\ m_size ba' = m_size ba.
Proof.
  intros Hwf Hlen Hdata Hconn n Hsend. unfold SocketStream_write_ba.
  destruct (read_buffers_spec ba len Hwf ltac:(lia)) as (l & n' & Hrun & -> & Hcov & Hbytes). fold n in Hrun, Hcov, Hbytes.
  unfold mbind, M_bind, get, on_ba, on_stream. cbn [fst snd]. rewrite Hconn. cbn [negb]. rewrite Hrun.
  destruct l as [|v l]; [cbn in Hcov; lia|]. cbn [iovs_data]. unfold mret, M_ret. rewrite Hbytes.
  change (Z.to_nat (m_position ba)) with (f_pos (abs ba)). rewrite Hsend.
  pose proof (length_abs ba Hwf) as Hla. pose proof (wf_pos ba Hwf) as Hpos. pose proof (wf_size ba Hwf) as Hsz.
  assert (r <= n) as Hr.
  { pose proof (st_write_law (S := SocketStream K) _ _ _ _ Hsend) as Hw.
    rewrite length_slice in Hw by (cbn -[abs] in *; change (f_pos (abs ba)) with (Z.to_nat (m_position ba)); lia). lia. }
  rewrite Z.gtb_ltb. destruct (Z.ltb_spec 0 r).
  - pose proof (wf_cap64 ba Hwf). rewrite u64_small by lia.
    destruct (seek_refines (m_position ba + r) ba Hwf ltac:(lia)) as (ba' & -> & Hwf' & Habs & He & Hb & Hs).
    exists ba'. split; [done|]. split; [done|]. split; [done|]. rewrite Habs. split; [f_equal; cbn; lia|].
    apply (f_equal f_pos) in Habs. cbn in Habs. pose proof (wf_pos ba' Hwf'). lia.
  - exists ba. split; [done|]. split; [done|]. split; [done|]. split; [|lia].
    replace (Z.to_nat r) with 0%nat by lia. by rewrite Nat.add_0_r.
Qed.

(** Reading from a socket into a byte array is writing the received bytes to the
    flat buffer at its position, and writing from one offers the socket the next
    unread bytes and skips those it takes; for every socket and buffer, whatever the
    blocks, also when the call fails. *)
Theorem buffer_transfers st ba len :
  wf ba -> 0 < len -> room len ba -> isConnected st = true ->
  (forall r bs st', SocketStream_read len st = ((r, bs), st') -> Forall is_byte bs ->
   exists ba', SocketStream_read_ba len (st, ba) = (Ok r, (st', ba')) /\ wf ba' /\ abs ba' = flat_write bs (abs ba))
  /\ (m_position ba < m_size ba -> forall r st',
   SocketStream_write (slice (f_pos (abs ba)) (Z.to_nat (Z.min len (m_size ba - m_position ba))) (f_data (abs ba))) st = (r, st') ->
   exists ba', SocketStream_write_ba len (st, ba) = (Ok r, (st', ba')) /\ wf ba'
   /\ abs ba' = Flat (f_data (abs ba)) (f_pos (abs ba) + Z.to_nat r)).
Proof.
  intros Hwf Hlen Hroom Hconn. split.
  - intros r bs st' Hrecv Hbs.
    destruct (read_ba_run st ba len r bs st') as (ba' & ? & ? & ? & _); [done..|]. by exists ba'.
  - intros Hdata r st' Hsend.
    destruct (write_ba_run st ba len r st') as (ba' & ? & ? & _ & ? & _); [done..|]. by exists ba'.
Qed.

(** Sending a buffer with nothing left to read takes the address of the first of no
    [iovec]s. *)
Lemma write_nothing_undefined st ba len : wf ba -> 0 < len -> m_position ba = m_size ba -> isConnected st = true ->
  SocketStream_write_ba len (st, ba) = (Err (Undef out_of_bounds), (st, ba)).
Proof.
  intros Hwf Hlen Hend Hconn. unfold SocketStream_write_ba, mbind, M_bind, get, on_ba. cbn [fst snd]. rewrite Hconn. cbn [negb].
  unfold getReadBuffers. rewrite getSizeForRead_eq, Hend, Z.sub_diag by done.
  rewrite (proj2 (Z.gtb_lt len 0)) by lia. done.
Qed.
End Spec.

(** ** Fixed sizes between two buffers *)

Section Fixed.
Context `{Platform}.

Lemma peer_recv c cs out n : c <> [] -> Z.of_nat (length c) <= n ->
  SocketStream_read n (peer_with (c :: cs) out) = ((Z.of_nat (length c), c), peer_with cs out).
Proof. apply peer_read. Qed.

Lemma fix_read_ok cs : forall rest out fuel len ba,
  Forall (fun c => c <> []) cs -> Forall is_byte (concat cs) ->
  let n := Z.of_nat (length (concat cs)) in
  wf ba -> m_position ba + n + len + m_baseSize ba < 2 ^ 64 -> n <= len -> 0 < len < 2 ^ 31 -> (length cs < fuel)%nat ->
  exists ba', fix_loop_ba SocketStream_read_ba fuel len n (peer_with (cs ++ rest) out, ba) = (Ok len, (peer_with rest out, ba'))
  /\ wf ba' /\ abs ba' = flat_write (concat cs) (abs ba).
Proof.
  induction cs as [|c cs IH]; intros rest out fuel len ba Hne Hby n Hwf Hroom Hn Hl Hf;
    (destruct fuel as [|fuel]; [cbn in Hf; lia|]); cbn [fix_loop_ba].
  - exists ba. cbn. rewrite s32_small by lia. split; [done|]. split; [done|].
    unfold flat_write. destruct (abs ba). cbn. by rewrite splice_nil, Nat.add_0_r.
  - apply Forall_cons in Hne as [Hc Hne]. cbn [concat] in *. apply Forall_app in Hby as [Hbc Hby].
    assert (n = Z.of_nat (length c) + Z.of_nat (length (concat cs))) as Hnl by (unfold n; rewrite length_app; lia).
    assert (0 < Z.of_nat (length c)) by (destruct c; [done|cbn; lia]).
    rewrite (proj2 (Z.eqb_neq n 0)) by lia.
    destruct (read_ba_run (peer_with (c :: cs ++ rest) out) ba len (Z.of_nat (length c)) c (peer_with (cs ++ rest) out))
      as (ba1 & Hrun & Hwf1 & Habs & Hp & Hb & _); [done|lia|unfold room; lia|done|apply peer_recv; done || lia|done|].
    unfold mbind, M_bind. cbn [app]. rewrite Hrun. rewrite (u64_small (Z.of_nat (length c))) by lia.
    rewrite (proj2 (Z.leb_gt _ _)), u64_small by lia.
    replace (n - Z.of_nat (length c)) with (Z.of_nat (length (concat cs))) by lia.
    destruct (IH rest out fuel len ba1) as (ba' & Hrun' & Hwf' & Habs'); [done|done|done|rewrite Hp, Hb; lia|lia|lia|cbn in Hf; lia|].
    exists ba'. split; [done|]. split; [done|]. rewrite Habs', Habs. apply flat_write_app. by apply abs_pos.
Qed.

Lemma fix_write_ok ba len cs out fuel :
  wf ba -> 0 < len < 2 ^ 31 -> m_position ba + len <= m_size ba -> (1 < fuel)%nat ->
  let data := slice (f_pos (abs ba)) (Z.to_nat len) (f_data (abs ba)) in
  exists ba', writeFixSize_ba SocketStream_write_ba fuel len (peer_with cs out, ba) = (Ok len, (peer_with cs (out ++ data), ba'))
  /\ wf ba' /\ abs ba' = Flat (f_data (abs ba)) (f_pos (abs ba) + Z.to_nat len).
Proof.
  intros Hwf Hl Hd Hf data. destruct fuel as [|[|fuel]]; [lia..|]. pose proof (wf_pos ba Hwf) as Hpos.
  assert (length data = Z.to_nat len) as Hlen.
  { unfold data. rewrite length_slice; [done|]. rewrite length_abs by done.
    change (f_pos (abs ba)) with (Z.to_nat (m_position ba)). lia. }
  destruct (write_ba_run (peer_with cs out) ba len len (peer_with cs (out ++ data))) as (ba' & Hrun & Hwf' & _ & Habs & _);
    [done|lia|lia|done| |].
  { rewrite Z.min_l by lia. fold data. unfold SocketStream_write. cbn. rewrite Hlen, Z2Nat.id by lia. done. }
  exists ba'. split; [|done]. unfold writeFixSize_ba. cbn [fix_loop_ba]. rewrite (proj2 (Z.eqb_neq len 0)) by lia.
  unfold mbind, M_bind. rewrite Hrun, (u64_small len), (proj2 (Z.leb_gt _ _)) by lia.
  rewrite Z.sub_diag. change (u64 0) with 0. cbn -[s32]. by rewrite s32_small by lia.
Qed.

(** What [writeFixSize] sends from one byte array, [readFixSize] stores in another,
    however the connection segments it and whatever the blocks of the two buffers:
    both return the length, the sender has read and the receiver has written exactly
    those bytes, and what follows stays in the connection. *)
Theorem buffer_crosses_connection sa sb len cs rest out incoming fuel :
  wf sa -> wf sb -> 0 < len < 2 ^ 31 -> m_position sa + len <= m_size sa ->
  m_position sb + 2 * len + m_baseSize sb < 2 ^ 64 ->
  Forall (fun c => c <> []) cs -> (length cs < fuel)%nat -> (1 < fuel)%nat ->
  let data := slice (f_pos (abs sa)) (Z.to_nat len) (f_data (abs sa)) in
  concat cs = data ->
  exists sa' sb',
    writeFixSize_ba SocketStream_write_ba fuel len (peer_with incoming out, sa) = (Ok len, (peer_with incoming (out ++ data), sa'))
    /\ wf sa' /\ abs sa' = Flat (f_data (abs sa)) (f_pos (abs sa) + Z.to_nat len)
    /\ readFixSize_ba SocketStream_read_ba fuel len (peer_with (cs ++ rest) out, sb) = (Ok len, (peer_with rest out, sb'))
    /\ wf sb' /\ abs sb' = flat_write data (abs sb).
Proof.
  intros Ha Hb Hl Hd Hroom Hne Hf Hf1 data Hcs.
  destruct (fix_write_ok sa len incoming out fuel Ha Hl Hd Hf1) as (sa' & H1 & H2 & H3).
  assert (length data = Z.to_nat len) as Hlen.
  { unfold data. pose proof (wf_pos sa Ha). rewrite length_slice; [done|]. rewrite length_abs by done.
    change (f_pos (abs sa)) with (Z.to_nat (m_position sa)). lia. }
  assert (Z.of_nat (length (concat cs)) = len) as Hn by (rewrite Hcs, Hlen; lia).
  destruct (fix_read_ok cs rest out fuel len sb) as (sb' & H4 & H5 & H6); [done| |done|lia|lia|done|done|].
  { rewrite Hcs. unfold data, slice. apply Forall_take, Forall_drop. unfold abs. cbn.
    apply Forall_take. eapply chain_bytes, Ha. }
  exists sa', sb'. rewrite Hn in H4. rewrite Hcs in H6. by split_and!.
Qed.

(** A segment that brings more than is left makes the count of bytes left wrap
    around: all of it is stored, and the call goes on until the peer closes, to
    return 0. *)
Lemma readFixSize_ba_overreads c1 c2 out len ba fuel :
  c1 <> [] -> Forall is_byte (c1 ++ c2) -> wf ba -> 0 < len < 2 ^ 31 ->
  Z.of_nat (length c1) < len -> len < Z.of_nat (length c1 + length c2) -> Z.of_nat (length c2) <= len ->
  m_position ba + 3 * len + m_baseSize ba < 2 ^ 64 ->
  exists ba', readFixSize_ba SocketStream_read_ba (S (S (S fuel))) len (peer_with [c1; c2] out, ba) = (Ok 0, (peer_with [] out, ba'))
  /\ abs ba' = flat_write (c1 ++ c2) (abs ba).
Proof.
  intros Hc1 [Hb1 Hb2]%Forall_app Hwf Hl H1 H2 H3 Hroom. unfold readFixSize_ba. cbn [fix_loop_ba].
  assert (0 < Z.of_nat (length c1)) by (destruct c1; [done|cbn; lia]).
  rewrite (proj2 (Z.eqb_neq len 0)) by lia. unfold mbind, M_bind.
  destruct (read_ba_run (peer_with [c1; c2] out) ba len (Z.of_nat (length c1)) c1 (peer_with [c2] out))
    as (ba1 & -> & Hwf1 & Ha1 & Hp1 & Hbs1 & _); [done|lia|unfold room; lia|done|apply peer_recv; done || lia|done|].
  rewrite (u64_small (Z.of_nat _)), (proj2 (Z.leb_gt _ _)), u64_small by lia.
  rewrite (proj2 (Z.eqb_neq (len - _) 0)) by lia.
  destruct (read_ba_run (peer_with [c2] out) ba1 len (Z.of_nat (length c2)) c2 (peer_with [] out))
    as (ba2 & -> & Hwf2 & Ha2 & Hp2 & Hbs2 & _); [done|lia|unfold room; lia|done| |done|].
  { apply peer_recv; [|lia]. intros ->. cbn in *. lia. }
  rewrite (u64_small (Z.of_nat _)), (proj2 (Z.leb_gt _ _)) by lia.
  assert (u64 (len - Z.of_nat (length c1) - Z.of_nat (length c2)) <> 0) as Hwrap.
  { unfold u64. rewrite <-(Z.mod_add _ 1) by lia. rewrite Z.mod_small; lia. }
  rewrite (proj2 (Z.eqb_neq _ 0) Hwrap).
  destruct (read_ba_run (peer_with [] out) ba2 len 0 [] (peer_with [] out)) as (ba3 & -> & _ & Ha3 & _);
    [done|lia|unfold room; lia|done|done|done|].
  exists ba3. split; [done|]. rewrite Ha3, Ha2, (flat_write_app c2 []), app_nil_r, Ha1 by (by apply abs_pos). apply flat_write_app. by apply abs_pos.
Qed.
End Fixed.

(** ** Witnesses *)

Definition demo_receiver : ByteArray := @ByteArray_new sparc 3.

Lemma buffer_transfers_witness :
  exists ba', SocketStream_read_ba (H := x86) 3 (peer_with [[7; 8]; [9]] [], demo_buffer) = (Ok 2, (peer_with [[9]] [], ba'))
  /\ abs ba' = flat_write [7; 8] (abs demo_buffer).
Proof.
  destruct (proj1 (@buffer_transfers x86 Peer _ _ (peer_with [[7; 8]; [9]] []) demo_buffer 3 demo_buffer_wf
    ltac:(lia) ltac:(unfold room; vm_compute; reflexivity) ltac:(reflexivity)) 2 [7; 8] (peer_with [[9]] []))
    as (ba' & H1 & _ & H3); [reflexivity|repeat constructor; unfold is_byte; lia|].
  exists ba'. split; [exact H1|exact H3].
Defined.

Lemma buffer_crosses_connection_witness :
  exists sa' sb',
    writeFixSize_ba SocketStream_write_ba 4 3 (peer_with [] [], demo_buffer) = (Ok 3, (peer_with [] [2; 3; 4], sa'))
    /\ readFixSize_ba (SocketStream_read_ba (H := x86)) 4 3 (peer_with ([[2]; [3; 4]] ++ [[5]]) [], demo_receiver)
       = (Ok 3, (peer_with [[5]] [], sb'))
    /\ abs sb' = Flat [2; 3; 4] 3.
Proof.
  destruct (@buffer_crosses_connection x86 demo_buffer demo_receiver 3 [[2]; [3; 4]] [[5]] [] [] 4)
    as (sa' & sb' & H1 & _ & _ & H4 & _ & H6); [exact demo_buffer_wf|apply wf_new; lia|lia|vm_compute; discriminate|vm_compute; reflexivity
    |repeat constructor; discriminate|cbn; lia|lia|reflexivity|].
  exists sa', sb'. split; [exact H1|]. split; [exact H4|exact H6].
Defined.
