(* ===== verification/Ragel.v ===== *)
(** * Ragel machines

    The three parsers of sylar are written as Ragel grammars
    ([src/rl/http11_parser.rl], [src/rl/httpclient_parser.rl], [src/rl/uri.rl]).
    This file has the expressions of the language that they use, the automaton
    an expression stands for, with the actions and priorities embedded in its
    transitions, and its execution on a buffer.

    Ragel makes a deterministic machine of the automaton: a state of it is a set
    of states of the automaton, and a transition carries the actions of all the
    transitions it merges, in the order in which the embedding operators occur in
    the grammar; an action that is embedded more than once is executed once, in
    its first place.  A set of states is a sorted list here, the empty
    list is the error state, and the deterministic machine is never built. *)
From S2P Require Import Prelude.

(** [assert(pe - p == (int)len - (int)off)], with which the parsers begin: the right side
    is a difference of two [int]s. *)
Definition same_distance {S} (len off : Z) : M S unit :=
  let d := s32 len - s32 off in
  if (d <? - 2 ^ 31) || (2 ^ 31 <=? d) then fail (Undef signed_overflow) else sylar_assert (len - off =? d).

(** It holds for a buffer of less than 2^31 bytes and for no longer one. *)
Lemma same_distance_start {S} len (s : S) : 0 <= len ->
  same_distance len 0 s = if len <? 2 ^ 31 then (Ok tt, s) else (Err AssertFail, s).
Proof.
  intros Hl. unfold same_distance. change (s32 0) with 0. rewrite !Z.sub_0_r.
  pose proof (sgn_range 32 len ltac:(lia)) as Hr. fold (s32 len) in Hr.
  destruct (Z.ltb_spec (s32 len) (- 2 ^ 31)); [lia|]. destruct (Z.leb_spec (2 ^ 31) (s32 len)); [lia|]. cbn [orb].
  destruct (Z.ltb_spec len (2 ^ 31)).
  - rewrite s32_small by lia. mstep. by rewrite Z.eqb_refl.
  - mstep. by rewrite (proj2 (Z.eqb_neq _ _)) by lia.
Qed.

(** ** Expressions *)

(** Concatenation, union and repetition; the actions on entering ([>a]), on
    leaving ([%a]) and on the transitions into final states ([@a]); the guarded
    concatenations [r :> s], where the start of [s] takes precedence over going on
    in [r], and [r :>> s], where the end of [s] does.  A character class is the
    set of its characters: the unions and differences of classes are taken on
    the sets. *)
Inductive ragel (A : Type) :=
| Eps
| Chars (p : Z -> bool)
| Cat (r s : ragel A)
| Alt (r s : ragel A)
| Star (r : ragel A)
| Entering (a : A) (r : ragel A)
| Leaving (a : A) (r : ragel A)
| Finishing (a : A) (r : ragel A)
| EntryGuarded (r s : ragel A)
| FinishGuarded (r s : ragel A).
Arguments Eps {A}.
Arguments Chars {A} _.
Arguments Cat {A} _ _.
Arguments Alt {A} _ _.
Arguments Star {A} _.
Arguments Entering {A} _ _.
Arguments Leaving {A} _ _.
Arguments Finishing {A} _ _.
Arguments EntryGuarded {A} _ _.
Arguments FinishGuarded {A} _ _.

Declare Scope ragel_scope.
Delimit Scope ragel_scope with ragel.
Bind Scope ragel_scope with ragel.
Notation "r • s" := (Cat r s) (at level 38, left associativity) : ragel_scope.
Notation "r ∥ s" := (Alt r s) (at level 42, left associativity) : ragel_scope.
#[local] Open Scope ragel_scope.

Section Sugar.
Context {A : Type}.
Implicit Types r : ragel A.

(** A character, a literal, [r?], [r+], [r{n}], [r{n,}], [r{n,m}]. *)
Definition ch (c : Z) : ragel A := Chars (Z.eqb c).
Definition lit (s : list Z) : ragel A := fold_right (fun c r => ch c • r) Eps s.
Definition opt r : ragel A := r ∥ Eps.
Definition plus r : ragel A := r • Star r.
Fixpoint times (n : nat) r : ragel A := match n with O => Eps | S n => r • times n r end.
Definition at_least (n : nat) r : ragel A := times n r • Star r.
Fixpoint at_most (n : nat) r : ragel A := match n with O => Eps | S n => opt (r • at_most n r) end.
Definition between (n m : nat) r : ragel A := times n r • at_most (m - n) r.
Definition alts (rs : list (ragel A)) : ragel A :=
  match rs with [] => Chars (fun _ => false) | r :: rs => fold_left Alt rs r end.

(** Upper and lower case: [/.../i]. *)
Definition ci (c : Z) : ragel A :=
  Chars (fun x => (x =? c) || ((97 <=? c) && (c <=? 122) && (x =? c - 32)) || ((65 <=? c) && (c <=? 90) && (x =? c + 32))).
Definition lit_i (s : list Z) : ragel A := fold_right (fun c r => ci c • r) Eps s.
End Sugar.

(** The character classes that the language defines. *)
Definition in_range (a b c : Z) : bool := (a <=? c) && (c <=? b).
Definition any_char (c : Z) : bool := true.
Definition ascii_char (c : Z) : bool := in_range 0 127 c.
Definition digit_char (c : Z) : bool := in_range 48 57 c.
Definition upper_char (c : Z) : bool := in_range 65 90 c.
Definition lower_char (c : Z) : bool := in_range 97 122 c.
Definition alpha_char (c : Z) : bool := upper_char c || lower_char c.
Definition xdigit_char (c : Z) : bool := digit_char c || in_range 65 70 c || in_range 97 102 c.
Definition cntrl_char (c : Z) : bool := in_range 0 31 c || (c =? 127).
Definition space_char (c : Z) : bool := in_range 9 13 c || (c =? 32).
Definition one_of (cs : list Z) (c : Z) : bool := existsb (Z.eqb c) cs.
Definition but (p q : Z -> bool) (c : Z) : bool := p c && negb (q c).
Definition either (ps : list (Z -> bool)) (c : Z) : bool := existsb (fun p => p c) ps.

(** ** The automaton of an expression *)

Section Automata.
Context {A : Type} `{!EqDecision A}.

(** What is embedded in a transition, or waits in a final state for the
    transitions that leave the machine from it: actions with their places in the
    order, and priorities with their keys. *)
Record embedded := mkEmb { em_acts : list (N * A); em_prios : list (N * Z) }.
Definition no_emb : embedded := mkEmb [] [].

Record transition := mkTrans { t_on : Z -> bool; t_to : N; t_emb : embedded }.

(** The transitions out of the start state, which no transition enters; what it
    leaves with, if it is final; the final states with what they leave with; the
    transitions out of the other states. *)
Record machine := mkMachine {
  mc_start : list transition;
  mc_null : option embedded;
  mc_final : list (N * embedded);
  mc_follow : list (N * list transition)
}.

(** The next state, place in the order of actions, and key of priorities. *)
Record counters := mkCnt { n_state : N; n_ord : N; n_key : N }.

Definition emb_app (e e' : embedded) : embedded :=
  mkEmb (em_acts e ++ em_acts e') (em_prios e ++ em_prios e').
Definition emb_act (n : N) (a : A) (e : embedded) : embedded := mkEmb (em_acts e ++ [(n, a)]) (em_prios e).
Definition emb_prio (k : N) (p : Z) (e : embedded) : embedded := mkEmb (em_acts e) (em_prios e ++ [(k, p)]).
Definition on_emb (f : embedded -> embedded) (t : transition) : transition :=
  mkTrans (t_on t) (t_to t) (f (t_emb t)).

Definition final_emb (m : machine) (q : N) : option embedded :=
  match filter (fun x => fst x = q) (mc_final m) with x :: _ => Some (snd x) | [] => None end.

(** Leaving a machine with [e] by the transitions [ts]. *)
Definition leave_by (e : embedded) (ts : list transition) : list transition := map (on_emb (emb_app e)) ts.

(** From the final states of [m] by the transitions [ts] as well. *)
Definition extend (m : machine) (ts : list transition) : list (N * list transition) :=
  map (fun x => match final_emb m (fst x) with
                | Some e => (fst x, snd x ++ leave_by e ts)
                | None => x
                end) (mc_follow m).

Definition chars_machine (q : N) (p : Z -> bool) : machine :=
  mkMachine [mkTrans p q no_emb] None [(q, no_emb)] [(q, [])].

Definition eps_machine : machine := mkMachine [] (Some no_emb) [] [].

(** A final state of the left machine stays final when the right one takes the
    empty string, and then keeps what it leaves with. *)
Definition cat_machine (m m' : machine) : machine :=
  mkMachine
    (mc_start m ++ match mc_null m with Some e => leave_by e (mc_start m') | None => [] end)
    (match mc_null m, mc_null m' with Some e, Some e' => Some (emb_app e e') | _, _ => None end)
    (match mc_null m' with Some e' => map (fun x => (fst x, emb_app (snd x) e')) (mc_final m) | None => [] end
     ++ mc_final m')
    (extend m (mc_start m') ++ mc_follow m').

Definition alt_machine (m m' : machine) : machine :=
  mkMachine (mc_start m ++ mc_start m')
    (match mc_null m, mc_null m' with
     | Some e, Some e' => Some (emb_app e e')
     | Some e, None => Some e
     | None, n => n
     end)
    (mc_final m ++ mc_final m') (mc_follow m ++ mc_follow m').

Definition star_machine (m : machine) : machine :=
  mkMachine (mc_start m ++ match mc_null m with Some e => leave_by e (mc_start m) | None => [] end)
    (Some (default no_emb (mc_null m))) (mc_final m) (extend m (mc_start m)).

(** An action on entering is executed on leaving when the machine is passed by
    the empty string. *)
Definition at_start (f : embedded -> embedded) (m : machine) : machine :=
  mkMachine (map (on_emb f) (mc_start m)) (f <$> mc_null m) (mc_final m) (mc_follow m).

Definition at_leave (f : embedded -> embedded) (m : machine) : machine :=
  mkMachine (mc_start m) (f <$> mc_null m) (map (fun x => (fst x, f (snd x))) (mc_final m)) (mc_follow m).

Definition on_trans (f : transition -> transition) (m : machine) : machine :=
  mkMachine (map f (mc_start m)) (mc_null m) (mc_final m)
    (map (fun x => (fst x, map f (snd x))) (mc_follow m)).

Definition at_finish (f : embedded -> embedded) (m : machine) : machine :=
  on_trans (fun t => match final_emb m (t_to t) with Some _ => on_emb f t | None => t end) m.

Definition at_all (f : embedded -> embedded) (m : machine) : machine := on_trans (on_emb f) m.

Fixpoint compile (r : ragel A) (n : counters) : machine * counters :=
  match r with
  | Eps => (eps_machine, n)
  | Chars p => (chars_machine (n_state n) p, mkCnt (N.succ (n_state n)) (n_ord n) (n_key n))
  | Cat r s => let '(m, n) := compile r n in let '(m', n) := compile s n in (cat_machine m m', n)
  | Alt r s => let '(m, n) := compile r n in let '(m', n) := compile s n in (alt_machine m m', n)
  | Star r => let '(m, n) := compile r n in (star_machine m, n)
  | Entering a r =>
      let o := n_ord n in
      let '(m, n) := compile r (mkCnt (n_state n) (N.succ o) (n_key n)) in
      (at_start (emb_act o a) m, n)
  | Leaving a r =>
      let '(m, n) := compile r n in
      (at_leave (emb_act (n_ord n) a) m, mkCnt (n_state n) (N.succ (n_ord n)) (n_key n))
  | Finishing a r =>
      let '(m, n) := compile r n in
      (at_finish (emb_act (n_ord n) a) m, mkCnt (n_state n) (N.succ (n_ord n)) (n_key n))
  | EntryGuarded r s =>
      let k := n_key n in
      let '(m, n) := compile r (mkCnt (n_state n) (n_ord n) (N.succ k)) in let '(m', n) := compile s n in
      (cat_machine (at_all (emb_prio k 0) m) (at_start (emb_prio k 1) m'), n)
  | FinishGuarded r s =>
      let k := n_key n in
      let '(m, n) := compile r (mkCnt (n_state n) (n_ord n) (N.succ k)) in let '(m', n) := compile s n in
      (cat_machine (at_all (emb_prio k 0) m) (at_finish (emb_prio k 1) m'), n)
  end.

(** ** The deterministic machine *)

Record automaton := mkAuto { au_follow : gmap N (list transition); au_final : gmap N embedded }.

(** State 0 is the start state. *)
Definition automaton_of (r : ragel A) : automaton :=
  let m := fst (compile r (mkCnt 1 0 0)) in
  mkAuto (<[0%N := mc_start m]> (list_to_map (mc_follow m)))
    (match mc_null m with Some e => <[0%N := e]> | None => id end (list_to_map (mc_final m))).

Variable au : automaton.

Definition outgoing (q : N) : list transition := default [] (au_follow au !! q).

(** Of two transitions with different priorities for a key the lower one is
    dropped. *)
Definition loses (t t' : transition) : bool :=
  existsb (fun x => existsb (fun y => (fst x =? fst y)%N && (snd x <? snd y)) (em_prios (t_emb t')))
    (em_prios (t_emb t)).

Fixpoint insert_act (x : N * A) (l : list (N * A)) : list (N * A) :=
  match l with
  | [] => [x]
  | y :: l' => if (fst x <? fst y)%N then x :: l else if (fst x =? fst y)%N then l else y :: insert_act x l'
  end.

Fixpoint insert_state (q : N) (l : list N) : list N :=
  match l with
  | [] => [q]
  | q' :: l' => if (q <? q')%N then q :: l else if (q =? q')%N then l else q' :: insert_state q l'
  end.

(** Without the later occurrences of an action. *)
Fixpoint first_each (seen l : list A) : list A :=
  match l with
  | [] => []
  | a :: l => if decide (a ∈ seen) then first_each seen l else a :: first_each (a :: seen) l
  end.

Definition ordered (l : list (N * A)) : list A := first_each [] (map snd (foldr insert_act [] l)).

(** The actions and the next state on a character. *)
Definition step (S : list N) (c : Z) : list A * list N :=
  let ts := List.filter (fun t => t_on t c) (concat (map outgoing S)) in
  let ts := List.filter (fun t => negb (existsb (loses t) ts)) ts in
  (ordered (concat (map (fun t => em_acts (t_emb t)) ts)), foldr insert_state [] (map t_to ts)).

Definition is_final (S : list N) : bool :=
  existsb (fun q => match au_final au !! q with Some _ => true | None => false end) S.

(** The actions at the end of the input. *)
Definition eof_acts (S : list N) : list A :=
  ordered (concat (map (fun q => match au_final au !! q with Some e => em_acts e | None => [] end) S)).

(** ** Execution

    [act a p] is the code of an action at the position [p] ([fpc]) of the buffer;
    it returns whether it ends the execution ([fbreak]). *)
Section Execution.
Context {U : Type} (act : A -> Z -> M U bool).

Fixpoint run_acts (acts : list A) (p : Z) : M U bool :=
  match acts with
  | [] => mret false
  | a :: acts => stop ← act a p; if stop : bool then mret true else run_acts acts p
  end.

(** The state and the position afterwards.  On an error the position stays at the
    character that has no transition; after [fbreak] it is the next one. *)
Fixpoint exec (S : list N) (p : Z) (s : list Z) : M U (list N * Z) :=
  match s with
  | [] => mret (S, p)
  | c :: s =>
      match step S c with
      | (_, []) => mret ([], p)
      | (acts, S') => stop ← run_acts acts p; if stop : bool then mret (S', p + 1) else exec S' (p + 1) s
      end
  end.
End Execution.

(** The position stays in the buffer. *)
Lemma exec_bound {U} (act : A -> Z -> M U bool) s : forall S p u S' q u',
  exec act S p s u = (Ok (S', q), u') -> p <= q <= p + Z.of_nat (length s).
Proof.
  induction s as [|c s IH]; intros S p u S' q u'; cbn [exec length].
  - intros [= _ <- _]. lia.
  - destruct (step S c) as [acts [|q1 S1]]; [intros [= _ <- _]; lia|]. unfold mbind, M_bind.
    destruct (run_acts act acts p u) as [[[|]|e] u1]; [intros [= _ <- _]; lia| |done].
    intros H%IH. lia.
Qed.

(** What every action keeps at its position, and later positions keep, holds when
    the execution ends, and it does end. *)
Section Total.
Context {U : Type} (act : A -> Z -> M U bool) (I : Z -> U -> Prop) (len : Z).
Hypothesis act_total : forall a p u, 0 <= p < len -> I p u -> exists stop u', act a p u = (Ok stop, u') /\ I p u'.
Hypothesis later : forall p q u, I p u -> p <= q -> I q u.

Lemma acts_total acts p : forall u, 0 <= p < len -> I p u ->
  exists stop u', run_acts act acts p u = (Ok stop, u') /\ I p u'.
Proof.
  induction acts as [|a acts IH]; intros u Hp Hu; [by exists false, u|].
  destruct (act_total a p u Hp Hu) as (stop & u1 & E & Hu1). cbn [run_acts]. unfold mbind, M_bind. rewrite E.
  destruct stop; [by exists true, u1|]. by apply IH.
Qed.

Lemma exec_total s : forall S p u, 0 <= p -> p + Z.of_nat (length s) = len -> I p u ->
  exists S' q u', exec act S p s u = (Ok (S', q), u') /\ p <= q <= len /\ I q u'.
Proof.
  induction s as [|c s IH]; intros S p u H0 Hl Hu; cbn [length] in Hl.
  - exists S, p, u. cbn in Hl. split; [done|]. split; [lia|done].
  - cbn [exec]. destruct (step S c) as [acts [|q S1]].
    + exists [], p, u. split; [done|]. split; [lia|done].
    + destruct (acts_total acts p u) as (stop & u1 & E & Hu1); [lia|done|].
      unfold mbind, M_bind. rewrite E. destruct stop.
      * exists (q :: S1), (p + 1), u1. split; [done|]. split; [lia|]. apply (later p); [done|lia].
      * destruct (IH (q :: S1) (p + 1) u1) as (S2 & q2 & u2 & -> & Hq & Hu2); [lia|lia|apply (later p); [done|lia]|].
        exists S2, q2, u2. split; [done|]. split; [lia|done].
Qed.
End Total.

(** ** Running over a part of the buffer *)

Section Runs.
Context {U : Type} (act : A -> Z -> M U bool).

(** From [S] the machine runs over [w] and is in [S'] then, whatever follows. *)
Definition runs_to (S : list N) (p : Z) (w : list Z) (u : U) (S' : list N) (u' : U) : Prop :=
  forall rest, exec act S p (w ++ rest) u = exec act S' (p + Z.of_nat (length w)) rest u'.

Lemma runs_nil S p u : runs_to S p [] u S u.
Proof. intros rest. cbn [app length]. by rewrite Z.add_0_r. Qed.

Lemma runs_app S p w u S1 u1 w' S2 u2 :
  runs_to S p w u S1 u1 -> runs_to S1 (p + Z.of_nat (length w)) w' u1 S2 u2 -> runs_to S p (w ++ w') u S2 u2.
Proof. intros H1 H2 rest. rewrite <-app_assoc, H1, H2, length_app. f_equal. lia. Qed.

Lemma runs_char S p c u S' u' acts :
  step S c = (acts, S') -> S' <> [] -> run_acts act acts p u = (Ok false, u') -> runs_to S p [c] u S' u'.
Proof.
  intros Hs Hne Hr rest. cbn [app exec length]. rewrite Hs. destruct S' as [|q S']; [done|].
  unfold mbind, M_bind. rewrite Hr. done.
Qed.
End Runs.

(** *** Families of states that characters do not leave *)

(** Reading [w] without an action. *)
Fixpoint drain (S : list N) (w : list Z) : option (list N) :=
  match w with
  | [] => Some S
  | c :: w => match step S c with ([], q :: S') => drain (q :: S') w | _ => None end
  end.

Definition member (S : list N) (F : list (list N)) : bool := existsb (fun S' => bool_decide (S = S')) F.

(** From the states of [F] the words of [ws] lead to states of [F], without an
    action. *)
Definition quiet (F : list (list N)) (ws : list (list Z)) : bool :=
  forallb (fun S => forallb (fun w => match drain S w with Some S' => member S' F | None => false end) ws) F.

(** The states that words reach. *)
Fixpoint closure (fuel : nat) (ws : list (list Z)) (todo seen : list (list N)) : list (list N) :=
  match fuel, todo with
  | S fuel, x :: todo =>
      if member x seen then closure fuel ws todo seen
      else closure fuel ws (omap (drain x) ws ++ todo) (x :: seen)
  | _, _ => seen
  end.

(** From all states of [F] the words of [ws] lead to states of [F'], with the
    actions [acts] on their first character and none on the others. *)
Definition moves (F : list (list N)) (ws : list (list Z)) (acts : list A) (F' : list (list N)) : bool :=
  forallb (fun S => forallb (fun w =>
    match w with
    | [] => false
    | c :: w =>
        match step S c with
        | (a, q :: S') => bool_decide (a = acts) && match drain (q :: S') w with Some S' => member S' F' | None => false end
        | _ => false
        end
    end) ws) F.

Lemma member_spec S F : member S F = true <-> S ∈ F.
Proof.
  unfold member. rewrite existsb_exists. split.
  - intros (S' & Hin & Heq). apply bool_decide_eq_true in Heq as ->. by apply list_elem_of_In.
  - intros Hin. exists S. split; [by apply list_elem_of_In|by apply bool_decide_eq_true].
Qed.

Lemma drain_runs {U} (act : A -> Z -> M U bool) w : forall S S' p u,
  drain S w = Some S' -> runs_to act S p w u S' u.
Proof.
  induction w as [|c w IH]; intros S S' p u; cbn [drain].
  - intros [= <-]. apply runs_nil.
  - destruct (step S c) as [[|a acts] [|q S1]] eqn:Hs; try done. intros Hd.
    apply (runs_app act S p [c] u (q :: S1) u w).
    + by eapply runs_char.
    + by apply IH.
Qed.

Lemma quiet_runs {U} (act : A -> Z -> M U bool) F ws toks : forall S,
  quiet F ws = true -> S ∈ F -> Forall (fun w => w ∈ ws) toks ->
  exists S', S' ∈ F /\ forall p u, runs_to act S p (concat toks) u S' u.
Proof.
  induction toks as [|w toks IH]; intros S Hq HS Ht.
  - exists S. split; [done|]. intros p u. apply runs_nil.
  - apply Forall_cons in Ht as [Hw Ht].
    assert (exists S1, drain S w = Some S1 /\ S1 ∈ F) as (S1 & Hd & H1).
    { unfold quiet in Hq. rewrite forallb_forall in Hq. specialize (Hq S (proj1 (list_elem_of_In _ _) HS)).
      rewrite forallb_forall in Hq. specialize (Hq w (proj1 (list_elem_of_In _ _) Hw)).
      destruct (drain S w) as [S1|]; [|done]. exists S1. split; [done|]. by apply member_spec. }
    destruct (IH S1 Hq H1 Ht) as (S' & HS' & Hr). exists S'. split; [done|]. intros p u. cbn [concat].
    eapply runs_app; [by apply drain_runs|apply Hr].
Qed.

Lemma moves_runs {U} (act : A -> Z -> M U bool) F ws acts F' S w p u u' :
  moves F ws acts F' = true -> S ∈ F -> w ∈ ws -> run_acts act acts p u = (Ok false, u') ->
  exists S', S' ∈ F' /\ runs_to act S p w u S' u'.
Proof.
  unfold moves. rewrite forallb_forall. intros Hm HS Hw Hr. specialize (Hm S (proj1 (list_elem_of_In _ _) HS)).
  rewrite forallb_forall in Hm. specialize (Hm w (proj1 (list_elem_of_In _ _) Hw)).
  destruct w as [|c w]; [done|]. destruct (step S c) as [a [|q S1]] eqn:Hs; [done|].
  apply andb_prop in Hm as [Ha Hm]. apply bool_decide_eq_true in Ha as ->.
  destruct (drain (q :: S1) w) as [S'|] eqn:Hd; [|done]. exists S'. split; [by apply member_spec|].
  apply (runs_app act S p [c] u (q :: S1) u' w); [by eapply runs_char|by apply drain_runs].
Qed.
Lemma runs_then {U} (act : A -> Z -> M U bool) S p q w u S1 u1 w' S2 u2 : q = p + Z.of_nat (length w) ->
  runs_to act S p w u S1 u1 -> runs_to act S1 q w' u1 S2 u2 -> runs_to act S p (w ++ w') u S2 u2.
Proof. intros ->. apply runs_app. Qed.

(** Text of words the first of which has the actions [acts]. *)
Lemma text_runs {U} (act : A -> Z -> M U bool) F F' ws acts toks S p u u' :
  moves F ws acts F' = true -> quiet F' ws = true -> S ∈ F -> toks <> [] -> Forall (fun w => w ∈ ws) toks ->
  run_acts act acts p u = (Ok false, u') -> exists S', S' ∈ F' /\ runs_to act S p (concat toks) u S' u'.
Proof.
  intros Hm Hq HS Hne Ht Hr. destruct toks as [|w toks]; [done|]. apply Forall_cons in Ht as [Hw Ht].
  destruct (moves_runs act F ws acts F' S w p u u' Hm HS Hw Hr) as (S1 & HS1 & R1).
  destruct (quiet_runs act F' ws toks S1 Hq HS1 Ht) as (S2 & HS2 & R2). exists S2. split; [done|].
  cbn [concat]. by eapply runs_app.
Qed.
End Automata.

Arguments machine A : clear implicits.
Arguments automaton A : clear implicits.
Arguments embedded A : clear implicits.
Arguments transition A : clear implicits.

(** ** Escaped text

    Text of allowed characters and percent escapes, as the words a machine reads
    it by. *)

Definition all_bytes : list Z := seqZ 0 256.

Fixpoint escaped (ok : Z -> bool) (s : list Z) : bool :=
  match s with
  | [] => true
  | c :: s =>
      if c =? 37 then match s with h :: l :: s => xdigit_char h && xdigit_char l && escaped ok s | _ => false end
      else ok c && in_range 0 255 c && escaped ok s
  end.

(** The words of escaped text. *)
Definition chars_of (ok : Z -> bool) : list (list Z) := map (fun c => [c]) (List.filter ok all_bytes).
Definition escapes : list (list Z) :=
  concat (map (fun h => map (fun l => [37; h; l]) (List.filter xdigit_char all_bytes)) (List.filter xdigit_char all_bytes)).

Lemma all_bytes_spec c : in_range 0 255 c = true -> c ∈ all_bytes.
Proof. unfold in_range. intros [H1 H2]%andb_prop. apply elem_of_seqZ. lia. Qed.

Lemma chars_of_spec ok c : ok c = true -> in_range 0 255 c = true -> [c] ∈ chars_of ok.
Proof.
  intros Hc Hr. apply list_elem_of_In, (in_map (fun c => [c])), filter_In. split; [|done]. by apply list_elem_of_In, all_bytes_spec.
Qed.

Lemma xdigit_byte c : xdigit_char c = true -> In c (List.filter xdigit_char all_bytes).
Proof.
  intros Hc. apply filter_In. split; [|done]. apply list_elem_of_In, elem_of_seqZ.
  unfold xdigit_char, digit_char, in_range in Hc. lia.
Qed.

Lemma escapes_spec h l : xdigit_char h = true -> xdigit_char l = true -> [37; h; l] ∈ escapes.
Proof.
  intros Hh Hl. apply list_elem_of_In, in_concat. eexists. split.
  - apply (in_map (fun h => map (fun l => [37; h; l]) _)), xdigit_byte, Hh.
  - by apply (in_map (fun l => [37; h; l])), xdigit_byte.
Qed.

Definition text_words (ok : Z -> bool) : list (list Z) := chars_of ok ++ escapes.

Lemma text_words_spec ok w : w ∈ text_words ok <-> w ∈ chars_of ok \/ w ∈ escapes.
Proof. exact (elem_of_app (chars_of ok) escapes w). Qed.

Lemma singletons_spec (ok : Z -> bool) (l : list Z) w :
  w ∈ map (fun c => [c]) (List.filter ok l) <-> exists c, w = [c] /\ ok c = true /\ c ∈ l.
Proof.
  rewrite list_elem_of_In, in_map_iff. split.
  - intros (c & <- & [Hin Hok]%filter_In). exists c. split_and!; try done. by apply list_elem_of_In.
  - intros (c & -> & Hok & Hin). exists c. split; [done|]. apply filter_In. split; [|done]. by apply list_elem_of_In.
Qed.

Lemma chars_of_words ok w : w ∈ chars_of ok <-> exists c, w = [c] /\ ok c = true /\ c ∈ all_bytes.
Proof. exact (singletons_spec ok all_bytes w). Qed.

Lemma escaped_words ok s : escaped ok s = true ->
  exists toks, s = concat toks /\ Forall (fun w => w ∈ text_words ok) toks.
Proof.
  enough (forall n s, (length s < n)%nat -> escaped ok s = true ->
    exists toks, s = concat toks /\ Forall (fun w => w ∈ text_words ok) toks) as Hn
    by (apply (Hn (S (length s))); lia).
  clear s. induction n as [|n IH]; intros s Hl He; [lia|]. destruct s as [|c s]; [by exists []|].
  cbn [escaped] in He. destruct (Z.eqb_spec c 37) as [->|Hc].
  - destruct s as [|h [|l s]]; try done. apply andb_prop in He as [Hx He]. apply andb_prop in Hx as [Hh Hlx].
    destruct (IH s) as (toks & -> & Ht); [cbn in Hl; lia|done|]. exists ([37; h; l] :: toks). split; [done|].
    constructor; [|done]. apply elem_of_app. right. by apply escapes_spec.
  - apply andb_prop in He as [Hx He]. apply andb_prop in Hx as [Ho Hr].
    destruct (IH s) as (toks & -> & Ht); [cbn in Hl; lia|done|]. exists ([c] :: toks). split; [done|].
    constructor; [|done]. apply elem_of_app. left. by apply chars_of_spec.
Qed.

Lemma plain_words ok s : Forall (fun c => ok c = true /\ in_range 0 255 c = true) s ->
  exists toks, s = concat toks /\ Forall (fun w => w ∈ chars_of ok) toks.
Proof.
  induction 1 as [|c s [Ho Hr] _ (toks & -> & Ht)]; [by exists []|]. exists ([c] :: toks). split; [done|].
  constructor; [by apply chars_of_spec|done].
Qed.

Definition all_chars (ok : Z -> bool) (s : list Z) : bool := forallb (fun c => ok c && in_range 0 255 c) s.

Lemma all_chars_words ok s : all_chars ok s = true -> exists toks, s = concat toks /\ Forall (fun w => w ∈ chars_of ok) toks.
Proof.
  intros H. apply plain_words. apply Forall_forall. intros c Hc. unfold all_chars in H. rewrite forallb_forall in H.
  by apply andb_prop, H, list_elem_of_In.
Qed.

(** The first word of escaped text, if its first character is of a smaller class. *)
Lemma escaped_first ok ok' c t : escaped ok (c :: t) = true -> (c <> 37 -> ok' c = true) ->
  exists w toks, c :: t = concat (w :: toks) /\ w ∈ text_words ok' /\ Forall (fun w => w ∈ text_words ok) toks.
Proof.
  intros He Hok. cbn [escaped] in He. destruct (Z.eqb_spec c 37) as [->|Hc].
  - destruct t as [|h [|l t]]; try done. apply andb_prop in He as [[Hh Hl]%andb_prop He].
    destruct (escaped_words ok t He) as (toks & -> & Ht). exists [37; h; l], toks. split; [done|]. split; [|done].
    apply text_words_spec. right. by apply escapes_spec.
  - apply andb_prop in He as [[_ Hr]%andb_prop He]. destruct (escaped_words ok t He) as (toks & -> & Ht).
    exists [c], toks. split; [done|]. split; [|done]. apply text_words_spec. left. apply chars_of_spec; auto.
Qed.

(** *** Checking escapes

    The escapes are followed over the families of states after the percent sign and
    after the first digit, not one by one. *)

Definition hexes : list (list Z) := chars_of xdigit_char.

(** To find the states that text leads to one escape stands for all. *)
Definition sample_words (ok : Z -> bool) : list (list Z) := chars_of ok ++ [[37; 48; 48]].

Section Escapes.
Context {A : Type} `{!EqDecision A} (au : automaton A).

(** The states that characters lead to. *)
Definition nexts (F : list (list N)) (cs : list Z) : list (list N) :=
  remove_dups (concat (map (fun S => map (fun c => snd (step au S c)) cs) F)).

Definition quiet_to (F : list (list N)) (ws : list (list Z)) (F' : list (list N)) : bool :=
  forallb (fun S => forallb (fun w => match drain au S w with Some S' => member S' F' | None => false end) ws) F.

(** The two digits. *)
Definition digits_to (F1 F' : list (list N)) : bool :=
  let F2 := nexts F1 (List.filter xdigit_char all_bytes) in quiet_to F1 hexes F2 && quiet_to F2 hexes F'.

Definition quiet_text (F : list (list N)) (ok : Z -> bool) : bool :=
  let F1 := nexts F [37] in quiet au F (chars_of ok) && quiet_to F [[37]] F1 && digits_to F1 F.

Definition moves_text (F : list (list N)) (ok : Z -> bool) (acts : list A) (F' : list (list N)) : bool :=
  let F1 := nexts F [37] in moves au F (chars_of ok) acts F' && moves au F [[37]] acts F1 && digits_to F1 F'.

Lemma quiet_to_spec F ws F' S w : quiet_to F ws F' = true -> S ∈ F -> w ∈ ws -> exists S', drain au S w = Some S' /\ S' ∈ F'.
Proof.
  unfold quiet_to. rewrite forallb_forall. intros H HS Hw. specialize (H S (proj1 (list_elem_of_In _ _) HS)).
  rewrite forallb_forall in H. specialize (H w (proj1 (list_elem_of_In _ _) Hw)).
  destruct (drain au S w) as [S'|]; [|done]. exists S'. split; [done|]. by apply member_spec.
Qed.

Lemma drain_app w w' : forall S, drain au S (w ++ w') = match drain au S w with Some S' => drain au S' w' | None => None end.
Proof. induction w as [|c w IH]; intros S; [done|]. cbn [app drain]. by destruct (step au S c) as [[|a acts] [|q S1]]. Qed.

Lemma digits_to_spec F1 F' S1 h l : digits_to F1 F' = true -> S1 ∈ F1 -> [h] ∈ hexes -> [l] ∈ hexes ->
  exists S', drain au S1 [h; l] = Some S' /\ S' ∈ F'.
Proof.
  unfold digits_to. intros [H1 H2]%andb_prop HS1 Hh Hl.
  destruct (quiet_to_spec _ _ _ S1 [h] H1 HS1 Hh) as (S2 & E2 & HS2).
  destruct (quiet_to_spec _ _ _ S2 [l] H2 HS2 Hl) as (S3 & E3 & HS3).
  exists S3. change [h; l] with ([h] ++ [l]). by rewrite drain_app, E2, E3.
Qed.

Lemma escapes_inv w : w ∈ escapes -> exists h l, w = [37; h; l] /\ [h] ∈ hexes /\ [l] ∈ hexes.
Proof.
  unfold escapes, hexes, chars_of. generalize all_bytes. intros bs.
  rewrite list_elem_of_In, in_concat. intros (ws & Hws & Hw).
  rewrite in_map_iff in Hws. destruct Hws as (h & <- & Hh). rewrite in_map_iff in Hw. destruct Hw as (l & <- & Hl).
  rewrite filter_In in Hh, Hl. exists h, l. split; [done|]. rewrite !singletons_spec.
  rewrite <-!list_elem_of_In in Hh, Hl. split; [exists h|exists l]; tauto.
Qed.

Lemma quiet_text_spec F ok : quiet_text F ok = true -> quiet au F (text_words ok) = true.
Proof.
  unfold quiet_text. intros [[Hc H1]%andb_prop Hd]%andb_prop. unfold quiet in *. rewrite forallb_forall in *. intros S HS.
  specialize (Hc S HS). unfold text_words. rewrite forallb_app, Hc. apply forallb_forall. intros w Hw.
  apply list_elem_of_In, escapes_inv in Hw as (h & l & -> & Hh & Hl).
  destruct (quiet_to_spec _ _ _ S [37] H1 ltac:(by apply list_elem_of_In) ltac:(by left)) as (S1 & E1 & HS1).
  destruct (digits_to_spec _ _ S1 h l Hd HS1 Hh Hl) as (S' & E & HS').
  change [37; h; l] with ([37] ++ [h; l]). rewrite drain_app, E1, E. by apply member_spec.
Qed.

Lemma moves_text_spec F ok acts F' : moves_text F ok acts F' = true -> moves au F (text_words ok) acts F' = true.
Proof.
  unfold moves_text. intros [[Hc H1]%andb_prop Hd]%andb_prop. unfold moves in *. rewrite forallb_forall in *. intros S HS.
  specialize (Hc S HS). unfold text_words. rewrite forallb_app, Hc. apply forallb_forall. intros w Hw.
  apply list_elem_of_In, escapes_inv in Hw as (h & l & -> & Hh & Hl).
  specialize (H1 S HS). cbn [forallb] in H1. destruct (step au S 37) as [a [|q S1]]; [done|].
  apply andb_prop in H1 as [[Ha Hm]%andb_prop _]. rewrite Ha. cbn [drain] in Hm. apply member_spec in Hm.
  destruct (digits_to_spec _ _ (q :: S1) h l Hd Hm Hh Hl) as (S' & E & HS').
  cbn [andb]. rewrite E. by apply member_spec.
Qed.
End Escapes.

(** ** Parts of the buffer *)

Section Buffers.
Variable buffer : list Z.

(** The memory from a position on, and a number of bytes there. *)
Definition ptr_to (from : Z) : list Z := drop (Z.to_nat from) buffer.
Definition element (from len : Z) : list Z := take (Z.to_nat len) (ptr_to from).

Hypothesis small : Z.of_nat (length buffer) < 2 ^ 64.

Lemma element_at pre w post p q : buffer = pre ++ w ++ post -> p = Z.of_nat (length pre) -> q = p + Z.of_nat (length w) ->
  element p (q - p) = w.
Proof using.
  intros E -> ->. unfold element, ptr_to. rewrite E, Nat2Z.id, drop_app_length.
  replace (Z.to_nat _) with (length w) by lia. apply take_app_length.
Qed.

Lemma element_mid pre w post : buffer = pre ++ w ++ post ->
  element (Z.of_nat (length pre)) (u64 (Z.of_nat (length pre) + Z.of_nat (length w) - Z.of_nat (length pre))) = w.
Proof.
  intros E. pose proof (f_equal length E) as El. rewrite !length_app in El.
  rewrite u64_small by lia. by apply (element_at pre w post).
Qed.

Lemma ptr_to_mid pre w : buffer = pre ++ w -> ptr_to (Z.of_nat (length pre)) = w.
Proof. intros E. unfold ptr_to. by rewrite Nat2Z.id, E, drop_app_length. Qed.

Lemma len_mid pre w post : buffer = pre ++ w ++ post ->
  Z.to_nat (u64 (Z.of_nat (length pre) + Z.of_nat (length w) - Z.of_nat (length pre))) = length w.
Proof.
  intros E. pose proof (f_equal length E) as El. rewrite !length_app in El. rewrite u64_small by lia. lia.
Qed.
End Buffers.

(** The parts of a computed conjunction; the first keeps the name. *)
Ltac split_checks H := repeat match type of H with (_ && _) = true => apply andb_prop in H as [H ?] end.

(** A law from the check of it among the hypotheses, without conversion. *)
Ltac by_check :=
  match goal with
  | H : ?x = true |- ?x = true => exact H
  | H : moves_text ?M ?F ?ok ?a ?F' = true |- moves ?M ?F (text_words ?ok) ?a ?F' = true =>
      exact (moves_text_spec M F ok a F' H)
  | H : quiet_text ?M ?F ?ok = true |- quiet ?M ?F (text_words ?ok) = true => exact (quiet_text_spec M F ok H)
  end.
