(* ===== verification/HttpParser.v ===== *)
(** * The HTTP parsers ([src/src/http_parser.cc], [include/http/http_parser.hh])

    The automata generated from the Ragel grammars are interfaces
    ([RequestAutomaton], [ResponseAutomaton]): what they report are callback
    invocations, and [http_parser.cc] is what the callbacks do to the message
    under construction.  [Http11] and [HttpclientParser] are the automata of the
    grammars, and instances of the interfaces. *)
From Stdlib Require Import Ascii String.
From S2P Require Import Prelude CString Http.

#[local] Open Scope string_scope.
#[local] Open Scope list_scope.
#[local] Open Scope Z_scope.

(** ** Requests *)

(** An invocation of one of the callbacks of [http_parser].  [at_] is the memory
    from the pointer on, for the callbacks that read beyond the length. *)
Inductive request_event :=
| EvMethod (at_ : bytes) (len : nat)
| EvUri (s : bytes)
| EvFragment (s : bytes)
| EvPath (s : bytes)
| EvQuery (s : bytes)
| EvVersion (at_ : bytes) (len : nat)
| EvHeaderDone
| EvField (field value : bytes).

(** The generated automaton: [ra_execute p data] is the new state, the callbacks
    made and the number of bytes consumed. *)
Class RequestAutomaton (P : Type) := {
  ra_init : P;
  ra_execute : P -> bytes -> P * list request_event * Z;
  ra_finish : P -> Z;
  ra_has_error : P -> bool
}.

(** What the generated code asserts of itself. *)
Class RequestAutomatonLaws (P : Type) `{RequestAutomaton P} := {
  ra_bound : forall p s p' evs n, ra_execute p s = (p', evs, n) -> 0 <= n <= Z.of_nat (length s);
  ra_finish_error : forall p, ra_has_error p = true -> ra_finish p = -1
}.

(** [src/include/http/http_parser.hh:82-86 HttpRequestParser] *)
Record HttpRequestParser (P : Type) := mkRP { rp_parser : P; rp_data : HttpRequest; rp_error : Z }.
Arguments mkRP {P} _ _ _.
Arguments rp_parser {P} _.
Arguments rp_data {P} _.
Arguments rp_error {P} _.

Section RequestParser.
Context {P : Type} `{RequestAutomaton P}.
Implicit Types p : HttpRequestParser P.

Definition rp_update (f : HttpRequest -> HttpRequest) p : HttpRequestParser P :=
  mkRP (rp_parser p) (f (rp_data p)) (rp_error p).

(** [src/include/http/http_parser.hh:58-58 HttpRequestParser::setError] *)
Definition setError (v : Z) p : HttpRequestParser P := mkRP (rp_parser p) (rp_data p) v.

(** [src/src/http_parser.cc:73-85 on_request_method] *)
Definition on_request_method (at_ : bytes) (len : nat) p : HttpRequestParser P :=
  let m := CharsToHttpMethod at_ in
  if bool_decide (m = INVAILD_METHOD) then setError 1000 p else rp_update (setMethod m) p.

(** [src/src/http_parser.cc:87-88 on_request_uri] *)
Definition on_request_uri (s : bytes) p : HttpRequestParser P := p.

(** [src/src/http_parser.cc:90-94 on_request_fragment] *)
Definition on_request_fragment (s : bytes) p : HttpRequestParser P := rp_update (setFragment s) p.

(** [src/src/http_parser.cc:96-99 on_request_path] *)
Definition on_request_path (s : bytes) p : HttpRequestParser P := rp_update (setPath s) p.

(** [src/src/http_parser.cc:101-104 on_request_query] *)
Definition on_request_query (s : bytes) p : HttpRequestParser P := rp_update (setQuery s) p.

(** [src/src/http_parser.cc:106-121 on_request_version] *)
Definition on_request_version (at_ : bytes) (len : nat) p : HttpRequestParser P :=
  if strneq len at_ (str "HTTP/1.1") then rp_update (setVersion 17) p
  else if strneq len at_ (str "HTTP/1.0") then rp_update (setVersion 16) p
  else setError 1001 p.

(** [src/src/http_parser.cc:123-145 on_request_header_done] *)
Definition on_request_header_done p : HttpRequestParser P :=
  let version := rq_version (rp_data p) in
  let conn := getHeader (rp_data p) (str "Connection") [] in
  if version =? 16 then
    if negb (strcasecmp conn (str "keep-alive") =? 0) then rp_update (setClose true) p else p
  else
    if strcasecmp conn (str "close") =? 0 then rp_update (setClose true) p
    else rp_update (setClose false) p.

(** [src/src/http_parser.cc:147-158 on_request_http_field] *)
Definition on_request_http_field (field value : bytes) p : HttpRequestParser P :=
  match field with [] => p | _ => rp_update (setHeader field value) p end.

(** [src/src/http_parser.cc:160-173 HttpRequestParser::HttpRequestParser] *)
Definition HttpRequestParser_new : HttpRequestParser P := mkRP ra_init (HttpRequest_new 17 false) 0.

(** The callback table the constructor fills in. *)
Definition on_request_event p (e : request_event) : HttpRequestParser P :=
  match e with
  | EvMethod a n => on_request_method a n p
  | EvUri s => on_request_uri s p
  | EvFragment s => on_request_fragment s p
  | EvPath s => on_request_path s p
  | EvQuery s => on_request_query s p
  | EvVersion a n => on_request_version a n p
  | EvHeaderDone => on_request_header_done p
  | EvField f v => on_request_http_field f v p
  end.

(** [src/src/http_parser.cc:179-183 HttpRequestParser::execute]
    The bytes consumed, and what is left of the data after the [memmove]. *)
Definition execute (data : bytes) p : Z * bytes * HttpRequestParser P :=
  let '(a, evs, offset) := ra_execute (rp_parser p) data in
  let p := fold_left on_request_event evs (mkRP a (rp_data p) (rp_error p)) in
  (offset, drop (Z.to_nat offset) data, p).

(** [src/src/http_parser.cc:185-187 HttpRequestParser::isFinished] *)
Definition isFinished p : Z := ra_finish (rp_parser p).

(** [src/src/http_parser.cc:189-191 HttpRequestParser::hasError] *)
Definition hasError p : bool := negb (rp_error p =? 0) || ra_has_error (rp_parser p).

(** [src/src/http_parser.cc:175-177 HttpRequestParser::getContentLength] *)
Definition getContentLength (lexical_cast : bytes -> option Z) p : Z :=
  getAs lexical_cast (rq_headers (rp_data p)) (str "content-length") 0.
End RequestParser.

(** ** Responses *)

Inductive response_event :=
| RvReason (s : bytes)
| RvStatus (at_ : bytes)
| RvChunk (s : bytes)
| RvVersion (at_ : bytes) (len : nat)
| RvHeaderDone
| RvLastChunk (s : bytes)
| RvField (field value : bytes).

(** The generated client automaton with the fields its user reads.  Callbacks are
    made while the automaton runs; the flag [close] each of them sees comes with
    it. *)
Class ResponseAutomaton (P : Type) := {
  rs_init : P -> P;
  rs_zero : P;
  rs_execute : P -> bytes -> P * list (response_event * bool) * Z;
  rs_finish : P -> Z;
  rs_has_error : P -> bool;
  rs_chunked : P -> bool;
  rs_chunks_done : P -> bool;
  rs_content_len : P -> Z
}.

(** [src/include/http/http_parser.hh:155-159 HttpResponseParser] *)
Record HttpResponseParser (P : Type) := mkSP { sp_parser : P; sp_data : HttpResponse; sp_error : Z }.
Arguments mkSP {P} _ _ _.
Arguments sp_parser {P} _.
Arguments sp_data {P} _.
Arguments sp_error {P} _.

Section ResponseParser.
Context {P : Type} `{ResponseAutomaton P}.
Implicit Types p : HttpResponseParser P.

Definition sp_update (f : HttpResponse -> HttpResponse) p : HttpResponseParser P :=
  mkSP (sp_parser p) (f (sp_data p)) (sp_error p).

(** [src/src/http_parser.cc:193-196 on_response_reason] *)
Definition on_response_reason (s : bytes) p : HttpResponseParser P := sp_update (rsp_setReason s) p.

(** [src/src/http_parser.cc:198-202 on_response_status] *)
Definition on_response_status (at_ : bytes) p : HttpResponseParser P :=
  sp_update (rsp_setStatus (atoi at_)) p.

(** [src/src/http_parser.cc:207-222 on_response_version] *)
Definition on_response_version (at_ : bytes) (len : nat) p : HttpResponseParser P :=
  if strneq len at_ (str "HTTP/1.1") then sp_update (rsp_setVersion 17) p
  else if strneq len at_ (str "HTTP/1.0") then sp_update (rsp_setVersion 16) p
  else mkSP (sp_parser p) (sp_data p) 1001.

(** [src/src/http_parser.cc:224-229 on_response_header_done]
    [close] is the flag of the automaton. *)
Definition on_response_header_done (close : bool) p : HttpResponseParser P :=
  sp_update (rsp_setClose close) p.

(** [src/src/http_parser.cc:234-244 on_response_http_field] *)
Definition on_response_http_field (field value : bytes) p : HttpResponseParser P :=
  match field with [] => p | _ => sp_update (rsp_setHeader field value) p end.

(** [src/src/http_parser.cc:246-259 HttpResponseParser::HttpResponseParser] *)
Definition HttpResponseParser_new : HttpResponseParser P :=
  mkSP (rs_init rs_zero) (HttpResponse_new 17 false) 0.

Definition on_response_event p (e : response_event * bool) : HttpResponseParser P :=
  match fst e with
  | RvReason s => on_response_reason s p
  | RvStatus a => on_response_status a p
  | RvVersion a n => on_response_version a n p
  | RvHeaderDone => on_response_header_done (snd e) p
  | RvField f v => on_response_http_field f v p
  | RvChunk _ | RvLastChunk _ => p
  end.

(** [src/src/http_parser.cc:261-275 HttpResponseParser::execute] *)
Definition rsp_execute (data : bytes) (chunck : bool) p : Z * bytes * HttpResponseParser P :=
  let a := if chunck then rs_init (sp_parser p) else sp_parser p in
  let '(a, evs, offset) := rs_execute a data in
  let p := fold_left on_response_event evs (mkSP a (sp_data p) (sp_error p)) in
  (offset, drop (Z.to_nat offset) data, p).

(** [src/src/http_parser.cc:277-279 HttpResponseParser::isFinished] *)
Definition rsp_isFinished p : Z := rs_finish (sp_parser p).

(** [src/src/http_parser.cc:281-283 HttpResponseParser::hasError] *)
Definition rsp_hasError p : bool := negb (sp_error p =? 0) || rs_has_error (sp_parser p).

(** [src/src/http_parser.cc:285-287 HttpResponseParser::getContentLength] *)
Definition rsp_getContentLength (lexical_cast : bytes -> option Z) p : Z :=
  getAs lexical_cast (rs_headers (sp_data p)) (str "content-length") 0.
End ResponseParser.
