(* ===== verification/Http11.v ===== *)
(** * The request parser ([src/rl/http11_parser.rl], [include/http/http11_parser.hh])

    The grammar of requests with its actions, the parser object, and its execution
    on a buffer: an instance of [RequestAutomaton]. *)
From Stdlib Require Import Ascii String.
From S2P Require Import Prelude Ragel CString HttpParser.

#[local] Open Scope string_scope.
#[local] Open Scope list_scope.
#[local] Open Scope Z_scope.

(** [src/src/rl/http11_parser.rl:53-121 http_parser] *)
Inductive action :=
| A_mark | A_start_field | A_write_field | A_start_value | A_write_value | A_request_method | A_request_uri
| A_fragment | A_start_query | A_query_string | A_http_version | A_request_path | A_done | A_xml | A_json.

#[export] Instance action_eq_dec : EqDecision action.
Proof. solve_decision. Defined.

(** ** The grammar *)

Module Grammar.
Section Grammar.
(** [uri_relaxed] of the parser. *)
Variable relaxed : bool.
#[local] Open Scope ragel_scope.
Notation re := (ragel action).
#[local] Notation txt s := (lit (str s%string)).
#[local] Notation set s := (one_of (str s%string)).

(** [src/src/rl/http11_parser.rl:125-125 CRLF] *)
Definition CRLF : re := lit [13; 10] ∥ ch 10.

(** [src/src/rl/http11_parser.rl:129-129 more_delims] *)
Definition more_delims (c : Z) : bool := set "{}^" c && relaxed.

(** [src/src/rl/http11_parser.rl:130-131 sub_delims] *)
Definition sub_delims : Z -> bool := either [set "!$&'()*+,;="; more_delims].

(** [src/src/rl/http11_parser.rl:134-134 unreserved] *)
Definition unreserved : Z -> bool := either [alpha_char; digit_char; set "-._~"].

(** [src/src/rl/http11_parser.rl:136-136 pct_encoded] *)
Definition pct_encoded : re := ch 37 • Chars xdigit_char • Chars xdigit_char.

(** [src/src/rl/http11_parser.rl:140-140 pchar] *)
Definition pchar : re := Chars (either [but any_char ascii_char; unreserved; sub_delims; set ":@"]) ∥ pct_encoded.

(** [src/src/rl/http11_parser.rl:142-142 fragment] *)
Definition fragment : re := Leaving A_fragment (Entering A_mark (Star (pchar ∥ Chars (set "/?")))).

(** [src/src/rl/http11_parser.rl:144-144 query] *)
Definition query : re := Leaving A_query_string (Star (pchar ∥ Chars (set "/?"))).

(** [src/src/rl/http11_parser.rl:147-147 segment_nz_nc] *)
Definition segment_nz_nc : re := plus (Chars (either [unreserved; sub_delims; set "@"]) ∥ pct_encoded).

(** [src/src/rl/http11_parser.rl:148-148 segment_nz] *)
Definition segment_nz : re := plus pchar.

(** [src/src/rl/http11_parser.rl:149-149 segment] *)
Definition segment : re := Star pchar.

(** [src/src/rl/http11_parser.rl:151-151 path_empty] *)
Definition path_empty : re := times 0 pchar.

(** [src/src/rl/http11_parser.rl:152-152 path_rootless] *)
Definition path_rootless : re := segment_nz • Star (txt "/" • segment).

(** [src/src/rl/http11_parser.rl:153-153 path_noscheme] *)
Definition path_noscheme : re := segment_nz_nc • Star (txt "/" • segment).

(** [src/src/rl/http11_parser.rl:154-154 path_absolute] *)
Definition path_absolute : re := txt "/" • opt (segment_nz • Star (txt "/" • segment)).

(** [src/src/rl/http11_parser.rl:155-155 path_abempty] *)
Definition path_abempty : re := Star (txt "/" • segment).

(** [src/src/rl/http11_parser.rl:164-164 reg_name] *)
Definition reg_name : re := Star (Chars (either [unreserved; sub_delims]) ∥ pct_encoded).

(** [src/src/rl/http11_parser.rl:166-171 dec_octet]
    The grammar writes the differences of ["1"] and ["9"], of ["0"] and ["4"] and
    of ["0"] and ["5"]: the first characters alone. *)
Definition dec_octet : re :=
  Chars digit_char
  ∥ Chars (but (set "1") (set "9")) • Chars digit_char
  ∥ txt "1" • times 2 (Chars digit_char)
  ∥ txt "2" • Chars (but (set "0") (set "4")) • Chars digit_char
  ∥ txt "25" • Chars (but (set "0") (set "5")).

(** [src/src/rl/http11_parser.rl:173-173 IPv4address] *)
Definition IPv4address : re := dec_octet • txt "." • dec_octet • txt "." • dec_octet • txt "." • dec_octet.

(** [src/src/rl/http11_parser.rl:174-174 h16] *)
Definition h16 : re := between 1 4 (Chars xdigit_char).

(** [src/src/rl/http11_parser.rl:175-175 ls32] *)
Definition ls32 : re := (h16 • txt ":" • h16) ∥ IPv4address.

(** [src/src/rl/http11_parser.rl:177-177 IPv6address]
    The part [h16 ":"]. *)
Definition h16c : re := h16 • txt ":".

(** [src/src/rl/http11_parser.rl:177-186 IPv6address] *)
Definition IPv6address : re :=
  times 6 h16c • ls32
  ∥ txt "::" • times 5 h16c • ls32
  ∥ opt h16 • txt "::" • times 4 h16c • ls32
  ∥ opt (at_least 1 h16c • h16) • txt "::" • times 3 h16c • ls32
  ∥ opt (at_least 2 h16c • h16) • txt "::" • times 2 h16c • ls32
  ∥ opt (at_least 3 h16c • h16) • txt "::" • h16 • txt ":" • ls32
  ∥ opt (at_least 4 h16c • h16) • txt "::" • ls32
  ∥ opt (at_least 5 h16c • h16) • txt "::" • h16
  ∥ opt (at_least 6 h16c • h16) • txt "::".

(** [src/src/rl/http11_parser.rl:188-188 IPvFuture] *)
Definition IPvFuture : re :=
  txt "v" • plus (Chars xdigit_char) • txt "." • plus (Chars (either [unreserved; sub_delims; set ":"])).

(** [src/src/rl/http11_parser.rl:190-190 IP_literal] *)
Definition IP_literal : re := txt "[" • (IPv6address ∥ IPvFuture) • txt "]".

(** [src/src/rl/http11_parser.rl:192-192 port] *)
Definition port : re := Star (Chars digit_char).

(** [src/src/rl/http11_parser.rl:193-193 host] *)
Definition host : re := IP_literal ∥ IPv4address ∥ reg_name.

(** [src/src/rl/http11_parser.rl:194-194 userinfo] *)
Definition userinfo : re := Star (Chars (either [unreserved; sub_delims; set ":"]) ∥ pct_encoded).

(** [src/src/rl/http11_parser.rl:195-195 authority] *)
Definition authority : re := opt (userinfo • txt "@") • host • opt (txt ":" • port).

(** [src/src/rl/http11_parser.rl:197-197 scheme] *)
Definition scheme : re := Chars alpha_char • Star (Chars (either [alpha_char; digit_char; set "+-."])).

(** [src/src/rl/http11_parser.rl:199-203 relative_part] *)
Definition relative_part : re := txt "//" • authority • path_abempty ∥ path_absolute ∥ path_noscheme ∥ path_empty.

(** [src/src/rl/http11_parser.rl:206-210 hier_part] *)
Definition hier_part : re := txt "//" • authority • path_abempty ∥ path_absolute ∥ path_rootless ∥ path_empty.

(** [src/src/rl/http11_parser.rl:214-214 relative_ref]
    A path and a query, in [URI] too. *)
Definition with_query (part : re) : re :=
  Leaving A_request_uri (Entering A_mark
    (Leaving A_request_path part • opt (Leaving A_start_query (txt "?") • query))).

(** [src/src/rl/http11_parser.rl:214-214 relative_ref] *)
Definition relative_ref : re := with_query relative_part • opt (txt "#" • fragment).

(** [src/src/rl/http11_parser.rl:215-215 URI] *)
Definition URI : re := scheme • txt ":" • with_query hier_part • opt (txt "#" • fragment).

(** [src/src/rl/http11_parser.rl:217-217 URI_reference] *)
Definition URI_reference : re := URI ∥ relative_ref.

(** [src/src/rl/http11_parser.rl:220-220 Method] *)
Definition Method : re :=
  Leaving A_request_method (Entering A_mark (between 1 20 (Chars (either [upper_char; digit_char])))).

(** [src/src/rl/http11_parser.rl:222-223 HTTP_Version] *)
Definition HTTP_Version : re := Leaving A_http_version (Entering A_mark (txt "HTTP/" • (txt "1." • Chars (set "01")))).

(** [src/src/rl/http11_parser.rl:224-224 Request_Line] *)
Definition Request_Line : re := Method • ch 32 • URI_reference • ch 32 • HTTP_Version • CRLF.

(** [src/src/rl/http11_parser.rl:226-226 HTTP_CTL]
    [0 - 31] is the difference of the
    characters 0 and 31, that is 0. *)
Definition HTTP_CTL : Z -> bool := either [but (Z.eqb 0) (Z.eqb 31); Z.eqb 127].

(** [src/src/rl/http11_parser.rl:227-231 HTTP_separator] *)
Definition HTTP_separator : Z -> bool :=
  either [set "()<>@,;:\/[]?={}"; one_of [34]; one_of [32; 9]].

(** [src/src/rl/http11_parser.rl:233-233 lws] *)
Definition lws : re := opt CRLF • plus (Chars (one_of [32; 9])).

(** [src/src/rl/http11_parser.rl:234-234 token] *)
Definition token : Z -> bool := but ascii_char (either [HTTP_CTL; HTTP_separator]).

(** [src/src/rl/http11_parser.rl:235-235 content] *)
Definition content : re := Chars (but any_char HTTP_CTL) ∥ lws.

(** [src/src/rl/http11_parser.rl:237-237 field_name] *)
Definition field_name : re := Leaving A_write_field (Entering A_start_field (plus (Chars token))).

(** [src/src/rl/http11_parser.rl:239-239 field_value] *)
Definition field_value : re := Leaving A_write_value (Entering A_start_value (Star content)).

(** [src/src/rl/http11_parser.rl:241-241 message_header] *)
Definition message_header : re := EntryGuarded (field_name • txt ":" • Star lws • field_value) CRLF.

(** [src/src/rl/http11_parser.rl:243-243 Request] *)
Definition Request : re := Request_Line • Star message_header • CRLF.

(** [src/src/rl/http11_parser.rl:245-245 SocketJSONStart] *)
Definition SocketJSONStart : re := txt "@" • relative_part.

(** [src/src/rl/http11_parser.rl:246-246 SocketJSONData] *)
Definition SocketJSONData : re := FinishGuarded (txt "{" • Star (Chars any_char) • txt "}") (ch 0).

(** [src/src/rl/http11_parser.rl:248-248 SocketXMLData] *)
Definition SocketXMLData : re :=
  FinishGuarded
    (Leaving A_request_path (Entering A_mark
       (txt "<" • plus (Chars (either [lower_char; digit_char; upper_char; set "-."]))))
     • Chars (either [set "/"; space_char; set ">"]) • Star (Chars any_char) • txt ">") (ch 0).

(** [src/src/rl/http11_parser.rl:250-250 SocketJSON] *)
Definition SocketJSON : re :=
  Leaving A_request_path (Entering A_mark SocketJSONStart) • ch 32
  • Finishing A_json (Entering A_mark SocketJSONData).

(** [src/src/rl/http11_parser.rl:251-251 SocketXML] *)
Definition SocketXML : re := Finishing A_xml SocketXMLData.

(** [src/src/rl/http11_parser.rl:253-253 SocketRequest] *)
Definition SocketRequest : re := SocketXML ∥ SocketJSON.

(** [src/src/rl/http11_parser.rl:255-255 main] *)
Definition main : re := Finishing A_done (Request ∥ SocketRequest).
End Grammar.
End Grammar.

(** The machine for each value of [uri_relaxed]. *)
Definition strict_machine : automaton action := automaton_of (Grammar.main false).
Definition relaxed_machine : automaton action := automaton_of (Grammar.main true).
Definition machine_of (relaxed : bool) : automaton action := if relaxed then relaxed_machine else strict_machine.

(** ** The parser *)

(** [src/include/http/http11_parser.hh:6-16 http_parser]
    And [uri_relaxed].  [cs] is a set of states of the automaton; the callbacks are
    collected as events. *)
Record http_parser := mkParser {
  cs : list N; body_start : Z; content_len : Z; nread : Z; mark : Z; field_start : Z; field_len : Z;
  query_start : Z; xml_sent : bool; json_sent : bool; uri_relaxed : bool
}.

(** The parser and the callbacks made so far. *)
Definition running : Type := http_parser * list request_event.

Definition set_cs (x : list N) (p : http_parser) :=
  mkParser x (body_start p) (content_len p) (nread p) (mark p) (field_start p) (field_len p) (query_start p)
    (xml_sent p) (json_sent p) (uri_relaxed p).
Definition set_mark (x : Z) (p : http_parser) :=
  mkParser (cs p) (body_start p) (content_len p) (nread p) x (field_start p) (field_len p) (query_start p)
    (xml_sent p) (json_sent p) (uri_relaxed p).
Definition set_field_start (x : Z) (p : http_parser) :=
  mkParser (cs p) (body_start p) (content_len p) (nread p) (mark p) x (field_len p) (query_start p)
    (xml_sent p) (json_sent p) (uri_relaxed p).
Definition set_field_len (x : Z) (p : http_parser) :=
  mkParser (cs p) (body_start p) (content_len p) (nread p) (mark p) (field_start p) x (query_start p)
    (xml_sent p) (json_sent p) (uri_relaxed p).
Definition set_query_start (x : Z) (p : http_parser) :=
  mkParser (cs p) (body_start p) (content_len p) (nread p) (mark p) (field_start p) (field_len p) x
    (xml_sent p) (json_sent p) (uri_relaxed p).
Definition set_sent (xml json : bool) (p : http_parser) :=
  mkParser (cs p) (body_start p) (content_len p) (nread p) (mark p) (field_start p) (field_len p) (query_start p)
    xml json (uri_relaxed p).
Definition set_body (b c : Z) (p : http_parser) :=
  mkParser (cs p) b c (nread p) (mark p) (field_start p) (field_len p) (query_start p)
    (xml_sent p) (json_sent p) (uri_relaxed p).
Definition set_nread (x : Z) (p : http_parser) :=
  mkParser (cs p) (body_start p) (content_len p) x (mark p) (field_start p) (field_len p) (query_start p)
    (xml_sent p) (json_sent p) (uri_relaxed p).

Section Parser.
Variable buffer : bytes.

Definition upd (f : http_parser -> http_parser) : M running bool := fun u => (Ok false, (f (fst u), snd u)).
Definition callback (e : http_parser -> request_event) : M running bool :=
  fun u => (Ok false, (fst u, snd u ++ [e (fst u)])).

(** [src/src/rl/http11_parser.rl:53-121 http_parser]
    The code of the actions at the position [p]. *)
Definition act (a : action) (p : Z) : M running bool :=
  let len from := u64 (p - from) in
  let ptr_to := ptr_to buffer in
  let element := element buffer in
  match a with
  | A_mark | A_start_value => upd (set_mark p)
  | A_start_field => upd (set_field_start p)
  | A_write_field => upd (fun x => set_field_len (len (field_start x)) x)
  | A_write_value => callback (fun x => EvField (element (field_start x) (field_len x)) (element (mark x) (len (mark x))))
  | A_request_method => callback (fun x => EvMethod (ptr_to (mark x)) (Z.to_nat (len (mark x))))
  | A_request_uri => callback (fun x => EvUri (element (mark x) (len (mark x))))
  | A_fragment => callback (fun x => EvFragment (element (mark x) (len (mark x))))
  | A_start_query => upd (set_query_start p)
  | A_query_string => callback (fun x => EvQuery (element (query_start x) (len (query_start x))))
  | A_http_version => callback (fun x => EvVersion (ptr_to (mark x)) (Z.to_nat (len (mark x))))
  | A_request_path => callback (fun x => EvPath (element (mark x) (len (mark x))))
  | A_xml => upd (fun x => set_sent true (json_sent x) x)
  | A_json => upd (fun x => set_sent (xml_sent x) true x)
  | A_done => fun u =>
      let x := fst u in
      if xml_sent x || json_sent x then (Ok true, (set_body (mark x) (s32 (p - mark x + 1)) x, snd u))
      else (Ok true, (set_body (p + 1) (content_len x) x, snd u ++ [EvHeaderDone]))
  end.
End Parser.

(** [src/src/rl/http11_parser.rl:262-276 http_parser_init]
    [p] is the memory of the parser; [query_start] and [uri_relaxed] stay. *)
Definition http_parser_init (p : http_parser) : http_parser :=
  mkParser [0%N] 0 0 0 0 0 0 (query_start p) false false (uri_relaxed p).

(** [src/src/rl/http11_parser.rl:329-331 http_parser_has_error] *)
Definition http_parser_has_error (p : http_parser) : bool := bool_decide (cs p = []).

(** [src/src/rl/http11_parser.rl:333-335 http_parser_is_finished] *)
Definition http_parser_is_finished (p : http_parser) : bool := is_final (machine_of (uri_relaxed p)) (cs p).

(** [src/src/rl/http11_parser.rl:318-327 http_parser_finish] *)
Definition http_parser_finish (p : http_parser) : Z :=
  if http_parser_has_error p then -1 else if http_parser_is_finished p then 1 else 0.

Definition reset_marks (p : http_parser) : http_parser :=
  mkParser (cs p) (body_start p) (content_len p) 0 0 0 0 (query_start p) (xml_sent p) (json_sent p) (uri_relaxed p).

(** [src/src/rl/http11_parser.rl:280-316 http_parser_execute]
    The pointers are positions in the buffer. *)
Definition http_parser_execute (buffer : bytes) (off : Z) : M running Z :=
  let len := Z.of_nat (length buffer) in
  if len =? 0 then mret 0 else
  modify (fun u => (reset_marks (fst u), snd u));;
  u ← get;
  sylar_assert (off <=? len);;
  same_distance len off;;
  '(cs', p) ← exec (machine_of (uri_relaxed (fst u))) (act buffer) (cs (fst u)) off (drop (Z.to_nat off) buffer);
  sylar_assert (p <=? len);;
  modify (fun u => (if http_parser_has_error (fst u) then fst u else set_cs cs' (fst u), snd u));;
  modify (fun u => (set_nread (nread (fst u) + (p - off)) (fst u), snd u));;
  u ← get;
  let x := fst u in
  sylar_assert (nread x <=? len);;
  sylar_assert (body_start x <=? len);;
  sylar_assert (mark x <? len);;
  sylar_assert (field_len x <=? len);;
  sylar_assert (field_start x <? len);;
  mret (nread x).

Section Instance_.
(** What is in the memory of the parser before it is initialised. *)
Variable memory : http_parser.

(** The parser as [http_parser.cc] uses it. *)
Definition request_automaton : RequestAutomaton http_parser := {|
  ra_init := http_parser_init memory;
  ra_execute p s :=
    match http_parser_execute s 0 (p, []) with
    | (Ok n, (p', evs)) => (p', evs, n)
    | (Err _, (p', evs)) => (p', evs, 0)
    end;
  ra_finish := http_parser_finish;
  ra_has_error := http_parser_has_error
|}.
End Instance_.
