(* ===== verification/HttpclientParser.v ===== *)
(** * The response parser ([src/rl/httpclient_parser.rl], [include/http/httpclient_parser.hh])

    The grammar of responses and of the headers of chunks, with its actions, the
    parser object, and its execution on a buffer: an instance of
    [ResponseAutomaton]. *)
From Stdlib Require Import Ascii String.
From S2P Require Import Prelude Ragel CString HttpParser.

#[local] Open Scope string_scope.
#[local] Open Scope list_scope.
#[local] Open Scope Z_scope.

(** [src/src/rl/httpclient_parser.rl:53-115 httpclient_parser] *)
Inductive rsp_action :=
| R_mark | R_start_field | R_write_field | R_start_value | R_write_content_len | R_write_connection_close
| R_write_value | R_reason_phrase | R_status_code | R_http_version | R_chunk_size | R_trans_chunked | R_done.

#[export] Instance rsp_action_eq_dec : EqDecision rsp_action.
Proof. solve_decision. Defined.

(** ** The grammar *)

Module RspGrammar.
#[local] Open Scope ragel_scope.
Notation re := (ragel rsp_action).
#[local] Notation txt s := (lit (str s%string)).
#[local] Notation set s := (one_of (str s%string)).

(** [src/src/rl/httpclient_parser.rl:118-118 CRLF] *)
Definition CRLF : re := lit [13; 10] ∥ ch 10.

(** [src/src/rl/httpclient_parser.rl:121-121 CTL] *)
Definition CTL : Z -> bool := either [cntrl_char; Z.eqb 127].

(** [src/src/rl/httpclient_parser.rl:122-122 tspecials] *)
Definition tspecials : Z -> bool := either [set "()<>@,;:\/[]?={}"; one_of [34]; one_of [32; 9]].

(** [src/src/rl/httpclient_parser.rl:125-125 token] *)
Definition token : Z -> bool := but ascii_char (either [CTL; tspecials]).

(** [src/src/rl/httpclient_parser.rl:127-127 Reason_Phrase]
    The characters that hold no [CRLF] are all but the line feed. *)
Definition Reason_Phrase : re := Leaving R_reason_phrase (Entering R_mark (plus (Chars (but any_char (Z.eqb 10))))).

(** [src/src/rl/httpclient_parser.rl:128-128 Status_Code] *)
Definition Status_Code : re := Leaving R_status_code (Entering R_mark (plus (Chars digit_char))).

(** [src/src/rl/httpclient_parser.rl:129-129 http_number] *)
Definition http_number : re := plus (Chars digit_char) • txt "." • plus (Chars digit_char).

(** [src/src/rl/httpclient_parser.rl:130-130 HTTP_Version] *)
Definition HTTP_Version : re := Leaving R_http_version (Entering R_mark (txt "HTTP/" • http_number)).

(** [src/src/rl/httpclient_parser.rl:131-131 Status_Line] *)
Definition Status_Line : re :=
  EntryGuarded (HTTP_Version • ch 32 • Status_Code • ch 32 • Reason_Phrase) CRLF.

(** [src/src/rl/httpclient_parser.rl:133-133 field_name] *)
Definition field_name : re := Leaving R_write_field (Entering R_start_field (plus (Chars token))).

(** [src/src/rl/httpclient_parser.rl:134-134 field_value] *)
Definition field_value : re := Leaving R_write_value (Entering R_start_value (Star (Chars any_char))).

(** [src/src/rl/httpclient_parser.rl:135-135 fields] *)
Definition fields : re := EntryGuarded (field_name • txt ":" • Star (Chars space_char) • field_value) CRLF.

(** [src/src/rl/httpclient_parser.rl:137-138 content_length] *)
Definition content_length : re :=
  Leaving R_write_field (Entering R_start_field (lit_i (str "Content-Length"))) • txt ":" • Star (Chars space_char)
  • Leaving R_write_value (Leaving R_write_content_len (Entering R_start_value (plus (Chars digit_char)))) • CRLF.

(** [src/src/rl/httpclient_parser.rl:140-140 conn_close] *)
Definition conn_close : re :=
  (lit_i (str "Connection") • txt ":" • Star (Chars space_char) • lit_i (str "close"))
  • Leaving R_write_connection_close CRLF.

(** [src/src/rl/httpclient_parser.rl:142-143 transfer_encoding_chunked] *)
Definition transfer_encoding_chunked : re :=
  (Leaving R_write_field (Entering R_start_field (lit_i (str "Transfer-Encoding"))) • txt ":" • Star (Chars space_char)
   • Leaving R_write_value (Entering R_start_value (lit_i (str "chunked"))))
  • Finishing R_trans_chunked CRLF.

(** [src/src/rl/httpclient_parser.rl:145-145 message_header] *)
Definition message_header : re := transfer_encoding_chunked ∥ conn_close ∥ content_length ∥ fields.

(** [src/src/rl/httpclient_parser.rl:147-147 Response] *)
Definition Response : re := Status_Line • Star message_header • CRLF.

(** [src/src/rl/httpclient_parser.rl:149-149 chunk_ext_val] *)
Definition chunk_ext_val : re := plus (Chars token).

(** [src/src/rl/httpclient_parser.rl:150-150 chunk_ext_name] *)
Definition chunk_ext_name : re := plus (Chars token).

(** [src/src/rl/httpclient_parser.rl:151-151 chunk_extension] *)
Definition chunk_extension : re :=
  Star (txt ";" • Leaving R_start_value (Leaving R_write_field (Entering R_start_field chunk_ext_name))
        • Leaving R_write_value (opt (txt "=" • Entering R_start_value chunk_ext_val))).

(** [src/src/rl/httpclient_parser.rl:152-152 chunk_size] *)
Definition chunk_size : re := plus (Chars xdigit_char).

(** [src/src/rl/httpclient_parser.rl:153-153 Chunked_Header] *)
Definition Chunked_Header : re :=
  EntryGuarded (Leaving R_chunk_size (Entering R_mark chunk_size) • chunk_extension) CRLF.

(** [src/src/rl/httpclient_parser.rl:155-155 main] *)
Definition main : re := Finishing R_done (Response ∥ Chunked_Header).
End RspGrammar.

Definition rsp_machine : automaton rsp_action := automaton_of RspGrammar.main.

(** ** The parser *)

(** [src/include/http/httpclient_parser.hh:40-51 httpclient_parser]
    [cs] is a set of states of the automaton; the callbacks are collected as
    events, each with the value of [close] at the time. *)
Record httpclient_parser := mkRspParser {
  rcs : list N; rbody_start : Z; rcontent_len : Z; rstatus : Z; rchunked : bool; rchunks_done : bool; rclose : bool;
  rnread : Z; rmark : Z; rfield_start : Z; rfield_len : Z
}.

Definition rsp_running : Type := httpclient_parser * list (response_event * bool).

Definition rset_cs (x : list N) (p : httpclient_parser) :=
  mkRspParser x (rbody_start p) (rcontent_len p) (rstatus p) (rchunked p) (rchunks_done p) (rclose p) (rnread p)
    (rmark p) (rfield_start p) (rfield_len p).
Definition rset_mark (x : Z) (p : httpclient_parser) :=
  mkRspParser (rcs p) (rbody_start p) (rcontent_len p) (rstatus p) (rchunked p) (rchunks_done p) (rclose p) (rnread p)
    x (rfield_start p) (rfield_len p).
Definition rset_field_start (x : Z) (p : httpclient_parser) :=
  mkRspParser (rcs p) (rbody_start p) (rcontent_len p) (rstatus p) (rchunked p) (rchunks_done p) (rclose p) (rnread p)
    (rmark p) x (rfield_len p).
Definition rset_field_len (x : Z) (p : httpclient_parser) :=
  mkRspParser (rcs p) (rbody_start p) (rcontent_len p) (rstatus p) (rchunked p) (rchunks_done p) (rclose p) (rnread p)
    (rmark p) (rfield_start p) x.
Definition rset_content_len (x : Z) (p : httpclient_parser) :=
  mkRspParser (rcs p) (rbody_start p) x (rstatus p) (rchunked p) (rchunks_done p) (rclose p) (rnread p)
    (rmark p) (rfield_start p) (rfield_len p).
Definition rset_status (x : Z) (p : httpclient_parser) :=
  mkRspParser (rcs p) (rbody_start p) (rcontent_len p) x (rchunked p) (rchunks_done p) (rclose p) (rnread p)
    (rmark p) (rfield_start p) (rfield_len p).
Definition rset_chunked (x done : bool) (p : httpclient_parser) :=
  mkRspParser (rcs p) (rbody_start p) (rcontent_len p) (rstatus p) x done (rclose p) (rnread p)
    (rmark p) (rfield_start p) (rfield_len p).
Definition rset_close (x : bool) (p : httpclient_parser) :=
  mkRspParser (rcs p) (rbody_start p) (rcontent_len p) (rstatus p) (rchunked p) (rchunks_done p) x (rnread p)
    (rmark p) (rfield_start p) (rfield_len p).
Definition rset_body_start (x : Z) (p : httpclient_parser) :=
  mkRspParser (rcs p) x (rcontent_len p) (rstatus p) (rchunked p) (rchunks_done p) (rclose p) (rnread p)
    (rmark p) (rfield_start p) (rfield_len p).
Definition rset_nread (x : Z) (p : httpclient_parser) :=
  mkRspParser (rcs p) (rbody_start p) (rcontent_len p) (rstatus p) (rchunked p) (rchunks_done p) (rclose p) x
    (rmark p) (rfield_start p) (rfield_len p).

Section RspParser.
Variable buffer : bytes.

(** [strtol] runs into the NUL after the buffer. *)
Definition rnumber (base from : Z) : Z := s32 (strtol base (ptr_to buffer from ++ [0])).

Definition rupd (f : httpclient_parser -> httpclient_parser) : M rsp_running bool :=
  fun u => (Ok false, (f (fst u), snd u)).
Definition rcallback (e : httpclient_parser -> response_event) : M rsp_running bool :=
  fun u => (Ok false, (fst u, snd u ++ [(e (fst u), rclose (fst u))])).

(** [src/src/rl/httpclient_parser.rl:53-115 httpclient_parser]
    The code of the actions at the position [p]. *)
Definition ract (a : rsp_action) (p : Z) : M rsp_running bool :=
  let len from := u64 (p - from) in
  match a with
  | R_mark | R_start_value => rupd (rset_mark p)
  | R_start_field => rupd (rset_field_start p)
  | R_write_field => rupd (fun x => rset_field_len (len (rfield_start x)) x)
  | R_write_content_len => rupd (fun x => rset_content_len (rnumber 10 (rmark x)) x)
  | R_write_connection_close => rupd (rset_close true)
  | R_write_value =>
      rcallback (fun x => RvField (element buffer (rfield_start x) (rfield_len x)) (element buffer (rmark x) (len (rmark x))))
  | R_reason_phrase => rcallback (fun x => RvReason (element buffer (rmark x) (len (rmark x))))
  | R_status_code =>
      rupd (fun x => rset_status (rnumber 10 (rmark x)) x);; rcallback (fun x => RvStatus (ptr_to buffer (rmark x)))
  | R_http_version => rcallback (fun x => RvVersion (ptr_to buffer (rmark x)) (Z.to_nat (len (rmark x))))
  | R_chunk_size =>
      rupd (fun x => let n := rnumber 16 (rmark x) in rset_chunked true (n <=? 0) (rset_content_len n x));;
      rcallback (fun x => (if rchunks_done x then RvLastChunk else RvChunk) (element buffer (rmark x) (len (rmark x))))
  | R_trans_chunked => rupd (fun x => rset_chunked true (rchunks_done x) x)
  | R_done =>
      rupd (rset_body_start (p + 1));; rcallback (fun _ => RvHeaderDone);; mret true
  end.
End RspParser.

(** [src/src/rl/httpclient_parser.rl:161-178 httpclient_parser_init]
    [status] stays. *)
Definition httpclient_parser_init (p : httpclient_parser) : httpclient_parser :=
  mkRspParser [0%N] 0 (-1) (rstatus p) false false false 0 0 0 0.

(** [src/src/rl/httpclient_parser.rl:236-238 httpclient_parser_has_error] *)
Definition httpclient_parser_has_error (p : httpclient_parser) : bool := bool_decide (rcs p = []).

(** [src/src/rl/httpclient_parser.rl:240-242 httpclient_parser_is_finished]
    The state is compared with the first final state.  The states are numbered
    depth first along the characters, so that it is the one the header of a chunk
    ends in, from which there is no way on; the end of a response is the same
    state after minimisation, unless a field could still go on. *)
Definition httpclient_parser_is_finished (p : httpclient_parser) : bool :=
  is_final rsp_machine (rcs p) && bool_decide (concat (map (outgoing rsp_machine) (rcs p)) = []).

(** [src/src/rl/httpclient_parser.rl:223-234 httpclient_parser_finish] *)
Definition httpclient_parser_finish (p : httpclient_parser) : Z :=
  if httpclient_parser_has_error p then -1 else if httpclient_parser_is_finished p then 1 else 0.

Definition rreset_marks (p : httpclient_parser) : httpclient_parser :=
  mkRspParser (rcs p) (rbody_start p) (rcontent_len p) (rstatus p) (rchunked p) (rchunks_done p) (rclose p) 0 0 0 0.

(** [src/src/rl/httpclient_parser.rl:182-221 httpclient_parser_execute]
    A failed [check] returns -1.  The byte after the data is not part of [buffer]: both
    callers ([http_connection.cc], lines 50 and 88) write the NUL there that the second
    assertion looks for. *)
Definition httpclient_parser_execute (buffer : bytes) (off : Z) : M rsp_running Z :=
  let len := Z.of_nat (length buffer) in
  modify (fun u => (rreset_marks (fst u), snd u));;
  u ← get;
  sylar_assert (off <=? len);;
  same_distance len off;;
  '(cs', p) ← exec rsp_machine (ract buffer) (rcs (fst u)) off (drop (Z.to_nat off) buffer);
  modify (fun u => (rset_nread (rnread (fst u) + (p - off)) (rset_cs cs' (fst u)), snd u));;
  sylar_assert (p <=? len);;
  u ← get;
  let x := fst u in
  sylar_assert (rnread x <=? len);;
  sylar_assert (rbody_start x <=? len);;
  if negb (rmark x <? len) then mret (-1)
  else if negb (rfield_len x <=? len) then mret (-1)
  else if negb (rfield_start x <? len) then mret (-1)
  else mret (rnread x).

Section Instance_.
(** What is in the memory of the parser before it is initialised. *)
Variable memory : httpclient_parser.

(** The parser as [http_parser.cc] uses it. *)
Definition response_automaton : ResponseAutomaton httpclient_parser := {|
  rs_init := httpclient_parser_init;
  rs_zero := memory;
  rs_execute p s :=
    match httpclient_parser_execute s 0 (p, []) with
    | (Ok n, (p', evs)) => (p', evs, n)
    | (Err _, (p', evs)) => (p', evs, 0)
    end;
  rs_finish := httpclient_parser_finish;
  rs_has_error := httpclient_parser_has_error;
  rs_chunked := rchunked;
  rs_chunks_done := rchunks_done;
  rs_content_len := rcontent_len
|}.
End Instance_.
