(* ===== verification/HttpSession.v ===== *)
(** * HTTP sessions ([src/src/http_session.cc], [include/http/http_session.hh])

    Receiving a request over a stream and sending the response.  The bytes of
    the receive buffer that are not parsed yet are [pending]: [execute] moves
    them to the front of the buffer. *)
From Stdlib Require Import Ascii String.
From S2P Require Import Prelude CString Http HttpSpec Stream HttpParser.

#[local] Open Scope string_scope.
#[local] Open Scope list_scope.
#[local] Open Scope Z_scope.

Section Sessions.
Context {P : Type} `{RequestAutomaton P} {T : Type} `{Stream T}.
Variable lexical_cast : bytes -> option Z.

Definition stream_read (n : Z) : M T (Z * bytes) :=
  fun s => let '(x, s') := st_read n s in (Ok x, s').

(** [close(); return nullptr;] *)
Definition close_null {A} : M T (option A) := modify st_close;; mret None.

(** [src/src/http_session.cc:25-58 HttpSession::recvRequest]
    The loop that reads and parses the head of the request; one unit of fuel per
    read. *)
Fixpoint recv_head (fuel : nat) (buffer_size : Z) (pending : bytes) (p : HttpRequestParser P)
    : M T (option (bytes * HttpRequestParser P)) :=
  match fuel with
  | O => fail OutOfFuel
  | S fuel =>
      '(read_size, bs) ← stream_read (u64 (buffer_size - Z.of_nat (length pending)));
      if read_size <=? 0 then close_null else
      let '(nparser, rest, p) := execute (pending ++ bs) p in
      if hasError p then close_null else
      if Z.of_nat (length rest) =? s32 buffer_size then close_null else
      if negb (isFinished p =? 0) then mret (Some (rest, p)) else
      recv_head fuel buffer_size rest p
  end.

(** [src/src/http_session.cc:60-102 HttpSession::recvRequest]
    The body: what is pending of it, and the rest from the stream. *)
Definition recv_body (fuel : nat) (pending : bytes) (p : HttpRequestParser P)
    : M T (option HttpRequest) :=
  let content_size := s64 (getContentLength lexical_cast p) in
  if content_size >? 0 then
    let body := take (Z.to_nat (Z.min (Z.of_nat (length pending)) content_size)) pending in
    let need := content_size - Z.of_nat (length body) in
    if need >? 0 then
      '(r, buf) ← readFixSize fuel (repeat 0 (Z.to_nat need)) need;
      if r <=? 0 then close_null else mret (Some (setBody (body ++ buf) (rp_data p)))
    else mret (Some (setBody body (rp_data p)))
  else mret (Some (rp_data p)).

(** [src/src/http_session.cc:15-103 HttpSession::recvRequest] *)
Definition recvRequest (fuel : nat) (buffer_size : Z) : M T (option HttpRequest) :=
  h ← recv_head fuel buffer_size [] HttpRequestParser_new;
  match h with
  | None => mret None
  | Some (pending, p) => recv_body fuel pending p
  end.

(** [src/src/http_session.cc:105-111 HttpSession::sendResponse]
    [c_str()] is followed by a NUL. *)
Definition sendResponse (fuel : nat) (rsp : HttpResponse) : M T Z :=
  let data := HttpResponse_dump rsp in
  writeFixSize fuel (data ++ [0]) (Z.of_nat (length data)).
End Sessions.

(** ** Termination of the head loop *)

Definition incoming (s : SocketStream Peer) : nat :=
  match m_socket s with Some k => length (concat (p_incoming k)) | None => 0 end.

Definition still_open (s : SocketStream Peer) : bool := isConnected s.

(** A positive read takes at least a byte from the peer. *)
Lemma stream_read_peer n (s : SocketStream Peer) r bs s' :
  stream_read n s = (Ok (r, bs), s') -> (0 < r -> (incoming s' < incoming s)%nat)
  /\ Z.of_nat (length bs) = Z.max 0 r /\ r <= Z.max 0 n.
Proof.
  unfold stream_read. destruct (st_read n s) as [[r0 bs0] s0] eqn:E. intros [= -> -> ->].
  pose proof (st_read_law _ _ _ _ _ E) as Hlaw.
  destruct (Z.ltb_spec 0 r); [|subst bs; cbn [length]; lia].
  split; [intros _|lia].
  destruct s as [[[o [|c cs] out]|] w]; cbn in E; unfold SocketStream_read in E; cbn in E;
    destruct o || idtac; cbn in E; try (injection E; intros; subst; lia).
  destruct (Z.leb_spec (Z.of_nat (length c)) n); injection E; intros; subst; unfold incoming;
    cbn [m_socket p_incoming concat]; rewrite !length_app, ?length_drop, ?length_take in *; lia.
Qed.

Section HeadLoop.
Context {P : Type} `{RequestAutomaton P}.

(** The loop ends once the peer has nothing more to send: it finishes with a
    parsed head, or closes the stream. *)
Lemma recv_head_ends fuel : forall buffer_size pending (p : HttpRequestParser P) (s : SocketStream Peer),
  (incoming s < fuel)%nat ->
  (exists rest p' s', recv_head fuel buffer_size pending p s = (Ok (Some (rest, p')), s')
     /\ hasError p' = false /\ isFinished p' <> 0 /\ (incoming s' < incoming s)%nat)
  \/ (exists s', recv_head fuel buffer_size pending p s = (Ok None, s') /\ still_open s' = false).
Proof.
  induction fuel as [|fuel IH]; intros buffer_size pending p s Hf; [lia|].
  cbn [recv_head]. unfold mbind, M_bind.
  destruct (stream_read _ s) as [[[r bs]|e] s1] eqn:Er;
    [|unfold stream_read in Er; by destruct (st_read _ s)].
  apply stream_read_peer in Er as (Hdec & _ & _).
  assert (still_open (st_close s1) = false) as Hclosed.
  { destruct s1 as [[k|] w]; done. }
  destruct (Z.leb_spec r 0); [right; by exists (st_close s1)|].
  destruct (execute (pending ++ bs) p) as [[n rest] p'] eqn:Ex.
  destruct (hasError p') eqn:He; [right; by exists (st_close s1)|].
  destruct (_ =? s32 buffer_size); [right; by exists (st_close s1)|].
  destruct (Z.eqb_spec (isFinished p') 0) as [E|E]; cbn [negb].
  - specialize (Hdec ltac:(lia)).
    destruct (IH buffer_size rest p' s1) as [(rest' & p'' & s' & Hr & He' & Hfin & Hi)|Hn]; [lia| |by right].
    left. exists rest', p'', s'. split_and!; [done..|lia].
  - left. exists rest, p', s1. split_and!; [done..|]. by apply Hdec.
Qed.
End HeadLoop.

(** ** A request from the client's serialisation to the server's object *)

(** The head of a serialised request. *)
Definition request_fields (r : HttpRequest) : list (bytes * bytes) :=
  connection_field (rq_close r) :: kept (rq_headers r) ++ length_fields (rq_body r).

Definition request_line (r : HttpRequest) : bytes :=
  HttpMethodToString (rq_method r) ++ [32] ++ target r ++ [32].

Definition request_head (r : HttpRequest) : bytes :=
  request_line r ++ dump_version (rq_version r) ++ crlf
  ++ concat (map dump_field (request_fields r)) ++ crlf.

Lemma request_dump_head r : HttpRequest_dump r = request_head r ++ rq_body r.
Proof.
  unfold HttpRequest_dump, request_head, request_line, request_fields, target.
  change (str " ") with [32]. rewrite dump_headers_kept, dump_body_fields. cbn [map concat].
  rewrite map_app, concat_app, <-!app_assoc. done.
Qed.

(** The callbacks the grammar makes for it, with [data] the buffer: method, path,
    query, target, fragment, version, the fields and the end of the head. *)
Definition request_events (r : HttpRequest) (data : bytes) : list request_event :=
  [EvMethod data (length (HttpMethodToString (rq_method r))); EvPath (rq_path r)]
  ++ (match rq_query r with [] => [] | q => [EvQuery q] end)
  ++ [EvUri (rq_path r ++ dump_opt (str "?") (rq_query r))]
  ++ (match rq_fragment r with [] => [] | f => [EvFragment f] end)
  ++ [EvVersion (drop (length (request_line r)) data) 8]
  ++ map (fun kv => EvField (fst kv) (snd kv)) (request_fields r)
  ++ [EvHeaderDone].

(** *** The header map the callbacks build *)

Definition insert_fields (fs : list (bytes * bytes)) (m : gmap bytes bytes) : gmap bytes bytes :=
  fold_left (fun m kv => <[fold_case (fst kv) := snd kv]> m) fs m.

Lemma insert_sorted fs : forall lo m k, sorted_from lo fs ->
  insert_fields fs m !! k = match abs fs !! k with Some v => Some v | None => m !! k end.
Proof.
  induction fs as [|[k0 v0] fs IH]; intros lo m k Hs; [done|]. destruct Hs as [_ Hs].
  unfold insert_fields. cbn [fold_left fst snd]. fold (insert_fields fs (<[fold_case k0 := v0]> m)).
  rewrite (IH _ _ _ Hs), abs_cons.
  destruct (decide (k = fold_case k0)) as [->|Hne].
  - rewrite lookup_insert_eq, (abs_below (fold_case k0)) by (done || by left).
    by rewrite lookup_insert_eq.
  - by rewrite !lookup_insert_ne.
Qed.

Lemma kept_sorted m : forall lo, sorted_from lo m -> sorted_from lo (kept m).
Proof.
  induction m as [|[k v] m IH]; intros lo Hs; [done|]. destruct Hs as [H1 H2].
  unfold kept. rewrite filter_cons. destruct (decide _); [by split; [|apply IH]|].
  apply IH in H2. destruct lo as [lo|]; [by eapply sorted_lower|by eapply sorted_weaken].
Qed.

Lemma kept_lookup m k : k <> fold_case (str "connection") -> abs (kept m) !! k = abs m !! k.
Proof.
  intros Hk. induction m as [|[k0 v0] m IH]; [done|]. unfold kept. rewrite filter_cons. cbn [fst].
  rewrite abs_cons. unfold is_connection. rewrite strcasecmp_eq.
  destruct (bytes_eqb_spec (fold_case k0) (fold_case (str "connection"))) as [E|E].
  - rewrite decide_False by done. rewrite lookup_insert_ne by congruence. apply IH.
  - rewrite decide_True by done. rewrite abs_cons.
    destruct (decide (k = fold_case k0)) as [->|]; [by rewrite !lookup_insert_eq|].
    rewrite !lookup_insert_ne by done. apply IH.
Qed.

Lemma kept_connection m : abs (kept m) !! fold_case (str "connection") = None.
Proof.
  induction m as [|[k0 v0] m IH]; [done|]. unfold kept. rewrite filter_cons. cbn [fst].
  unfold is_connection. rewrite strcasecmp_eq.
  destruct (bytes_eqb_spec (fold_case k0) (fold_case (str "connection"))) as [E|E].
  - by rewrite decide_False.
  - rewrite decide_True by done. rewrite abs_cons. by rewrite lookup_insert_ne.
Qed.

(** The header map of the received request. *)
Lemma request_fields_lookup r k :
  sorted_map (rq_headers r) ->
  insert_fields (request_fields r) ∅ !! k
  = if decide (k = fold_case (str "content-length") /\ rq_body r <> []) then
      Some (dec (Z.of_nat (length (rq_body r))))
    else if decide (k = fold_case (str "connection")) then Some (snd (connection_field (rq_close r)))
    else abs (rq_headers r) !! k.
Proof.
  intros Hs. unfold request_fields, insert_fields. cbn [fold_left]. rewrite fold_left_app.
  change (fold_case (fst (connection_field (rq_close r)))) with (fold_case (str "connection")).
  set (m1 := <[fold_case (str "connection") := _]> _).
  fold (insert_fields (kept (rq_headers r)) m1).
  assert (insert_fields (kept (rq_headers r)) m1 !! k
          = if decide (k = fold_case (str "connection")) then Some (snd (connection_field (rq_close r)))
            else abs (rq_headers r) !! k) as Hk.
  { rewrite (insert_sorted _ None) by by apply kept_sorted. unfold m1.
    destruct (decide (k = fold_case (str "connection"))) as [->|Hne].
    - by rewrite kept_connection, lookup_insert_eq.
    - rewrite kept_lookup by done. rewrite lookup_insert_ne, lookup_empty by done.
      by destruct (_ !! k). }
  destruct (rq_body r) as [|b body] eqn:Eb; cbn [length_fields fold_left fst snd].
  - rewrite decide_False by tauto. done.
  - change (fold_case (str "Content-Length")) with (fold_case (str "content-length")).
    destruct (decide (k = fold_case (str "content-length"))) as [->|Hne].
    + rewrite lookup_insert_eq, decide_True by done. done.
    + rewrite lookup_insert_ne by done. rewrite (decide_False (P := _ /\ _)) by tauto. done.
Qed.

Lemma run_ops_frame (ops : list header_op) : forall r,
  fold_left run_op ops r = setHeaders (rq_headers (fold_left run_op ops r)) r.
Proof.
  induction ops as [|o ops IH]; intros r; [by destruct r|].
  cbn [fold_left]. rewrite IH. destruct o; done.
Qed.

Definition set_ops (fs : list (bytes * bytes)) : list header_op :=
  map (fun kv => SetHeader (fst kv) (snd kv)) fs.

(** The header map after the fields have been reported. *)
Definition received_headers (r : HttpRequest) : MapType :=
  fold_left (fun m kv => map_set (fst kv) (snd kv) m) (request_fields r) [].

Lemma run_ops_headers fs : forall r,
  rq_headers (fold_left run_op (set_ops fs) r)
  = fold_left (fun m kv => map_set (fst kv) (snd kv) m) fs (rq_headers r).
Proof. induction fs as [|kv fs IH]; intros r; [done|]. apply IH. Qed.

Lemma spec_ops_insert fs : forall m, fold_left spec_op (set_ops fs) m = insert_fields fs m.
Proof. induction fs as [|kv fs IH]; intros m; [done|]. apply IH. Qed.

Section Events.
Context {P : Type} `{RequestAutomaton P}.

Lemma fields_fold fs : Forall (fun kv => fst kv <> []) fs -> forall (p : HttpRequestParser P),
  fold_left on_request_event (map (fun kv => EvField (fst kv) (snd kv)) fs) p
  = mkRP (rp_parser p) (fold_left run_op (set_ops fs) (rp_data p)) (rp_error p).
Proof.
  induction 1 as [|kv fs Hn _ IH]; intros p; [by destruct p|].
  cbn [map fold_left set_ops]. rewrite IH. cbn [on_request_event].
  unfold on_request_http_field. by destruct (fst kv).
Qed.

(** What a request must satisfy to survive the trip. *)
Definition sendable (r : HttpRequest) : Prop :=
  rq_method r <> INVAILD_METHOD /\ (rq_version r = 16 \/ rq_version r = 17)
  /\ Forall (fun kv => fst kv <> []) (rq_headers r) /\ sorted_map (rq_headers r)
  /\ map_find (str "content-length") (rq_headers r) = None
  /\ Z.of_nat (length (rq_body r)) < 2 ^ 31.

Lemma fields_nonempty r : Forall (fun kv => fst kv <> []) (rq_headers r) ->
  Forall (fun kv => fst kv <> []) (request_fields r).
Proof.
  intros Hh. constructor; [done|]. apply Forall_app. split.
  - rewrite Forall_forall in *. intros kv Hkv. apply list_elem_of_filter in Hkv as [_ Hkv]. auto.
  - by destruct (rq_body r); repeat constructor.
Qed.

(** The connection header decides as the sender meant it. *)
Lemma header_done_close (p : HttpRequestParser P) close :
  rq_close (rp_data p) = false -> (rq_version (rp_data p) = 16 \/ rq_version (rp_data p) = 17) ->
  getHeader (rp_data p) (str "Connection") [] = snd (connection_field close) ->
  on_request_header_done p = rp_update (setClose close) p.
Proof.
  intros Hc Hv Hg. unfold on_request_header_done. rewrite Hg.
  destruct p as [a d e]. destruct d. cbn in *. subst.
  destruct Hv as [-> | ->]; destruct close; reflexivity.
Qed.

Lemma method_event m data n (p : HttpRequestParser P) rest :
  m <> INVAILD_METHOD -> data = HttpMethodToString m ++ rest ->
  on_request_method data n p = rp_update (setMethod m) p.
Proof.
  intros Hm ->. unfold on_request_method. by rewrite chars_method_name, bool_decide_eq_false_2.
Qed.

Lemma version_event r data (p : HttpRequestParser P) rest :
  (rq_version r = 16 \/ rq_version r = 17) -> data = dump_version (rq_version r) ++ rest ->
  on_request_version data 8 p = rp_update (setVersion (rq_version r)) p.
Proof. intros [E|E] ->; rewrite E; reflexivity. Qed.

Lemma request_events_effect r (a : P) b :
  sendable r ->
  sorted_map (received_headers r) /\ abs (received_headers r) = insert_fields (request_fields r) ∅
  /\ fold_left on_request_event (request_events r (request_head r ++ b)) (mkRP a (HttpRequest_new 17 false) 0)
     = mkRP a (mkRequest (rq_close r) (rq_version r) (rq_method r) (rq_path r) (rq_query r) []
                 (rq_fragment r) (received_headers r) [] []) 0.
Proof.
  intros (Hm & Hv & Hne & Hs & Hcl & _).
  set (d := mkRequest false (rq_version r) (rq_method r) (rq_path r) (rq_query r) [] (rq_fragment r) [] [] []).
  destruct (run_ops_spec (set_ops (request_fields r)) d ∅) as [Hs' Ha]; [done..|].
  rewrite spec_ops_insert in Ha.
  assert (rq_headers (fold_left run_op (set_ops (request_fields r)) d) = received_headers r) as Hhs
    by apply run_ops_headers.
  rewrite Hhs in Hs', Ha. split; [done|]. split; [done|].
  unfold request_events. rewrite !fold_left_app. cbn [fold_left on_request_event].
  rewrite (method_event (rq_method r) _ _ _ (drop (length (HttpMethodToString (rq_method r))) (request_head r ++ b)));
    [|done|unfold request_head, request_line; rewrite <-!app_assoc; by rewrite drop_app_length].
  match goal with |- context [fold_left on_request_event (match rq_query r with [] => [] | _ => _ end) ?p] =>
    replace (fold_left on_request_event (match rq_query r with [] => [] | q => [EvQuery q] end) p)
      with (rp_update (setQuery (rq_query r)) p) by (by destruct (rq_query r)) end.
  cbn [on_request_uri].
  match goal with |- context [fold_left on_request_event (match rq_fragment r with [] => [] | _ => _ end) ?p] =>
    replace (fold_left on_request_event (match rq_fragment r with [] => [] | q => [EvFragment q] end) p)
      with (rp_update (setFragment (rq_fragment r)) p) by (by destruct (rq_fragment r)) end.
  rewrite (version_event r _ _ (crlf ++ concat (map dump_field (request_fields r)) ++ crlf ++ b)); [|done|].
  2: { unfold request_head. rewrite <-!app_assoc. by rewrite drop_app_length. }
  rewrite fields_fold by by apply fields_nonempty.
  change (rp_data _) with d at 1.
  match goal with |- on_request_header_done ?p = _ => rewrite (header_done_close p (rq_close r)) end.
  - unfold rp_update. cbn [rp_parser rp_data rp_error]. by rewrite run_ops_frame, Hhs.
  - cbn [rp_data]. rewrite run_ops_frame. done.
  - cbn [rp_data]. rewrite run_ops_frame. done.
  - unfold getHeader, get_or. cbn [rp_data]. rewrite Hhs, map_find_abs, Ha by done.
    rewrite request_fields_lookup by done.
    rewrite decide_False by (by intros [? _]). by rewrite decide_True.
Qed.
End Events.

(** ** Delivery *)

Section Deliver.
Context {P : Type} `{RequestAutomaton P}.
Variable lexical_cast : bytes -> option Z.
Hypothesis cast_dec : forall n, 0 <= n < 2 ^ 31 -> lexical_cast (dec n) = Some n.

Lemma no_segments (cs : list bytes) : Forall (fun c => c <> []) cs -> concat cs = [] -> cs = [].
Proof. intros [|c l Hc _]; [done|]. by destruct c. Qed.

(** Reading the head when it arrives in the first segment. *)
Lemma recv_head_first r b1 cs out fuel buffer_size (p' : P) :
  sendable r ->
  ra_execute ra_init (request_head r ++ b1)
    = (p', request_events r (request_head r ++ b1), Z.of_nat (length (request_head r))) ->
  ra_has_error p' = false -> ra_finish p' = 1 ->
  Z.of_nat (length (request_head r ++ b1)) <= buffer_size < 2 ^ 31 -> (0 < fuel)%nat ->
  recv_head fuel buffer_size [] HttpRequestParser_new (peer_with ((request_head r ++ b1) :: cs) out)
     = (Ok (Some (b1, mkRP p' (mkRequest (rq_close r) (rq_version r) (rq_method r) (rq_path r)
                                 (rq_query r) [] (rq_fragment r) (received_headers r) [] []) 0)),
        peer_with cs out).
Proof.
  intros Hr Hex Herr Hfin Hbuf Hf.
  destruct (request_events_effect r p' b1 Hr) as (_ & _ & Hfold).
  assert (0 < length (request_head r))%nat as Hpos.
  { unfold request_head, request_line. rewrite !length_app. cbn [length]. lia. }
  rewrite length_app in Hbuf.
  destruct fuel as [|fuel]; [lia|]. cbn [recv_head]. unfold mbind, M_bind, stream_read.
  cbn [length Z.of_nat]. rewrite Z.sub_0_r, u64_small by lia.
  rewrite peer_read; [|intros E; apply (f_equal length) in E; rewrite length_app in E; cbn in E; lia|rewrite length_app; lia].
  rewrite (proj2 (Z.leb_gt _ _)) by (rewrite length_app; lia).
  unfold execute. cbn [HttpRequestParser_new rp_parser rp_data rp_error app]. rewrite Hex, Hfold, Nat2Z.id.
  rewrite drop_app_length. unfold hasError, isFinished. cbn [rp_error rp_parser]. rewrite Herr, Hfin.
  cbn [Z.eqb negb orb]. rewrite s32_small, (proj2 (Z.eqb_neq _ _)) by lia. done.
Qed.

(** The request the server gets. *)
Definition received (r : HttpRequest) : HttpRequest :=
  mkRequest (rq_close r) (rq_version r) (rq_method r) (rq_path r) (rq_query r) (rq_body r)
    (rq_fragment r) (received_headers r) [] [].

Lemma received_getHeader r k def :
  sendable r -> ~ same_key k (str "connection") -> ~ same_key k (str "content-length") ->
  getHeader (received r) k def = getHeader r k def.
Proof.
  intros Hr H1 H2. destruct (request_events_effect r (ra_init : P) [] Hr) as (Hs & Ha & _).
  unfold getHeader, get_or. cbn [received rq_headers].
  rewrite !map_find_abs, Ha, request_fields_lookup by (done || apply Hr).
  rewrite decide_False by (by intros [? _]). by rewrite decide_False by done.
Qed.

(** The content length the server reads is that of the body. *)
Lemma received_length r (a : P) : sendable r ->
  forall body, getContentLength lexical_cast
    (mkRP a (mkRequest (rq_close r) (rq_version r) (rq_method r) (rq_path r) (rq_query r) body
       (rq_fragment r) (received_headers r) [] []) 0) = Z.of_nat (length (rq_body r)).
Proof.
  intros Hr body. destruct (request_events_effect r a [] Hr) as (Hs & Ha & _).
  destruct Hr as (_ & _ & _ & Hsr & Hcl & Hlen).
  unfold getContentLength, getAs. cbn [rp_data rq_headers].
  rewrite (map_find_abs _ (received_headers r) Hs), Ha, request_fields_lookup by done.
  rewrite map_find_abs in Hcl by done.
  destruct (rq_body r) as [|x b] eqn:Eb.
  - rewrite decide_False by tauto. rewrite decide_False, Hcl by (vm_compute; discriminate). done.
  - rewrite decide_True by done. by rewrite cast_dec by lia.
Qed.

Lemma recv_delivers r b1 cs later out fuel buffer_size (p' : P) :
  sendable r ->
  ra_execute ra_init (request_head r ++ b1)
    = (p', request_events r (request_head r ++ b1), Z.of_nat (length (request_head r))) ->
  ra_has_error p' = false -> ra_finish p' = 1 ->
  Forall (fun c => c <> []) cs -> (request_head r ++ b1) ++ concat cs = HttpRequest_dump r ->
  Z.of_nat (length (request_head r ++ b1)) <= buffer_size < 2 ^ 31 -> (length cs < fuel)%nat ->
  recvRequest lexical_cast fuel buffer_size (peer_with ((request_head r ++ b1) :: cs ++ later) out)
  = (Ok (Some (received r)), peer_with later out).
Proof.
  intros Hr Hex Herr Hfin Hcs Hmsg Hbuf Hf.
  pose proof (recv_head_first r b1 (cs ++ later) out fuel buffer_size p' Hr Hex Herr Hfin Hbuf ltac:(lia)) as Hhead.
  rewrite request_dump_head, <-app_assoc in Hmsg. apply app_inv_head in Hmsg.
  unfold recvRequest. unfold mbind at 1, M_bind at 1. rewrite Hhead. unfold recv_body.
  rewrite received_length by done. destruct Hr as (_ & _ & _ & _ & _ & Hlen).
  set (n := Z.of_nat (length (rq_body r))) in *.
  assert (s64 n = n) as ->.
  { unfold s64. rewrite <-(Z.mod_small n (2 ^ 64)) at 1 by lia. apply sgn_mod; lia. }
  assert (length b1 + length (concat cs) = Z.to_nat n)%nat as Hl
    by (rewrite <-length_app, Hmsg; unfold n; lia).
  rewrite Z.gtb_ltb. destruct (Z.ltb_spec 0 n) as [Hn|Hn].
  - rewrite Z.min_l, Nat2Z.id, take_ge by lia.
    rewrite Z.gtb_ltb. destruct (Z.ltb_spec 0 (n - Z.of_nat (length b1))) as [Hneed|Hneed].
    + unfold mbind, M_bind.
      pose proof (readFixSize_ok cs later out (repeat 0 (Z.to_nat (n - Z.of_nat (length b1)))) fuel Hcs) as Hrd.
      rewrite repeat_length, Z2Nat.id in Hrd by lia. rewrite Hrd by lia.
      by rewrite (proj2 (Z.leb_gt _ 0)), Hmsg by lia.
    + assert (concat cs = []) as Hnil by (apply length_zero_iff_nil; lia).
      rewrite Hnil, app_nil_r in Hmsg. by rewrite (no_segments _ Hcs Hnil), Hmsg.
  - assert (rq_body r = []) as Hb by (apply length_zero_iff_nil; lia).
    rewrite Hb in Hmsg. apply app_eq_nil in Hmsg as [-> Hnil]. rewrite (no_segments _ Hcs Hnil).
    unfold received. by rewrite Hb.
Qed.

(** A request serialised by sendRequest and received by recvRequest, with its
    head in the first segment and its body segmented in any way, arrives with
    the same method, version, path, query, fragment, body and keep-alive flag,
    and with the same value of every header that does not describe the
    message itself; what the client sends next stays in the stream. *)
Theorem recvRequest_delivers r b1 cs later out fuel buffer_size (p' : P) :
  sendable r ->
  ra_execute ra_init (request_head r ++ b1)
    = (p', request_events r (request_head r ++ b1), Z.of_nat (length (request_head r))) ->
  ra_has_error p' = false -> ra_finish p' = 1 ->
  Forall (fun c => c <> []) cs -> (request_head r ++ b1) ++ concat cs = HttpRequest_dump r ->
  Z.of_nat (length (request_head r ++ b1)) <= buffer_size < 2 ^ 31 -> (length cs < fuel)%nat ->
  exists r',
    recvRequest lexical_cast fuel buffer_size (peer_with ((request_head r ++ b1) :: cs ++ later) out)
      = (Ok (Some r'), peer_with later out)
    /\ rq_method r' = rq_method r /\ rq_version r' = rq_version r /\ rq_path r' = rq_path r
    /\ rq_query r' = rq_query r /\ rq_fragment r' = rq_fragment r /\ rq_body r' = rq_body r
    /\ rq_close r' = rq_close r
    /\ forall k def, ~ same_key k (str "connection") -> ~ same_key k (str "content-length") ->
         getHeader r' k def = getHeader r k def.
Proof.
  intros Hr Hex Herr Hfin Hcs Hmsg Hbuf Hf. exists (received r). split; [by eapply recv_delivers|].
  split_and!; try done. intros k def. by apply received_getHeader.
Qed.
End Deliver.

(** ** A reference automaton and cast

    The automaton of the reference grammar: it waits for a whole message head,
    reports it and stops. *)

Definition ref_target (t : bytes) : bytes * bytes * bytes * bytes :=
  let '(pq, frag) := default (t, []) (split_at 35 t) in
  let '(path, query) := default (pq, []) (split_at 63 pq) in (path, query, frag, pq).

Definition ref_execute (fin : bool) (s : bytes) : bool * list request_event * Z :=
  match parse_message s with
  | Some (m, t, v, fs, body) =>
      let '(path, query, frag, pq) := ref_target t in
      (true,
       [EvMethod s (length m); EvPath path]
       ++ (match query with [] => [] | q => [EvQuery q] end) ++ [EvUri pq]
       ++ (match frag with [] => [] | f => [EvFragment f] end)
       ++ [EvVersion (drop (length (m ++ [32] ++ t ++ [32])) s) 8]
       ++ map (fun kv => EvField (fst kv) (snd kv)) fs ++ [EvHeaderDone],
       Z.of_nat (length s) - Z.of_nat (length body))
  | None => (fin, [], 0)
  end.

#[export] Instance ref_automaton : RequestAutomaton bool := {
  ra_init := false;
  ra_execute := ref_execute;
  ra_finish fin := if fin then 1 else 0;
  ra_has_error _ := false
}.

Definition ref_cast (s : bytes) : option Z :=
  if forallb is_digit s && negb (bytes_eqb s []) && (undec s <? 2 ^ 64) then Some (undec s) else None.

Lemma ref_cast_dec n : 0 <= n < 2 ^ 31 -> ref_cast (dec n) = Some n.
Proof.
  intros Hn. destruct (dec_spec n) as (Hu & Hne & Hd); [lia|]. unfold ref_cast.
  rewrite Hd, Hu, (proj2 (Z.ltb_lt _ _)) by lia. by destruct (bytes_eqb_spec (dec n) []).
Qed.

Lemma demo_sendable : sendable demo_request.
Proof.
  split; [done|]. split; [by right|]. split; [by repeat constructor|]. split; [done|]. done.
Qed.

Lemma recvRequest_delivers_witness :
  exists r',
    recvRequest ref_cast 5 4096
      (peer_with ((request_head demo_request ++ str "a=") :: [str "1"] ++ [str "GET "]) [])
      = (Ok (Some r'), peer_with [str "GET "] [])
    /\ rq_method r' = POST /\ rq_version r' = 17 /\ rq_path r' = str "/x"
    /\ rq_query r' = str "q=2" /\ rq_fragment r' = [] /\ rq_body r' = str "a=1"
    /\ rq_close r' = false
    /\ forall k def, ~ same_key k (str "connection") -> ~ same_key k (str "content-length") ->
         getHeader r' k def = getHeader demo_request k def.
Proof.
  apply (recvRequest_delivers ref_cast ref_cast_dec demo_request (str "a=") [str "1"] [str "GET "] [] 5 4096 true);
    [exact demo_sendable|vm_compute; reflexivity|reflexivity|reflexivity|by repeat constructor
    |vm_compute; reflexivity|vm_compute; split; [discriminate|reflexivity]|cbn; lia].
Defined.

(** ** Termination *)

Lemma st_read_open n (s : SocketStream Peer) r bs s' :
  st_read n s = ((r, bs), s') -> still_open s' = still_open s /\ (still_open s = true -> 0 <= r).
Proof.
  destruct s as [[[o [|c cs] out]|] w]; cbn; unfold SocketStream_read; cbn.
  - destruct o; cbn; intros [= <- <- <-]; split; done || (intros; lia).
  - destruct o; cbn; [|intros [= <- <- <-]; done].
    destruct (Z.leb_spec (Z.of_nat (length c)) n); intros [= <- <- <-]; split; done || (intros; lia).
  - intros [= <- <- <-]. done.
Qed.

Lemma read_fix_ends fuel : forall len offset left buf (s : SocketStream Peer),
  still_open s = true -> (incoming s < fuel)%nat ->
  fst (read_fix_loop fuel len offset left buf s) <> Err OutOfFuel.
Proof.
  induction fuel as [|fuel IH]; intros len offset left buf s Ho Hf; [lia|].
  cbn [read_fix_loop]. unfold mbind, M_bind. destruct (left =? 0); [done|].
  destruct (st_read len s) as [[r bs] s'] eqn:E.
  destruct (st_read_open _ _ _ _ _ E) as [Ho' Hr].
  assert (stream_read len s = (Ok (r, bs), s')) as E' by (unfold stream_read; by rewrite E).
  apply stream_read_peer in E' as (Hdec & _ & _). specialize (Hr Ho).
  destruct (Z.leb_spec (u64 r) 0); [done|].
  assert (0 < r) by (destruct (Z.eq_dec r 0) as [->|]; [change (u64 0) with 0 in *; lia|lia]).
  destruct (_ && _); cbn; [done|]. apply IH; [congruence|]. specialize (Hdec ltac:(lia)). lia.
Qed.

Section Ends.
Context {P : Type} `{RequestAutomaton P}.

Lemma recv_head_open fuel : forall buffer_size pending (p : HttpRequestParser P) (s : SocketStream Peer) x s',
  recv_head fuel buffer_size pending p s = (Ok (Some x), s') -> still_open s' = true.
Proof.
  induction fuel as [|fuel IH]; intros buffer_size pending p s x s'; [done|].
  cbn [recv_head]. unfold mbind, M_bind, stream_read.
  destruct (st_read _ s) as [[r bs] s1] eqn:E. destruct (Z.leb_spec r 0); [done|].
  destruct (execute (pending ++ bs) p) as [[n rest] p'].
  destruct (hasError p'); [done|]. destruct (_ =? s32 buffer_size); [done|].
  destruct (isFinished p' =? 0); cbn [negb]; [by apply IH|]. intros [= <- <-].
  destruct (st_read_open _ _ _ _ _ E) as [-> _].
  destruct (still_open s) eqn:Eo; [done|]. exfalso.
  cbn in E. unfold SocketStream_read, still_open in *. rewrite Eo in E. injection E; intros; subst. lia.
Qed.

(** Whatever the peer sends, recvRequest comes to an end (a read per byte is
    enough fuel): it returns a request, or closes the connection and returns
    null, or runs into the buffer overrun of readFixSize. *)
Theorem recvRequest_ends cast fuel buffer_size (s : SocketStream Peer) :
  (incoming s < fuel)%nat ->
  fst (@recvRequest P _ _ _ cast fuel buffer_size s) <> Err OutOfFuel.
Proof.
  intros Hf. unfold recvRequest. unfold mbind at 1, M_bind at 1.
  destruct (recv_head_ends fuel buffer_size [] HttpRequestParser_new s Hf)
    as [(rest & p' & s' & Hr & _ & _ & Hi)|(s' & -> & Ho)]; [|done].
  rewrite Hr. apply recv_head_open in Hr. unfold recv_body.
  destruct (_ >? 0); [|done]. destruct (_ >? 0); [|done].
  unfold mbind, M_bind, readFixSize.
  match goal with |- context [read_fix_loop fuel ?l ?o ?n ?b s'] =>
    pose proof (read_fix_ends fuel l o n b s' Hr ltac:(lia)) as He;
    destruct (read_fix_loop fuel l o n b s') as [[[r buf]|e] s''] end; [|cbn in *; congruence].
  by destruct (r <=? 0).
Qed.
End Ends.

Lemma recvRequest_ends_witness :
  fst (recvRequest ref_cast 2 4096 (peer_with [[71]] [])) <> Err OutOfFuel.
Proof. apply (recvRequest_ends ref_cast 2 4096 (peer_with [[71]] [])). cbn. lia. Defined.
