(* ===== verification/Http11Spec.v ===== *)
(** * What the request parser promises

    Whatever the bytes, the parser comes to an end within its assertions
    ([http_parser_execute_safe]), and what [HttpRequest::dump] writes it reports as
    the request it was ([http_parser_reads_dump]).

    The states the machine can be in while it reads a path, a query, a field name
    and so on are finite families; that characters keep it in a family, and with
    which actions it goes from one to the next, is computed. *)
From Stdlib Require Import Ascii String.
From S2P Require Import Prelude Ragel CString Http HttpSpec Stream HttpParser HttpSession Http11.

#[local] Open Scope string_scope.
#[local] Open Scope list_scope.
#[local] Open Scope Z_scope.

Lemma digits_chars ds : forallb is_digit ds = true -> all_chars digit_char ds = true.
Proof.
  unfold all_chars. rewrite !forallb_forall. intros Hd d Hin. specialize (Hd d Hin).
  unfold is_digit in Hd. unfold digit_char, in_range. lia.
Qed.

(** ** The families *)

Definition path_first : Z -> bool :=
  either [but any_char ascii_char; alpha_char; digit_char; one_of (str "-._~!$&'()*+,;=:@")].
Definition path_char : Z -> bool := either [path_first; Z.eqb 47].
Definition query_char : Z -> bool := either [path_first; one_of (str "/?")].
(** The tokens of RFC 7230; the grammar's have control characters as well. *)
Definition name_char : Z -> bool := but Grammar.token cntrl_char.
Definition value_char : Z -> bool := but any_char (one_of [0; 10; 13; 127]).
Definition value_first : Z -> bool := but value_char (one_of [9; 32]).

Section Families.
Variable relaxed : bool.
Notation M := (machine_of relaxed).

(** The state after the beginning [w] of a request. *)
Definition after_text (w : bytes) : list N := fold_left (fun S c => snd (step M S c)) w [0%N].
Definition after_line (w : bytes) : list N := after_text (str "GET / HTTP/1.1" ++ crlf ++ w).

Definition F_target := [after_text (str "GET ")].
Definition F_seg := closure M 5000 (sample_words path_char) [after_text (str "GET /a"); after_text (str "GET /%20")] [].
Definition F_path := after_text (str "GET /") :: F_seg.
Definition F_question := [after_text (str "GET /a?")].
Definition F_query := closure M 5000 (sample_words query_char) [after_text (str "GET /a?a")] [].
Definition F_hash := [after_text (str "GET /a#")].
Definition F_frag := closure M 5000 (sample_words query_char) [after_text (str "GET /a#a")] [].
Definition F_space := [after_text (str "GET /a ")].
Definition F_version := [after_text (str "GET / HTTP/1.0"); after_text (str "GET / HTTP/1.1")].
Definition F_cr := [after_text (str "GET / HTTP/1.1" ++ [13])].
Definition F_line := [after_line []; after_line (str "a: a" ++ crlf)].
Definition F_name := closure M 5000 (chars_of name_char) [after_line (str "a")] [].
Definition F_colon := [after_line (str "a:")].
Definition F_blank := [after_line (str "a: ")].
Definition F_value := closure M 5000 (chars_of value_char) [after_line (str "a: a")] [].
Definition F_field_cr := [after_line (str "a: a" ++ [13])].
Definition F_end := [after_line [13]].

(** The methods that the grammar has. *)
Definition grammar_method (m : HttpMethod) : bool :=
  forallb (either [upper_char; digit_char]) (HttpMethodToString m).

(** The way of a method to the blank after it. *)
Definition method_reads (name : bytes) : bool :=
  match name with
  | [] => false
  | c :: w => match step M [0%N] c with
              | (a, q :: T) => bool_decide (a = [A_mark])
                  && match drain M (q :: T) w with
                     | Some S' => moves M [S'] [[32]] [A_request_method] F_target
                     | None => false
                     end
              | _ => false
              end
  end.
End Families.

(** What is computed, for both machines at once. *)
Definition check_methods_read (relaxed : bool) : bool :=
  forallb (fun m => negb (grammar_method m) || method_reads relaxed (HttpMethodToString m)) all_methods.

Definition check_slash_moves (relaxed : bool) : bool :=
  moves (machine_of relaxed) (F_target relaxed) [[47]] [A_mark] [after_text relaxed (str "GET /")].

Definition check_seg_moves (relaxed : bool) : bool :=
  moves_text (machine_of relaxed) [after_text relaxed (str "GET /")] path_first [] (F_seg relaxed).

Definition check_seg_quiet (relaxed : bool) : bool :=
  quiet_text (machine_of relaxed) (F_seg relaxed) path_char.

Definition check_path_ends (relaxed : bool) : bool :=
  moves (machine_of relaxed) (F_path relaxed) [[63]] [A_request_path] (F_question relaxed)
  && moves (machine_of relaxed) (F_path relaxed) [[35]] [A_request_path; A_request_uri] (F_hash relaxed)
  && moves (machine_of relaxed) (F_path relaxed) [[32]] [A_request_path; A_request_uri] (F_space relaxed).

Definition check_query_moves (relaxed : bool) : bool :=
  moves_text (machine_of relaxed) (F_question relaxed) query_char [A_start_query] (F_query relaxed)
  && quiet_text (machine_of relaxed) (F_query relaxed) query_char
  && moves (machine_of relaxed) (F_query relaxed) [[35]] [A_query_string; A_request_uri] (F_hash relaxed)
  && moves (machine_of relaxed) (F_query relaxed) [[32]] [A_query_string; A_request_uri] (F_space relaxed).

Definition check_frag_moves (relaxed : bool) : bool :=
  moves_text (machine_of relaxed) (F_hash relaxed) query_char [A_mark] (F_frag relaxed)
  && quiet_text (machine_of relaxed) (F_frag relaxed) query_char
  && moves (machine_of relaxed) (F_frag relaxed) [[32]] [A_fragment] (F_space relaxed).

Definition check_version_moves (relaxed : bool) : bool :=
  moves (machine_of relaxed) (F_space relaxed) [str "HTTP/1.0"; str "HTTP/1.1"] [A_mark] (F_version relaxed)
  && moves (machine_of relaxed) (F_version relaxed) [crlf] [A_http_version] (F_line relaxed).

Definition check_name_moves (relaxed : bool) : bool :=
  moves (machine_of relaxed) (F_line relaxed) (chars_of name_char) [A_start_field] (F_name relaxed)
  && quiet (machine_of relaxed) (F_name relaxed) (chars_of name_char)
  && moves (machine_of relaxed) (F_name relaxed) [[58]] [A_write_field] (F_colon relaxed).

Definition check_value_moves (relaxed : bool) : bool :=
  moves (machine_of relaxed) (F_colon relaxed) [[32]] [A_start_value] (F_blank relaxed)
  && moves (machine_of relaxed) (F_blank relaxed) [crlf] [A_start_value; A_write_value] (F_line relaxed)
  && moves (machine_of relaxed) (F_blank relaxed) (chars_of value_first) [A_start_value] (F_value relaxed)
  && quiet (machine_of relaxed) (F_value relaxed) (chars_of value_char)
  && moves (machine_of relaxed) (F_value relaxed) [crlf] [A_write_value] (F_line relaxed).

Definition check_end_moves (relaxed : bool) : bool :=
  moves (machine_of relaxed) (F_line relaxed) [[13]] [A_start_field] (F_end relaxed)
  && forallb (fun S => bool_decide (fst (step (machine_of relaxed) S 10) = [A_done])
                && is_final (machine_of relaxed) (snd (step (machine_of relaxed) S 10))) (F_end relaxed).

Definition request_check (relaxed : bool) : bool :=
  check_methods_read relaxed && check_slash_moves relaxed && check_seg_moves relaxed && check_seg_quiet relaxed && check_path_ends relaxed && check_query_moves relaxed && check_frag_moves relaxed && check_version_moves relaxed && check_name_moves relaxed && check_value_moves relaxed && check_end_moves relaxed.

Lemma request_checked relaxed : request_check relaxed = true.
Proof. revert relaxed. intros []; vm_compute; reflexivity. Qed.

#[local] Strategy opaque [andb moves quiet moves_text quiet_text forallb].

Ltac of_check c :=
  match goal with relaxed : bool |- _ =>
    let H := fresh in pose proof (request_checked relaxed) as H; unfold request_check in H; split_checks H;
    match goal with H : c relaxed = true |- _ => unfold c in H; split_checks H end;
    repeat match goal with |- _ && _ = true => apply andb_true_intro; split end; by_check
  end.

Lemma methods_read relaxed :
  forallb (fun m => negb (grammar_method m) || method_reads relaxed (HttpMethodToString m)) all_methods = true.
Proof. of_check check_methods_read. Qed.

Lemma slash_moves relaxed :
  moves (machine_of relaxed) (F_target relaxed) [[47]] [A_mark] [after_text relaxed (str "GET /")] = true.
Proof. of_check check_slash_moves. Qed.

Lemma seg_moves relaxed :
  moves (machine_of relaxed) [after_text relaxed (str "GET /")] (text_words path_first) [] (F_seg relaxed) = true.
Proof. of_check check_seg_moves. Qed.

Lemma seg_quiet relaxed :
  quiet (machine_of relaxed) (F_seg relaxed) (text_words path_char) = true.
Proof. of_check check_seg_quiet. Qed.

Lemma path_ends relaxed :
  moves (machine_of relaxed) (F_path relaxed) [[63]] [A_request_path] (F_question relaxed)
  && moves (machine_of relaxed) (F_path relaxed) [[35]] [A_request_path; A_request_uri] (F_hash relaxed)
  && moves (machine_of relaxed) (F_path relaxed) [[32]] [A_request_path; A_request_uri] (F_space relaxed) = true.
Proof. of_check check_path_ends. Qed.

Lemma query_moves relaxed :
  moves (machine_of relaxed) (F_question relaxed) (text_words query_char) [A_start_query] (F_query relaxed)
  && quiet (machine_of relaxed) (F_query relaxed) (text_words query_char)
  && moves (machine_of relaxed) (F_query relaxed) [[35]] [A_query_string; A_request_uri] (F_hash relaxed)
  && moves (machine_of relaxed) (F_query relaxed) [[32]] [A_query_string; A_request_uri] (F_space relaxed) = true.
Proof. of_check check_query_moves. Qed.

Lemma frag_moves relaxed :
  moves (machine_of relaxed) (F_hash relaxed) (text_words query_char) [A_mark] (F_frag relaxed)
  && quiet (machine_of relaxed) (F_frag relaxed) (text_words query_char)
  && moves (machine_of relaxed) (F_frag relaxed) [[32]] [A_fragment] (F_space relaxed) = true.
Proof. of_check check_frag_moves. Qed.

Lemma version_moves relaxed :
  moves (machine_of relaxed) (F_space relaxed) [str "HTTP/1.0"; str "HTTP/1.1"] [A_mark] (F_version relaxed)
  && moves (machine_of relaxed) (F_version relaxed) [crlf] [A_http_version] (F_line relaxed) = true.
Proof. of_check check_version_moves. Qed.

Lemma name_moves relaxed :
  moves (machine_of relaxed) (F_line relaxed) (chars_of name_char) [A_start_field] (F_name relaxed)
  && quiet (machine_of relaxed) (F_name relaxed) (chars_of name_char)
  && moves (machine_of relaxed) (F_name relaxed) [[58]] [A_write_field] (F_colon relaxed) = true.
Proof. of_check check_name_moves. Qed.

Lemma value_moves relaxed :
  moves (machine_of relaxed) (F_colon relaxed) [[32]] [A_start_value] (F_blank relaxed)
  && moves (machine_of relaxed) (F_blank relaxed) [crlf] [A_start_value; A_write_value] (F_line relaxed)
  && moves (machine_of relaxed) (F_blank relaxed) (chars_of value_first) [A_start_value] (F_value relaxed)
  && quiet (machine_of relaxed) (F_value relaxed) (chars_of value_char)
  && moves (machine_of relaxed) (F_value relaxed) [crlf] [A_write_value] (F_line relaxed) = true.
Proof. of_check check_value_moves. Qed.

Lemma end_moves relaxed :
  moves (machine_of relaxed) (F_line relaxed) [[13]] [A_start_field] (F_end relaxed)
  && forallb (fun S => bool_decide (fst (step (machine_of relaxed) S 10) = [A_done])
                && is_final (machine_of relaxed) (snd (step (machine_of relaxed) S 10))) (F_end relaxed) = true.
Proof. of_check check_end_moves. Qed.

#[local] Strategy transparent [andb moves quiet moves_text quiet_text forallb].

(** ** Reading the parts of a request *)

(** What only the end of a request changes. *)
Record keeps (x x' : http_parser) : Prop := {
  k_cs : cs x' = cs x; k_body : body_start x' = body_start x; k_len : content_len x' = content_len x;
  k_xml : xml_sent x' = xml_sent x; k_json : json_sent x' = json_sent x; k_relaxed : uri_relaxed x' = uri_relaxed x
}.

Lemma keeps_trans x y z : keeps x y -> keeps y z -> keeps x z.
Proof. intros [] []. constructor; congruence. Qed.

Section Reads.
Variables (relaxed : bool) (buffer : bytes).
Hypothesis small : Z.of_nat (length buffer) < 2 ^ 64.
Notation M := (machine_of relaxed).
Notation runs := (runs_to M (act buffer)).
Implicit Types (pre post w : bytes) (x : http_parser) (es : list request_event).

(** From the states of [F] the machine runs over [w], makes the callbacks [evs] and
    is in a state of [F']. *)
Definition reads (F F' : list (list N)) (p : Z) (w : bytes) (evs : list request_event) : Prop :=
  forall S x es, S ∈ F -> exists S' x', S' ∈ F' /\ runs S p w (x, es) S' (x', es ++ evs) /\ keeps x x'.

Lemma reads_nil F p : reads F F p [] [].
Proof. intros S x es HS. exists S, x. rewrite app_nil_r. split; [done|]. split; [apply runs_nil|done]. Qed.

Lemma reads_app F F1 F2 p q w w' evs evs' : q = p + Z.of_nat (length w) ->
  reads F F1 p w evs -> reads F1 F2 q w' evs' -> reads F F2 p (w ++ w') (evs ++ evs').
Proof.
  intros -> H1 H2 S x es HS. destruct (H1 S x es HS) as (S1 & x1 & HS1 & R1 & K1).
  destruct (H2 S1 x1 (es ++ evs) HS1) as (S2 & x2 & HS2 & R2 & K2). exists S2, x2. split; [done|].
  split; [|by eapply keeps_trans]. rewrite app_assoc. by eapply runs_app.
Qed.

(** *** The method *)

Lemma method_part m post : grammar_method m = true -> m <> INVAILD_METHOD ->
  buffer = HttpMethodToString m ++ [32] ++ post ->
  reads [[0%N]] (F_target relaxed) 0 (HttpMethodToString m ++ [32]) [EvMethod buffer (length (HttpMethodToString m))].
Proof.
  intros Hg Hm E S x es ->%list_elem_of_singleton.
  pose proof (methods_read relaxed) as Hall. rewrite forallb_forall in Hall.
  specialize (Hall m (proj1 (list_elem_of_In _ _) (all_methods_complete m Hm))). rewrite Hg in Hall. cbn [negb orb] in Hall.
  pose proof (f_equal length E) as El. rewrite length_app in El.
  destruct (HttpMethodToString m) as [|c w]; [done|]. unfold method_reads in Hall.
  destruct (step M [0%N] c) as [a [|q T]] eqn:Hs; [done|]. apply andb_prop in Hall as [Ha Hall].
  apply bool_decide_eq_true in Ha as ->. destruct (drain M (q :: T) w) as [S1|] eqn:Hd; [|done].
  destruct (moves_runs M (act buffer) [S1] [[32]] [A_request_method] (F_target relaxed) S1 [32]
    (Z.of_nat (length (c :: w))) (set_mark 0 x, es) (set_mark 0 x, es ++ [EvMethod buffer (length (c :: w))]))
    as (S2 & HS2 & R2); [done|by left|by left| |].
  { unfold run_acts, act, callback, mbind, M_bind. cbn [fst snd mark set_mark].
    rewrite u64_small by lia. rewrite Z.sub_0_r, Nat2Z.id. done. }
  exists S2, (set_mark 0 x). split; [done|]. split; [|by constructor].
  eapply runs_then; [|apply (runs_then M (act buffer) _ 0 1 [c] _ (q :: T) (set_mark 0 x, es) w S1 (set_mark 0 x, es) eq_refl)|exact R2].
  - cbn [length app]. lia.
  - by eapply runs_char.
  - by apply drain_runs.
Qed.
(** *** The target *)

(** An absolute path whose first segment, if it has more than one, is not empty. *)
Definition path_ok (path : bytes) : bool :=
  match path with
  | 47 :: t => escaped path_char t && match t with 47 :: _ => false | _ => true end
  | _ => false
  end.

Lemma first_word c t w toks : escaped path_char (c :: t) = true -> c <> 47 -> c :: t = concat (w :: toks) ->
  w ∈ text_words path_char -> w ∈ text_words path_first.
Proof.
  intros _ Hc E [Hw|Hw]%text_words_spec; apply text_words_spec; [left|by right].
  apply chars_of_words in Hw as (c' & -> & Hok & Hin). injection E as -> _.
  apply chars_of_words. exists c'. split; [done|]. split; [|exact Hin]. unfold path_char, either in Hok. cbn [existsb] in Hok.
  rewrite (proj2 (Z.eqb_neq 47 c')) in Hok by done. by rewrite !orb_false_r in Hok.
Qed.

Lemma path_runs path S p x es : path_ok path = true -> S ∈ F_target relaxed ->
  exists S', S' ∈ F_path relaxed /\ runs S p path (x, es) S' (set_mark p x, es).
Proof.
  intros Hp HS. destruct path as [|c t]; [done|]. unfold path_ok in Hp.
  assert (c = 47 /\ escaped path_char t = true /\ (forall t', t <> 47 :: t')) as (-> & He & Hne).
  { destruct (Z.eq_dec c 47) as [->|Hc].
    - apply andb_prop in Hp as [He Hx]. split_and!; try done. intros t' ->. done.
    - exfalso. destruct c as [|c|]; try done. repeat (destruct c as [c|c|]; try done). }
  destruct (moves_runs M (act buffer) _ _ _ _ S [47] p (x, es) (set_mark p x, es) (slash_moves relaxed) HS
    ltac:(by left) eq_refl) as (S1 & HS1 & R1).
  destruct (escaped_words _ _ He) as (toks & Et & Ht). destruct toks as [|w toks].
  { exists S1. cbn in Et. subst t. split; [|done]. apply list_elem_of_singleton in HS1 as ->. by left. }
  apply Forall_cons in Ht as [Hw Ht]. destruct t as [|c t].
  { exists S1. split; [|done]. apply list_elem_of_singleton in HS1 as ->. by left. }
  assert (w ∈ text_words path_first) as Hw1.
  { apply (first_word c t w toks He); [|done|done]. intros ->. by apply (Hne t). }
  destruct (moves_runs M (act buffer) _ _ _ _ S1 w (p + 1) (set_mark p x, es) (set_mark p x, es) (seg_moves relaxed) HS1
    Hw1 eq_refl) as (S3 & HS3 & R3).
  destruct (quiet_runs M (act buffer) _ _ toks S3 (seg_quiet relaxed) HS3 Ht) as (S4 & HS4 & R4).
  exists S4. split; [by right|]. rewrite Et. cbn [concat].
  apply (runs_then M (act buffer) S p (p + 1) [47] (x, es) S1 (set_mark p x, es)); [done|exact R1|]. by eapply runs_app.
Qed.

Ltac run_step :=
  unfold run_acts, act, upd, callback, mbind, M_bind; cbn [mark set_mark query_start set_query_start field_start
    set_field_start field_len set_field_len fst snd].

Lemma query_runs q S p x es : escaped query_char q = true -> q <> [] -> S ∈ F_question relaxed ->
  exists S', S' ∈ F_query relaxed /\ runs S p q (x, es) S' (set_query_start p x, es).
Proof.
  intros Hq Hne HS. destruct (escaped_words _ _ Hq) as (toks & -> & Ht). pose proof (query_moves relaxed) as Hc.
  split_checks Hc. by eapply (text_runs M (act buffer) (F_question relaxed) (F_query relaxed)); try done; intros ->.
Qed.

Lemma frag_runs f S p x es : escaped query_char f = true -> f <> [] -> S ∈ F_hash relaxed ->
  exists S', S' ∈ F_frag relaxed /\ runs S p f (x, es) S' (set_mark p x, es).
Proof.
  intros Hq Hne HS. destruct (escaped_words _ _ Hq) as (toks & -> & Ht). pose proof (frag_moves relaxed) as Hc.
  split_checks Hc. by eapply (text_runs M (act buffer) (F_hash relaxed) (F_frag relaxed)); try done; intros ->.
Qed.
(** The path and the query, up to the number sign or the blank after them. *)
Lemma path_query_part pre path q c F' post :
  path_ok path = true -> escaped query_char q = true ->
  (c = 35 /\ F' = F_hash relaxed) \/ (c = 32 /\ F' = F_space relaxed) ->
  buffer = pre ++ (path ++ dump_opt (str "?") q) ++ [c] ++ post ->
  reads (F_target relaxed) F' (Z.of_nat (length pre)) ((path ++ dump_opt (str "?") q) ++ [c])
    ([EvPath path] ++ (match q with [] => [] | c :: q => [EvQuery (c :: q)] end) ++ [EvUri (path ++ dump_opt (str "?") q)]).
Proof.
  intros Hp Hq Hc E S x es HS. set (p := Z.of_nat (length pre)) in *.
  destruct (path_runs path S p x es Hp HS) as (S1 & HS1 & R1).
  pose proof (element_mid buffer small pre (path ++ dump_opt (str "?") q) ([c] ++ post) E) as Huri. fold p in Huri.
  assert (moves M (F_path relaxed) [[c]] [A_request_path; A_request_uri] F' = true
    /\ moves M (F_query relaxed) [[c]] [A_query_string; A_request_uri] F' = true) as [Hm1 Hm2].
  { pose proof (path_ends relaxed) as Hx. pose proof (query_moves relaxed) as Hy. split_checks Hx. split_checks Hy.
    by destruct Hc as [[-> ->]|[-> ->]]. }
  destruct q as [|q0 q'].
  - cbn [dump_opt] in *. rewrite app_nil_r in *.
    destruct (moves_runs M (act buffer) _ _ _ _ S1 [c] (p + Z.of_nat (length path)) (set_mark p x, es)
      (set_mark p x, es ++ [EvPath path; EvUri path]) Hm1 HS1 ltac:(by left)) as (S2 & HS2 & R2).
    { run_step. rewrite Huri. by rewrite <-app_assoc. }
    exists S2, (set_mark p x). split; [done|]. split; [|by constructor]. by eapply runs_app.
  - cbn [dump_opt] in *. change (str "?" ++ q0 :: q') with (63 :: q0 :: q') in *. set (q := q0 :: q') in *.
    set (p1 := p + Z.of_nat (length path)). set (p2 := p1 + 1 + Z.of_nat (length q)).
    pose proof (element_mid buffer small pre path (63 :: q ++ [c] ++ post) ltac:(by rewrite E, <-!app_assoc)) as Hpath. fold p in Hpath.
    pose proof (element_mid buffer small (pre ++ path ++ [63]) q ([c] ++ post) ltac:(by rewrite E, <-!app_assoc)) as Hqry.
    replace (Z.of_nat (length (pre ++ path ++ [63]))) with (p1 + 1) in Hqry
      by (rewrite !length_app; cbn [length]; unfold p1, p; lia).
    replace (Z.of_nat (length (path ++ 63 :: q))) with (p2 - p) in Huri
      by (rewrite length_app; cbn [length]; unfold p2, p1; lia).
    pose proof (path_ends relaxed) as Hx. split_checks Hx.
    destruct (moves_runs M (act buffer) _ _ _ _ S1 [63] p1 (set_mark p x, es)
      (set_mark p x, es ++ [EvPath path]) Hx HS1 ltac:(by left)) as (S2 & HS2 & R2).
    { run_step. unfold p1. by rewrite Hpath. }
    destruct (query_runs q S2 (p1 + 1) (set_mark p x) (es ++ [EvPath path]) Hq ltac:(done) HS2) as (S3 & HS3 & R3).
    destruct (moves_runs M (act buffer) _ _ _ _ S3 [c] p2 (set_query_start (p1 + 1) (set_mark p x), es ++ [EvPath path])
      (set_query_start (p1 + 1) (set_mark p x), es ++ [EvPath path] ++ [EvQuery q] ++ [EvUri (path ++ 63 :: q)]) Hm2 HS3
      ltac:(by left)) as (S4 & HS4 & R4).
    { run_step.
      replace (p2 - p) with (p + (p2 - p) - p) by lia. rewrite Huri. unfold p2. rewrite Hqry. by rewrite <-!app_assoc. }
    exists S4, (set_query_start (p1 + 1) (set_mark p x)). split; [done|]. split; [|by constructor].
    rewrite <-app_assoc. change ((63 :: q) ++ [c]) with ([63] ++ q ++ [c]).
    eapply (runs_then M (act buffer) S p p1); [done|exact R1|]. eapply (runs_then M (act buffer) S1 p1 (p1 + 1)); [done|exact R2|].
    eapply (runs_then M (act buffer) S2 (p1 + 1) p2); [done|exact R3|exact R4].
Qed.

Lemma target_part pre r post :
  path_ok (rq_path r) = true -> escaped query_char (rq_query r) = true -> escaped query_char (rq_fragment r) = true ->
  buffer = pre ++ target r ++ [32] ++ post ->
  reads (F_target relaxed) (F_space relaxed) (Z.of_nat (length pre)) (target r ++ [32])
    ([EvPath (rq_path r)] ++ (match rq_query r with [] => [] | q => [EvQuery q] end)
     ++ [EvUri (rq_path r ++ dump_opt (str "?") (rq_query r))]
     ++ (match rq_fragment r with [] => [] | f => [EvFragment f] end)).
Proof.
  intros Hp Hq Hf E. unfold target in *. destruct (rq_fragment r) as [|f0 f'].
  - cbn [dump_opt] in *. rewrite !app_nil_r in *.
    apply (path_query_part pre (rq_path r) (rq_query r) 32 (F_space relaxed) post); [done|done|by right|done].
  - cbn [dump_opt] in *. change (str "#" ++ f0 :: f') with ([35] ++ f0 :: f') in *. set (f := f0 :: f') in *.
    set (pq := rq_path r ++ dump_opt (str "?") (rq_query r)) in *.
    assert (rq_path r ++ dump_opt (str "?") (rq_query r) ++ [35] ++ f = pq ++ [35] ++ f) as Ea
      by (unfold pq; by rewrite <-app_assoc).
    rewrite Ea in *. clear Ea.
    replace ((pq ++ [35] ++ f) ++ [32]) with ((pq ++ [35]) ++ f ++ [32]) by (by rewrite <-!app_assoc).
    match goal with |- reads _ _ _ _ (?a ++ ?b ++ ?c ++ [EvFragment f]) =>
      replace (a ++ b ++ c ++ [EvFragment f]) with ((a ++ b ++ c) ++ [EvFragment f]) by (by rewrite <-!app_assoc) end.
    eapply reads_app; [reflexivity| |].
    + apply (path_query_part pre (rq_path r) (rq_query r) 35 (F_hash relaxed) (f ++ [32] ++ post)); [done|done|by left|].
      fold pq. by rewrite E, <-!app_assoc.
    + fold pq. set (p := Z.of_nat (length pre) + Z.of_nat (length (pq ++ [35]))).
      intros S x es HS. pose proof (frag_moves relaxed) as Hx. split_checks Hx.
      destruct (frag_runs f S p x es Hf ltac:(done) HS) as (S1 & HS1 & R1).
      pose proof (element_mid buffer small (pre ++ pq ++ [35]) f ([32] ++ post) ltac:(by rewrite E, <-!app_assoc)) as Hfr.
      replace (Z.of_nat (length (pre ++ pq ++ [35]))) with p in Hfr by (rewrite !length_app; unfold p; rewrite length_app; lia).
      destruct (moves_runs M (act buffer) _ _ _ _ S1 [32] (p + Z.of_nat (length f)) (set_mark p x, es)
        (set_mark p x, es ++ [EvFragment f]) ltac:(done) HS1 ltac:(by left)) as (S2 & HS2 & R2).
      { run_step. by rewrite Hfr. }
      exists S2, (set_mark p x). split; [done|]. split; [|by constructor]. by eapply runs_app.
Qed.
(** *** The version *)

Lemma version_part pre v post : v = 16 \/ v = 17 -> buffer = pre ++ dump_version v ++ crlf ++ post ->
  reads (F_space relaxed) (F_line relaxed) (Z.of_nat (length pre)) (dump_version v ++ crlf)
    [EvVersion (drop (length pre) buffer) 8].
Proof.
  intros Hv E S x es HS. pose proof (version_moves relaxed) as Hx. split_checks Hx. set (p := Z.of_nat (length pre)).
  assert (dump_version v ∈ [str "HTTP/1.0"; str "HTTP/1.1"] /\ length (dump_version v) = 8%nat) as [Hin Hl]
    by (destruct Hv as [-> | ->]; split; try reflexivity; [left|right; left]).
  destruct (moves_runs M (act buffer) _ _ _ _ S (dump_version v) p (x, es) (set_mark p x, es) Hx HS Hin eq_refl)
    as (S1 & HS1 & R1).
  pose proof (len_mid buffer small pre (dump_version v) (crlf ++ post) E) as Hlen.
  pose proof (ptr_to_mid buffer pre _ E) as Hptr. fold p in Hlen, Hptr.
  destruct (moves_runs M (act buffer) _ _ _ _ S1 crlf (p + Z.of_nat (length (dump_version v))) (set_mark p x, es)
    (set_mark p x, es ++ [EvVersion (drop (length pre) buffer) 8]) ltac:(done) HS1 ltac:(by left)) as (S2 & HS2 & R2).
  { run_step. rewrite Hlen, Hl. unfold ptr_to, p. by rewrite Nat2Z.id. }
  exists S2, (set_mark p x). split; [done|]. split; [|by constructor]. by eapply runs_app.
Qed.

(** *** The fields *)

(** A name is a token; a value has no control characters and no blanks in front. *)
Definition field_wf (kv : bytes * bytes) : bool :=
  negb (bytes_eqb (fst kv) []) && all_chars name_char (fst kv) && all_chars value_char (snd kv)
  && match snd kv with [] => true | c :: _ => value_first c end.

Lemma name_runs k S p x es : k <> [] -> all_chars name_char k = true -> S ∈ F_line relaxed ->
  exists S', S' ∈ F_name relaxed /\ runs S p k (x, es) S' (set_field_start p x, es).
Proof.
  intros Hne Hk HS. destruct (all_chars_words _ _ Hk) as (toks & -> & Ht). pose proof (name_moves relaxed) as Hc.
  split_checks Hc. by eapply (text_runs M (act buffer) (F_line relaxed) (F_name relaxed)); try done; intros ->.
Qed.

Lemma value_runs v S p x es : v <> [] -> all_chars value_char v = true -> match v with [] => true | c :: _ => value_first c end = true ->
  S ∈ F_blank relaxed -> exists S', S' ∈ F_value relaxed /\ runs S p v (x, es) S' (set_mark p x, es).
Proof.
  intros Hne Hv Hf HS. destruct v as [|c v]; [done|]. pose proof (value_moves relaxed) as Hc. split_checks Hc.
  unfold all_chars in Hv. cbn [forallb] in Hv. apply andb_prop in Hv as [Hc0 Hv]. apply andb_prop in Hc0 as [Hc0 Hr].
  destruct (moves_runs M (act buffer) _ _ _ _ S [c] p (x, es) (set_mark p x, es) H1 HS
    ltac:(apply chars_of_spec; done) eq_refl) as (S1 & HS1 & R1).
  destruct (all_chars_words _ _ Hv) as (toks & -> & Ht).
  destruct (quiet_runs M (act buffer) _ _ toks S1 H0 HS1 Ht) as (S2 & HS2 & R2).
  exists S2. split; [done|]. change (c :: concat toks) with ([c] ++ concat toks). by eapply runs_app.
Qed.

Lemma field_part pre kv post : field_wf kv = true -> buffer = pre ++ dump_field kv ++ post ->
  reads (F_line relaxed) (F_line relaxed) (Z.of_nat (length pre)) (dump_field kv) [EvField (fst kv) (snd kv)].
Proof.
  destruct kv as [k v]. unfold field_wf, dump_field. cbn [fst snd]. intros Hw E S x es HS.
  apply andb_prop in Hw as [Hw Hvf]. apply andb_prop in Hw as [Hw Hv]. apply andb_prop in Hw as [Hne Hk].
  assert (k <> []) as Hk0 by (by intros ->).
  change (str ": ") with [58; 32] in *. set (p := Z.of_nat (length pre)).
  set (p1 := p + Z.of_nat (length k)). set (p2 := p1 + 2). set (p3 := p2 + Z.of_nat (length v)).
  pose proof (element_mid buffer small pre k ([58; 32] ++ v ++ crlf ++ post) ltac:(by rewrite E, <-!app_assoc)) as Hek.
  pose proof (element_mid buffer small (pre ++ k ++ [58; 32]) v (crlf ++ post) ltac:(by rewrite E, <-!app_assoc)) as Hev.
  replace (Z.of_nat (length (pre ++ k ++ [58; 32]))) with p2 in Hev
    by (rewrite !length_app; cbn [length]; unfold p2, p1, p; lia).
  fold p in Hek. fold p1 p3 in Hek, Hev.
  destruct (name_runs k S p x es Hk0 Hk HS) as (S1 & HS1 & R1).
  pose proof (name_moves relaxed) as Hx. pose proof (value_moves relaxed) as Hy. split_checks Hx. split_checks Hy.
  set (x1 := set_field_len (u64 (p1 - p)) (set_field_start p x)).
  destruct (moves_runs M (act buffer) (F_name relaxed) [[58]] [A_write_field] (F_colon relaxed) S1 [58] p1 (set_field_start p x, es) (x1, es) ltac:(done) HS1 ltac:(by left) eq_refl)
    as (S2 & HS2 & R2).
  destruct (moves_runs M (act buffer) _ _ _ _ S2 [32] (p1 + 1) (x1, es) (set_mark (p1 + 1) x1, es) Hy HS2 ltac:(by left) eq_refl)
    as (S3 & HS3 & R3).
  assert (runs S p (k ++ [58; 32]) (x, es) S3 (set_mark (p1 + 1) x1, es)) as R0.
  { eapply runs_then; [|exact R1|]; [done|]. apply (runs_then M (act buffer) S1 p1 (p1 + 1) [58] _ S2 (x1, es) [32]); [done|exact R2|exact R3]. }
  destruct v as [|c v].
  - destruct (moves_runs M (act buffer) (F_blank relaxed) [crlf] [A_start_value; A_write_value] (F_line relaxed) S3 crlf p2
      (set_mark (p1 + 1) x1, es)
      (set_mark p2 x1, es ++ [EvField k []]) ltac:(done) HS3 ltac:(by left)) as (S4 & HS4 & R4).
    { run_step. change (field_start x1) with p. change (field_len x1) with (u64 (p1 - p)). rewrite Hek.
      unfold p3 in Hev. rewrite Z.add_0_r in Hev. by rewrite Hev. }
    exists S4, (set_mark p2 x1). split; [done|]. split; [|by constructor].
    rewrite app_assoc. eapply runs_then; [|exact R0|exact R4]. rewrite length_app. cbn [length]. unfold p2, p1. lia.
  - set (v' := c :: v) in *.
    destruct (value_runs v' S3 p2 (set_mark (p1 + 1) x1) es ltac:(done) Hv Hvf HS3) as (S4 & HS4 & R4).
    destruct (moves_runs M (act buffer) (F_value relaxed) [crlf] [A_write_value] (F_line relaxed) S4 crlf p3
      (set_mark p2 (set_mark (p1 + 1) x1), es)
      (set_mark p2 x1, es ++ [EvField k v']) ltac:(done) HS4 ltac:(by left)) as (S5 & HS5 & R5).
    { run_step. change (field_start x1) with p. change (field_len x1) with (u64 (p1 - p)). rewrite Hek, Hev. done. }
    exists S5, (set_mark p2 x1). split; [done|]. split; [|by constructor].
    rewrite app_assoc. eapply (runs_then M (act buffer) S p p2); [|exact R0|]; [rewrite length_app; cbn [length]; unfold p2, p1; lia|].
    eapply (runs_then M (act buffer) S3 p2 p3); [done|exact R4|exact R5].
Qed.

Lemma fields_part fs : forall pre post, Forall (fun kv => field_wf kv = true) fs ->
  buffer = pre ++ concat (map dump_field fs) ++ post ->
  reads (F_line relaxed) (F_line relaxed) (Z.of_nat (length pre)) (concat (map dump_field fs))
    (map (fun kv => EvField (fst kv) (snd kv)) fs).
Proof.
  induction fs as [|kv fs IH]; intros pre post Hw E; [apply reads_nil|].
  apply Forall_cons in Hw as [Hkv Hw]. cbn [map concat] in *. rewrite <-app_assoc in E.
  change (EvField (fst kv) (snd kv) :: ?l) with ([EvField (fst kv) (snd kv)] ++ l).
  eapply reads_app; [|by eapply field_part|].
  2: apply (IH (pre ++ dump_field kv) post Hw); by rewrite <-app_assoc.
  rewrite length_app. lia.
Qed.
(** *** The end of the head *)

Lemma end_run S p x es b : S ∈ F_line relaxed -> xml_sent x = false -> json_sent x = false ->
  exists S' x', exec M (act buffer) S p (crlf ++ b) (x, es) = (Ok (S', p + 2), (x', es ++ [EvHeaderDone]))
    /\ is_final M S' = true /\ S' <> [] /\ cs x' = cs x /\ uri_relaxed x' = uri_relaxed x.
Proof.
  intros HS Hxml Hjson. pose proof (end_moves relaxed) as Hx. apply andb_prop in Hx as [Hm Hf].
  destruct (moves_runs M (act buffer) _ _ _ _ S [13] p (x, es) (set_field_start p x, es) Hm HS ltac:(by left) eq_refl)
    as (S1 & HS1 & R1).
  change (crlf ++ b) with ([13] ++ [10] ++ b). rewrite R1. cbn [app exec length].
  rewrite forallb_forall in Hf. specialize (Hf S1 (proj1 (list_elem_of_In _ _) HS1)).
  destruct (step M S1 10) as [a T]. cbn [fst snd] in Hf. apply andb_prop in Hf as [Ha Hf].
  apply bool_decide_eq_true in Ha as ->. assert (T <> []) as HT by (by intros ->).
  destruct T as [|q T]; [done|]. cbn [run_acts act]. unfold mbind, M_bind. cbn [fst snd xml_sent set_field_start json_sent].
  rewrite Hxml, Hjson. cbn [orb]. replace (p + Z.of_nat 1 + 1) with (p + 2) by lia.
  by exists (q :: T), (set_body (p + 2) (content_len x) (set_field_start p x)).
Qed.
End Reads.

(** ** What the parser may be given *)

(** A request whose text the grammar has. *)
Definition parseable (r : HttpRequest) : bool :=
  grammar_method (rq_method r) && path_ok (rq_path r) && escaped query_char (rq_query r)
  && escaped query_char (rq_fragment r) && forallb field_wf (rq_headers r).

Lemma digits_wf s : forallb is_digit s = true -> s <> [] -> field_wf (str "Content-Length", s) = true.
Proof.
  intros Hd Hne. unfold field_wf. cbn [fst snd]. apply andb_true_intro. split.
  - apply andb_true_intro. split; [by vm_compute|]. unfold all_chars. rewrite forallb_forall in *. intros c Hc.
    specialize (Hd c Hc). unfold is_digit in Hd. unfold value_char, but, any_char, one_of, in_range. cbn [existsb]. lia.
  - destruct s as [|c s]; [done|]. cbn [forallb] in Hd. apply andb_prop in Hd as [Hd _]. unfold is_digit in Hd.
    unfold value_first, value_char, but, any_char, one_of. cbn [existsb]. lia.
Qed.

Lemma request_fields_wf r : Z.of_nat (length (rq_body r)) < 2 ^ 31 -> forallb field_wf (rq_headers r) = true -> Forall (fun kv => field_wf kv = true) (request_fields r).
Proof.
  intros Hl Hh. constructor; [destruct (rq_close r); by vm_compute|]. apply Forall_app. split.
  - rewrite forallb_forall in Hh. apply Forall_forall. intros kv Hkv. apply list_elem_of_filter in Hkv as [_ Hkv].
    by apply Hh, list_elem_of_In.
  - destruct (rq_body r) as [|c body]; [constructor|]. constructor; [|constructor].
    destruct (dec_spec (Z.of_nat (length (c :: body)))) as (_ & Hne & Hd); [lia|]. by apply digits_wf.
Qed.

(** The machine runs over the head of a serialised request, makes the callbacks of
    the request and stops. *)
Lemma head_run relaxed r b x : parseable r = true -> sendable r -> xml_sent x = false -> json_sent x = false ->
  Z.of_nat (length (request_head r ++ b)) < 2 ^ 64 ->
  exists S' x', exec (machine_of relaxed) (act (request_head r ++ b)) [0%N] 0 (request_head r ++ b) (x, [])
      = (Ok (S', Z.of_nat (length (request_head r))), (x', request_events r (request_head r ++ b)))
    /\ is_final (machine_of relaxed) S' = true /\ S' <> [] /\ cs x' = cs x /\ uri_relaxed x' = uri_relaxed x.
Proof.
  intros Hp (Hm & Hv & _ & _ & _ & Hbody) Hxml Hjson Hsmall. unfold parseable in Hp.
  apply andb_prop in Hp as [Hp Hh]. apply andb_prop in Hp as [Hp Hf]. apply andb_prop in Hp as [Hp Hq].
  apply andb_prop in Hp as [Hg Hpath]. apply (request_fields_wf r Hbody) in Hh.
  set (buffer := request_head r ++ b) in *. set (name := HttpMethodToString (rq_method r)).
  set (fs := concat (map dump_field (request_fields r))).
  assert (buffer = (name ++ [32]) ++ (target r ++ [32]) ++ (dump_version (rq_version r) ++ crlf) ++ fs ++ crlf ++ b) as E.
  { unfold buffer, request_head, request_line, fs, name. by rewrite <-!app_assoc. }
  assert (request_line r = (name ++ [32]) ++ target r ++ [32]) as El by (unfold request_line, name; by rewrite <-!app_assoc).
  pose proof (method_part relaxed buffer Hsmall (rq_method r)
    ((target r ++ [32]) ++ (dump_version (rq_version r) ++ crlf) ++ fs ++ crlf ++ b) Hg Hm
    ltac:(rewrite E; unfold name; by rewrite <-!app_assoc)) as R1. fold name in R1.
  pose proof (target_part relaxed buffer Hsmall (name ++ [32]) r
    ((dump_version (rq_version r) ++ crlf) ++ fs ++ crlf ++ b) Hpath Hq Hf
    ltac:(rewrite E; by rewrite <-!app_assoc)) as R2.
  pose proof (version_part relaxed buffer Hsmall (request_line r) (rq_version r) (fs ++ crlf ++ b) Hv
    ltac:(rewrite E, El; by rewrite <-!app_assoc)) as R3.
  pose proof (fields_part relaxed buffer Hsmall (request_fields r)
    (request_line r ++ dump_version (rq_version r) ++ crlf) (crlf ++ b) Hh
    ltac:(rewrite E, El; unfold fs; by rewrite <-!app_assoc)) as R4. fold fs in R4.
  set (evs := request_events r buffer).
  assert (reads relaxed buffer [[0%N]] (F_line relaxed) 0
    (((name ++ [32]) ++ (target r ++ [32])) ++ (dump_version (rq_version r) ++ crlf) ++ fs)
    (([EvMethod buffer (length name)]
     ++ ([EvPath (rq_path r)] ++ (match rq_query r with [] => [] | q => [EvQuery q] end)
         ++ [EvUri (rq_path r ++ dump_opt (str "?") (rq_query r))]
         ++ (match rq_fragment r with [] => [] | f => [EvFragment f] end)))
     ++ [EvVersion (drop (length (request_line r)) buffer) 8]
     ++ map (fun kv => EvField (fst kv) (snd kv)) (request_fields r))) as R.
  { eapply reads_app; [|eapply reads_app; [reflexivity|exact R1|]|eapply reads_app; [reflexivity|exact R3|]].
    - rewrite <-El. lia.
    - exact R2.
    - rewrite length_app in R4. rewrite Nat2Z.inj_add in R4. exact R4. }
  destruct (R [0%N] x [] ltac:(by left)) as (S1 & x1 & HS1 & R0 & [K1 K2 K3 K4 K5 K6]). clear R.
  match type of R0 with runs_to _ _ _ _ _ _ _ (_, ?es) => set (evs1 := es) in * end.
  destruct (end_run relaxed buffer S1 (0 + Z.of_nat (length (((name ++ [32]) ++ (target r ++ [32]))
    ++ (dump_version (rq_version r) ++ crlf) ++ fs))) x1 evs1 b HS1 ltac:(congruence) ltac:(congruence))
    as (S2 & x2 & Hend & Hfin & Hne & Hcs & Hrel).
  exists S2, x2. split; [|split_and!; try done; congruence].
  assert (buffer = (((name ++ [32]) ++ (target r ++ [32])) ++ (dump_version (rq_version r) ++ crlf) ++ fs) ++ crlf ++ b) as Eb
    by (rewrite E; by rewrite <-!app_assoc).
  etrans; [apply (f_equal (fun s => exec _ (act buffer) [0%N] 0 s (x, [])) Eb)|]. cbv beta. rewrite R0, Hend. f_equal.
  - do 2 f_equal. unfold request_head. rewrite El. fold fs. rewrite !length_app. cbn [crlf str length]. lia.
  - f_equal. unfold evs, evs1, request_events. fold name buffer. by rewrite <-!app_assoc.
Qed.

(** ** Safety *)

(** The marks are positions up to [p] in a buffer of [len] bytes. *)
Record marks_ok (len p : Z) (x : http_parser) : Prop := {
  mk_mark : 0 <= mark x <= p /\ mark x < len;
  mk_field : 0 <= field_start x <= p /\ field_start x < len;
  mk_len : 0 <= field_len x <= len;
  mk_body : 0 <= body_start x <= len
}.

Section Safety.
Variable buffer : bytes.
Notation len := (Z.of_nat (length buffer)).
Hypothesis small : len < 2 ^ 31.

(** The marks are in order, and the rest is as it was in [x]. *)
Definition going x (p : Z) (u : running) : Prop :=
  marks_ok len p (fst u) /\ cs (fst u) = cs x /\ uri_relaxed (fst u) = uri_relaxed x /\ nread (fst u) = nread x.

Lemma act_going x a p u : 0 <= p < len -> going x p u -> exists stop u', act buffer a p u = (Ok stop, u') /\ going x p u'.
Proof.
  intros Hp ([[H1 H2] [H3 H4] H5 H6] & Hcs & Hrel & Hn). destruct u as [y es]. cbn [fst] in *.
  destruct a; unfold act, upd, callback; cbn [fst snd];
    try (eexists _, _; split; [reflexivity|]; split; [|done]; constructor;
      cbn [fst mark field_start field_len body_start set_mark set_field_start set_field_len set_query_start set_sent];
      rewrite ?u64_small by lia; lia).
  destruct (xml_sent y || json_sent y); (eexists _, _; split; [reflexivity|]; split; [|done]; constructor; cbn; lia).
Qed.

Lemma going_later x p q u : going x p u -> p <= q -> going x q u.
Proof. intros ([[] [] ? ?] & ? & ? & ?) ?. split; [constructor; lia|done]. Qed.

(** What [http_parser_execute] comes to. *)
Lemma execute_run x es : buffer <> [] -> 0 <= body_start x <= len ->
  exists S' q u', exec (machine_of (uri_relaxed x)) (act buffer) (cs x) 0 buffer (reset_marks x, es) = (Ok (S', q), u')
    /\ 0 <= q <= len /\ cs (fst u') = cs x /\ uri_relaxed (fst u') = uri_relaxed x
    /\ 0 <= body_start (fst u') <= len
    /\ http_parser_execute buffer 0 (x, es)
       = (Ok q, (set_nread q (if http_parser_has_error (fst u') then fst u' else set_cs S' (fst u')), snd u')).
Proof.
  intros Hne Hb. assert (0 < len) as Hpos by (destruct buffer; [done|cbn [length]; lia]).
  destruct (exec_total (machine_of (uri_relaxed x)) (act buffer) (going (reset_marks x)) len (act_going (reset_marks x))
      (going_later (reset_marks x)) buffer (cs x) 0 (reset_marks x, es)) as
    (S' & q & u' & E & Hq & [Hm1 Hm2 Hm3 Hm4] & Hcs & Hrel & Hn); [lia|lia|split; [constructor; cbn; lia|done]|].
  exists S', q, u'. cbn [fst cs uri_relaxed reset_marks nread] in Hcs, Hrel, Hn. split; [done|]. split; [lia|].
  split; [done|]. split; [done|]. split; [done|].
  unfold http_parser_execute. rewrite (proj2 (Z.eqb_neq len 0)) by lia. mstep. cbn [fst snd uri_relaxed reset_marks cs].
  rewrite (proj2 (Z.leb_le 0 len)) by lia. mstep. rewrite same_distance_start, (proj2 (Z.ltb_lt len (2 ^ 31))) by lia.
  change (drop (Z.to_nat 0) buffer) with buffer. rewrite E.
  rewrite (proj2 (Z.leb_le q len)) by lia. mstep.
  set (x' := if http_parser_has_error (fst u') then fst u' else set_cs S' (fst u')).
  assert (nread x' = 0 /\ body_start x' = body_start (fst u') /\ mark x' = mark (fst u')
    /\ field_len x' = field_len (fst u') /\ field_start x' = field_start (fst u')) as (E1 & E2 & E3 & E4 & E5).
  { unfold x'. destruct (http_parser_has_error (fst u')); cbn; split_and!; done. }
  cbn [fst snd nread set_nread body_start mark field_len field_start]. rewrite E1, E2, E3, E4, E5, Z.sub_0_r, Z.add_0_l.
  rewrite (proj2 (Z.leb_le q len)), (proj2 (Z.leb_le _ len)), (proj2 (Z.ltb_lt _ len)), (proj2 (Z.leb_le _ len)),
    (proj2 (Z.ltb_lt _ len)) by lia. done.
Qed.
End Safety.

Lemma exec_nread buffer M s : forall S p u S' q u',
  exec M (act buffer) S p s u = (Ok (S', q), u') -> nread (fst u') = nread (fst u).
Proof.
  assert (forall a p u, exists stop u', act buffer a p u = (Ok stop, u') /\ nread (fst u') = nread (fst u)) as Hact.
  { intros a p [x es]. destruct a; unfold act, upd, callback; cbn [fst snd]; try (eexists _, _; done).
    destruct (xml_sent x || json_sent x); eexists _, _; done. }
  assert (forall acts p u stop u', run_acts (act buffer) acts p u = (Ok stop, u') -> nread (fst u') = nread (fst u)) as Hacts.
  { induction acts as [|a acts IH]; intros p u stop u'; cbn [run_acts]; [by intros [= _ <-]|]. unfold mbind, M_bind.
    destruct (Hact a p u) as (st & u1 & -> & <-). destruct st; [by intros [= _ <-]|]. apply IH. }
  induction s as [|c s IH]; intros S p u S' q u'; cbn [exec]; [by intros [= _ _ <-]|].
  destruct (step M S c) as [acts [|q1 S1]]; [by intros [= _ _ <-]|]. unfold mbind, M_bind.
  destruct (run_acts (act buffer) acts p u) as [[[|]|e] u1] eqn:Er; [intros [= _ _ <-]; by eapply Hacts| |done].
  intros H%IH. rewrite H. by eapply Hacts.
Qed.

(** The parser is what [http_parser.cc] relies on. *)
#[export] Instance request_automaton_laws memory : @RequestAutomatonLaws http_parser (request_automaton memory).
Proof.
  constructor; cbn.
  - intros x s x' evs n. unfold http_parser_execute. destruct (Z.eqb_spec (Z.of_nat (length s)) 0) as [E|E].
    { intros [= _ _ <-]. lia. }
    mstep. destruct (0 <=? Z.of_nat (length s)) eqn:E0; [|lia]. mstep.
    rewrite same_distance_start by lia. destruct (Z.of_nat (length s) <? 2 ^ 31); [|intros [= _ _ <-]; lia].
    destruct (exec _ _ _ _ _ _) as [[[S' q]|f] [x1 es]] eqn:Ex; [|intros [= _ _ <-]; lia].
    pose proof (exec_nread _ _ _ _ _ _ _ _ _ Ex) as Hn. cbn [fst nread reset_marks] in Hn.
    apply exec_bound in Ex. rewrite length_drop in Ex. mstep.
    destruct (q <=? Z.of_nat (length s)) eqn:E1; [|intros [= _ _ <-]; lia]. mstep.
    repeat match goal with |- context [(if ?b then _ else _) (_, _)] =>
      destruct b; [|intros [= _ _ <-]; lia]; cbn [fst snd] end.
    intros [= _ _ <-]. cbn [nread set_nread]. destruct (http_parser_has_error x1); cbn [nread set_cs]; lia.
  - intros x Hx. unfold http_parser_finish. by rewrite Hx.
Qed.

(** C36: whatever the bytes of a buffer of less than 2^31, and whatever state a parser is in
    whose [body_start] is within the buffer (as after [http_parser_init]),
    [http_parser_execute] on the whole buffer comes to an end within all its assertions:
    it consumes at most the bytes of the buffer, leaves [body_start] within it, so that
    the parser can be called again on a buffer that is not shorter, and a parser in the
    error state stays in it and consumes nothing.  A buffer of 2^31 bytes or more
    always fails an assertion: see [http_parser_execute_large]. *)
Theorem http_parser_execute_safe buffer x :
  Z.of_nat (length buffer) < 2 ^ 31 -> 0 <= body_start x <= Z.of_nat (length buffer) ->
  exists n x' evs, http_parser_execute buffer 0 (x, []) = (Ok n, (x', evs))
    /\ 0 <= n <= Z.of_nat (length buffer) /\ 0 <= body_start x' <= Z.of_nat (length buffer)
    /\ uri_relaxed x' = uri_relaxed x
    /\ (http_parser_has_error x = true -> buffer <> [] -> n = 0 /\ http_parser_has_error x' = true).
Proof.
  intros Hl Hb. destruct buffer as [|c s] eqn:E.
  { exists 0, x, []. split; [done|]. cbn [length] in *. split_and!; try (done || lia). }
  destruct (execute_run (c :: s) Hl x [] ltac:(done) Hb) as (S' & q & [x1 evs] & Ex & Hq & Hcs & Hrel & Hb' & Hrun).
  cbn [fst snd] in *. eexists q, _, evs. split; [exact Hrun|]. split; [done|].
  split; [by destruct (http_parser_has_error x1)|]. split; [by destruct (http_parser_has_error x1)|].
  intros Herr _. unfold http_parser_has_error in Herr. apply bool_decide_eq_true in Herr. rewrite Herr in *.
  cbn [exec] in Ex. injection Ex as <- <- <-. split; [done|].
  unfold http_parser_has_error. cbn [cs reset_marks]. rewrite Herr. cbn [set_nread set_cs cs]. by rewrite bool_decide_eq_true_2.
Qed.

(** The lengths are compared as [int]s: a longer buffer is not parsed at all. *)
Lemma http_parser_execute_large buffer x : 2 ^ 31 <= Z.of_nat (length buffer) ->
  http_parser_execute buffer 0 (x, []) = (Err AssertFail, (reset_marks x, [])).
Proof.
  intros Hl. unfold http_parser_execute. rewrite (proj2 (Z.eqb_neq _ 0)) by lia. mstep.
  rewrite (proj2 (Z.leb_le 0 _)) by lia. mstep. rewrite same_distance_start, (proj2 (Z.ltb_ge _ _)) by lia. done.
Qed.

(** The parser on the head of a serialised request. *)
Lemma http_parser_reads_head memory r b :
  parseable r = true -> sendable r -> Z.of_nat (length (request_head r ++ b)) < 2 ^ 31 ->
  exists x', http_parser_execute (request_head r ++ b) 0 (http_parser_init memory, [])
      = (Ok (Z.of_nat (length (request_head r))), (x', request_events r (request_head r ++ b)))
    /\ http_parser_finish x' = 1 /\ http_parser_has_error x' = false.
Proof.
  intros Hp Hs Hl. set (x := http_parser_init memory).
  assert (request_head r ++ b <> []) as Hne.
  { unfold request_head, request_line. destruct Hs as [Hm _]. by destruct (rq_method r). }
  destruct (execute_run (request_head r ++ b) Hl x [] Hne ltac:(cbn; lia))
    as (S' & q & u' & Ex & Hq & Hcs & Hrel & _ & Hrun).
  destruct (head_run (uri_relaxed x) r b (reset_marks x) Hp Hs eq_refl eq_refl ltac:(lia))
    as (S2 & x2 & Ex2 & Hfin & HS2 & Hcs2 & Hrel2).
  change (cs x) with [0%N] in Ex. rewrite Ex2 in Ex. injection Ex as <- <- <-. cbn [fst snd] in *.
  assert (http_parser_has_error x2 = false) as He.
  { unfold http_parser_has_error. rewrite Hcs2. done. }
  rewrite He in Hrun. eexists. split; [exact Hrun|].
  assert (http_parser_has_error (set_nread (Z.of_nat (length (request_head r))) (set_cs S2 x2)) = false) as He2.
  { unfold http_parser_has_error. cbn [cs set_nread set_cs]. by apply bool_decide_eq_false. }
  split; [|exact He2]. unfold http_parser_finish. rewrite He2. unfold http_parser_is_finished.
  cbn [cs uri_relaxed set_nread set_cs]. rewrite Hrel2. change (uri_relaxed (reset_marks x)) with (uri_relaxed x).
  by rewrite Hfin.
Qed.

(** A request serialised by [HttpRequest::dump] is parsed back: whatever follows
    it and whatever was in the parser's memory, the parser stops after the head
    and has called back method, path, query, target, fragment, version, the
    fields in order and the end of the head, with their text. *)
Theorem http_parser_reads_dump memory r b :
  parseable r = true -> sendable r -> Z.of_nat (length (request_head r ++ b)) < 2 ^ 31 ->
  exists x', http_parser_execute (request_head r ++ b) 0 (http_parser_init memory, [])
      = (Ok (Z.of_nat (length (request_head r))), (x', request_events r (request_head r ++ b)))
    /\ http_parser_finish x' = 1 /\ http_parser_has_error x' = false.
Proof. apply http_parser_reads_head. Qed.

(** C9: a request that a client serialises is the request the server's session receives
    through the parser of the grammar: the same method, version, path, query, fragment,
    body and keep-alive flag, and the same headers but for the two that [dump] writes
    itself (connection and content-length).  This holds where the text of the request
    is in the grammar ([parseable]) and it can be sent ([sendable]: version 1.0 or 1.1,
    no content-length of its own, a body below 2^31 bytes), and where the first segment
    holds the whole head and fits into the session's buffer; the rest of the body may
    be cut into any segments, and what comes after the last of them stays unread.  A
    head that is itself split is misread ([split_path_truncated]). *)
Theorem recvRequest_parses memory lexical_cast r b1 segs later out fuel buffer_size :
  (forall n, 0 <= n < 2 ^ 31 -> lexical_cast (dec n) = Some n) ->
  parseable r = true -> sendable r ->
  Forall (fun c => c <> []) segs -> (request_head r ++ b1) ++ concat segs = HttpRequest_dump r ->
  Z.of_nat (length (request_head r ++ b1)) <= buffer_size < 2 ^ 31 -> (length segs < fuel)%nat ->
  exists r',
    @recvRequest http_parser (request_automaton memory) _ _ lexical_cast fuel buffer_size
        (peer_with ((request_head r ++ b1) :: segs ++ later) out) = (Ok (Some r'), peer_with later out)
    /\ rq_method r' = rq_method r /\ rq_version r' = rq_version r /\ rq_path r' = rq_path r
    /\ rq_query r' = rq_query r /\ rq_fragment r' = rq_fragment r /\ rq_body r' = rq_body r
    /\ rq_close r' = rq_close r
    /\ forall k def, ~ same_key k (str "connection") -> ~ same_key k (str "content-length") ->
         getHeader r' k def = getHeader r k def.
Proof.
  intros Hcast Hp Hs Hsegs Hmsg Hbuf Hf. exists (received r).
  destruct (http_parser_reads_head memory r b1 Hp Hs ltac:(lia)) as (x' & Hx & Hfin & Herr).
  split; [|split_and!; try done; intros k def; by apply (@received_getHeader _ (request_automaton memory))].
  apply (@recv_delivers http_parser (request_automaton memory) lexical_cast Hcast r b1 segs later out fuel buffer_size x');
    try done. cbn [ra_execute ra_init request_automaton]. by rewrite Hx.
Qed.

(** ** What the grammar does beyond its intention *)

(** Memory as [new] leaves it. *)
Definition some_memory (relaxed : bool) : http_parser := mkParser [] 7 7 7 7 7 7 7 true true relaxed.

Definition reported (relaxed : bool) (s : bytes) : Z * list request_event * Z :=
  match http_parser_execute s 0 (http_parser_init (some_memory relaxed), []) with
  | (Ok n, (x, evs)) => (http_parser_finish x, evs, n)
  | (Err _, (x, evs)) => (-2, evs, 0)
  end.

Definition is_path (e : request_event) : option bytes := match e with EvPath s => Some s | _ => None end.
Definition is_field (e : request_event) : option (bytes * bytes) := match e with EvField k v => Some (k, v) | _ => None end.
Definition path_of (r : result (option HttpRequest)) : option bytes :=
  match r with Ok (Some r) => Some (rq_path r) | _ => None end.

(** Each call of the parser forgets the marks of the one before, and all bytes of
    the buffer are consumed: a path that two segments bring is what the second
    one has of it. *)
Lemma split_path_truncated :
  path_of (fst (@recvRequest http_parser (request_automaton (some_memory false)) _ _ ref_cast 5 4096
    (peer_with [str "GET /index"; str "/a.html HTTP/1.1" ++ crlf ++ crlf] []))) = Some (str "/a.html").
Proof. by vm_compute. Qed.

(** [0 - 31] is a difference: control characters belong to tokens, and the name of
    a field can go over the end of a line. *)
Lemma field_name_spans_lines :
  let s := str "GET / HTTP/1.1" ++ crlf ++ str "Evil" ++ crlf ++ str "Host: h" ++ crlf ++ crlf in
  omap is_field (snd (fst (reported false s))) = [(str "Evil" ++ crlf ++ str "Host", str "h")]
  /\ fst (fst (reported false s)) = 1.
Proof. by vm_compute. Qed.

(** The path of an absolute target begins with the authority. *)
Lemma absolute_target_path :
  omap is_path (snd (fst (reported false (str "GET http://h/a HTTP/1.1" ++ crlf ++ crlf)))) = [str "//h/a"].
Proof. by vm_compute. Qed.

(** A message of the socket protocols that the grammar comes with is taken for a
    request, without the end of a head. *)
Lemma socket_message_accepted :
  reported false (str "@/x {}" ++ [0]) = (1, [EvPath (str "@/x")], 7)
  /\ path_of (fst (@recvRequest http_parser (request_automaton (some_memory false)) _ _ ref_cast 5 4096
       (peer_with [str "@/x {}" ++ [0]] []))) = Some (str "@/x").
Proof. by vm_compute. Qed.

(** [uri_relaxed] is never set: whether braces are accepted depends on what was in
    the memory. *)
Lemma relaxed_uninitialised :
  let s := str "GET /{a} HTTP/1.1" ++ crlf ++ crlf in
  fst (fst (reported true s)) = 1 /\ fst (fst (reported false s)) = -1.
Proof. by vm_compute. Qed.

(** ** Witnesses *)

Lemma http_parser_execute_safe_witness :
  exists n x' evs, http_parser_execute (str "GET /<") 0 (http_parser_init (some_memory true), []) = (Ok n, (x', evs))
    /\ 0 <= n <= 6 /\ 0 <= body_start x' <= 6
    /\ uri_relaxed x' = true
    /\ (http_parser_has_error (http_parser_init (some_memory true)) = true -> str "GET /<" <> [] ->
        n = 0 /\ http_parser_has_error x' = true).
Proof. apply (http_parser_execute_safe (str "GET /<") (http_parser_init (some_memory true))); cbn; lia. Defined.

Lemma http_parser_reads_dump_witness :
  exists x', http_parser_execute (request_head demo_request ++ str "a=1") 0 (http_parser_init (some_memory true), [])
      = (Ok (Z.of_nat (length (request_head demo_request))), (x', request_events demo_request (request_head demo_request ++ str "a=1")))
    /\ http_parser_finish x' = 1 /\ http_parser_has_error x' = false.
Proof.
  apply (http_parser_reads_dump (some_memory true) demo_request (str "a=1"));
    [by vm_compute|exact demo_sendable|by vm_compute].
Defined.

Lemma recvRequest_parses_witness :
  exists r',
    @recvRequest http_parser (request_automaton (some_memory false)) _ _ ref_cast 5 4096
      (peer_with ((request_head demo_request ++ str "a=") :: [str "1"] ++ [str "GET "]) [])
      = (Ok (Some r'), peer_with [str "GET "] [])
    /\ rq_method r' = POST /\ rq_version r' = 17 /\ rq_path r' = str "/x"
    /\ rq_query r' = str "q=2" /\ rq_fragment r' = [] /\ rq_body r' = str "a=1"
    /\ rq_close r' = false
    /\ forall k def, ~ same_key k (str "connection") -> ~ same_key k (str "content-length") ->
         getHeader r' k def = getHeader demo_request k def.
Proof.
  apply (recvRequest_parses (some_memory false) ref_cast demo_request (str "a=") [str "1"] [str "GET "] [] 5 4096);
    [exact ref_cast_dec|by vm_compute|exact demo_sendable|by repeat constructor
    |vm_compute; reflexivity|vm_compute; split; [discriminate|reflexivity]|cbn; lia].
Defined.
