(* ===== verification/Servlet.v ===== *)
(** * Servlets and the HTTP server ([src/src/servlet.cc], [src/src/http_server.cc])

    A servlet acts on the request, the response and the session, which it
    reaches through shared pointers; it may be absent (a null pointer).  The
    dispatcher has a map of exact paths, a list of glob patterns and a default.
    [fnmatch] is an argument: whether a pattern matches a path. *)
From Stdlib Require Import Ascii String.
From S2P Require Import Prelude CString Http HttpSpec Stream HttpParser HttpSession.

#[local] Open Scope string_scope.
#[local] Open Scope list_scope.
#[local] Open Scope Z_scope.

Section Servlets.
Context {T : Type}.

(** [src/include/http/servlet.hh:20-53 Servlet]
    [handle] on the request, the response and the session. *)
Definition Servlet : Type := M (HttpRequest * HttpResponse * T) Z.

(** [src/src/servlet.cc:12-17 ServletFunction::handle]
    Calling an empty [std::function] throws. *)
Definition ServletFunction (cb : option Servlet) : Servlet :=
  match cb with Some f => f | None => fail (Throw bad_function_call) end.

(** [src/src/servlet.cc:145-147 RSP_BODY] *)
Definition RSP_BODY : bytes :=
  str "<html><head><title>404 Not Found</title></head><body><center><h1>404 Not Found</h1></center><hr><center>sylar/1.0.0</center></body></html>".

(** The response of [ServletNotFound]. *)
Definition not_found (rsp : HttpResponse) : HttpResponse :=
  rsp_setBody RSP_BODY (rsp_setHeader (str "Content-Type") (str "text/html")
    (rsp_setHeader (str "Server") (str "sylar/1.0.0") (rsp_setStatus 404 rsp))).

(** [src/src/servlet.cc:141-155 ServletNotFound::handle] *)
Definition ServletNotFound : Servlet :=
  modify (fun '(req, rsp, s) => (req, not_found rsp, s));; mret 0.

(** [src/include/http/servlet.hh:175-186 ServletDispatcher] *)
Record ServletDispatcher := mkSD {
  m_datas : gmap bytes (option Servlet);
  m_globs : list (bytes * option Servlet);
  m_default : option Servlet
}.

(** [src/src/servlet.cc:19-23 ServletDispatcher::ServletDispatcher] *)
Definition ServletDispatcher_new : ServletDispatcher := mkSD ∅ [] (Some ServletNotFound).

(** [src/src/servlet.cc:43-49 ServletDispatcher::addServlet] *)
Definition addServlet (uri : bytes) (s : option Servlet) (d : ServletDispatcher) : ServletDispatcher :=
  mkSD (<[uri := s]> (m_datas d)) (m_globs d) (m_default d).

(** [src/src/servlet.cc:36-41 ServletDispatcher::addServlet(callBack)] *)
Definition addServlet_cb (uri : bytes) (cb : option Servlet) (d : ServletDispatcher) : ServletDispatcher :=
  addServlet uri (Some (ServletFunction cb)) d.

(** Erase the first entry for [uri]. *)
Fixpoint erase_first (uri : bytes) (l : list (bytes * option Servlet)) : list (bytes * option Servlet) :=
  match l with
  | [] => []
  | (u, s) :: l => if bytes_eqb u uri then l else (u, s) :: erase_first uri l
  end.

(** [src/src/servlet.cc:58-76 ServletDispatcher::addGlobServlet] *)
Definition addGlobServlet (uri : bytes) (s : option Servlet) (d : ServletDispatcher) : ServletDispatcher :=
  mkSD (m_datas d) (erase_first uri (m_globs d) ++ [(uri, s)]) (m_default d).

(** [src/src/servlet.cc:51-56 ServletDispatcher::addGlobServlet(callBack)] *)
Definition addGlobServlet_cb (uri : bytes) (cb : option Servlet) (d : ServletDispatcher) : ServletDispatcher :=
  addGlobServlet uri (Some (ServletFunction cb)) d.

(** [src/src/servlet.cc:78-83 ServletDispatcher::delServlet] *)
Definition delServlet (uri : bytes) (d : ServletDispatcher) : ServletDispatcher :=
  mkSD (delete uri (m_datas d)) (m_globs d) (m_default d).

(** [src/src/servlet.cc:85-95 ServletDispatcher::delGlobServlet] *)
Definition delGlobServlet (uri : bytes) (d : ServletDispatcher) : ServletDispatcher :=
  mkSD (m_datas d) (erase_first uri (m_globs d)) (m_default d).

(** [src/include/http/servlet.hh:152-152 ServletDispatcher::setDefault] *)
Definition setDefault (s : option Servlet) (d : ServletDispatcher) : ServletDispatcher :=
  mkSD (m_datas d) (m_globs d) s.

(** [src/src/servlet.cc:97-103 ServletDispatcher::getServlet] *)
Definition getServlet (uri : bytes) (d : ServletDispatcher) : option Servlet :=
  match m_datas d !! uri with Some s => s | None => None end.

Fixpoint find_glob (p : bytes -> bool) (l : list (bytes * option Servlet)) : option (option Servlet) :=
  match l with
  | [] => None
  | (u, s) :: l => if p u then Some s else find_glob p l
  end.

(** [src/src/servlet.cc:105-116 ServletDispatcher::getGlobServlet] *)
Definition getGlobServlet (uri : bytes) (d : ServletDispatcher) : option Servlet :=
  match find_glob (fun u => bytes_eqb u uri) (m_globs d) with Some s => s | None => None end.

(** [src/src/servlet.cc:118-135 ServletDispatcher::getMatchedServlet] *)
Definition getMatchedServlet (fnmatch : bytes -> bytes -> bool) (uri : bytes) (d : ServletDispatcher)
    : option Servlet :=
  match m_datas d !! uri with
  | Some s => s
  | None =>
      match find_glob (fun u => fnmatch (c_str u) (c_str uri)) (m_globs d) with
      | Some s => s
      | None => m_default d
      end
  end.

(** [src/src/servlet.cc:25-34 ServletDispatcher::handle] *)
Definition dispatch (fnmatch : bytes -> bytes -> bool) (d : ServletDispatcher) : Servlet :=
  '(req, _, _) ← get;
  (match getMatchedServlet fnmatch (rq_path req) d with
   | Some servlet => servlet;; mret ()
   | None => mret ()
   end);;
  mret 0.

(** ** The server *)
Section Server.
Context `{Stream T} {P : Type} `{RequestAutomaton P}.
Variables (lexical_cast : bytes -> option Z) (fnmatch : bytes -> bytes -> bool).

(** [src/include/http/http_server.hh:42-52 HttpServer]
    With the name of the server and the receive buffer's size. *)
Record HttpServer := mkServer {
  hs_name : bytes; hs_isKeepAlive : bool; hs_dispatcher : ServletDispatcher; hs_buffer : Z
}.

(** [src/src/http_server.cc:9-16 HttpServer::HttpServer]
    The name is that of [TcpServer::TcpServer]. *)
Definition HttpServer_new (isKeepAlive : bool) (buffer : Z) : HttpServer :=
  mkServer (str "sylar/1.0.0") isKeepAlive ServletDispatcher_new buffer.

(** [src/include/http/http_server.hh:36-39 HttpServer::setServletDispatcher] *)
Definition setServletDispatcher (d : ServletDispatcher) (srv : HttpServer) : HttpServer :=
  mkServer (hs_name srv) (hs_isKeepAlive srv) d (hs_buffer srv).

(** [src/src/http_server.cc:30-37 HttpServer::handleClient]
    The response to a request: dispatch and send.  The result is the request as
    the servlet left it. *)
Definition respond (fuel : nat) (srv : HttpServer) (req : HttpRequest) : M T HttpRequest := fun s =>
  let rsp := rsp_setHeader (str "Server") (hs_name srv)
               (HttpResponse_new (rq_version req) (rq_close req || negb (hs_isKeepAlive srv))) in
  match dispatch fnmatch (hs_dispatcher srv) (req, rsp, s) with
  | (Err e, (_, _, s')) => (Err e, s')
  | (Ok _, (req, rsp, s')) => (sendResponse fuel rsp;; mret req) s'
  end.

(** [src/src/http_server.cc:21-42 HttpServer::handleClient]
    The loop; one unit of fuel per request. *)
Fixpoint serve (fuel : nat) (srv : HttpServer) : M T unit :=
  match fuel with
  | O => fail OutOfFuel
  | S fuel' =>
      req ← recvRequest lexical_cast fuel (hs_buffer srv);
      match req with
      | None => mret ()
      | Some req =>
          req ← respond fuel srv req;
          if negb (hs_isKeepAlive srv) || rq_close req then mret ()
          else if hs_isKeepAlive srv then serve fuel' srv else mret ()
      end
  end.

(** [src/src/http_server.cc:18-44 HttpServer::handleClient] *)
Definition handleClient (fuel : nat) (srv : HttpServer) : M T unit :=
  serve fuel srv;; modify st_close.
End Server.
End Servlets.
Arguments Servlet T : clear implicits.
Arguments ServletDispatcher T : clear implicits.
Arguments HttpServer T : clear implicits.

(** ** Which servlet answers *)

Section Dispatch.
Context {T : Type}.
Implicit Types d : ServletDispatcher T.

Inductive route_op :=
| AddServlet (uri : bytes) (s : option (Servlet T))
| AddGlob (uri : bytes) (s : option (Servlet T))
| DelServlet (uri : bytes)
| DelGlob (uri : bytes).

Definition route d (o : route_op) : ServletDispatcher T :=
  match o with
  | AddServlet u s => addServlet u s d
  | AddGlob u s => addGlobServlet u s d
  | DelServlet u => delServlet u d
  | DelGlob u => delGlobServlet u d
  end.

(** The specification, from the history of calls alone: the exact route of a
    path is the last one registered and not deleted since; the patterns in
    force are those registered and not touched since, in that order. *)
Definition exact_touch (uri : bytes) (o : route_op) : option (option (option (Servlet T))) :=
  match o with
  | AddServlet u s => if bytes_eqb u uri then Some (Some s) else None
  | DelServlet u => if bytes_eqb u uri then Some None else None
  | _ => None
  end.

Fixpoint last_exact (uri : bytes) (ops : list route_op) (acc : option (option (Servlet T)))
    : option (option (Servlet T)) :=
  match ops with
  | [] => acc
  | o :: ops => last_exact uri ops (match exact_touch uri o with Some r => r | None => acc end)
  end.

Definition touches_glob (uri : bytes) (o : route_op) : bool :=
  match o with AddGlob u _ | DelGlob u => bytes_eqb u uri | _ => false end.

Fixpoint live_globs (ops : list route_op) : list (bytes * option (Servlet T)) :=
  match ops with
  | [] => []
  | AddGlob u s :: ops => if existsb (touches_glob u) ops then live_globs ops else (u, s) :: live_globs ops
  | _ :: ops => live_globs ops
  end.

(** Entries that a list of calls leaves alone. *)
Definition untouched (ops : list route_op) (l : list (bytes * option (Servlet T))) :=
  filter (fun e => existsb (touches_glob (fst e)) ops = false) l.

Lemma erase_first_filter uri (l : list (bytes * option (Servlet T))) :
  NoDup (map fst l) -> erase_first uri l = filter (fun e => bytes_eqb (fst e) uri = false) l.
Proof.
  induction l as [|[u s] l IH]; [done|]. cbn [map fst]. rewrite NoDup_cons. intros [Hn Hnd].
  cbn [erase_first]. rewrite filter_cons. cbn [fst].
  destruct (bytes_eqb_spec u uri) as [->|Hne].
  - rewrite decide_False by done. symmetry. apply list_filter_all. apply Forall_forall.
    intros [u' s'] Hin. cbn. destruct (bytes_eqb_spec u' uri) as [->|]; [|done].
    exfalso. apply Hn. apply (list_elem_of_fmap_2 fst _ _ Hin).
  - rewrite decide_True by done. by rewrite IH.
Qed.

Lemma filter_filter_and {A} (f g : A -> bool) (l : list A) :
  filter (fun a => f a = false) (filter (fun a => g a = false) l)
  = filter (fun a => g a || f a = false) l.
Proof.
  induction l as [|a l IH]; [done|]. rewrite !filter_cons.
  destruct (g a) eqn:Eg; cbn [orb].
  - rewrite !decide_False by done. apply IH.
  - rewrite decide_True by done. rewrite filter_cons. destruct (f a) eqn:Ef.
    + rewrite !decide_False by done. apply IH.
    + rewrite !decide_True by done. by rewrite IH.
Qed.

Lemma nodup_filter (f : bytes * option (Servlet T) -> bool) l :
  NoDup (map fst l) -> NoDup (map fst (filter (fun e => f e = false) l)).
Proof.
  induction l as [|e l IH]; [done|]. cbn [map]. rewrite NoDup_cons. intros [Hn Hnd].
  rewrite filter_cons. destruct (decide _); [|auto]. cbn [map]. apply NoDup_cons. split; [|auto].
  intros Hin. apply Hn. apply list_elem_of_fmap in Hin as (e' & -> & He').
  apply list_elem_of_filter in He' as [_ He']. by apply list_elem_of_fmap_2.
Qed.

Lemma nodup_erase_add uri s (l : list (bytes * option (Servlet T))) :
  NoDup (map fst l) -> NoDup (map fst (erase_first uri l ++ [(uri, s)])).
Proof.
  intros Hnd. rewrite erase_first_filter by done. rewrite map_app. apply NoDup_app.
  split; [by apply nodup_filter|]. split; [|apply NoDup_singleton].
  intros u Hu Hin. apply list_elem_of_singleton in Hin as ->.
  apply list_elem_of_fmap in Hu as ([u' s'] & Hu' & He). apply list_elem_of_filter in He as [He _].
  cbn in *. subst. by rewrite bytes_eqb_refl in He.
Qed.

(** The pattern list is the history's: what it held and no call touched, then the
    live patterns. *)
Lemma run_globs ops : forall d, NoDup (map fst (m_globs d)) ->
  m_globs (fold_left route ops d) = untouched ops (m_globs d) ++ live_globs ops.
Proof.
  assert (forall ops u l, untouched ops (filter (fun e => bytes_eqb (fst e) u = false) l)
    = filter (fun e : bytes * option (Servlet T) =>
        bytes_eqb u (fst e) || existsb (touches_glob (fst e)) ops = false) l) as Hun.
  { intros ops' u l. unfold untouched.
    rewrite (filter_filter_and (fun e => existsb (touches_glob (fst e)) ops') (fun e => bytes_eqb (fst e) u)).
    apply list_filter_iff. intros e. by rewrite bytes_eqb_sym. }
  induction ops as [|o ops IH]; intros d Hnd.
  - cbn [fold_left live_globs]. unfold untouched. cbn [existsb]. rewrite app_nil_r. symmetry.
    apply list_filter_all. by apply Forall_true.
  - cbn [fold_left]. destruct o as [u s|u s|u|u]; cbn [route live_globs].
    + by rewrite IH.
    + rewrite IH by by apply nodup_erase_add. cbn [addGlobServlet m_globs].
      rewrite erase_first_filter by done. unfold untouched at 1. rewrite filter_app, <-app_assoc.
      fold (untouched ops (filter (fun e => bytes_eqb (fst e) u = false) (m_globs d))). rewrite Hun.
      f_equal. rewrite filter_cons, filter_nil. cbn [fst].
      destruct (existsb (touches_glob u) ops); by case_decide.
    + by rewrite IH.
    + rewrite IH by (cbn; rewrite erase_first_filter by done; by apply nodup_filter).
      cbn [delGlobServlet m_globs]. rewrite erase_first_filter by done. by rewrite Hun.
Qed.

Lemma run_datas ops uri : forall d,
  m_datas (fold_left route ops d) !! uri = last_exact uri ops (m_datas d !! uri).
Proof.
  induction ops as [|o ops IH]; intros d; [done|]. cbn [fold_left last_exact]. rewrite IH. f_equal.
  destruct o as [u s|u s|u|u]; cbn [route exact_touch]; try done; cbn [addServlet delServlet m_datas].
  - destruct (bytes_eqb_spec u uri) as [->|]; [by rewrite lookup_insert_eq|by rewrite lookup_insert_ne].
  - destruct (bytes_eqb_spec u uri) as [->|]; [by rewrite lookup_delete_eq|by rewrite lookup_delete_ne].
Qed.

Lemma run_default ops : forall d, m_default (fold_left route ops d) = m_default d.
Proof. induction ops as [|o ops IH]; intros d; [done|]. cbn [fold_left]. rewrite IH. by destruct o. Qed.

(** After any sequence of registrations and removals, a path goes to the
    servlet last registered for exactly that path, otherwise to the first of
    the patterns in force that matches, in the order of their last registration,
    otherwise to the default servlet; getServlet and getGlobServlet agree. *)
Theorem dispatch_by_history fnmatch (ops : list route_op) uri :
  let d := fold_left route ops ServletDispatcher_new in
  getMatchedServlet fnmatch uri d
  = match last_exact uri ops None with
    | Some s => s
    | None => match find_glob (fun u => fnmatch (c_str u) (c_str uri)) (live_globs ops) with
              | Some s => s
              | None => Some ServletNotFound
              end
    end
  /\ getServlet uri d = match last_exact uri ops None with Some s => s | None => None end
  /\ getGlobServlet uri d
     = match find_glob (fun u => bytes_eqb u uri) (live_globs ops) with Some s => s | None => None end.
Proof.
  intros d. unfold getMatchedServlet, getServlet, getGlobServlet, d.
  rewrite run_datas, run_globs, run_default by apply NoDup_nil_2. done.
Qed.
End Dispatch.

(** ** Serving a connection *)

Section Serving.
Context {P : Type} `{RequestAutomaton P}.
Variable lexical_cast : bytes -> option Z.
Hypothesis cast_dec : forall n, 0 <= n < 2 ^ 31 -> lexical_cast (dec n) = Some n.
Variables (fnmatch : bytes -> bytes -> bool) (srv : HttpServer (SocketStream Peer)).
Hypothesis keepalive : hs_isKeepAlive srv = true.

(** A servlet that only computes the response. *)
Definition pure_servlet (h : HttpRequest -> HttpResponse -> HttpResponse) : Servlet (SocketStream Peer) :=
  modify (fun '(req, rsp, s) => (req, h req rsp, s));; mret 0.

Variable h : HttpRequest -> HttpResponse -> HttpResponse.

(** The response that a servlet is given. *)
Definition fresh_response (r : HttpRequest) : HttpResponse :=
  rsp_setHeader (str "Server") (hs_name srv) (HttpResponse_new (rq_version r) (rq_close r)).

(** The response to a request as the client sent it: [h] is what the servlets compute. *)
Definition answer (r : HttpRequest) : HttpResponse := h (received r) (fresh_response r).

(** The servlet for the path of the request only computes the response, and [h] says
    which; other paths may have other servlets. *)
Definition computed (r : HttpRequest) : Prop :=
  exists hp, getMatchedServlet fnmatch (rq_path r) (hs_dispatcher srv) = Some (pure_servlet hp)
  /\ hp (received r) (fresh_response r) = answer r.

(** A request that arrives whole, is understood and is served. *)
Definition served_ok (r : HttpRequest) : Prop :=
  sendable r
  /\ (exists p' : P, ra_execute ra_init (HttpRequest_dump r)
        = (p', request_events r (HttpRequest_dump r), Z.of_nat (length (request_head r)))
      /\ ra_has_error p' = false /\ ra_finish p' = 1)
  /\ Z.of_nat (length (HttpRequest_dump r)) <= hs_buffer srv
  /\ computed r
  /\ Z.of_nat (length (HttpResponse_dump (answer r))) < 2 ^ 31.

(** The requests up to the first that asks to close, and the others. *)
Fixpoint until_close (rs : list HttpRequest) : list HttpRequest * list HttpRequest :=
  match rs with
  | [] => ([], [])
  | r :: rs => if rq_close r then ([r], rs) else let '(a, b) := until_close rs in (r :: a, b)
  end.

Lemma dump_nonempty r : (0 < length (HttpResponse_dump r))%nat.
Proof.
  unfold HttpResponse_dump, dump_version. rewrite !length_app.
  change (length (str "HTTP/")) with 5%nat. lia.
Qed.

Lemma respond_ok fuel r cs out : served_ok r -> (1 < fuel)%nat ->
  respond fnmatch fuel srv (received r) (peer_with cs out)
  = (Ok (received r), peer_with cs (out ++ HttpResponse_dump (answer r))).
Proof.
  intros (_ & _ & _ & (hp & Hd & Hh) & Hl) Hf. unfold respond. rewrite keepalive, orb_false_r.
  unfold dispatch. unfold mbind, M_bind, get. cbn [received rq_path rq_version rq_close].
  rewrite Hd. unfold pure_servlet. mstep. unfold sendResponse.
  fold (received r). fold (fresh_response r). rewrite Hh.
  pose proof (dump_nonempty (answer r)). rewrite writeFixSize_ok by lia. done.
Qed.

Lemma recv_whole fuel r cs out : served_ok r -> hs_buffer srv < 2 ^ 31 -> (0 < fuel)%nat ->
  recvRequest lexical_cast fuel (hs_buffer srv) (peer_with (HttpRequest_dump r :: cs) out)
  = (Ok (Some (received r)), peer_with cs out).
Proof.
  intros (Hs & (p' & Hex & Herr & Hfin) & Hb & _) H31 Hf. rewrite request_dump_head in *.
  apply (recv_delivers lexical_cast cast_dec r (rq_body r) [] cs out fuel _ p');
    try done; try (cbn; lia). by rewrite app_nil_r, request_dump_head.
Qed.

Lemma recv_eof fuel out : (0 < fuel)%nat ->
  @recvRequest P _ _ _ lexical_cast fuel (hs_buffer srv) (peer_with [] out)
  = (Ok None, st_close (peer_with [] out)).
Proof. intros Hf. destruct fuel; [lia|]. done. Qed.

Lemma serve_ok rs : forall fuel out,
  Forall served_ok rs -> hs_buffer srv < 2 ^ 31 -> (length rs + 1 < fuel)%nat ->
  exists s, serve lexical_cast fnmatch fuel srv (peer_with (map HttpRequest_dump rs) out) = (Ok tt, s)
  /\ st_close s = st_close (peer_with (map HttpRequest_dump (snd (until_close rs)))
                    (out ++ concat (map (fun r => HttpResponse_dump (answer r)) (fst (until_close rs))))).
Proof.
  induction rs as [|r rs IH]; intros fuel out Hok H31 Hf; (destruct fuel as [|fuel]; [lia|]).
  - cbn [serve map]. unfold mbind, M_bind. rewrite recv_eof by lia.
    eexists. split; [done|]. by rewrite app_nil_r.
  - inversion_clear Hok as [|? ? Hr Hrs]. cbn [serve map]. unfold mbind, M_bind.
    rewrite recv_whole by (done || lia).
    cbn in Hf. rewrite respond_ok by (done || lia). rewrite keepalive. cbn [negb orb until_close].
    change (rq_close (received r)) with (rq_close r). destruct (rq_close r).
    + eexists. split; [done|]. cbn [fst snd map concat]. by rewrite app_nil_r.
    + destruct (IH fuel (out ++ HttpResponse_dump (answer r))) as (s & Hs & Hc); [done|done|lia|].
      exists s. split; [done|]. rewrite Hc. destruct (until_close rs) as [a b].
      cbn [fst snd map concat]. by rewrite <-app_assoc.
Qed.

(** On a keep-alive connection the server answers the requests in order, each
    with the serialisation of what the servlet for its path computes, up to and
    including the first that asks to close; later requests are not read, and
    the connection is closed at the end. *)
Theorem handleClient_serves_in_order rs fuel out :
  Forall served_ok rs -> hs_buffer srv < 2 ^ 31 -> (length rs + 1 < fuel)%nat ->
  handleClient lexical_cast fnmatch fuel srv (peer_with (map HttpRequest_dump rs) out)
  = (Ok tt, st_close (peer_with (map HttpRequest_dump (snd (until_close rs)))
       (out ++ concat (map (fun r => HttpResponse_dump (answer r)) (fst (until_close rs)))))).
Proof.
  intros Hok H31 Hf. unfold handleClient, mbind, M_bind.
  destruct (serve_ok rs fuel out Hok H31 Hf) as (s & -> & Hc). unfold modify. by rewrite Hc.
Qed.
End Serving.

(** A server with one route. *)
Definition hello (req : HttpRequest) (rsp : HttpResponse) : HttpResponse :=
  rsp_setBody (rq_body req) rsp.

Definition demo_server : HttpServer (SocketStream Peer) :=
  mkServer (str "sylar") true
    (addServlet (str "/x") (Some (pure_servlet hello)) ServletDispatcher_new) 4096.

Definition closing_request : HttpRequest := setClose true demo_request.

Lemma demo_served r : (r = demo_request \/ r = closing_request) ->
  served_ok (fun _ _ => false) demo_server hello r.
Proof.
  intros Hr. split; [|split; [exists true|]].
  - destruct Hr as [-> | ->]; (split; [done|]); (split; [by right|]); (split; [by repeat constructor|]); done.
  - destruct Hr as [-> | ->]; split; [vm_compute; reflexivity|done|vm_compute; reflexivity|done].
  - destruct Hr as [-> | ->]; (split; [vm_compute; discriminate|]);
      (split; [exists hello; split|]; vm_compute; reflexivity).
Qed.

Lemma handleClient_serves_in_order_witness :
  handleClient ref_cast (fun _ _ => false) 6 demo_server
    (peer_with (map HttpRequest_dump [demo_request; closing_request; demo_request]) [])
  = (Ok tt, st_close (peer_with [HttpRequest_dump demo_request]
       (HttpResponse_dump (answer demo_server hello demo_request)
        ++ HttpResponse_dump (answer demo_server hello closing_request)))).
Proof.
  apply (handleClient_serves_in_order ref_cast ref_cast_dec (fun _ _ => false) demo_server eq_refl hello
    [demo_request; closing_request; demo_request] 6 []).
  - do 3 (apply Forall_cons_2; [apply demo_served; tauto|]). apply Forall_nil_2.
  - vm_compute; reflexivity.
  - cbn; lia.
Defined.
