(* ===== verification/Address.v ===== *)
(** * Socket addresses ([src/src/address.cc], [include/sylar/address.hh])

    IPv4, IPv6, Unix and unknown addresses.  Fields of [sockaddr_in] and
    [sockaddr_in6] that the kernel wants in network order are the integers the
    program stores, on a host whose byte order is an argument.  [getaddrinfo],
    [getifaddrs] and [inet_pton] are arguments. *)
From Stdlib Require Import Ascii String.
From S2P Require Import Prelude CString Endian.

#[local] Open Scope string_scope.
#[local] Open Scope list_scope.
#[local] Open Scope Z_scope.

Definition AF_UNSPEC : Z := 0.
Definition AF_UNIX : Z := 1.
Definition AF_INET : Z := 2.
Definition AF_INET6 : Z := 10.

(** ** Masks *)

(** [src/src/address.cc:11-17 CreateMask]
    For an unsigned type of [bits] bits.  The shift is of an [int]: shifting by
    its width or more, and [INT_MIN - 1], are undefined. *)
Definition CreateMask (bits net_bits : Z) : result Z :=
  let n := bits - net_bits in
  if (n <? 0) || (32 <=? n) then Err (Undef bad_shift)
  else if n =? 31 then Err (Undef signed_overflow)
  else Ok ((Z.shiftl 1 n - 1) mod 2 ^ bits).

(** [src/src/address.cc:19-27 CountBytes]
    One unit of fuel per round. *)
Fixpoint count_loop (fuel : nat) (value result : Z) : option Z :=
  if value =? 0 then Some result else
  match fuel with
  | O => None
  | S fuel => count_loop fuel (Z.land value (value - 1)) (u32 (result + 1))
  end.

(** [src/src/address.cc:19-27 CountBytes]
    A value of [bits] bits has at most [bits] rounds. *)
Definition CountBytes (bits : nat) (value : Z) : option Z := count_loop bits value 0.

(** ** Addresses *)

Record sockaddr_in := mkIn { sin_family : Z; sin_port : Z; sin_addr : Z; sin_zero : bytes }.
Record sockaddr_in6 := mkIn6 {
  sin6_family : Z; sin6_port : Z; sin6_flowinfo : Z; sin6_addr : bytes; sin6_scope : Z
}.

Section Host.
Variable host : endian.
Abbreviation hton16 := (byteswapOnLittleEndian host uint16_t).
Abbreviation hton32 := (byteswapOnLittleEndian host uint32_t).

(** [src/src/address.cc:331-337 IPv4Address::IPv4Address] *)
Definition IPv4Address_new (address port : Z) : sockaddr_in :=
  mkIn AF_INET (hton16 port) (hton32 address) (repeat 0 8).

(** [src/src/address.cc:312-327 IPv4Address::Create]
    [inet_pton] is the value stored in [s_addr], or none. *)
Definition IPv4Address_Create (inet_pton : bytes -> option Z) (address : bytes) (port : Z)
    : option sockaddr_in :=
  match inet_pton (c_str address) with
  | Some s_addr => Some (mkIn AF_INET (hton16 port) s_addr (repeat 0 8))
  | None => None
  end.

(** [src/src/address.cc:345-356 IPv4Address::insert] *)
Definition IPv4Address_insert (a : sockaddr_in) : bytes :=
  let addr := hton32 (sin_addr a) in
  dec (Z.land (Z.shiftr addr 24) 255) ++ str "." ++ dec (Z.land (Z.shiftr addr 16) 255) ++ str "."
  ++ dec (Z.land (Z.shiftr addr 8) 255) ++ str "." ++ dec (Z.land addr 255)
  ++ str ":" ++ dec (hton16 (sin_port a)).

Definition with_addr (a : sockaddr_in) (s : Z) : sockaddr_in :=
  mkIn (sin_family a) (sin_port a) s (sin_zero a).

(** [src/src/address.cc:358-370 IPv4Address::broadcastAddress] *)
Definition IPv4_broadcastAddress (a : sockaddr_in) (prefix_len : Z) : result (option sockaddr_in) :=
  if prefix_len >? 32 then Ok None else
  match CreateMask 32 prefix_len with
  | Ok m => Ok (Some (with_addr a (Z.lor (sin_addr a) (hton32 m))))
  | Err e => Err e
  end.

(** [src/src/address.cc:372-382 IPv4Address::networkAddress] *)
Definition IPv4_networkAddress (a : sockaddr_in) (prefix_len : Z) : result (option sockaddr_in) :=
  if prefix_len >? 32 then Ok None else
  match CreateMask 32 prefix_len with
  | Ok m => Ok (Some (with_addr a (Z.land (sin_addr a) (hton32 (u32 (Z.lnot m))))))
  | Err e => Err e
  end.

(** [src/src/address.cc:384-392 IPv4Address::subnetMask] *)
Definition IPv4_subnetMask (prefix_len : Z) : result sockaddr_in :=
  match CreateMask 32 prefix_len with
  | Ok m => Ok (mkIn AF_INET 0 (hton32 (u32 (Z.lnot m))) (repeat 0 8))
  | Err e => Err e
  end.

(** [src/src/address.cc:394-397 IPv4Address::getPort] *)
Definition IPv4_getPort (a : sockaddr_in) : Z := hton16 (sin_port a).

(** [src/src/address.cc:399-402 IPv4Address::setPort] *)
Definition IPv4_setPort (port : Z) (a : sockaddr_in) : sockaddr_in :=
  mkIn (sin_family a) (hton16 port) (sin_addr a) (sin_zero a).

(** [src/src/address.cc:420-424 IPv6Address::IPv6Address] *)
Definition IPv6Address_any : sockaddr_in6 := mkIn6 AF_INET6 0 0 (repeat 0 16) 0.

(** [src/src/address.cc:428-434 IPv6Address::IPv6Address] *)
Definition IPv6Address_new (address : bytes) (port : Z) : sockaddr_in6 :=
  mkIn6 AF_INET6 (hton16 port) 0 address 0.

(** [src/src/address.cc:404-418 IPv6Address::Create] *)
Definition IPv6Address_Create (inet_pton : bytes -> option bytes) (address : bytes) (port : Z)
    : option sockaddr_in6 :=
  match inet_pton (c_str address) with
  | Some s => Some (mkIn6 AF_INET6 (hton16 port) 0 s 0)
  | None => None
  end.

Definition with_addr6 (a : sockaddr_in6) (s : bytes) : sockaddr_in6 :=
  mkIn6 (sin6_family a) (sin6_port a) (sin6_flowinfo a) s (sin6_scope a).

(** [s6_addr[i] = f(s6_addr[i])] *)
Definition update_byte (i : Z) (f : Z -> Z) (s : bytes) : result bytes :=
  match s !! Z.to_nat i with
  | Some b => Ok (<[Z.to_nat i := u8 (f b)]> s)
  | None => Err (Undef out_of_bounds)
  end.

(** Set the bytes from [i] on to [v]. *)
Definition fill_from (i : Z) (v : Z) (s : bytes) : bytes :=
  take (Z.to_nat i) s ++ repeat v (length s - Z.to_nat i).

(** Set the first [n] bytes to [v]. *)
Definition fill_to (n : Z) (v : Z) (s : bytes) : bytes :=
  repeat v (Nat.min (Z.to_nat n) (length s)) ++ drop (Z.to_nat n) s.

(** [src/src/address.cc:483-500 IPv6Address::broadcastAddress] *)
Definition IPv6_broadcastAddress (a : sockaddr_in6) (prefix_len : Z) : result sockaddr_in6 :=
  match CreateMask 8 (prefix_len mod 8) with
  | Err e => Err e
  | Ok m =>
      match update_byte (prefix_len / 8) (fun b => Z.lor b m) (sin6_addr a) with
      | Err e => Err e
      | Ok s => Ok (with_addr6 a (fill_from (prefix_len / 8 + 1) 255 s))
      end
  end.

(** [src/src/address.cc:502-517 IPv6Address::networkAddress] *)
Definition IPv6_networkAddress (a : sockaddr_in6) (prefix_len : Z) : result sockaddr_in6 :=
  match CreateMask 8 (prefix_len mod 8) with
  | Err e => Err e
  | Ok m =>
      match update_byte (prefix_len / 8) (fun b => Z.land b (Z.lnot m)) (sin6_addr a) with
      | Err e => Err e
      | Ok s => Ok (with_addr6 a (fill_from (prefix_len / 8 + 1) 0 s))
      end
  end.

(** [src/src/address.cc:519-531 IPv6Address::subnetMask] *)
Definition IPv6_subnetMask (prefix_len : Z) : result sockaddr_in6 :=
  match CreateMask 8 (prefix_len mod 8) with
  | Err e => Err e
  | Ok m =>
      match update_byte (prefix_len / 8) (fun _ => Z.lnot m) (repeat 0 16) with
      | Err e => Err e
      | Ok s => Ok (mkIn6 AF_INET6 0 0 (fill_to (prefix_len / 8) 255 s) 0)
      end
  end.

(** [src/src/address.cc:533-536 IPv6Address::getPort] *)
Definition IPv6_getPort (a : sockaddr_in6) : Z := hton16 (sin6_port a).

(** [src/src/address.cc:538-541 IPv6Address::setPort] *)
Definition IPv6_setPort (port : Z) (a : sockaddr_in6) : sockaddr_in6 :=
  mkIn6 (sin6_family a) (hton16 port) (sin6_flowinfo a) (sin6_addr a) (sin6_scope a).
End Host.

(** ** Unix addresses *)

Definition SUN_PATH : Z := 108.
Definition SUN_OFFSET : Z := 2.

(** [src/include/sylar/address.hh:333-337 UnixAddress] *)
Record UnixAddress := mkUn { sun_family : Z; sun_path : bytes; m_length : Z }.

(** [src/src/address.cc:545-550 UnixAddress::UnixAddress] *)
Definition UnixAddress_any : UnixAddress :=
  mkUn AF_UNIX (repeat 0 108) (SUN_OFFSET + (SUN_PATH - 1)).

(** [src/src/address.cc:552-570 UnixAddress::UnixAddress] *)
Definition UnixAddress_new (path : bytes) : result UnixAddress :=
  let len := match path with
             | 0 :: _ => Z.of_nat (length path)
             | _ => Z.of_nat (length path) + 1
             end in
  if len >? SUN_PATH then Err (Throw logic_error) else
  Ok (mkUn AF_UNIX (splice 0 (take (Z.to_nat len) (path ++ [0])) (repeat 0 108)) (len + SUN_OFFSET)).

(** [src/src/address.cc:580-591 UnixAddress::insert] *)
Definition UnixAddress_insert (a : UnixAddress) : bytes :=
  if (m_length a >? SUN_OFFSET) && match sun_path a with 0 :: _ => true | _ => false end
  then [92; 48] ++ take (Z.to_nat (m_length a - SUN_OFFSET - 1)) (drop 1 (sun_path a))
  else c_str (sun_path a).

(** ** Looking names up *)

(** Index of the first [c] at or after [from], as [memchr] finds it. *)
Fixpoint memchr (c : Z) (s : bytes) : option nat :=
  match s with
  | [] => None
  | x :: s => if x =? c then Some 0%nat else option_map S (memchr c s)
  end.

(** [src/src/address.cc:56-94 Address::Lookup]
    The host name and the service handed to [getaddrinfo]; the service is a
    pointer into [host], so it extends to its end. *)
Definition split_host (host : bytes) : bytes * option bytes :=
  let '(host_ip, host_port) :=
    match host with
    | 91 :: rest =>
        match memchr 93 rest with
        | Some k =>
            (take k rest,
             match drop (S k) rest with 58 :: p => Some p | _ => None end)
        | None => ([], None)
        end
    | _ => ([], None)
    end in
  let '(host_ip, host_port) :=
    match host_ip with
    | [] =>
        match memchr 58 host with
        | Some k =>
            match memchr 58 (drop (S k) host) with
            | None => (take k host, Some (drop (S k) host))
            | Some _ => ([], Some (drop k host))
            end
        | None => ([], None)
        end
    | _ => (host_ip, host_port)
    end in
  (match host_ip with [] => host | _ => host_ip end, host_port).

Inductive Address :=
| AddrV4 (a : sockaddr_in)
| AddrV6 (a : sockaddr_in6)
| AddrUnix (a : UnixAddress)
| AddrUnknown (family : Z) (data : bytes).

(** A generic [sockaddr] as the system hands it out. *)
Inductive sockaddr := SA_in (a : sockaddr_in) | SA_in6 (a : sockaddr_in6) | SA_other (family : Z) (data : bytes).

(** [src/src/address.cc:31-51 Address::Create] *)
Definition Address_Create (addr : option sockaddr) : option Address :=
  match addr with
  | None => None
  | Some (SA_in a) => Some (AddrV4 a)
  | Some (SA_in6 a) => Some (AddrV6 a)
  | Some (SA_other f d) => Some (AddrUnknown f d)
  end.

Section Lookup.
(** The entries of the result list, or an error. *)
Variable getaddrinfo : bytes -> option bytes -> Z -> Z -> Z -> option (list (option sockaddr)).

(** [src/src/address.cc:53-123 Address::Lookup] *)
Definition Lookup (result : list (option Address)) (host : bytes) (family type protocol : Z)
    : bool * list (option Address) :=
  let '(host_ip, host_port) := split_host host in
  match getaddrinfo (c_str host_ip) (option_map c_str host_port) family type protocol with
  | None => (false, result)
  | Some entries => (true, result ++ map Address_Create entries)
  end.

(** [src/src/address.cc:145-153 Address::LookupAny] *)
Definition LookupAny (host : bytes) (family type protocol : Z) : result (option Address) :=
  match Lookup [] host family type protocol with
  | (true, a :: _) => Ok a
  | (true, []) => Err (Undef out_of_bounds)
  | (false, _) => Ok None
  end.

Definition is_ip (a : option Address) : bool :=
  match a with Some (AddrV4 _) | Some (AddrV6 _) => true | _ => false end.

(** [src/src/address.cc:155-170 Address::LookupAnyIPAddress] *)
Definition LookupAnyIPAddress (host : bytes) (family type protocol : Z) : option Address :=
  match Lookup [] host family type protocol with
  | (true, l) => match List.find is_ip l with Some a => a | None => None end
  | (false, _) => None
  end.
End Lookup.
