(* ===== verification/AddressSpec.v ===== *)
(** * What the addresses promise

    Subnet arithmetic of IPv4 ([ipv4_subnet]) and IPv6 ([ipv6_subnet]), ports and
    text of IPv4 addresses ([ipv4_text]), counting the bits of a netmask
    ([CountBytes_popcount]), splitting a host from its port
    ([lookup_splits_host]) and Unix paths ([unix_path_roundtrip]). *)
From Stdlib Require Import Ascii String.
From S2P Require Import Prelude CString Endian Address.

#[local] Open Scope string_scope.
#[local] Open Scope list_scope.
#[local] Open Scope Z_scope.

(** ** Bitwise operations commute with the byte order *)

Lemma le_combine_bit bs : Forall is_byte bs -> forall i, 0 <= i ->
  Z.testbit (le_combine bs) i = Z.testbit (nth (Z.to_nat (i / 8)) bs 0) (i mod 8).
Proof.
  induction 1 as [|b bs Hb _ IH]; intros i Hi.
  - cbn [le_combine]. destruct (Z.to_nat (i / 8)); cbn; by rewrite !Z.bits_0.
  - cbn [le_combine]. unfold is_byte in Hb. destruct (Z.lt_ge_cases i 8) as [Hlt|Hge].
    + rewrite Z.div_small, Z.mod_small by lia. cbn [Z.to_nat nth].
      rewrite <-(Z.mod_pow2_bits_low (b + 256 * le_combine bs) 8) by lia.
      replace (b + 256 * le_combine bs) with (b + le_combine bs * 2 ^ 8) by lia.
      rewrite Z.mod_add, Z.mod_small by lia. done.
    + replace i with ((i - 8) + 8) at 1 by lia. rewrite <-Z.div_pow2_bits by lia.
      replace (b + 256 * le_combine bs) with (b + le_combine bs * 2 ^ 8) by lia.
      rewrite Z.div_add, (Z.div_small b), Z.add_0_l, IH by lia.
      replace i with ((i - 8) + 1 * 8) at 3 4 by lia. rewrite Z.div_add, Z.mod_add by lia.
      assert (0 <= (i - 8) / 8) by (apply Z.div_pos; lia).
      by replace (Z.to_nat ((i - 8) / 8 + 1)) with (S (Z.to_nat ((i - 8) / 8))) by lia.
Qed.

Lemma le_split_nth n : forall j z, (j < n)%nat -> nth j (le_split n z) 0 = (z / 2 ^ (8 * Z.of_nat j)) mod 256.
Proof.
  induction n as [|n IH]; intros [|j] z Hj; try lia; cbn [le_split nth].
  - by rewrite Z.div_1_r.
  - rewrite IH by lia. rewrite Z.div_div by (apply Z.pow_pos_nonneg || idtac; lia). do 2 f_equal.
    rewrite Nat2Z.inj_succ. replace (8 * Z.succ (Z.of_nat j)) with (8 + 8 * Z.of_nat j) by lia.
    by rewrite Z.pow_add_r by lia.
Qed.

(** Bit [i] of the swapped value is a bit of the value. *)
Lemma bswap_bit n z i : 0 <= i < 8 * Z.of_nat n ->
  Z.testbit (bswap n z) i = Z.testbit z (i mod 8 + 8 * (Z.of_nat n - 1 - i / 8)).
Proof.
  intros Hi. unfold bswap.
  assert (0 <= i / 8 < Z.of_nat n) as Hq
    by (split; [apply Z.div_pos; lia|apply Z.div_lt_upper_bound; lia]).
  pose proof (Z.mod_pos_bound i 8 ltac:(lia)).
  rewrite le_combine_bit by (apply Forall_rev, le_split_bytes || lia).
  rewrite rev_nth by (rewrite length_le_split; lia). rewrite length_le_split.
  rewrite le_split_nth by lia. change 256 with (2 ^ 8). rewrite Z.mod_pow2_bits_low by lia.
  rewrite Z.div_pow2_bits by lia. f_equal. lia.
Qed.

Lemma bswap_bits_ext n z w : (forall i, 0 <= i < 8 * Z.of_nat n -> Z.testbit z i = Z.testbit w i) ->
  0 <= z < 2 ^ (8 * Z.of_nat n) -> 0 <= w < 2 ^ (8 * Z.of_nat n) -> z = w.
Proof.
  intros H Hz Hw. apply Z.bits_inj'. intros i Hi.
  destruct (Z.lt_ge_cases i (8 * Z.of_nat n)); [by apply H|].
  rewrite <-(Z.mod_small z (2 ^ (8 * Z.of_nat n))), <-(Z.mod_small w (2 ^ (8 * Z.of_nat n))) by done.
  by rewrite !Z.mod_pow2_bits_high by lia.
Qed.

Lemma lor_range a b n : 0 <= n -> 0 <= a < 2 ^ n -> 0 <= b < 2 ^ n -> 0 <= Z.lor a b < 2 ^ n.
Proof.
  intros Hn Ha Hb.
  assert (Z.lor a b mod 2 ^ n = Z.lor a b) as <-; [|apply Z.mod_pos_bound; lia].
  rewrite <-!Z.land_ones, Z.land_lor_distr_l, !Z.land_ones by lia. by rewrite !Z.mod_small by lia.
Qed.

Lemma land_range a b n : 0 <= n -> 0 <= a < 2 ^ n -> 0 <= b -> 0 <= Z.land a b < 2 ^ n.
Proof.
  intros Hn Ha Hb.
  assert (Z.land a b mod 2 ^ n = Z.land a b) as <-; [|apply Z.mod_pos_bound; lia].
  rewrite <-Z.land_ones, <-Z.land_assoc, (Z.land_comm b), Z.land_assoc, Z.land_ones by lia.
  by rewrite Z.mod_small by lia.
Qed.

Lemma byteswap32 v : 0 <= v < 2 ^ 32 -> byteswap uint32_t v = bswap 4 v.
Proof.
  intros Hv. unfold byteswap, int_cast, int_bits. cbn [int_size int_signed].
  rewrite (Z.mod_small v) by (cbn; lia). apply Z.mod_small. apply (bswap_range 4 v).
Qed.

Section Host.
Variable host : endian.
Abbreviation hton32 := (byteswapOnLittleEndian host uint32_t).
Abbreviation hton16 := (byteswapOnLittleEndian host uint16_t).

Lemma hton32_range v : 0 <= v < 2 ^ 32 -> 0 <= hton32 v < 2 ^ 32.
Proof. intros Hv. destruct host; [|done]. cbn. apply (byteswap_range uint32_t ltac:(cbn; lia) v). Qed.

Lemma hton32_hton32 v : 0 <= v < 2 ^ 32 -> hton32 (hton32 v) = v.
Proof. intros Hv. destruct host; [|done]. cbn. by apply (byteswap_involutive uint32_t ltac:(cbn; lia)). Qed.

Lemma hton16_hton16 v : 0 <= v < 2 ^ 16 -> hton16 (hton16 v) = v.
Proof. intros Hv. destruct host; [|done]. cbn. by apply (byteswap_involutive uint16_t ltac:(cbn; lia)). Qed.

Lemma hton32_lor a b : 0 <= a < 2 ^ 32 -> 0 <= b < 2 ^ 32 -> hton32 (Z.lor a b) = Z.lor (hton32 a) (hton32 b).
Proof.
  intros Ha Hb. destruct host; [|done]. cbn [byteswapOnLittleEndian].
  rewrite !byteswap32 by (done || by apply lor_range).
  apply (bswap_bits_ext 4); [|apply bswap_range|apply lor_range; apply bswap_range || lia].
  intros i Hi. by rewrite Z.lor_spec, !bswap_bit, Z.lor_spec by done.
Qed.

Lemma hton32_land a b : 0 <= a < 2 ^ 32 -> 0 <= b < 2 ^ 32 -> hton32 (Z.land a b) = Z.land (hton32 a) (hton32 b).
Proof.
  intros Ha Hb. destruct host; [|done]. cbn [byteswapOnLittleEndian].
  rewrite !byteswap32 by (done || apply land_range; lia).
  apply (bswap_bits_ext 4); [|apply bswap_range|apply land_range; apply bswap_range || lia].
  intros i Hi. by rewrite Z.land_spec, !bswap_bit, Z.land_spec by done.
Qed.

(** ** IPv4 subnets *)

Lemma CreateMask32 p : 2 <= p <= 32 -> CreateMask 32 p = Ok (2 ^ (32 - p) - 1).
Proof.
  intros Hp. unfold CreateMask.
  rewrite (proj2 (Z.ltb_ge (32 - p) 0)), (proj2 (Z.leb_gt 32 (32 - p))), (proj2 (Z.eqb_neq (32 - p) 31)) by lia.
  cbn [orb]. rewrite Z.shiftl_1_l. f_equal. apply Z.mod_small.
  assert (0 < 2 ^ (32 - p)) by (apply Z.pow_pos_nonneg; lia).
  assert (2 ^ (32 - p) <= 2 ^ 32) by (apply Z.pow_le_mono_r; lia). lia.
Qed.

Lemma lor_ones a k : 0 <= k -> Z.lor a (2 ^ k - 1) = a - a mod 2 ^ k + (2 ^ k - 1).
Proof.
  intros Hk. replace (2 ^ k - 1) with (Z.ones k) by (rewrite Z.ones_equiv; lia).
  pose proof (Z.add_lor_land a (Z.ones k)). rewrite Z.land_ones in * by lia. lia.
Qed.

Lemma u32_lnot k : 0 <= k <= 32 -> u32 (Z.lnot (2 ^ k - 1)) = 2 ^ 32 - 2 ^ k.
Proof.
  intros Hk. unfold Z.lnot. assert (0 < 2 ^ k) by (apply Z.pow_pos_nonneg; lia).
  assert (2 ^ k <= 2 ^ 32) by (apply Z.pow_le_mono_r; lia).
  unfold u32. replace (Z.pred (- (2 ^ k - 1))) with ((2 ^ 32 - 2 ^ k) + (-1) * 2 ^ 32) by lia.
  rewrite Z.mod_add by lia. apply Z.mod_small. lia.
Qed.

Lemma land_mask a k : 0 <= k <= 32 -> 0 <= a < 2 ^ 32 -> Z.land a (2 ^ 32 - 2 ^ k) = a - a mod 2 ^ k.
Proof.
  intros Hk Ha. rewrite <-u32_lnot by done. unfold u32. rewrite <-Z.land_ones by lia.
  rewrite Z.land_assoc.
  replace (2 ^ k - 1) with (Z.ones k) by (rewrite Z.ones_equiv; lia).
  rewrite <-Z.ldiff_land, Z.ldiff_ones_r by lia.
  rewrite Z.shiftl_mul_pow2, Z.shiftr_div_pow2, Z.land_ones by lia.
  pose proof (Z.mod_pos_bound a (2 ^ k) ltac:(lia)).
  assert (0 <= a / 2 ^ k) by (apply Z.div_pos; lia).
  replace (a / 2 ^ k * 2 ^ k) with (a - a mod 2 ^ k)
    by (pose proof (Z.div_mod a (2 ^ k) ltac:(lia)); lia).
  pose proof (Z.mod_le a (2 ^ k) ltac:(lia) ltac:(lia)). rewrite Z.mod_small; lia.
Qed.

(** The address as the number it stands for. *)
Definition ipv4 (a : sockaddr_in) : Z := hton32 (sin_addr a).

(** For every prefix length from 2 to 32 the network address is the address
    with its host part cleared, the broadcast address the last of the network,
    the subnet mask the prefix's ones; the address lies in between, the network
    is the address under the mask, the port is kept, and a longer prefix is
    refused. *)
Theorem ipv4_subnet a p q :
  0 <= sin_addr a < 2 ^ 32 -> 2 <= p <= 32 -> 32 < q ->
  exists n b m, IPv4_networkAddress host a p = Ok (Some n) /\ IPv4_broadcastAddress host a p = Ok (Some b)
  /\ IPv4_subnetMask host p = Ok m
  /\ ipv4 n = ipv4 a - ipv4 a mod 2 ^ (32 - p) /\ ipv4 b = ipv4 n + (2 ^ (32 - p) - 1)
  /\ ipv4 m = 2 ^ 32 - 2 ^ (32 - p) /\ ipv4 n = Z.land (ipv4 a) (ipv4 m)
  /\ ipv4 n <= ipv4 a <= ipv4 b
  /\ IPv4_getPort host n = IPv4_getPort host a /\ IPv4_getPort host b = IPv4_getPort host a
  /\ IPv4_networkAddress host a q = Ok None /\ IPv4_broadcastAddress host a q = Ok None.
Proof.
  intros Ha Hp Hq. unfold IPv4_networkAddress, IPv4_broadcastAddress, IPv4_subnetMask.
  rewrite CreateMask32 by done. rewrite !Z.gtb_ltb.
  rewrite (proj2 (Z.ltb_ge 32 p)), (proj2 (Z.ltb_lt 32 q)) by lia.
  set (k := 32 - p) in *. assert (0 < 2 ^ k) by (apply Z.pow_pos_nonneg; lia).
  assert (2 ^ k <= 2 ^ 32) by (apply Z.pow_le_mono_r; lia).
  pose proof (hton32_range _ Ha) as Hip. fold (ipv4 a) in Hip.
  pose proof (Z.mod_pos_bound (ipv4 a) (2 ^ k) ltac:(lia)).
  assert (ipv4 (with_addr a (Z.land (sin_addr a) (hton32 (u32 (Z.lnot (2 ^ k - 1))))))
          = ipv4 a - ipv4 a mod 2 ^ k) as Hn.
  { unfold ipv4. cbn [with_addr sin_addr]. rewrite u32_lnot by lia.
    rewrite hton32_land, hton32_hton32 by (lia || apply hton32_range; lia).
    apply land_mask; [lia|done]. }
  do 3 eexists. split_and!; try reflexivity.
  - exact Hn.
  - rewrite Hn. unfold ipv4 at 1. cbn [with_addr sin_addr].
    rewrite hton32_lor, hton32_hton32 by (lia || apply hton32_range; lia). by apply lor_ones; lia.
  - unfold ipv4. cbn [sin_addr]. rewrite u32_lnot by lia. apply hton32_hton32. lia.
  - rewrite Hn. unfold ipv4 at 4. cbn [sin_addr]. rewrite u32_lnot, hton32_hton32 by lia.
    symmetry. apply land_mask; [lia|done].
  - rewrite Hn. lia.
  - unfold ipv4 at 2. cbn [with_addr sin_addr].
    rewrite hton32_lor, hton32_hton32 by (lia || apply hton32_range; lia).
    rewrite lor_ones by lia. fold (ipv4 a). lia.
Qed.

(** The text of an address, and its port. *)
Lemma ipv4_text address port : 0 <= address < 2 ^ 32 -> 0 <= port < 2 ^ 16 ->
  IPv4Address_insert host (IPv4Address_new host address port)
  = dec (Z.land (Z.shiftr address 24) 255) ++ str "." ++ dec (Z.land (Z.shiftr address 16) 255) ++ str "."
    ++ dec (Z.land (Z.shiftr address 8) 255) ++ str "." ++ dec (Z.land address 255) ++ str ":" ++ dec port
  /\ IPv4_getPort host (IPv4Address_new host address port) = port
  /\ IPv4_getPort host (IPv4_setPort host port (IPv4Address_new host address 0)) = port.
Proof.
  intros Ha Hp. unfold IPv4Address_insert, IPv4_getPort. cbn [IPv4Address_new IPv4_setPort sin_addr sin_port].
  by rewrite hton32_hton32, hton16_hton16 by done.
Qed.
End Host.

Lemma ipv4_subnet_witness :
  let host := SYLAR_LITTLE_ENDIAN in
  let a := IPv4Address_new host 3232235777 80 in
  exists n b m, IPv4_networkAddress host a 24 = Ok (Some n) /\ IPv4_broadcastAddress host a 24 = Ok (Some b)
  /\ IPv4_subnetMask host 24 = Ok m
  /\ ipv4 host n = ipv4 host a - ipv4 host a mod 2 ^ (32 - 24) /\ ipv4 host b = ipv4 host n + (2 ^ (32 - 24) - 1)
  /\ ipv4 host m = 2 ^ 32 - 2 ^ (32 - 24) /\ ipv4 host n = Z.land (ipv4 host a) (ipv4 host m)
  /\ ipv4 host n <= ipv4 host a <= ipv4 host b
  /\ IPv4_getPort host n = IPv4_getPort host a /\ IPv4_getPort host b = IPv4_getPort host a
  /\ IPv4_networkAddress host a 33 = Ok None /\ IPv4_broadcastAddress host a 33 = Ok None.
Proof.
  intros host a. apply (ipv4_subnet host a 24 33); [vm_compute; split; [discriminate|reflexivity]|lia|lia].
Defined.

(** Prefix lengths 0 and 1 make [CreateMask] undefined. *)
Lemma short_prefix_undefined host a :
  IPv4_networkAddress host a 0 = Err (Undef bad_shift)
  /\ IPv4_networkAddress host a 1 = Err (Undef signed_overflow).
Proof. done. Qed.

(** ** IPv6 subnets *)

(** Bit [k] of an address, counted from the most significant one. *)
Definition bit6 (s : bytes) (k : Z) : bool := Z.testbit (nth (Z.to_nat (k / 8)) s 0) (7 - k mod 8).

Lemma CreateMask8 r : 0 <= r < 8 -> CreateMask 8 r = Ok (Z.ones (8 - r)).
Proof.
  intros Hr. unfold CreateMask.
  rewrite (proj2 (Z.ltb_ge (8 - r) 0)), (proj2 (Z.leb_gt 32 (8 - r))), (proj2 (Z.eqb_neq (8 - r) 31)) by lia.
  cbn [orb]. rewrite Z.shiftl_1_l, Z.ones_equiv. f_equal. apply Z.mod_small.
  assert (0 < 2 ^ (8 - r)) by (apply Z.pow_pos_nonneg; lia).
  assert (2 ^ (8 - r) <= 2 ^ 8) by (apply Z.pow_le_mono_r; lia). lia.
Qed.

Lemma update_byte_ok i f s : 0 <= i < Z.of_nat (length s) ->
  update_byte i f s = Ok (<[Z.to_nat i := u8 (f (nth (Z.to_nat i) s 0))]> s).
Proof.
  intros Hi. unfold update_byte.
  destruct (lookup_lt_is_Some_2 s (Z.to_nat i)) as [b Hb]; [lia|].
  rewrite Hb. do 3 f_equal. f_equal. symmetry. by apply nth_lookup_Some.
Qed.

Lemma nth_insert_eq (s : bytes) i b : (i < length s)%nat -> nth i (<[i := b]> s) 0 = b.
Proof. intros Hi. apply nth_lookup_Some. by apply list_lookup_insert_eq. Qed.

Lemma nth_insert_ne (s : bytes) i j b : i <> j -> nth j (<[i := b]> s) 0 = nth j s 0.
Proof. intros Hne. rewrite !nth_lookup. by rewrite list_lookup_insert_ne. Qed.

Lemma nth_fill_from i v s j : (j < length s)%nat -> 0 <= i ->
  nth j (fill_from i v s) 0 = if decide (Z.of_nat j < i) then nth j s 0 else v.
Proof.
  intros Hj Hi. unfold fill_from. destruct (decide (Z.of_nat j < i)).
  - rewrite app_nth1 by (rewrite length_take; lia). rewrite !nth_lookup. by rewrite lookup_take_lt by lia.
  - rewrite app_nth2 by (rewrite length_take; lia). apply nth_repeat_lt. rewrite length_take. lia.
Qed.

(** One bit of a masked byte. *)
Lemma ones_bit r j : 0 <= r < 8 -> 0 <= j < 8 -> Z.testbit (Z.ones (8 - r)) (7 - j) = (r <=? j).
Proof.
  intros Hr Hj. destruct (Z.leb_spec r j).
  - apply Z.ones_spec_low. lia.
  - apply Z.ones_spec_high. lia.
Qed.

Lemma u8_bit z j : 0 <= j < 8 -> Z.testbit (u8 z) j = Z.testbit z j.
Proof. intros Hj. unfold u8. by rewrite Z.mod_pow2_bits_low by lia. Qed.

Lemma bit_position p k : 0 <= p -> 0 <= k ->
  (Z.of_nat (Z.to_nat (k / 8)) < p / 8 -> k < p) /\ (p / 8 < Z.of_nat (Z.to_nat (k / 8)) -> p <= k)
  /\ (k / 8 = p / 8 -> (p mod 8 <=? k mod 8) = negb (k <? p)).
Proof.
  intros Hp Hk. assert (0 <= k / 8) by (apply Z.div_pos; lia). rewrite Z2Nat.id by done.
  pose proof (Z.div_mod p 8 ltac:(lia)). pose proof (Z.mod_pos_bound p 8 ltac:(lia)).
  pose proof (Z.div_mod k 8 ltac:(lia)). pose proof (Z.mod_pos_bound k 8 ltac:(lia)).
  split_and!; [lia..|]. intros E. destruct (Z.leb_spec (p mod 8) (k mod 8)), (Z.ltb_spec k p); done || lia.
Qed.

(** The network and the broadcast address from one byte operation. *)
Lemma masked_bit s p v f g k :
  length s = 16%nat -> 0 <= p < 128 -> 0 <= k < 128 ->
  (forall b j, 0 <= j < 8 -> Z.testbit (f b) (7 - j) = if p mod 8 <=? j then g else Z.testbit b (7 - j)) ->
  (forall j, 0 <= j < 8 -> Z.testbit v j = g) ->
  bit6 (fill_from (p / 8 + 1) v (<[Z.to_nat (p / 8) := u8 (f (nth (Z.to_nat (p / 8)) s 0))]> s)) k
  = if k <? p then bit6 s k else g.
Proof.
  intros Hl Hp Hk Hf Hv. unfold bit6.
  assert (0 <= p / 8 < 16) by (split; [apply Z.div_pos; lia|apply Z.div_lt_upper_bound; lia]).
  assert (0 <= k / 8 < 16) by (split; [apply Z.div_pos; lia|apply Z.div_lt_upper_bound; lia]).
  pose proof (Z.mod_pos_bound k 8 ltac:(lia)).
  destruct (bit_position p k) as (Hlt & Hgt & Heq); [lia..|].
  rewrite nth_fill_from by (rewrite ?length_insert; lia).
  destruct (Z.lt_trichotomy (k / 8) (p / 8)) as [Hc|[Hc|Hc]].
  - rewrite decide_True by lia. rewrite nth_insert_ne by lia.
    by rewrite (proj2 (Z.ltb_lt k p)) by (apply Hlt; lia).
  - rewrite decide_True by lia. rewrite Hc, nth_insert_eq by lia. rewrite u8_bit by lia.
    rewrite Hf by lia. rewrite Heq by done. by destruct (k <? p).
  - rewrite decide_False by lia. rewrite Hv by lia.
    by rewrite (proj2 (Z.ltb_ge k p)) by (apply Hgt; lia).
Qed.

(** For every prefix length below 128 the network address keeps the bits of
    the prefix and clears the others, the broadcast address sets the others, and
    the subnet mask has exactly the bits of the prefix. *)
Theorem ipv6_subnet a p :
  length (sin6_addr a) = 16%nat -> 0 <= p < 128 ->
  exists n b m, IPv6_networkAddress a p = Ok n /\ IPv6_broadcastAddress a p = Ok b /\ IPv6_subnetMask p = Ok m
  /\ forall k, 0 <= k < 128 ->
     bit6 (sin6_addr n) k = (if k <? p then bit6 (sin6_addr a) k else false)
     /\ bit6 (sin6_addr b) k = (if k <? p then bit6 (sin6_addr a) k else true)
     /\ bit6 (sin6_addr m) k = (k <? p).
Proof.
  intros Hl Hp. pose proof (Z.mod_pos_bound p 8 ltac:(lia)) as Hr.
  assert (0 <= p / 8 < 16) as Hq by (split; [apply Z.div_pos; lia|apply Z.div_lt_upper_bound; lia]).
  unfold IPv6_networkAddress, IPv6_broadcastAddress, IPv6_subnetMask. rewrite CreateMask8 by done.
  rewrite !update_byte_ok by (rewrite ?Hl, ?repeat_length; lia).
  do 3 eexists. split_and!; [done..|]. intros k Hk. cbn [with_addr6 sin6_addr]. split_and!.
  - apply (masked_bit _ p 0 (fun b => Z.land b (Z.lnot (Z.ones (8 - p mod 8))))); try done; intros; [|apply Z.bits_0].
    rewrite Z.land_spec, Z.lnot_spec, ones_bit by lia. destruct (_ <=? _); by rewrite ?andb_false_r, ?andb_true_r.
  - apply (masked_bit _ p 255 (fun b => Z.lor b (Z.ones (8 - p mod 8)))); try done; intros; [|change 255 with (Z.ones 8); by apply Z.ones_spec_low].
    rewrite Z.lor_spec, ones_bit by lia. destruct (_ <=? _); by rewrite ?orb_false_r, ?orb_true_r.
  - unfold bit6. pose proof (Z.mod_pos_bound k 8 ltac:(lia)).
    assert (0 <= k / 8 < 16) by (split; [apply Z.div_pos; lia|apply Z.div_lt_upper_bound; lia]).
    destruct (bit_position p k) as (Hlt & Hgt & Heq); [lia..|].
    unfold fill_to. rewrite length_insert, repeat_length, Nat.min_l by lia.
    destruct (Z.lt_trichotomy (k / 8) (p / 8)) as [Hc|[Hc|Hc]].
    + rewrite app_nth1 by (rewrite repeat_length; lia). rewrite nth_repeat_lt by lia.
      rewrite (proj2 (Z.ltb_lt k p)) by (apply Hlt; lia). change 255 with (Z.ones 8).
      apply Z.ones_spec_low. lia.
    + rewrite app_nth2 by (rewrite repeat_length; lia). rewrite repeat_length, Hc.
      rewrite Nat.sub_diag, nth_lookup, lookup_drop, Nat.add_0_r, <-nth_lookup.
      rewrite nth_insert_eq by (rewrite repeat_length; lia). rewrite u8_bit by lia.
      rewrite Z.lnot_spec, ones_bit, Heq by (done || lia). by destruct (k <? p).
    + rewrite app_nth2 by (rewrite repeat_length; lia). rewrite repeat_length.
      rewrite nth_lookup, lookup_drop, <-nth_lookup.
      replace (Z.to_nat (p / 8) + (Z.to_nat (k / 8) - Z.to_nat (p / 8)))%nat with (Z.to_nat (k / 8)) by lia.
      rewrite nth_insert_ne by lia. rewrite nth_repeat_lt by lia.
      rewrite (proj2 (Z.ltb_ge k p)) by (apply Hgt; lia). apply Z.bits_0.
Qed.

Lemma ipv6_subnet_witness :
  exists n b m, IPv6_networkAddress (IPv6Address_any) 20 = Ok n
  /\ IPv6_broadcastAddress (IPv6Address_any) 20 = Ok b /\ IPv6_subnetMask 20 = Ok m
  /\ forall k, 0 <= k < 128 ->
     bit6 (sin6_addr n) k = (if k <? 20 then bit6 (sin6_addr IPv6Address_any) k else false)
     /\ bit6 (sin6_addr b) k = (if k <? 20 then bit6 (sin6_addr IPv6Address_any) k else true)
     /\ bit6 (sin6_addr m) k = (k <? 20).
Proof. apply (ipv6_subnet IPv6Address_any 20); [reflexivity|lia]. Defined.

(** The prefix of a single host is out of range: byte 16 of 16. *)
Lemma ipv6_host_prefix_overruns a : length (sin6_addr a) = 16%nat ->
  IPv6_networkAddress a 128 = Err (Undef out_of_bounds).
Proof. intros Hl. unfold IPv6_networkAddress, update_byte. by rewrite lookup_ge_None_2 by (rewrite Hl; vm_compute; lia). Qed.

(** ** Netmasks *)

(** The number of ones among the [n] low bits. *)
Fixpoint popcount (n : nat) (v : Z) : Z :=
  match n with O => 0 | S n => v mod 2 + popcount n (v / 2) end.

Lemma popcount_range n : forall v, 0 <= popcount n v <= Z.of_nat n.
Proof.
  induction n as [|n IH]; intros v; cbn [popcount]; [lia|].
  pose proof (Z.mod_pos_bound v 2 ltac:(lia)). specialize (IH (v / 2)). lia.
Qed.

Lemma popcount_0 n : popcount n 0 = 0.
Proof. induction n as [|n IH]; [done|]. cbn [popcount]. by rewrite Z.div_0_l, IH. Qed.

Lemma land_half a b : Z.land a b / 2 = Z.land (a / 2) (b / 2).
Proof. rewrite <-!Z.div2_div, !Z.div2_spec. apply Z.shiftr_land. Qed.

(** Clearing the lowest one removes one. *)
Lemma popcount_clear n : forall v, 0 < v < 2 ^ Z.of_nat n ->
  popcount n (Z.land v (v - 1)) = popcount n v - 1 /\ 0 <= Z.land v (v - 1) < v.
Proof.
  induction n as [|n IH]; intros v Hv; [cbn in Hv; lia|].
  rewrite Nat2Z.inj_succ, Z.pow_succ_r in Hv by lia. cbn [popcount].
  pose proof (Z.div_mod v 2 ltac:(lia)) as Hd. rewrite land_half.
  pose proof (Z.div_mod (Z.land v (v - 1)) 2 ltac:(lia)) as Hd2. rewrite land_half in Hd2.
  destruct (Z.Even_or_Odd v) as [[q Hq]|[q Hq]]; subst v.
  - replace (2 * q - 1) with (1 + (q - 1) * 2) in * by lia.
    replace (2 * q) with (0 + q * 2) in * by lia.
    rewrite !Z.div_add, !Z.mod_add in * by lia. cbn [Z.div Z.modulo] in *.
    assert (Z.land (0 + q * 2) (1 + (q - 1) * 2) mod 2 = 0) as H0.
    { rewrite <-Z.bit0_mod, Z.land_spec. replace (0 + q * 2) with (2 * q) by lia.
      by rewrite Z.testbit_even_0. }
    rewrite H0 in *. change (0 / 2) with 0 in *. change (1 / 2) with 0 in *.
    change (0 mod 2) with 0 in *. rewrite !Z.add_0_l in *.
    destruct (IH q ltac:(lia)) as [IH1 IH2]. rewrite IH1. lia.
  - replace (2 * q + 1 - 1) with (0 + q * 2) in * by lia.
    replace (2 * q + 1) with (1 + q * 2) in * by lia.
    rewrite !Z.div_add, !Z.mod_add in * by lia.
    assert (Z.land (1 + q * 2) (0 + q * 2) mod 2 = 0) as H0.
    { rewrite <-Z.bit0_mod, Z.land_spec. replace (0 + q * 2) with (2 * q) by lia.
      by rewrite Z.testbit_even_0, andb_false_r. }
    rewrite H0 in *. change (0 / 2) with 0 in *. change (1 / 2) with 0 in *.
    change (1 mod 2) with 1 in *. rewrite !Z.add_0_l, Z.land_diag in *. lia.
Qed.

Lemma count_loop_spec bits fuel : forall v acc,
  0 <= v < 2 ^ Z.of_nat bits -> popcount bits v <= Z.of_nat fuel -> 0 <= acc -> acc + popcount bits v < 2 ^ 32 ->
  count_loop fuel v acc = Some (acc + popcount bits v).
Proof.
  induction fuel as [|fuel IH]; intros v acc Hv Hp Ha Hs; cbn [count_loop];
    (destruct (Z.eqb_spec v 0) as [->|Hne]; [by rewrite popcount_0, Z.add_0_r|]);
    destruct (popcount_clear bits v ltac:(lia)) as [Hc Hr];
    pose proof (popcount_range bits (Z.land v (v - 1))); [lia|].
  rewrite u32_small by lia. rewrite IH by lia. f_equal. lia.
Qed.

(** CountBytes counts the ones of its argument, in as many rounds: the prefix
    length of a netmask. *)
Theorem CountBytes_popcount bits v :
  0 <= v < 2 ^ Z.of_nat bits -> (bits <= 32)%nat -> CountBytes bits v = Some (popcount bits v).
Proof.
  intros Hv Hb. pose proof (popcount_range bits v). unfold CountBytes.
  by rewrite (count_loop_spec bits) by lia.
Qed.

Lemma CountBytes_popcount_witness : CountBytes 32 (2 ^ 32 - 2 ^ 8) = Some 24.
Proof. apply (CountBytes_popcount 32 (2 ^ 32 - 2 ^ 8)); [cbn; lia|lia]. Defined.

(** ** Hosts and ports *)

Lemma memchr_app c a b : c ∉ a -> memchr c (a ++ c :: b) = Some (length a).
Proof.
  induction a as [|x a IH]; intros Hc; cbn; [by rewrite Z.eqb_refl|].
  apply not_elem_of_cons in Hc as [Hx Hc]. by rewrite (proj2 (Z.eqb_neq x c)), IH by congruence.
Qed.

Lemma memchr_none c a : c ∉ a -> memchr c a = None.
Proof.
  induction a as [|x a IH]; intros Hc; cbn; [done|].
  apply not_elem_of_cons in Hc as [Hx Hc]. by rewrite (proj2 (Z.eqb_neq x c)), IH by congruence.
Qed.

(** The part of [split_host] for hosts that are not in brackets. *)
Lemma split_plain h : head h <> Some 91 -> split_host h
  = match memchr 58 h with
    | Some k => match memchr 58 (drop (S k) h) with
                | None => (match take k h with [] => h | ip => ip end, Some (drop (S k) h))
                | Some _ => (h, Some (drop k h))
                end
    | None => (h, None)
    end.
Proof.
  intros Hh. unfold split_host. destruct h as [|x h]; [done|]. cbn [head] in Hh.
  assert ((match x :: h with
     | 91 :: rest => match memchr 93 rest with
        | Some k => (take k rest, match drop (S k) rest with 58 :: p => Some p | _ => None end)
        | None => ([], None) end
     | _ => ([], None) end) = (@nil Z, @None bytes)) as ->.
  { destruct x as [|x|x]; try done. do 7 (destruct x; try done). }
  destruct (memchr 58 (x :: h)) as [k|]; [|done].
  destruct (memchr 58 (drop (S k) (x :: h))); [done|]. by destruct (take k (x :: h)).
Qed.

(** Lookup splits name:port and [address]:port into the host and the service,
    and takes a name or a bracketed address without a port as it is. *)
Theorem lookup_splits_host h v6 port :
  h <> [] -> head h <> Some 91 -> 58 ∉ h -> 58 ∉ port -> v6 <> [] -> 93 ∉ v6 ->
  split_host (h ++ 58 :: port) = (h, Some port) /\ split_host h = (h, None)
  /\ split_host (91 :: v6 ++ 93 :: 58 :: port) = (v6, Some port)
  /\ split_host (91 :: v6 ++ [93]) = (v6, None).
Proof.
  intros Hne Hh Hc Hp Hv H93. split_and!.
  - rewrite split_plain by (by destruct h). rewrite memchr_app by done.
    rewrite drop_app_ge by lia. replace (S (length h) - length h)%nat with 1%nat by lia.
    cbn [drop]. rewrite memchr_none, take_app_length by done. by destruct h.
  - rewrite split_plain by done. by rewrite memchr_none.
  - unfold split_host. rewrite memchr_app by done. rewrite take_app_length, drop_app_ge by lia.
    replace (S (length v6) - length v6)%nat with 1%nat by lia. cbn [drop]. by destruct v6.
  - unfold split_host. rewrite memchr_app by done. rewrite take_app_length, drop_app_ge by lia.
    replace (S (length v6) - length v6)%nat with 1%nat by lia. cbn [drop]. by destruct v6.
Qed.

Lemma lookup_splits_host_witness :
  split_host (str "h" ++ 58 :: str "80") = (str "h", Some (str "80")) /\ split_host (str "h") = (str "h", None)
  /\ split_host (91 :: str "::1" ++ 93 :: 58 :: str "80") = (str "::1", Some (str "80"))
  /\ split_host (91 :: str "::1" ++ [93]) = (str "::1", None).
Proof.
  apply (lookup_splits_host (str "h") (str "::1") (str "80"));
    try discriminate; intros Hin; apply list_elem_of_In in Hin; vm_compute in Hin; intuition discriminate.
Defined.

(** An address with two colons and no brackets keeps a pointer to its first
    colon as the service. *)
Lemma bare_ipv6_has_service : split_host (str "fe80::1") = (str "fe80::1", Some (str "::1")).
Proof. by vm_compute. Qed.

(** ** Unix paths *)

Lemma c_str_app_nul a b : 0 ∉ a -> c_str (a ++ 0 :: b) = a.
Proof.
  induction a as [|x a IH]; intros Ha; [done|]. cbn.
  apply not_elem_of_cons in Ha as [Hx Ha]. by rewrite (proj2 (Z.eqb_neq x 0)), IH by congruence.
Qed.

(** A Unix address made from a path prints that path, one made from an
    abstract name prints it after a backslash and a zero, and a path that does
    not fit in sun_path with its terminator throws. *)
Theorem unix_path_roundtrip path :
  0 ∉ path ->
  (path <> [] -> (length path <= 107)%nat ->
     exists a, UnixAddress_new path = Ok a /\ UnixAddress_insert a = path)
  /\ ((length path <= 107)%nat ->
     exists a, UnixAddress_new (0 :: path) = Ok a /\ UnixAddress_insert a = [92; 48] ++ path)
  /\ ((107 < length path)%nat -> UnixAddress_new path = Err (Throw logic_error)).
Proof.
  intros H0. unfold UnixAddress_new, SUN_PATH, SUN_OFFSET.
  assert (forall x p, x <> 0 -> match x :: p with 0 :: _ => Z.of_nat (length (x :: p))
    | _ => Z.of_nat (length (x :: p)) + 1 end = Z.of_nat (length (x :: p)) + 1) as Hm
    by (by intros [| |]).
  split_and!.
  - intros Hne Hl. destruct path as [|x path]; [done|].
    apply not_elem_of_cons in H0 as Hx. rewrite Hm by naive_solver.
    rewrite Z.gtb_ltb, (proj2 (Z.ltb_ge _ _)) by lia. eexists. split; [done|].
    unfold UnixAddress_insert. cbn [sun_path m_length].
    rewrite take_ge by (rewrite length_app; cbn [length]; lia).
    unfold splice. cbn [take app]. rewrite <-app_assoc.
    rewrite take_0. cbn [app].
    assert (match x with 0 => true | _ => false end = false) as Hz
      by (destruct Hx as [Hx _]; by destruct x).
    rewrite Hz, andb_false_r. apply (c_str_app_nul (x :: path)). done.
  - intros Hl. rewrite Z.gtb_ltb, (proj2 (Z.ltb_ge _ _)) by (cbn [length]; lia).
    eexists. split; [done|]. unfold UnixAddress_insert, SUN_OFFSET. cbn [sun_path m_length].
    rewrite Nat2Z.id. rewrite take_app_length. unfold splice. rewrite take_0. cbn [app].
    rewrite Z.gtb_ltb, (proj2 (Z.ltb_lt _ _)) by (cbn [length]; lia). cbn [andb].
    match goal with |- context [drop 1 (0 :: ?l)] => change (drop 1 (0 :: l)) with l end.
    replace (Z.to_nat (Z.of_nat (length (0 :: path)) + 2 - 2 - 1)) with (length path) by (cbn [length]; lia).
    by rewrite take_app_length.
  - intros Hl. destruct path as [|x path]; [cbn in Hl; lia|].
    apply not_elem_of_cons in H0 as Hx. rewrite Hm by naive_solver.
    by rewrite Z.gtb_ltb, (proj2 (Z.ltb_lt _ _)) by lia.
Qed.

Lemma unix_path_roundtrip_witness :
  (str "/tmp/s" <> [] -> (length (str "/tmp/s") <= 107)%nat ->
     exists a, UnixAddress_new (str "/tmp/s") = Ok a /\ UnixAddress_insert a = str "/tmp/s")
  /\ ((length (str "/tmp/s") <= 107)%nat ->
     exists a, UnixAddress_new (0 :: str "/tmp/s") = Ok a /\ UnixAddress_insert a = [92; 48] ++ str "/tmp/s")
  /\ ((107 < length (str "/tmp/s"))%nat -> UnixAddress_new (str "/tmp/s") = Err (Throw logic_error)).
Proof.
  apply (unix_path_roundtrip (str "/tmp/s")).
  intros Hin; apply list_elem_of_In in Hin; vm_compute in Hin; intuition discriminate.
Defined.
