(* ===== verification/AddressText.v ===== *)
(** * Printing, comparing and enumerating addresses ([src/src/address.cc])

    The memory of a socket address as the comparison operators see it, the text of
    IPv6 addresses, the families' names, and the enumeration of the interfaces of
    the machine.  What [getifaddrs] returns is an argument. *)
From Stdlib Require Import Ascii String Sorted.
From S2P Require Import Prelude CString Endian Address AddressSpec.

#[local] Open Scope string_scope.
#[local] Open Scope list_scope.
#[local] Open Scope Z_scope.

(** ** Text *)

(** Hexadecimal digits as [std::hex] writes them; 8 are enough for an [int]. *)
Definition hex_char (d : Z) : Z := if d <? 10 then 48 + d else 87 + d.

Fixpoint hex_go (fuel : nat) (n : Z) (acc : bytes) : bytes :=
  match fuel with
  | O => acc
  | S fuel =>
      let acc := hex_char (n mod 16) :: acc in
      if n / 16 =? 0 then acc else hex_go fuel (n / 16) acc
  end.

Definition hex (n : Z) : bytes := hex_go 8 n [].

Section Host.
Variable host : endian.
Abbreviation hton16 := (byteswapOnLittleEndian host uint16_t).

(** [s6_addr] read as an array of [uint16_t]. *)
Fixpoint words (s : bytes) : list Z :=
  match s with
  | b0 :: b1 :: s => of_mem host uint16_t [b0; b1] :: words s
  | _ => []
  end.

(** [src/src/address.cc:453-472 IPv6Address::insert]
    The loop: [prev] is [addr[i - 1]], none when [i] is 0; the text and
    [used_zeros] at the end. *)
Fixpoint insert_loop (prev : option Z) (used_zeros : bool) (addr : list Z) : bytes * bool :=
  match addr with
  | [] => ([], used_zeros)
  | w :: addr =>
      if (w =? 0) && negb used_zeros then insert_loop (Some w) used_zeros addr else
      let zeros := match prev with Some p => (p =? 0) && negb used_zeros | None => false end in
      let '(rest, used) := insert_loop (Some w) (used_zeros || zeros) addr in
      ((if zeros then str ":" else []) ++ match prev with Some _ => str ":" | None => [] end
       ++ hex (hton16 w) ++ rest, used)
  end.

(** [src/src/address.cc:442-481 IPv6Address::insert] *)
Definition IPv6Address_insert (a : sockaddr_in6) : bytes :=
  let addr := words (sin6_addr a) in
  let '(text, used_zeros) := insert_loop None false addr in
  str "[" ++ text ++ (if negb used_zeros && (nth 7 addr 0 =? 0) then str "::" else [])
  ++ str "]:" ++ dec (hton16 (sin6_port a)).

(** [src/src/address.cc:125-125 Address::getFamily] *)
Definition Address_getFamily (a : Address) : Z :=
  match a with
  | AddrV4 a => sin_family a
  | AddrV6 a => sin6_family a
  | AddrUnix a => sun_family a
  | AddrUnknown f _ => f
  end.

(** [src/src/address.cc:128-136 Address::getFamilyToString] *)
Definition getFamilyToString (a : Address) : bytes :=
  let family := Address_getFamily a in
  if family =? AF_INET then str "IPv4" else if family =? AF_INET6 then str "IPv6"
  else if family =? AF_UNIX then str "UNIX" else str "Unknown(" ++ dec family ++ str ")".

(** [src/src/address.cc:607-611 UnknowAddress::insert] *)
Definition UnknowAddress_insert (family : Z) : bytes := str "[UnknowAddress family = " ++ dec family ++ str "]".

(** [src/src/address.cc:138-143 Address::toString] *)
Definition Address_toString (a : Address) : bytes :=
  match a with
  | AddrV4 a => IPv4Address_insert host a
  | AddrV6 a => IPv6Address_insert a
  | AddrUnix a => UnixAddress_insert a
  | AddrUnknown f _ => UnknowAddress_insert f
  end.

(** ** Comparison *)

(** The object [getAddr] points to, byte by byte. *)
Definition addr_memory (a : Address) : bytes :=
  match a with
  | AddrV4 a => mem_of host uint16_t (sin_family a) ++ mem_of host uint16_t (sin_port a)
                ++ mem_of host uint32_t (sin_addr a) ++ sin_zero a
  | AddrV6 a => mem_of host uint16_t (sin6_family a) ++ mem_of host uint16_t (sin6_port a)
                ++ mem_of host uint32_t (sin6_flowinfo a) ++ sin6_addr a ++ mem_of host uint32_t (sin6_scope a)
  | AddrUnix a => mem_of host uint16_t (sun_family a) ++ sun_path a
  | AddrUnknown f d => mem_of host uint16_t f ++ d
  end.

(** [src/src/address.cc:343-343 IPv4Address::getAddrLen]
    With lines 440, 576 and 605, the other classes. *)
Definition getAddrLen (a : Address) : Z :=
  match a with
  | AddrV4 _ => 16
  | AddrV6 _ => 28
  | AddrUnix a => m_length a
  | AddrUnknown _ _ => 16
  end.

(** [src/src/address.cc:578-578 UnixAddress::setAddrLen] *)
Definition setAddrLen (v : Z) (a : UnixAddress) : UnixAddress := mkUn (sun_family a) (sun_path a) (u32 v).
End Host.

(** The sign of [memcmp] on the bytes compared. *)
Fixpoint bytecmp (a b : bytes) : Z :=
  match a, b with
  | x :: a, y :: b => if x <? y then -1 else if y <? x then 1 else bytecmp a b
  | _, _ => 0
  end.

Definition memcmp (a b : bytes) (n : Z) : result Z :=
  if (Z.of_nat (length a) <? n) || (Z.of_nat (length b) <? n) then Err (Undef out_of_bounds)
  else Ok (bytecmp (take (Z.to_nat n) a) (take (Z.to_nat n) b)).

(** An address object: where its [sockaddr] is, and the address. *)
Definition AddressAt : Type := Z * Address.

(** [src/src/address.cc:172-188 Address::operator<] *)
Definition Address_lt (host : endian) (a b : AddressAt) : result bool :=
  let minlen := Z.min (getAddrLen a.2) (getAddrLen b.2) in
  match memcmp (addr_memory host a.2) (addr_memory host b.2) minlen with
  | Err e => Err e
  | Ok result =>
      Ok (if result <? 0 then true else if result >? 0 then false else if a.1 <? b.1 then true else false)
  end.

(** [src/src/address.cc:190-194 Address::operator==] *)
Definition Address_eqb (host : endian) (a b : Address) : result bool :=
  if getAddrLen a =? getAddrLen b then
    match memcmp (addr_memory host a) (addr_memory host b) (getAddrLen a) with
    | Err e => Err e
    | Ok result => Ok (result =? 0)
    end
  else Ok false.

(** [src/src/address.cc:196-196 Address::operator!=] *)
Definition Address_neqb (host : endian) (a b : Address) : result bool :=
  match Address_eqb host a b with Ok r => Ok (negb r) | Err e => Err e end.

(** ** Interfaces *)

Definition family_of (a : sockaddr) : Z :=
  match a with SA_in a => sin_family a | SA_in6 a => sin6_family a | SA_other f _ => f end.

(** What [getifaddrs] says of one address of an interface; both pointers may be
    null. *)
Record ifaddrs := mkIf { ifa_name : bytes; ifa_addr : option sockaddr; ifa_netmask : option sockaddr }.

(** [std::multimap::insert]: behind the entries whose key is not greater. *)
Fixpoint multimap_insert {V} (k : bytes) (v : V) (m : list (bytes * V)) : list (bytes * V) :=
  match m with
  | [] => [(k, v)]
  | (k', v') :: m' => if lexlt k k' then (k, v) :: m else (k', v') :: multimap_insert k v m'
  end.

(** [std::multimap::equal_range]: from the first key that is not less up to the
    first that is greater. *)
Fixpoint lower_bound {V} (k : bytes) (m : list (bytes * V)) : list (bytes * V) :=
  match m with
  | (k', v') :: m' => if lexlt k' k then lower_bound k m' else m
  | [] => []
  end.

Fixpoint upto_bound {V} (k : bytes) (m : list (bytes * V)) : list V :=
  match m with
  | (k', v') :: m' => if lexlt k k' then [] else v' :: upto_bound k m'
  | [] => []
  end.

Definition equal_range {V} (k : bytes) (m : list (bytes * V)) : list V := upto_bound k (lower_bound k m).

(** [src/src/address.cc:230-232 Address::GetInterFaceAddresses]
    The sum over the bytes of an IPv6 mask. *)
Definition count6 (mask : bytes) : option Z :=
  fold_left (fun acc b => match acc, CountBytes 8 b with Some n, Some c => Some (u32 (n + c)) | _, _ => None end)
    mask (Some 0).

(** [src/src/address.cc:216-238 Address::GetInterFaceAddresses]
    One entry: the address and the length of its mask, if it is of a family asked
    for. *)
Definition interface_entry (family : Z) (next : ifaddrs) : result (option (Address * Z)) :=
  match ifa_addr next with
  | None => Err (Undef null_deref)
  | Some sa =>
      if negb (family =? AF_UNSPEC) && negb (family =? family_of sa) then Ok None else
      match sa with
      | SA_in a =>
          match ifa_netmask next with
          | Some (SA_in m) => match CountBytes 32 (sin_addr m) with
                              | Some n => Ok (Some (AddrV4 a, n))
                              | None => Err OutOfFuel
                              end
          | _ => Err (Undef null_deref)
          end
      | SA_in6 a =>
          match ifa_netmask next with
          | Some (SA_in6 m) => match count6 (sin6_addr m) with
                               | Some n => Ok (Some (AddrV6 a, n))
                               | None => Err OutOfFuel
                               end
          | _ => Err (Undef null_deref)
          end
      | SA_other _ _ => Ok None
      end
  end.

(** [src/src/address.cc:212-243 Address::GetInterFaceAddresses] *)
Fixpoint interface_loop (family : Z) (l : list ifaddrs) (result : list (bytes * (Address * Z)))
    : Prelude.result (list (bytes * (Address * Z))) :=
  match l with
  | [] => Ok result
  | next :: l =>
      match interface_entry family next with
      | Err e => Err e
      | Ok None => interface_loop family l result
      | Ok (Some x) => interface_loop family l (multimap_insert (c_str (ifa_name next)) x result)
      end
  end.

(** [src/src/address.cc:198-252 Address::GetInterFaceAddresses]
    [getifaddrs] is the list it makes, none when it fails. *)
Definition GetInterFaceAddresses (getifaddrs : option (list ifaddrs)) (result : list (bytes * (Address * Z)))
    (family : Z) : Prelude.result (bool * list (bytes * (Address * Z))) :=
  match getifaddrs with
  | None => Ok (false, result)
  | Some l => match interface_loop family l result with Ok r => Ok (true, r) | Err e => Err e end
  end.

(** [src/src/address.cc:254-279 Address::GetInterFaceAddresses] *)
Definition GetInterFaceAddresses_of (host : endian) (getifaddrs : option (list ifaddrs)) (result : list (Address * Z))
    (iface : bytes) (family : Z) : Prelude.result (bool * list (Address * Z)) :=
  if match iface with [] => true | _ => bytes_eqb iface (str "*") end then
    Ok (true, result
              ++ (if (family =? AF_INET) || (family =? AF_UNSPEC) then [(AddrV4 (IPv4Address_new host 0 0), 0)] else [])
              ++ (if (family =? AF_INET6) || (family =? AF_UNSPEC) then [(AddrV6 IPv6Address_any, 0)] else []))
  else
    match GetInterFaceAddresses getifaddrs [] family with
    | Err e => Err e
    | Ok (false, _) => Ok (false, result)
    | Ok (true, results) => Ok (true, result ++ equal_range iface results)
    end.

(** [src/src/address.cc:281-310 IPAddress::Create]
    The list of [getaddrinfo], which is not empty when it succeeds. *)
Definition IPAddress_Create (host : endian) (getaddrinfo : bytes -> option (list sockaddr)) (address : bytes) (port : Z)
    : Prelude.result (option Address) :=
  match getaddrinfo (c_str address) with
  | None => Ok None
  | Some [] => Err (Undef null_deref)
  | Some (sa :: _) =>
      match Address_Create (Some sa) with
      | Some (AddrV4 a) => Ok (Some (AddrV4 (IPv4_setPort host port a)))
      | Some (AddrV6 a) => Ok (Some (AddrV6 (IPv6_setPort host port a)))
      | _ => Ok None
      end
  end.

(** ** Hexadecimal numbers *)

Definition hex_value (c : Z) : option Z :=
  if (48 <=? c) && (c <=? 57) then Some (c - 48)
  else if (97 <=? c) && (c <=? 102) then Some (c - 87) else None.

(** The value of a field; none if it is empty or has another character. *)
Definition hexval_from (acc : option Z) (s : bytes) : option Z :=
  fold_left (fun acc c => match acc, hex_value c with Some v, Some d => Some (v * 16 + d) | _, _ => None end) s acc.

Definition hexval (s : bytes) : option Z := match s with [] => None | _ => hexval_from (Some 0) s end.

Lemma hex_char_value d : 0 <= d < 16 -> hex_value (hex_char d) = Some d.
Proof.
  intros Hd. unfold hex_char, hex_value. destruct (Z.ltb_spec d 10).
  - rewrite (proj2 (Z.leb_le 48 _)), (proj2 (Z.leb_le _ 57)) by lia. cbn [andb]. f_equal. lia.
  - rewrite (proj2 (Z.leb_gt (87 + d) 57)) by lia. rewrite andb_false_r.
    rewrite (proj2 (Z.leb_le 97 _)), (proj2 (Z.leb_le _ 102)) by lia. cbn [andb]. f_equal. lia.
Qed.

Lemma hex_go_spec fuel : forall n acc, (0 < fuel)%nat -> 0 <= n < 16 ^ Z.of_nat fuel ->
  exists ds, hex_go fuel n acc = ds ++ acc /\ hexval_from (Some 0) ds = Some n /\ ds <> []
  /\ Forall (fun c => is_Some (hex_value c)) ds.
Proof.
  induction fuel as [|fuel IH]; intros n acc Hf Hn; [lia|]. cbn [hex_go].
  pose proof (Z.mod_pos_bound n 16 ltac:(lia)) as Hm. pose proof (Z.div_mod n 16 ltac:(lia)) as Hd.
  pose proof (hex_char_value _ Hm) as Hc.
  destruct (Z.eqb_spec (n / 16) 0) as [E|E].
  - exists [hex_char (n mod 16)]. cbn. rewrite Hc. split_and!; [done|f_equal; lia|done|]. by repeat econstructor.
  - assert (0 <= n / 16) by (apply Z.div_pos; lia). rewrite Nat2Z.inj_succ, Z.pow_succ_r in Hn by lia.
    assert (0 < fuel)%nat by (destruct fuel; [cbn in Hn|]; lia).
    assert (n / 16 < 16 ^ Z.of_nat fuel) by (apply Z.div_lt_upper_bound; lia).
    destruct (IH (n / 16) (hex_char (n mod 16) :: acc)) as (ds & -> & Hv & Hne & Hall); [lia..|].
    exists (ds ++ [hex_char (n mod 16)]). split_and!.
    + by rewrite <-app_assoc.
    + unfold hexval_from in *. rewrite fold_left_app, Hv. cbn. rewrite Hc. f_equal. lia.
    + by destruct ds.
    + apply Forall_app. split; [done|]. repeat constructor. by rewrite Hc.
Qed.

Lemma hex_spec n : 0 <= n < 2 ^ 32 ->
  hexval (hex n) = Some n /\ hex n <> [] /\ 58 ∉ hex n /\ 93 ∉ hex n.
Proof.
  intros Hn. destruct (hex_go_spec 8 n []) as (ds & E & Hv & Hne & Hall); [lia|done|].
  unfold hex. rewrite E, app_nil_r. rewrite Forall_forall in Hall.
  split; [by destruct ds|]. split; [done|].
  split; intros Hin; by destruct (Hall _ Hin).
Qed.

(** ** The text of an IPv6 address *)

(** A reader of the text form (RFC 4291, 2.2): groups of hexadecimal digits between
    colons, with at most one double colon that stands for the missing zeros. *)
Fixpoint fields (s : bytes) : list bytes :=
  match s with
  | [] => [[]]
  | c :: s =>
      if c =? 58 then [] :: fields s
      else match fields s with f :: fs => (c :: f) :: fs | [] => [[c]] end
  end.

Definition groups_of (s : bytes) : option (list Z) :=
  match s with [] => Some [] | _ => mapM hexval (fields s) end.

Fixpoint cut (s : bytes) : option (bytes * bytes) :=
  match s with
  | [] => None
  | c :: s' =>
      if (c =? 58) && match s' with d :: _ => d =? 58 | [] => false end then Some ([], tail s')
      else match cut s' with Some (l, r) => Some (c :: l, r) | None => None end
  end.

Definition read6 (s : bytes) : option (list Z) :=
  match cut s with
  | None => gs ← groups_of s; if (length gs =? 8)%nat then Some gs else None
  | Some (l, r) =>
      gl ← groups_of l; gr ← groups_of r;
      if (length gl + length gr <? 8)%nat then Some (gl ++ repeat 0 (8 - length gl - length gr) ++ gr) else None
  end.

(** Groups with their colons. *)
Definition tail_of (gs : list Z) : bytes := concat (map (fun g => 58 :: hex g) gs).
Definition join (gs : list Z) : bytes := match gs with [] => [] | g :: gs => hex g ++ tail_of gs end.

Definition group_ok (g : Z) : Prop := 0 <= g < 2 ^ 16.

Lemma fields_app f s : 58 ∉ f -> fields (f ++ s) = match fields s with x :: xs => (f ++ x) :: xs | [] => [f] end.
Proof.
  induction f as [|c f IH]; intros Hf; cbn [app fields].
  - destruct (fields s) eqn:E; [|done]. destruct s as [|c s]; [done|]. cbn in E. destruct (c =? 58), (fields s); done.
  - apply not_elem_of_cons in Hf as [Hc Hf]. rewrite (proj2 (Z.eqb_neq c 58)) by congruence. rewrite IH by done.
    by destruct (fields s).
Qed.

Lemma fields_tail gs : Forall group_ok gs -> fields (tail_of gs) = [] :: map hex gs.
Proof.
  induction 1 as [|g gs Hg _ IH]; [done|]. change (tail_of (g :: gs)) with (58 :: (hex g ++ tail_of gs)).
  cbn [fields Z.eqb Pos.eqb]. f_equal. rewrite fields_app by (apply hex_spec; unfold group_ok in *; lia).
  rewrite IH. by rewrite app_nil_r.
Qed.

Lemma groups_join gs : Forall group_ok gs -> groups_of (join gs) = Some gs.
Proof.
  destruct gs as [|g gs]; [done|]. intros Hall. pose proof Hall as [Hg Hgs]%Forall_cons. unfold group_ok in Hg.
  destruct (hex_spec g ltac:(lia)) as (_ & Hne & Hn & _). unfold groups_of, join.
  destruct (hex g ++ tail_of gs) as [|x l] eqn:E; [by destruct (hex g)|]. rewrite <-E. clear E x l.
  rewrite fields_app, fields_tail, app_nil_r by done. change (hex g :: map hex gs) with (map hex (g :: gs)).
  clear Hn Hne Hg Hgs. induction Hall as [|x l Hx _ IH]; [done|]. unfold group_ok in Hx.
  cbn [map mapM]. destruct (hex_spec x ltac:(lia)) as (-> & _). cbn. by rewrite IH.
Qed.

Lemma cut_skip f s : 58 ∉ f -> cut (f ++ s) = match cut s with Some (l, r) => Some (f ++ l, r) | None => None end.
Proof.
  induction f as [|c f IH]; intros Hf; cbn [app]; [by destruct (cut s) as [[]|]|].
  apply not_elem_of_cons in Hf as [Hc Hf]. cbn [cut]. rewrite (proj2 (Z.eqb_neq c 58)) by congruence. cbn [andb].
  rewrite IH by done. by destruct (cut s) as [[]|].
Qed.

Lemma cut_tail gs s : Forall group_ok gs -> cut (tail_of gs ++ s) = match cut s with
  | Some (l, r) => Some (tail_of gs ++ l, r) | None => None end.
Proof.
  induction 1 as [|g gs Hg _ IH]; [cbn; by destruct (cut s) as [[]|]|]. unfold group_ok in Hg.
  destruct (hex_spec g ltac:(lia)) as (_ & Hne & Hn & _).
  change (tail_of (g :: gs)) with ([58] ++ hex g ++ tail_of gs). rewrite <-!app_assoc. cbn [app cut Z.eqb Pos.eqb andb].
  destruct (hex g) as [|x l] eqn:E; [done|]. cbn [app]. rewrite (proj2 (Z.eqb_neq x 58)); [|intros ->; apply Hn; left].
  change (x :: l ++ tail_of gs ++ s) with ((x :: l) ++ tail_of gs ++ s).
  rewrite cut_skip, IH by done. destruct (cut s) as [[]|]; [|done]. cbn [app]. by rewrite <-app_assoc.
Qed.

Lemma cut_join gs s : Forall group_ok gs -> cut (join gs ++ s) = match cut s with
  | Some (l, r) => Some (join gs ++ l, r) | None => None end.
Proof.
  intros Hall. destruct gs as [|g gs]; [cbn; by destruct (cut s) as [[]|]|]. pose proof Hall as [Hg Hgs]%Forall_cons.
  unfold group_ok in Hg. cbn [join]. rewrite <-app_assoc, cut_skip by (apply hex_spec; lia).
  rewrite cut_tail by done. destruct (cut s) as [[]|]; [|done]. by rewrite app_assoc.
Qed.

(** The reader on the two forms the printer makes. *)
Lemma read6_full gs : Forall group_ok gs -> length gs = 8%nat -> read6 (join gs) = Some gs.
Proof.
  intros Hall Hl. unfold read6. pose proof (cut_join gs [] Hall) as Hc. rewrite app_nil_r in Hc. rewrite Hc. cbn [cut].
  rewrite groups_join by done. cbn. by rewrite Hl.
Qed.

Lemma read6_zeros a k r : Forall group_ok a -> Forall group_ok r -> (length a + S k + length r = 8)%nat ->
  read6 (join a ++ str "::" ++ join r) = Some (a ++ repeat 0 (S k) ++ r).
Proof.
  intros Ha Hr Hl. unfold read6. rewrite cut_join by done. change (str "::" ++ join r) with ([58; 58] ++ join r).
  cbn [app cut Z.eqb Pos.eqb andb tail]. rewrite app_nil_r, !groups_join by done. cbn [mbind option_bind].
  rewrite (proj2 (Nat.ltb_lt _ _)) by lia. by replace (8 - length a - length r)%nat with (S k) by lia.
Qed.

Lemma join_no gs : Forall group_ok gs -> 93 ∉ join gs.
Proof.
  assert (forall l, Forall group_ok l -> 93 ∉ tail_of l) as Ht.
  { induction 1 as [|g l Hg _ IH]; [by intros ?%elem_of_nil|]. unfold group_ok in Hg.
    change (tail_of (g :: l)) with (58 :: (hex g ++ tail_of l)). rewrite elem_of_cons, elem_of_app.
    destruct (hex_spec g ltac:(lia)) as (_ & _ & _ & ?). intros [?|[?|?]]; done. }
  intros H. destruct H as [|g gs Hg Hgs]; [by intros ?%elem_of_nil|]. unfold group_ok in Hg. cbn [join].
  rewrite elem_of_app. destruct (hex_spec g ltac:(lia)) as (_ & _ & _ & ?). specialize (Ht gs Hgs). tauto.
Qed.

(** A bracketed host and its port are split where they should be. *)
Lemma split_brackets h port : h <> [] -> 93 ∉ h -> split_host (str "[" ++ h ++ str "]:" ++ port) = (h, Some port).
Proof.
  intros Hne Hn. unfold split_host. change (str "[" ++ h ++ str "]:" ++ port) with (91 :: (h ++ 93 :: (58 :: port))).
  cbv iota beta. rewrite memchr_app by done. rewrite take_app_length.
  replace (drop (S (length h)) (h ++ 93 :: 58 :: port)) with (58 :: port).
  - by destruct h.
  - rewrite drop_app_ge by lia. by replace (S (length h) - length h)%nat with 1%nat by lia.
Qed.

(** A list with its first run of zeros. *)
Lemma first_zeros (ws : list Z) : exists a k r, ws = a ++ repeat 0 k ++ r /\ Forall (fun w => w <> 0) a
  /\ (k = 0%nat -> r = []) /\ match r with [] => True | w :: _ => w <> 0 end.
Proof.
  induction ws as [|w ws (a & k & r & -> & Ha & Hk & Hr)]; [by exists [], 0%nat, []|].
  destruct (decide (w = 0)) as [->|Hw]; [|by exists (w :: a), k, r; split_and!; [|constructor| |]].
  destruct a as [|x a].
  - exists [], (S k), r. by split_and!.
  - exists [], 1%nat, (x :: a ++ repeat 0 k ++ r). apply Forall_cons in Ha as [? ?]. by split_and!.
Qed.

Lemma last_shift (a : list Z) : forall w p, List.last (w :: a) p = List.last a w.
Proof.
  induction a as [|x a IH]; intros w p; [done|]. change (List.last (w :: x :: a) p) with (List.last (x :: a) p).
  by rewrite !IH.
Qed.

Lemma last_nonzero (a : list Z) w : Forall (fun w => w <> 0) a -> w <> 0 -> List.last a w <> 0.
Proof. intros Ha. revert w. induction Ha as [|x a Hx _ IH]; intros w Hw; [done|]. rewrite last_shift. by apply IH. Qed.

Section Printed.
Variable host : endian.
Abbreviation hton16 := (byteswapOnLittleEndian host uint16_t).

Lemma loop_used ws : forall p, insert_loop host (Some p) true ws = (tail_of (map hton16 ws), true).
Proof.
  induction ws as [|w ws IH]; intros p; cbn [insert_loop]; [done|].
  rewrite andb_false_r, IH. by rewrite !andb_false_r.
Qed.

Lemma loop_plain a s : Forall (fun w => w <> 0) a -> forall p, p <> 0 ->
  insert_loop host (Some p) false (a ++ s)
  = (tail_of (map hton16 a) ++ fst (insert_loop host (Some (List.last a p)) false s),
     snd (insert_loop host (Some (List.last a p)) false s)).
Proof.
  induction 1 as [|w a Hw _ IH]; intros p Hp; cbn [app insert_loop].
  - by destruct (insert_loop _ _ _ s).
  - rewrite (proj2 (Z.eqb_neq w 0)), (proj2 (Z.eqb_neq p 0)) by done. cbn [andb orb]. rewrite IH by done.
    rewrite last_shift. change (tail_of (map _ (w :: a))) with (58 :: (hex (hton16 w) ++ tail_of (map hton16 a))).
    cbn [app]. by rewrite <-app_assoc.
Qed.

Lemma loop_zeros k s p : insert_loop host (Some p) false (repeat 0 (S k) ++ s) = insert_loop host (Some 0) false s.
Proof. revert p. induction k as [|k IH]; intros p; [done|]. change (repeat 0 (S (S k))) with (0 :: repeat 0 (S k)). apply (IH 0). Qed.

Lemma loop_first k s : insert_loop host None false (repeat 0 (S k) ++ s) = insert_loop host (Some 0) false s.
Proof. destruct k as [|k]; [done|]. change (repeat 0 (S (S k))) with (0 :: repeat 0 (S k)). apply (loop_zeros k s 0). Qed.

(** After the zeros: two colons and the rest. *)
Lemma loop_after r : match r with [] => True | w :: _ => w <> 0 end ->
  insert_loop host (Some 0) false r = match r with [] => ([], false) | _ => (str "::" ++ join (map hton16 r), true) end.
Proof.
  destruct r as [|w r]; [done|]. intros Hw. cbn [insert_loop]. rewrite (proj2 (Z.eqb_neq w 0)) by done.
  cbn [andb orb Z.eqb negb]. by rewrite loop_used.
Qed.

(** What is printed between the brackets. *)
Lemma loop_text a k r : Forall (fun w => w <> 0) a -> (k = 0%nat -> r = []) ->
  match r with [] => True | w :: _ => w <> 0 end ->
  insert_loop host None false (a ++ repeat 0 k ++ r)
  = (join (map hton16 a) ++ match r with [] => [] | _ => str "::" ++ join (map hton16 r) end,
     match r with [] => false | _ => true end).
Proof.
  intros Ha Hk Hr. assert (forall p, p <> 0 \/ k <> 0%nat -> insert_loop host (Some p) false (repeat 0 k ++ r)
    = match r with [] => ([], false) | _ => (str "::" ++ join (map hton16 r), true) end) as Hrest.
  { intros p Hp. destruct k as [|k]; [by rewrite (Hk eq_refl)|]. rewrite loop_zeros. by apply loop_after. }
  destruct Ha as [|w a Hw Ha]; cbn [app].
  - destruct k as [|k]; [by rewrite (Hk eq_refl)|]. rewrite loop_first, loop_after by done. by destruct r.
  - cbn [insert_loop]. rewrite (proj2 (Z.eqb_neq w 0)) by done. cbn [andb orb].
    rewrite loop_plain, Hrest by (done || left; apply last_nonzero; done).
    destruct r as [|x r]; cbn [fst snd map join app]; by rewrite <-?app_assoc.
Qed.

Lemma hton16_word b0 b1 : is_byte b0 -> is_byte b1 -> hton16 (of_mem host uint16_t [b0; b1]) = b0 * 256 + b1.
Proof.
  unfold is_byte. intros H0 H1. unfold byteswapOnLittleEndian, of_mem. destruct host.
  - unfold byteswap, int_cast, bswap. cbn [int_signed int_size rev app le_combine le_split int_bits].
    change (2 ^ int_bits _) with 65536. rewrite Z.mul_0_r, Z.add_0_r, !(Z.mod_small (b0 + 256 * b1)) by lia.
    replace (b0 + 256 * b1) with (b0 + b1 * 256) by lia. rewrite Z.mod_add, Z.div_add, (Z.mod_small b0), (Z.div_small b0) by lia.
    rewrite Z.add_0_l, (Z.mod_small b1), Z.add_0_r, Z.mod_small by lia. lia.
  - unfold int_cast. cbn [int_signed rev app le_combine]. change (2 ^ int_bits _) with 65536.
    rewrite Z.mod_small by lia. lia.
Qed.

(** The groups of an address: two bytes each, the first one high. *)
Fixpoint groups (s : bytes) : list Z :=
  match s with b0 :: b1 :: s => b0 * 256 + b1 :: groups s | _ => [] end.

Lemma words_groups n : forall s, length s = (2 * n)%nat -> Forall is_byte s ->
  map hton16 (words host s) = groups s /\ length (words host s) = n /\ Forall group_ok (groups s).
Proof.
  induction n as [|n IH]; intros s Hl Hs; [by destruct s|].
  destruct s as [|b0 [|b1 s]]; cbn in Hl; [lia..|]. apply Forall_cons in Hs as [H0 [H1 Hs]%Forall_cons].
  destruct (IH s ltac:(lia) Hs) as (E1 & E2 & E3). cbn [words groups map length]. rewrite E1, E2, hton16_word by done.
  split; [done|]. split; [done|]. constructor; [|done]. unfold group_ok, is_byte in *. lia.
Qed.

Lemma nth_last_zero (a : list Z) k : length (a ++ repeat 0 k) = 8%nat -> Forall (fun w => w <> 0) a ->
  (nth 7 (a ++ repeat 0 k) 0 =? 0) = bool_decide (k <> 0%nat).
Proof.
  intros Hl Ha. rewrite length_app, repeat_length in Hl. destruct k as [|k].
  - rewrite app_nil_r. rewrite bool_decide_eq_false_2 by (intros H; by apply H). apply Z.eqb_neq.
    rewrite Forall_forall in Ha. apply Ha. apply list_elem_of_In, nth_In. lia.
  - rewrite bool_decide_eq_true_2 by done. apply Z.eqb_eq. rewrite app_nth2 by lia.
    eapply (repeat_spec (S k) 0). apply nth_In. rewrite repeat_length. lia.
Qed.

(** The text of an IPv6 address is what [Address::Lookup] splits into host and
    port, and the host read as RFC 4291 says is the address, for every address
    and port on a machine of either byte order: the zeros left out are those of
    the first run and nothing else. *)
Theorem ipv6_text_reads a :
  length (sin6_addr a) = 16%nat -> Forall is_byte (sin6_addr a) -> 0 <= sin6_port a < 2 ^ 16 ->
  exists body, split_host (IPv6Address_insert host a) = (body, Some (dec (IPv6_getPort host a)))
  /\ read6 body = Some (groups (sin6_addr a)).
Proof.
  intros Hl Hb Hp. destruct (words_groups 8 (sin6_addr a) Hl Hb) as (Hg & Hw & Hok).
  unfold IPv6Address_insert. destruct (first_zeros (words host (sin6_addr a))) as (za & k & r & E & Ha & Hk & Hr).
  rewrite E, loop_text by done. rewrite E in Hg, Hw. rewrite !map_app in Hg. rewrite !length_app, repeat_length in Hw.
  assert (map hton16 (repeat 0 k) = repeat 0 k) as Hz by (rewrite map_repeat; f_equal; by destruct host).
  rewrite Hz in Hg. rewrite <-Hg in Hok |- *. apply Forall_app in Hok as [Hoka [_ Hokr]%Forall_app].
  set (port := dec _). set (tail := match r with [] => if bool_decide (k <> 0%nat) then str "::" else [] | _ => str "::" ++ join (map hton16 r) end).
  assert ((join (map hton16 za) ++ match r with [] => [] | _ => str "::" ++ join (map hton16 r) end)
    ++ (if negb match r with [] => false | _ => true end && (nth 7 (za ++ repeat 0 k ++ r) 0 =? 0) then str "::" else [])
    = join (map hton16 za) ++ tail) as Hbody.
  { unfold tail. destruct r as [|w r]; [|by rewrite app_nil_r]. rewrite !app_nil_r in *. cbn [negb andb].
    rewrite nth_last_zero; [done|rewrite length_app, repeat_length; cbn in Hw; lia|done]. }
  rewrite app_assoc, (app_assoc (str "[" ++ _)), <-(app_assoc (str "[")), Hbody. clear Hbody.
  exists (join (map hton16 za) ++ tail). split.
  - rewrite <-app_assoc. apply split_brackets.
    + unfold tail. destruct r as [|w r]; [|by destruct (join (map hton16 za))]. destruct k as [|k].
      * destruct za as [|w za]; [cbn in Hw; lia|]. apply Forall_cons in Hoka as [Hg0 _]. unfold group_ok in Hg0.
        cbn [map join]. by destruct (hex_spec (hton16 w) ltac:(lia)) as (_ & Hne & _); destruct (hex (hton16 w)).
      * rewrite bool_decide_eq_true_2 by done. by destruct (join (map hton16 za)).
    + intros [Hin|Hin]%elem_of_app; [by apply join_no in Hin|]. unfold tail in Hin. destruct r as [|w r].
      * case_bool_decide; [|by apply elem_of_nil in Hin]. by repeat (apply elem_of_cons in Hin as [?|Hin]; [done|]); apply elem_of_nil in Hin.
      * apply elem_of_app in Hin as [Hin|Hin]; [|by apply join_no in Hin].
        by repeat (apply elem_of_cons in Hin as [?|Hin]; [done|]); apply elem_of_nil in Hin.
  - unfold tail. destruct r as [|w r]; cbn [map]; [|].
    + destruct k as [|k].
      * rewrite bool_decide_eq_false_2 by (intros H; by apply H). rewrite !app_nil_r. apply read6_full; [done|].
        rewrite length_map. cbn in Hw. lia.
      * rewrite bool_decide_eq_true_2 by done. rewrite <-(app_nil_r (str "::")).
        rewrite (read6_zeros _ k []); [by rewrite !app_nil_r|done|done|rewrite length_map; cbn in *; lia].
    + destruct k as [|k]; [by specialize (Hk eq_refl)|].
      apply (read6_zeros _ k (hton16 w :: map hton16 r)); [done|done|cbn [length] in *; rewrite !length_map; lia].
Qed.
End Printed.

(** ** The order of addresses *)

Lemma bytecmp_lex a : forall b, length a = length b ->
  (bytecmp a b <? 0) = lexlt a b /\ (bytecmp a b >? 0) = lexlt b a.
Proof.
  induction a as [|x a IH]; intros [|y b] Hl; try done. cbn [bytecmp lexlt]. injection Hl as Hl.
  destruct (Z.ltb_spec x y), (Z.ltb_spec y x); [lia|..]; cbn [orb].
  - by rewrite (proj2 (Z.eqb_neq y x)) by lia.
  - by rewrite (proj2 (Z.eqb_neq x y)) by lia.
  - assert (x = y) as -> by lia. rewrite Z.eqb_refl. cbn [andb]. by apply IH.
Qed.

Lemma bytecmp_eq a : forall b, length a = length b -> bytecmp a b = 0 <-> a = b.
Proof.
  induction a as [|x a IH]; intros [|y b] Hl; try done. cbn [bytecmp]. injection Hl as Hl.
  destruct (Z.ltb_spec x y); [split; [done|intros [= -> _]; lia]|].
  destruct (Z.ltb_spec y x); [split; [done|intros [= -> _]; lia]|].
  assert (x = y) as -> by lia. rewrite (IH b Hl). split; [by intros ->|by intros [= ->]].
Qed.

Section Order.
Variable host : endian.

(** An address whose length does not exceed the object it is stored in. *)
Definition complete (a : Address) : Prop := 0 <= getAddrLen a <= Z.of_nat (length (addr_memory host a)).

(** The bytes that count. *)
Definition content (a : Address) : bytes := take (Z.to_nat (getAddrLen a)) (addr_memory host a).

Lemma lt_same_length a b : complete a.2 -> complete b.2 -> getAddrLen a.2 = getAddrLen b.2 ->
  Address_lt host a b = Ok (lexlt (content a.2) (content b.2)
                            || (bool_decide (content a.2 = content b.2) && (a.1 <? b.1))).
Proof.
  unfold complete, content. intros Ha Hb Hl. unfold Address_lt. rewrite <-Hl in *. rewrite Z.min_id. unfold memcmp.
  rewrite !(proj2 (Z.ltb_ge _ _)) by lia. cbn [orb]. f_equal.
  set (x := take _ (addr_memory host a.2)). set (y := take _ (addr_memory host b.2)).
  assert (length x = length y) as Hxy by (unfold x, y; rewrite !length_take; lia).
  destruct (bytecmp_lex x y Hxy) as [-> ->]. destruct (lexlt x y) eqn:E1; [done|]. cbn [orb].
  destruct (lexlt y x) eqn:E2.
  - rewrite bool_decide_eq_false_2; [done|]. intros ->. by rewrite lexlt_irrefl in E2.
  - rewrite bool_decide_eq_true_2 by (by apply lexlt_total). by destruct (a.1 <? b.1).
Qed.

(** On the complete addresses of one length, [operator<] is a strict total order
    of the objects: of two different ones exactly one is less, also when they are
    equal addresses. *)
Theorem address_order a b c :
  complete a.2 -> complete b.2 -> complete c.2 ->
  getAddrLen a.2 = getAddrLen b.2 -> getAddrLen b.2 = getAddrLen c.2 ->
  Address_lt host a a = Ok false
  /\ (Address_lt host a b = Ok true -> Address_lt host b c = Ok true -> Address_lt host a c = Ok true)
  /\ (a.1 <> b.1 -> exists l, Address_lt host a b = Ok l /\ Address_lt host b a = Ok (negb l)).
Proof.
  intros Ha Hb Hc H1 H2. rewrite !lt_same_length by (done || congruence). split_and!.
  - by rewrite lexlt_irrefl, Z.ltb_irrefl, andb_false_r.
  - intros [= E1] [= E2]. f_equal. apply orb_true_iff.
    apply orb_true_iff in E1 as [E1|[E1%bool_decide_eq_true F1%Z.ltb_lt]%andb_true_iff],
                       E2 as [E2|[E2%bool_decide_eq_true F2%Z.ltb_lt]%andb_true_iff].
    + left. by eapply lexlt_trans.
    + left. by rewrite <-E2.
    + left. by rewrite E1.
    + right. apply andb_true_iff. split; [apply bool_decide_eq_true; congruence|apply Z.ltb_lt; lia].
  - intros Hne. eexists. split; [done|]. f_equal.
    destruct (lexlt (content a.2) (content b.2)) eqn:E1, (lexlt (content b.2) (content a.2)) eqn:E2; cbn [orb negb].
    + pose proof (lexlt_trans _ _ _ E1 E2) as E. by rewrite lexlt_irrefl in E.
    + rewrite bool_decide_eq_false_2; [done|]. intros E. by rewrite E, lexlt_irrefl in E1.
    + rewrite bool_decide_eq_false_2; [done|]. intros E. by rewrite E, lexlt_irrefl in E2.
    + pose proof (lexlt_total _ _ E1 E2) as ->. rewrite bool_decide_eq_true_2 by done. cbn [andb].
      destruct (Z.ltb_spec a.1 b.1), (Z.ltb_spec b.1 a.1); done || lia.
Qed.

(** [operator==] holds exactly between addresses of the same length and bytes, and
    [operator!=] is its negation. *)
Lemma eqb_spec a b : complete a -> complete b ->
  exists e, Address_eqb host a b = Ok e /\ Address_neqb host a b = Ok (negb e)
  /\ (e = true <-> getAddrLen a = getAddrLen b /\ content a = content b).
Proof.
  unfold complete, content. intros Ha Hb. unfold Address_neqb, Address_eqb.
  destruct (Z.eqb_spec (getAddrLen a) (getAddrLen b)) as [E|E].
  - rewrite <-E in *. unfold memcmp. rewrite !(proj2 (Z.ltb_ge _ _)) by lia. cbn [orb]. eexists. split; [done|].
    split; [done|]. rewrite Z.eqb_eq, bytecmp_eq by (rewrite !length_take; lia). tauto.
  - eexists. split; [done|]. split; [done|]. split; [done|]. tauto.
Qed.
End Order.

(** Between addresses of different lengths the order can be a cycle: an abstract
    Unix name that is a prefix of two others is compared with them by location. *)
Definition abstract_at (p : Z) (name : bytes) : AddressAt :=
  (p, match UnixAddress_new (0 :: name) with Ok a => AddrUnix a | Err _ => AddrUnknown 0 [] end).

Lemma lt_cycle host :
  let a := abstract_at 2 (str "x") in let b := abstract_at 3 (str "xa") in let c := abstract_at 1 (str "xb") in
  Address_lt host a b = Ok true /\ Address_lt host b c = Ok true /\ Address_lt host c a = Ok true.
Proof. destruct host; vm_compute; split_and!; reflexivity. Qed.

(** ** Enumerating interfaces *)

Section Multimap.
Context {V : Type}.
Implicit Types (m : list (bytes * V)) (k : bytes).

Definition not_above (a b : bytes * V) : Prop := lexlt b.1 a.1 = false.
Definition ordered m : Prop := StronglySorted not_above m.

(** The values of a key, in the order of insertion. *)
Definition values k m : list V := omap (fun kv => if bytes_eqb kv.1 k then Some kv.2 else None) m.

Lemma values_above k m : Forall (fun kv => lexlt k kv.1 = true) m -> values k m = [].
Proof.
  induction 1 as [|[k' v] m Hk _ IH]; [done|]. unfold values in *. cbn in *.
  destruct (bytes_eqb_spec k' k) as [->|]; [by rewrite lexlt_irrefl in Hk|done].
Qed.

Lemma lexlt_not_trans a b c : lexlt a b = true -> lexlt c b = false -> lexlt a c = true.
Proof.
  intros H1 H2. destruct (lexlt a c) eqn:E1; [done|]. destruct (lexlt c a) eqn:E2.
  - by rewrite (lexlt_trans _ _ _ E2 H1) in H2.
  - pose proof (lexlt_total _ _ E1 E2) as ->. congruence.
Qed.

Lemma insert_ordered k v m : ordered m -> ordered (multimap_insert k v m) /\
  forall q, values q (multimap_insert k v m) = values q m ++ (if bytes_eqb k q then [v] else []).
Proof.
  induction 1 as [|[k' v'] m Hm [IH1 IH2] Hall]; cbn [multimap_insert].
  - split; [repeat constructor|]. intros q. unfold values. cbn. by destruct (bytes_eqb k q).
  - destruct (lexlt k k') eqn:E.
    + assert (Forall (fun kv => lexlt k kv.1 = true) ((k', v') :: m)) as Hab.
      { constructor; [done|]. eapply Forall_impl; [exact Hall|]. intros kv Hkv. by eapply lexlt_not_trans. }
      split.
      * constructor; [by constructor|]. eapply Forall_impl; [exact Hab|]. intros kv Hkv. unfold not_above. cbn.
        destruct (lexlt kv.1 k) eqn:E2; [|done]. pose proof (lexlt_trans _ _ _ E2 Hkv) as E3. by rewrite lexlt_irrefl in E3.
      * intros q. change (values q ((k, v) :: (k', v') :: m)) with
          (match (if bytes_eqb k q then Some v else None) with Some y => y :: values q ((k', v') :: m) | None => values q ((k', v') :: m) end).
        destruct (bytes_eqb_spec k q) as [<-|]; [by rewrite values_above|by rewrite app_nil_r].
    + split.
      * constructor; [done|]. clear IH2 IH1 Hm. induction m as [|[k2 v2] m IHm]; cbn [multimap_insert].
        -- repeat constructor. exact E.
        -- apply Forall_cons in Hall as [H1 H2]. destruct (lexlt k k2); repeat (constructor; [done|]); [done|by apply IHm].
      * intros q. unfold values in *. cbn. rewrite IH2. by destruct (bytes_eqb k' q).
Qed.

Lemma equal_range_values k m : ordered m -> equal_range k m = values k m.
Proof.
  intros Hm. unfold equal_range.
  assert (forall l, ordered l -> Forall (fun kv => lexlt kv.1 k = false) l -> upto_bound k l = values k l) as Hup.
  { induction 1 as [|[k' v'] l Hl IH Hall]; [done|]. intros [Hk Hks]%Forall_cons. cbn [upto_bound fst] in *.
    destruct (lexlt k k') eqn:E.
    - symmetry. apply values_above. constructor; [done|]. eapply Forall_impl; [exact Hall|]. intros kv Hkv. by eapply lexlt_not_trans.
    - pose proof (lexlt_total _ _ E Hk) as ->. unfold values in *. cbn. rewrite bytes_eqb_refl. by rewrite IH. }
  induction Hm as [|[k' v'] m Hm IH Hall]; [done|]. cbn [lower_bound]. destruct (lexlt k' k) eqn:E.
  - rewrite IH. unfold values. cbn. destruct (bytes_eqb_spec k' k) as [->|]; [by rewrite lexlt_irrefl in E|done].
  - apply Hup; [by constructor|]. constructor; [done|]. eapply Forall_impl; [exact Hall|]. intros kv Hkv. cbn in *.
    destruct (lexlt kv.1 k) eqn:E2; [|done]. unfold not_above in Hkv. cbn in Hkv.
    by rewrite (lexlt_not_trans _ _ _ E2 E) in Hkv.
Qed.
End Multimap.

(** The ones of an IPv6 mask. *)
Definition popcount6 (mask : bytes) : Z := foldr (fun b n => popcount 8 b + n) 0 mask.

Lemma count6_popcount mask : Forall is_byte mask -> (length mask <= 16)%nat -> count6 mask = Some (popcount6 mask).
Proof.
  intros Hb Hl. unfold count6.
  cut (forall acc, 0 <= acc -> acc + 8 * Z.of_nat (length mask) < 2 ^ 32 ->
    fold_left (fun acc b => match acc, CountBytes 8 b with Some n, Some c => Some (u32 (n + c)) | _, _ => None end)
      mask (Some acc) = Some (acc + popcount6 mask)); [intros H; rewrite H by lia; f_equal; lia|].
  clear Hl. induction Hb as [|b mask Hx _ IH]; intros acc H0 Hs; cbn [fold_left popcount6 foldr]; [f_equal; lia|].
  cbn [length] in Hs. pose proof (popcount_range 8 b) as Hr. unfold is_byte in Hx.
  rewrite CountBytes_popcount by (cbn; lia). rewrite u32_small, IH by lia. f_equal. unfold popcount6. lia.
Qed.

(** An entry as the system makes it: the address is there, and so is a mask of the
    same family. *)
Definition entry_ok (e : ifaddrs) : Prop :=
  match ifa_addr e, ifa_netmask e with
  | Some (SA_in _), Some (SA_in m) => 0 <= sin_addr m < 2 ^ 32
  | Some (SA_in6 _), Some (SA_in6 m) => length (sin6_addr m) = 16%nat /\ Forall is_byte (sin6_addr m)
  | Some (SA_other _ _), _ => True
  | _, _ => False
  end.

(** What an entry stands for, for a caller that asked for a family. *)
Definition entry_means (family : Z) (e : ifaddrs) : option (Address * Z) :=
  match ifa_addr e, ifa_netmask e with
  | Some sa, mask =>
      if (family =? AF_UNSPEC) || (family =? family_of sa) then
        match sa, mask with
        | SA_in a, Some (SA_in m) => Some (AddrV4 a, popcount 32 (sin_addr m))
        | SA_in6 a, Some (SA_in6 m) => Some (AddrV6 a, popcount6 (sin6_addr m))
        | _, _ => None
        end
      else None
  | None, _ => None
  end.

Lemma entry_spec family e : entry_ok e -> interface_entry family e = Ok (entry_means family e).
Proof.
  unfold entry_ok, interface_entry, entry_means. destruct e as [name [sa|] mask]; [|done]. cbn [ifa_addr ifa_netmask].
  rewrite <-negb_orb. destruct ((family =? AF_UNSPEC) || (family =? family_of sa)); cbn [negb]; [|done].
  destruct sa as [a|a|f d], mask as [[m|m|mf md]|]; try done; intros Hm.
  - by rewrite CountBytes_popcount by (cbn; lia).
  - destruct Hm as [Hl Hb]. by rewrite count6_popcount by (done || lia).
Qed.

Lemma interface_loop_spec family l : forall acc, Forall entry_ok l -> ordered acc ->
  exists r, interface_loop family l acc = Ok r /\ ordered r
  /\ forall q, values q r = values q acc ++ omap (fun e => if bytes_eqb (c_str (ifa_name e)) q then entry_means family e else None) l.
Proof.
  induction l as [|e l IH]; intros acc Hl Hacc; cbn [interface_loop].
  - exists acc. split; [done|]. split; [done|]. intros q. cbn. by rewrite app_nil_r.
  - apply Forall_cons in Hl as [He Hl]. rewrite entry_spec by done. cbn. destruct (entry_means family e) as [x|] eqn:E.
    + destruct (insert_ordered (c_str (ifa_name e)) x acc Hacc) as [Ho Hv].
      destruct (IH _ Hl Ho) as (r & H1 & H2 & H3). exists r. split; [done|]. split; [done|]. intros q.
      rewrite H3, Hv, <-app_assoc. cbn. by destruct (bytes_eqb (c_str (ifa_name e)) q).
    + destruct (IH _ Hl Hacc) as (r & H1 & H2 & H3). exists r. split; [done|]. split; [done|]. intros q. rewrite H3.
      by destruct (bytes_eqb (c_str (ifa_name e)) q).
Qed.

(** Asked for an interface by name, GetInterFaceAddresses appends exactly the
    addresses of that interface of the families asked for, in the order the system
    lists them, each with the number of ones of its netmask. *)
Theorem interface_addresses host l result iface family :
  Forall entry_ok l -> iface <> [] -> iface <> str "*" ->
  GetInterFaceAddresses_of host (Some l) result iface family
  = Ok (true, result ++ omap (fun e => if bytes_eqb (c_str (ifa_name e)) iface then entry_means family e else None) l).
Proof.
  intros Hl Hne Hstar. unfold GetInterFaceAddresses_of. destruct iface as [|c iface]; [done|].
  destruct (bytes_eqb_spec (c :: iface) (str "*")); [done|]. unfold GetInterFaceAddresses.
  destruct (interface_loop_spec family l [] Hl) as (r & -> & Ho & Hv); [constructor|].
  by rewrite equal_range_values, Hv.
Qed.

(** An interface without an address is not skipped. *)
Lemma null_address_crashes host result iface family name : iface <> [] -> iface <> str "*" ->
  GetInterFaceAddresses_of host (Some [mkIf name None None]) result iface family = Err (Undef null_deref).
Proof.
  intros Hne Hstar. unfold GetInterFaceAddresses_of. destruct iface as [|c iface]; [done|].
  by destruct (bytes_eqb_spec (c :: iface) (str "*")).
Qed.

(** ** Witnesses *)

Lemma ipv6_text_reads_witness :
  exists body, split_host (IPv6Address_insert SYLAR_LITTLE_ENDIAN
      (IPv6Address_new SYLAR_LITTLE_ENDIAN [32; 1; 13; 184; 0; 0; 0; 0; 0; 1; 0; 0; 0; 0; 0; 1] 8080))
    = (body, Some (dec 8080))
  /\ read6 body = Some [8193; 3512; 0; 0; 1; 0; 0; 1].
Proof.
  apply (ipv6_text_reads SYLAR_LITTLE_ENDIAN
    (IPv6Address_new SYLAR_LITTLE_ENDIAN [32; 1; 13; 184; 0; 0; 0; 0; 0; 1; 0; 0; 0; 0; 0; 1] 8080)).
  - reflexivity.
  - repeat constructor; unfold is_byte; lia.
  - vm_compute. split; [discriminate|reflexivity].
Defined.

Definition demo_ifs : list ifaddrs :=
  [mkIf (str "lo") (Some (SA_in (IPv4Address_new SYLAR_LITTLE_ENDIAN 2130706433 0)))
        (Some (SA_in (IPv4Address_new SYLAR_LITTLE_ENDIAN 4278190080 0)));
   mkIf (str "eth0") (Some (SA_other 17 [])) None;
   mkIf (str "eth0") (Some (SA_in (IPv4Address_new SYLAR_LITTLE_ENDIAN 3232235777 0)))
        (Some (SA_in (IPv4Address_new SYLAR_LITTLE_ENDIAN 4294967040 0)))].

Lemma interface_addresses_witness :
  GetInterFaceAddresses_of SYLAR_LITTLE_ENDIAN (Some demo_ifs) [] (str "eth0") AF_INET
  = Ok (true, [(AddrV4 (IPv4Address_new SYLAR_LITTLE_ENDIAN 3232235777 0), 24)]).
Proof.
  apply (interface_addresses SYLAR_LITTLE_ENDIAN demo_ifs [] (str "eth0") AF_INET); [|discriminate|discriminate].
  repeat constructor; vm_compute; try discriminate; reflexivity.
Defined.

Lemma address_order_witness :
  Address_lt SYLAR_LITTLE_ENDIAN (1, AddrV4 (IPv4Address_new SYLAR_LITTLE_ENDIAN 1 0)) (2, AddrV4 (IPv4Address_new SYLAR_LITTLE_ENDIAN 3 0))
  = Ok true.
Proof.
  apply (proj1 (proj2 (address_order SYLAR_LITTLE_ENDIAN (1, AddrV4 (IPv4Address_new SYLAR_LITTLE_ENDIAN 1 0))
    (3, AddrV4 (IPv4Address_new SYLAR_LITTLE_ENDIAN 2 0)) (2, AddrV4 (IPv4Address_new SYLAR_LITTLE_ENDIAN 3 0))
    ltac:(vm_compute; split; discriminate) ltac:(vm_compute; split; discriminate) ltac:(vm_compute; split; discriminate)
    eq_refl eq_refl))); vm_compute; reflexivity.
Defined.
