(* ===== verification/Uri.v ===== *)
(** * URIs ([include/http/uri.hh], [src/rl/uri.rl])

    The parts of a URI, its ports and its text.  [Uri::Create] and the grammar of
    [uri.rl] are in [UriParser].

    The text of a URI is read back by the splitting of RFC 3986, appendix B
    ([uri_text_splits]). *)
From Stdlib Require Import Ascii String.
From S2P Require Import Prelude Endian CString Http HttpSpec Address.

#[local] Open Scope string_scope.
#[local] Open Scope list_scope.
#[local] Open Scope Z_scope.

(** [src/include/http/uri.hh:154-162 Uri] *)
Record Uri := mkUri {
  m_scheme : bytes; m_userInfo : bytes; m_host : bytes; m_path : bytes; m_query : bytes; m_fragment : bytes;
  m_port : Z
}.

(** [src/src/rl/uri.rl:196-198 Uri::Uri] *)
Definition Uri_new : Uri := mkUri [] [] [] [] [] [] 0.

(** [src/include/http/uri.hh:46-46 Uri::getScheme] *)
Definition getScheme (u : Uri) : bytes := m_scheme u.

(** [src/include/http/uri.hh:51-51 Uri::getUserInfo] *)
Definition getUserInfo (u : Uri) : bytes := m_userInfo u.

(** [src/include/http/uri.hh:57-57 Uri::getHost] *)
Definition getHost (u : Uri) : bytes := m_host u.

(** [src/include/http/uri.hh:69-69 Uri::getQuery] *)
Definition getQuery (u : Uri) : bytes := m_query u.

(** [src/include/http/uri.hh:75-75 Uri::getFragment] *)
Definition getFragment (u : Uri) : bytes := m_fragment u.

(** [src/include/http/uri.hh:87-87 Uri::setScheme] *)
Definition setScheme (v : bytes) (u : Uri) : Uri :=
  mkUri v (m_userInfo u) (m_host u) (m_path u) (m_query u) (m_fragment u) (m_port u).

(** [src/include/http/uri.hh:93-93 Uri::setUserInfo] *)
Definition setUserInfo (v : bytes) (u : Uri) : Uri :=
  mkUri (m_scheme u) v (m_host u) (m_path u) (m_query u) (m_fragment u) (m_port u).

(** [src/include/http/uri.hh:99-99 Uri::setHost] *)
Definition setHost (v : bytes) (u : Uri) : Uri :=
  mkUri (m_scheme u) (m_userInfo u) v (m_path u) (m_query u) (m_fragment u) (m_port u).

(** [src/include/http/uri.hh:105-105 Uri::setPath] *)
Definition Uri_setPath (v : bytes) (u : Uri) : Uri :=
  mkUri (m_scheme u) (m_userInfo u) (m_host u) v (m_query u) (m_fragment u) (m_port u).

(** [src/include/http/uri.hh:111-111 Uri::setQuery] *)
Definition Uri_setQuery (v : bytes) (u : Uri) : Uri :=
  mkUri (m_scheme u) (m_userInfo u) (m_host u) (m_path u) v (m_fragment u) (m_port u).

(** [src/include/http/uri.hh:117-117 Uri::setFragment] *)
Definition Uri_setFragment (v : bytes) (u : Uri) : Uri :=
  mkUri (m_scheme u) (m_userInfo u) (m_host u) (m_path u) (m_query u) v (m_port u).

(** [src/include/http/uri.hh:123-123 Uri::setPort]
    [port] is an [int32_t]. *)
Definition setPort (v : Z) (u : Uri) : Uri :=
  mkUri (m_scheme u) (m_userInfo u) (m_host u) (m_path u) (m_query u) (m_fragment u) (s32 v).

(** [src/src/rl/uri.rl:201-212 Uri::isDefaultPort] *)
Definition isDefaultPort (u : Uri) : bool :=
  if m_port u =? 0 then true
  else if bytes_eqb (m_scheme u) (str "http") then m_port u =? 80
  else if bytes_eqb (m_scheme u) (str "https") then m_port u =? 443
  else false.

(** [src/src/rl/uri.rl:214-218 Uri::getPath] *)
Definition getPath (u : Uri) : bytes := match m_path u with [] => str "/" | p => p end.

(** [src/src/rl/uri.rl:220-230 Uri::getPort] *)
Definition getPort (u : Uri) : Z :=
  if negb (m_port u =? 0) then m_port u
  else if bytes_eqb (m_scheme u) (str "http") then 80
  else if bytes_eqb (m_scheme u) (str "https") then 443
  else m_port u.

(** [std::to_string] of an [int]. *)
Definition dec_signed (n : Z) : bytes := if n <? 0 then str "-" ++ dec (- n) else dec n.

(** [src/src/rl/uri.rl:232-244 Uri::dump] *)
Definition Uri_dump (u : Uri) : bytes :=
  m_scheme u ++ str "://" ++ m_userInfo u ++ (match m_userInfo u with [] => [] | _ => str "@" end)
  ++ m_host u ++ (if isDefaultPort u then [] else str ":" ++ dec_signed (m_port u))
  ++ getPath u
  ++ (match m_query u with [] => [] | _ => str "?" end) ++ m_query u
  ++ (match m_fragment u with [] => [] | _ => str "#" end) ++ m_fragment u.

(** [src/src/rl/uri.rl:246-251 Uri::toString] *)
Definition Uri_toString (u : Uri) : bytes := Uri_dump u.

Section Addresses.
Variable host : endian.

(** [setPort] on an address of either family takes a [uint16_t]. *)
Definition Address_setPort (port : Z) (a : Address) : Address :=
  match a with
  | AddrV4 a => AddrV4 (IPv4_setPort host (u16 port) a)
  | AddrV6 a => AddrV6 (IPv6_setPort host (u16 port) a)
  | a => a
  end.

(** [src/src/rl/uri.rl:253-260 Uri::createAddress]
    [lookup] is [Address::LookupAnyIPAddress] with its default arguments. *)
Definition createAddress (lookup : bytes -> option Address) (u : Uri) : option Address :=
  match lookup (m_host u) with
  | Some addr => Some (Address_setPort (getPort u) addr)
  | None => None
  end.
End Addresses.

(** ** Reading the text back

    The splitting of RFC 3986, appendix B: the scheme up to the first colon, the
    fragment after the first number sign, the query after the first question
    mark before it, the authority up to the first slash; in the authority the
    user before the at sign, the port after the colon that follows the host. *)

Definition after (c : Z) (s : bytes) : bytes * bytes := default (s, []) (split_at c s).

Definition split_path (s : bytes) : bytes * bytes :=
  match split_at 47 s with Some (a, p) => (a, 47 :: p) | None => (s, []) end.

(** A bracketed host may have colons. *)
Definition split_port (s : bytes) : bytes * bytes :=
  match s with
  | 91 :: s =>
      match split_at 93 s with
      | Some (h, 58 :: p) => (91 :: h ++ [93], p)
      | Some (h, _) => (91 :: h ++ [93], [])
      | None => (91 :: s, [])
      end
  | _ => after 58 s
  end.

Definition read_uri (s : bytes) : option Uri :=
  match split_at 58 s with
  | Some (scheme, 47 :: 47 :: s) =>
      let '(s, fragment) := after 35 s in
      let '(s, query) := after 63 s in
      let '(authority, path) := split_path s in
      let '(user, hostport) := match split_at 64 authority with Some x => x | None => ([], authority) end in
      let '(h, p) := split_port hostport in
      Some (mkUri scheme user h path query fragment (undec p))
  | _ => None
  end.

(** A host is a bracketed literal or has no colon. *)
Definition host_ok (h : bytes) : Prop :=
  47 ∉ h /\ 63 ∉ h /\ 35 ∉ h /\ 64 ∉ h
  /\ ((58 ∉ h /\ forall s, h <> 91 :: s) \/ exists s, h = 91 :: s ++ [93] /\ 93 ∉ s).

Definition uri_ok (u : Uri) : Prop :=
  58 ∉ m_scheme u
  /\ (47 ∉ m_userInfo u /\ 63 ∉ m_userInfo u /\ 35 ∉ m_userInfo u /\ 64 ∉ m_userInfo u)
  /\ host_ok (m_host u)
  /\ ((m_path u = [] \/ exists p, m_path u = 47 :: p) /\ 63 ∉ m_path u /\ 35 ∉ m_path u)
  /\ 35 ∉ m_query u /\ 0 <= m_port u < 2 ^ 31.

Lemma split_at_none c s : c ∉ s -> split_at c s = None.
Proof.
  induction s as [|x s IH]; intros Hc; [done|]. apply not_elem_of_cons in Hc as [Hx Hc].
  cbn [split_at]. by rewrite (proj2 (Z.eqb_neq x c)), IH by congruence.
Qed.

Lemma split_at_inv c s a b : split_at c s = Some (a, b) -> s = a ++ c :: b.
Proof.
  revert a. induction s as [|x s IH]; intros a; [done|]. cbn [split_at]. destruct (Z.eqb_spec x c) as [->|Hx].
  - by intros [= <- <-].
  - destruct (split_at c s) as [[a' b']|]; [|done]. intros [= <- <-]. by rewrite (IH a').
Qed.

(** What is printed only when it is not empty is read back, empty or not. *)
Lemma after_opt c s t : c ∉ s -> after c (s ++ (match t with [] => [] | _ => [c] end) ++ t) = (s, t).
Proof.
  intros Hc. unfold after. destruct t as [|x t].
  - by rewrite !app_nil_r, split_at_none.
  - cbn [app]. by rewrite split_at_spec.
Qed.

Definition port_sep (p : bytes) : bytes := match p with [] => [] | _ => 58 :: p end.

Lemma split_port_spec h (p : bytes) : host_ok h ->
  split_port (h ++ port_sep p) = (h, p).
Proof.
  intros (_ & _ & _ & _ & [[Hc Hb]|(s & -> & Hs)]).
  - assert (after 58 (h ++ port_sep p) = (h, p)) as Ha.
    { rewrite <-(after_opt 58 h p) by done. unfold port_sep. by destruct p. }
    unfold split_port. destruct h as [|x h]; [unfold port_sep; by destruct p|].
    destruct (Z.eq_dec x 91) as [->|Hx]; [by destruct (Hb h)|].
    cbn [app] in *. rewrite <-Ha.
    destruct x as [|x|]; try done. repeat (destruct x as [x|x|]; try done).
  - cbn [app]. unfold split_port. rewrite <-app_assoc. cbn [app].
    rewrite split_at_spec by done. unfold port_sep. by destruct p.
Qed.

(** The port as it is printed. *)
Definition port_text (u : Uri) : bytes := if isDefaultPort u then [] else dec (m_port u).

Lemma default_port u : isDefaultPort u = true ->
  getPort u = getPort (mkUri (m_scheme u) (m_userInfo u) (m_host u) (m_path u) (m_query u) (m_fragment u) 0).
Proof.
  unfold isDefaultPort, getPort. cbn [m_port m_scheme].
  destruct (m_port u =? 0) eqn:E0; cbn [negb Z.eqb].
  - apply Z.eqb_eq in E0. by rewrite E0.
  - destruct (bytes_eqb _ (str "http")); [by intros ->%Z.eqb_eq|].
    destruct (bytes_eqb _ (str "https")); [by intros ->%Z.eqb_eq|done].
Qed.

Definition user_text (user : bytes) : bytes := match user with [] => [] | _ => user ++ [64] end.

(** The text of a URI as its parts. *)
Lemma dump_parts u : 0 <= m_port u < 2 ^ 31 ->
  Uri_dump u = m_scheme u ++ 58 :: 47 :: 47 ::
    ((user_text (m_userInfo u)
      ++ m_host u ++ port_sep (port_text u)
      ++ getPath u)
     ++ (match m_query u with [] => [] | _ => [63] end) ++ m_query u)
    ++ (match m_fragment u with [] => [] | _ => [35] end) ++ m_fragment u.
Proof.
  intros Hp. unfold Uri_dump, port_text, dec_signed, user_text, port_sep. rewrite (proj2 (Z.ltb_ge _ _)) by lia.
  change (str "://") with [58; 47; 47]. change (str "@") with [64]. change (str ":") with [58].
  change (str "?") with [63]. change (str "#") with [35].
  f_equal. cbn [app]. do 3 f_equal. destruct (isDefaultPort u).
  - destruct (m_userInfo u); cbn [app]; by rewrite <-!app_assoc.
  - destruct (dec_spec (m_port u)) as (_ & Hne & _); [lia|].
    destruct (dec (m_port u)) eqn:E; [done|]. destruct (m_userInfo u); cbn [app]; rewrite <-?app_assoc; cbn [app]; by rewrite <-?app_assoc.
Qed.

Lemma port_text_no c u : 0 <= m_port u < 2 ^ 31 -> is_digit c = false -> c ∉ port_text u.
Proof.
  intros Hp Hc. unfold port_text. destruct (isDefaultPort u); [apply not_elem_of_nil|].
  apply dec_no; [lia|done].
Qed.

(** The authority and path of the text have no delimiter of what follows. *)
Lemma head_no c u : uri_ok u -> c = 63 \/ c = 35 ->
  c ∉ user_text (m_userInfo u) ++ m_host u
      ++ port_sep (port_text u) ++ getPath u.
Proof.
  intros (_ & (_ & Hu1 & Hu2 & _) & (_ & Hh1 & Hh2 & _) & (_ & Hp1 & Hp2) & _ & Hport) Hc.
  pose proof (port_text_no c u Hport ltac:(by destruct Hc; subst)) as Hpt.
  rewrite !not_elem_of_app. split_and!.
  - unfold user_text. destruct (m_userInfo u); [apply not_elem_of_nil|]. rewrite not_elem_of_app, list_elem_of_singleton.
    destruct Hc; subst; by split.
  - by destruct Hc; subst.
  - unfold port_sep. destruct (port_text u); [apply not_elem_of_nil|]. apply not_elem_of_cons. split; [by destruct Hc; subst|done].
  - unfold getPath. destruct (m_path u); [|by destruct Hc; subst]. change (str "/") with [47].
    rewrite list_elem_of_singleton. by destruct Hc; subst.
Qed.

(** The text of a well-formed URI is read back by the splitting of RFC 3986:
    the same scheme, user, host, query and fragment, and the path and port that
    the code uses. *)
Theorem uri_text_splits u : uri_ok u -> exists u',
  read_uri (Uri_toString u) = Some u'
  /\ getScheme u' = getScheme u /\ getUserInfo u' = getUserInfo u /\ getHost u' = getHost u
  /\ getPath u' = getPath u /\ getQuery u' = getQuery u /\ getFragment u' = getFragment u
  /\ getPort u' = getPort u.
Proof.
  intros Hu. pose proof Hu as (Hs & (Hu1 & _ & _ & Hu4) & Hh & (Hp & _ & _) & Hq & Hport).
  unfold Uri_toString. rewrite dump_parts by done. unfold read_uri. rewrite split_at_spec by done.
  rewrite after_opt; [|rewrite not_elem_of_app; split; [by apply head_no; [|right]|]; destruct (m_query u);
    [apply not_elem_of_nil|]; rewrite not_elem_of_app, list_elem_of_singleton; done].
  rewrite after_opt by (apply head_no; auto).
  set (user := m_userInfo u) in *. set (auth := m_host u ++ port_sep (port_text u)).
  assert (exists p, getPath u = 47 :: p) as [p Hpath].
  { unfold getPath. destruct Hp as [->|[p ->]]; [by exists []|by exists p]. }
  assert (47 ∉ auth /\ 64 ∉ auth) as [Ha1 Ha2].
  { destruct Hh as (H1 & _ & _ & H2 & _). unfold auth.
    pose proof (port_text_no 47 u Hport eq_refl). pose proof (port_text_no 64 u Hport eq_refl).
    split; apply not_elem_of_app; (split; [done|]); (unfold port_sep; destruct (port_text u); [apply not_elem_of_nil|]);
      by apply not_elem_of_cons. }
  replace (_ ++ m_host u ++ _ ++ getPath u) with ((user_text user ++ auth) ++ 47 :: p)
    by (unfold auth; by rewrite Hpath, <-!app_assoc).
  unfold split_path. rewrite split_at_spec
    by (rewrite not_elem_of_app; split; [|done]; unfold user_text; destruct user; [apply not_elem_of_nil|];
        rewrite not_elem_of_app, list_elem_of_singleton; done).
  assert (match split_at 64 (user_text user ++ auth) with
          | Some x => x | None => ([], user_text user ++ auth) end = (user, auth)) as ->.
  { unfold user_text. destruct user as [|x us]; [by rewrite split_at_none|]. rewrite <-app_assoc. change ([64] ++ auth) with (64 :: auth). by rewrite split_at_spec. }
  unfold auth. rewrite split_port_spec by done. eexists. split; [done|]. split_and!; try done.
  - unfold port_text. destruct (isDefaultPort u) eqn:Ed; [by rewrite (default_port u Ed)|].
    destruct (dec_spec (m_port u)) as (Hd & _); [lia|]. cbn [m_scheme m_port]. rewrite Hd.
    unfold getPort. done.
Qed.

Definition demo_uri : Uri :=
  mkUri (str "http") (str "me") (str "[::1]") [] (str "q=1") (str "top") 8080.

Lemma uri_text_splits_witness :
  Uri_toString demo_uri = str "http://me@[::1]:8080/?q=1#top" /\ exists u',
  read_uri (Uri_toString demo_uri) = Some u'
  /\ getScheme u' = getScheme demo_uri /\ getUserInfo u' = getUserInfo demo_uri /\ getHost u' = getHost demo_uri
  /\ getPath u' = getPath demo_uri /\ getQuery u' = getQuery demo_uri /\ getFragment u' = getFragment demo_uri
  /\ getPort u' = getPort demo_uri.
Proof.
  split; [reflexivity|]. apply (uri_text_splits demo_uri).
  assert (forall c (s : bytes), existsb (Z.eqb c) s = false -> c ∉ s) as Hno.
  { intros c s E Hin. apply not_true_iff_false in E. apply E, existsb_exists. exists c.
    split; [by apply list_elem_of_In|apply Z.eqb_refl]. }
  unfold uri_ok, host_ok. split_and!; try (apply Hno; reflexivity); try (vm_compute; discriminate); try (vm_compute; reflexivity).
  - right. exists (str "::1"). split; [reflexivity|apply Hno; reflexivity].
  - by left.
Defined.

(** The port of the address is cut to 16 bits: a URI with port 65616 connects to
    port 80. *)
Theorem port_truncated :
  let u := mkUri (str "http") [] (str "h") [] [] [] 65616 in
  getPort u = 65616
  /\ createAddress SYLAR_LITTLE_ENDIAN (fun _ => Some (AddrV4 (IPv4Address_new SYLAR_LITTLE_ENDIAN 0 0))) u
     = Some (AddrV4 (IPv4Address_new SYLAR_LITTLE_ENDIAN 0 80)).
Proof. by vm_compute. Qed.
