(* ===== verification/UriParser.v ===== *)
(** * The URI parser ([src/rl/uri.rl])

    The grammar of RFC 3986 with the actions of [uri.rl], and [Uri::Create], which
    runs it. *)
From Stdlib Require Import Ascii String.
From S2P Require Import Prelude Ragel CString Http HttpSpec Address Uri.

#[local] Open Scope string_scope.
#[local] Open Scope list_scope.
#[local] Open Scope Z_scope.

(** [src/src/rl/uri.rl:19-150 uri_parser] *)
Inductive uri_action :=
| U_marku | U_markh | U_save_scheme | U_save_port | U_save_userinfo | U_save_host | U_save_path | U_save_query
| U_save_fragment.

#[export] Instance uri_action_eq_dec : EqDecision uri_action.
Proof. solve_decision. Defined.

(** ** The grammar *)

Module UriGrammar.
#[local] Open Scope ragel_scope.
Notation re := (ragel uri_action).
#[local] Notation txt s := (lit (str s%string)).
#[local] Notation set s := (one_of (str s%string)).

(** [src/src/rl/uri.rl:14-14 sub_delims] *)
Definition sub_delims : Z -> bool := set "!$&'()*+,;=".

(** [src/src/rl/uri.rl:16-16 unreserved] *)
Definition unreserved : Z -> bool := either [alpha_char; digit_char; set "-._~"].

(** [src/src/rl/uri.rl:17-17 pct_encoded] *)
Definition pct_encoded : re := ch 37 • Chars xdigit_char • Chars xdigit_char.

(** [src/src/rl/uri.rl:29-29 scheme] *)
Definition scheme : re :=
  Leaving U_save_scheme
    (Entering U_marku (Chars alpha_char • Star (Chars (either [alpha_char; digit_char; set "+-."])))).

(** [src/src/rl/uri.rl:67-67 userinfo] *)
Definition userinfo : re := Star (Chars (either [unreserved; sub_delims; set ":"]) ∥ pct_encoded).

(** [src/src/rl/uri.rl:68-68 dec_octet]
    The [2] before [[0-4]] is not quoted: it is the character with the code 2. *)
Definition dec_octet : re :=
  Chars digit_char
  ∥ Chars (in_range 49 57) • Chars digit_char
  ∥ txt "1" • times 2 (Chars digit_char)
  ∥ ch 2 • Chars (in_range 48 52) • Chars digit_char
  ∥ txt "25" • Chars (in_range 48 53).

(** [src/src/rl/uri.rl:69-69 IPv4address] *)
Definition IPv4address : re := dec_octet • txt "." • dec_octet • txt "." • dec_octet • txt "." • dec_octet.

(** [src/src/rl/uri.rl:70-70 h16] *)
Definition h16 : re := between 1 4 (Chars xdigit_char).

(** [src/src/rl/uri.rl:71-71 ls32] *)
Definition ls32 : re := (h16 • txt ":" • h16) ∥ IPv4address.

(** [src/src/rl/uri.rl:72-72 IPv6address]
    The part [h16 ":"]. *)
Definition h16c : re := h16 • txt ":".

(** [src/src/rl/uri.rl:72-80 IPv6address] *)
Definition IPv6address : re :=
  times 6 h16c • ls32
  ∥ txt "::" • times 5 h16c • ls32
  ∥ opt h16 • txt "::" • times 4 h16c • ls32
  ∥ opt (times 1 h16c • h16) • txt "::" • times 3 h16c • ls32
  ∥ opt (times 2 h16c • h16) • txt "::" • times 2 h16c • ls32
  ∥ opt (times 3 h16c • h16) • txt "::" • times 1 h16c • ls32
  ∥ opt (times 4 h16c • h16) • txt "::" • ls32
  ∥ opt (times 5 h16c • h16) • txt "::" • h16
  ∥ opt (times 6 h16c • h16) • txt "::".

(** [src/src/rl/uri.rl:81-81 IPvFuture] *)
Definition IPvFuture : re :=
  txt "v" • plus (Chars xdigit_char) • txt "." • plus (Chars (either [unreserved; sub_delims; set ":"])).

(** [src/src/rl/uri.rl:82-82 IP_literal] *)
Definition IP_literal : re := txt "[" • (IPv6address ∥ IPvFuture) • txt "]".

(** [src/src/rl/uri.rl:83-83 reg_name] *)
Definition reg_name : re := Star (Chars (either [unreserved; sub_delims]) ∥ pct_encoded).

(** [src/src/rl/uri.rl:84-84 host] *)
Definition host : re := IP_literal ∥ IPv4address ∥ reg_name.

(** [src/src/rl/uri.rl:85-85 port] *)
Definition port : re := Star (Chars digit_char).

(** [src/src/rl/uri.rl:87-87 authority] *)
Definition authority : re :=
  Entering U_markh
    (opt (Leaving U_save_userinfo userinfo • txt "@") • Leaving U_save_host (Entering U_markh host)
     • opt (txt ":" • Leaving U_save_port (Entering U_markh port))).

(** [src/src/rl/uri.rl:109-109 pchar] *)
Definition pchar : re :=
  Chars (either [but any_char ascii_char; unreserved; sub_delims; set ":@"]) ∥ pct_encoded.

(** [src/src/rl/uri.rl:110-110 segment] *)
Definition segment : re := Star pchar.

(** [src/src/rl/uri.rl:111-111 segment_nz] *)
Definition segment_nz : re := plus pchar.

(** [src/src/rl/uri.rl:112-112 segment_nz_nc] *)
Definition segment_nz_nc : re :=
  plus (Chars (but (either [but any_char ascii_char; unreserved; sub_delims; set ":@"]) (set ":")) ∥ pct_encoded).

(** [src/src/rl/uri.rl:126-126 path_abempty] *)
Definition path_abempty : re := opt (txt "/" • segment) • Star (txt "/" • segment).

(** [src/src/rl/uri.rl:127-127 path_absolute] *)
Definition path_absolute : re := txt "/" • opt (segment_nz • Star (txt "/" • segment)).

(** [src/src/rl/uri.rl:128-128 path_noscheme] *)
Definition path_noscheme : re := segment_nz_nc • Star (txt "/" • segment).

(** [src/src/rl/uri.rl:129-129 path_rootless] *)
Definition path_rootless : re := segment_nz • Star (txt "/" • segment).

(** [src/src/rl/uri.rl:130-130 path_empty] *)
Definition path_empty : re := Eps.

(** [src/src/rl/uri.rl:152-152 query] *)
Definition query : re := Leaving U_save_query (Entering U_marku (Star (pchar ∥ Chars (set "/?")))).

(** [src/src/rl/uri.rl:153-153 fragment] *)
Definition fragment : re := Leaving U_save_fragment (Entering U_marku (Star (pchar ∥ Chars (set "/?")))).

(** [src/src/rl/uri.rl:155-155 hier_part] *)
Definition hier_part : re :=
  txt "//" • authority • Leaving U_save_path (Entering U_markh path_abempty)
  ∥ path_absolute ∥ path_rootless ∥ path_empty.

(** [src/src/rl/uri.rl:157-157 relative_part] *)
Definition relative_part : re := txt "//" • authority • path_abempty ∥ path_absolute ∥ path_noscheme ∥ path_empty.

(** [src/src/rl/uri.rl:158-158 relative_ref] *)
Definition relative_ref : re := relative_part • opt (txt "?" • query) • opt (txt "#" • fragment).

(** [src/src/rl/uri.rl:164-164 URI] *)
Definition URI : re := scheme • txt ":" • hier_part • opt (txt "?" • query) • opt (txt "#" • fragment).

(** [src/src/rl/uri.rl:165-165 URI_reference] *)
Definition URI_reference : re := URI ∥ relative_ref.

(** [src/src/rl/uri.rl:167-167 main] *)
Definition main : re := URI_reference.
End UriGrammar.

Definition uri_machine : automaton uri_action := automaton_of UriGrammar.main.

(** ** The parser *)

Section Create.
Variable uri_str : bytes.

(** [mark], which may be null, and the URI under construction. *)
Definition creating : Type := option Z * Uri.

(** [std::string(mark, fpc - mark)]; a null pointer with a length throws. *)
Definition marked (set : bytes -> Uri -> Uri) (p : Z) : M creating bool := fun u =>
  match fst u with
  | Some mark => (Ok false, (None, set (element uri_str mark (p - mark)) (snd u)))
  | None => (Err (Throw logic_error), u)
  end.

Definition keep_mark (mark : option Z) (m : M creating bool) : M creating bool := fun u =>
  match m u with
  | (r, (_, x)) => (r, (mark, x))
  end.

(** [src/src/rl/uri.rl:19-150 uri_parser]
    The code of the actions at the position [p]; [atoi] runs into the NUL after the
    text. *)
Definition uact (a : uri_action) (p : Z) : M creating bool := fun u =>
  let '(mark, uri) := u in
  match a with
  | U_marku | U_markh => (Ok false, (Some p, uri))
  | U_save_scheme => marked setScheme p u
  | U_save_port =>
      if bool_decide (mark = Some p) then (Ok false, (None, uri))
      else match mark with
           | Some m => (Ok false, (None, setPort (atoi (ptr_to uri_str m ++ [0])) uri))
           | None => (Err (Undef null_deref), u)
           end
  | U_save_userinfo => match mark with Some _ => marked setUserInfo p u | None => (Ok false, u) end
  | U_save_host => match mark with Some _ => keep_mark mark (marked setHost p) u | None => (Ok false, u) end
  | U_save_path => marked Uri_setPath p u
  | U_save_query => marked Uri_setQuery p u
  | U_save_fragment => marked Uri_setFragment p u
  end.

(** [src/src/rl/uri.rl:178-194 Uri::Create]
    The text is its own end of input; the actions at its end are executed unless
    the machine is in the error state, which has none. *)
Definition Create : result (option Uri) :=
  match (('(cs, p) ← exec uri_machine uact [0%N] 0 uri_str;
          _ ← run_acts uact (eof_acts uri_machine cs) p;
          mret (is_final uri_machine cs)) : M creating bool) (None, Uri_new) with
  | (Ok true, (_, uri)) => Ok (Some uri)
  | (Ok false, _) => Ok None
  | (Err e, _) => Err e
  end.
End Create.
