(* ===== verification/UriFamilies.v ===== *)
(** * The states of the URI parser

    The families of states in which the machine of [UriParser] reads the parts of
    a URI, and what characters do to them, as laws; [UriSpec] reads by the laws. *)
From Stdlib Require Import Ascii String.
From S2P Require Import Prelude Ragel CString Http Uri UriParser Http11 Http11Spec.

#[local] Open Scope string_scope.
#[local] Open Scope list_scope.
#[local] Open Scope Z_scope.

(** ** Characters *)

Definition scheme_char : Z -> bool := either [alpha_char; digit_char; one_of (str "+-.")].
Definition host_char : Z -> bool := either [UriGrammar.unreserved; UriGrammar.sub_delims].
Definition user_char : Z -> bool := either [host_char; Z.eqb 58].
(** After the first colon of a user. *)
Definition pass_first : Z -> bool := but user_char digit_char.

(** ** The laws *)

(** The states before the host, and in it. *)
Record host_families := mkHost { h_before : list (list N); h_in : list (list N) }.

Record uri_families := mkUriFamilies {
  um : automaton uri_action;
  u_scheme : list (list N); u_colon : list (list N);
  (** Without a user, and after one. *)
  u_alone : host_families; u_after : host_families;
  u_pass0 : list (list N); u_pass : list (list N);
  u_port0 : list (list N); u_port : list (list N); u_path : list (list N);
  u_query0 : list (list N); u_query : list (list N); u_frag0 : list (list N); u_frag : list (list N)
}.

Record host_laws (f : uri_families) (h : host_families) : Prop := {
  hl_host : moves (um f) (h_before h) (text_words host_char) [U_markh] (h_in h) = true;
  hl_host_on : quiet (um f) (h_in h) (text_words host_char) = true;
  hl_slash : moves (um f) (h_in h) [[47]] [U_save_host; U_markh] (u_path f) = true;
  hl_colon : moves (um f) (h_in h) [[58]] [U_save_host] (u_port0 f) = true;
  hl_no_slash : moves (um f) (h_before h) [[47]] [U_markh; U_save_host] (u_path f) = true;
  hl_no_colon : moves (um f) (h_before h) [[58]] [U_markh; U_save_host] (u_port0 f) = true
}.

(** The input may end, with the actions [acts]. *)
Definition ends_with (Mc : automaton uri_action) (F : list (list N)) (acts : list uri_action) : bool :=
  forallb (fun S => bool_decide (eof_acts Mc S = acts) && is_final Mc S) F.

Record uri_laws (f : uri_families) : Prop := {
  ul_scheme : moves (um f) [[0%N]] (chars_of alpha_char) [U_marku] (u_scheme f) = true;
  ul_scheme_on : quiet (um f) (u_scheme f) (chars_of scheme_char) = true;
  ul_colon : moves (um f) (u_scheme f) [[58]] [U_save_scheme] (u_colon f) = true;
  ul_slashes : moves (um f) (u_colon f) [[47; 47]] [] (h_before (u_alone f)) = true;
  ul_alone : host_laws f (u_alone f);
  ul_after : host_laws f (u_after f);
  ul_at : moves (um f) (h_in (u_alone f)) [[64]] [U_save_userinfo] (h_before (u_after f)) = true;
  ul_user_colon : moves (um f) (h_in (u_alone f)) [[58]] [U_save_host] (u_pass0 f) = true;
  ul_pass_none : moves (um f) (u_pass0 f) [[64]] [U_save_userinfo] (h_before (u_after f)) = true;
  ul_pass : moves (um f) (u_pass0 f) (text_words pass_first) [] (u_pass f) = true;
  ul_pass_on : quiet (um f) (u_pass f) (text_words user_char) = true;
  ul_pass_at : moves (um f) (u_pass f) [[64]] [U_save_userinfo] (h_before (u_after f)) = true;
  ul_port : moves (um f) (u_port0 f) (chars_of digit_char) [U_markh] (u_port f) = true;
  ul_port_on : quiet (um f) (u_port f) (chars_of digit_char) = true;
  ul_port_end : moves (um f) (u_port f) [[47]] [U_save_port; U_markh] (u_path f) = true;
  ul_path : quiet (um f) (u_path f) (text_words path_char) = true;
  ul_path_query : moves (um f) (u_path f) [[63]] [U_save_path] (u_query0 f) = true;
  ul_path_frag : moves (um f) (u_path f) [[35]] [U_save_path] (u_frag0 f) = true;
  ul_path_end : ends_with (um f) (u_path f) [U_save_path] = true;
  ul_query : moves (um f) (u_query0 f) (text_words query_char) [U_marku] (u_query f) = true;
  ul_query_on : quiet (um f) (u_query f) (text_words query_char) = true;
  ul_query_frag : moves (um f) (u_query f) [[35]] [U_save_query] (u_frag0 f) = true;
  ul_query_end : ends_with (um f) (u_query f) [U_save_query] = true;
  ul_frag : moves (um f) (u_frag0 f) (text_words query_char) [U_marku] (u_frag f) = true;
  ul_frag_on : quiet (um f) (u_frag f) (text_words query_char) = true;
  ul_frag_end : ends_with (um f) (u_frag f) [U_save_fragment] = true
}.

(** ** Checking the laws *)

#[local] Strategy opaque [andb moves quiet moves_text quiet_text ends_with].

Definition host_check (f : uri_families) (h : host_families) : bool :=
  moves_text (um f) (h_before h) host_char [U_markh] (h_in h)
  && quiet_text (um f) (h_in h) host_char
  && moves (um f) (h_in h) [[47]] [U_save_host; U_markh] (u_path f)
  && moves (um f) (h_in h) [[58]] [U_save_host] (u_port0 f)
  && moves (um f) (h_before h) [[47]] [U_markh; U_save_host] (u_path f)
  && moves (um f) (h_before h) [[58]] [U_markh; U_save_host] (u_port0 f).

Lemma host_check_spec f h : host_check f h = true -> host_laws f h.
Proof. intros H. unfold host_check in H. split_checks H. constructor; by_check. Qed.

Definition uri_check (f : uri_families) : bool :=
  moves (um f) [[0%N]] (chars_of alpha_char) [U_marku] (u_scheme f)
  && quiet (um f) (u_scheme f) (chars_of scheme_char)
  && moves (um f) (u_scheme f) [[58]] [U_save_scheme] (u_colon f)
  && moves (um f) (u_colon f) [[47; 47]] [] (h_before (u_alone f))
  && host_check f (u_alone f) && host_check f (u_after f)
  && moves (um f) (h_in (u_alone f)) [[64]] [U_save_userinfo] (h_before (u_after f))
  && moves (um f) (h_in (u_alone f)) [[58]] [U_save_host] (u_pass0 f)
  && moves (um f) (u_pass0 f) [[64]] [U_save_userinfo] (h_before (u_after f))
  && moves_text (um f) (u_pass0 f) pass_first [] (u_pass f)
  && quiet_text (um f) (u_pass f) user_char
  && moves (um f) (u_pass f) [[64]] [U_save_userinfo] (h_before (u_after f))
  && moves (um f) (u_port0 f) (chars_of digit_char) [U_markh] (u_port f)
  && quiet (um f) (u_port f) (chars_of digit_char)
  && moves (um f) (u_port f) [[47]] [U_save_port; U_markh] (u_path f)
  && quiet_text (um f) (u_path f) path_char
  && moves (um f) (u_path f) [[63]] [U_save_path] (u_query0 f)
  && moves (um f) (u_path f) [[35]] [U_save_path] (u_frag0 f)
  && ends_with (um f) (u_path f) [U_save_path]
  && moves_text (um f) (u_query0 f) query_char [U_marku] (u_query f)
  && quiet_text (um f) (u_query f) query_char
  && moves (um f) (u_query f) [[35]] [U_save_query] (u_frag0 f)
  && ends_with (um f) (u_query f) [U_save_query]
  && moves_text (um f) (u_frag0 f) query_char [U_marku] (u_frag f)
  && quiet_text (um f) (u_frag f) query_char
  && ends_with (um f) (u_frag f) [U_save_fragment].

Lemma uri_check_spec f : uri_check f = true -> uri_laws f.
Proof.
  intros H. unfold uri_check in H. split_checks H.
  constructor; first [by_check|match goal with H : host_check ?f ?h = true |- host_laws ?f ?h => exact (host_check_spec f h H) end].
Qed.

#[local] Strategy transparent [andb moves quiet moves_text quiet_text ends_with].

(** ** The machine of the grammar *)

(** The state after the beginning of a URI. *)
Definition uri_text (w : string) : list N := fold_left (fun S c => snd (step uri_machine S c)) (str w) [0%N].
Definition uri_closure (ws : list (list Z)) (todo : list (list N)) : list (list N) := closure uri_machine 100000 ws todo [].
Definition host_states (auth : string) : list (list N) :=
  uri_closure (sample_words host_char) (map (fun s => uri_text (auth ++ s)%string) ["a"; "0"; "1"; "2"; "3"; "%20"]).

(** Everything is computed once. *)
Definition alone_states : list (list N) := Eval vm_compute in host_states "a://".
Definition after_states : list (list N) := Eval vm_compute in host_states "a://u@".
Definition path_states : list (list N) := Eval vm_compute in
  uri_closure (sample_words path_char) (map uri_text ["a://u/"; "a:///"; "a://u@/"; "a://u@u/"; "a://u:1/"; "a://u@u:1/"]).
Definition query_states : list (list N) := Eval vm_compute in
  uri_closure (sample_words query_char) (map uri_text ["a://u/?a"; "a://u/?%20"]).
Definition frag_states : list (list N) := Eval vm_compute in
  uri_closure (sample_words query_char) (map uri_text ["a://u/#a"; "a://u/?a#a"]).
Definition pass_states : list (list N) := Eval vm_compute in
  uri_closure (sample_words user_char) (map uri_text ["a://u:a"; "a://u:%20"; "a://u::"]).

Definition computed_families : uri_families := {|
  um := uri_machine;
  u_scheme := uri_closure (chars_of scheme_char) [uri_text "a"];
  u_colon := [uri_text "a:"];
  u_alone := mkHost [uri_text "a://"] alone_states;
  u_after := mkHost [uri_text "a://u@"] after_states;
  u_pass0 := [uri_text "a://u:"];
  u_pass := pass_states;
  u_port0 := map uri_text ["a://u:"; "a://:"; "a://u@:"; "a://u@u:"];
  u_port := uri_closure (chars_of digit_char) (map uri_text ["a://u:1"; "a://:1"; "a://u@:1"; "a://u@u:1"]);
  u_path := path_states;
  u_query0 := [uri_text "a://u/?"];
  u_query := query_states;
  u_frag0 := [uri_text "a://u/#"; uri_text "a://u/?a#"];
  u_frag := frag_states
|}.

Lemma computed_laws : uri_laws computed_families.
Proof. apply uri_check_spec. vm_compute. reflexivity. Qed.
