(* ===== verification/HttpConnection.v ===== *)
(** * The HTTP client ([src/src/http_connection.cc])

    Receiving a response over a stream, with a body given by its length or in
    chunks; sending a request; building the request of [DoRequest].  As in the
    session, [pending] are the bytes of the receive buffer not parsed yet. *)
From Stdlib Require Import Ascii String.
From S2P Require Import Prelude CString Http HttpSpec Stream HttpParser HttpSession.

#[local] Open Scope string_scope.
#[local] Open Scope list_scope.
#[local] Open Scope Z_scope.

Section Connections.
Context {P : Type} `{ResponseAutomaton P} {T : Type} `{Stream T}.
Variable lexical_cast : bytes -> option Z.

(** One read of the head or of a chunk header: append to [pending], parse, and
    give up on an error or a full buffer.  The parser sees a NUL after the
    data. *)
Definition read_and_parse (buffer_size : Z) (chunck : bool) (pending : bytes) (p : HttpResponseParser P)
    : M T (option (bytes * HttpResponseParser P)) :=
  '(read_size, bs) ← stream_read (u64 (buffer_size - Z.of_nat (length pending)));
  if read_size <=? 0 then close_null else
  let '(nparse, rest, p) := rsp_execute (pending ++ bs) chunck p in
  if rsp_hasError p then close_null else
  if Z.of_nat (length rest) =? s32 buffer_size then close_null else
  mret (Some (rest, p)).

(** [src/src/http_connection.cc:41-69 HttpConnection::recvResponse]
    The loops over reads, of the head ([chunck] false) and, at lines 78-101, of
    a chunk header ([chunck] true). *)
Fixpoint recv_until_finished (fuel : nat) (buffer_size : Z) (chunck : bool) (pending : bytes)
    (p : HttpResponseParser P) : M T (option (bytes * HttpResponseParser P)) :=
  match fuel with
  | O => fail OutOfFuel
  | S fuel =>
      x ← read_and_parse buffer_size chunck pending p;
      match x with
      | None => mret None
      | Some (rest, p) =>
          if negb (rsp_isFinished p =? 0) then mret (Some (rest, p))
          else recv_until_finished fuel buffer_size chunck rest p
      end
  end.

(** [src/src/http_connection.cc:74-148 HttpConnection::recvResponse]
    The chunks; one unit of fuel per chunk. *)
Fixpoint recv_chunks (fuel : nat) (buffer_size : Z) (pending body : bytes) (p : HttpResponseParser P)
    : M T (option HttpResponse) :=
  match fuel with
  | O => fail OutOfFuel
  | S fuel' =>
      h ← recv_until_finished fuel buffer_size true pending p;
      match h with
      | None => mret None
      | Some (pending, p) =>
          let chunk_size := rs_content_len (sp_parser p) in
          if chunk_size =? 0 then mret (Some (rsp_setBody body (sp_data p))) else
          let taken := if Z.of_nat (length pending) >? 0
                       then take (Z.to_nat (Z.min (Z.of_nat (length pending)) (u64 chunk_size))) pending
                       else [] in
          let body := body ++ taken in
          let need := chunk_size - Z.of_nat (length taken) in
          let pending := drop (length taken) pending in
          more ← (if need >? 0 then
                    '(r, buf) ← readFixSize fuel (repeat 0 (Z.to_nat need)) need;
                    if r <=? 0 then close_null else mret (Some buf)
                  else mret (Some []));
          match more with
          | None => mret None
          | Some buf =>
              '(r, _) ← readFixSize fuel [0; 0] 2;
              if r <=? 0 then close_null else
              if rs_chunks_done (sp_parser p) then mret (Some (rsp_setBody (body ++ buf) (sp_data p)))
              else recv_chunks fuel' buffer_size pending (body ++ buf) p
          end
      end
  end.

(** [src/src/http_connection.cc:149-174 HttpConnection::recvResponse]
    A body of known length. *)
Definition recv_sized (fuel : nat) (pending : bytes) (p : HttpResponseParser P) : M T (option HttpResponse) :=
  let content_size := s64 (rsp_getContentLength lexical_cast p) in
  if content_size >? 0 then
    let need := s32 content_size in
    let taken := take (Z.to_nat (Z.min need (Z.of_nat (length pending)))) pending in
    let need := need - Z.of_nat (length taken) in
    if negb (need =? 0) then
      '(r, buf) ← readFixSize fuel (repeat 0 (Z.to_nat need)) need;
      if r <=? 0 then close_null else mret (Some (rsp_setBody (taken ++ buf) (sp_data p)))
    else mret (Some (rsp_setBody taken (sp_data p)))
  else if content_size =? 0 then mret (Some (rsp_setBody [] (sp_data p)))
  else mret (Some (sp_data p)).

(** [src/src/http_connection.cc:30-176 HttpConnection::recvResponse] *)
Definition recvResponse (fuel : nat) (buffer_size : Z) : M T (option HttpResponse) :=
  h ← recv_until_finished fuel buffer_size false [] HttpResponseParser_new;
  match h with
  | None => mret None
  | Some (pending, p) =>
      if rs_chunked (sp_parser p) then recv_chunks fuel buffer_size pending [] p
      else recv_sized fuel pending p
  end.

(** [src/src/http_connection.cc:178-183 HttpConnection::sendRequest] *)
Definition sendRequest (fuel : nat) (req : HttpRequest) : M T Z :=
  let data := HttpRequest_dump req in
  writeFixSize fuel (data ++ [0]) (Z.of_nat (length data)).
End Connections.

(** [src/src/http_connection.cc:247-265 HttpConnection::DoRequest]
    The user's headers, in the order of their map, and the host.  The same loop
    is at lines 463-487, with the virtual host. *)
Fixpoint add_headers (headers : list (bytes * bytes)) (has_host : bool) (req : HttpRequest)
    : bool * HttpRequest :=
  match headers with
  | [] => (has_host, req)
  | (k, v) :: headers =>
      if is_connection k then
        add_headers headers has_host
          (if strcasecmp v (str "keep-alive") =? 0 then setClose false req else req)
      else
        let has_host := if negb has_host && (strcasecmp k (str "host") =? 0)
                        then match v with [] => false | _ => true end else has_host in
        add_headers headers has_host (setHeader k v req)
  end.

(** The request a client sends: [host] is the [Host] header when the user gives
    none. *)
Definition finish_request (headers : list (bytes * bytes)) (host body : bytes) (req : HttpRequest)
    : HttpRequest :=
  let '(has_host, req) := add_headers headers false req in
  setBody body (if has_host then req else setHeader (str "Host") host req).

(** [src/src/http_connection.cc:237-269 HttpConnection::DoRequest]
    The request built from the parts of the URI. *)
Definition DoRequest_request (method : HttpMethod) (path query fragment host : bytes)
    (headers : list (bytes * bytes)) (body : bytes) : HttpRequest :=
  finish_request headers host body
    (setMethod method (setFragment fragment (setQuery query (setPath path (HttpRequest_new 17 false))))).

(** [src/src/http_connection.cc:453-491 HttpConnectionPool::doRequest]
    The request of the pool. *)
Definition pool_request (method : HttpMethod) (url host vhost : bytes) (headers : list (bytes * bytes))
    (body : bytes) : HttpRequest :=
  finish_request headers (match vhost with [] => host | _ => vhost end) body
    (setClose false (setMethod method (setPath url (HttpRequest_new 17 false)))).

(** [src/include/http/http_connection.hh:21-32 HttpResult::Error] *)
Inductive Error :=
| R_OK | INVAILD_URL | INVAILD_HOST | CONNECT_FAIL | SEND_CLOSE_BY_PEER | SEND_SOCKET_ERROR
| TIMEOUT | CREATE_SOCKET_ERROR | POOL_GET_CONNECTION | POOL_INVAILD_CONNECTION.

(** [src/include/http/http_connection.hh:34-43 HttpResult]
    Without the error text. *)
Definition HttpResult : Type := Error * option HttpResponse.

Section Exchange.
Context {P : Type} `{ResponseAutomaton P} {T : Type} `{Stream T}.
Variable lexical_cast : bytes -> option Z.

(** [src/src/http_connection.cc:299-317 HttpConnection::DoRequest]
    Send the request and receive the response on a connection; the same at lines
    521-553 on a connection of the pool. *)
Definition exchange (fuel : nat) (buffer_size : Z) (req : HttpRequest) : M T HttpResult :=
  rt ← sendRequest fuel req;
  if rt =? 0 then mret (SEND_CLOSE_BY_PEER, None) else
  if rt <? 0 then mret (SEND_SOCKET_ERROR, None) else
  rsp ← recvResponse lexical_cast fuel buffer_size;
  match rsp with
  | None => mret (TIMEOUT, None)
  | Some rsp => mret (R_OK, Some rsp)
  end.
End Exchange.
