(* ===== verification/HttpConnectionSpec.v ===== *)
(** * What the HTTP client promises

    A response serialised by the server arrives as it was sent
    ([recvResponse_delivers]); the request built for a URL names its host
    ([request_names_host]); a chunked response needs a further segment after
    its head ([chunked_needs_more]). *)
From Stdlib Require Import Ascii String.
From S2P Require Import Prelude CString Http HttpSpec Stream HttpParser HttpSession HttpConnection.

#[local] Open Scope string_scope.
#[local] Open Scope list_scope.
#[local] Open Scope Z_scope.

(** ** The head of a serialised response *)

Definition reason_of (r : HttpResponse) : bytes :=
  match rs_reason r with [] => HttpStatusToString (rs_status r) | s => s end.

Definition status_part (r : HttpResponse) : bytes := dec (u32 (rs_status r)) ++ [32] ++ reason_of r ++ crlf.

Definition response_head (r : HttpResponse) : bytes :=
  dump_version (rs_version r) ++ [32] ++ status_part r
  ++ concat (map dump_field (kept (rs_headers r) ++ connection_field (rs_close r) :: length_fields (rs_body r)))
  ++ crlf.

Lemma response_dump_head r : HttpResponse_dump r = response_head r ++ rs_body r.
Proof.
  unfold HttpResponse_dump, response_head, status_part, reason_of. change (str " ") with [32].
  rewrite dump_headers_kept, dump_body_fields, map_app, concat_app. cbn [map concat].
  rewrite <-!app_assoc. done.
Qed.

Definition response_fields (r : HttpResponse) : list (bytes * bytes) :=
  kept (rs_headers r) ++ connection_field (rs_close r) :: length_fields (rs_body r).

Definition is_close (kv : bytes * bytes) : bool :=
  is_connection (fst kv) && (strcasecmp (snd kv) (str "close") =? 0).

Definition is_chunked (kv : bytes * bytes) : bool :=
  (strcasecmp (fst kv) (str "transfer-encoding") =? 0) && (strcasecmp (snd kv) (str "chunked") =? 0).

(** The callbacks for fields, with the flag that [Connection: close] sets after its
    line. *)
Fixpoint field_reports (close : bool) (fs : list (bytes * bytes)) : list (response_event * bool) :=
  match fs with
  | [] => []
  | kv :: fs => (RvField (fst kv) (snd kv), close) :: field_reports (close || is_close kv) fs
  end.

Definition response_events (r : HttpResponse) (data : bytes) : list (response_event * bool) :=
  [(RvVersion data 8, false);
   (RvStatus (drop (length (dump_version (rs_version r) ++ [32])) data), false);
   (RvReason (reason_of r), false)]
  ++ field_reports false (response_fields r)
  ++ [(RvHeaderDone, rs_close r)].

Definition rsp_received_headers (r : HttpResponse) : MapType :=
  fold_left (fun m kv => map_set (fst kv) (snd kv) m) (response_fields r) [].

(** The response the client gets. *)
Definition rsp_received (r : HttpResponse) (body : bytes) : HttpResponse :=
  mkResponse (rs_status r) (rs_version r) (rs_close r) body (reason_of r) (rsp_received_headers r).

Definition rsp_sendable (r : HttpResponse) : Prop :=
  (rs_version r = 16 \/ rs_version r = 17) /\ 0 <= rs_status r < 2 ^ 31
  /\ Forall (fun kv => fst kv <> []) (rs_headers r) /\ sorted_map (rs_headers r)
  /\ map_find (str "content-length") (rs_headers r) = None /\ Z.of_nat (length (rs_body r)) < 2 ^ 31.

(** ** The callbacks *)

Lemma rsp_insert_headers fs : forall m, sorted_map m ->
  sorted_map (fold_left (fun m kv => map_set (fst kv) (snd kv) m) fs m)
  /\ abs (fold_left (fun m kv => map_set (fst kv) (snd kv) m) fs m) = insert_fields fs (abs m).
Proof.
  induction fs as [|kv fs IH]; intros m Hm; [done|]. cbn [fold_left].
  destruct (IH (map_set (fst kv) (snd kv) m)) as [H1 H2]; [by apply map_set_sorted|].
  split; [done|]. by rewrite H2, (map_set_abs _ _ _ None).
Qed.

(** The header map the client builds. *)
Lemma reported_lookup r k : sorted_map (rs_headers r) -> k <> fold_case (str "connection") ->
  abs (rsp_received_headers r) !! k
  = if decide (k = fold_case (str "content-length") /\ rs_body r <> [])
    then Some (dec (Z.of_nat (length (rs_body r)))) else abs (rs_headers r) !! k.
Proof.
  intros Hs Hk. unfold rsp_received_headers.
  destruct (rsp_insert_headers (response_fields r) []) as [_ ->]; [done|].
  unfold response_fields, insert_fields. rewrite fold_left_app.
  cbn [fold_left]. fold (insert_fields (kept (rs_headers r)) (abs [])).
  set (m1 := insert_fields (kept (rs_headers r)) (abs [])).
  set (m2 := <[_ := _]> m1).
  assert (m2 !! k = abs (rs_headers r) !! k) as Hm2.
  { unfold m2. change (fold_case (fst (connection_field (rs_close r)))) with (fold_case (str "connection")).
    rewrite lookup_insert_ne by done.
    unfold m1. rewrite (insert_sorted _ None) by by apply kept_sorted.
    rewrite kept_lookup by done. by destruct (abs (rs_headers r) !! k). }
  destruct (rs_body r) as [|b body] eqn:Eb; cbn [length_fields fold_left fst snd].
  - rewrite decide_False by tauto. done.
  - change (fold_case (str "Content-Length")) with (fold_case (str "content-length")).
    destruct (decide (k = fold_case (str "content-length"))) as [->|Hne].
    + rewrite lookup_insert_eq, decide_True by done. done.
    + rewrite lookup_insert_ne by done. rewrite (decide_False (P := _ /\ _)) by tauto. done.
Qed.

Lemma rsp_received_getHeaders r body k def :
  rsp_sendable r -> ~ same_key k (str "connection") -> ~ same_key k (str "content-length") ->
  rsp_getHeaders (rsp_received r body) k def = rsp_getHeaders r k def.
Proof.
  intros (_ & _ & _ & Hsr & _) H1 H2. unfold rsp_getHeaders, get_or. cbn [rsp_received rs_headers].
  destruct (rsp_insert_headers (response_fields r) []) as [Hs _]; [done|].
  rewrite (map_find_abs _ (rsp_received_headers r) Hs), map_find_abs, reported_lookup by done.
  by rewrite decide_False by (by intros [? _]).
Qed.

Section Events.
Context {P : Type} `{ResponseAutomaton P}.

Lemma rsp_fields_fold fs : Forall (fun kv => fst kv <> []) fs -> forall c (p : HttpResponseParser P),
  fold_left on_response_event (field_reports c fs) p
  = mkSP (sp_parser p) (rsp_setHeaders (fold_left (fun m kv => map_set (fst kv) (snd kv) m) fs
      (rs_headers (sp_data p))) (sp_data p)) (sp_error p).
Proof.
  induction 1 as [|kv fs Hn _ IH]; intros c p; [by destruct p as [? [] ?]|].
  cbn [field_reports fold_left]. rewrite IH. by destruct kv as [[|x k] v].
Qed.

Lemma response_fields_nonempty r : Forall (fun kv => fst kv <> []) (rs_headers r) ->
  Forall (fun kv => fst kv <> []) (response_fields r).
Proof.
  intros Hh. apply Forall_app. split; [|constructor; [done|]].
  - rewrite Forall_forall in *. intros kv Hkv. apply list_elem_of_filter in Hkv as [_ Hkv]. auto.
  - by destruct (rs_body r); repeat constructor.
Qed.

Lemma response_events_effect r (a : P) b :
  rsp_sendable r ->
  fold_left on_response_event (response_events r (response_head r ++ b))
    (mkSP a (HttpResponse_new 17 false) 0) = mkSP a (rsp_received r []) 0.
Proof.
  intros (Hv & Hst & Hne & _). unfold response_events. rewrite !fold_left_app.
  cbn [fold_left on_response_event fst snd].
  assert (drop (length (dump_version (rs_version r) ++ [32])) (response_head r ++ b)
    = dec (rs_status r) ++ 32 :: (reason_of r ++ crlf ++ concat (map dump_field
        (kept (rs_headers r) ++ connection_field (rs_close r) :: length_fields (rs_body r))) ++ crlf ++ b)) as ->.
  { unfold response_head, status_part.
    replace ((dump_version (rs_version r) ++ [32] ++ (dec (u32 (rs_status r)) ++ [32] ++ reason_of r ++ crlf)
      ++ concat (map dump_field (kept (rs_headers r) ++ connection_field (rs_close r) :: length_fields (rs_body r)))
      ++ crlf) ++ b) with ((dump_version (rs_version r) ++ [32]) ++ dec (u32 (rs_status r)) ++ [32] ++ reason_of r
      ++ crlf ++ concat (map dump_field (kept (rs_headers r) ++ connection_field (rs_close r)
      :: length_fields (rs_body r))) ++ crlf ++ b) by (by rewrite <-!app_assoc).
    rewrite drop_app_length, u32_small by lia. done. }
  rewrite rsp_fields_fold by by apply response_fields_nonempty.
  unfold on_response_status. rewrite atoi_dec by (done || lia).
  assert (on_response_version (response_head r ++ b) 8 (mkSP a (HttpResponse_new 17 false) 0)
    = mkSP a (HttpResponse_new (rs_version r) false) 0) as ->.
  { unfold response_head. rewrite <-app_assoc. destruct Hv as [-> | ->]; reflexivity. }
  done.
Qed.
End Events.

(** ** Delivery *)

Section Deliver.
Context {P : Type} `{ResponseAutomaton P}.
Variable lexical_cast : bytes -> option Z.
Hypothesis cast_dec : forall n, 0 <= n < 2 ^ 31 -> lexical_cast (dec n) = Some n.

(** The automaton has taken in the head of [r] with [b1] left of the segment. *)
Definition head_parsed (r : HttpResponse) (b1 : bytes) (p' : P) : Prop :=
  rs_execute (rs_init rs_zero) (response_head r ++ b1)
    = (p', response_events r (response_head r ++ b1), Z.of_nat (length (response_head r)))
  /\ rs_has_error p' = false /\ rs_finish p' = 1.

Lemma response_head_nonempty r : (0 < length (response_head r))%nat.
Proof. unfold response_head. rewrite !length_app. cbn [length]. lia. Qed.

Lemma recv_head_rsp r b1 cs out fuel buffer_size (p' : P) :
  rsp_sendable r -> head_parsed r b1 p' ->
  Z.of_nat (length (response_head r ++ b1)) <= buffer_size < 2 ^ 31 -> (0 < fuel)%nat ->
  recv_until_finished fuel buffer_size false [] HttpResponseParser_new
    (peer_with ((response_head r ++ b1) :: cs) out)
  = (Ok (Some (b1, mkSP p' (rsp_received r []) 0)), peer_with cs out).
Proof.
  intros Hr (Hex & Herr & Hfin) Hbuf Hf. pose proof (response_head_nonempty r) as Hpos.
  rewrite length_app in Hbuf. destruct fuel as [|fuel]; [lia|].
  cbn [recv_until_finished]. unfold read_and_parse, mbind, M_bind, stream_read.
  cbn [length Z.of_nat]. rewrite Z.sub_0_r, u64_small by lia.
  rewrite peer_read;
    [|intros E; apply (f_equal length) in E; rewrite length_app in E; cbn in E; lia|rewrite length_app; lia].
  rewrite (proj2 (Z.leb_gt _ _)) by (rewrite length_app; lia).
  unfold rsp_execute. cbn [HttpResponseParser_new sp_parser sp_data sp_error app].
  rewrite Hex, response_events_effect, Nat2Z.id, drop_app_length by done.
  unfold rsp_hasError, rsp_isFinished. cbn [sp_error sp_parser]. rewrite Herr.
  cbn [Z.eqb negb orb]. rewrite s32_small, (proj2 (Z.eqb_neq (Z.of_nat (length b1)) _)) by lia.
  unfold mret, M_ret, rsp_isFinished. cbn [sp_parser]. rewrite Hfin. done.
Qed.

Lemma rsp_received_length r (a : P) : rsp_sendable r ->
  rsp_getContentLength lexical_cast (mkSP a (rsp_received r []) 0) = Z.of_nat (length (rs_body r)).
Proof.
  intros (_ & _ & _ & Hsr & Hcl & Hlen).
  unfold rsp_getContentLength, getAs. cbn [sp_data rs_headers rsp_received].
  destruct (rsp_insert_headers (response_fields r) []) as [Hs _]; [done|].
  rewrite (map_find_abs _ (rsp_received_headers r) Hs).
  rewrite reported_lookup by (done || (vm_compute; discriminate)).
  rewrite map_find_abs in Hcl by done. destruct (rs_body r) as [|x b] eqn:Eb.
  - rewrite decide_False by tauto. by rewrite Hcl.
  - rewrite decide_True by done. by rewrite cast_dec by lia.
Qed.

Lemma rsp_recv_delivers r b1 cs later out fuel buffer_size (p' : P) :
  rsp_sendable r -> head_parsed r b1 p' -> rs_chunked p' = false ->
  Forall (fun c => c <> []) cs -> (response_head r ++ b1) ++ concat cs = HttpResponse_dump r ->
  Z.of_nat (length (response_head r ++ b1)) <= buffer_size < 2 ^ 31 -> (length cs < fuel)%nat ->
  recvResponse lexical_cast fuel buffer_size (peer_with ((response_head r ++ b1) :: cs ++ later) out)
  = (Ok (Some (rsp_received r (rs_body r))), peer_with later out).
Proof.
  intros Hr Hh Hch Hcs Hmsg Hbuf Hf.
  rewrite response_dump_head, <-app_assoc in Hmsg. apply app_inv_head in Hmsg.
  unfold recvResponse. unfold mbind at 1, M_bind at 1.
  rewrite (recv_head_rsp r b1 (cs ++ later) out fuel buffer_size p' Hr Hh Hbuf) by lia.
  cbn [sp_parser]. rewrite Hch. unfold recv_sized. rewrite rsp_received_length by done.
  destruct Hr as (_ & _ & _ & _ & _ & Hlen).
  set (n := Z.of_nat (length (rs_body r))) in *.
  assert (s64 n = n) as ->.
  { unfold s64. rewrite <-(Z.mod_small n (2 ^ 64)) at 1 by lia. apply sgn_mod; lia. }
  assert (length b1 + length (concat cs) = Z.to_nat n)%nat as Hl
    by (rewrite <-length_app, Hmsg; unfold n; lia).
  rewrite Z.gtb_ltb. destruct (Z.ltb_spec 0 n) as [Hn|Hn].
  - rewrite s32_small, Z.min_r, Nat2Z.id, take_ge by lia.
    destruct (Z.eqb_spec (n - Z.of_nat (length b1)) 0) as [Hneed|Hneed]; cbn [negb].
    + assert (concat cs = []) as Hnil by (apply length_zero_iff_nil; lia).
      rewrite Hnil, app_nil_r in Hmsg. by rewrite (no_segments _ Hcs Hnil), Hmsg.
    + unfold mbind, M_bind.
      pose proof (readFixSize_ok cs later out (repeat 0 (Z.to_nat (n - Z.of_nat (length b1)))) fuel Hcs) as Hrd.
      rewrite repeat_length, Z2Nat.id in Hrd by lia. rewrite Hrd by lia.
      by rewrite (proj2 (Z.leb_gt _ 0)), Hmsg by lia.
  - assert (rs_body r = []) as Hb by (apply length_zero_iff_nil; lia).
    rewrite Hb in Hmsg. apply app_eq_nil in Hmsg as [-> Hnil]. rewrite (no_segments _ Hcs Hnil).
    replace n with 0 by lia. cbn [Z.eqb]. by rewrite Hb.
Qed.

(** A response serialised by sendResponse and received by recvResponse, with
    its head in the first segment and its body segmented in any way, arrives
    with the same status, version, reason, body and keep-alive flag, and with
    the same value of every header that does not describe the message itself. *)
Theorem recvResponse_delivers r b1 cs later out fuel buffer_size (p' : P) :
  rsp_sendable r -> head_parsed r b1 p' -> rs_chunked p' = false ->
  Forall (fun c => c <> []) cs -> (response_head r ++ b1) ++ concat cs = HttpResponse_dump r ->
  Z.of_nat (length (response_head r ++ b1)) <= buffer_size < 2 ^ 31 -> (length cs < fuel)%nat ->
  exists r',
    recvResponse lexical_cast fuel buffer_size (peer_with ((response_head r ++ b1) :: cs ++ later) out)
      = (Ok (Some r'), peer_with later out)
    /\ rs_status r' = rs_status r /\ rs_version r' = rs_version r /\ rs_body r' = rs_body r
    /\ rs_close r' = rs_close r
    /\ rs_reason r' = match rs_reason r with [] => HttpStatusToString (rs_status r) | s => s end
    /\ forall k def, ~ same_key k (str "connection") -> ~ same_key k (str "content-length") ->
         rsp_getHeaders r' k def = rsp_getHeaders r k def.
Proof.
  intros Hr Hh Hch Hcs Hmsg Hbuf Hf. eexists. split; [by eapply rsp_recv_delivers|].
  split_and!; try done. intros k def. by apply rsp_received_getHeaders.
Qed.

(** Once the head of a chunked response is parsed, the client reads from the
    socket before it looks at what it already has: a chunked response that
    arrives in one segment is lost when the peer has no more to send. *)
Theorem chunked_needs_more r b1 out fuel buffer_size (p' : P) :
  rsp_sendable r -> head_parsed r b1 p' -> rs_chunked p' = true ->
  Z.of_nat (length (response_head r ++ b1)) <= buffer_size < 2 ^ 31 -> (1 < fuel)%nat ->
  recvResponse lexical_cast fuel buffer_size (peer_with [response_head r ++ b1] out)
  = (Ok None, st_close (peer_with [] out)).
Proof.
  intros Hr Hh Hch Hbuf Hf. unfold recvResponse. unfold mbind at 1, M_bind at 1.
  rewrite (recv_head_rsp r b1 [] out fuel buffer_size p' Hr Hh Hbuf) by lia.
  cbn [sp_parser]. rewrite Hch. destruct fuel as [|fuel]; [lia|]. done.
Qed.
End Deliver.

(** ** The request of a client *)

Definition is_host (kv : bytes * bytes) : bool := bytes_eqb (fold_case (fst kv)) (fold_case (str "host")).

(** Headers whose names are distinct up to case. *)
Definition distinct_keys (l : list (bytes * bytes)) : Prop := NoDup (map (fun kv => fold_case (fst kv)) l).

Lemma setHeader_host k v req : sorted_map (rq_headers req) ->
  sorted_map (rq_headers (setHeader k v req))
  /\ abs (rq_headers (setHeader k v req)) !! fold_case (str "host")
     = if is_host (k, v) then Some v else abs (rq_headers req) !! fold_case (str "host").
Proof.
  intros Hs. split; [by apply map_set_sorted|].
  change (rq_headers (setHeader k v req)) with (map_set k v (rq_headers req)).
  rewrite (map_set_abs _ _ _ None) by done. unfold is_host. cbn [fst].
  destruct (bytes_eqb_spec (fold_case k) (fold_case (str "host"))) as [->|].
  - by rewrite lookup_insert_eq.
  - by rewrite lookup_insert_ne.
Qed.

Lemma connection_not_host k v : is_connection k = true -> is_host (k, v) = false.
Proof.
  unfold is_connection, is_host. rewrite strcasecmp_eq. cbn [fst].
  destruct (bytes_eqb_spec (fold_case k) (fold_case (str "connection"))) as [->|]; [done|done].
Qed.

(** Headers other than the host leave it and the flag alone. *)
Lemma add_headers_other l : forall has req, sorted_map (rq_headers req) ->
  forallb (fun kv => negb (is_host kv)) l = true ->
  fst (add_headers l has req) = has /\ sorted_map (rq_headers (snd (add_headers l has req)))
  /\ abs (rq_headers (snd (add_headers l has req))) !! fold_case (str "host")
     = abs (rq_headers req) !! fold_case (str "host").
Proof.
  induction l as [|[k v] l IH]; intros has req Hs Hl; [done|].
  cbn [forallb] in Hl. apply andb_true_iff in Hl as [Hk%negb_true_iff Hl]. cbn [add_headers].
  destruct (is_connection k) eqn:Ec.
  - destruct (strcasecmp v _ =? 0); [exact (IH has (setClose false req) Hs Hl)|exact (IH has req Hs Hl)].
  - rewrite strcasecmp_eq. change (bytes_eqb (fold_case k) (fold_case (str "host"))) with (is_host (k, v)).
    rewrite Hk, andb_false_r. destruct (setHeader_host k v req Hs) as [Hs' Hh]. rewrite Hk in Hh.
    destruct (IH has (setHeader k v req) Hs' Hl) as (H1 & H2 & H3). by rewrite H3.
Qed.

Lemma distinct_rest k v l : distinct_keys ((k, v) :: l) -> is_host (k, v) = true ->
  forallb (fun kv => negb (is_host kv)) l = true.
Proof.
  unfold distinct_keys. cbn [map fst]. rewrite NoDup_cons. intros [Hn _] Hk.
  apply forallb_forall. intros kv Hkv. apply negb_true_iff.
  destruct (is_host kv) eqn:E; [exfalso|done]. apply Hn.
  unfold is_host in Hk, E. cbn [fst] in Hk.
  destruct (bytes_eqb_spec (fold_case k) (fold_case (str "host"))) as [->|]; [|done].
  destruct (bytes_eqb_spec (fold_case (fst kv)) (fold_case (str "host"))) as [<-|]; [|done].
  apply (list_elem_of_fmap_2 (fun kv => fold_case (fst kv))). by apply list_elem_of_In.
Qed.

Lemma add_headers_host l : forall req, sorted_map (rq_headers req) -> distinct_keys l ->
  sorted_map (rq_headers (snd (add_headers l false req)))
  /\ match List.find is_host l with
     | Some (_, v) => fst (add_headers l false req) = negb (bytes_eqb v [])
         /\ abs (rq_headers (snd (add_headers l false req))) !! fold_case (str "host") = Some v
     | None => fst (add_headers l false req) = false
     end.
Proof.
  induction l as [|[k v] l IH]; intros req Hs Hd; [done|].
  pose proof Hd as Hd'. unfold distinct_keys in Hd'. cbn [map] in Hd'. apply NoDup_cons in Hd' as [_ Hd'].
  cbn [add_headers List.find]. destruct (is_connection k) eqn:Ec.
  - rewrite (connection_not_host k v Ec). destruct (strcasecmp v _ =? 0); by apply IH.
  - rewrite strcasecmp_eq. change (bytes_eqb (fold_case k) (fold_case (str "host"))) with (is_host (k, v)).
    destruct (setHeader_host k v req Hs) as [Hs' Hh]. cbn [negb andb].
    destruct (is_host (k, v)) eqn:Ek.
    + set (b := match v with [] => false | _ => true end).
      destruct (add_headers_other l b (setHeader k v req) Hs' (distinct_rest k v l Hd Ek)) as (H1 & H2 & H3).
      rewrite H1, H3, Hh. split_and!; [done|by destruct v|done].
    + by apply IH.
Qed.

(** The request of DoRequest and of the pool carries a Host header: the value
    the user gave, if it is not empty, and otherwise the host of the URI, or the
    pool's virtual host or host. *)
Theorem request_names_host method path query fragment host vhost url headers body :
  distinct_keys headers ->
  let user := match List.find is_host headers with Some (_, v) => v | None => [] end in
  getHeader (DoRequest_request method path query fragment host headers body) (str "Host") []
    = match user with [] => host | _ => user end
  /\ getHeader (pool_request method url host vhost headers body) (str "Host") []
    = match user with [] => match vhost with [] => host | _ => vhost end | _ => user end.
Proof.
  intros Hd user.
  assert (forall h req, sorted_map (rq_headers req) ->
    getHeader (finish_request headers h body req) (str "Host") []
    = match user with [] => h | _ => user end) as Hfin; [|split; by apply Hfin].
  intros h req Hs. unfold finish_request. destruct (add_headers_host headers req Hs Hd) as [Hs' Hh].
  destruct (add_headers headers false req) as [has req'] eqn:E. cbn [fst snd] in *.
  unfold getHeader, get_or, user. clear user.
  destruct (setHeader_host (str "Host") h req' Hs') as [Hs2 Hh2].
  change (is_host (str "Host", h)) with true in Hh2. cbv iota in Hh2.
  destruct (List.find is_host headers) as [[k v]|].
  - destruct Hh as [-> Hv]. destruct v as [|x v]; cbn [bytes_eqb negb setBody rq_headers].
    + rewrite (map_find_abs _ _ Hs2). change (fold_case (str "Host")) with (fold_case (str "host")).
      by rewrite Hh2.
    + rewrite (map_find_abs _ _ Hs'). change (fold_case (str "Host")) with (fold_case (str "host")).
      by rewrite Hv.
  - rewrite Hh. cbn [setBody rq_headers]. rewrite (map_find_abs _ _ Hs2).
    change (fold_case (str "Host")) with (fold_case (str "host")). by rewrite Hh2.
Qed.

Lemma request_names_host_witness :
  let headers := [(str "HOST", str "a"); (str "Accept", str "b")] in
  let user := match List.find is_host headers with Some (_, v) => v | None => [] end in
  getHeader (DoRequest_request GET (str "/") [] [] (str "h") headers []) (str "Host") []
    = match user with [] => str "h" | _ => user end
  /\ getHeader (pool_request GET (str "/") (str "h") (str "v") headers []) (str "Host") []
    = match user with [] => match str "v" with [] => str "h" | _ => str "v" end | _ => user end.
Proof.
  apply (request_names_host GET (str "/") [] [] (str "h") (str "v") (str "/")
    [(str "HOST", str "a"); (str "Accept", str "b")] []).
  unfold distinct_keys. apply (bool_decide_eq_true_1 (NoDup _)). vm_compute. reflexivity.
Defined.

(** ** A reference automaton

    For the reference grammar: it waits for a whole head. *)

(** Finished, and chunked. *)
Record ref_state := mkRef { ref_fin : bool; ref_chunked : bool }.

Definition ref_rsp_execute (p : ref_state) (s : bytes) : ref_state * list (response_event * bool) * Z :=
  match parse_message s with
  | Some (v, code, reason, fs, body) =>
      let close := existsb is_close fs in
      (mkRef true (existsb is_chunked fs),
       [(RvVersion s 8, false); (RvStatus (drop (length (v ++ [32])) s), false); (RvReason reason, false)]
       ++ field_reports false fs
       ++ [(RvHeaderDone, close)],
       Z.of_nat (length s) - Z.of_nat (length body))
  | None => (p, [], 0)
  end.

#[export] Instance ref_rsp_automaton : ResponseAutomaton ref_state := {
  rs_init _ := mkRef false false;
  rs_zero := mkRef false false;
  rs_execute := ref_rsp_execute;
  rs_finish p := if ref_fin p then 1 else 0;
  rs_has_error _ := false;
  rs_chunked := ref_chunked;
  rs_chunks_done _ := true;
  rs_content_len _ := 0
}.

Lemma demo_rsp_sendable : rsp_sendable demo_response.
Proof.
  split; [by right|]. split; [done|]. split; [by repeat constructor|]. split; [done|]. done.
Qed.

Lemma recvResponse_delivers_witness :
  exists r',
    recvResponse ref_cast 5 4096
      (peer_with ((response_head demo_response ++ str "o") :: [str "k"] ++ [str "HTTP"]) [])
      = (Ok (Some r'), peer_with [str "HTTP"] [])
    /\ rs_status r' = 200 /\ rs_version r' = 17 /\ rs_body r' = str "ok"
    /\ rs_close r' = true /\ rs_reason r' = HttpStatusToString 200
    /\ forall k def, ~ same_key k (str "connection") -> ~ same_key k (str "content-length") ->
         rsp_getHeaders r' k def = rsp_getHeaders demo_response k def.
Proof.
  apply (recvResponse_delivers ref_cast ref_cast_dec demo_response (str "o") [str "k"] [str "HTTP"] [] 5 4096
    (mkRef true false));
    [exact demo_rsp_sendable|split; [vm_compute; reflexivity|split; reflexivity]|reflexivity|by repeat constructor
    |vm_compute; reflexivity|vm_compute; split; [discriminate|reflexivity]|cbn; lia].
Defined.

Lemma chunked_needs_more_witness :
  let r := rsp_setHeader (str "Transfer-Encoding") (str "chunked") (HttpResponse_new 17 true) in
  recvResponse ref_cast 5 4096 (peer_with [response_head r ++ str "1"] []) = (Ok None, st_close (peer_with [] [])).
Proof.
  intros r. apply (chunked_needs_more ref_cast r (str "1") [] 5 4096 (mkRef true true)).
  - split; [by right|]. split; [done|]. split; [by repeat constructor|]. split; [done|]. done.
  - split; [vm_compute; reflexivity|split; reflexivity].
  - reflexivity.
  - vm_compute; split; [discriminate|reflexivity].
  - lia.
Defined.
