(* ===== verification/HttpclientFamilies.v ===== *)
(** * The states of the response parser

    The states in which the machine of [HttpclientParser] reads the parts of a
    response are finite families; what characters do to them is computed here and
    stated as laws ([family_laws]), of which the reading in [HttpclientSpec] is a
    consequence.  The names of fields are followed along the three names that the
    grammar treats on their own. *)
From Stdlib Require Import Ascii String.
From S2P Require Import Prelude Ragel CString Http HttpParser HttpclientParser Http11 Http11Spec.

#[local] Open Scope string_scope.
#[local] Open Scope list_scope.
#[local] Open Scope Z_scope.

#[local] Notation R := rsp_machine.

(** ** The families *)

Definition rsp_text (w : bytes) : list N := fold_left (fun S c => snd (step R S c)) w [0%N].
Definition rsp_line (w : bytes) : list N := rsp_text (str "HTTP/1.1 200 OK" ++ crlf ++ w).

Definition reason_char : Z -> bool := but any_char (one_of [10; 13]).
(** The values of fields do not begin with a space of any kind. *)
Definition rsp_value_first : Z -> bool := but value_char space_char.

Definition G_version := [rsp_text (str "HTTP/1.0"); rsp_text (str "HTTP/1.1")].
Definition G_code0 := [rsp_text (str "HTTP/1.1 ")].
Definition G_code := closure R 50 (chars_of digit_char) [rsp_text (str "HTTP/1.1 2")] [].
Definition G_reason0 := [rsp_text (str "HTTP/1.1 200 ")].
Definition G_reason := closure R 50000 (chars_of reason_char) [rsp_text (str "HTTP/1.1 200 O")] [].
(** At the beginning of a line. *)
Definition G_line := [rsp_line []; rsp_line (str "x: a" ++ crlf); rsp_line (str "Content-Length: 1" ++ crlf);
  rsp_line (str "Connection: Keep-Alive" ++ crlf)].
Definition G_close := [rsp_line (str "Connection: Close" ++ crlf)].
Definition G_colon := [rsp_line (str "x:")].
Definition G_blank := [rsp_line (str "x: ")].
Definition G_value := closure R 50000 (chars_of value_char) [rsp_line (str "x: a")] [].
Definition G_end := [rsp_line [13]].

(** *** Names *)

Definition keywords : list bytes := [str "content-length"; str "connection"; str "transfer-encoding"].

(** The states in which a name is the beginning of a keyword, and those in which it
    is none. *)
Definition name_table : list (list N * bytes) :=
  concat (map (fun kw => map (fun n => (rsp_line (take n kw), take n kw)) (seq 1 (length kw))) keywords).
Definition G_other := [rsp_line (str "x"); rsp_line (str "xx")].

(** The fields that the server adds. *)
Definition G_conn := [rsp_line (str "Connection")].
Definition G_conn_colon := [rsp_line (str "Connection:")].
Definition G_conn_blank := [rsp_line (str "Connection: ")].
Definition G_len := [rsp_line (str "Content-Length")].
Definition G_len_colon := [rsp_line (str "Content-Length:")].
Definition G_len_blank := [rsp_line (str "Content-Length: ")].
Definition G_digits := closure R 50 (chars_of digit_char) [rsp_line (str "Content-Length: 1")] [].

(** *** The laws of the families

    What the reading of a response relies on, of any machine and any families: the
    computation above is not repeated in what follows. *)

Record families := mkFamilies {
  rm : automaton rsp_action;
  g_version : list (list N); g_code0 : list (list N); g_code : list (list N); g_reason0 : list (list N);
  g_reason : list (list N); g_line : list (list N); g_close : list (list N); g_colon : list (list N);
  g_blank : list (list N); g_value : list (list N); g_end : list (list N); g_other : list (list N);
  g_names : list (list N * bytes);
  g_conn : list (list N); g_conn_colon : list (list N); g_conn_blank : list (list N);
  g_conn_close : list (list N); g_conn_keep : list (list N);
  g_len : list (list N); g_len_colon : list (list N); g_len_blank : list (list N); g_digits : list (list N)
}.

(** A state in which the beginning [pre] of a name has been read. *)
Definition on_name (f : families) (pre : bytes) (S : list N) : bool :=
  member S (g_other f) || bool_decide ((S, map tolower pre) ∈ g_names f).

Record family_laws (f : families) : Prop := {
  l_version : moves (rm f) [[0%N]] [str "HTTP/1.0"; str "HTTP/1.1"] [R_mark] (g_version f) = true;
  l_version_end : moves (rm f) (g_version f) [[32]] [R_http_version] (g_code0 f) = true;
  l_code : moves (rm f) (g_code0 f) (chars_of digit_char) [R_mark] (g_code f) = true;
  l_code_on : quiet (rm f) (g_code f) (chars_of digit_char) = true;
  l_code_end : moves (rm f) (g_code f) [[32]] [R_status_code] (g_reason0 f) = true;
  l_reason : moves (rm f) (g_reason0 f) (chars_of reason_char) [R_mark] (g_reason f) = true;
  l_reason_on : quiet (rm f) (g_reason f) (chars_of reason_char) = true;
  l_reason_end : moves (rm f) (g_reason f) [crlf] [R_reason_phrase] (g_line f) = true;
  l_name : forall S c, S ∈ g_line f -> name_char c = true -> c ∈ all_bytes ->
    exists S', step (rm f) S c = ([R_start_field], S') /\ S' <> [] /\ on_name f [c] S' = true;
  l_name_on : forall S pre c, on_name f pre S = true -> name_char c = true -> c ∈ all_bytes ->
    exists S', step (rm f) S c = ([], S') /\ S' <> [] /\ on_name f (pre ++ [c]) S' = true;
  l_name_end : forall S pre, on_name f pre S = true -> map tolower pre ∉ keywords ->
    moves (rm f) [S] [[58]] [R_write_field] (g_colon f) = true;
  l_blank : moves (rm f) (g_colon f) [[32]] [R_start_value] (g_blank f) = true;
  l_empty : moves (rm f) (g_blank f) [crlf] [R_start_value; R_write_value] (g_line f) = true;
  l_value : moves (rm f) (g_blank f) (chars_of rsp_value_first) [R_start_value] (g_value f) = true;
  l_value_on : quiet (rm f) (g_value f) (chars_of value_char) = true;
  l_value_end : moves (rm f) (g_value f) [crlf] [R_write_value] (g_line f) = true;
  l_conn : moves (rm f) (g_line f) [str "Connection"] [R_start_field] (g_conn f) = true;
  l_conn_colon : moves (rm f) (g_conn f) [[58]] [R_write_field] (g_conn_colon f) = true;
  l_conn_blank : moves (rm f) (g_conn_colon f) [[32]] [R_start_value] (g_conn_blank f) = true;
  l_conn_close : moves (rm f) (g_conn_blank f) [str "Close"] [R_start_value] (g_conn_close f) = true;
  l_close : moves (rm f) (g_conn_close f) [crlf] [R_write_value] (g_close f) = true;
  l_conn_keep : moves (rm f) (g_conn_blank f) [str "Keep-Alive"] [R_start_value] (g_conn_keep f) = true;
  l_keep : moves (rm f) (g_conn_keep f) [crlf] [R_write_value] (g_line f) = true;
  l_len : moves (rm f) (g_line f) [str "Content-Length"] [R_start_field] (g_len f) = true;
  l_close_len : moves (rm f) (g_close f) [str "Content-Length"] [R_write_connection_close; R_start_field]
    (g_len f) = true;
  l_len_colon : moves (rm f) (g_len f) [[58]] [R_write_field] (g_len_colon f) = true;
  l_len_blank : moves (rm f) (g_len_colon f) [[32]] [R_start_value] (g_len_blank f) = true;
  l_digits : moves (rm f) (g_len_blank f) (chars_of digit_char) [R_start_value] (g_digits f) = true;
  l_digits_on : quiet (rm f) (g_digits f) (chars_of digit_char) = true;
  l_digits_end : moves (rm f) (g_digits f) [crlf] [R_write_content_len; R_write_value] (g_line f) = true;
  l_cr : moves (rm f) (g_line f) [[13]] [] (g_end f) = true;
  l_close_cr : moves (rm f) (g_close f) [[13]] [R_write_connection_close] (g_end f) = true;
  l_end : forall S, S ∈ g_end f -> exists S', step (rm f) S 10 = ([R_done], S') /\ S' <> []
    /\ is_final (rm f) S' = true /\ concat (map (outgoing (rm f)) S') = []
}.

Definition rsp_families : families := {|
  rm := R; g_version := G_version; g_code0 := G_code0; g_code := G_code; g_reason0 := G_reason0; g_reason := G_reason;
  g_line := G_line; g_close := G_close; g_colon := G_colon; g_blank := G_blank; g_value := G_value; g_end := G_end;
  g_other := G_other; g_names := name_table; g_conn := G_conn; g_conn_colon := G_conn_colon;
  g_conn_blank := G_conn_blank; g_conn_close := [rsp_line (str "Connection: Close")];
  g_conn_keep := [rsp_line (str "Connection: Keep-Alive")]; g_len := G_len; g_len_colon := G_len_colon;
  g_len_blank := G_len_blank; g_digits := G_digits
|}.

(** The laws about names are computed on the table, as functions of it. *)
Section Tables.
Variables (Mc : automaton rsp_action) (line other colon : list (list N)) (names : list (list N * bytes)).

Definition in_name (S : list N) (lower : bytes) : bool := member S other || bool_decide ((S, lower) ∈ names).

Definition begins : bool :=
  forallb (fun S => forallb (fun c =>
    match step Mc S c with
    | (a, S') => bool_decide (a = [R_start_field]) && bool_decide (S' <> []) && in_name S' [tolower c]
    end) (List.filter name_char all_bytes)) line.

Definition goes_on : bool :=
  forallb (fun S => forallb (fun c =>
    match step Mc S c with
    | (a, S') => bool_decide (a = []) && bool_decide (S' <> []) && member S' other
    end) (List.filter name_char all_bytes)) other
  && forallb (fun x => forallb (fun c =>
    match step Mc (fst x) c with
    | (a, S') => bool_decide (a = []) && bool_decide (S' <> []) && in_name S' (snd x ++ [tolower c])
    end) (List.filter name_char all_bytes)) names.

Definition ends : bool :=
  forallb (fun S => moves Mc [S] [[58]] [R_write_field] colon) other
  && forallb (fun x => bool_decide (snd x ∈ keywords) || moves Mc [fst x] [[58]] [R_write_field] colon) names.

Lemma name_byte c : name_char c = true -> c ∈ all_bytes -> In c (List.filter name_char all_bytes).
Proof. intros Hc Hb. apply filter_In. split; [by apply list_elem_of_In|done]. Qed.

Lemma begins_spec S c : begins = true -> S ∈ line -> name_char c = true -> c ∈ all_bytes ->
  exists S', step Mc S c = ([R_start_field], S') /\ S' <> [] /\ in_name S' [tolower c] = true.
Proof.
  unfold begins. rewrite forallb_forall. intros H HS Hc Hb. specialize (H S (proj1 (list_elem_of_In _ _) HS)).
  rewrite forallb_forall in H. specialize (H c (name_byte c Hc Hb)). destruct (step Mc S c) as [a S'].
  split_checks H. apply bool_decide_eq_true in H, H1. subst a. by exists S'.
Qed.

Lemma goes_on_spec S lower c : goes_on = true -> in_name S lower = true -> name_char c = true -> c ∈ all_bytes ->
  exists S', step Mc S c = ([], S') /\ S' <> [] /\ in_name S' (lower ++ [tolower c]) = true.
Proof.
  unfold goes_on, in_name. rewrite andb_true_iff, !forallb_forall. intros [H1 H2] [HS|HS]%orb_prop Hc Hb.
  - specialize (H1 S (proj1 (list_elem_of_In _ _) (proj1 (member_spec _ _) HS))). rewrite forallb_forall in H1.
    specialize (H1 c (name_byte c Hc Hb)). destruct (step Mc S c) as [a S']. split_checks H1.
    apply bool_decide_eq_true in H1, H0. subst a. exists S'. by rewrite H.
  - apply bool_decide_eq_true in HS. specialize (H2 _ (proj1 (list_elem_of_In _ _) HS)). rewrite forallb_forall in H2.
    specialize (H2 c (name_byte c Hc Hb)). cbn [fst snd] in H2. destruct (step Mc S c) as [a S']. split_checks H2.
    apply bool_decide_eq_true in H2, H0. subst a. by exists S'.
Qed.

Lemma ends_spec S lower : ends = true -> in_name S lower = true -> lower ∉ keywords ->
  moves Mc [S] [[58]] [R_write_field] colon = true.
Proof.
  unfold ends, in_name. rewrite andb_true_iff, !forallb_forall. intros [H1 H2] [HS|HS]%orb_prop Hk.
  - by apply H1, list_elem_of_In, member_spec.
  - apply bool_decide_eq_true in HS. specialize (H2 _ (proj1 (list_elem_of_In _ _) HS)). cbn [fst snd] in H2.
    by rewrite bool_decide_eq_false_2 in H2.
Qed.

Lemma table_name_laws : begins && goes_on && ends = true ->
  forall f, rm f = Mc -> g_line f = line -> g_other f = other -> g_colon f = colon -> g_names f = names ->
  (forall S c, S ∈ g_line f -> name_char c = true -> c ∈ all_bytes ->
    exists S', step (rm f) S c = ([R_start_field], S') /\ S' <> [] /\ on_name f [c] S' = true)
  /\ (forall S pre c, on_name f pre S = true -> name_char c = true -> c ∈ all_bytes ->
    exists S', step (rm f) S c = ([], S') /\ S' <> [] /\ on_name f (pre ++ [c]) S' = true)
  /\ (forall S pre, on_name f pre S = true -> map tolower pre ∉ keywords ->
    moves (rm f) [S] [[58]] [R_write_field] (g_colon f) = true).
Proof.
  intros [[Hb Hg]%andb_prop He]%andb_prop f -> -> E3 -> E5. unfold on_name. rewrite E3, E5. split_and!.
  - intros S c. by apply begins_spec.
  - intros S pre c. rewrite map_app. by apply goes_on_spec.
  - intros S pre. by apply ends_spec.
Qed.
End Tables.

Lemma rsp_names : begins R G_line G_other name_table && goes_on R G_other name_table && ends R G_other G_colon name_table = true.
Proof. by vm_compute. Qed.

Definition end_state (Mc : automaton rsp_action) (S : list N) : bool :=
  let '(a, S') := step Mc S 10 in
  bool_decide (a = [R_done]) && bool_decide (S' <> []) && is_final Mc S' && match concat (map (outgoing Mc) S') with [] => true | _ => false end.

Lemma end_state_spec Mc F S : forallb (end_state Mc) F = true -> S ∈ F ->
  exists S', step Mc S 10 = ([R_done], S') /\ S' <> [] /\ is_final Mc S' = true /\ concat (map (outgoing Mc) S') = [].
Proof.
  rewrite forallb_forall. intros H HS. specialize (H S (proj1 (list_elem_of_In _ _) HS)). unfold end_state in H.
  destruct (step Mc S 10) as [a S']. split_checks H. apply bool_decide_eq_true in H, H2. subst a.
  exists S'. destruct (concat _); [done|discriminate].
Qed.

Lemma rsp_ends : forallb (end_state R) G_end = true.
Proof. by vm_compute. Qed.

Lemma rsp_family_laws : family_laws rsp_families.
Proof.
  destruct (table_name_laws _ _ _ _ _ rsp_names rsp_families eq_refl eq_refl eq_refl eq_refl eq_refl) as (H1 & H2 & H3).
  constructor; lazymatch goal with |- _ = true => vm_compute; reflexivity | _ => idtac end; [exact H1|exact H2|exact H3|].
  intros S. exact (end_state_spec R G_end S rsp_ends).
Qed.
