(* ===== verification/HttpclientSpec.v ===== *)
(** * What the response parser promises

    What [HttpResponse::dump] writes the parser reports as the response it was
    ([httpclient_parser_reads_dump]), and the client receives it through the
    parser of the grammar ([recvResponse_parses]). *)
From Stdlib Require Import Ascii String.
From S2P Require Import Prelude Ragel CString Http HttpSpec Stream HttpParser HttpSession HttpConnection.
From S2P Require Import HttpConnectionSpec HttpclientParser Http11 Http11Spec HttpclientFamilies.

#[local] Open Scope string_scope.
#[local] Open Scope list_scope.
#[local] Open Scope Z_scope.

(** ** Reading the parts of a response *)

(** What only chunks and the end of a head change. *)
Record rkeeps (x x' : httpclient_parser) : Prop := {
  rk_cs : rcs x' = rcs x; rk_chunked : rchunked x' = rchunked x; rk_done : rchunks_done x' = rchunks_done x
}.

Lemma rkeeps_trans x y z : rkeeps x y -> rkeeps y z -> rkeeps x z.
Proof. intros [] []. constructor; congruence. Qed.

(** The name of a field is a token, and none of those that the grammar treats on
    their own. *)
Definition ordinary (k : bytes) : bool :=
  negb (bytes_eqb k []) && all_chars name_char k && bool_decide (map tolower k ∉ keywords).
Definition rsp_value_ok (v : bytes) : bool :=
  all_chars value_char v && match v with [] => true | c :: _ => rsp_value_first c end.
Definition rsp_field_ok (kv : bytes * bytes) : bool := ordinary (fst kv) && rsp_value_ok (snd kv).

Section Reads.
Context (f : families) (laws : family_laws f).
Variable buffer : bytes.
Hypothesis small : Z.of_nat (length buffer) < 2 ^ 64.
Notation Mc := (rm f).
Notation run_of := (ract buffer).
Notation runs := (runs_to Mc run_of).
Implicit Types (pre post w k : bytes) (x : httpclient_parser) (es : list (response_event * bool)) (c : bool).

(** From the states of [F], with the flag [c], the machine runs over [w], makes the
    callbacks [evs] and is in a state of [F'], with the flag [c']. *)
Definition rreads (F F' : list (list N)) c c' (p : Z) (w : bytes) (evs : list (response_event * bool)) : Prop :=
  forall S x es, S ∈ F -> rclose x = c ->
  exists S' x', S' ∈ F' /\ runs S p w (x, es) S' (x', es ++ evs) /\ rkeeps x x' /\ rclose x' = c'.

Lemma rreads_nil F c p : rreads F F c c p [] [].
Proof.
  intros S x es HS Hc. exists S, x. rewrite app_nil_r. split; [done|]. split; [apply runs_nil|]. split; [by constructor|done].
Qed.

Lemma rreads_app F F1 F2 c c1 c2 p q w w' evs evs' : q = p + Z.of_nat (length w) ->
  rreads F F1 c c1 p w evs -> rreads F1 F2 c1 c2 q w' evs' -> rreads F F2 c c2 p (w ++ w') (evs ++ evs').
Proof.
  intros -> H1 H2 S x es HS Hc. destruct (H1 S x es HS Hc) as (S1 & x1 & HS1 & R1 & K1 & C1).
  destruct (H2 S1 x1 (es ++ evs) HS1 C1) as (S2 & x2 & HS2 & R2 & K2 & C2). exists S2, x2. split; [done|].
  split; [|split; [by eapply rkeeps_trans|done]]. rewrite app_assoc. by eapply runs_app.
Qed.

Ltac rrun_step :=
  unfold run_acts, ract, rupd, rcallback, mbind, M_bind; cbn [rmark rset_mark rfield_start rset_field_start
    rfield_len rset_field_len rclose rset_close rset_status rset_content_len fst snd].

(** *** The status line *)

(** A part of the line: text of characters of a class, whose beginning is marked, up
    to a word that reports it. *)
Lemma marked_part F F1 F2 ok sep acts g pre w post ev c :
  moves Mc F (chars_of ok) [R_mark] F1 = true -> quiet Mc F1 (chars_of ok) = true -> moves Mc F1 [sep] acts F2 = true ->
  w <> [] -> all_chars ok w = true -> buffer = pre ++ w ++ sep ++ post ->
  (forall x es, rmark x = Z.of_nat (length pre) -> rclose x = c ->
    run_acts run_of acts (Z.of_nat (length pre) + Z.of_nat (length w)) (x, es) = (Ok false, (g x, es ++ [(ev, c)]))) ->
  (forall x, rkeeps x (g x) /\ rclose (g x) = rclose x) ->
  rreads F F2 c c (Z.of_nat (length pre)) (w ++ sep) [(ev, c)].
Proof.
  intros Hm Hq Hs Hne Hall E Hact Hg S x es HS Hc. set (p := Z.of_nat (length pre)) in *.
  destruct (all_chars_words _ _ Hall) as (toks & -> & Ht). assert (toks <> []) as Hne' by (by intros ->).
  destruct (text_runs Mc run_of F F1 _ _ toks S p (x, es) (rset_mark p x, es) Hm Hq HS Hne' Ht eq_refl) as (S1 & HS1 & R1).
  destruct (moves_runs Mc run_of F1 [sep] acts F2 S1 sep _ _ _ Hs HS1 ltac:(by left)
    (Hact (rset_mark p x) es eq_refl Hc)) as (S2 & HS2 & R2).
  destruct (Hg (rset_mark p x)) as [K C]. exists S2, (g (rset_mark p x)). split; [done|]. split; [by eapply runs_app|].
  split; [|by rewrite C]. eapply rkeeps_trans; [|exact K]. by constructor.
Qed.

Lemma rversion_part v post c : v = 16 \/ v = 17 -> buffer = dump_version v ++ [32] ++ post ->
  rreads [[0%N]] (g_code0 f) c c 0 (dump_version v ++ [32]) [(RvVersion buffer 8, c)].
Proof.
  intros Hv E S x es HS Hc.
  assert (dump_version v ∈ [str "HTTP/1.0"; str "HTTP/1.1"] /\ length (dump_version v) = 8%nat) as [Hin Hl]
    by (destruct Hv as [-> | ->]; split; try reflexivity; [left|right; left]).
  destruct (moves_runs Mc run_of _ _ _ _ S (dump_version v) 0 (x, es) (rset_mark 0 x, es) (l_version f laws) HS Hin eq_refl)
    as (S1 & HS1 & R1).
  destruct (moves_runs Mc run_of _ _ _ _ S1 [32] 8 (rset_mark 0 x, es) (rset_mark 0 x, es ++ [(RvVersion buffer 8, c)])
    (l_version_end f laws) HS1 ltac:(by left)) as (S2 & HS2 & R2); [by rrun_step; rewrite Hc|].
  exists S2, (rset_mark 0 x). split; [done|]. split; [|split; [by constructor|exact Hc]].
  eapply runs_then; [|exact R1|exact R2]. by rewrite Hl.
Qed.

Lemma rcode_part pre ds post c : ds <> [] -> forallb is_digit ds = true -> buffer = pre ++ ds ++ [32] ++ post ->
  rreads (g_code0 f) (g_reason0 f) c c (Z.of_nat (length pre)) (ds ++ [32]) [(RvStatus (drop (length pre) buffer), c)].
Proof.
  intros Hne Hd E. set (n := rnumber buffer 10 (Z.of_nat (length pre))).
  apply (marked_part _ _ _ _ _ _ (rset_status n) pre ds post _ c (l_code f laws) (l_code_on f laws) (l_code_end f laws) Hne (digits_chars ds Hd) E).
  - intros x es Hm Hc. rrun_step. rewrite Hm, Hc. unfold ptr_to. by rewrite Nat2Z.id.
  - intros x. split; [by constructor|done].
Qed.

Lemma rreason_part pre w post c : w <> [] -> all_chars reason_char w = true -> buffer = pre ++ w ++ crlf ++ post ->
  rreads (g_reason0 f) (g_line f) c c (Z.of_nat (length pre)) (w ++ crlf) [(RvReason w, c)].
Proof.
  intros Hne Hall E.
  apply (marked_part _ _ _ _ _ _ id pre w post _ c (l_reason f laws) (l_reason_on f laws) (l_reason_end f laws) Hne Hall E).
  - intros x es Hm Hc. rrun_step. rewrite Hm, Hc. by rewrite (element_mid buffer small pre w (crlf ++ post) E).
  - intros x. split; [by constructor|done].
Qed.

(** *** Fields *)

(** The parts of a field in the buffer. *)
Lemma field_elements pre k v post p p1 p2 :
  buffer = pre ++ dump_field (k, v) ++ post -> p = Z.of_nat (length pre) -> p1 = p + Z.of_nat (length k) -> p2 = p1 + 2 ->
  element buffer p (u64 (p1 - p)) = k /\ element buffer p2 (u64 (p2 + Z.of_nat (length v) - p2)) = v.
Proof.
  unfold dump_field. cbn [fst snd]. change (str ": ") with [58; 32]. intros E -> -> ->. split.
  - apply (element_mid buffer small pre k ([58; 32] ++ v ++ crlf ++ post)). by rewrite E, <-!app_assoc.
  - pose proof (element_mid buffer small (pre ++ k ++ [58; 32]) v (crlf ++ post) ltac:(by rewrite E, <-!app_assoc)) as H.
    replace (Z.of_nat (length (pre ++ k ++ [58; 32]))) with (Z.of_nat (length pre) + Z.of_nat (length k) + 2) in H
      by (rewrite !length_app; cbn [length]; lia). exact H.
Qed.

(** A line of a field: its name and the colon, the blank, the value, the end of the
    line. *)
Lemma line_runs F1 F2 F3 F4 acts k v p p1 p2 S x es x1 x3 x4 evs :
  p1 = p + Z.of_nat (length k) -> p2 = p1 + 2 ->
  (exists S1, S1 ∈ F1 /\ runs S p (k ++ [58]) (x, es) S1 (x1, es)) ->
  moves Mc F1 [[32]] [R_start_value] F2 = true ->
  (forall S2, S2 ∈ F2 -> exists S3, S3 ∈ F3 /\ runs S2 p2 v (rset_mark (p1 + 1) x1, es) S3 (x3, es)) ->
  moves Mc F3 [crlf] acts F4 = true ->
  run_acts run_of acts (p2 + Z.of_nat (length v)) (x3, es) = (Ok false, (x4, es ++ evs)) ->
  exists S4, S4 ∈ F4 /\ runs S p (dump_field (k, v)) (x, es) S4 (x4, es ++ evs).
Proof.
  intros -> -> (S1 & HS1 & R1) Hb Hv Hcr Hact. set (p1 := p + Z.of_nat (length k)) in *.
  destruct (moves_runs Mc run_of F1 _ _ F2 S1 [32] (p1 + 1) (x1, es) (rset_mark (p1 + 1) x1, es) Hb HS1 ltac:(by left) eq_refl)
    as (S2 & HS2 & R2). destruct (Hv S2 HS2) as (S3 & HS3 & R3).
  destruct (moves_runs Mc run_of F3 _ _ F4 S3 crlf _ _ _ Hcr HS3 ltac:(by left) Hact) as (S4 & HS4 & R4).
  exists S4. split; [done|]. unfold dump_field. cbn [fst snd]. change (str ": ") with [58; 32].
  replace (k ++ [58; 32] ++ v ++ crlf) with ((k ++ [58]) ++ [32] ++ v ++ crlf) by (by rewrite <-!app_assoc).
  eapply runs_then; [|exact R1|eapply runs_then; [|exact R2|eapply runs_then; [|exact R3|exact R4]]].
  - rewrite length_app. cbn [length]. unfold p1. lia.
  - cbn [length]. lia.
  - lia.
Qed.

(** The name of a field, and its colon. *)
Lemma name_on_runs k : forall S pre, on_name f pre S = true -> all_chars name_char k = true ->
  exists S', on_name f (pre ++ k) S' = true /\ forall p u, runs S p k u S' u.
Proof.
  induction k as [|c0 k IH]; intros S pre Hn Hk.
  - exists S. rewrite app_nil_r. split; [done|]. intros p u. apply runs_nil.
  - unfold all_chars in Hk. cbn [forallb] in Hk. apply andb_prop in Hk as [Hc Hk]. apply andb_prop in Hc as [Hc Hr].
    destruct (l_name_on f laws S pre c0 Hn Hc (all_bytes_spec _ Hr)) as (S1 & Hs & Hne & Hn1).
    destruct (IH S1 (pre ++ [c0]) Hn1 Hk) as (S2 & Hn2 & R2). exists S2. rewrite <-app_assoc in Hn2. split; [exact Hn2|].
    intros p u. change (c0 :: k) with ([c0] ++ k). eapply runs_app; [by eapply runs_char|apply R2].
Qed.

Lemma rname_runs k S p x es : ordinary k = true -> S ∈ g_line f ->
  exists S', S' ∈ g_colon f
    /\ runs S p (k ++ [58]) (x, es) S' (rset_field_len (u64 (p + Z.of_nat (length k) - p)) (rset_field_start p x), es).
Proof.
  intros [[Hne Hk]%andb_prop Hkw]%andb_prop HS. destruct k as [|c0 k]; [done|]. apply bool_decide_eq_true in Hkw.
  unfold all_chars in Hk. cbn [forallb] in Hk. apply andb_prop in Hk as [Hc Hk]. apply andb_prop in Hc as [Hc Hr].
  destruct (l_name f laws S c0 HS Hc (all_bytes_spec _ Hr)) as (S1 & Hs & Hne1 & Hn1).
  destruct (name_on_runs k S1 [c0] Hn1 Hk) as (S2 & Hn2 & R2).
  pose proof (l_name_end f laws S2 _ Hn2 Hkw) as Hm. set (p1 := p + Z.of_nat (length (c0 :: k))).
  destruct (moves_runs Mc run_of [S2] _ _ _ S2 [58] p1 (rset_field_start p x, es)
    (rset_field_len (u64 (p1 - p)) (rset_field_start p x), es) Hm ltac:(by left) ltac:(by left) eq_refl) as (S3 & HS3 & R3).
  exists S3. split; [done|]. eapply runs_then; [reflexivity| |exact R3].
  change (c0 :: k) with ([c0] ++ k). eapply runs_app; [|apply R2]. eapply runs_char; [exact Hs|done|].
  done.
Qed.

Lemma rvalue_runs v S p x es : v <> [] -> rsp_value_ok v = true -> S ∈ g_blank f ->
  exists S', S' ∈ g_value f /\ runs S p v (x, es) S' (rset_mark p x, es).
Proof.
  intros Hne [Hv Hf]%andb_prop HS. destruct v as [|c0 v]; [done|].
  unfold all_chars in Hv. cbn [forallb] in Hv. apply andb_prop in Hv as [Hc0 Hv]. apply andb_prop in Hc0 as [Hc0 Hr].
  destruct (moves_runs Mc run_of _ _ _ _ S [c0] p (x, es) (rset_mark p x, es) (l_value f laws) HS
    (chars_of_spec _ _ Hf Hr) eq_refl) as (S1 & HS1 & R1).
  destruct (all_chars_words _ _ Hv) as (toks & -> & Ht).
  destruct (quiet_runs Mc run_of _ _ toks S1 (l_value_on f laws) HS1 Ht) as (S2 & HS2 & R2).
  exists S2. split; [done|]. change (c0 :: concat toks) with ([c0] ++ concat toks). by eapply runs_app.
Qed.

Lemma rfield_part pre kv post c : rsp_field_ok kv = true -> buffer = pre ++ dump_field kv ++ post ->
  rreads (g_line f) (g_line f) c c (Z.of_nat (length pre)) (dump_field kv) [(RvField (fst kv) (snd kv), c)].
Proof.
  destruct kv as [k v]. intros [Hk Hv]%andb_prop E S x es HS Hc. cbn [fst snd] in *.
  set (p := Z.of_nat (length pre)). set (p1 := p + Z.of_nat (length k)). set (p2 := p1 + 2).
  destruct (field_elements pre k v post p p1 p2 E eq_refl eq_refl eq_refl) as [Ek Ev].
  set (x1 := rset_field_len (u64 (p1 - p)) (rset_field_start p x)).
  pose proof (rname_runs k S p x es Hk HS) as Hname. fold p1 x1 in Hname.
  assert (rkeeps x (rset_mark p2 x1) /\ rclose (rset_mark p2 x1) = c) as [K C] by (split; [by constructor|done]).
  destruct v as [|c0 v]; [|set (v' := c0 :: v) in *].
  - destruct (line_runs (g_colon f) (g_blank f) (g_blank f) (g_line f) [R_start_value; R_write_value] k [] p p1 p2 S x es x1
      (rset_mark (p1 + 1) x1) (rset_mark p2 x1) [(RvField k [], c)] eq_refl eq_refl Hname (l_blank f laws)) as (S4 & HS4 & R4).
    + intros S2 HS2. exists S2. split; [done|]. apply runs_nil.
    + exact (l_empty f laws).
    + cbn [length] in *. rewrite Z.add_0_r in *. rrun_step. change (rfield_start x1) with p.
      change (rfield_len x1) with (u64 (p1 - p)). change (rclose x1) with (rclose x). by rewrite Ek, Ev, Hc.
    + by exists S4, (rset_mark p2 x1).
  - destruct (line_runs (g_colon f) (g_blank f) (g_value f) (g_line f) [R_write_value] k v' p p1 p2 S x es x1
      (rset_mark p2 x1) (rset_mark p2 x1) [(RvField k v', c)] eq_refl eq_refl Hname (l_blank f laws)) as (S4 & HS4 & R4).
    + intros S2 HS2. by apply (rvalue_runs v' S2 p2 (rset_mark (p1 + 1) x1) es).
    + exact (l_value_end f laws).
    + rrun_step. change (rfield_start x1) with p. change (rfield_len x1) with (u64 (p1 - p)).
      change (rclose x1) with (rclose x). by rewrite Ek, Ev, Hc.
    + by exists S4, (rset_mark p2 x1).
Qed.

Lemma rfields_part c fs : forall pre post, Forall (fun kv => rsp_field_ok kv = true) fs ->
  buffer = pre ++ concat (map dump_field fs) ++ post ->
  rreads (g_line f) (g_line f) c c (Z.of_nat (length pre)) (concat (map dump_field fs))
    (map (fun kv => (RvField (fst kv) (snd kv), c)) fs).
Proof.
  induction fs as [|kv fs IH]; intros pre post Hw E; [apply rreads_nil|].
  apply Forall_cons in Hw as [Hkv Hw]. cbn [map concat] in *. rewrite <-app_assoc in E.
  change ((RvField (fst kv) (snd kv), c) :: ?l) with ([(RvField (fst kv) (snd kv), c)] ++ l).
  eapply rreads_app; [|by eapply rfield_part|].
  2: apply (IH (pre ++ dump_field kv) post Hw); by rewrite <-app_assoc.
  rewrite length_app. lia.
Qed.

(** *** The fields that the server adds *)

(** A name that the grammar treats on its own. *)
Lemma keyword_runs F F1 F2 acts k S p x x0 es :
  moves Mc F [k] acts F1 = true -> moves Mc F1 [[58]] [R_write_field] F2 = true -> S ∈ F ->
  run_acts run_of acts p (x, es) = (Ok false, (rset_field_start p x0, es)) ->
  exists S', S' ∈ F2
    /\ runs S p (k ++ [58]) (x, es) S' (rset_field_len (u64 (p + Z.of_nat (length k) - p)) (rset_field_start p x0), es).
Proof.
  intros Hk Hc HS Hact. set (p1 := p + Z.of_nat (length k)).
  destruct (moves_runs Mc run_of F [k] acts F1 S k p _ _ Hk HS ltac:(by left) Hact) as (S1 & HS1 & R1).
  destruct (moves_runs Mc run_of F1 [[58]] [R_write_field] F2 S1 [58] p1 (rset_field_start p x0, es)
    (rset_field_len (u64 (p1 - p)) (rset_field_start p x0), es) Hc HS1 ltac:(by left) eq_refl)
    as (S2 & HS2 & R2).
  exists S2. split; [done|]. eapply runs_then; [reflexivity|exact R1|exact R2].
Qed.

Lemma rconn_part pre close post c : buffer = pre ++ dump_field (connection_field close) ++ post ->
  rreads (g_line f) (if close then g_close f else g_line f) c c (Z.of_nat (length pre)) (dump_field (connection_field close))
    [(RvField (fst (connection_field close)) (snd (connection_field close)), c)].
Proof.
  intros E S x es HS Hc. unfold connection_field in *. cbn [fst snd].
  set (k := str "Connection") in *. set (v := if close then str "Close" else str "Keep-Alive") in *.
  change (if close then (k, str "Close") else (k, str "Keep-Alive")) with (k, v) in *.
  set (p := Z.of_nat (length pre)). set (p1 := p + Z.of_nat (length k)). set (p2 := p1 + 2).
  destruct (field_elements pre k v post p p1 p2 E eq_refl eq_refl eq_refl) as [Ek Ev].
  set (x1 := rset_field_len (u64 (p1 - p)) (rset_field_start p x)).
  pose proof (keyword_runs _ _ _ _ k S p x x es (l_conn f laws) (l_conn_colon f laws) HS eq_refl) as Hname.
  fold p1 x1 in Hname.
  assert (moves Mc (g_conn_blank f) [v] [R_start_value] (if close then g_conn_close f else g_conn_keep f) = true
    /\ moves Mc (if close then g_conn_close f else g_conn_keep f) [crlf] [R_write_value] (if close then g_close f else g_line f) = true)
    as [Hv Hcr] by (destruct laws, close; done).
  destruct (line_runs _ _ _ _ _ k v p p1 p2 S x es x1 (rset_mark p2 x1) (rset_mark p2 x1) [(RvField k v, c)] eq_refl eq_refl
    Hname (l_conn_blank f laws)
    (fun S2 HS2 => moves_runs Mc run_of _ _ _ _ S2 v p2 (rset_mark (p1 + 1) x1, es) (rset_mark p2 x1, es) Hv HS2 ltac:(by left) eq_refl)
    Hcr) as (S4 & HS4 & R4).
  - rrun_step. change (rfield_start x1) with p. change (rfield_len x1) with (u64 (p1 - p)).
    change (rclose x1) with (rclose x). by rewrite Ek, Ev, Hc.
  - exists S4, (rset_mark p2 x1). split; [done|]. split; [|split; [by constructor|done]]. by destruct close.
Qed.

(** After [Connection: Close] the flag is set by the first character of the next
    line. *)
Definition line_of (close : bool) : list (list N) := if close then g_close f else g_line f.

Lemma rlength_part pre close ds post : ds <> [] -> forallb is_digit ds = true ->
  buffer = pre ++ dump_field (str "Content-Length", ds) ++ post ->
  rreads (line_of close) (g_line f) false close (Z.of_nat (length pre)) (dump_field (str "Content-Length", ds))
    [(RvField (str "Content-Length") ds, close)].
Proof.
  intros Hne Hd E S x es HS Hc. set (k := str "Content-Length") in *.
  set (p := Z.of_nat (length pre)). set (p1 := p + Z.of_nat (length k)). set (p2 := p1 + 2).
  destruct (field_elements pre k ds post p p1 p2 E eq_refl eq_refl eq_refl) as [Ek Ev].
  set (x0 := if close then rset_close true x else x). set (x1 := rset_field_len (u64 (p1 - p)) (rset_field_start p x0)).
  assert (exists S1, S1 ∈ g_len_colon f /\ runs S p (k ++ [58]) (x, es) S1 (x1, es)) as Hname.
  { unfold x1, x0. destruct close.
    - by apply (keyword_runs _ _ _ _ k S p x (rset_close true x) es (l_close_len f laws) (l_len_colon f laws) HS eq_refl).
    - by apply (keyword_runs _ _ _ _ k S p x x es (l_len f laws) (l_len_colon f laws) HS eq_refl). }
  set (x3 := rset_mark p2 x1).
  destruct (all_chars_words _ _ (digits_chars ds Hd)) as (toks & Eds & Ht). assert (toks <> []) as Hne' by (by intros ->).
  set (x4 := rset_content_len (rnumber buffer 10 p2) x3).
  destruct (line_runs (g_len_colon f) (g_len_blank f) (g_digits f) (g_line f) [R_write_content_len; R_write_value]
    k ds p p1 p2 S x es x1 x3 x4 [(RvField k ds, close)] eq_refl eq_refl
    Hname (l_len_blank f laws)) as (S4 & HS4 & R4).
  - intros S2 HS2. rewrite Eds.
    exact (text_runs Mc run_of (g_len_blank f) (g_digits f) _ _ toks S2 p2 (rset_mark (p1 + 1) x1, es) (x3, es) (l_digits f laws)
      (l_digits_on f laws) HS2 Hne' Ht eq_refl).
  - exact (l_digits_end f laws).
  - assert (rclose x0 = close) as C by (unfold x0; by destruct close).
    rrun_step. change (rmark x3) with p2. change (rfield_start x3) with p. change (rfield_len x3) with (u64 (p1 - p)).
    change (rclose x3) with (rclose x0). by rewrite Ek, Ev, C.
  - exists S4, x4. split; [done|]. split; [exact R4|]. unfold x4, x3, x1, x0. split; [constructor|]; by destruct close.
Qed.

Lemma rlengths_part pre close body post : Z.of_nat (length body) < 2 ^ 31 ->
  buffer = pre ++ concat (map dump_field (length_fields body)) ++ post ->
  exists a c, a || c = close
    /\ rreads (line_of close) (line_of a) false c (Z.of_nat (length pre)) (concat (map dump_field (length_fields body)))
         (field_reports close (length_fields body)).
Proof.
  intros Hb E. destruct body as [|c0 body]; [exists close, false; split; [by destruct close|apply rreads_nil]|].
  exists false, close. split; [done|]. cbn [length_fields map concat] in *. rewrite app_nil_r in *.
  set (ds := dec (Z.of_nat (length (c0 :: body)))) in *.
  destruct (dec_spec (Z.of_nat (length (c0 :: body)))) as (_ & Hne & Hd); [lia|]. fold ds in Hne, Hd.
  by apply (rlength_part pre close ds post).
Qed.

(** *** The end of the head *)

Lemma rend_run S p x es b a : S ∈ line_of a ->
  exists S' x', exec Mc run_of S p (crlf ++ b) (x, es) = (Ok (S', p + 2), (x', es ++ [(RvHeaderDone, a || rclose x)]))
    /\ is_final Mc S' = true /\ concat (map (outgoing Mc) S') = [] /\ S' <> [] /\ rkeeps x x'.
Proof.
  intros HS. set (x1 := if a then rset_close true x else x).
  assert (exists S1, S1 ∈ g_end f /\ runs S p [13] (x, es) S1 (x1, es)) as (S1 & HS1 & R1).
  { unfold x1. destruct a.
    - exact (moves_runs Mc run_of _ _ _ _ S [13] p (x, es) (rset_close true x, es) (l_close_cr f laws) HS ltac:(by left) eq_refl).
    - exact (moves_runs Mc run_of _ _ _ _ S [13] p (x, es) (x, es) (l_cr f laws) HS ltac:(by left) eq_refl). }
  destruct (l_end f laws S1 HS1) as (T & Hs & Hne & Hfin & Hout).
  change (crlf ++ b) with ([13] ++ [10] ++ b). rewrite R1. cbn [app exec length]. rewrite Hs.
  destruct T as [|q T]; [done|]. cbn [run_acts ract]. unfold rupd, rcallback, mbind, M_bind, mret, M_ret. cbn [fst snd].
  replace (p + Z.of_nat 1 + 1) with (p + 2) by lia.
  assert (rclose x1 = a || rclose x) as C by (unfold x1; by destruct a).
  exists (q :: T), (rset_body_start (p + 2) x1). cbn [rclose rset_body_start]. rewrite C. split; [done|]. split_and!; try done.
  unfold x1. by destruct a.
Qed.

(** *** The head *)

Lemma ordinary_fold k : ordinary k = true -> fold_case k ∉ map fold_case keywords.
Proof.
  unfold ordinary. intros [[_ Hk]%andb_prop Hkw%bool_decide_eq_true]%andb_prop.
  replace (map fold_case keywords) with keywords by (vm_compute; reflexivity).
  replace (fold_case k) with (map tolower k); [done|]. unfold fold_case. f_equal. symmetry. apply c_str_id.
  unfold all_chars in Hk. rewrite forallb_forall in Hk. intros Hc%list_elem_of_In%Hk.
  by vm_compute in Hc.
Qed.

Lemma ordinary_reports c fs fs' : Forall (fun kv => rsp_field_ok kv = true) fs ->
  field_reports c (fs ++ fs') = map (fun kv => (RvField (fst kv) (snd kv), c)) fs ++ field_reports c fs'.
Proof.
  induction 1 as [|[k v] fs [Hk%ordinary_fold _]%andb_prop _ IH]; [done|]. cbn [app map field_reports].
  assert (forall kw, kw ∈ keywords -> strcasecmp k kw =? 0 = false) as Hno.
  { intros kw Hin. rewrite strcasecmp_eq. destruct (bytes_eqb_spec (fold_case k) (fold_case kw)) as [Ek|]; [|done].
    exfalso. apply Hk. cbn [fst]. rewrite Ek. by apply (list_elem_of_fmap_2 fold_case). }
  unfold is_close, is_connection. cbn [fst snd].
  rewrite (Hno (str "connection")) by (by right; left). cbn [andb]. by rewrite orb_false_r, IH.
Qed.

(** A response whose text the grammar has. *)
Definition rsp_parseable (r : HttpResponse) : bool :=
  negb (bytes_eqb (reason_of r) []) && all_chars reason_char (reason_of r) && forallb rsp_field_ok (kept (rs_headers r)).

Lemma rhead_run r b x : rsp_parseable r = true -> rsp_sendable r -> rclose x = false -> buffer = response_head r ++ b ->
  exists S' x', exec Mc run_of [0%N] 0 buffer (x, [])
      = (Ok (S', Z.of_nat (length (response_head r))), (x', response_events r buffer))
    /\ is_final Mc S' = true /\ concat (map (outgoing Mc) S') = [] /\ S' <> [] /\ rkeeps x x'.
Proof.
  intros [[Hne Hreason]%andb_prop Hk]%andb_prop (Hv & Hst & _ & _ & _ & Hbody) Hc E.
  assert (reason_of r <> []) as Hne' by (by intros Er; rewrite Er in Hne). clear Hne.
  assert (Forall (fun kv => rsp_field_ok kv = true) (kept (rs_headers r))) as Hfs.
  { rewrite forallb_forall in Hk. apply Forall_forall. intros kv Hkv. by apply Hk, list_elem_of_In. }
  destruct (dec_spec (rs_status r)) as (_ & Hds & Hdd); [lia|].
  set (vs := dump_version (rs_version r) ++ [32]) in *. set (cs := dec (rs_status r) ++ [32]) in *.
  set (rs := reason_of r ++ crlf) in *. set (fs := concat (map dump_field (kept (rs_headers r)))) in *.
  set (conn := connection_field (rs_close r)) in *. set (ls := concat (map dump_field (length_fields (rs_body r)))) in *.
  assert (response_head r = ((((vs ++ cs) ++ rs) ++ fs) ++ dump_field conn) ++ ls ++ crlf) as Eh.
  { unfold response_head, status_part, vs, cs, rs, fs, ls. fold conn. rewrite u32_small by lia.
    rewrite map_app, concat_app. cbn [map concat]. by rewrite <-!app_assoc. }
  rewrite Eh in E.
  pose proof (rversion_part (rs_version r) (cs ++ rs ++ fs ++ dump_field conn ++ ls ++ crlf ++ b) false Hv
    ltac:(rewrite E; unfold vs; by rewrite <-!app_assoc)) as R1. fold vs in R1.
  pose proof (rcode_part vs (dec (rs_status r)) (rs ++ fs ++ dump_field conn ++ ls ++ crlf ++ b) false Hds Hdd
    ltac:(rewrite E; unfold cs; by rewrite <-!app_assoc)) as R2. fold cs in R2.
  pose proof (rreason_part (vs ++ cs) (reason_of r) (fs ++ dump_field conn ++ ls ++ crlf ++ b) false Hne' Hreason
    ltac:(rewrite E; unfold rs; by rewrite <-!app_assoc)) as R3. fold rs in R3.
  pose proof (rfields_part false (kept (rs_headers r)) ((vs ++ cs) ++ rs) (dump_field conn ++ ls ++ crlf ++ b) Hfs
    ltac:(rewrite E; unfold fs; by rewrite <-!app_assoc)) as R4. fold fs in R4.
  pose proof (rconn_part (((vs ++ cs) ++ rs) ++ fs) (rs_close r) (ls ++ crlf ++ b) false
    ltac:(rewrite E; unfold conn; by rewrite <-!app_assoc)) as R5. fold conn in R5.
  destruct (rlengths_part ((((vs ++ cs) ++ rs) ++ fs) ++ dump_field conn) (rs_close r) (rs_body r) (crlf ++ b) Hbody
    ltac:(rewrite E; unfold ls; by rewrite <-!app_assoc)) as (a & c & Hac & R6). fold ls in R6.
  pose proof (rreads_app _ _ _ _ _ _ 0 _ _ _ _ _ eq_refl R1 R2) as R12.
  pose proof (rreads_app _ _ _ _ _ _ 0 _ _ _ _ _ eq_refl R12 R3) as R13.
  pose proof (rreads_app _ _ _ _ _ _ 0 _ _ _ _ _ eq_refl R13 R4) as R14.
  pose proof (rreads_app _ _ _ _ _ _ 0 _ _ _ _ _ eq_refl R14 R5) as R15.
  pose proof (rreads_app _ _ _ _ _ _ 0 _ _ _ _ _ eq_refl R15 R6) as R16.
  clear R1 R2 R3 R4 R5 R6 R12 R13 R14 R15.
  destruct (R16 [0%N] x [] ltac:(by left) Hc) as (S1 & x1 & HS1 & R0 & K1 & C1).
  match type of R0 with runs_to _ _ _ _ ?w0 _ _ (_, ?es) => set (w := w0) in *; set (evs := es) in * end.
  destruct (rend_run S1 (0 + Z.of_nat (length w)) x1 evs b a HS1) as (S2 & x2 & He & Hf & Ho & Hn & K2).
  exists S2, x2. split; [|split_and!; try done; by eapply rkeeps_trans].
  assert (buffer = w ++ crlf ++ b) as Eb by (rewrite E; unfold w; by rewrite <-!app_assoc).
  etrans; [apply (f_equal (fun s => exec Mc run_of [0%N] 0 s (x, [])) Eb)|]. cbv beta. rewrite R0, He. f_equal.
  - do 2 f_equal. rewrite Eh. unfold w. rewrite !length_app. cbn [crlf str length]. lia.
  - f_equal. unfold evs, response_events, response_fields. fold vs conn. rewrite C1, Hac, (ordinary_reports _ _ _ Hfs).
    cbn [field_reports app]. assert (is_close conn = rs_close r) as -> by (unfold conn; by destruct (rs_close r)).
    cbn [map app orb]. by rewrite <-!app_assoc.
Qed.
End Reads.

(** ** Safety *)

(** The marks are positions up to [p] in a buffer of [len] bytes. *)
Record rmarks_ok (len p : Z) (x : httpclient_parser) : Prop := {
  rmk_mark : 0 <= rmark x <= p /\ rmark x < len;
  rmk_field : 0 <= rfield_start x <= p /\ rfield_start x < len;
  rmk_len : 0 <= rfield_len x <= len;
  rmk_body : 0 <= rbody_start x <= len
}.

Section Safety.
Variable buffer : bytes.
Notation len := (Z.of_nat (length buffer)).
Hypothesis small : len < 2 ^ 31.

Definition rgoing x (p : Z) (u : rsp_running) : Prop :=
  rmarks_ok len p (fst u) /\ rcs (fst u) = rcs x /\ rnread (fst u) = rnread x.

Lemma ract_going x a p u : 0 <= p < len -> rgoing x p u -> exists stop u', ract buffer a p u = (Ok stop, u') /\ rgoing x p u'.
Proof.
  intros Hp ([[H1 H2] [H3 H4] H5 H6] & Hcs & Hn). destruct u as [y es]. cbn [fst] in *.
  destruct a; unfold ract, rupd, rcallback, mbind, M_bind; cbn [fst snd];
    (eexists _, _; split; [reflexivity|]; split; [|done]; constructor;
      cbn [fst rmark rfield_start rfield_len rbody_start rset_mark rset_field_start rset_field_len rset_content_len rset_close
        rset_status rset_chunked rset_body_start];
      rewrite ?u64_small by lia; lia).
Qed.

Lemma rgoing_later x p q u : rgoing x p u -> p <= q -> rgoing x q u.
Proof. intros ([[] [] ? ?] & ? & ?) ?. split; [constructor; lia|done]. Qed.

(** What [httpclient_parser_execute] comes to, for any machine. *)
Lemma rexecute_run x es : buffer <> [] -> 0 <= rbody_start x <= len ->
  exists S' q u', exec rsp_machine (ract buffer) (rcs x) 0 buffer (rreset_marks x, es) = (Ok (S', q), u')
    /\ 0 <= q <= len /\ 0 <= rbody_start (fst u') <= len
    /\ httpclient_parser_execute buffer 0 (x, es) = (Ok q, (rset_nread q (rset_cs S' (fst u')), snd u')).
Proof.
  intros Hne Hb. assert (0 < len) as Hpos by (destruct buffer; [done|cbn [length]; lia]).
  destruct (exec_total rsp_machine (ract buffer) (rgoing (rreset_marks x)) len (ract_going (rreset_marks x))
      (rgoing_later (rreset_marks x)) buffer (rcs x) 0 (rreset_marks x, es)) as
    (S' & q & u' & E & Hq & [Hm1 Hm2 Hm3 Hm4] & Hcs & Hn); [lia|lia|split; [constructor; cbn; lia|done]|].
  exists S', q, u'. cbn [fst rcs rreset_marks rnread] in Hcs, Hn. split; [done|]. split; [lia|]. split; [done|].
  unfold httpclient_parser_execute. mstep. cbn [fst snd rreset_marks rcs].
  rewrite (proj2 (Z.leb_le 0 len)) by lia. mstep. rewrite same_distance_start, (proj2 (Z.ltb_lt len (2 ^ 31))) by lia.
  change (drop (Z.to_nat 0) buffer) with buffer.
  match goal with |- context [exec rsp_machine ?a ?b ?c ?d ?e] =>
    change (exec rsp_machine a b c d e) with (exec rsp_machine (ract buffer) (rcs x) 0 buffer (rreset_marks x, es)) end.
  rewrite E. mstep. rewrite (proj2 (Z.leb_le q len)) by lia. mstep.
  cbn [fst snd rnread rset_nread rbody_start rset_cs rmark rfield_len rfield_start]. rewrite Hn, Z.sub_0_r, Z.add_0_l.
  rewrite (proj2 (Z.leb_le q len)), (proj2 (Z.leb_le _ len)), (proj2 (Z.ltb_lt _ len)), (proj2 (Z.leb_le _ len)),
    (proj2 (Z.ltb_lt _ len)) by lia. done.
Qed.
End Safety.

(** Whatever bytes it is given, [httpclient_parser_execute] comes to an end
    within all its assertions and checks: it returns how many bytes of the buffer
    it has consumed, and leaves the parser in a state in which it can be called
    again. *)
Theorem httpclient_parser_execute_safe buffer x :
  buffer <> [] -> Z.of_nat (length buffer) < 2 ^ 31 -> 0 <= rbody_start x <= Z.of_nat (length buffer) ->
  exists n x' evs, httpclient_parser_execute buffer 0 (x, []) = (Ok n, (x', evs))
    /\ 0 <= n <= Z.of_nat (length buffer) /\ 0 <= rbody_start x' <= Z.of_nat (length buffer).
Proof.
  intros Hne Hl Hb. destruct (rexecute_run buffer Hl x [] Hne Hb) as (S' & q & [x1 evs] & _ & Hq & Hb' & Hrun).
  by exists q, (rset_nread q (rset_cs S' x1)), evs.
Qed.

(** The parser on the head of a serialised response. *)
Lemma httpclient_parser_reads_head memory r b :
  rsp_parseable r = true -> rsp_sendable r -> Z.of_nat (length (response_head r ++ b)) < 2 ^ 31 ->
  exists x', httpclient_parser_execute (response_head r ++ b) 0 (httpclient_parser_init memory, [])
      = (Ok (Z.of_nat (length (response_head r))), (x', response_events r (response_head r ++ b)))
    /\ httpclient_parser_finish x' = 1 /\ httpclient_parser_has_error x' = false /\ rchunked x' = false.
Proof.
  intros Hp Hs Hl. set (x := httpclient_parser_init memory). pose proof (response_head_nonempty r) as Hpos.
  assert (response_head r ++ b <> []) as Hne.
  { intros E. apply (f_equal length) in E. rewrite length_app in E. cbn [length] in E. lia. }
  destruct (rexecute_run (response_head r ++ b) Hl x [] Hne ltac:(cbn; lia)) as (S' & q & u' & Ex & Hq & _ & Hrun).
  destruct (rhead_run rsp_families rsp_family_laws (response_head r ++ b) ltac:(lia) r b (rreset_marks x) Hp Hs eq_refl eq_refl)
    as (S2 & x2 & Ex2 & Hfin & Hout & HS2 & [Kc Kch _]).
  change (rcs x) with [0%N] in Ex. change (rm rsp_families) with rsp_machine in *.
  rewrite Ex2 in Ex. injection Ex as <- <- <-. cbn [fst snd] in *.
  set (x' := rset_nread _ (rset_cs S2 x2)) in Hrun. assert (rcs x' = S2) as E1 by exact eq_refl.
  assert (rchunked x' = false) as E2 by exact Kch.
  clearbody x'. exists x'. split; [exact Hrun|].
  assert (httpclient_parser_has_error x' = false) as He
    by (unfold httpclient_parser_has_error; rewrite E1; by apply bool_decide_eq_false).
  split; [|by split]. unfold httpclient_parser_finish, httpclient_parser_is_finished. by rewrite He, E1, Hfin, Hout.
Qed.

(** A response serialised by [HttpResponse::dump] is parsed back: whatever
    follows it and whatever was in the parser's memory, the parser stops after
    the head and has called back version, status, reason, the fields in order and
    the end of the head, with their text and with the connection flag as it was
    at the time. *)
Theorem httpclient_parser_reads_dump memory r b :
  rsp_parseable r = true -> rsp_sendable r -> Z.of_nat (length (response_head r ++ b)) < 2 ^ 31 ->
  exists x', httpclient_parser_execute (response_head r ++ b) 0 (httpclient_parser_init memory, [])
      = (Ok (Z.of_nat (length (response_head r))), (x', response_events r (response_head r ++ b)))
    /\ httpclient_parser_finish x' = 1 /\ httpclient_parser_has_error x' = false /\ rchunked x' = false.
Proof. apply httpclient_parser_reads_head. Qed.

Lemma response_head_parsed memory r b :
  rsp_parseable r = true -> rsp_sendable r -> Z.of_nat (length (response_head r ++ b)) < 2 ^ 31 ->
  exists x', @head_parsed httpclient_parser (response_automaton memory) r b x'
    /\ @rs_chunked httpclient_parser (response_automaton memory) x' = false.
Proof.
  intros Hp Hs Hl. destruct (httpclient_parser_reads_head memory r b Hp Hs Hl) as (x' & Hx & Hfin & Herr & Hch).
  exists x'. split; [|exact Hch]. split; [|split; [exact Herr|exact Hfin]].
  cbn [rs_execute rs_init rs_zero response_automaton]. by rewrite Hx.
Qed.

(** C17: a response that a server serialises is the response the client receives
    through the parser of the grammar: the same status, version, reason, body and
    keep-alive flag, and the same headers but for the two that [dump] writes itself
    (connection and content-length).  This holds where the text of the response is in
    the grammar ([rsp_parseable]: a reason, and fields other than those the grammar
    treats on their own) and it can be sent ([rsp_sendable]: version 1.0 or 1.1, no
    content-length of its own, a body below 2^31 bytes), and where the first segment
    holds the whole head and fits into the client's buffer; the rest of the body may be
    cut into any segments, and what comes after the last of them stays unread.  Other
    servers' heads may never be finished: one with an empty length is not
    ([empty_length_unfinished]). *)
Theorem recvResponse_parses memory lexical_cast r b1 segs later out fuel buffer_size :
  (forall n, 0 <= n < 2 ^ 31 -> lexical_cast (dec n) = Some n) ->
  rsp_parseable r = true -> rsp_sendable r ->
  Forall (fun c => c <> []) segs -> (response_head r ++ b1) ++ concat segs = HttpResponse_dump r ->
  Z.of_nat (length (response_head r ++ b1)) <= buffer_size < 2 ^ 31 -> (length segs < fuel)%nat ->
  exists r',
    @recvResponse httpclient_parser (response_automaton memory) _ _ lexical_cast fuel buffer_size
        (peer_with ((response_head r ++ b1) :: segs ++ later) out) = (Ok (Some r'), peer_with later out)
    /\ rs_status r' = rs_status r /\ rs_version r' = rs_version r /\ rs_body r' = rs_body r
    /\ rs_close r' = rs_close r /\ rs_reason r' = reason_of r
    /\ forall k def, ~ same_key k (str "connection") -> ~ same_key k (str "content-length") ->
         rsp_getHeaders r' k def = rsp_getHeaders r k def.
Proof.
  intros Hcast Hp Hs Hsegs Hmsg Hbuf Hf.
  destruct (response_head_parsed memory r b1 Hp Hs ltac:(lia)) as (x' & Hh & Hch). exists (rsp_received r (rs_body r)).
  split; [|split_and!; try done; intros k def; by apply rsp_received_getHeaders].
  by apply (@rsp_recv_delivers httpclient_parser (response_automaton memory) lexical_cast Hcast r b1 segs later out fuel
    buffer_size x').
Qed.

(** ** What the grammar does beyond its intention *)

Definition client_memory : httpclient_parser := mkRspParser [] 7 7 7 true true true 7 7 7 7.

(** The state, the flags and the number of bytes after a call. *)
Definition rsp_reported (s : bytes) : Z * list (response_event * bool) * Z :=
  match httpclient_parser_execute s 0 (httpclient_parser_init client_memory, []) with
  | (Ok n, (x, evs)) => (httpclient_parser_finish x, evs, n)
  | (Err _, (x, evs)) => (-2, evs, 0)
  end.

(** [is_finished] compares with the first final state, but the machine has more than
    one: after an empty length the end of the head may still be a part of a field,
    so that the head is never finished. *)
Lemma empty_length_unfinished :
  let s := str "HTTP/1.1 200 OK" ++ crlf ++ str "Content-Length:" ++ crlf ++ crlf in
  fst (fst (rsp_reported s)) = 0 /\ snd (rsp_reported s) = Z.of_nat (length s).
Proof. by vm_compute. Qed.

(** The header of a chunk is read where a response is expected. *)
Lemma chunk_for_response :
  rsp_reported (str "1f" ++ crlf) = (1, [(RvChunk (str "1f"), false); (RvHeaderDone, false)], 4).
Proof. by vm_compute. Qed.

(** ** Witnesses *)

Lemma httpclient_parser_execute_safe_witness :
  exists n x' evs, httpclient_parser_execute (str "HTTP/x") 0 (httpclient_parser_init client_memory, []) = (Ok n, (x', evs))
    /\ 0 <= n <= 6 /\ 0 <= rbody_start x' <= 6.
Proof. apply (httpclient_parser_execute_safe (str "HTTP/x") (httpclient_parser_init client_memory)); cbn; [done|lia|lia]. Defined.

Lemma httpclient_parser_reads_dump_witness :
  exists x', httpclient_parser_execute (response_head demo_response ++ str "ok") 0 (httpclient_parser_init client_memory, [])
      = (Ok (Z.of_nat (length (response_head demo_response))), (x', response_events demo_response (response_head demo_response ++ str "ok")))
    /\ httpclient_parser_finish x' = 1 /\ httpclient_parser_has_error x' = false /\ rchunked x' = false.
Proof.
  apply (httpclient_parser_reads_dump client_memory demo_response (str "ok"));
    [by vm_compute|exact demo_rsp_sendable|by vm_compute].
Defined.

Lemma recvResponse_parses_witness :
  exists r',
    @recvResponse httpclient_parser (response_automaton client_memory) _ _ ref_cast 5 4096
      (peer_with ((response_head demo_response ++ str "o") :: [str "k"] ++ [str "HTTP"]) [])
      = (Ok (Some r'), peer_with [str "HTTP"] [])
    /\ rs_status r' = 200 /\ rs_version r' = 17 /\ rs_body r' = str "ok"
    /\ rs_close r' = true /\ rs_reason r' = HttpStatusToString 200
    /\ forall k def, ~ same_key k (str "connection") -> ~ same_key k (str "content-length") ->
         rsp_getHeaders r' k def = rsp_getHeaders demo_response k def.
Proof.
  apply (recvResponse_parses client_memory ref_cast demo_response (str "o") [str "k"] [str "HTTP"] [] 5 4096);
    [exact ref_cast_dec|by vm_compute|exact demo_rsp_sendable|by repeat constructor
    |vm_compute; reflexivity|vm_compute; split; [discriminate|reflexivity]|cbn; lia].
Defined.
