(* ===== verification/HttpPool.v ===== *)
(** * The connection pool ([src/src/http_connection.cc], class [HttpConnectionPool])

    [getConnection] and [ReleasePtr] lock the list of idle connections only in
    parts; the count of connections is an atomic of its own.  Each part is a
    step of the thread that executes it, and the pool is the interleaving of the
    steps of any number of threads. *)
From S2P Require Import Prelude.

(** [src/include/http/http_connection.hh:178-179 HttpConnection]
    With the state of its socket; [c_id] is the object's address. *)
Record HttpConn := mkConn { c_id : nat; c_createTime : Z; c_request : Z; c_connected : bool }.

(** [src/include/http/http_connection.hh:314-339 HttpConnectionPool] *)
Record HttpConnectionPool := mkPool {
  hp_conns : list HttpConn; hp_total : Z; hp_maxSize : Z; hp_maxAliveTime : Z; hp_maxRequest : Z
}.

Definition set_conns (cs : list HttpConn) (p : HttpConnectionPool) : HttpConnectionPool :=
  mkPool cs (hp_total p) (hp_maxSize p) (hp_maxAliveTime p) (hp_maxRequest p).
Definition set_total (n : Z) (p : HttpConnectionPool) : HttpConnectionPool :=
  mkPool (hp_conns p) n (hp_maxSize p) (hp_maxAliveTime p) (hp_maxRequest p).

(** [src/src/http_connection.cc:320-326 HttpConnectionPool::HttpConnectionPool] *)
Definition HttpConnectionPool_new (max_size max_alive_time max_request : Z) : HttpConnectionPool :=
  mkPool [] 0 max_size max_alive_time max_request.

Definition expired (p : HttpConnectionPool) (now : Z) (c : HttpConn) : bool :=
  u64 (c_createTime c + hp_maxAliveTime p) <=? now.

(** [src/src/http_connection.cc:336-349 HttpConnectionPool::getConnection]
    The connections found invalid, the one taken and those left. *)
Fixpoint pop_loop (p : HttpConnectionPool) (now : Z) (conns : list HttpConn)
    : list HttpConn * option HttpConn * list HttpConn :=
  match conns with
  | [] => ([], None, [])
  | c :: conns =>
      if negb (c_connected c) || expired p now c then
        let '(inv, ptr, rest) := pop_loop p now conns in (c :: inv, ptr, rest)
      else ([], Some c, conns)
  end.

(** [src/src/http_connection.cc:353-357 HttpConnectionPool::getConnection]
    The invalid connections are deleted and counted off. *)
Definition count_off (inv : list HttpConn) (p : HttpConnectionPool) : HttpConnectionPool :=
  set_total (u32 (hp_total p - Z.of_nat (length inv))) p.

(** [src/src/http_connection.cc:363-369 HttpConnectionPool::getConnection] *)
Definition is_full (p : HttpConnectionPool) : bool := hp_maxSize p <=? hp_total p.

(** [src/src/http_connection.cc:390-391 HttpConnectionPool::getConnection] *)
Definition count_new (p : HttpConnectionPool) : HttpConnectionPool := set_total (u32 (hp_total p + 1)) p.

Definition HttpConn_new (id : nat) (now : Z) : HttpConn := mkConn id now 0 true.

Definition count_request (c : HttpConn) : HttpConn :=
  mkConn (c_id c) (c_createTime c) (u64 (c_request c + 1)) (c_connected c).

(** [src/src/http_connection.cc:403-405 HttpConnectionPool::ReleasePtr]
    Whether a connection that comes back is deleted. *)
Definition spent (p : HttpConnectionPool) (now : Z) (c : HttpConn) : bool :=
  negb (c_connected c) || expired p now c || (hp_maxRequest p <=? c_request c).

(** [src/src/http_connection.cc:400-414 HttpConnectionPool::ReleasePtr] *)
Definition ReleasePtr (now : Z) (c : HttpConn) (p : HttpConnectionPool) : HttpConnectionPool :=
  let c := count_request c in
  if spent p now c then set_total (u32 (hp_total p - 1)) p else set_conns (hp_conns p ++ [c]) p.

(** ** Interleavings *)

(** Where a thread is. *)
Inductive client :=
| Idle
| Popped (inv : list HttpConn) (ptr : option HttpConn)
| Checking
| Connecting
| Holding (c : HttpConn).

Record system := mkSys { sys_pool : HttpConnectionPool; sys_threads : list client; sys_next : nat }.

Definition disconnect (c : HttpConn) : HttpConn :=
  mkConn (c_id c) (c_createTime c) (c_request c) false.

(** [src/src/http_connection.cc:328-414 HttpConnectionPool::getConnection]
    One step of one thread, or a connection closed by its peer. *)
Inductive step : system -> system -> Prop :=
| step_pop p l1 l2 n now inv ptr rest :
    pop_loop p now (hp_conns p) = (inv, ptr, rest) ->
    step (mkSys p (l1 ++ Idle :: l2) n) (mkSys (set_conns rest p) (l1 ++ Popped inv ptr :: l2) n)
| step_count p l1 l2 n inv ptr :
    step (mkSys p (l1 ++ Popped inv ptr :: l2) n)
         (mkSys (count_off inv p) (l1 ++ (match ptr with Some c => Holding c | None => Checking end) :: l2) n)
| step_full p l1 l2 n :
    is_full p = true -> step (mkSys p (l1 ++ Checking :: l2) n) (mkSys p (l1 ++ Idle :: l2) n)
| step_check p l1 l2 n :
    is_full p = false -> step (mkSys p (l1 ++ Checking :: l2) n) (mkSys p (l1 ++ Connecting :: l2) n)
| step_connect_fail p l1 l2 n :
    step (mkSys p (l1 ++ Connecting :: l2) n) (mkSys p (l1 ++ Idle :: l2) n)
| step_connect p l1 l2 n now :
    step (mkSys p (l1 ++ Connecting :: l2) n)
         (mkSys (count_new p) (l1 ++ Holding (HttpConn_new n now) :: l2) (S n))
| step_lost_held p l1 l2 n c :
    step (mkSys p (l1 ++ Holding c :: l2) n) (mkSys p (l1 ++ Holding (disconnect c) :: l2) n)
| step_lost_idle p ts n c1 c c2 :
    hp_conns p = c1 ++ c :: c2 ->
    step (mkSys p ts n) (mkSys (set_conns (c1 ++ disconnect c :: c2) p) ts n)
| step_release p l1 l2 n c now :
    step (mkSys p (l1 ++ Holding c :: l2) n) (mkSys (ReleasePtr now c p) (l1 ++ Idle :: l2) n).

Definition initial (threads : nat) (max_size max_alive_time max_request : Z) : system :=
  mkSys (HttpConnectionPool_new max_size max_alive_time max_request) (repeat Idle threads) 0.

(** ** The invariant *)

(** The connections a thread has in its hands. *)
Definition held (t : client) : list HttpConn :=
  match t with
  | Popped inv ptr => inv ++ match ptr with Some c => [c] | None => [] end
  | Holding c => [c]
  | _ => []
  end.

Definition connecting (t : client) : nat := match t with Connecting => 1 | _ => 0 end.

Definition held_all (ts : list client) : list HttpConn := concat (map held ts).

(** All the connections there are. *)
Definition all_conns (s : system) : list HttpConn := hp_conns (sys_pool s) ++ held_all (sys_threads s).

Definition connecting_all (ts : list client) : nat := list_sum (map connecting ts).

Record pool_inv (maxs : Z) (threads : nat) (s : system) : Prop := {
  pi_total : hp_total (sys_pool s) = Z.of_nat (length (all_conns s));
  pi_bound : hp_total (sys_pool s) + Z.of_nat (connecting_all (sys_threads s)) <= maxs + Z.of_nat threads - 1;
  pi_ids : NoDup (map c_id (all_conns s));
  pi_fresh : forall c, c ∈ all_conns s -> (c_id c < sys_next s)%nat;
  pi_max : hp_maxSize (sys_pool s) = maxs;
  pi_threads : length (sys_threads s) = threads
}.

Lemma held_all_app l1 t l2 : held_all (l1 ++ t :: l2) = held_all l1 ++ held t ++ held_all l2.
Proof. unfold held_all. rewrite map_app, concat_app. done. Qed.

Lemma connecting_app l1 t l2 :
  connecting_all (l1 ++ t :: l2) = (connecting_all l1 + (connecting t + connecting_all l2))%nat.
Proof. unfold connecting_all. rewrite map_app, list_sum_app. done. Qed.

Lemma connecting_le ts : (connecting_all ts <= length ts)%nat.
Proof.
  induction ts as [|t ts IH]; [done|]. unfold connecting_all in *. cbn [map list_sum length].
  destruct t; cbn [connecting]; unfold list_sum in *; cbn; lia.
Qed.

Lemma pop_loop_split p now conns : forall inv ptr rest, pop_loop p now conns = (inv, ptr, rest) ->
  conns = inv ++ match ptr with Some c => [c] | None => [] end ++ rest
  /\ (forall c, ptr = Some c -> c_connected c = true /\ expired p now c = false)
  /\ (ptr = None -> rest = []).
Proof.
  induction conns as [|c conns IH]; intros inv ptr rest; cbn [pop_loop].
  - by intros [= <- <- <-].
  - destruct (negb (c_connected c) || expired p now c) eqn:E.
    + destruct (pop_loop p now conns) as [[inv' ptr'] rest'] eqn:Ep. intros [= <- <- <-].
      destruct (IH _ _ _ eq_refl) as (-> & H2 & H3). done.
    + intros [= <- <- <-]. apply orb_false_iff in E as [E1%negb_false_iff E2].
      split_and!; try done. by intros ? [= <-].
Qed.

(** What the invariant says of a state is preserved when the connections are
    rearranged. *)
Lemma inv_perm maxs threads p ts n p' ts' :
  pool_inv maxs threads (mkSys p ts n) ->
  all_conns (mkSys p' ts' n) ≡ₚ all_conns (mkSys p ts n) ->
  hp_total p' = hp_total p -> hp_maxSize p' = hp_maxSize p -> length ts' = length ts ->
  (connecting_all ts' <= connecting_all ts)%nat ->
  pool_inv maxs threads (mkSys p' ts' n).
Proof.
  intros [Ht Hb Hi Hf Hm Hth] Hp E1 E2 E3 Hc. cbn [sys_pool sys_threads sys_next] in *.
  constructor; cbn [sys_pool sys_threads sys_next].
  - by rewrite E1, Ht, Hp.
  - rewrite E1. lia.
  - by rewrite Hp.
  - intros c. rewrite Hp. apply Hf.
  - congruence.
  - congruence.
Qed.

(** The same for steps that change the connections but not which there are. *)
Lemma inv_ids maxs threads p ts n p' ts' :
  pool_inv maxs threads (mkSys p ts n) ->
  map c_id (all_conns (mkSys p' ts' n)) ≡ₚ map c_id (all_conns (mkSys p ts n)) ->
  hp_total p' = hp_total p -> hp_maxSize p' = hp_maxSize p -> length ts' = length ts ->
  (connecting_all ts' <= connecting_all ts)%nat ->
  pool_inv maxs threads (mkSys p' ts' n).
Proof.
  intros [Ht Hb Hi Hf Hm Hth] Hp E1 E2 E3 Hc. cbn [sys_pool sys_threads sys_next] in *.
  constructor; cbn [sys_pool sys_threads sys_next].
  - rewrite E1, Ht. apply Permutation_length in Hp. rewrite !length_map in Hp. lia.
  - rewrite E1. lia.
  - by rewrite Hp.
  - intros c Hc'. apply (list_elem_of_fmap_2 c_id) in Hc'. change (c_id <$> ?l) with (map c_id l) in Hc'.
    rewrite Hp in Hc'. apply list_elem_of_fmap in Hc' as (c' & -> & Hc'). by apply Hf.
  - congruence.
  - congruence.
Qed.

(** Connections that are deleted are counted off. *)
Lemma inv_drop maxs threads p ts n p' ts' (gone : list HttpConn) :
  pool_inv maxs threads (mkSys p ts n) ->
  all_conns (mkSys p ts n) ≡ₚ all_conns (mkSys p' ts' n) ++ gone ->
  hp_total p' = u32 (hp_total p - Z.of_nat (length gone)) -> maxs + Z.of_nat threads < 2 ^ 32 ->
  hp_maxSize p' = hp_maxSize p -> length ts' = length ts ->
  (connecting_all ts' <= connecting_all ts)%nat ->
  pool_inv maxs threads (mkSys p' ts' n).
Proof.
  intros [Ht Hb Hi Hf Hm Hth] Hp E1 Hlt E2 E3 Hc. cbn [sys_pool sys_threads sys_next] in *.
  rewrite Hp in Ht, Hi. rewrite length_app in Ht. rewrite map_app in Hi. apply NoDup_app in Hi as [Hi _].
  rewrite u32_small in E1 by lia.
  constructor; cbn [sys_pool sys_threads sys_next]; try done || congruence || lia.
  intros c Hc'. apply Hf. rewrite Hp. apply elem_of_app. by left.
Qed.

Lemma step_inv maxs threads s s' :
  0 <= maxs -> maxs + Z.of_nat threads < 2 ^ 32 ->
  pool_inv maxs threads s -> step s s' -> pool_inv maxs threads s'.
Proof.
  intros H0 Hlt Hinv Hstep. destruct Hstep as
    [p l1 l2 n now inv ptr rest Hpop|p l1 l2 n inv ptr|p l1 l2 n Hfull|p l1 l2 n Hfull|p l1 l2 n
    |p l1 l2 n now|p l1 l2 n c|p ts n c1 c c2 Hcs|p l1 l2 n c now].
  - apply pop_loop_split in Hpop as (Hsplit & _ & _).
    eapply inv_perm; [exact Hinv| |done|done|by rewrite !length_app|by rewrite !connecting_app].
    unfold all_conns. cbn [sys_pool sys_threads set_conns hp_conns]. rewrite !held_all_app, Hsplit.
    cbn [held]. destruct ptr; solve_Permutation.
  - apply (inv_drop _ _ p (l1 ++ Popped inv ptr :: l2) n _ _ inv);
      [done| |done|done|done|by rewrite !length_app|].
    + unfold all_conns. cbn [sys_pool sys_threads count_off set_total hp_conns]. rewrite !held_all_app.
      cbn [held]. destruct ptr; cbn [held]; solve_Permutation.
    + rewrite !connecting_app. destruct ptr; cbn; lia.
  - eapply inv_perm; [exact Hinv| |done|done|by rewrite !length_app|by rewrite !connecting_app].
    unfold all_conns. cbn [sys_pool sys_threads]. by rewrite !held_all_app.
  - destruct Hinv as [Ht Hb Hi Hf Hm Hth]. cbn [sys_pool sys_threads sys_next] in *.
    unfold is_full in Hfull. apply Z.leb_gt in Hfull.
    constructor; cbn [sys_pool sys_threads sys_next]; try done.
    + rewrite Ht. unfold all_conns. cbn [sys_pool sys_threads]. by rewrite !held_all_app.
    + pose proof (connecting_le (l1 ++ Connecting :: l2)) as Hc.
      rewrite length_app in Hc, Hth. cbn [length] in Hc, Hth. lia.
    + unfold all_conns in *. cbn [sys_pool sys_threads] in *. by rewrite !held_all_app in *.
    + unfold all_conns in *. cbn [sys_pool sys_threads] in *. by rewrite !held_all_app in *.
    + rewrite <-Hth, !length_app. done.
  - eapply inv_perm; [exact Hinv| |done|done|by rewrite !length_app|rewrite !connecting_app; cbn; lia].
    unfold all_conns. cbn [sys_pool sys_threads]. by rewrite !held_all_app.
  - destruct Hinv as [Ht Hb Hi Hf Hm Hth]. cbn [sys_pool sys_threads sys_next] in *.
    rewrite connecting_app in Hb. cbn [connecting] in Hb.
    assert (hp_total (count_new p) = hp_total p + 1) as Et.
    { cbn. rewrite u32_small by lia. done. }
    assert (all_conns (mkSys (count_new p) (l1 ++ Holding (HttpConn_new n now) :: l2) (S n))
      ≡ₚ HttpConn_new n now :: all_conns (mkSys p (l1 ++ Connecting :: l2) n)) as Hp.
    { unfold all_conns. cbn [sys_pool sys_threads count_new set_total hp_conns]. rewrite !held_all_app.
      cbn [held]. solve_Permutation. }
    constructor; cbn [sys_pool sys_threads sys_next].
    + rewrite Hp, Et. cbn [length]. lia.
    + rewrite Et, connecting_app. cbn [connecting]. lia.
    + rewrite Hp. cbn [map]. apply NoDup_cons. split; [|done].
      intros (c & E & Hc)%list_elem_of_fmap. apply Hf in Hc. cbn in E. lia.
    + intros c. rewrite Hp. intros [->|Hc]%elem_of_cons; [cbn; lia|]. apply Hf in Hc. lia.
    + done.
    + by rewrite <-Hth, !length_app.
  - eapply (inv_ids _ _ p (l1 ++ Holding c :: l2) n); [exact Hinv|..]; try done.
    + unfold all_conns. cbn [sys_pool sys_threads]. rewrite !held_all_app, !map_app. done.
    + by rewrite !length_app.
    + by rewrite !connecting_app.
  - eapply (inv_ids _ _ p ts n); [exact Hinv|..]; try done.
    unfold all_conns. cbn [sys_pool sys_threads set_conns hp_conns]. rewrite Hcs, !map_app. done.
  - unfold ReleasePtr. destruct (spent _ _ _).
    + apply (inv_drop _ _ p (l1 ++ Holding c :: l2) n _ _ [c]);
        [done| |done|done|done|by rewrite !length_app|by rewrite !connecting_app].
      unfold all_conns. cbn [sys_pool sys_threads set_total hp_conns]. rewrite !held_all_app.
      cbn [held]. solve_Permutation.
    + eapply (inv_ids _ _ p (l1 ++ Holding c :: l2) n); [exact Hinv|..]; try done.
      * unfold all_conns. cbn [sys_pool sys_threads set_conns hp_conns]. rewrite !held_all_app, !map_app.
        cbn [held map c_id]. solve_Permutation.
      * by rewrite !length_app.
      * by rewrite !connecting_app.
Qed.

Lemma pool_steps_inv maxs threads s s' :
  0 <= maxs -> maxs + Z.of_nat threads < 2 ^ 32 ->
  rtc step s s' -> pool_inv maxs threads s -> pool_inv maxs threads s'.
Proof.
  intros H0 Hlt Hsteps. induction Hsteps as [s0|s0 s1 s2 Hs _ IH]; intros Hinv; [done|].
  apply IH. by eapply step_inv.
Qed.

Lemma initial_inv threads maxs alive maxr :
  0 <= maxs -> (0 < threads)%nat -> pool_inv maxs threads (initial threads maxs alive maxr).
Proof.
  intros H0 Ht.
  assert (held_all (repeat Idle threads) = [] /\ connecting_all (repeat Idle threads) = 0%nat) as [Hh Hc].
  { clear. induction threads as [|n [IH1 IH2]]; [done|]. cbn [repeat]. split; [exact IH1|exact IH2]. }
  constructor; unfold all_conns; cbn [initial sys_pool sys_threads sys_next HttpConnectionPool_new hp_conns hp_total];
    rewrite ?Hh, ?Hc; cbn [app length map]; try lia.
  - constructor.
  - intros c Hc'. by apply not_elem_of_nil in Hc'.
  - done.
  - apply repeat_length.
Qed.

(** C14: in every interleaving of getConnection and ReleasePtr by any number of
    threads the connection count is the number of connections that are idle in
    the pool or in a thread's hands, no connection is in two hands, and the
    count exceeds the pool's limit by less than the number of threads (with one
    thread, never); with all threads done, every connection counted is idle in
    the pool. *)
Theorem pool_accounting threads maxs alive maxr s :
  0 <= maxs -> (0 < threads)%nat -> maxs + Z.of_nat threads < 2 ^ 32 ->
  rtc step (initial threads maxs alive maxr) s ->
  hp_total (sys_pool s) = Z.of_nat (length (hp_conns (sys_pool s)) + length (held_all (sys_threads s)))
  /\ NoDup (map c_id (hp_conns (sys_pool s) ++ held_all (sys_threads s)))
  /\ hp_total (sys_pool s) <= maxs + Z.of_nat threads - 1
  /\ (Forall (eq Idle) (sys_threads s) -> hp_total (sys_pool s) = Z.of_nat (length (hp_conns (sys_pool s)))).
Proof.
  intros H0 Ht Hlt Hsteps.
  assert (pool_inv maxs threads s) as [Htot Hb Hi Hf Hm Hth].
  { eapply pool_steps_inv; [done|done|exact Hsteps|]. by apply initial_inv. }
  unfold all_conns in *. rewrite length_app in Htot. split_and!; [done|done|lia|].
  intros Hidle. rewrite Htot. f_equal.
  assert (held_all (sys_threads s) = []) as ->; [|cbn; lia].
  clear -Hidle. induction Hidle as [|t ts <- _ IH]; [done|]. exact IH.
Qed.

(** A thread that made a connection. *)
Definition demo_system : system :=
  mkSys (mkPool [] 1 1 1000 10) [Holding (HttpConn_new 0 5)] 1.

Lemma pool_accounting_witness :
  hp_total (sys_pool demo_system)
    = Z.of_nat (length (hp_conns (sys_pool demo_system)) + length (held_all (sys_threads demo_system)))
  /\ NoDup (map c_id (hp_conns (sys_pool demo_system) ++ held_all (sys_threads demo_system)))
  /\ hp_total (sys_pool demo_system) <= 1 + Z.of_nat 1 - 1
  /\ (Forall (eq Idle) (sys_threads demo_system) ->
      hp_total (sys_pool demo_system) = Z.of_nat (length (hp_conns (sys_pool demo_system)))).
Proof.
  apply (pool_accounting 1 1 1000 10 demo_system); [lia|lia|lia|].
  eapply rtc_l; [apply (step_pop (HttpConnectionPool_new 1 1000 10) [] [] 0 0 [] None []); reflexivity|].
  eapply rtc_l; [apply (step_count _ [] [] 0 [] None)|].
  eapply rtc_l; [apply (step_check _ [] [] 0); reflexivity|].
  eapply rtc_l; [apply (step_connect _ [] [] 0 5)|]. apply rtc_refl.
Defined.

(** Two threads that both find room make one connection too many. *)
Lemma pool_overshoots : exists s, rtc step (initial 2 1 1000 10) s /\ hp_total (sys_pool s) = 2.
Proof.
  exists (mkSys (mkPool [] 2 1 1000 10) [Holding (HttpConn_new 0 5); Holding (HttpConn_new 1 5)] 2).
  split; [|done].
  eapply rtc_l; [apply (step_pop (HttpConnectionPool_new 1 1000 10) [] [Idle] 0 0 [] None []); reflexivity|].
  eapply rtc_l; [apply (step_count _ [] [Idle] 0 [] None)|].
  eapply rtc_l; [apply (step_check _ [] [Idle] 0); reflexivity|].
  eapply rtc_l; [apply (step_pop _ [Connecting] [] 0 0 [] None []); reflexivity|].
  eapply rtc_l; [apply (step_count _ [Connecting] [] 0 [] None)|].
  eapply rtc_l; [apply (step_check _ [Connecting] [] 0); reflexivity|].
  eapply rtc_l; [apply (step_connect _ [] [Connecting] 0 5)|].
  eapply rtc_l; [apply (step_connect _ [Holding (HttpConn_new 0 5)] [] 1 5)|]. apply rtc_refl.
Qed.
