(* ===== verification/HttpClient.v ===== *)
(** * HTTP requests end to end ([src/src/http_connection.cc])

    [DoGet], [DoPost] and [DoRequest], and the requests of the connection pool:
    getting a connection, the exchange on it and giving it back.  What the outside
    answers to one call (clocks, name resolution, [socket] and [connect]) is the
    record [Outside].

    The pool's calls are runs of the steps of [HttpPool] ([getConnection_steps],
    [release_steps]); the client and the server of [Servlet] understand each other
    ([pool_conversation]). *)
From Stdlib Require Import Ascii String.
From S2P Require Import Prelude Endian CString Http HttpSpec Stream HttpParser HttpSession Servlet Address Uri.
From S2P Require Import HttpConnection HttpConnectionSpec HttpPool.

#[local] Open Scope string_scope.
#[local] Open Scope list_scope.
#[local] Open Scope Z_scope.

(** What the outside answers to a call: [GetCurrentMS] on entry, when a connection
    is made and when it is released; name resolution; a socket for an address; a
    connection to it. *)
Record Outside (K : Type) := mkOutside {
  o_now : Z; o_created : Z; o_released : Z;
  o_lookup : bytes -> option Address;
  o_CreateTCP : Address -> option K;
  o_connect : Address -> K -> option K
}.
Arguments mkOutside {K} _ _ _ _ _ _.
Arguments o_now {K} _.
Arguments o_created {K} _.
Arguments o_released {K} _.
Arguments o_lookup {K} _ _.
Arguments o_CreateTCP {K} _ _.
Arguments o_connect {K} _ _ _.

(** [src/include/http/http_connection.hh:21-32 HttpResult::Error]
    The number of a result. *)
Definition error_code (e : Error) : Z :=
  match e with
  | R_OK => 0 | INVAILD_URL => 1 | INVAILD_HOST => 2 | CONNECT_FAIL => 3 | SEND_CLOSE_BY_PEER => 4
  | SEND_SOCKET_ERROR => 5 | TIMEOUT => 6 | CREATE_SOCKET_ERROR => 7 | POOL_GET_CONNECTION => 8
  | POOL_INVAILD_CONNECTION => 9
  end.

(** [src/src/http_connection.cc:13-19 HttpResult::toString]
    [error] is the error text. *)
Definition HttpResult_toString (error : bytes) (r : HttpResult) : bytes :=
  str "[HttpResult result=" ++ dec (error_code (fst r)) ++ str " error=" ++ error ++ str " response="
  ++ (match snd r with Some rsp => HttpResponse_dump rsp | None => str "nullptr" end) ++ str "]".

Section Client.
Context {P : Type} `{ResponseAutomaton P} {K : Type} `{Socket K}.
Variable lexical_cast : bytes -> option Z.
Variable host : endian.
(** [Uri::Create] *)
Variable Create : bytes -> option Uri.

(** ** Requests on a connection of their own

    The result, and the connection as the call leaves it, if there is one; it is
    then destroyed. *)

(** [src/src/http_connection.cc:271-318 HttpConnection::DoRequest] *)
Definition DoRequest_req (fuel : nat) (buffer_size : Z) (o : Outside K) (req : HttpRequest) (uri : Uri)
    : result HttpResult * option (SocketStream K) :=
  match createAddress host (o_lookup o) uri with
  | None => (Ok (INVAILD_HOST, None), None)
  | Some addr =>
      match o_CreateTCP o addr with
      | None => (Ok (CREATE_SOCKET_ERROR, None), None)
      | Some sock =>
          match o_connect o addr sock with
          | None => (Ok (CONNECT_FAIL, None), None)
          | Some sock =>
              let '(r, conn) := exchange lexical_cast fuel buffer_size req (SocketStream_new (Some sock) true) in
              (r, Some conn)
          end
      end
  end.

(** [src/src/http_connection.cc:237-269 HttpConnection::DoRequest] *)
Definition DoRequest_uri (fuel : nat) (buffer_size : Z) (o : Outside K) (method : HttpMethod) (uri : Uri)
    (headers : list (bytes * bytes)) (body : bytes) : result HttpResult * option (SocketStream K) :=
  DoRequest_req fuel buffer_size o
    (DoRequest_request method (getPath uri) (getQuery uri) (getFragment uri) (getHost uri) headers body) uri.

(** [src/src/http_connection.cc:224-235 HttpConnection::DoRequest] *)
Definition DoRequest (fuel : nat) (buffer_size : Z) (o : Outside K) (method : HttpMethod) (url : bytes)
    (headers : list (bytes * bytes)) (body : bytes) : result HttpResult * option (SocketStream K) :=
  match Create url with
  | None => (Ok (INVAILD_URL, None), None)
  | Some uri => DoRequest_uri fuel buffer_size o method uri headers body
  end.

(** [src/src/http_connection.cc:198-203 HttpConnection::DoGet] *)
Definition DoGet_uri (fuel : nat) (buffer_size : Z) (o : Outside K) (uri : Uri)
    (headers : list (bytes * bytes)) (body : bytes) : result HttpResult * option (SocketStream K) :=
  DoRequest_uri fuel buffer_size o GET uri headers body.

(** [src/src/http_connection.cc:185-196 HttpConnection::DoGet] *)
Definition DoGet (fuel : nat) (buffer_size : Z) (o : Outside K) (url : bytes)
    (headers : list (bytes * bytes)) (body : bytes) : result HttpResult * option (SocketStream K) :=
  match Create url with
  | None => (Ok (INVAILD_URL, None), None)
  | Some uri => DoGet_uri fuel buffer_size o uri headers body
  end.

(** [src/src/http_connection.cc:217-222 HttpConnection::DoPost] *)
Definition DoPost_uri (fuel : nat) (buffer_size : Z) (o : Outside K) (uri : Uri)
    (headers : list (bytes * bytes)) (body : bytes) : result HttpResult * option (SocketStream K) :=
  DoRequest_uri fuel buffer_size o POST uri headers body.

(** [src/src/http_connection.cc:205-215 HttpConnection::DoPost] *)
Definition DoPost (fuel : nat) (buffer_size : Z) (o : Outside K) (url : bytes)
    (headers : list (bytes * bytes)) (body : bytes) : result HttpResult * option (SocketStream K) :=
  match Create url with
  | None => (Ok (INVAILD_URL, None), None)
  | Some uri => DoPost_uri fuel buffer_size o uri headers body
  end.

(** ** Requests on the pool *)

(** [src/include/http/http_connection.hh:314-339 HttpConnectionPool]
    A pool with its host, and the connections' sockets by their address. *)
Record PoolClient := mkPC {
  pc_host : bytes; pc_vhost : bytes; pc_port : Z;
  pc_pool : HttpConnectionPool;
  pc_socks : gmap nat (SocketStream K);
  pc_next : nat
}.

(** [src/src/http_connection.cc:320-326 HttpConnectionPool::HttpConnectionPool] *)
Definition PoolClient_new (h vh : bytes) (port max_size max_alive_time max_request : Z) : PoolClient :=
  mkPC h vh port (HttpConnectionPool_new max_size max_alive_time max_request) ∅ 0.

Definition pc_set (p : HttpConnectionPool) (socks : gmap nat (SocketStream K)) (next : nat) (st : PoolClient)
    : PoolClient :=
  mkPC (pc_host st) (pc_vhost st) (pc_port st) p socks next.

(** A connection with what its socket says of itself. *)
Definition look (socks : gmap nat (SocketStream K)) (c : HttpConn) : HttpConn :=
  mkConn (c_id c) (c_createTime c) (c_request c)
    (match socks !! c_id c with Some s => isConnected s | None => false end).

(** [src/src/http_connection.cc:371-388 HttpConnectionPool::getConnection] *)
Definition dial (o : Outside K) (st : PoolClient) : option K :=
  match o_lookup o (pc_host st) with
  | None => None
  | Some addr =>
      let addr := Address_setPort host (pc_port st) addr in
      match o_CreateTCP o addr with
      | None => None
      | Some sock => o_connect o addr sock
      end
  end.

(** [src/src/http_connection.cc:328-398 HttpConnectionPool::getConnection]
    With no other thread at work on the pool. *)
Definition getConnection (o : Outside K) (st : PoolClient) : option HttpConn * PoolClient :=
  let p := set_conns (map (look (pc_socks st)) (hp_conns (pc_pool st))) (pc_pool st) in
  let '(inv, ptr, rest) := pop_loop p (o_now o) (hp_conns p) in
  let p := count_off inv (set_conns rest p) in
  let socks := foldr (fun c => delete (c_id c)) (pc_socks st) inv in
  match ptr with
  | Some c => (Some c, pc_set p socks (pc_next st) st)
  | None =>
      if is_full p then (None, pc_set p socks (pc_next st) st) else
      match dial o st with
      | None => (None, pc_set p socks (pc_next st) st)
      | Some sock =>
          (Some (HttpConn_new (pc_next st) (o_created o)),
           pc_set (count_new p) (<[pc_next st := SocketStream_new (Some sock) true]> socks) (S (pc_next st)) st)
      end
  end.

(** [src/src/http_connection.cc:395-412 HttpConnectionPool::ReleasePtr]
    The connection's pointer goes out of scope and its deleter runs. *)
Definition release (o : Outside K) (c : HttpConn) (st : PoolClient) : PoolClient :=
  let c := look (pc_socks st) c in
  pc_set (ReleasePtr (o_released o) c (pc_pool st))
    (if spent (pc_pool st) (o_released o) (count_request c) then delete (c_id c) (pc_socks st) else pc_socks st)
    (pc_next st) st.

(** [src/src/http_connection.cc:506-553 HttpConnectionPool::doRequest] *)
Definition doRequest_req (fuel : nat) (buffer_size : Z) (o : Outside K) (req : HttpRequest)
    : M PoolClient HttpResult := fun st =>
  match getConnection o st with
  | (None, st) => (Ok (POOL_GET_CONNECTION, None), st)
  | (Some c, st) =>
      match pc_socks st !! c_id c with
      | None => (Err (Undef use_after_free), st)
      | Some s =>
          match m_socket s with
          | None => (Ok (POOL_INVAILD_CONNECTION, None), release o c st)
          | Some _ =>
              let '(r, s) := exchange lexical_cast fuel buffer_size req s in
              (r, release o c (pc_set (pc_pool st) (<[c_id c := s]> (pc_socks st)) (pc_next st) st))
          end
      end
  end.

(** [src/src/http_connection.cc:453-491 HttpConnectionPool::doRequest] *)
Definition doRequest (fuel : nat) (buffer_size : Z) (o : Outside K) (method : HttpMethod) (url : bytes)
    (headers : list (bytes * bytes)) (body : bytes) : M PoolClient HttpResult := fun st =>
  doRequest_req fuel buffer_size o (pool_request method url (pc_host st) (pc_vhost st) headers body) st.

(** The path of a URI with its query and fragment. *)
Definition uri_target (uri : Uri) : bytes :=
  getPath uri ++ dump_opt (str "?") (getQuery uri) ++ dump_opt (str "#") (getFragment uri).

(** [src/src/http_connection.cc:493-504 HttpConnectionPool::doRequest] *)
Definition doRequest_uri (fuel : nat) (buffer_size : Z) (o : Outside K) (method : HttpMethod) (uri : Uri)
    (headers : list (bytes * bytes)) (body : bytes) : M PoolClient HttpResult :=
  doRequest fuel buffer_size o method (uri_target uri) headers body.

(** [src/src/http_connection.cc:416-421 HttpConnectionPool::doGet] *)
Definition doGet (fuel : nat) (buffer_size : Z) (o : Outside K) (url : bytes)
    (headers : list (bytes * bytes)) (body : bytes) : M PoolClient HttpResult :=
  doRequest fuel buffer_size o GET url headers body.

(** [src/src/http_connection.cc:423-433 HttpConnectionPool::doGet] *)
Definition doGet_uri (fuel : nat) (buffer_size : Z) (o : Outside K) (uri : Uri)
    (headers : list (bytes * bytes)) (body : bytes) : M PoolClient HttpResult :=
  doGet fuel buffer_size o (uri_target uri) headers body.

(** [src/src/http_connection.cc:435-440 HttpConnectionPool::doPost] *)
Definition doPost (fuel : nat) (buffer_size : Z) (o : Outside K) (url : bytes)
    (headers : list (bytes * bytes)) (body : bytes) : M PoolClient HttpResult :=
  doRequest fuel buffer_size o POST url headers body.

(** [src/src/http_connection.cc:442-452 HttpConnectionPool::doPost] *)
Definition doPost_uri (fuel : nat) (buffer_size : Z) (o : Outside K) (uri : Uri)
    (headers : list (bytes * bytes)) (body : bytes) : M PoolClient HttpResult :=
  doPost fuel buffer_size o (uri_target uri) headers body.
End Client.

(** ** The pool's calls are runs of its steps *)

Section Refinement.
Context {K : Type} `{Socket K}.
Variable host : endian.
Implicit Types st : PoolClient (K := K).

Definition all_connected (cs : list HttpConn) : Prop := Forall (fun c => c_connected c = true) cs.

Lemma look_steps (socks : gmap nat (SocketStream K)) p n cs : all_connected cs -> forall done,
  rtc step (mkSys (set_conns (done ++ cs) p) [Idle] n)
           (mkSys (set_conns (done ++ map (look socks) cs) p) [Idle] n).
Proof.
  induction 1 as [|c cs Hc _ IH]; intros acc; [apply rtc_refl|]. cbn [map].
  assert (look socks c = c \/ look socks c = disconnect c) as [-> | ->].
  { unfold look, disconnect. destruct c as [i t r b]. cbn in *. subst b.
    destruct (socks !! i) as [s|]; [destruct (isConnected s)|]; auto. }
  - specialize (IH (acc ++ [c])). by rewrite <-!app_assoc in IH.
  - eapply rtc_l; [by eapply (step_lost_idle _ _ _ acc c cs)|].
    specialize (IH (acc ++ [disconnect c])). by rewrite <-!app_assoc in IH.
Qed.

(** Where the one thread is that uses the pool. *)
Definition at_ (c : option HttpConn) : client := match c with Some c => Holding c | None => Idle end.

Lemma getConnection_steps o st : all_connected (hp_conns (pc_pool st)) ->
  let '(c, st') := getConnection host o st in
  rtc step (mkSys (pc_pool st) [Idle] (pc_next st)) (mkSys (pc_pool st') [at_ c] (pc_next st')).
Proof.
  intros Hc. unfold getConnection.
  pose proof (look_steps (pc_socks st) (pc_pool st) (pc_next st) _ Hc []) as Hlook. cbn [app] in Hlook.
  replace (set_conns (hp_conns (pc_pool st)) (pc_pool st)) with (pc_pool st) in Hlook by by destruct (pc_pool st).
  set (p := set_conns _ (pc_pool st)) in *.
  destruct (pop_loop p (o_now o) (hp_conns p)) as [[inv ptr] rest] eqn:Hpop.
  pose proof (step_pop p [] [] (pc_next st) (o_now o) inv ptr rest Hpop) as H1.
  pose proof (step_count (set_conns rest p) [] [] (pc_next st) inv ptr) as H2. cbn [app] in H1, H2.
  assert (rtc step (mkSys (pc_pool st) [Idle] (pc_next st))
    (mkSys (count_off inv (set_conns rest p)) [match ptr with Some c => Holding c | None => Checking end] (pc_next st)))
    as Hrun by (etrans; [exact Hlook|]; by eapply rtc_l, rtc_once).
  set (q := count_off inv _) in *. destruct ptr as [c|]; [done|].
  destruct (is_full q) eqn:Hfull.
  - eapply rtc_r; [exact Hrun|]. by apply (step_full q [] []).
  - pose proof (step_check q [] [] (pc_next st) Hfull) as H3. cbn [app] in H3.
    destruct (dial host o st); (etrans; [exact Hrun|]); (eapply rtc_l; [exact H3|]); apply rtc_once;
      [apply (step_connect q [] [])|apply (step_connect_fail q [] [])].
Qed.

Lemma release_steps o c st : c_connected c = true ->
  rtc step (mkSys (pc_pool st) [Holding c] (pc_next st))
           (mkSys (pc_pool (release o c st)) [Idle] (pc_next (release o c st))).
Proof.
  intros Hc. unfold release. cbn [pc_set pc_pool pc_next].
  assert (look (pc_socks st) c = c \/ look (pc_socks st) c = disconnect c) as [-> | ->].
  { unfold look, disconnect. destruct c as [i t r b]. cbn in *. subst b.
    destruct (pc_socks st !! i) as [s|]; [destruct (isConnected s)|]; auto. }
  - apply rtc_once, (step_release _ [] []).
  - eapply rtc_l; [apply (step_lost_held _ [] [])|]. apply rtc_once, (step_release _ [] []).
Qed.

(** ** No connection leaks

    Between calls, [c] being the connection of the call at work: the pool's own
    invariant holds, the sockets are exactly those of the pool's connections and
    the one in hand, and every idle connection has a connected socket. *)

Definition ids_of (cs : list HttpConn) : gset nat := list_to_set (map c_id cs).

Record client_inv (maxs : Z) (c : option HttpConn) st : Prop := {
  ci_pool : pool_inv maxs 1 (mkSys (pc_pool st) [at_ c] (pc_next st));
  ci_held : forall h, c = Some h -> c_connected h = true;
  ci_socks : dom (pc_socks st) = ids_of (hp_conns (pc_pool st) ++ option_list c);
  ci_idle : Forall (fun c => c_connected c = true /\
    exists s, pc_socks st !! c_id c = Some s /\ isConnected s = true) (hp_conns (pc_pool st))
}.

Lemma ids_app l1 l2 : ids_of (l1 ++ l2) = ids_of l1 ∪ ids_of l2.
Proof. unfold ids_of. by rewrite map_app, list_to_set_app_L. Qed.

Lemma ids_disjoint l1 l2 : NoDup (map c_id (l1 ++ l2)) -> ids_of l1 ## ids_of l2.
Proof.
  rewrite map_app. intros (_ & Hd & _)%NoDup_app i. unfold ids_of. rewrite !elem_of_list_to_set. apply Hd.
Qed.

Lemma delete_all_lookup (inv : list HttpConn) (m : gmap nat (SocketStream K)) i :
  foldr (fun c => delete (c_id c)) m inv !! i = if decide (i ∈ ids_of inv) then None else m !! i.
Proof.
  induction inv as [|c inv IH]; cbn [foldr]; [by rewrite decide_False by set_solver|].
  rewrite lookup_delete, IH. unfold ids_of. cbn [map list_to_set].
  repeat case_decide; try done; set_solver.
Qed.

Lemma delete_all_dom (inv : list HttpConn) (m : gmap nat (SocketStream K)) :
  dom (foldr (fun c => delete (c_id c)) m inv) = dom m ∖ ids_of inv.
Proof.
  apply set_eq. intros i. rewrite elem_of_difference, !elem_of_dom, delete_all_lookup.
  case_decide; [|tauto]. split; [by intros []|tauto].
Qed.

Lemma held_at c : held (at_ c) = option_list c.
Proof. by destruct c. Qed.

Lemma all_conns_at p c n : all_conns (mkSys p [at_ c] n) = hp_conns p ++ option_list c.
Proof. unfold all_conns, held_all. cbn. by rewrite held_at, app_nil_r. Qed.

Lemma idle_connected maxs c st : client_inv maxs c st -> all_connected (hp_conns (pc_pool st)).
Proof. intros []. eapply Forall_impl; [done|]. by intros ? []. Qed.

(** Looking at idle connections finds them as they are. *)
Lemma look_idle maxs c st : client_inv maxs c st ->
  map (look (pc_socks st)) (hp_conns (pc_pool st)) = hp_conns (pc_pool st).
Proof.
  intros [_ _ _ Hi]. induction Hi as [|[i t r b] cs (Hb & s & Hs & Hc) _ IH]; [done|]. cbn [map]. rewrite IH.
  cbn in *. unfold look. cbn. by rewrite Hs, Hc, Hb.
Qed.

Lemma getConnection_inv maxs o st : 0 <= maxs -> maxs + 1 < 2 ^ 32 -> client_inv maxs None st ->
  client_inv maxs (fst (getConnection host o st)) (snd (getConnection host o st)).
Proof.
  intros H0 Hlt Hinv. pose proof (getConnection_steps o st (idle_connected _ _ _ Hinv)) as Hsteps.
  destruct (getConnection host o st) as [c st'] eqn:Hget.
  pose proof (pool_steps_inv maxs 1 _ _ H0 Hlt Hsteps (ci_pool _ _ _ Hinv)) as Hpool.
  pose proof Hinv as [Hp0 _ Hs Hi]. revert Hget. unfold getConnection. rewrite (look_idle _ _ _ Hinv).
  pose proof (pi_ids _ _ _ Hp0) as Hnd. pose proof (pi_fresh _ _ _ Hp0) as Hfresh.
  rewrite (all_conns_at _ None) in Hnd, Hfresh. cbn [option_list sys_next] in *. rewrite app_nil_r in Hnd, Hfresh, Hs.
  cbn [set_conns hp_conns]. set (p := set_conns _ (pc_pool st)) in *.
  destruct (pop_loop p (o_now o) (hp_conns (pc_pool st))) as [[inv ptr] rest] eqn:Hpop.
  apply pop_loop_split in Hpop as (Hsplit & Hptr & Hnone). change (match ptr with Some c => [c] | None => [] end) with (option_list ptr) in Hsplit.
  rewrite Hsplit in Hnd, Hs, Hi, Hfresh. set (socks := foldr _ (pc_socks st) inv).
  assert (dom socks = ids_of (rest ++ option_list ptr)) as Hdom.
  { unfold socks. rewrite delete_all_dom, Hs. apply ids_disjoint in Hnd. rewrite !ids_app in *. set_solver. }
  assert (Forall (fun c => c_connected c = true /\
    exists s, socks !! c_id c = Some s /\ isConnected s = true) (option_list ptr ++ rest)) as Hidle.
  { apply Forall_forall. intros c0 Hc0. pose proof (ids_disjoint _ _ Hnd (c_id c0)) as Hd.
    rewrite Forall_app in Hi. destruct Hi as [_ Hi]. rewrite Forall_forall in Hi.
    destruct (Hi c0 Hc0) as (Hb & s & Hl & Hc). split; [done|]. exists s. split; [|done].
    unfold socks. rewrite delete_all_lookup, decide_False; [done|]. intros Hin. apply Hd; [done|].
    unfold ids_of. rewrite elem_of_list_to_set. by apply (list_elem_of_fmap_2 c_id). }
  apply Forall_app in Hidle as [Hp Hidle].
  destruct ptr as [c0|].
  - intros [= <- <-]. cbn [fst snd]. constructor; cbn [pc_set pc_pool pc_socks]; try done.
    intros h [= <-]. by apply (Hptr c0).
  - rewrite (Hnone eq_refl) in *. cbn [option_list app] in *.
    destruct (is_full _); [by intros [= <- <-]; constructor|].
    destruct (dial host o st) as [k|]; [|by intros [= <- <-]; constructor].
    intros [= <- <-]. cbn [fst snd]. constructor; cbn [pc_set pc_pool pc_socks]; try done.
    + by intros h [= <-].
    + rewrite dom_insert_L, Hdom. cbn. unfold ids_of. cbn. set_solver.
Qed.

(** The held connection is none of the idle ones. *)
Lemma held_not_idle maxs c st : client_inv maxs (Some c) st -> c_id c ∉ ids_of (hp_conns (pc_pool st)).
Proof.
  intros [Hp _ _ _] Hin. pose proof (pi_ids _ _ _ Hp) as Hnd. rewrite (all_conns_at _ (Some c)) in Hnd.
  apply ids_disjoint in Hnd. apply (Hnd (c_id c)); [done|]. unfold ids_of. cbn. set_solver.
Qed.

Lemma idle_lookup maxs c st (socks : gmap nat (SocketStream K)) :
  client_inv maxs (Some c) st ->
  (forall i, i <> c_id c -> socks !! i = pc_socks st !! i) ->
  Forall (fun c => c_connected c = true /\
    exists s, socks !! c_id c = Some s /\ isConnected s = true) (hp_conns (pc_pool st)).
Proof.
  intros Hinv Hsame. pose proof (held_not_idle _ _ _ Hinv) as Hn. destruct Hinv as [_ _ _ Hi].
  apply Forall_forall. intros c0 Hc0. rewrite Forall_forall in Hi. rewrite Hsame; [by apply Hi|].
  intros E. apply Hn. rewrite <-E. unfold ids_of. rewrite elem_of_list_to_set. by apply (list_elem_of_fmap_2 c_id).
Qed.

(** The exchange changes the socket of the held connection only. *)
Lemma set_sock_inv maxs c s st : client_inv maxs (Some c) st ->
  client_inv maxs (Some c) (pc_set (pc_pool st) (<[c_id c := s]> (pc_socks st)) (pc_next st) st).
Proof.
  intros Hinv. pose proof (idle_lookup maxs c st (<[c_id c := s]> (pc_socks st)) Hinv) as Hidle.
  destruct Hinv as [Hp Hh Hs Hi]. constructor; cbn [pc_set pc_pool pc_socks]; try done.
  - rewrite dom_insert_L, Hs, ids_app. unfold ids_of. cbn. set_solver.
  - apply Hidle. intros i Hne. by rewrite lookup_insert_ne.
Qed.

Lemma release_inv maxs o c st : 0 <= maxs -> maxs + 1 < 2 ^ 32 -> client_inv maxs (Some c) st ->
  client_inv maxs None (release o c st).
Proof.
  intros H0 Hlt Hinv. pose proof (release_steps o c st (ci_held _ _ _ Hinv c eq_refl)) as Hsteps.
  pose proof (pool_steps_inv maxs 1 _ _ H0 Hlt Hsteps (ci_pool _ _ _ Hinv)) as Hpool.
  pose proof (held_not_idle _ _ _ Hinv) as Hnot. pose proof Hinv as [Hp0 _ Hs _].
  assert (c_id c ∈ dom (pc_socks st)) as [s Hl]%elem_of_dom.
  { rewrite Hs, ids_app. unfold ids_of. cbn. set_solver. }
  revert Hpool. unfold release, ReleasePtr. cbn [c_id look]. intros Hpool.
  pose proof (idle_lookup maxs c st (delete (c_id c) (pc_socks st)) Hinv) as Hidle1.
  pose proof (idle_lookup maxs c st (pc_socks st) Hinv) as Hidle2.
  destruct (spent _ _ _) eqn:Hspent; constructor; try done; cbn [pc_set pc_pool pc_socks set_total set_conns hp_conns].
  - rewrite dom_delete_L, Hs, !ids_app. unfold ids_of in *. cbn in *. set_solver.
  - apply Hidle1. intros i Hne. by rewrite lookup_delete_ne.
  - rewrite Hs, !ids_app. unfold ids_of. cbn. set_solver.
  - apply Forall_app. split; [by apply Hidle2|]. apply Forall_singleton.
    unfold spent in Hspent. cbn [look count_request c_connected c_id] in *. rewrite Hl in *.
    destruct (isConnected s) eqn:Hc; [|done]. split; [done|]. by exists s.
Qed.

Lemma PoolClient_new_inv h vh port maxs alive maxr : 0 <= maxs ->
  client_inv maxs None (PoolClient_new h vh port maxs alive maxr).
Proof.
  intros H0. pose proof (initial_inv 1 maxs alive maxr H0 ltac:(lia)) as Hp. by constructor.
Qed.

Section Calls.
Context {P : Type} `{ResponseAutomaton P}.
Variables (lexical_cast : bytes -> option Z) (fuel : nat) (buffer_size : Z).

(** A call ends with no connection in hand, whatever the outside and the peers
    do; its result is that of the exchange, or says why there was none. *)
Lemma doRequest_inv maxs o req st : 0 <= maxs -> maxs + 1 < 2 ^ 32 -> client_inv maxs None st ->
  client_inv maxs None (snd (doRequest_req lexical_cast host fuel buffer_size o req st))
  /\ (fst (doRequest_req lexical_cast host fuel buffer_size o req st) = Ok (POOL_GET_CONNECTION, None)
      \/ fst (doRequest_req lexical_cast host fuel buffer_size o req st) = Ok (POOL_INVAILD_CONNECTION, None)
      \/ exists s, fst (doRequest_req lexical_cast host fuel buffer_size o req st)
                   = fst (exchange lexical_cast fuel buffer_size req s)).
Proof.
  intros Hz Hlt Hinv. pose proof (getConnection_inv maxs o st Hz Hlt Hinv) as Hg. unfold doRequest_req.
  destruct (getConnection host o st) as [[c|] st1]; cbn [fst snd] in *; [|auto].
  assert (c_id c ∈ dom (pc_socks st1)) as [s Hl]%elem_of_dom.
  { rewrite (ci_socks _ _ _ Hg), ids_app. unfold ids_of. cbn. set_solver. }
  rewrite Hl. destruct (m_socket s); [|split; [by apply release_inv|auto]].
  destruct (exchange lexical_cast fuel buffer_size req s) as [r s'] eqn:He. cbn [fst snd].
  split; [by apply release_inv, set_sock_inv|]. right. right. exists s. by rewrite He.
Qed.

(** A sequence of calls. *)
Fixpoint pool_calls (calls : list (Outside K * HttpRequest)) st : list (result HttpResult) * PoolClient :=
  match calls with
  | [] => ([], st)
  | (o, req) :: calls =>
      let '(r, st) := doRequest_req lexical_cast host fuel buffer_size o req st in
      let '(rs, st) := pool_calls calls st in
      (r :: rs, st)
  end.

Lemma pool_calls_inv maxs calls : 0 <= maxs -> maxs + 1 < 2 ^ 32 -> forall st, client_inv maxs None st ->
  client_inv maxs None (snd (pool_calls calls st)).
Proof.
  intros Hz Hlt. induction calls as [|[o req] calls IH]; intros st Hinv; [done|]. cbn [pool_calls].
  destruct (doRequest_inv maxs o req st Hz Hlt Hinv) as [Hd _].
  destruct (doRequest_req _ _ _ _ _ _ _) as [r st1]. cbn [snd] in Hd. specialize (IH st1 Hd).
  by destruct (pool_calls calls st1).
Qed.

End Calls.
End Refinement.

(** ** Errors *)

Section Errors.
Context {P : Type} `{ResponseAutomaton P} {T : Type} `{Stream T}.
Variable lexical_cast : bytes -> option Z.

(** No request ends with [SEND_SOCKET_ERROR]: an error of [write] does not come
    back as a negative number. *)
Theorem send_error_unreported fuel buffer_size req (s : T) rsp :
  Z.of_nat (length (HttpRequest_dump req)) < 2 ^ 31 ->
  fst (exchange lexical_cast fuel buffer_size req s) <> Ok (SEND_SOCKET_ERROR, rsp).
Proof.
  intros Hl. unfold exchange, sendRequest, mbind, M_bind.
  destruct (writeFixSize _ _ _ s) as [[rt|e] s1] eqn:Hw; [|done].
  apply writeFixSize_result in Hw; [|lia]. destruct (Z.eqb_spec rt 0); [done|].
  rewrite (proj2 (Z.ltb_ge _ _)) by lia.
  destruct (recvResponse _ _ _ s1) as [[[r|]|e] s2]; done.
Qed.

(** A response that does not arrive leaves the connection closed. *)
Definition closes (s : T) : Prop := exists s0, s = st_close s0.

Lemma read_and_parse_closes bs c pending p (s s' : T) :
  read_and_parse bs c pending p s = (Ok None, s') -> closes s'.
Proof.
  unfold read_and_parse, mbind, M_bind, stream_read. destruct (st_read _ s) as [[n d] s1].
  destruct (n <=? 0); [intros [= <-]; by exists s1|].
  destruct (rsp_execute _ _ _) as [[k rest] q]. destruct (rsp_hasError q); [intros [= <-]; by exists s1|].
  destruct (_ =? _); [intros [= <-]; by exists s1|done].
Qed.

Lemma recv_until_closes fuel : forall bs c pending p (s s' : T),
  recv_until_finished fuel bs c pending p s = (Ok None, s') -> closes s'.
Proof.
  induction fuel as [|fuel IH]; intros bs c pending p s s'; [done|]. cbn [recv_until_finished].
  unfold mbind, M_bind. destruct (read_and_parse bs c pending p s) as [[[[rest q]|]|e] s1] eqn:Hr.
  - destruct (negb _); [done|apply IH].
  - intros [= <-]. by apply read_and_parse_closes in Hr.
  - done.
Qed.

Lemma recv_chunks_closes fuel : forall bs pending body p (s s' : T),
  recv_chunks fuel bs pending body p s = (Ok None, s') -> closes s'.
Proof.
  induction fuel as [|fuel IH]; intros bs pending body p s s'; [done|]. cbn [recv_chunks].
  unfold mbind, M_bind. destruct (recv_until_finished (S fuel) bs true pending p s) as [[[[rest q]|]|e] s1] eqn:Hr;
    [|intros [= <-]; by apply recv_until_closes in Hr|done].
  destruct (_ =? 0); [done|]. set (need := _ - _).
  destruct (need >? 0).
  - destruct (readFixSize (S fuel) _ need s1) as [[[r buf]|e] s2]; [|done].
    destruct (r <=? 0); [intros [= <-]; by exists s2|]. unfold mret, M_ret.
    destruct (readFixSize (S fuel) [0; 0] 2 s2) as [[[r2 b2]|e] s3]; [|done].
    destruct (r2 <=? 0); [intros [= <-]; by exists s3|]. destruct (rs_chunks_done _); [done|apply IH].
  - unfold mret, M_ret. destruct (readFixSize (S fuel) [0; 0] 2 s1) as [[[r2 b2]|e] s3]; [|done].
    destruct (r2 <=? 0); [intros [= <-]; by exists s3|]. destruct (rs_chunks_done _); [done|apply IH].
Qed.

Lemma recv_sized_closes fuel pending (p : HttpResponseParser P) (s s' : T) :
  recv_sized lexical_cast fuel pending p s = (Ok None, s') -> closes s'.
Proof.
  unfold recv_sized. destruct (_ >? 0); [|by destruct (_ =? 0)]. destruct (negb _); [|done].
  unfold mbind, M_bind. destruct (readFixSize fuel _ _ s) as [[[r buf]|e] s2]; [|done].
  destruct (r <=? 0); [intros [= <-]; by exists s2|done].
Qed.

(** A request that ends with [TIMEOUT] has closed its connection. *)
Theorem timeout_closes fuel buffer_size req (s s' : T) rsp :
  exchange lexical_cast fuel buffer_size req s = (Ok (TIMEOUT, rsp), s') -> rsp = None /\ closes s'.
Proof.
  unfold exchange, mbind, M_bind. destruct (sendRequest fuel req s) as [[rt|e] s1]; [|done].
  destruct (rt =? 0); [done|]. destruct (rt <? 0); [done|].
  destruct (recvResponse lexical_cast fuel buffer_size s1) as [[[r|]|e] s2] eqn:Hr; try done.
  intros [= <- <-]. split; [done|]. revert Hr. unfold recvResponse, mbind, M_bind.
  destruct (recv_until_finished fuel buffer_size false [] HttpResponseParser_new s1) as [[[[rest q]|]|e] s3] eqn:Hu;
    [|intros [= <-]; by apply recv_until_closes in Hu|done].
  destruct (rs_chunked _); [apply recv_chunks_closes|apply recv_sized_closes].
Qed.
End Errors.

(** ** The client and the server together *)

Section Conversation.
Context {PS : Type} `{RequestAutomaton PS} {PC : Type} `{ResponseAutomaton PC}.
Variable lexical_cast : bytes -> option Z.
Hypothesis cast_dec : forall n, 0 <= n < 2 ^ 31 -> lexical_cast (dec n) = Some n.
Variable host : endian.
Variables (fnmatch : bytes -> bytes -> bool) (srv : HttpServer (SocketStream Peer)).
Hypothesis keepalive : hs_isKeepAlive srv = true.
Hypothesis buffer31 : hs_buffer srv < 2 ^ 31.
Variable h : HttpRequest -> HttpResponse -> HttpResponse.
(** The client's receive buffer. *)
Variable buffer_size : Z.
Hypothesis size31 : buffer_size < 2 ^ 31.

(** A response that arrives whole and that the client's automaton understands. *)
Definition understood (rsp : HttpResponse) : Prop :=
  rsp_sendable rsp
  /\ (exists p' : PC, head_parsed rsp (rs_body rsp) p' /\ rs_chunked p' = false)
  /\ Z.of_nat (length (HttpResponse_dump rsp)) <= buffer_size.

Lemma request_dump_nonempty r : (0 < length (HttpRequest_dump r))%nat.
Proof. unfold HttpRequest_dump. rewrite !length_app. cbn. lia. Qed.

(** What the caller gets for a response the server sent. *)
Definition delivered (rsp : HttpResponse) : HttpResult := (R_OK, Some (rsp_received rsp (rs_body rsp))).

Lemma exchange_delivers fuel r rsp later out :
  Z.of_nat (length (HttpRequest_dump r)) < 2 ^ 31 -> understood rsp -> (1 < fuel)%nat ->
  exchange lexical_cast fuel buffer_size r (peer_with (HttpResponse_dump rsp :: later) out)
  = (Ok (delivered rsp), peer_with later (out ++ HttpRequest_dump r)).
Proof.
  intros Hr (Hs & (p' & Hp & Hch) & Hl) Hf. pose proof (request_dump_nonempty r).
  unfold exchange, sendRequest. unfold mbind at 1, M_bind at 1. rewrite writeFixSize_ok by lia.
  rewrite (proj2 (Z.eqb_neq _ _)), (proj2 (Z.ltb_ge _ _)) by lia.
  unfold mbind, M_bind. rewrite response_dump_head in *.
  pose proof (rsp_recv_delivers lexical_cast cast_dec rsp (rs_body rsp) [] later (out ++ HttpRequest_dump r)
    fuel buffer_size p' Hs Hp Hch) as Hrec.
  cbn [app concat length] in Hrec. rewrite app_nil_r in Hrec.
  rewrite Hrec; [done|constructor|by rewrite response_dump_head|lia|lia].
Qed.

(** A request over a connection of its own. *)
Lemma DoRequest_req_ok fuel o uri req addr k rsp later :
  createAddress host (o_lookup o) uri = Some addr -> o_CreateTCP o addr = Some k ->
  o_connect o addr k = Some (mkPeer true (HttpResponse_dump rsp :: later) []) ->
  Z.of_nat (length (HttpRequest_dump req)) < 2 ^ 31 -> understood rsp -> (1 < fuel)%nat ->
  DoRequest_req lexical_cast host fuel buffer_size o req uri
  = (Ok (delivered rsp), Some (peer_with later (HttpRequest_dump req))).
Proof.
  intros Ha Hk Hc Hr Hrsp Hf. unfold DoRequest_req. rewrite Ha, Hk, Hc.
  pose proof (exchange_delivers fuel req rsp later [] Hr Hrsp Hf) as He. cbn [app] in He.
  unfold SocketStream_new. unfold peer_with in He at 1. by rewrite He.
Qed.

Lemma served_length r : served_ok (P := PS) fnmatch srv h r -> Z.of_nat (length (HttpRequest_dump r)) < 2 ^ 31.
Proof. intros (_ & _ & Hb & _). lia. Qed.

(** A request for a URL, sent to a server that serves it: the client sends the
    request for the URL's parts, the server computes the response to exactly that
    request and sends it, and the client's caller gets the response, with code 0. *)
Theorem DoGet_fetches (Create : bytes -> option Uri) fuel o url uri addr k headers body :
  let req := DoRequest_request GET (getPath uri) (getQuery uri) (getFragment uri) (getHost uri) headers body in
  Create url = Some uri -> createAddress host (o_lookup o) uri = Some addr ->
  o_CreateTCP o addr = Some k ->
  served_ok (P := PS) fnmatch srv h req -> understood (answer srv h req) -> (2 < fuel)%nat ->
  o_connect o addr k = Some (mkPeer true [HttpResponse_dump (answer srv h req)] []) ->
  DoGet lexical_cast host Create fuel buffer_size o url headers body
    = (Ok (R_OK, Some (rsp_received (answer srv h req) (rs_body (answer srv h req)))),
       Some (peer_with [] (HttpRequest_dump req)))
  /\ handleClient lexical_cast fnmatch fuel srv (peer_with [HttpRequest_dump req] [])
    = (Ok tt, st_close (peer_with [] (HttpResponse_dump (answer srv h req)))).
Proof.
  intros req Hu Ha Hk Hs Hrsp Hf Hc. split.
  - unfold DoGet, DoGet_uri, DoRequest_uri. rewrite Hu. fold req.
    apply (DoRequest_req_ok fuel o uri req addr k _ []); try done; [by apply served_length|lia].
  - unfold handleClient, mbind, M_bind.
    destruct (serve_ok lexical_cast cast_dec fnmatch srv keepalive h [req] fuel [] ltac:(by constructor) buffer31 ltac:(cbn; lia))
      as (s & Hserve & Hclose).
    cbn [map] in Hserve. rewrite Hserve. unfold modify. rewrite Hclose. cbn [until_close].
    destruct (rq_close req); cbn [fst snd map concat app]; by rewrite app_nil_r.
Qed.

Section OverPool.
Variables (hst vh : bytes) (port maxs alive maxr created : Z).
Hypothesis maxs_pos : 0 < maxs.

(** A pool with one idle connection, after [k] requests on it. *)
Definition pool_with (k : Z) (s : SocketStream Peer) : PoolClient :=
  mkPC hst vh port (mkPool [mkConn 0 created k true] 1 maxs alive maxr) {[0%nat := s]} 1.

(** The outside during a call within the connection's time. *)
Definition in_time (o : Outside Peer) : Prop :=
  o_now o < u64 (created + alive) /\ o_released o < u64 (created + alive).

Lemma not_expired conns n c now : c_createTime c = created -> now < u64 (created + alive) ->
  expired (mkPool conns n maxs alive maxr) now c = false.
Proof. intros Hc Hn. unfold expired. rewrite Hc. cbn. apply Z.leb_gt. lia. Qed.

(** Giving the connection back. *)
Lemma release_keeps o n k cs out socks : in_time o -> 0 <= k -> k + 1 < maxr -> maxr < 2 ^ 32 ->
  release o (mkConn 0 created k true)
    (mkPC hst vh port (mkPool [] n maxs alive maxr) (<[0%nat := peer_with cs out]> socks) 1)
  = mkPC hst vh port (mkPool [mkConn 0 created (k + 1) true] n maxs alive maxr)
      (<[0%nat := peer_with cs out]> socks) 1.
Proof.
  intros [_ Ho] Hk Hm Hm2. unfold release, ReleasePtr, look, count_request.
  cbn [c_id c_createTime c_request c_connected pc_socks pc_pool]. rewrite lookup_insert.
  rewrite decide_True by done. unfold spent. cbn [c_connected c_request hp_maxRequest isConnected peer_with m_socket].
  rewrite not_expired by done. rewrite u64_small by lia.
  rewrite (proj2 (Z.leb_gt _ _)) by lia. done.
Qed.

Lemma first_call fuel o req rsp later :
  dial host o (PoolClient_new hst vh port maxs alive maxr) = Some (mkPeer true (HttpResponse_dump rsp :: later) []) ->
  o_created o = created -> in_time o -> 1 < maxr < 2 ^ 32 ->
  Z.of_nat (length (HttpRequest_dump req)) < 2 ^ 31 -> understood rsp -> (1 < fuel)%nat ->
  doRequest_req lexical_cast host fuel buffer_size o req (PoolClient_new hst vh port maxs alive maxr)
  = (Ok (delivered rsp), pool_with 1 (peer_with later (HttpRequest_dump req))).
Proof.
  intros Hd Hc Ho Hm Hr Hrsp Hf. pose proof (exchange_delivers fuel req rsp later [] Hr Hrsp Hf) as He.
  cbn [app] in He. unfold peer_with in He at 1.
  set (resp := HttpResponse_dump rsp) in *. set (sent := HttpRequest_dump req) in *. clearbody resp sent.
  unfold doRequest_req, getConnection. rewrite Hd. cbn. change (u32 (0 - Z.of_nat 0)) with 0.
  unfold is_full. cbn. change (u32 (0 - Z.of_nat 0)) with 0. rewrite (proj2 (Z.leb_gt _ _)) by lia. cbn. rewrite Hc.
  unfold SocketStream_new. rewrite lookup_insert, decide_True by done. cbn [m_socket]. rewrite He.
  unfold pc_set, HttpConn_new. cbn [pc_host pc_vhost pc_port pc_pool pc_socks pc_next PoolClient_new c_id].
  change (count_new _) with (mkPool [] 1 maxs alive maxr).
  rewrite (release_keeps o _ 0) by (done || lia). unfold pool_with. rewrite insert_insert. done.
Qed.

(** Taking the idle connection. *)
Lemma getConnection_idle o k cs out : in_time o ->
  getConnection host o (pool_with k (peer_with cs out))
  = (Some (mkConn 0 created k true),
     mkPC hst vh port (mkPool [] 1 maxs alive maxr) {[0%nat := peer_with cs out]} 1).
Proof.
  intros [Ho _]. unfold getConnection, pool_with, look. cbn [pc_pool pc_socks hp_conns map c_id c_createTime c_request].
  rewrite lookup_singleton, decide_True by done. cbn [isConnected peer_with m_socket].
  unfold set_conns. cbn [hp_conns hp_total hp_maxSize hp_maxAliveTime hp_maxRequest pop_loop c_connected negb orb].
  rewrite not_expired by done. done.
Qed.

Lemma next_call fuel o req rsp later k out :
  in_time o -> 0 <= k -> k + 1 < maxr -> maxr < 2 ^ 32 ->
  Z.of_nat (length (HttpRequest_dump req)) < 2 ^ 31 -> understood rsp -> (1 < fuel)%nat ->
  doRequest_req lexical_cast host fuel buffer_size o req (pool_with k (peer_with (HttpResponse_dump rsp :: later) out))
  = (Ok (delivered rsp), pool_with (k + 1) (peer_with later (out ++ HttpRequest_dump req))).
Proof.
  intros Ho Hk Hm Hm2 Hr Hrsp Hf. pose proof (exchange_delivers fuel req rsp later out Hr Hrsp Hf) as He.
  set (resp := HttpResponse_dump rsp) in *. set (sent := HttpRequest_dump req) in *. clearbody resp sent.
  unfold doRequest_req. rewrite getConnection_idle by done. cbn [pc_socks c_id].
  rewrite lookup_singleton, decide_True by done. cbn [m_socket peer_with].
  rewrite He. unfold pc_set. cbn [pc_host pc_vhost pc_port pc_pool pc_socks pc_next c_id].
  rewrite (release_keeps o _ k) by done. unfold pool_with. by rewrite insert_singleton.
Qed.

(** The calls after the first. *)
Lemma further_calls fuel (rs : list HttpRequest) : forall (os : list (Outside Peer)) k out,
  length os = length rs -> Forall in_time os -> 0 <= k -> k + Z.of_nat (length rs) < maxr < 2 ^ 32 ->
  Forall (fun r => served_ok (P := PS) fnmatch srv h r /\ understood (answer srv h r)) rs -> (1 < fuel)%nat ->
  pool_calls host lexical_cast fuel buffer_size (zip os rs)
    (pool_with k (peer_with (map (fun r => HttpResponse_dump (answer srv h r)) rs) out))
  = (map (fun r => Ok (delivered (answer srv h r))) rs,
     pool_with (k + Z.of_nat (length rs)) (peer_with [] (out ++ concat (map HttpRequest_dump rs)))).
Proof.
  induction rs as [|r rs IH]; intros [|o os] k out Hl Ho Hk Hm Hrs Hf; try done.
  - cbn. by rewrite Z.add_0_r, app_nil_r.
  - inversion_clear Ho. inversion_clear Hrs as [|? ? [Hr Hu] Hrs']. cbn [zip zip_with pool_calls map length] in *.
    rewrite next_call by (done || lia || by apply served_length).
    rewrite IH by (done || lia). cbn [concat]. rewrite <-app_assoc.
    by replace (k + 1 + Z.of_nat (length rs)) with (k + Z.of_nat (S (length rs))) by lia.
Qed.

(** A client that sends keep-alive requests through its pool to a server
    opens one connection, on which the server gets exactly the requests, in
    order, and the client exactly the responses that the server's servlets
    compute for them, in order, each call returning its own; at the end the
    connection is idle in the pool. *)
Theorem pool_conversation fuel o os r rs :
  dial host o (PoolClient_new hst vh port maxs alive maxr)
    = Some (mkPeer true (map (fun r => HttpResponse_dump (answer srv h r)) (r :: rs)) []) ->
  o_created o = created -> Forall in_time (o :: os) -> length os = length rs ->
  Z.of_nat (length (r :: rs)) < maxr < 2 ^ 32 ->
  Forall (fun r => served_ok (P := PS) fnmatch srv h r /\ understood (answer srv h r) /\ rq_close r = false) (r :: rs) ->
  (length (r :: rs) + 1 < fuel)%nat ->
  pool_calls host lexical_cast fuel buffer_size (zip (o :: os) (r :: rs)) (PoolClient_new hst vh port maxs alive maxr)
    = (map (fun r => Ok (delivered (answer srv h r))) (r :: rs),
       pool_with (Z.of_nat (length (r :: rs))) (peer_with [] (concat (map HttpRequest_dump (r :: rs)))))
  /\ handleClient lexical_cast fnmatch fuel srv (peer_with (map HttpRequest_dump (r :: rs)) [])
    = (Ok tt, st_close (peer_with [] (concat (map (fun r => HttpResponse_dump (answer srv h r)) (r :: rs))))).
Proof.
  intros Hd Hc Ho Hl Hm Hrs Hf. split.
  - inversion_clear Ho as [|? ? Ho1 Hos]. inversion_clear Hrs as [|? ? (Hr & Hu & _) Hrs'].
    cbn [zip zip_with pool_calls map length] in *.
    rewrite (first_call fuel o r (answer srv h r) (map (fun r => HttpResponse_dump (answer srv h r)) rs))
      by (done || lia || by apply served_length).
    rewrite further_calls; try done; try lia.
    + cbn [concat]. by replace (1 + Z.of_nat (length rs)) with (Z.of_nat (S (length rs))) by lia.
    + eapply Forall_impl; [exact Hrs'|]. tauto.
  - assert (until_close (r :: rs) = (r :: rs, [])) as Huntil.
    { clear -Hrs. induction Hrs as [|r0 l (_ & _ & Hr) _ IH]; [done|]. cbn [until_close]. by rewrite Hr, IH. }
    assert (Forall (served_ok (P := PS) fnmatch srv h) (r :: rs)) as Hok
      by (eapply Forall_impl; [exact Hrs|]; tauto).
    unfold handleClient, mbind, M_bind.
    destruct (serve_ok lexical_cast cast_dec fnmatch srv keepalive h (r :: rs) fuel [] Hok buffer31 Hf) as (s & Hs & Hcl).
    rewrite Hs. unfold modify. by rewrite Hcl, Huntil.
Qed.
End OverPool.
End Conversation.

(** ** On concrete messages *)

Definition any_fn : bytes -> bytes -> bool := fun _ _ => false.

(** An outside in which the server at the other end answers [cs]. *)
Definition demo_outside (cs : list bytes) : Outside Peer :=
  mkOutside 6 5 7 (fun _ => Some (AddrV4 (IPv4Address_new SYLAR_LITTLE_ENDIAN 2130706433 0)))
    (fun _ => Some (mkPeer true [] [])) (fun _ k => Some (mkPeer true cs [])).

Lemma demo_understood r :
  (r = demo_request \/ r = closing_request) ->
  understood (PC := ref_state) 4096 (answer demo_server hello r).
Proof.
  intros [-> | ->];
    (split; [split; [by right|]; split; [done|]; split; [by repeat constructor|]; split; done|]);
    (split; [|by vm_compute]); exists (mkRef true false);
    (split; [split; [vm_compute; reflexivity|split; reflexivity]|reflexivity]).
Qed.

(** The answer to every request of the conversation below. *)
Definition demo_answer : HttpResponse := answer demo_server hello demo_request.

Lemma pool_conversation_witness :
  pool_calls SYLAR_LITTLE_ENDIAN ref_cast 6 4096
    (zip [demo_outside [HttpResponse_dump demo_answer; HttpResponse_dump demo_answer]; demo_outside []]
         [demo_request; demo_request])
    (PoolClient_new (str "h") [] 80 2 1000 10)
    = ([Ok (delivered demo_answer); Ok (delivered demo_answer)],
       pool_with (str "h") [] 80 2 1000 10 5 2 (peer_with [] (HttpRequest_dump demo_request ++ HttpRequest_dump demo_request)))
  /\ handleClient ref_cast any_fn 6 demo_server (peer_with [HttpRequest_dump demo_request; HttpRequest_dump demo_request] [])
    = (Ok tt, st_close (peer_with [] (HttpResponse_dump demo_answer ++ HttpResponse_dump demo_answer))).
Proof.
  apply (pool_conversation (PC := ref_state) ref_cast ref_cast_dec SYLAR_LITTLE_ENDIAN any_fn demo_server eq_refl eq_refl
    hello 4096 eq_refl (str "h") [] 80 2 1000 10 5 eq_refl 6
    (demo_outside [HttpResponse_dump demo_answer; HttpResponse_dump demo_answer]) [demo_outside []]
    demo_request [demo_request]).
  - reflexivity.
  - reflexivity.
  - repeat constructor.
  - reflexivity.
  - by vm_compute.
  - repeat apply Forall_cons_2; try apply Forall_nil_2;
      (split; [apply demo_served; by left|split; [apply demo_understood; by left|reflexivity]]).
  - cbn; lia.
Defined.

(** The URI and the request of a GET. *)
Definition demo_target : Uri := mkUri (str "http") [] (str "h") (str "/x") [] [] 8080.
Definition demo_get : HttpRequest := DoRequest_request GET (str "/x") [] [] (str "h") [] [].

Lemma demo_get_ok :
  served_ok (P := bool) any_fn demo_server hello demo_get
  /\ understood (PC := ref_state) 4096 (answer demo_server hello demo_get).
Proof.
  split.
  - split; [|split; [exists true|]].
    + split; [done|]. split; [by right|]. split; [by repeat constructor|]. done.
    + split; [vm_compute; reflexivity|done].
    + split; [vm_compute; discriminate|]. split; [exists hello; split|]; vm_compute; reflexivity.
  - split; [split; [by right|]; split; [done|]; split; [by repeat constructor|]; split; done|].
    split; [|by vm_compute]. exists (mkRef true false). split; [split; [vm_compute; reflexivity|split; reflexivity]|reflexivity].
Qed.

Lemma DoGet_fetches_witness :
  DoGet ref_cast SYLAR_LITTLE_ENDIAN (fun _ => Some demo_target) 3 4096
    (demo_outside [HttpResponse_dump (answer demo_server hello demo_get)]) (str "http://h:8080/x") [] []
    = (Ok (R_OK, Some (rsp_received (answer demo_server hello demo_get) [])),
       Some (peer_with [] (HttpRequest_dump demo_get)))
  /\ handleClient ref_cast any_fn 3 demo_server (peer_with [HttpRequest_dump demo_get] [])
    = (Ok tt, st_close (peer_with [] (HttpResponse_dump (answer demo_server hello demo_get)))).
Proof.
  apply (DoGet_fetches (PC := ref_state) ref_cast ref_cast_dec SYLAR_LITTLE_ENDIAN any_fn demo_server eq_refl eq_refl
    hello 4096 eq_refl (fun _ => Some demo_target) 3
    (demo_outside [HttpResponse_dump (answer demo_server hello demo_get)]) (str "http://h:8080/x") demo_target
    (AddrV4 (IPv4Address_new SYLAR_LITTLE_ENDIAN 2130706433 8080)) (mkPeer true [] []) [] []);
    [reflexivity|reflexivity|reflexivity|apply demo_get_ok|apply demo_get_ok|lia|reflexivity].
Defined.

(** Two calls, the second to a server that has gone. *)
Definition demo_calls : list (Outside Peer * HttpRequest) :=
  [(demo_outside [HttpResponse_dump demo_answer], demo_request); (demo_outside [], demo_request)].

Definition demo_after : PoolClient :=
  snd (pool_calls SYLAR_LITTLE_ENDIAN (P := ref_state) ref_cast 6 4096 demo_calls (PoolClient_new (str "h") [] 80 2 1000 10)).


(** A keep-alive connection that the server has closed meanwhile still counts as
    connected: the next request goes out on it, is not answered, and fails as a
    timeout although the server would accept a new connection. *)
Lemma stale_connection_fails :
  fst (pool_calls SYLAR_LITTLE_ENDIAN (P := ref_state) ref_cast 6 4096
    [(demo_outside [HttpResponse_dump demo_answer], demo_request);
     (demo_outside [HttpResponse_dump demo_answer], demo_request);
     (demo_outside [HttpResponse_dump demo_answer], demo_request)] (PoolClient_new (str "h") [] 80 2 1000 10))
  = [Ok (delivered demo_answer); Ok (TIMEOUT, None); Ok (delivered demo_answer)].
Proof. by vm_compute. Qed.

Lemma send_error_unreported_witness :
  fst (exchange (P := ref_state) ref_cast 6 4096 demo_request (mkSS (Some (mkBroken true)) true))
  <> Ok (SEND_SOCKET_ERROR, None).
Proof. apply send_error_unreported. by vm_compute. Defined.

Lemma timeout_closes_witness :
  @None HttpResponse = None /\ closes (st_close (peer_with [] (HttpRequest_dump demo_request))).
Proof. apply (timeout_closes (P := ref_state) ref_cast 6 4096 demo_request (peer_with [] [])). by vm_compute. Defined.
