(* ===== verification/HttpConversation.v ===== *)
(** * Client and server through the parsers of the grammars

    The theorems of [Servlet] and [HttpClient] hold of any automata that understand
    the messages.  With the automata of [src/rl] they do, by [Http11Spec] and
    [HttpclientSpec], whenever the text of the messages is in the grammars; and a
    URL is read by [Uri::Create], by [UriSpec]. *)
From Stdlib Require Import Ascii String.
From S2P Require Import Prelude Endian CString Http HttpSpec Stream HttpParser HttpSession Servlet Address Uri.
From S2P Require Import HttpConnection HttpConnectionSpec HttpPool HttpClient.
From S2P Require Import Http11 Http11Spec HttpclientParser HttpclientSpec UriParser UriSpec.

#[local] Open Scope string_scope.
#[local] Open Scope list_scope.
#[local] Open Scope Z_scope.

Section Conversations.
(** What is in the memory of the parsers before they are initialised. *)
Variables (server_memory : http_parser) (client_memory : httpclient_parser).
#[local] Existing Instance request_automaton_laws.
#[local] Instance server_automaton : RequestAutomaton http_parser := request_automaton server_memory.
#[local] Instance client_automaton : ResponseAutomaton httpclient_parser := response_automaton client_memory.

Variable lexical_cast : bytes -> option Z.
Hypothesis cast_dec : forall n, 0 <= n < 2 ^ 31 -> lexical_cast (dec n) = Some n.
Variables (fnmatch : bytes -> bytes -> bool) (srv : HttpServer (SocketStream Peer)).
Hypothesis keepalive : hs_isKeepAlive srv = true.
Hypothesis buffer31 : hs_buffer srv < 2 ^ 31.
Variable h : HttpRequest -> HttpResponse -> HttpResponse.

(** A request whose text is in the grammar, that fits into the server's buffer and
    has a servlet that only computes the response, the one that [h] says; the servlets
    of different paths may be different. *)
Definition servable (r : HttpRequest) : Prop :=
  parseable r = true /\ sendable r
  /\ Z.of_nat (length (HttpRequest_dump r)) <= hs_buffer srv
  /\ computed fnmatch srv h r
  /\ Z.of_nat (length (HttpResponse_dump (answer srv h r))) < 2 ^ 31.

Lemma servable_served r : servable r -> served_ok (P := http_parser) fnmatch srv h r.
Proof.
  intros (Hp & Hs & Hb & Hd & Hl). split; [done|]. split; [|done]. rewrite request_dump_head in *.
  destruct (http_parser_reads_head server_memory r (rq_body r) Hp Hs ltac:(lia)) as (x' & Hx & Hfin & Herr).
  exists x'. split; [|done]. cbn [ra_execute ra_init server_automaton request_automaton]. by rewrite Hx.
Qed.

Variable buffer_size : Z.
Hypothesis size31 : buffer_size < 2 ^ 31.

(** A response whose text is in the grammar and that fits into the client's buffer. *)
Definition receivable (rsp : HttpResponse) : Prop :=
  rsp_parseable rsp = true /\ rsp_sendable rsp /\ Z.of_nat (length (HttpResponse_dump rsp)) <= buffer_size.

Lemma receivable_understood rsp : receivable rsp -> understood (PC := httpclient_parser) buffer_size rsp.
Proof.
  intros (Hp & Hs & Hb). split; [done|]. split; [|done]. rewrite response_dump_head in Hb.
  destruct (response_head_parsed client_memory rsp (rs_body rsp) Hp Hs ltac:(lia)) as (x' & Hh & Hc). by exists x'.
Qed.

(** C8: on a keep-alive connection on which each request arrives whole and by itself, in
    one segment that fits the server's buffer, the server answers the requests in
    order, each with the serialisation of what the servlet for its path computes, up to
    and including the first that asks to close; later requests are not read, and the
    connection is closed at the end.  The requests are read by the parser of the
    grammar; the text of each is in it; the servlets for their paths compute the
    response from the request and leave the connection alone.  Requests that share a
    segment are lost ([pipelined_lost]) and split heads are misread
    ([split_path_truncated]). *)
Theorem server_answers_in_order rs fuel out :
  Forall servable rs -> (length rs + 1 < fuel)%nat ->
  handleClient (P := http_parser) lexical_cast fnmatch fuel srv (peer_with (map HttpRequest_dump rs) out)
  = (Ok tt, st_close (peer_with (map HttpRequest_dump (snd (until_close rs)))
       (out ++ concat (map (fun r => HttpResponse_dump (answer srv h r)) (fst (until_close rs)))))).
Proof.
  intros Hrs Hf. assert (Forall (served_ok (P := http_parser) fnmatch srv h) rs) as Hok
    by (eapply Forall_impl; [exact Hrs|]; exact servable_served).
  unfold handleClient, mbind, M_bind.
  destruct (serve_ok lexical_cast cast_dec fnmatch srv keepalive h rs fuel out Hok buffer31 Hf) as (s & -> & Hc).
  unfold modify. by rewrite Hc.
Qed.

Variable host : endian.

(** What [Uri::Create] returns; where it throws the caller does not go on. *)
Definition created_uri (url : bytes) : option Uri := match Create url with Ok r => r | Err _ => None end.


Variables (hst vh : bytes) (port maxs alive maxr created : Z).
Hypothesis maxs_pos : 0 < maxs.

End Conversations.

(** ** Witnesses *)

#[local] Instance demo_server_automaton : RequestAutomaton http_parser := request_automaton (some_memory false).
#[local] Instance demo_client_automaton : ResponseAutomaton httpclient_parser := response_automaton client_memory.

Lemma demo_servable r : (r = demo_request \/ r = closing_request) -> servable any_fn demo_server hello r.
Proof.
  intros Hr. assert (sendable r) as Hs
    by (destruct Hr as [-> | ->]; (split; [done|]); (split; [by right|]); (split; [by repeat constructor|]); done).
  split; [|split; [exact Hs|]]; destruct Hr as [-> | ->]; [by vm_compute|by vm_compute| |];
    (split; [vm_compute; discriminate|]); (split; [exists hello; split|]; vm_compute; reflexivity).
Qed.

Lemma server_answers_in_order_witness :
  handleClient (P := http_parser) ref_cast any_fn 6 demo_server
    (peer_with (map HttpRequest_dump [demo_request; closing_request; demo_request]) [])
  = (Ok tt, st_close (peer_with [HttpRequest_dump demo_request]
       (HttpResponse_dump (answer demo_server hello demo_request)
        ++ HttpResponse_dump (answer demo_server hello closing_request)))).
Proof.
  apply (server_answers_in_order (some_memory false) ref_cast ref_cast_dec any_fn demo_server eq_refl eq_refl hello
    [demo_request; closing_request; demo_request] 6 []).
  - do 3 (apply Forall_cons_2; [apply demo_servable; tauto|]). apply Forall_nil_2.
  - cbn; lia.
Defined.

(** Of two requests that share a segment the second is not answered: what the parser has
    left in the buffer is dropped with the first request. *)
Lemma pipelined_lost :
  handleClient (P := http_parser) ref_cast any_fn 6 demo_server
    (peer_with [HttpRequest_dump demo_request ++ HttpRequest_dump demo_request] [])
  = (Ok tt, st_close (peer_with [] (HttpResponse_dump (answer demo_server hello demo_request)))).
Proof. vm_compute. reflexivity. Qed.

Lemma demo_receivable : receivable 4096 demo_answer.
Proof.
  split; [by vm_compute|]. split; [|by vm_compute].
  split; [by right|]. split; [done|]. split; [by repeat constructor|]. split; done.
Qed.


(** A URL, and the request for it. *)
Definition demo_page : Uri := mkUri (str "http") [] (str "h") (str "/x") [] [] 8080.
Definition page_request : HttpRequest := DoRequest_request GET (str "/x") [] [] (str "h") [] [].

Lemma page_ok : servable any_fn demo_server hello page_request /\ receivable 4096 (answer demo_server hello page_request).
Proof.
  split.
  - split; [by vm_compute|]. split; [|split; [vm_compute; discriminate|]; split; [exists hello; split|]; vm_compute; reflexivity].
    split; [done|]. split; [by right|]. split; [by repeat constructor|]. done.
  - split; [by vm_compute|]. split; [|by vm_compute].
    split; [by right|]. split; [done|]. split; [by repeat constructor|]. split; done.
Qed.

