(* ===== verification/FdManager.v ===== *)
(** * Descriptor contexts ([src/src/fd_manager.cc], [include/sylar/fd_manager.hh])

    What the hooks remember of a descriptor: whether it is a socket, whether the
    user and the system want it non-blocking, and its timeouts.  The state holds
    the kernel's side too: for each open descriptor whether it is a socket and
    its status flags.  A context is reached through its place in the table. *)
From S2P Require Import Prelude.

Definition O_NONBLOCK : Z := 2 ^ 11.
Definition SO_RCVTIMEO : Z := 20.
Definition SO_SNDTIMEO : Z := 21.

(** An open descriptor in the kernel. *)
Record kfile := mkFile { k_socket : bool; k_flags : Z }.

(** [src/include/sylar/fd_manager.hh:73-82 FdCtx] *)
Record FdCtx := mkCtx {
  m_isInit : bool; m_isSocket : bool; m_sysNonblock : bool; m_userNonblock : bool; m_isClosed : bool;
  m_fd : Z; m_recvTimeout : Z; m_sendTimeout : Z
}.

(** [src/include/sylar/fd_manager.hh:107-110 FdManager]
    With the kernel's open descriptors. *)
Record FdManager := mkFM { m_datas : list (option FdCtx); kernel : gmap Z kfile }.

Definition set_datas (d : list (option FdCtx)) (s : FdManager) : FdManager := mkFM d (kernel s).
Definition set_kernel (k : gmap Z kfile) (s : FdManager) : FdManager := mkFM (m_datas s) k.

Definition has_flag (flags f : Z) : bool := negb (Z.land flags f =? 0).

(** The flags [F_SETFL] can change in Linux: [O_APPEND], [O_NONBLOCK],
    [O_ASYNC], [O_DIRECT] and [O_NOATIME]; the access mode stays. *)
Definition SETFL_MASK : Z := 2 ^ 10 + 2 ^ 11 + 2 ^ 13 + 2 ^ 14 + 2 ^ 18.
Definition setfl_flags (old arg : Z) : Z := Z.lor (Z.ldiff old SETFL_MASK) (Z.land arg SETFL_MASK).

(** [fcntl_f(fd, F_GETFL)] and [fcntl_f(fd, F_SETFL, flags)] *)
Definition k_getfl (fd : Z) (s : FdManager) : Z :=
  match kernel s !! fd with Some f => k_flags f | None => -1 end.
Definition k_setfl (fd flags : Z) (s : FdManager) : Z * FdManager :=
  match kernel s !! fd with
  | Some f => (0, set_kernel (<[fd := mkFile (k_socket f) (setfl_flags (k_flags f) flags)]> (kernel s)) s)
  | None => (-1, s)
  end.

(** [src/src/fd_manager.cc:22-59 FdCtx::init]
    On the context the constructor is making. *)
Definition FdCtx_init (c : FdCtx) (s : FdManager) : FdCtx * FdManager :=
  if m_isInit c then (c, s) else
  let '(is_init, is_socket) :=
    match kernel s !! m_fd c with Some f => (true, k_socket f) | None => (false, false) end in
  let s := if is_socket && negb (has_flag (k_getfl (m_fd c) s) O_NONBLOCK)
           then snd (k_setfl (m_fd c) (Z.lor (k_getfl (m_fd c) s) O_NONBLOCK) s) else s in
  (mkCtx is_init is_socket is_socket false false (m_fd c) (2 ^ 64 - 1) (2 ^ 64 - 1), s).

(** [src/src/fd_manager.cc:12-18 FdCtx::FdCtx] *)
Definition FdCtx_new (fd : Z) (s : FdManager) : FdCtx * FdManager :=
  FdCtx_init (mkCtx false false false false false fd (2 ^ 64 - 1) (2 ^ 64 - 1)) s.

(** [src/src/fd_manager.cc:61-69 FdCtx::setTimeout] *)
Definition setTimeout (type v : Z) (c : FdCtx) : FdCtx :=
  if type =? SO_RCVTIMEO
  then mkCtx (m_isInit c) (m_isSocket c) (m_sysNonblock c) (m_userNonblock c) (m_isClosed c) (m_fd c)
         (u64 v) (m_sendTimeout c)
  else mkCtx (m_isInit c) (m_isSocket c) (m_sysNonblock c) (m_userNonblock c) (m_isClosed c) (m_fd c)
         (m_recvTimeout c) (u64 v).

(** [src/src/fd_manager.cc:71-79 FdCtx::getTimeout] *)
Definition getTimeout (type : Z) (c : FdCtx) : Z :=
  if type =? SO_RCVTIMEO then m_recvTimeout c else m_sendTimeout c.

(** [src/include/sylar/fd_manager.hh:41-41 FdCtx::setUserNonblock] *)
Definition setUserNonblock (v : bool) (c : FdCtx) : FdCtx :=
  mkCtx (m_isInit c) (m_isSocket c) (m_sysNonblock c) v (m_isClosed c) (m_fd c) (m_recvTimeout c)
    (m_sendTimeout c).

(** [src/src/fd_manager.cc:81-81 FdManager::FdManager] *)
Definition FdManager_new (k : gmap Z kfile) : FdManager := mkFM (repeat None 64) k.

(** [vector::resize] to a larger size. *)
Definition resize (n : nat) (d : list (option FdCtx)) : list (option FdCtx) :=
  take n d ++ repeat None (n - length d).

(** [src/src/fd_manager.cc:83-113 FdManager::get] *)
Definition FdManager_get (fd : Z) (auto_create : bool) : M FdManager (option FdCtx) :=
  if fd =? -1 then mret None else
  s ← get;
  let create : M FdManager (option FdCtx) :=
    s ← get;
    let '(ctx, s) := FdCtx_new fd s in
    put s;;
    let d := if Z.of_nat (length (m_datas s)) <=? fd
             then resize (Z.to_nat (fd * 3 / 2)) (m_datas s) else m_datas s in
    if Z.of_nat (length d) <=? fd then fail (Undef out_of_bounds) else
    put (set_datas (<[Z.to_nat fd := Some ctx]> d) s);;
    mret (Some ctx) in
  if Z.of_nat (length (m_datas s)) <=? fd then
    if auto_create then create else mret None
  else if fd <? 0 then fail (Undef out_of_bounds)
  else
    c ← deref (m_datas s !! Z.to_nat fd) out_of_bounds;
    match c, auto_create with
    | None, true => create
    | _, _ => mret c
    end.

(** [src/src/fd_manager.cc:115-122 FdManager::del] *)
Definition del (fd : Z) : M FdManager unit :=
  s ← get;
  if Z.of_nat (length (m_datas s)) <=? fd then mret () else
  if fd <? 0 then fail (Undef out_of_bounds) else
  put (set_datas (<[Z.to_nat fd := None]> (m_datas s)) s).

(** ** Lemmas *)

(** The context of a descriptor. *)
Definition ctx_at (s : FdManager) (fd : Z) : option FdCtx :=
  if fd <? 0 then None else match m_datas s !! Z.to_nat fd with Some c => c | None => None end.

Lemma has_flag_nonblock z : has_flag z O_NONBLOCK = Z.testbit z 11.
Proof.
  unfold has_flag, O_NONBLOCK. destruct (Z.eqb_spec (Z.land z (2 ^ 11)) 0) as [E|E]; cbn [negb].
  - apply (f_equal (fun w => Z.testbit w 11)) in E. rewrite Z.land_spec, Z.bits_0 in E.
    change (Z.testbit (2 ^ 11) 11) with true in E. by rewrite andb_true_r in E.
  - symmetry. apply not_false_iff_true. intros Hb. apply E. apply Z.bits_inj'. intros i Hi.
    rewrite Z.land_spec, Z.bits_0. destruct (Z.eq_dec i 11) as [->|Hne]; [by rewrite Hb|].
    rewrite Z.pow2_bits_false by lia. apply andb_false_r.
Qed.

Lemma setfl_flags_spec old arg i :
  Z.testbit (setfl_flags old arg) i = if Z.testbit SETFL_MASK i then Z.testbit arg i else Z.testbit old i.
Proof.
  unfold setfl_flags. rewrite Z.lor_spec, Z.ldiff_spec, Z.land_spec.
  destruct (Z.testbit SETFL_MASK i); cbn [negb]; by rewrite ?andb_true_r, ?andb_false_r, ?orb_false_r.
Qed.

Lemma getTimeout_setTimeout c t t' v : t = SO_RCVTIMEO \/ t = SO_SNDTIMEO -> t' = SO_RCVTIMEO \/ t' = SO_SNDTIMEO ->
  getTimeout t' (setTimeout t v c) = if t =? t' then u64 v else getTimeout t' c.
Proof. intros [-> | ->] [-> | ->]; done. Qed.

Lemma get_existing s fd auto c : 0 <= fd -> ctx_at s fd = Some c -> FdManager_get fd auto s = (Ok (Some c), s).
Proof.
  intros Hfd Hc. unfold ctx_at in Hc. rewrite (proj2 (Z.ltb_ge fd 0)) in Hc by lia.
  destruct (m_datas s !! Z.to_nat fd) as [c'|] eqn:E; [|done]. subst c'.
  pose proof (lookup_lt_Some _ _ _ E). unfold FdManager_get. mstep.
  rewrite (proj2 (Z.eqb_neq fd (-1))), (proj2 (Z.leb_gt _ fd)), (proj2 (Z.ltb_ge fd 0)) by lia.
  by rewrite E.
Qed.

Lemma get_missing s fd : 0 <= fd -> ctx_at s fd = None -> FdManager_get fd false s = (Ok None, s).
Proof.
  intros Hfd Hc. unfold ctx_at in Hc. rewrite (proj2 (Z.ltb_ge fd 0)) in Hc by lia.
  unfold FdManager_get. mstep. rewrite (proj2 (Z.eqb_neq fd (-1))) by lia.
  destruct (Z.leb_spec (Z.of_nat (length (m_datas s))) fd); [done|].
  rewrite (proj2 (Z.ltb_ge fd 0)) by lia. destruct (lookup_lt_is_Some_2 (m_datas s) (Z.to_nat fd)) as [c E]; [lia|].
  rewrite E in *. by subst.
Qed.

(** Only -1 is caught among the negative descriptors. *)
Lemma negative_fd_undefined s auto fd : fd < -1 -> FdManager_get fd auto s = (Err (Undef out_of_bounds), s).
Proof.
  intros Hfd. unfold FdManager_get. mstep.
  by rewrite (proj2 (Z.eqb_neq fd (-1))), (proj2 (Z.leb_gt _ fd)), (proj2 (Z.ltb_lt fd 0)) by lia.
Qed.
