(* ===== verification/Hook.v ===== *)
(** * Hooked system calls ([src/src/hook.cc])

    The blocking calls of a fiber turned into registrations with the event loop.
    [do_io] runs against an environment that answers its system calls and its
    waits in turn ([io_env]); the flag, option and close hooks act on the
    descriptor contexts and the kernel's descriptors. *)
From S2P Require Import Prelude FdManager IOManager IOManagerSpec.

Definition EINTR : Z := 4.
Definition EBADF : Z := 9.
Definition EAGAIN : Z := 11.
Definition SOL_SOCKET : Z := 1.
Definition ETIMEDOUT : Z := 110.
Definition EINPROGRESS : Z := 115.

(** ** Sleeping *)

(** [src/src/hook.cc:243-255 sleep]
    The milliseconds of the timer that wakes the fiber: [unsigned int]
    arithmetic. *)
Definition sleep_ms (seconds : Z) : Z := u32 (seconds * 1000).

(** [src/src/hook.cc:257-269 usleep] *)
Definition usleep_ms (usec : Z) : Z := usec / 1000.

(** [src/src/hook.cc:271-286 nanosleep]
    An [int] handed to a parameter of type [uint64_t]. *)
Definition nanosleep_ms (tv_sec tv_nsec : Z) : Z := u64 (s32 (tv_sec * 1000 + (tv_nsec ÷ 1000) ÷ 1000)).

(** ** Input and output *)

(** What becomes of a wait: [addEvent] fails and leaves an [errno], the event arrives (or is
    cancelled by somebody else), or the timer cancels it. *)
Inductive wait := AddFails (err : Z) | Woken | TimedOut.

(** The answers the environment will give to the calls of the original function
    (result and [errno]) and to the waits, the current [errno], the live
    condition timers and the times the fiber gave up the processor. *)
Record io_env := mkEnv {
  env_calls : list (Z * Z); env_waits : list wait; env_errno : Z;
  env_timers : list nat; env_next : nat; env_yields : nat
}.

(** [fun(fd, args...)]; without an answer the call has not returned. *)
Definition call : M io_env Z := fun e =>
  match env_calls e with
  | [] => (Err OutOfFuel, e)
  | (n, err) :: cs =>
      (Ok n, mkEnv cs (env_waits e) (if n =? -1 then err else env_errno e) (env_timers e) (env_next e)
               (env_yields e))
  end.

Definition set_errno (v : Z) : M io_env unit :=
  modify (fun e => mkEnv (env_calls e) (env_waits e) v (env_timers e) (env_next e) (env_yields e)).

Definition add_timer : M io_env nat := fun e =>
  (Ok (env_next e), mkEnv (env_calls e) (env_waits e) (env_errno e) (env_timers e ++ [env_next e])
                      (S (env_next e)) (env_yields e)).

Definition cancel_timer (t : option nat) : M io_env unit :=
  match t with
  | Some t => modify (fun e => mkEnv (env_calls e) (env_waits e) (env_errno e)
                        (filter (fun x => x <> t) (env_timers e)) (env_next e) (env_yields e))
  | None => mret ()
  end.

(** The outcome of registering and waiting; a wait that is not refused yields. *)
Definition wait_event : M io_env wait := fun e =>
  match env_waits e with
  | [] => (Err OutOfFuel, e)
  | w :: ws =>
      (Ok w, mkEnv (env_calls e) ws (match w with AddFails err => err | _ => env_errno e end) (env_timers e)
               (env_next e) (match w with AddFails _ => env_yields e | _ => S (env_yields e) end))
  end.

(** [src/src/hook.cc:169-175 do_io]
    Call, and again while interrupted; one unit of fuel per call. *)
Fixpoint call_eintr (fuel : nat) : M io_env Z :=
  match fuel with
  | O => fail OutOfFuel
  | S fuel =>
      n ← call;
      e ← get;
      if (n =? -1) && (env_errno e =? EINTR) then call_eintr fuel else mret n
  end.

(** [src/src/hook.cc:167-236 do_io]
    From the label [retry] on; [to] is the timeout. *)
Fixpoint io_retry (fuel : nat) (to : Z) : M io_env Z :=
  match fuel with
  | O => fail OutOfFuel
  | S fuel' =>
      n ← call_eintr fuel;
      e ← get;
      if (n =? -1) && (env_errno e =? EAGAIN) then
        timer ← (if negb (to =? 2 ^ 64 - 1) then t ← add_timer; mret (Some t) else mret None);
        w ← wait_event;
        match w with
        | AddFails _ => cancel_timer timer;; mret (-1)
        | _ =>
            cancel_timer timer;;
            let cancelled := match w, timer with TimedOut, Some _ => ETIMEDOUT | _, _ => 0 end in
            if negb (cancelled =? 0) then set_errno cancelled;; mret (-1)
            else io_retry fuel' to
        end
      else mret n
  end.

(** [src/src/hook.cc:135-236 do_io] *)
Definition do_io (fuel : nat) (hook_enable : bool) (ctx : option FdCtx) (timeout_so : Z) : M io_env Z :=
  if negb hook_enable then call else
  match ctx with
  | None => call
  | Some ctx =>
      if m_isClosed ctx then set_errno EBADF;; mret (-1) else
      if negb (m_isSocket ctx) || m_userNonblock ctx then call else
      io_retry fuel (getTimeout timeout_so ctx)
  end.

(** [src/src/hook.cc:304-393 connect_with_timeout]
    [so_error] is what [getsockopt] reports: nothing when it fails. *)
Definition connect_with_timeout (hook_enable : bool) (ctx : option FdCtx) (timeout_ms : Z)
    (so_error : option Z) : M io_env Z :=
  if negb hook_enable then call else
  match ctx with
  | None => set_errno EBADF;; mret (-1)
  | Some ctx =>
      if m_isClosed ctx then set_errno EBADF;; mret (-1) else
      if negb (m_isSocket ctx) then call else
      if m_userNonblock ctx then call else
      n ← call;
      e ← get;
      if n =? 0 then mret 0 else
      if negb (n =? -1) || negb (env_errno e =? EINPROGRESS) then mret n else
      timer ← (if negb (timeout_ms =? 2 ^ 64 - 1) then t ← add_timer; mret (Some t) else mret None);
      w ← wait_event;
      cancel_timer timer;;
      let cancelled := match w, timer with TimedOut, Some _ => ETIMEDOUT | _, _ => 0 end in
      if negb (cancelled =? 0) then set_errno cancelled;; mret (-1) else
      match so_error with
      | None => mret (-1)
      | Some error => if error =? 0 then mret 0 else set_errno error;; mret (-1)
      end
  end.

(** ** Flags, options and closing *)

(** Change the context of a descriptor through the pointer [get] returns. *)
Definition update_ctx (fd : Z) (f : FdCtx -> FdCtx) (s : FdManager) : FdManager :=
  set_datas (alter (option_map f) (Z.to_nat fd) (m_datas s)) s.

Definition kernel_setfl (fd arg : Z) : M FdManager Z := fun s =>
  let '(r, s') := k_setfl fd arg s in (Ok r, s').

Definition managed (c : option FdCtx) : bool :=
  match c with Some c => negb (m_isClosed c) && m_isSocket c | None => false end.

(** [src/src/hook.cc:508-530 fcntl]
    [F_SETFL] *)
Definition fcntl_setfl (fd arg : Z) : M FdManager Z :=
  ctx ← FdManager_get fd false;
  match ctx with
  | Some c =>
      if managed ctx then
        modify (update_ctx fd (setUserNonblock (has_flag arg O_NONBLOCK)));;
        let arg := if m_sysNonblock c then Z.lor arg O_NONBLOCK else Z.land arg (Z.lnot O_NONBLOCK) in
        kernel_setfl fd arg
      else kernel_setfl fd arg
  | None => kernel_setfl fd arg
  end.

(** [src/src/hook.cc:531-546 fcntl]
    [F_GETFL] *)
Definition fcntl_getfl (fd : Z) : M FdManager Z :=
  arg ← gets (k_getfl fd);
  ctx ← FdManager_get fd false;
  match ctx with
  | Some c =>
      if managed ctx then
        mret (if m_userNonblock c then Z.lor arg O_NONBLOCK else Z.land arg (Z.lnot O_NONBLOCK))
      else mret arg
  | None => mret arg
  end.

(** [src/src/hook.cc:594-610 ioctl]
    [FIONBIO] with its argument; the kernel call sets or clears the flag. *)
Definition ioctl_fionbio (fd : Z) (arg : bool) : M FdManager Z :=
  ctx ← FdManager_get fd false;
  (if managed ctx then modify (update_ctx fd (setUserNonblock arg)) else mret ());;
  flags ← gets (k_getfl fd);
  kernel_setfl fd (if arg then Z.lor flags O_NONBLOCK else Z.land flags (Z.lnot O_NONBLOCK)).

(** [src/src/hook.cc:618-635 setsockopt]
    The timeouts; [setsockopt_f] itself does not change the state. *)
Definition setsockopt_timeout (hook_enable : bool) (fd level optname tv_sec tv_usec : Z) : M FdManager unit :=
  if negb hook_enable then mret () else
  if (level =? SOL_SOCKET) && ((optname =? SO_RCVTIMEO) || (optname =? SO_SNDTIMEO)) then
    ctx ← FdManager_get fd false;
    match ctx with
    | Some _ => modify (update_ctx fd (setTimeout optname (tv_sec * 1000 + tv_usec ÷ 1000)))
    | None => mret ()
    end
  else mret ().

(** [src/src/hook.cc:288-302 socket]
    [fd] is what [socket_f] returned. *)
Definition hook_socket (hook_enable : bool) (fd : Z) : M FdManager Z :=
  if negb hook_enable then mret fd else
  if fd =? -1 then mret fd else
  FdManager_get fd true;; mret fd.

(** [src/src/hook.cc:401-411 accept]
    [fd] is what [do_io] returned. *)
Definition hook_accept (fd : Z) : M FdManager Z :=
  (if fd >=? 0 then FdManager_get fd true;; mret () else mret ());; mret fd.

Section Close.
Context {C : Type}.

(** [src/src/hook.cc:475-500 close]
    [iom] is whether the thread has an event loop, [allow] whether [epoll_ctl]
    can succeed; [close_f] removes the descriptor from the kernel. *)
Definition hook_close (hook_enable iom allow : bool) (fd : Z) : M (IOManager C * FdManager) unit :=
  fun '(io, fm) =>
  let finish io fm := (Ok tt, (io, set_kernel (delete fd (kernel fm)) fm)) in
  if negb hook_enable then finish io fm else
  match FdManager_get fd false fm with
  | (Err e, fm) => (Err e, (io, fm))
  | (Ok None, fm) => finish io fm
  | (Ok (Some _), fm) =>
      match (if iom then cancelAll allow fd io else (Ok false, io)) with
      | (Err e, io) => (Err e, (io, fm))
      | (Ok _, io) =>
          match del fd fm with
          | (Err e, fm) => (Err e, (io, fm))
          | (Ok _, fm) => finish io fm
          end
      end
  end.
End Close.

(** ** What a blocking call returns *)

(** [k] interruptions and then an answer. *)
Definition interrupted (k : nat) (c : Z * Z) : list (Z * Z) := repeat (-1, EINTR) k ++ [c].

(** The answers to a call that has to wait once for each of [ks]. *)
Definition would_block (ks : list nat) : list (Z * Z) :=
  concat (map (fun k => interrupted k (-1, EAGAIN)) ks).

Lemma call_eintr_spec k : forall fuel c rest e,
  (fst c = -1 -> snd c <> EINTR) -> env_calls e = interrupted k c ++ rest -> (k < fuel)%nat ->
  exists err, call_eintr fuel e
    = (Ok (fst c), mkEnv rest (env_waits e) err (env_timers e) (env_next e) (env_yields e))
    /\ (fst c = -1 -> err = snd c).
Proof.
  induction k as [|k IH]; intros [|fuel] [n err] rest e Hc Hcalls Hf; try (cbn in Hf; lia);
    cbn [call_eintr interrupted repeat app] in *; unfold mbind, M_bind, call, get; rewrite Hcalls;
    cbn [fst snd env_errno] in *.
  - destruct (Z.eqb_spec n (-1)) as [->|Hn]; cbn [andb].
    + rewrite (proj2 (Z.eqb_neq err EINTR)) by (by apply Hc). by exists err.
    + exists (env_errno e). by split.
  - change ((-1 =? -1) && (_ =? EINTR)) with true. cbv iota.
    destruct (IH fuel (n, err) rest (mkEnv (interrupted k (n, err) ++ rest) (env_waits e) EINTR (env_timers e)
      (env_next e) (env_yields e)) Hc eq_refl) as (err' & Hrun & He); [lia|].
    exists err'. split; [exact Hrun|done].
Qed.

Definition env_ok (e : io_env) : Prop := Forall (fun t => (t < env_next e)%nat) (env_timers e).

Lemma cancel_fresh l n : Forall (fun t => (t < n)%nat) l -> filter (fun x => x <> n) (l ++ [n]) = l.
Proof.
  intros Hl. rewrite filter_app, list_filter_all.
  - rewrite filter_cons_False by tauto. by rewrite app_nil_r.
  - eapply Forall_impl; [done|]. cbn. lia.
Qed.

(** One round that waits: what the environment is after it. *)
Definition after_wait (e : io_env) (rest : list (Z * Z)) (ws : list wait) (err : Z) (to : Z) (y : nat) : io_env :=
  mkEnv rest ws err (env_timers e) (if to =? 2 ^ 64 - 1 then env_next e else S (env_next e)) y.

Lemma io_wait_round k rest w ws fuel to e :
  env_ok e -> env_calls e = interrupted k (-1, EAGAIN) ++ rest -> env_waits e = w :: ws -> (k <= fuel)%nat ->
  io_retry (S fuel) to e
  = match w with
    | AddFails err => (Ok (-1), after_wait e rest ws err to (env_yields e))
    | Woken => io_retry fuel to (after_wait e rest ws EAGAIN to (S (env_yields e)))
    | TimedOut => if to =? 2 ^ 64 - 1
                  then io_retry fuel to (after_wait e rest ws EAGAIN to (S (env_yields e)))
                  else (Ok (-1), after_wait e rest ws ETIMEDOUT to (S (env_yields e)))
    end.
Proof.
  intros Hok Hcalls Hw Hf.
  destruct (call_eintr_spec k (S fuel) (-1, EAGAIN) rest e) as (err & Hrun & He); [done|done|lia|].
  specialize (He eq_refl). cbn [snd fst] in He, Hrun. subst err.
  cbn [io_retry]. unfold mbind at 1, M_bind at 1. rewrite Hrun. unfold mbind at 1, M_bind at 1, get.
  cbn [env_errno]. change ((-1 =? -1) && (EAGAIN =? EAGAIN)) with true. cbv iota.
  unfold after_wait. destruct (to =? 2 ^ 64 - 1); cbn [negb];
    unfold mbind, M_bind, mret, M_ret, add_timer, wait_event, cancel_timer, set_errno, modify;
    cbn [env_waits env_calls env_errno env_timers env_next env_yields]; rewrite Hw; destruct w;
    cbn [env_waits env_calls env_errno env_timers env_next env_yields negb Z.eqb];
    rewrite ?cancel_fresh by done; done.
Qed.

Lemma after_wait_ok e rest ws err to y : env_ok e -> env_ok (after_wait e rest ws err to y).
Proof.
  intros Hok. unfold env_ok, after_wait in *. cbn [env_timers env_next]. destruct (to =? 2 ^ 64 - 1); [done|].
  eapply Forall_impl; [done|]. cbn. lia.
Qed.

(** Waiting [length ks] times and then whatever follows. *)
Lemma io_waits ks : forall fuel to e rest ws,
  env_ok e -> env_calls e = would_block ks ++ rest -> env_waits e = repeat Woken (length ks) ++ ws ->
  (length (would_block ks) <= fuel)%nat ->
  exists e' err fuel', io_retry fuel to e = io_retry fuel' to e' /\ (fuel - length (would_block ks) <= fuel')%nat
    /\ env_ok e' /\ env_calls e' = rest /\ env_waits e' = ws /\ env_errno e' = err
    /\ env_timers e' = env_timers e /\ env_yields e' = (env_yields e + length ks)%nat.
Proof.
  induction ks as [|k ks IH]; intros fuel to e rest ws Hok Hcalls Hws Hf.
  - exists e, (env_errno e), fuel. split_and!; done || lia.
  - cbn [would_block map concat length repeat app] in *.
    fold (would_block ks) in *. rewrite <-app_assoc in Hcalls.
    rewrite length_app in *. assert (length (interrupted k (-1, EAGAIN)) = S k) as Hk
      by (unfold interrupted; rewrite length_app, repeat_length; cbn; lia).
    destruct fuel as [|fuel]; [lia|].
    rewrite (io_wait_round k _ Woken _ fuel to e Hok Hcalls Hws) by lia.
    destruct (IH fuel to (after_wait e (would_block ks ++ rest) (repeat Woken (length ks) ++ ws) EAGAIN to
      (S (env_yields e))) rest ws) as (e' & err & fuel' & Hrun & Hfu & Hok' & H1 & H2 & H3 & H4 & H5);
      [by apply after_wait_ok|done|done|lia|].
    exists e', err, fuel'. rewrite Hrun. split_and!; try done; [lia|].
    rewrite H5. cbn [after_wait env_yields]. lia.
Qed.

(** C18: a blocking call on a hooked socket behaves as the system call would for a
    thread: interruptions are retried, EAGAIN gives up the processor until the
    event arrives, and the caller sees the first answer that is neither, with its
    errno; if the timeout of the descriptor comes first it sees -1 and ETIMEDOUT,
    and if the event cannot be registered -1.  No timer is left behind. *)
Theorem do_io_blocks ctx timeout_so ks k n err rest ws fuel e :
  env_ok e -> m_isClosed ctx = false -> m_isSocket ctx = true -> m_userNonblock ctx = false ->
  (n = -1 -> err <> EINTR /\ err <> EAGAIN) -> (length (would_block ks) + k + 1 < fuel)%nat ->
  (env_calls e = would_block ks ++ interrupted k (n, err) ++ rest ->
   env_waits e = repeat Woken (length ks) ++ ws ->
   exists e', do_io fuel true (Some ctx) timeout_so e = (Ok n, e') /\ (n = -1 -> env_errno e' = err)
     /\ env_calls e' = rest /\ env_timers e' = env_timers e
     /\ env_yields e' = (env_yields e + length ks)%nat)
  /\ (env_calls e = would_block ks ++ interrupted k (-1, EAGAIN) ++ rest ->
   env_waits e = repeat Woken (length ks) ++ TimedOut :: ws -> getTimeout timeout_so ctx <> 2 ^ 64 - 1 ->
   exists e', do_io fuel true (Some ctx) timeout_so e = (Ok (-1), e') /\ env_errno e' = ETIMEDOUT
     /\ env_timers e' = env_timers e)
  /\ (env_calls e = would_block ks ++ interrupted k (-1, EAGAIN) ++ rest ->
   env_waits e = repeat Woken (length ks) ++ AddFails err :: ws ->
   exists e', do_io fuel true (Some ctx) timeout_so e = (Ok (-1), e') /\ env_errno e' = err /\ env_timers e' = env_timers e).
Proof.
  intros Hok Hcl Hsock Hnb Hn Hf. unfold do_io. rewrite Hcl, Hsock, Hnb. cbn [negb orb].
  set (to := getTimeout timeout_so ctx).
  split_and!; intros Hcalls Hws; [|intros Hto|];
    (edestruct (io_waits ks fuel to e) as (e' & err' & fuel' & -> & Hfu & Hok' & H1 & H2 & _ & H4 & H5);
      [exact Hok|exact Hcalls|exact Hws|lia|]); (destruct fuel' as [|fuel']; [lia|]).
  - destruct (call_eintr_spec k (S fuel') (n, err) rest e') as (err2 & Hrun & He);
      [cbn; intros E; apply (Hn E)|done|lia|].
    cbn [io_retry fst snd] in *. unfold mbind at 1, M_bind at 1. rewrite Hrun. unfold mbind at 1, M_bind at 1, get.
    cbn [env_errno]. destruct (Z.eqb_spec n (-1)) as [->|Hne]; cbn [andb].
    + rewrite (He eq_refl), (proj2 (Z.eqb_neq err EAGAIN)) by (by apply Hn).
      eexists. split; [done|]. cbn. done.
    + eexists. split; [done|]. cbn. done.
  - rewrite (io_wait_round k rest TimedOut ws fuel' to e' Hok' H1 H2) by lia.
    rewrite (proj2 (Z.eqb_neq to _)) by done. eexists. split; [done|]. cbn. done.
  - rewrite (io_wait_round k rest (AddFails err) ws fuel' to e' Hok' H1 H2) by lia.
    eexists. split; [done|]. cbn. done.
Qed.

(** A socket that is interrupted, has to wait, and then receives 7 bytes. *)
Definition demo_sock : FdCtx := mkCtx true true true false false 5 (2 ^ 64 - 1) (2 ^ 64 - 1).
Definition demo_env : io_env :=
  mkEnv (would_block [1%nat] ++ interrupted 0 (7, 0) ++ []) (repeat Woken 1 ++ []) 0 [] 0 0.

Lemma do_io_blocks_witness :
  exists e', do_io 10 true (Some demo_sock) SO_RCVTIMEO demo_env = (Ok 7, e') /\ (7 = -1 -> env_errno e' = 0)
    /\ env_calls e' = [] /\ env_timers e' = env_timers demo_env
    /\ env_yields e' = (env_yields demo_env + 1)%nat.
Proof.
  apply (do_io_blocks demo_sock SO_RCVTIMEO [1%nat] 0 7 0 [] [] 10 demo_env);
    [constructor|reflexivity|reflexivity|reflexivity|discriminate|cbn; lia|reflexivity|reflexivity].
Defined.

(** ** Flags *)

(** A socket under the hooks' control: the kernel never blocks on it. *)
Definition hooked (s : FdManager) (fd : Z) : Prop :=
  exists c f, ctx_at s fd = Some c /\ m_isClosed c = false /\ m_isSocket c = true /\ m_sysNonblock c = true
  /\ kernel s !! fd = Some f /\ Z.testbit (k_flags f) 11 = true.

Lemma lor_nonblock z i : 0 <= i -> Z.testbit (Z.lor z O_NONBLOCK) i = Z.testbit z i || (i =? 11).
Proof.
  intros Hi. rewrite Z.lor_spec. f_equal. unfold O_NONBLOCK.
  destruct (Z.eqb_spec i 11) as [->|]; [done|]. apply Z.pow2_bits_false. lia.
Qed.

Lemma land_nonblock z i : 0 <= i -> Z.testbit (Z.land z (Z.lnot O_NONBLOCK)) i = Z.testbit z i && negb (i =? 11).
Proof.
  intros Hi. rewrite Z.land_spec, Z.lnot_spec by done. do 2 f_equal. unfold O_NONBLOCK.
  destruct (Z.eqb_spec i 11) as [->|]; [done|]. apply Z.pow2_bits_false. lia.
Qed.

(** What [F_GETFL] makes of the kernel's flags. *)
Lemma user_view z b : Z.testbit z 11 = b ->
  (if b then Z.lor (Z.lor z O_NONBLOCK) O_NONBLOCK else Z.land (Z.lor z O_NONBLOCK) (Z.lnot O_NONBLOCK)) = z.
Proof.
  intros <-. apply Z.bits_inj'. intros i Hi. destruct (Z.testbit z 11) eqn:E.
  - rewrite !lor_nonblock by done. destruct (Z.eqb_spec i 11) as [->|]; rewrite ?E, ?orb_false_r; done.
  - rewrite land_nonblock, lor_nonblock by done.
    destruct (Z.eqb_spec i 11) as [->|]; rewrite ?E, ?orb_false_r, ?andb_true_r; done.
Qed.

(** ... after the flags the hooks hand to the kernel. *)
Lemma visible_setfl z arg u :
  (if Z.testbit arg 11 then Z.lor (setfl_flags z (Z.lor arg O_NONBLOCK)) O_NONBLOCK
   else Z.land (setfl_flags z (Z.lor arg O_NONBLOCK)) (Z.lnot O_NONBLOCK))
  = setfl_flags (if u : bool then Z.lor z O_NONBLOCK else Z.land z (Z.lnot O_NONBLOCK)) arg.
Proof.
  apply Z.bits_inj'. intros i Hi.
  destruct (Z.eq_dec i 11) as [->|Hne].
  - destruct (Z.testbit arg 11) eqn:E;
      rewrite ?lor_nonblock, ?land_nonblock, !setfl_flags_spec, ?lor_nonblock by done; cbn; by rewrite ?E, ?orb_true_r, ?andb_false_r.
  - destruct (Z.testbit arg 11), u;
      rewrite ?lor_nonblock, ?land_nonblock, !setfl_flags_spec, ?lor_nonblock, ?land_nonblock by done;
      rewrite (proj2 (Z.eqb_neq i 11)) by done; cbn [negb]; rewrite ?orb_false_r, ?andb_true_r; done.
Qed.

Lemma ctx_at_update s fd f c : 0 <= fd -> ctx_at s fd = Some c -> ctx_at (update_ctx fd f s) fd = Some (f c).
Proof.
  intros Hfd. unfold ctx_at, update_ctx. rewrite (proj2 (Z.ltb_ge fd 0)) by lia.
  destruct (m_datas s !! Z.to_nat fd) as [c'|] eqn:E; [|done]. intros ->.
  cbn [set_datas m_datas]. rewrite list_lookup_alter_eq, E. done.
Qed.

Lemma getfl_hooked s fd c f : 0 <= fd -> ctx_at s fd = Some c -> m_isClosed c = false -> m_isSocket c = true ->
  kernel s !! fd = Some f ->
  fcntl_getfl fd s
  = (Ok (if m_userNonblock c then Z.lor (k_flags f) O_NONBLOCK else Z.land (k_flags f) (Z.lnot O_NONBLOCK)), s).
Proof.
  intros Hfd Hc Hcl Hsk Hk. unfold fcntl_getfl, gets, k_getfl. unfold mbind, M_bind. rewrite Hk.
  rewrite (get_existing s fd false c) by done. cbn [managed]. by rewrite Hcl, Hsk.
Qed.

(** Creating the context of a fresh socket. *)
Lemma get_creates s fd flags : 0 <= fd -> (64 <= length (m_datas s))%nat -> ctx_at s fd = None ->
  kernel s !! fd = Some (mkFile true flags) ->
  exists s', FdManager_get fd true s = (Ok (ctx_at s' fd), s')
    /\ ctx_at s' fd = Some (mkCtx true true true false false fd (2 ^ 64 - 1) (2 ^ 64 - 1))
    /\ kernel s' !! fd = Some (mkFile true (if Z.testbit flags 11 then flags else Z.lor flags O_NONBLOCK)).
Proof.
  intros Hfd H64 Hnone Hk.
  set (c := mkCtx true true true false false fd (2 ^ 64 - 1) (2 ^ 64 - 1)).
  set (s1 := snd (FdCtx_new fd s)).
  assert (FdCtx_new fd s = (c, s1)) as Hnew.
  { unfold s1, FdCtx_new, FdCtx_init. cbn [m_isInit m_fd]. by rewrite Hk. }
  assert (kernel s1 !! fd = Some (mkFile true (if Z.testbit flags 11 then flags else Z.lor flags O_NONBLOCK))
          /\ m_datas s1 = m_datas s) as [Hk1 Hd1].
  { unfold s1, FdCtx_new, FdCtx_init. cbn [m_isInit m_fd]. unfold k_getfl, k_setfl. rewrite Hk.
    cbn [k_socket k_flags snd andb]. rewrite has_flag_nonblock. destruct (Z.testbit flags 11); cbn; [by rewrite Hk|].
    rewrite lookup_insert_eq. split; [|done]. do 2 f_equal. apply Z.bits_inj'. intros i Hi. rewrite setfl_flags_spec.
    destruct (Z.testbit SETFL_MASK i) eqn:Em; [done|]. rewrite lor_nonblock by done.
    destruct (Z.eqb_spec i 11) as [->|]; [done|by rewrite orb_false_r]. }
  assert (forall d, Z.of_nat (length d) > fd ->
    ctx_at (set_datas (<[Z.to_nat fd := Some c]> d) s1) fd = Some c) as Hat.
  { intros d Hd. unfold ctx_at. rewrite (proj2 (Z.ltb_ge fd 0)) by lia. cbn [set_datas m_datas].
    by rewrite list_lookup_insert_eq by lia. }
  unfold FdManager_get. rewrite (proj2 (Z.eqb_neq fd (-1))) by lia.
  unfold mbind, M_bind, get, put, mret, M_ret. unfold ctx_at in Hnone.
  rewrite (proj2 (Z.ltb_ge fd 0)) in * by lia.
  destruct (Z.leb_spec (Z.of_nat (length (m_datas s))) fd) as [Hge|Hlt].
  - rewrite Hnew. cbv beta iota. rewrite Hd1, (proj2 (Z.leb_le (Z.of_nat (length (m_datas s))) fd)) by lia.
    assert (fd + 1 <= fd * 3 / 2) by (apply Z.div_le_lower_bound; lia).
    assert (Z.of_nat (length (resize (Z.to_nat (fd * 3 / 2)) (m_datas s))) > fd) as Hlen
      by (unfold resize; rewrite length_app, length_take, repeat_length; lia).
    rewrite (proj2 (Z.leb_gt _ fd)) by lia.
    eexists. split; [by rewrite Hat|]. split; [by apply Hat|done].
  - destruct (lookup_lt_is_Some_2 (m_datas s) (Z.to_nat fd)) as [c' E]; [lia|]. rewrite E in Hnone. subst c'.
    unfold deref. rewrite E. unfold mret, M_ret. cbv beta iota. rewrite Hnew. cbv beta iota.
    rewrite Hd1, !(proj2 (Z.leb_gt (Z.of_nat (length (m_datas s))) fd)) by lia.
    exists (set_datas (<[Z.to_nat fd := Some c]> (m_datas s)) s1).
    split; [by rewrite Hat by lia|]. split; [apply Hat; lia|done].
Qed.

(** A socket the user created non-blocking looks blocking to the user. *)
Lemma nonblock_socket_hidden s fd flags :
  0 <= fd -> (64 <= length (m_datas s))%nat -> ctx_at s fd = None -> kernel s !! fd = Some (mkFile true flags) ->
  Z.testbit flags 11 = true ->
  exists s', hook_socket true fd s = (Ok fd, s') /\ hooked s' fd
    /\ fcntl_getfl fd s' = (Ok (Z.land flags (Z.lnot O_NONBLOCK)), s').
Proof.
  intros Hfd H64 Hnone Hk Hb.
  destruct (get_creates s fd flags Hfd H64 Hnone Hk) as (s' & Hrun & Hc & Hk'). rewrite Hb in Hk'.
  exists s'. unfold hook_socket. rewrite (proj2 (Z.eqb_neq fd (-1))) by lia. cbn [negb].
  unfold mbind, M_bind. rewrite Hrun. split; [done|]. split.
  - do 2 eexists. by split_and!.
  - by rewrite (getfl_hooked s' fd _ (mkFile true flags) Hfd Hc).
Qed.


Definition demo_fds : FdManager := FdManager_new {[ 5 := mkFile true 2 ]}.

Definition demo_fm : FdManager := snd (FdManager_get 5 true demo_fds).


(** [ioctl(FIONBIO, 0)] records the wish but passes it on to the kernel: the
    socket then blocks the whole thread. *)
Lemma fionbio_unhooks s fd : 0 <= fd -> hooked s fd ->
  exists s', ioctl_fionbio fd false s = (Ok 0, s') /\ ~ hooked s' fd.
Proof.
  intros Hfd (c & f & Hc & Hcl & Hsk & Hsys & Hk & Hb).
  unfold ioctl_fionbio. unfold mbind at 1, M_bind at 1. rewrite (get_existing s fd false c) by done.
  cbn [managed]. rewrite Hcl, Hsk. cbn [negb andb]. unfold mbind, M_bind, modify, gets, kernel_setfl, k_setfl, k_getfl.
  set (g := setUserNonblock false).
  assert (kernel (update_ctx fd g s) = kernel s) as -> by done. rewrite Hk.
  eexists. split; [done|]. intros (c' & f' & _ & _ & _ & _ & Hk' & Hb'). cbn [set_kernel kernel] in Hk'.
  rewrite lookup_insert_eq in Hk'. injection Hk' as <-. cbn [k_flags] in Hb'.
  by rewrite setfl_flags_spec, land_nonblock, andb_false_r in Hb'.
Qed.

(** Turning a timeout off makes it immediate. *)
Lemma zero_timeout_immediate s fd c t :
  0 <= fd -> ctx_at s fd = Some c -> t = SO_RCVTIMEO \/ t = SO_SNDTIMEO ->
  exists s' c', setsockopt_timeout true fd SOL_SOCKET t 0 0 s = (Ok tt, s') /\ ctx_at s' fd = Some c'
  /\ getTimeout t c' = 0.
Proof.
  intros Hfd Hc Ht. unfold setsockopt_timeout. cbn [negb].
  replace ((SOL_SOCKET =? SOL_SOCKET) && ((t =? SO_RCVTIMEO) || (t =? SO_SNDTIMEO))) with true
    by (by destruct Ht as [-> | ->]).
  unfold mbind, M_bind. rewrite (get_existing s fd false c) by done. do 2 eexists. split; [done|].
  split; [by apply ctx_at_update|]. rewrite getTimeout_setTimeout, Z.eqb_refl by done. done.
Qed.

Lemma sleep_wraps : sleep_ms 4294968 = 704.
Proof. reflexivity. Qed.

(** ** Closing *)

(** Closing a hooked descriptor that tasks wait on hands them to the scheduler,
    drops the context and the kernel's descriptor, and keeps the event loop's
    invariant; closing one nobody waits on schedules nothing. *)
Theorem close_wakes_waiters (C : Type) (io : IOManager C) (fm : FdManager) fd ctx c :
  io_inv io -> 0 <= fd -> ctx_at fm fd = Some ctx -> ctx_of io fd = Some c ->
  exists io' fm', hook_close true true true fd (io, fm) = (Ok tt, (io', fm')) /\ io_inv io'
  /\ scheduled io' = scheduled io ++ waiters c (fc_events c)
  /\ m_pendingEventCount io' = m_pendingEventCount io - n_events c
  /\ ctx_at fm' fd = None /\ kernel fm' !! fd = None.
Proof.
  intros Hinv Hfd Hctx Hc.
  assert (exists io' b, cancelAll true fd io = (Ok b, io') /\ io_inv io'
    /\ scheduled io' = scheduled io ++ waiters c (fc_events c)
    /\ m_pendingEventCount io' = m_pendingEventCount io - n_events c) as (io' & b & Hcancel & Hi & Hs & Hp).
  { destruct (Z.eq_dec (fc_events c) 0) as [E|E].
    - exists io, false. destruct (ctx_of_ok io fd c Hinv Hfd Hc) as (a & Ea & Ha & Hrun & Hlen & _).
      split; [|split; [done|]].
      + unfold cancelAll. unfold mbind, M_bind, get. rewrite Hlen, Hrun. cbv beta iota.
        unfold fd_at. rewrite Ha, E. done.
      + unfold waiters, n_events, has_event. rewrite E. cbn. rewrite app_nil_r. split; [done|symmetry; apply Z.sub_0_r].
    - destruct (cancel_all_spec io fd c Hinv Hfd Hc E) as (io' & H1 & H2 & H3 & H4 & _).
      by exists io', true. }
  unfold hook_close. cbn [negb]. rewrite (get_existing fm fd false ctx) by done. rewrite Hcancel.
  unfold ctx_at in Hctx. rewrite (proj2 (Z.ltb_ge fd 0)) in Hctx by lia.
  destruct (m_datas fm !! Z.to_nat fd) as [c'|] eqn:E; [|done].
  pose proof (lookup_lt_Some _ _ _ E). unfold del, mbind, M_bind, get, put.
  rewrite (proj2 (Z.leb_gt _ fd)), (proj2 (Z.ltb_ge fd 0)) by lia.
  do 2 eexists. split; [done|]. split_and!; try done.
  - unfold ctx_at. rewrite (proj2 (Z.ltb_ge fd 0)) by lia. cbn [set_kernel set_datas m_datas].
    by rewrite list_lookup_insert_eq by lia.
  - cbn [set_kernel set_datas kernel]. apply lookup_delete_eq.
Qed.

Lemma close_wakes_waiters_witness :
  exists io' fm', hook_close true true true 5 (demo_io, demo_fm) = (Ok tt, (io', fm')) /\ io_inv io'
  /\ scheduled io' = scheduled demo_io ++ waiters demo_ctx (fc_events demo_ctx)
  /\ m_pendingEventCount io' = m_pendingEventCount demo_io - n_events demo_ctx
  /\ ctx_at fm' 5 = None /\ kernel fm' !! 5 = None.
Proof.
  apply (close_wakes_waiters nat demo_io demo_fm 5 demo_sock demo_ctx);
    [exact demo_io_inv|lia|vm_compute; reflexivity|vm_compute; reflexivity].
Defined.
