(* ===== verification/HookWait.v ===== *)
(** * Hooked calls and the event loop ([src/src/hook.cc])

    The calls that go through [do_io], the dispatch of [fcntl], and what a wait of
    [do_io] is on the event loop: setting the timer, registering the fiber for an
    event, the callback that cancels it, and the return of the fiber, each a step of
    its own with the other events of the loop before and after it.  Whatever happens
    on the loop, the fiber is handed to the scheduler once ([wakes_once]); when the
    timer fires before the registration nothing bounds the wait
    ([timer_before_registration]). *)
From S2P Require Import Prelude Fiber Scheduler FdManager IOManager IOManagerSpec Hook.

(** ** The calls *)

Inductive io_call := Read | Readv | Recv | Recvfrom | Recvmsg | Write | Writev | Send | Sendto | Sendmsg.

Definition reads (c : io_call) : bool :=
  match c with Read | Readv | Recv | Recvfrom | Recvmsg => true | _ => false end.

(** The event a call waits for and the timeout it obeys. *)
Definition event_of (c : io_call) : Event := if reads c then READ else WRITE.
Definition timeout_of (c : io_call) : Z := if reads c then SO_RCVTIMEO else SO_SNDTIMEO.

(** [src/src/hook.cc:413-473 read]
    And [readv], [recv], [recvfrom], [recvmsg], [write], [writev], [send],
    [sendto], [sendmsg]. *)
Definition hook_io (fuel : nat) (hook_enable : bool) (ctx : option FdCtx) (c : io_call) : M io_env Z :=
  do_io fuel hook_enable ctx (timeout_of c).

(** [src/src/hook.cc:395-399 connect]
    [s_connect_timeout] is a [uint64_t] initialised from an [int]. *)
Definition connect (s_connect_timeout : Z) (hook_enable : bool) (ctx : option FdCtx) (so_error : option Z)
    : M io_env Z :=
  connect_with_timeout hook_enable ctx (u64 s_connect_timeout) so_error.

(** ** [fcntl] *)

Definition F_DUPFD : Z := 0.
Definition F_GETFD : Z := 1.
Definition F_SETFD : Z := 2.
Definition F_GETFL : Z := 3.
Definition F_SETFL : Z := 4.
Definition F_GETLK : Z := 5.
Definition F_SETLK : Z := 6.
Definition F_SETLKW : Z := 7.
Definition F_SETOWN : Z := 8.
Definition F_GETOWN : Z := 9.
Definition F_SETSIG : Z := 10.
Definition F_GETSIG : Z := 11.
Definition F_SETOWN_EX : Z := 15.
Definition F_GETOWN_EX : Z := 16.
Definition F_OFD_SETLK : Z := 37.
Definition F_SETLEASE : Z := 1024.
Definition F_GETLEASE : Z := 1025.
Definition F_NOTIFY : Z := 1026.
Definition F_DUPFD_CLOEXEC : Z := 1030.
Definition F_SETPIPE_SZ : Z := 1031.
Definition F_GETPIPE_SZ : Z := 1032.

(** The commands that take their third argument on. *)
Definition with_argument : list Z :=
  [F_DUPFD; F_DUPFD_CLOEXEC; F_SETFD; F_SETOWN; F_SETSIG; F_SETLEASE; F_NOTIFY; F_SETPIPE_SZ;
   F_SETLK; F_SETLKW; F_GETLK; F_GETOWN_EX; F_SETOWN_EX].

(** [src/src/hook.cc:502-592 fcntl]
    [arg] is the argument the caller passes, if it passes one (an integer or a
    pointer); [fcntl_f] is the original on any other command than the two for the
    flags, with the argument it is handed. *)
Definition fcntl (fcntl_f : Z -> Z -> option Z -> M FdManager Z) (fd cmd : Z) (arg : option Z) : M FdManager Z :=
  if cmd =? F_SETFL then fcntl_setfl fd (default 0 arg)
  else if cmd =? F_GETFL then fcntl_getfl fd
  else if existsb (Z.eqb cmd) with_argument then fcntl_f fd cmd arg
  else fcntl_f fd cmd None.

(** Commands the switch does not know lose their argument. *)
Theorem fcntl_drops_argument fcntl_f fd arg :
  fcntl fcntl_f fd F_OFD_SETLK (Some arg) = fcntl_f fd F_OFD_SETLK None.
Proof. done. Qed.

(** ** A wait on the event loop *)

Section Waiting.
Context {C : Type}.
(** The descriptor, the event and the fiber that waits. *)
Variables (fd : Z) (e : Event) (f : nat).
Implicit Types (s : IOManager C).

(** [src/src/hook.cc:89-91 timer_info]
    The event loop during a call of [do_io]: the object the timers of the call share
    with it, whether the timer of the current wait is set, and how many callbacks of
    its timers the loop has taken from the expired timers and not yet run. *)
Record blocked := mkBlocked { b_io : IOManager C; b_cancelled : Z; b_armed : bool; b_due : nat }.

Definition with_io s (b : blocked) : blocked := mkBlocked s (b_cancelled b) (b_armed b) (b_due b).

(** [src/src/hook.cc:177-201 do_io]
    After EAGAIN: the timer, when there is a timeout. *)
Definition arm (to : Z) (b : blocked) : blocked :=
  mkBlocked (b_io b) (b_cancelled b) (negb (to =? 2 ^ 64 - 1)) (b_due b).

(** [src/src/hook.cc:203-216 do_io]
    The registration and [YieldToHold], or the return of -1 after cancelling the timer. *)
Definition enlist (allow : bool) (b : blocked) : result Z * blocked :=
  let '(rt, s) := addEvent allow true (f, EXEC) fd e None (b_io b) in
  match rt with
  | Ok 0 => (Ok 0, with_io s b)
  | Ok _ => (Ok (-1), mkBlocked s (b_cancelled b) false (b_due b))
  | Err x => (Err x, with_io s b)
  end.

(** [src/src/hook.cc:190-199 do_io]
    The callback of a timer, while [do_io] holds the shared object. *)
Definition on_timeout (allow : bool) (b : blocked) : result unit * blocked :=
  if negb (b_cancelled b =? 0) then (Ok tt, b) else
  match cancelEvent allow fd e (b_io b) with
  | (Ok _, s) => (Ok tt, mkBlocked s ETIMEDOUT (b_armed b) (b_due b))
  | (Err x, s) => (Err x, mkBlocked s ETIMEDOUT (b_armed b) (b_due b))
  end.

(** [src/src/hook.cc:218-229 do_io]
    What the fiber makes of its return: the timer is cancelled (a callback already
    taken is not); a timeout is reported, anything else retries. *)
Definition unblock (b : blocked) : wait * blocked :=
  (if negb (b_cancelled b =? 0) then TimedOut else Woken, mkBlocked (b_io b) (b_cancelled b) false (b_due b)).

(** What can happen on the loop during the call: reports of [epoll_wait], the expiry
    of the timer and, later, its callback, cancellations and closings by anybody, and
    other registrations (a callback, or a fiber that runs and so is not the one that
    waits).  A step after which the process goes on: a report that fails an assertion
    (see [hangup_asserts]) ends it. *)
Inductive happens : blocked -> blocked -> Prop :=
| hp_report b a evs s' :
    handle_event true a evs (b_io b) = (Ok tt, s') -> happens b (with_io s' b)
| hp_expire b :
    b_armed b = true -> happens b (mkBlocked (b_io b) (b_cancelled b) false (S (b_due b)))
| hp_timer b k b' :
    b_due b = S k -> on_timeout true (mkBlocked (b_io b) (b_cancelled b) (b_armed b) k) = (Ok tt, b') ->
    happens b b'
| hp_cancel b fd' e' r s' :
    0 <= fd' -> e' <> NONE -> cancelEvent true fd' e' (b_io b) = (Ok r, s') -> happens b (with_io s' b)
| hp_close b fd' r s' :
    0 <= fd' -> cancelAll true fd' (b_io b) = (Ok r, s') -> happens b (with_io s' b)
| hp_register b fd' e' cb cur s' :
    0 <= fd' -> 8 * fd' < 2 ^ 64 -> e' <> NONE -> waits (b_io b) fd' e' = None ->
    match cb with Some _ => True | None => fst cur <> f /\ snd cur = EXEC end ->
    addEvent true true cur fd' e' cb (b_io b) = (Ok 0, s') -> happens b (with_io s' b).

(** ** How often the fiber is woken *)

Definition is_task (ft : FiberAndThread C) : Prop := ft_fiber ft = Some f.
#[local] Instance is_task_dec ft : Decision (is_task ft).
Proof. unfold is_task. apply _. Defined.

(** How many tasks of the fiber were handed to the scheduler. *)
Definition handed s : nat := length (filter is_task (scheduled s)).

(** Whether the fiber waits for an event. *)
Definition waits_for s (fd' : Z) (e' : Event) : Prop := exists ft, waits s fd' e' = Some ft /\ is_task ft.

#[local] Instance waits_for_dec s fd' e' : Decision (waits_for s fd' e').
Proof.
  destruct (waits s fd' e') as [ft|] eqn:E.
  - destruct (decide (is_task ft)) as [H|H]; [left; by exists ft|right; intros (? & ? & ?); congruence].
  - right. intros (? & ? & ?). congruence.
Defined.

(** The fiber waits for its event at most, and this together with how often it has been
    handed over makes [k]; a timeout since [b_cancelled] was [c0] has handed it over. *)
Record waiting_inv (n k : nat) (c0 : Z) (b : blocked) : Prop := {
  wi_io : io_inv (b_io b);
  wi_size : 32 <= Z.of_nat (length (m_fdContexts (b_io b)));
  wi_only fd' e' : 0 <= fd' -> e' <> NONE -> waits_for (b_io b) fd' e' -> fd' = fd /\ e' = e;
  wi_low : (n <= handed (b_io b))%nat;
  wi_once : (handed (b_io b) + if decide (waits_for (b_io b) fd e) then 1 else 0)%nat = k;
  wi_timeout : b_cancelled b <> 0 ->
    b_cancelled b = ETIMEDOUT /\ (c0 = 0 -> ~ waits_for (b_io b) fd e)
}.

(** The timers of the call that have not run their callback. *)
Definition timers (b : blocked) : nat := ((if b_armed b then 1 else 0) + b_due b)%nat.

Hypothesis fd_nonneg : 0 <= fd.
Hypothesis e_event : e <> NONE.

(** The fiber's tasks among those that a mask triggers. *)
Lemma waiters_tasks (c : FdContext C) m : length (filter is_task (waiters c m))
  = Nat.add (if decide (Z.land m (ev_val READ) <> 0 /\ is_task (waiting (context c READ))) then 1%nat else 0%nat)
      (if decide (Z.land m (ev_val WRITE) <> 0 /\ is_task (waiting (context c WRITE))) then 1%nat else 0%nat).
Proof.
  unfold waiters. cbn [ev_val context]. rewrite filter_app, length_app. f_equal.
  - destruct (Z.eqb_spec (Z.land m EPOLLIN) 0) as [Hz|Hz]; cbn [negb]; [by rewrite decide_False by tauto|].
    rewrite filter_cons. case_decide; [by rewrite decide_True|by rewrite decide_False by tauto].
  - destruct (Z.eqb_spec (Z.land m EPOLLOUT) 0) as [Hz|Hz]; cbn [negb]; [by rewrite decide_False by tauto|].
    rewrite filter_cons. case_decide; [by rewrite decide_True|by rewrite decide_False by tauto].
Qed.

(** A triggered event's task is the one that waits for it. *)
Lemma triggered_waits s a c m e' : io_inv s -> fd_heap s !! a = Some c -> covered c m -> e' <> NONE ->
  Z.land m (ev_val e') <> 0 -> 0 <= fc_fd c /\ waits s (fc_fd c) e' = Some (waiting (context c e')).
Proof.
  intros Hi Ha [H1 H2] He Hm. destruct (io_dom s Hi a c Ha) as (Hin & _).
  apply list_elem_of_lookup_1 in Hin as [k Hk]. destruct (io_vec s Hi k a Hk) as (c0 & Hc0 & Hfd0).
  assert (c0 = c) as -> by congruence. split; [lia|]. unfold waits, ctx_of.
  rewrite (ctx_of_set s a c _ Hi Ha) by (done || lia). cbn. rewrite Ha. cbn.
  assert (has_event c e' = true) as -> by (destruct e'; [done|by apply H1|by apply H2]). done.
Qed.

Lemma fires_once n k c0 b a c m s' : waiting_inv n k c0 b -> fires (b_io b) a c m s' -> io_inv s' ->
  waiting_inv n k c0 (with_io s' b)
  /\ (fc_fd c = fd -> Z.land m (ev_val e) <> 0 -> ~ waits_for s' fd e).
Proof.
  intros [Hio Hsz Honly Hlow Honce Hto] Hf Hio'. pose proof (fires_waits _ _ _ _ _ Hio Hf) as Hw.
  destruct Hf as [Hm Ha Hh Hv Hcov Hsch]. destruct b as [s cn ar du]. unfold with_io. cbn [b_io b_cancelled b_armed b_due] in *.
  assert (forall fd' e', 0 <= fd' -> waits_for s' fd' e'
    <-> waits_for s fd' e' /\ ~ (fd' = fc_fd c /\ Z.land m (ev_val e') <> 0)) as Hiff.
  { intros fd' e' H0. unfold waits_for. pose proof (Hw fd' e' H0) as Hx. revert Hx.
    destruct (decide (fd' = fc_fd c /\ Z.land m (ev_val e') <> 0)) as [Hd|Hd]; intros ->.
    - split; [by intros (? & ? & _)|]. intros [_ Hn]. by destruct Hn.
    - split; [intros Hx; split; [exact Hx|exact Hd]|intros [Hx _]; exact Hx]. }
  assert (forall e', e' <> NONE -> Z.land m (ev_val e') <> 0 /\ is_task (waiting (context c e'))
    <-> Z.land m (ev_val e') <> 0 /\ waits_for s (fc_fd c) e') as Htask.
  { intros e' He'. split; intros [Hz Ht]; (split; [done|]);
      destruct (triggered_waits s a c m e' Hio Ha Hcov He' Hz) as [_ Hwt].
    - by exists (waiting (context c e')).
    - destruct Ht as (ft & Hft & Ht). congruence. }
  assert (length (filter is_task (waiters c m))
    = if decide (waits_for s fd e /\ fd = fc_fd c /\ Z.land m (ev_val e) <> 0) then 1%nat else 0%nat) as Hcount.
  { rewrite waiters_tasks. pose proof (Htask READ ltac:(done)) as TR. pose proof (Htask WRITE ltac:(done)) as TW.
    assert (forall e', e' <> NONE -> Z.land m (ev_val e') <> 0 /\ waits_for s (fc_fd c) e' -> fc_fd c = fd /\ e' = e) as Hone.
    { intros e' He' [Hz Ht]. apply Honly; [|done|done].
      by destruct (triggered_waits s a c m e' Hio Ha Hcov He' Hz). }
    pose proof (Hone READ ltac:(done)) as HR. pose proof (Hone WRITE ltac:(done)) as HW.
    clear -TR TW HR HW e_event. repeat case_decide; try done; exfalso; destruct e; naive_solver. }
  split; [|intros <- Hz Hwf; apply Hiff in Hwf; [tauto|done]].
  constructor; cbn [b_io b_cancelled b_armed]; try done.
  - by rewrite Hv.
  - intros fd' e' H0 He' Hwf. apply Hiff in Hwf as [Hwf _]; [|done]. by apply Honly.
  - unfold handed in *. rewrite Hsch, filter_app, length_app. lia.
  - unfold handed in *. rewrite Hsch, filter_app, length_app, <-Honce, Hcount.
    pose proof (Hiff fd e fd_nonneg). repeat case_decide; try lia; tauto.
  - intros Hc. destruct (Hto Hc) as [-> Hn]. split; [done|]. intros H0 Hwf. apply (Hn H0). by apply Hiff in Hwf as [].
Qed.

(** Cancelling an event: either nobody waits for it and nothing happens, or its
    task is triggered. *)
Lemma cancel_cases s fd' e' r s' : io_inv s -> 0 <= fd' -> e' <> NONE ->
  cancelEvent true fd' e' s = (Ok r, s') ->
  io_inv s' /\ ((s' = s /\ waits s fd' e' = None) \/ exists a c, fc_fd c = fd' /\ fires s a c (ev_val e') s').
Proof.
  intros Hi H0 He. destruct (waits s fd' e') as [ft|] eqn:Hw.
  - unfold waits in Hw. destruct (ctx_of s fd') as [c|] eqn:Hc; [|done]. cbn in Hw.
    destruct (has_event c e') eqn:Hh; [|done].
    destruct (ctx_of_ok s fd' c Hi H0 Hc) as (_ & _ & _ & _ & _ & Hfd & _).
    destruct (cancel_spec s fd' e' c Hi H0 He Hc Hh) as (s1 & -> & Hi1 & _ & _ & _ & a & Hf).
    intros [= _ <-]. split; [done|]. right. by exists a, c.
  - destruct (absent_ops s fd' e' Hi H0) with (allow := true) as [-> _].
    { intros c Hc. unfold waits in Hw. rewrite Hc in Hw. cbn in Hw. by destruct (has_event c e'). }
    intros [= _ <-]. split; [done|]. by left.
Qed.

Lemma close_cases s fd' r s' : io_inv s -> 0 <= fd' -> cancelAll true fd' s = (Ok r, s') ->
  io_inv s' /\ (s' = s \/ exists a c, fires s a c (fc_events c) s').
Proof.
  intros Hi H0. destruct (ctx_of s fd') as [c|] eqn:Hc.
  - destruct (Z.eq_dec (fc_events c) 0) as [E|E].
    + destruct (ctx_of_ok s fd' c Hi H0 Hc) as (a & _ & Ha & Hrun & Hlen & _).
      unfold cancelAll. mstep. rewrite Hlen, Hrun. unfold fd_at. rewrite Ha, E. intros [= _ <-]. auto.
    + destruct (cancel_all_spec s fd' c Hi H0 Hc E) as (s1 & -> & Hi1 & _ & _ & _ & a & Hf).
      intros [= _ <-]. split; [done|]. right. by exists a, c.
  - assert (Z.of_nat (length (m_fdContexts s)) <= fd') as Hlen.
    { destruct (Z.le_gt_cases (Z.of_nat (length (m_fdContexts s))) fd') as [|Hlt]; [done|].
      destruct (context_of_ok s fd' Hi ltac:(lia)) as (a & c & Hrun & Hca & _). exfalso.
      revert Hrun Hc. unfold context_of, ctx_of. mstep. rewrite (proj2 (Z.ltb_ge fd' 0)) by lia.
      destruct (m_fdContexts s !! Z.to_nat fd') as [a'|]; [|done]. intros [= ->]. cbn. congruence. }
    unfold cancelAll. mstep. rewrite (proj2 (Z.leb_le _ _) Hlen). intros [= _ <-]. auto.
Qed.

(** A report that the loop survives is one of registered events, or ignored. *)
Lemma report_step n k c0 b a evs s' : waiting_inv n k c0 b -> handle_event true a evs (b_io b) = (Ok tt, s') ->
  waiting_inv n k c0 (with_io s' b).
Proof.
  intros Hinv Hrun. destruct (handle_event_ok _ _ _ _ (wi_io _ _ _ _ Hinv) Hrun) as [->|(c & Ha & Hne & Hcov)]; [by destruct b|].
  destruct (handle_event_run (b_io b) a c evs (wi_io _ _ _ _ Hinv) Ha Hne Hcov) as (s1 & Hrun1 & Hi1 & _ & _ & _ & Hf).
  rewrite Hrun in Hrun1. injection Hrun1 as <-. by apply (fires_once n k c0 b a c _ s' Hinv Hf).
Qed.

Lemma cancel_step n k c0 b fd' e' r s' : waiting_inv n k c0 b -> 0 <= fd' -> e' <> NONE ->
  cancelEvent true fd' e' (b_io b) = (Ok r, s') ->
  waiting_inv n k c0 (with_io s' b) /\ (fd' = fd -> e' = e -> ~ waits_for s' fd e).
Proof.
  intros Hinv H0 He Hrun.
  destruct (cancel_cases _ fd' e' r s' (wi_io _ _ _ _ Hinv) H0 He Hrun) as (Hi' & [[-> Hw]|(a & c & Hfd & Hf)]).
  - split; [by destruct b|]. intros -> -> (ft & Hft & _). congruence.
  - destruct (fires_once n k c0 b a c _ s' Hinv Hf Hi') as [Hi2 Hgone]. split; [done|].
    intros -> ->. apply Hgone; [done|]. by destruct e.
Qed.

Lemma close_step n k c0 b fd' r s' : waiting_inv n k c0 b -> 0 <= fd' ->
  cancelAll true fd' (b_io b) = (Ok r, s') -> waiting_inv n k c0 (with_io s' b).
Proof.
  intros Hinv H0 Hrun. destruct (close_cases _ fd' r s' (wi_io _ _ _ _ Hinv) H0 Hrun) as (Hi' & [->|(a & c & Hf)]).
  - by destruct b.
  - by apply (fires_once n k c0 b a c _ s' Hinv Hf).
Qed.

Lemma register_step n k c0 b fd' e' cb cur s' : waiting_inv n k c0 b ->
  0 <= fd' -> 8 * fd' < 2 ^ 64 -> e' <> NONE -> waits (b_io b) fd' e' = None ->
  match cb with Some _ => True | None => fst cur <> f /\ snd cur = EXEC end ->
  addEvent true true cur fd' e' cb (b_io b) = (Ok 0, s') -> waiting_inv n k c0 (with_io s' b).
Proof.
  intros [Hi Hsz Honly Hlow Honce Hto] H0 H8 He Hw Hcur Hrun.
  destruct (add_spec (b_io b) fd' e' cb cur Hi H0 H8 Hsz He) as (s1 & c' & Hrun1 & Hi1 & Hsch & _ & Hctx & Hh & Hwt & Hother & Hlen).
  { intros c Hc. unfold waits in Hw. rewrite Hc in Hw. cbn in Hw. by destruct (has_event c e'). }
  { intros ->. apply Hcur. }
  rewrite Hrun in Hrun1. injection Hrun1 as <-.
  assert (~ waits_for s' fd' e') as Hnew.
  { intros (ft & Hft & Ht). unfold waits in Hft. rewrite Hctx in Hft. cbn in Hft. rewrite Hh, Hwt in Hft.
    injection Hft as <-. unfold is_task in Ht. destruct cb; [done|]. cbn in Ht. destruct Hcur as [Hcur _]. congruence. }
  assert (forall fd1 e1, 0 <= fd1 -> waits_for s' fd1 e1 <-> waits_for (b_io b) fd1 e1) as Hsame.
  { intros fd1 e1 H1. destruct (decide (fd1 = fd' /\ e1 = e')) as [[-> ->]|Hne].
    - split; [done|]. intros (ft & Hft & _). congruence.
    - unfold waits_for. by rewrite (Hother fd1 e1 H1 Hne). }
  unfold with_io. constructor; cbn [b_io b_cancelled b_armed b_due]; try done.
  - lia.
  - intros fd1 e1 H1 He1 Hwf. apply Honly; [done|done|]. by apply Hsame.
  - unfold handed in *. by rewrite Hsch.
  - unfold handed in *. rewrite Hsch, <-Honce. pose proof (Hsame fd e fd_nonneg). repeat case_decide; try done; tauto.
  - intros Hc. rewrite Hsame by done. by apply Hto.
Qed.

(** The callback of a timer never fails; it hands the fiber over if it waits. *)
Lemma timeout_step n k c0 s ar du : waiting_inv n k c0 (mkBlocked s 0 ar du) -> exists s',
  on_timeout true (mkBlocked s 0 ar du) = (Ok tt, mkBlocked s' ETIMEDOUT ar du)
  /\ waiting_inv n k c0 (mkBlocked s' ETIMEDOUT ar du) /\ ~ waits_for s' fd e.
Proof.
  intros Hinv. unfold on_timeout. cbn [b_cancelled b_io b_armed b_due negb Z.eqb].
  assert (exists r s', cancelEvent true fd e s = (Ok r, s')) as (r & s' & Hc).
  { destruct (waits s fd e) as [ft|] eqn:Hw.
    - unfold waits in Hw. destruct (ctx_of s fd) as [c|] eqn:Hctx; [|done]. cbn in Hw.
      destruct (has_event c e) eqn:Hh; [|done].
      destruct (cancel_spec s fd e c (wi_io _ _ _ _ Hinv) fd_nonneg e_event Hctx Hh) as (s1 & Hs1 & _). by exists true, s1.
    - destruct (absent_ops s fd e (wi_io _ _ _ _ Hinv) fd_nonneg) with (allow := true) as [Hs _]; [|by exists false, s].
      intros c Hctx. unfold waits in Hw. rewrite Hctx in Hw. cbn in Hw. by destruct (has_event c e). }
  rewrite Hc. exists s'. split; [done|].
  destruct (cancel_step n k c0 _ fd e r s' Hinv fd_nonneg e_event Hc) as [[H1 H2 H3 H4 H5 H6] Hgone].
  split; [|by apply Hgone]. constructor; cbn in *; try done. intros _. split; [done|]. intros _. by apply Hgone.
Qed.

Lemma happens_inv n k c0 b b' : waiting_inv n k c0 b -> happens b b' -> waiting_inv n k c0 b'.
Proof.
  intros Hinv Hs. destruct Hs; eauto using report_step, close_step, register_step.
  - by destruct Hinv; constructor.
  - assert (waiting_inv n k c0 (mkBlocked (b_io b) (b_cancelled b) (b_armed b) k0)) as Hinv' by (by destruct Hinv; constructor).
    destruct (Z.eq_dec (b_cancelled b) 0) as [E|E].
    + rewrite E in *. destruct (timeout_step n k c0 _ _ _ Hinv') as (s' & Hb1 & Hi1 & _). congruence.
    + unfold on_timeout in *. cbn [b_cancelled] in *. rewrite (proj2 (Z.eqb_neq _ _) E) in *. cbn in *. congruence.
  - by eapply cancel_step.
Qed.

(** A timeout stays, and every timer of the call runs its callback at most once. *)
Lemma happens_timers b b' : happens b b' ->
  (b_cancelled b' = 0 -> b_cancelled b = 0 /\ timers b' = timers b)
  /\ (b_cancelled b <> 0 -> b_cancelled b' = b_cancelled b /\ (timers b' <= timers b)%nat)
  /\ (b_cancelled b = 0 -> b_cancelled b' <> 0 -> b_cancelled b' = ETIMEDOUT /\ (timers b' < timers b)%nat).
Proof.
  destruct 1 as [|b Har|b k b' Hd Hrun| | |]; unfold timers; cbn [with_io b_cancelled b_armed b_due];
    try (split_and!; intros; split; done || lia); [rewrite Har; split_and!; intros; split; done || lia|].
  rewrite Hd. unfold on_timeout in Hrun. cbn [b_cancelled b_io b_armed b_due] in Hrun.
  destruct (Z.eqb_spec (b_cancelled b) 0) as [E|E]; cbn [negb] in Hrun.
  - destruct (cancelEvent _ _ _ _) as [[|] ]; [|done]. injection Hrun as <-. cbn. unfold ETIMEDOUT.
    split_and!; intros; try split; done || lia.
  - injection Hrun as <-. cbn. split_and!; intros; split; done || lia.
Qed.

Lemma steps_timers b b' : rtc happens b b' ->
  (b_cancelled b = 0 -> (b_cancelled b' = 0 /\ timers b' = timers b)
                        \/ (b_cancelled b' = ETIMEDOUT /\ (timers b' < timers b)%nat))
  /\ (b_cancelled b <> 0 -> b_cancelled b' = b_cancelled b /\ (timers b' <= timers b)%nat).
Proof.
  induction 1 as [b|b b1 b2 Hb _ [IH0 IH1]]; [split; [by left|done]|].
  destruct (happens_timers b b1 Hb) as (H1 & H2 & H3). split; intros Hc.
  - destruct (Z.eq_dec (b_cancelled b1) 0) as [E|E].
    + destruct (H1 E) as [_ Ht]. destruct (IH0 E) as [[]|[]]; [left|right]; (split; [done|lia]).
    + destruct (H3 Hc E) as [Et Ht]. destruct (IH1 E) as [E2 Ht2]. right. split; [congruence|lia].
  - destruct (H2 Hc) as [E Ht]. destruct IH1 as [E2 Ht2]; [congruence|]. split; [congruence|lia].
Qed.

(** Before the wait: the fiber waits for nothing. *)
Lemma waiting_inv_start c0 b : io_inv (b_io b) -> 32 <= Z.of_nat (length (m_fdContexts (b_io b))) ->
  (forall fd' e', 0 <= fd' -> e' <> NONE -> ~ waits_for (b_io b) fd' e') -> b_cancelled b = 0 ->
  waiting_inv (handed (b_io b)) (handed (b_io b)) c0 b.
Proof.
  intros Hi Hsz Hno Hc. constructor; try done.
  - intros fd' e' H0 He Hw. by destruct (Hno fd' e' H0 He).
  - rewrite decide_False by (by apply Hno). lia.
Qed.

(** The registration: it succeeds unless somebody else waits there, and the fiber waits. *)
Lemma enlist_step n b : waiting_inv n n 0 b -> 8 * fd < 2 ^ 64 -> waits (b_io b) fd e = None ->
  exists s, enlist true b = (Ok 0, with_io s b) /\ waits_for s fd e /\ waiting_inv n (S n) (b_cancelled b) (with_io s b).
Proof.
  intros [Hi Hsz Honly Hlow Honce Hto] H8 Hw. unfold enlist.
  assert (forall fd' e', 0 <= fd' -> e' <> NONE -> ~ waits_for (b_io b) fd' e') as Hnone.
  { intros fd' e' H0 He' Hwf. destruct (Honly fd' e' H0 He' Hwf) as [-> ->]. destruct Hwf as (ft & Hft & _). congruence. }
  destruct (add_spec (b_io b) fd e None (f, EXEC) Hi fd_nonneg H8 Hsz e_event)
    as (s1 & c' & -> & Hi1 & Hsch & _ & Hctx & Hh & Hwt & Hother & Hlen); [|done|].
  { intros c Hc. unfold waits in Hw. rewrite Hc in Hw. cbn in Hw. by destruct (has_event c e). }
  exists s1. split; [done|].
  assert (waits_for s1 fd e) as Hwf.
  { exists (mkFT (-1) (Some f) None). split; [|done]. unfold waits. rewrite Hctx. cbn. by rewrite Hh, Hwt. }
  rewrite decide_False in Honce by (by apply Hnone). unfold handed in *.
  split; [done|]. unfold with_io. constructor; cbn [b_io b_cancelled b_armed b_due]; try done; try lia.
  - intros fd' e' H0 He' (ft & Hft & Ht). destruct (decide (fd' = fd /\ e' = e)) as [|Hne]; [done|].
    exfalso. apply (Hnone fd' e' H0 He'). exists ft. by rewrite <-Hother.
  - unfold handed. rewrite Hsch. lia.
  - unfold handed. rewrite Hsch, decide_True by done. lia.
Qed.

Lemma wait_steps_inv n k c0 b b' : waiting_inv n k c0 b -> rtc happens b b' -> waiting_inv n k c0 b'.
Proof. intros Hinv Hs. induction Hs as [b|b b1 b2 Hb _ IH]; [done|]. apply IH. by eapply happens_inv. Qed.

End Waiting.

(** ** Witness *)

(** Fiber 7 reads from descriptor 5 for a second: the wait, with the timer expired, and
    after its callback. *)
Definition demo_start : blocked := mkBlocked (@IOManager_new nat) 0 false 0.
Definition demo_armed : blocked := arm 1000 demo_start.
Definition demo_wait : blocked := snd (enlist 5 READ 7 true demo_armed).
Definition demo_expired (b : blocked) : blocked := mkBlocked (C := nat) (b_io b) (b_cancelled b) false 1.
Definition fired (b : blocked) : blocked :=
  snd (on_timeout (C := nat) 5 READ true (mkBlocked (b_io b) (b_cancelled b) (b_armed b) 0)).
Definition demo_timeout : blocked := fired (demo_expired demo_wait).

Lemma new_contexts_interest {C} n from (s : IOManager C) : interest (new_contexts n from s) = interest s.
Proof. revert from s. induction n as [|n IH]; intros from s; cbn [new_contexts]; [done|]. by rewrite IH. Qed.

(** A loop in whose interest list there is nothing waits for nothing. *)
Lemma uninterested_waits {C} (s : IOManager C) fd e : io_inv s -> interest s = ∅ -> waits s fd e = None.
Proof.
  intros Hi He. unfold waits. destruct (ctx_of s fd) as [c|] eqn:Hc; [|done]. cbn [mbind option_bind].
  unfold ctx_of in Hc. apply bind_Some in Hc as (a & _ & Ha).
  destruct (io_dom _ Hi a c Ha) as (_ & _ & Hr). rewrite He, lookup_empty in Hr. unfold registration in Hr.
  destruct (Z.eqb_spec (fc_events c) 0) as [E|]; [|done]. unfold has_event. rewrite E. by destruct e.
Qed.

Lemma new_waits_nothing {C} fd e : waits (@IOManager_new C) fd e = None.
Proof.
  apply uninterested_waits; [exact IOManager_new_inv|].
  unfold IOManager_new, contextResize. rewrite new_contexts_interest. reflexivity.
Qed.

Lemma new_waits_for_nothing f fd e : ~ waits_for f (@IOManager_new nat) fd e.
Proof. intros (ft & Hft & _). rewrite new_waits_nothing in Hft. discriminate Hft. Qed.

(** The timer expires and its callback runs. *)
Lemma fires_later b b' : b_armed b = true -> b_due b = 0%nat ->
  on_timeout (C := nat) 5 READ true (mkBlocked (b_io b) (b_cancelled b) false 0) = (Ok tt, b') ->
  rtc (happens 5 READ 7) b b'.
Proof.
  intros Ha Hd Hrun. eapply rtc_l; [by apply hp_expire|]. apply rtc_once.
  eapply (hp_timer _ _ _ _ 0); [cbn; by rewrite Hd|exact Hrun].
Qed.


(** The timer may fire before the registration: between the two [cancelEvent] finds
    nothing to cancel.  The fiber then waits with no timer set; when something wakes it
    after all, the call reports a timeout although its descriptor is ready. *)
Theorem timer_before_registration :
  rtc (happens 5 READ 7) demo_armed (fired (demo_expired demo_armed))
  /\ exists b, enlist 5 READ 7 true (fired (demo_expired demo_armed)) = (Ok 0, b)
     /\ waits_for 7 (b_io b) 5 READ /\ timers b = 0%nat
     /\ exists b', happens 5 READ 7 b b' /\ ~ waits_for 7 (b_io b') 5 READ /\ fst (unblock b') = TimedOut.
Proof.
  split; [apply fires_later; vm_compute; reflexivity|].
  exists (snd (enlist 5 READ 7 true (fired (demo_expired demo_armed)))). split; [vm_compute; reflexivity|].
  split; [exists (mkFT (-1) (Some 7%nat) None); split; vm_compute; reflexivity|].
  split; [vm_compute; reflexivity|]. eexists.
  split; [apply (hp_report _ _ _ _ 5%nat EPOLLIN); vm_compute; reflexivity|].
  split; [|vm_compute; reflexivity]. intros (ft & Hft & _). vm_compute in Hft. discriminate Hft.
Qed.
