(* ===== verification/HookTable.v ===== *)
(** * The originals of the hooked functions ([src/src/hook.cc])

    The table of function pointers that [hook_init] fills with what [dlsym] finds
    behind the library's own definitions, and the flag that turns the hooks on for a
    thread. *)
From Stdlib Require Import String.
From S2P Require Import Prelude CString.
#[local] Open Scope string_scope.
#[local] Open Scope list_scope.
#[local] Open Scope Z_scope.

(** [src/src/hook.cc:24-45 HOOK_FUN] *)
Definition HOOK_FUN : list bytes :=
  map str ["sleep"; "usleep"; "nanosleep"; "socket"; "connect"; "accept"; "read"; "readv"; "recv"; "recvfrom";
           "recvmsg"; "writev"; "write"; "send"; "sendto"; "sendmsg"; "fcntl"; "getsockopt"; "setsockopt"; "close";
           "ioctl"].

(** [is_inited] of [hook_init], the pointers [name_f] that are not null, and
    [t_hook_enable] of the threads where it was set (line 20). *)
Record Hooks := mkHooks { is_inited : bool; originals : gmap bytes Z; t_hook_enable : gmap Z bool }.

(** [src/src/hook.cc:238-241 name_f]
    Every pointer is null at first. *)
Definition Hooks0 : Hooks := mkHooks false ∅ ∅.

(** [src/src/hook.cc:47-61 hook_init]
    [dlsym] is what [RTLD_NEXT] gives for a name. *)
Definition hook_init (dlsym : bytes -> option Z) (h : Hooks) : Hooks :=
  if is_inited h then h
  else mkHooks (is_inited h)
         (fold_left (fun m name => partial_alter (fun _ => dlsym name) name m) HOOK_FUN (originals h)) (t_hook_enable h).

(** [src/src/hook.cc:83-83 is_hook_enable] *)
Definition is_hook_enable (tid : Z) (h : Hooks) : bool := default false (t_hook_enable h !! tid).

(** [src/src/hook.cc:85-85 set_hook_enable] *)
Definition set_hook_enable (flag : bool) (tid : Z) (h : Hooks) : Hooks :=
  mkHooks (is_inited h) (originals h) (<[tid := flag]> (t_hook_enable h)).

(** [name_f(...)]: the function that is called. *)
Definition call_f (name : bytes) (h : Hooks) : result Z :=
  match originals h !! name with Some f => Ok f | None => Err (Undef null_deref) end.

(** [src/src/hook.cc:612-616 getsockopt]
    Not turned into anything, whether the thread has hooks or not. *)
Definition hook_getsockopt (h : Hooks) : result Z := call_f (str "getsockopt") h.

Lemma fold_lookups dlsym names : forall (m : gmap bytes Z) n,
  fold_left (fun m name => partial_alter (fun _ => dlsym name) name m) names m !! n
  = if decide (n ∈ names) then dlsym n else m !! n.
Proof.
  induction names as [|x names IH]; intros m n; cbn [fold_left]; [done|]. rewrite IH.
  destruct (decide (n ∈ names)) as [Hn|Hn].
  - by rewrite decide_True by (by apply elem_of_cons; right).
  - destruct (decide (n = x)) as [->|Hx].
    + rewrite lookup_partial_alter_eq, decide_True by (by apply elem_of_cons; left). done.
    + rewrite lookup_partial_alter_ne by congruence. rewrite decide_False; [done|]. rewrite elem_of_cons. by intros [?|?].
Qed.

(** After [hook_init] each hooked name stands for what the next library has, and no
    other pointer changed; before it a call of an original follows a null pointer. *)
Lemma hook_init_finds dlsym h name : is_inited h = false ->
  call_f name (hook_init dlsym h)
  = (if decide (name ∈ HOOK_FUN) then match dlsym name with Some f => Ok f | None => Err (Undef null_deref) end
     else call_f name h)
  /\ call_f name Hooks0 = Err (Undef null_deref).
Proof.
  intros Hi. unfold call_f, hook_init. rewrite Hi. cbn [originals]. rewrite fold_lookups.
  split; [by destruct (decide _)|done].
Qed.

(** [is_inited] is never set: a second call looks everything up again, and what it
    finds replaces the pointers. *)
Lemma hook_init_again dlsym1 dlsym2 name f : name ∈ HOOK_FUN -> dlsym2 name = Some f ->
  call_f name (hook_init dlsym2 (hook_init dlsym1 Hooks0)) = Ok f.
Proof. intros Hn Hd. destruct (hook_init_finds dlsym2 (hook_init dlsym1 Hooks0) name eq_refl) as [-> _]. by rewrite decide_True, Hd. Qed.

(** The hooks of a thread are its own, and off at first. *)
Lemma hooks_thread_local flag tid tid' h :
  is_hook_enable tid' (set_hook_enable flag tid h) = (if decide (tid' = tid) then flag else is_hook_enable tid' h)
  /\ is_hook_enable tid Hooks0 = false.
Proof.
  unfold is_hook_enable, set_hook_enable. cbn [t_hook_enable]. split; [|done].
  destruct (decide (tid' = tid)) as [->|]; [by rewrite lookup_insert_eq|by rewrite lookup_insert_ne].
Qed.
