(* ===== verification/LogFormat.v ===== *)
(** * Log patterns ([LogFormatter] of [src/src/log.cc])

    A pattern such as ["%d{%H:%M}%T[%p] %m%n"] is compiled once into a list of
    items, and an event is printed by printing the items.  The compiler walks
    over the pattern by index, as the code does; both of its loops carry fuel,
    and [LogFormatter_total] shows that the length of the pattern is enough. *)
From Stdlib Require Import String.
From S2P Require Import Prelude CString.
#[local] Open Scope string_scope.
#[local] Open Scope list_scope.
#[local] Open Scope Z_scope.

(** ** Levels and events *)

(** [src/include/sylar/log.hh:70-80 LogLevel::Level] *)
Inductive Level := UNKNOW | DEBUG | INFO | WARN | ERROR | FATAL.

#[export] Instance Level_eq_dec : EqDecision Level.
Proof. solve_decision. Defined.

Definition level_val (l : Level) : Z :=
  match l with UNKNOW => 0 | DEBUG => 1 | INFO => 2 | WARN => 3 | ERROR => 4 | FATAL => 5 end.

(** [src/src/log.cc:19-37 LogLevel::ToString] *)
Definition Level_ToString (l : Level) : bytes :=
  match l with
  | DEBUG => str "DEBUG" | INFO => str "INFO" | WARN => str "WARN" | ERROR => str "ERROR"
  | FATAL => str "FATAL" | UNKNOW => str "UNKNOW"
  end.

(** [src/src/log.cc:39-60 LogLevel::FromString] *)
Definition Level_FromString (s : bytes) : Level :=
  if bytes_eqb s (str "debug") then DEBUG else
  if bytes_eqb s (str "info") then INFO else
  if bytes_eqb s (str "warn") then WARN else
  if bytes_eqb s (str "error") then ERROR else
  if bytes_eqb s (str "fatal") then FATAL else
  if bytes_eqb s (str "DEBUG") then DEBUG else
  if bytes_eqb s (str "INFO") then INFO else
  if bytes_eqb s (str "WARN") then WARN else
  if bytes_eqb s (str "ERROR") then ERROR else
  if bytes_eqb s (str "FATAL") then FATAL else UNKNOW.

(** [src/include/sylar/log.hh:148-160 LogEvent]
    With the text of the stream. *)
Record LogEvent := mkEvent {
  m_file : bytes; m_line : Z; m_elapse : Z; m_threadId : Z; m_fiberId : Z; m_time : Z;
  m_ss : bytes; m_threadName : bytes; ev_level : Level
}.

(** [src/include/sylar/log.hh:119-119 LogEvent::getTime]
    Returned as a [uint32_t]. *)
Definition getTime (e : LogEvent) : Z := u32 (m_time e).

(** ** Items *)

(** [src/src/log.cc:382-538 FormatItem]
    The classes derived from [FormatItem], with the members that are read. *)
Inductive FormatItem :=
| MessageFormatItem | LevelFormatItem | ElapseFormatItem | ThreadIdFormatItem | FiberIdFormatItem
| ThreadNameFormatItem | DateTimeFormatItem (m_format : bytes) | FilenameFormatItem | NameFormatItem
| LineFormatItem | NewLineFormatItem | TabFormatItem | StringFormatItem (m_string : bytes).

(** [src/src/log.cc:446-452 DateTimeFormatItem::DateTimeFormatItem] *)
Definition DateTimeFormatItem_new (format : bytes) : FormatItem :=
  DateTimeFormatItem (match format with [] => str "%Y-%m-%d  %H:%M:%S" | _ => format end).

(** [src/src/log.cc:667-682 LogFormatter::init]
    The table of conversions. *)
Definition s_format_items (name fmt : bytes) : option FormatItem :=
  if bytes_eqb name (str "m") then Some MessageFormatItem else
  if bytes_eqb name (str "p") then Some LevelFormatItem else
  if bytes_eqb name (str "r") then Some ElapseFormatItem else
  if bytes_eqb name (str "c") then Some NameFormatItem else
  if bytes_eqb name (str "t") then Some ThreadIdFormatItem else
  if bytes_eqb name (str "n") then Some NewLineFormatItem else
  if bytes_eqb name (str "d") then Some (DateTimeFormatItem_new fmt) else
  if bytes_eqb name (str "f") then Some FilenameFormatItem else
  if bytes_eqb name (str "l") then Some LineFormatItem else
  if bytes_eqb name (str "T") then Some TabFormatItem else
  if bytes_eqb name (str "F") then Some FiberIdFormatItem else
  if bytes_eqb name (str "N") then Some ThreadNameFormatItem else None.

(** ** The compiler *)

Definition PCT : Z := 37.
Definition OPEN : Z := 123.
Definition CLOSE : Z := 125.

Definition isalpha (c : Z) : bool := ((65 <=? c) && (c <=? 90)) || ((97 <=? c) && (c <=? 122)).

(** [m_pattern[n]] *)
Definition at_ (p : bytes) (n : nat) : Z := nth n p 0.
(** [m_pattern.substr(pos, len)] *)
Definition substr (p : bytes) (pos len : nat) : bytes := slice pos len p.

(** [src/src/log.cc:581-631 LogFormatter::init]
    The loop over one conversion whose ['%'] is at [i]: where it stops, whether
    inside braces, the name and the format. *)
Fixpoint scan (fuel : nat) (p : bytes) (i n : nat) (fmt_status : bool) (fmt_begin : nat) (s fmt : bytes) :
    result (nat * bool * bytes * bytes) :=
  match fuel with
  | O => Err OutOfFuel
  | S fuel =>
      if (n <? length p)%nat then
        let c := at_ p n in
        if negb fmt_status && (negb (isalpha c) && negb (c =? OPEN) && negb (c =? CLOSE)) then
          Ok (n, fmt_status, substr p (i + 1) (n - i - 1), fmt)
        else if negb fmt_status && (c =? OPEN) then
          scan fuel p i (S n) true n (substr p (i + 1) (n - i - 1)) fmt
        else if fmt_status && (c =? CLOSE) then
          Ok (S n, false, s, substr p (fmt_begin + 1) (n - fmt_begin - 1))
        else
          let n := S n in
          let s := if (n =? length p)%nat then match s with [] => drop (i + 1) p | _ => s end else s in
          scan fuel p i n fmt_status fmt_begin s fmt
      else Ok (n, fmt_status, s, fmt)
  end.

(** A piece of the pattern: text, or a conversion with its format. *)
Notation piece := (bytes * bytes * Z)%type.

Definition flush (nstr : bytes) : list piece := match nstr with [] => [] | _ => [(nstr, [], 0)] end.

(** [src/src/log.cc:550-659 LogFormatter::init]
    From position [i], with the text [nstr] not yet stored. *)
Fixpoint pieces (fuel : nat) (p : bytes) (i : nat) (nstr : bytes) (vec : list piece) (m_error : bool) :
    result (list piece * bool) :=
  match fuel with
  | O => Err OutOfFuel
  | S fuel =>
      if (i <? length p)%nat then
        if negb (at_ p i =? PCT) then pieces fuel p (S i) (nstr ++ [at_ p i]) vec m_error else
        if (i + 1 <? length p)%nat && (at_ p (i + 1) =? PCT) then
          pieces fuel p (S i) (nstr ++ [PCT]) vec m_error
        else
          match scan (S (length p)) p i (i + 1) false 0 [] [] with
          | Err e => Err e
          | Ok (n, false, s, fmt) => pieces fuel p n [] (vec ++ flush nstr ++ [(s, fmt, 1)]) m_error
          | Ok (_, true, _, fmt) => pieces fuel p (S i) nstr (vec ++ [(str "<<pattern_error>>", fmt, 0)]) true
          end
      else Ok (vec ++ flush nstr, m_error)
  end.

(** [src/src/log.cc:685-703 LogFormatter::init]
    The item of a piece and whether it is an error. *)
Definition item_of (x : piece) : FormatItem * bool :=
  let '(s, fmt, t) := x in
  if t =? 0 then (StringFormatItem s, false)
  else match s_format_items s fmt with
       | None => (StringFormatItem (str "<<error_format %" ++ s ++ str ">>"), true)
       | Some it => (it, false)
       end.

(** [src/include/sylar/log.hh:211-215 LogFormatter] *)
Record LogFormatter := mkFormatter { m_pattern : bytes; m_items : list FormatItem; m_error : bool }.

(** [src/src/log.cc:349-352 LogFormatter::LogFormatter] *)
Definition LogFormatter_new (pattern : bytes) : result LogFormatter :=
  match pieces (S (length pattern)) pattern 0 [] [] false with
  | Err e => Err e
  | Ok (vec, err) =>
      Ok (mkFormatter pattern (map (fun x => fst (item_of x)) vec) (err || existsb (fun x => snd (item_of x)) vec))
  end.

(** ** Printing *)

Section Format.
(** [localtime_r] and [strftime] into the buffer: the text of a time. *)
Context (strftime : bytes -> Z -> bytes).

(** [src/src/log.cc:382-538 FormatItem::format] *)
Definition FormatItem_format (name : bytes) (level : Level) (e : LogEvent) (it : FormatItem) : bytes :=
  match it with
  | MessageFormatItem => m_ss e
  | LevelFormatItem => Level_ToString level
  | ElapseFormatItem => dec (m_elapse e)
  | ThreadIdFormatItem => dec (m_threadId e)
  | FiberIdFormatItem => dec (m_fiberId e)
  | ThreadNameFormatItem => m_threadName e
  | DateTimeFormatItem f => strftime f (getTime e)
  | FilenameFormatItem => m_file e
  | NameFormatItem => name
  | LineFormatItem => sdec (m_line e)
  | NewLineFormatItem => [LF]
  | TabFormatItem => [9]
  | StringFormatItem s => s
  end.

(** [src/src/log.cc:540-548 LogFormatter::format] *)
Definition LogFormatter_format (f : LogFormatter) (name : bytes) (level : Level) (e : LogEvent) : bytes :=
  concat (map (FormatItem_format name level e) (m_items f)).
End Format.

(** ** The compiler returns *)

Lemma scan_total fuel : forall p i n st b s fmt, (i < n)%nat -> (length p - n < fuel)%nat ->
  exists n' st' s' fmt', scan fuel p i n st b s fmt = Ok (n', st', s', fmt') /\ (i < n')%nat.
Proof.
  induction fuel as [|fuel IH]; intros p i n st b s fmt Hn Hf; [lia|]. cbn [scan].
  destruct (Nat.ltb_spec n (length p)) as [Hlt|]; [|by do 4 eexists].
  repeat case_match; try (by do 4 eexists; split; [done|lia]); apply IH; lia.
Qed.

Lemma pieces_total fuel : forall p i nstr vec err, (length p - i < fuel)%nat ->
  exists vec' err', pieces fuel p i nstr vec err = Ok (vec', err').
Proof.
  induction fuel as [|fuel IH]; intros p i nstr vec err Hf; [lia|]. cbn [pieces].
  destruct (Nat.ltb_spec i (length p)) as [Hlt|]; [|by do 2 eexists].
  destruct (negb _); [apply IH; lia|]. destruct (_ && _); [apply IH; lia|].
  destruct (scan_total (S (length p)) p i (i + 1) false 0 [] []) as (n & st & s & fmt & Hrun & Hn); [lia..|].
  rewrite Hrun. destruct st; apply IH; lia.
Qed.

(** Every pattern is compiled: the fuel is enough. *)
Lemma LogFormatter_total p : exists f, LogFormatter_new p = Ok f /\ m_pattern f = p.
Proof.
  destruct (pieces_total (S (length p)) p 0 [] [] false) as (vec & err & Hrun); [lia|].
  unfold LogFormatter_new. rewrite Hrun. by eexists.
Qed.

(** ** What a pattern means *)

(** A pattern as its author sees it: text, and conversions with or without a
    format in braces. *)
Inductive seg := Lit (s : bytes) | Conv (c : Z) (fmt : option bytes).

Definition seg_print (x : seg) : bytes :=
  match x with
  | Lit s => s
  | Conv c None => [PCT; c]
  | Conv c (Some f) => [PCT; c; OPEN] ++ f ++ [CLOSE]
  end.

Definition pat_print (l : list seg) : bytes := concat (map seg_print l).

(** The conversion letters. *)
Definition conv_letters : bytes := str "mprctndflTFN".

(** A byte that ends the name of a conversion. *)
Definition stops (c : Z) : bool := negb (isalpha c) && negb (c =? OPEN) && negb (c =? CLOSE).

(** Text has no percent sign and is one segment; after a conversion without
    braces it does not begin as a name or a format would go on. *)
Fixpoint pat_ok (l : list seg) : Prop :=
  match l with
  | [] => True
  | Lit s :: l => s <> [] /\ PCT ∉ s /\ pat_ok l /\ match l with Lit _ :: _ => False | _ => True end
  | Conv c f :: l =>
      c ∈ conv_letters /\ pat_ok l
      /\ match f with
         | Some f => CLOSE ∉ f
         | None => match l with Lit s :: _ => stops (hd 0 s) = true | _ => True end
         end
  end.

(** What a conversion prints. *)
Definition conv_item (c : Z) (f : bytes) : FormatItem :=
  match s_format_items [c] f with Some it => it | None => StringFormatItem [] end.

Definition seg_item (x : seg) : FormatItem :=
  match x with Lit s => StringFormatItem s | Conv c f => conv_item c (default [] f) end.

Lemma conv_letter c : c ∈ conv_letters ->
  isalpha c = true /\ (c =? PCT) = false /\ forall f, s_format_items [c] f = Some (conv_item c f).
Proof.
  intros Hc. unfold conv_letters in Hc. cbn in Hc.
  repeat (apply elem_of_cons in Hc as [->|Hc]; [by repeat split|]). by apply elem_of_nil in Hc.
Qed.

Lemma at_app pre c rest : at_ (pre ++ c :: rest) (length pre) = c.
Proof. unfold at_. by rewrite app_nth2, Nat.sub_diag by lia. Qed.

Lemma at_eq p pre c rest n : p = pre ++ c :: rest -> n = length pre -> at_ p n = c.
Proof. intros -> ->. apply at_app. Qed.

Lemma substr_eq p pre s rest pos len :
  p = pre ++ s ++ rest -> pos = length pre -> len = length s -> substr p pos len = s.
Proof. intros -> -> ->. unfold substr, slice. by rewrite drop_app_length, take_app_length. Qed.

Lemma pieces_text s : forall fuel p pre rest nstr vec err,
  p = pre ++ s ++ rest -> PCT ∉ s ->
  pieces (length s + fuel) p (length pre) nstr vec err
  = pieces fuel p (length pre + length s) (nstr ++ s) vec err.
Proof.
  induction s as [|c s IH]; intros fuel p pre rest nstr vec err Hp Hs; cbn [length Nat.add].
  - by rewrite app_nil_r, Nat.add_0_r.
  - apply not_elem_of_cons in Hs as [Hc Hs]. cbn [pieces].
    assert (length pre < length p)%nat as Hl by (rewrite Hp, !length_app; cbn [length]; lia).
    rewrite (proj2 (Nat.ltb_lt _ _) Hl), (at_eq p pre c (s ++ rest)) by done.
    rewrite (proj2 (Z.eqb_neq c PCT)) by congruence. cbn [negb].
    specialize (IH fuel p (pre ++ [c]) rest (nstr ++ [c]) vec err).
    rewrite length_app in IH. cbn [length] in IH.
    replace (S (length pre)) with (length pre + 1)%nat by lia. rewrite IH; [|by rewrite Hp, <-app_assoc|done].
    rewrite <-app_assoc. f_equal; lia.
Qed.

(** The scan of a name without braces. *)
Lemma scan_plain fuel p pre c rest :
  p = pre ++ [PCT; c] ++ rest -> isalpha c = true -> (rest = [] \/ stops (hd 0 rest) = true) ->
  scan (S (S fuel)) p (length pre) (length pre + 1) false 0 [] [] = Ok (length pre + 2, false, [c], [])%nat.
Proof.
  intros Hp Hc Hr. assert (length p = length pre + 2 + length rest)%nat as Hlen
    by (rewrite Hp, !length_app; cbn [length]; lia).
  assert (negb (c =? OPEN) = true /\ negb (c =? CLOSE) = true) as [Ho Hcl].
  { unfold isalpha in Hc. unfold OPEN, CLOSE. destruct (Z.eqb_spec c 123), (Z.eqb_spec c 125); subst; done. }
  cbn [scan]. rewrite (proj2 (Nat.ltb_lt (length pre + 1) _)) by lia.
  rewrite (at_eq p (pre ++ [PCT]) c rest) by (rewrite ?Hp, <-?app_assoc, ?length_app; done).
  rewrite Hc. cbn [negb andb]. apply negb_true_iff in Ho as ->. cbv iota.
  assert (drop (length pre + 1) p = c :: rest) as Hd.
  { rewrite Hp. change ([PCT; c] ++ rest) with ([PCT] ++ c :: rest).
    rewrite app_assoc. replace (length pre + 1)%nat with (length (pre ++ [PCT])) by (rewrite length_app; done).
    by rewrite drop_app_length. }
  destruct rest as [|c' rest].
  - rewrite (proj2 (Nat.eqb_eq (S (length pre + 1)) _)) by (cbn [length] in Hlen; lia).
    rewrite (proj2 (Nat.ltb_ge (S (length pre + 1)) _)) by (cbn [length] in Hlen; lia). rewrite Hd. do 4 f_equal. lia.
  - rewrite (proj2 (Nat.eqb_neq (S (length pre + 1)) _)), (proj2 (Nat.ltb_lt (S (length pre + 1)) _)) by (cbn [length] in Hlen; lia).
    rewrite (at_eq p (pre ++ [PCT; c]) c' rest)
      by (rewrite ?Hp, <-?app_assoc, ?length_app; cbn [length]; done || lia).
    destruct Hr as [|Hr]; [done|]. unfold stops in Hr. cbn [hd] in Hr. rewrite Hr. cbn [negb andb].
    rewrite (substr_eq p (pre ++ [PCT]) [c] (c' :: rest))
      by (rewrite ?Hp, <-?app_assoc, ?length_app; cbn [length]; done || lia).
    do 4 f_equal. lia.
Qed.

(** Inside the braces, up to the closing one. *)
Lemma scan_fmt f : forall fuel p i b pre rest c s,
  p = pre ++ f ++ CLOSE :: rest -> CLOSE ∉ f -> (length f < fuel)%nat ->
  scan fuel p i (length pre) true b (c :: s) []
  = Ok (length pre + length f + 1, false, c :: s, substr p (b + 1) (length pre + length f - b - 1))%nat.
Proof.
  induction f as [|x f IH]; intros [|fuel] p i b pre rest c s Hp Hf Hfuel; cbn [length] in *; try lia; cbn [scan];
    (assert (length p = length pre + length f + 1 + length rest
             \/ length p = length pre + length f + 2 + length rest)%nat as Hlen
       by (rewrite Hp, !length_app; cbn [length]; lia)) ||
    (assert (length p = length pre + 1 + length rest)%nat as Hlen by (rewrite Hp, !length_app; cbn [length]; lia));
    rewrite (proj2 (Nat.ltb_lt _ _)) by lia; cbn [negb andb].
  - rewrite (at_eq p pre CLOSE rest) by done. cbn [Z.eqb]. change (CLOSE =? CLOSE) with true. cbv iota.
    rewrite Nat.add_0_r. do 4 f_equal; lia.
  - apply not_elem_of_cons in Hf as [Hx Hf]. rewrite (at_eq p pre x (f ++ CLOSE :: rest)) by done.
    rewrite (proj2 (Z.eqb_neq x CLOSE)) by congruence.
    specialize (IH fuel p i b (pre ++ [x]) rest c s). rewrite length_app in IH. cbn [length] in IH.
    replace (S (length pre)) with (length pre + 1)%nat by lia.
    destruct (Nat.eqb _ _); (rewrite IH; [|by rewrite Hp, <-app_assoc|done|lia]); do 4 f_equal; lia || (f_equal; lia).
Qed.

Lemma scan_braces fuel p pre c f rest :
  p = pre ++ [PCT; c; OPEN] ++ f ++ CLOSE :: rest -> isalpha c = true -> CLOSE ∉ f -> (length f + 2 < fuel)%nat ->
  scan fuel p (length pre) (length pre + 1) false 0 [] []
  = Ok (length pre + 4 + length f, false, [c], f)%nat.
Proof.
  intros Hp Hc Hf Hfuel. assert (length p = length pre + 4 + length f + length rest)%nat as Hlen
    by (rewrite Hp, !length_app; cbn [length]; lia).
  assert ((c =? OPEN) = false) as Ho.
  { unfold isalpha in Hc. unfold OPEN. destruct (Z.eqb_spec c 123); subst; done. }
  destruct fuel as [|[|fuel]]; [lia..|]. cbn [scan]. rewrite (proj2 (Nat.ltb_lt (length pre + 1) _)) by lia.
  rewrite (at_eq p (pre ++ [PCT]) c (OPEN :: f ++ CLOSE :: rest)) by (rewrite ?Hp, <-?app_assoc, ?length_app; done).
  rewrite Hc, Ho. cbn [negb andb].
  rewrite (proj2 (Nat.eqb_neq (S (length pre + 1)) _)), (proj2 (Nat.ltb_lt (S (length pre + 1)) _)) by lia.
  rewrite (at_eq p (pre ++ [PCT; c]) OPEN (f ++ CLOSE :: rest))
    by (rewrite ?Hp, <-?app_assoc, ?length_app; cbn [length]; done || lia).
  change (isalpha OPEN) with false. change (OPEN =? OPEN) with true. cbn [negb andb].
  rewrite (substr_eq p (pre ++ [PCT]) [c] (OPEN :: f ++ CLOSE :: rest))
    by (rewrite ?Hp, <-?app_assoc, ?length_app; cbn [length]; done || lia).
  pose proof (scan_fmt f fuel p (length pre) (S (length pre + 1)) (pre ++ [PCT; c; OPEN]) rest c []) as H.
  rewrite length_app in H. cbn [length] in H. replace (S (S (length pre + 1))) with (length pre + 3)%nat by lia.
  rewrite H; [|by rewrite Hp, <-app_assoc|done|lia].
  rewrite (substr_eq p (pre ++ [PCT; c; OPEN]) f (CLOSE :: rest))
    by (rewrite ?Hp, <-?app_assoc, ?length_app; cbn [length]; done || lia).
  do 4 f_equal. lia.
Qed.

Definition piece_of (x : seg) : piece :=
  match x with Lit s => (s, [], 0) | Conv c f => ([c], default [] f, 1) end.

(** One conversion of the pattern. *)
Lemma pieces_conv fuel p pre c f rest nstr vec :
  p = pre ++ seg_print (Conv c f) ++ rest -> c ∈ conv_letters ->
  match f with Some f => CLOSE ∉ f | None => rest = [] \/ stops (hd 0 rest) = true end ->
  pieces (S fuel) p (length pre) nstr vec false
  = pieces fuel p (length (pre ++ seg_print (Conv c f))) [] (vec ++ flush nstr ++ [piece_of (Conv c f)]) false.
Proof.
  intros Hp Hc Hf. destruct (conv_letter c Hc) as (Ha & Hne & _).
  assert (exists tl, p = pre ++ PCT :: c :: tl) as [tl Htl].
  { rewrite Hp. destruct f; cbn [seg_print app]; by eexists. }
  assert (length p = length pre + 2 + length tl)%nat as Hlen by (rewrite Htl, length_app; cbn [length]; lia).
  cbn [pieces]. rewrite (proj2 (Nat.ltb_lt (length pre) _)) by lia.
  rewrite (at_eq p pre PCT (c :: tl)) by done. change (PCT =? PCT) with true. cbn [negb].
  rewrite (at_eq p (pre ++ [PCT]) c tl) by (rewrite ?Htl, <-?app_assoc, ?length_app; done).
  rewrite Hne, andb_false_r. rewrite length_app. destruct f as [f|]; cbn [seg_print piece_of default length] in *.
  - rewrite (scan_braces _ p pre c f rest); try done.
    + rewrite !length_app. cbn [length]. f_equal. lia.
    + by rewrite Hp, <-!app_assoc.
    + rewrite Hp, !length_app. cbn [length]. lia.
  - destruct (length p) as [|n] eqn:E; [lia|]. by rewrite (scan_plain n p pre c rest).
Qed.

Lemma seg_head l : pat_ok l -> (forall s l', l = Lit s :: l' -> stops (hd 0 s) = true) ->
  pat_print l = [] \/ stops (hd 0 (pat_print l)) = true.
Proof.
  destruct l as [|[s|c f] l]; intros Hok Hs; [by left| |right]; [right|by destruct f].
  destruct Hok as (Hne & _). specialize (Hs s l eq_refl). by destruct s.
Qed.

Lemma pieces_segs l : forall fuel p pre nstr vec,
  p = pre ++ pat_print l -> pat_ok l -> (nstr <> [] -> match l with Lit _ :: _ => False | _ => True end) ->
  (length (pat_print l) < fuel)%nat ->
  pieces fuel p (length pre) nstr vec false = Ok (vec ++ flush nstr ++ map piece_of l, false).
Proof.
  induction l as [|[s|c f] l IH]; intros fuel p pre nstr vec Hp Hok Hn Hf.
  - destruct fuel as [|fuel]; [cbn in Hf; lia|]. cbn [pieces]. rewrite Hp. change (pat_print []) with (@nil Z).
    by rewrite !app_nil_r, Nat.ltb_irrefl.
  - destruct nstr as [|x nstr]; [|by destruct Hn]. cbn [pat_ok] in Hok. destruct Hok as (Hne & Hpc & Hok & Hadj).
    change (pat_print (Lit s :: l)) with (s ++ pat_print l) in *. rewrite length_app in Hf.
    replace fuel with (length s + (fuel - length s))%nat by lia.
    rewrite (pieces_text s _ p pre (pat_print l)) by done. rewrite <-length_app.
    rewrite (IH _ p (pre ++ s) s vec); [|by rewrite Hp, <-app_assoc|done|done|lia]. by destruct s.
  - cbn [pat_ok] in Hok. destruct Hok as (Hc & Hok & Hadj).
    change (pat_print (Conv c f :: l)) with (seg_print (Conv c f) ++ pat_print l) in *.
    assert (0 < length (seg_print (Conv c f)))%nat by (destruct f; cbn; lia).
    rewrite length_app in Hf. destruct fuel as [|fuel]; [lia|].
    rewrite (pieces_conv fuel p pre c f (pat_print l)); [|done|done|].
    + rewrite (IH fuel p (pre ++ seg_print (Conv c f)) []); [|by rewrite Hp, <-app_assoc|done|done|lia].
      by rewrite <-!app_assoc.
    + destruct f; [done|]. apply seg_head; [done|]. intros s l' ->. done.
Qed.


Definition demo_pat : list seg :=
  [Conv 100 (Some (str "%H:%M")); Conv 84 None; Lit (str "["); Conv 112 None; Lit (str "] "); Conv 109 None;
   Conv 110 None].


(** ** Patterns the compiler does not handle *)

(** ["%%"] is not a percent sign: it gives one and then an unknown conversion. *)
Lemma double_percent_fails : LogFormatter_new (str "100%%")
  = Ok (mkFormatter (str "100%%") [StringFormatItem (str "100%"); StringFormatItem (str "<<error_format %>>")] true).
Proof. reflexivity. Qed.

(** An unclosed brace is reported in front of the text before it. *)
Lemma unclosed_brace_reorders : LogFormatter_new (str "at %d{x")
  = Ok (mkFormatter (str "at %d{x") [StringFormatItem (str "<<pattern_error>>"); StringFormatItem (str "at d{x")] true).
Proof. reflexivity. Qed.

Lemma Level_roundtrip l : Level_FromString (Level_ToString l) = l.
Proof. by destruct l. Qed.
