(* ===== verification/Util.v ===== *)
(** * File-system helpers ([FSUtil] of [src/src/util.cc]) and the clock

    A directory is a tree of the entries [readdir] returns; the file system is
    the set of the paths that exist.  What the kernel answers to [mkdir], [open]
    and [kill] is an argument. *)
From Stdlib Require Import String.
From S2P Require Import Prelude CString.
#[local] Open Scope string_scope.
#[local] Open Scope list_scope.
#[local] Open Scope Z_scope.

Definition SLASH : Z := 47.

(** [s.rfind(c)] *)
Fixpoint rfind (c : Z) (s : bytes) : option nat :=
  match s with
  | [] => None
  | x :: s => match rfind c s with
              | Some n => Some (S n)
              | None => if x =? c then Some O else None
              end
  end.

(** ** Paths *)

(** [src/src/util.cc:214-229 FSUtil::Dirname] *)
Definition Dirname (file_name : bytes) : bytes :=
  match file_name with
  | [] => str "."
  | _ => match rfind SLASH file_name with
         | Some O => str "/"
         | None => str "."
         | Some pos => take pos file_name
         end
  end.

(** [src/src/util.cc:231-243 FSUtil::Basename] *)
Definition Basename (file_name : bytes) : bytes :=
  match file_name with
  | [] => file_name
  | _ => match rfind SLASH file_name with
         | None => file_name
         | Some pos => drop (pos + 1) file_name
         end
  end.

(** ** Listing a directory *)

(** What [readdir] returns, with the contents of directories; [opens] is whether
    [access] and [opendir] succeed on it. *)
Inductive dirent :=
| DT_DIR (d_name : bytes) (opens : bool) (entries : list dirent)
| DT_REG (d_name : bytes)
| DT_OTHER (d_name : bytes).

(** [src/src/util.cc:40-53 FSUtil::ListAllFile]
    Whether a name has the suffix asked for. *)
Definition has_subfix (file_name subfix : bytes) : bool :=
  match subfix with
  | [] => true
  | _ => if (length file_name <? length subfix)%nat then false
         else bytes_eqb (drop (length file_name - length subfix) file_name) subfix
  end.

(** [src/src/util.cc:19-58 FSUtil::ListAllFile]
    The files added for the directory [d] at [path]. *)
Fixpoint ListAllFile (path subfix : bytes) (d : dirent) : list bytes :=
  match d with
  | DT_DIR _ opens entries =>
      if opens then
        concat (map (fun dp =>
          match dp with
          | DT_DIR d_name _ _ =>
              if streq (str ".") d_name || streq (str "..") d_name then []
              else ListAllFile (path ++ [SLASH] ++ d_name) subfix dp
          | DT_REG d_name => if has_subfix d_name subfix then [path ++ [SLASH] ++ d_name] else []
          | DT_OTHER _ => []
          end) entries)
      else []
  | _ => []
  end.

(** ** Creating directories *)

Record FS := mkFS { fs_paths : gset bytes }.

(** The answer of the kernel to [mkdir] of a path that does not exist. *)
Definition mkdir_answer := FS -> bytes -> bool.

(** [src/src/util.cc:59-67 __LStat] *)
Definition LStat (file : bytes) (fs : FS) : bool := bool_decide (c_str file ∈ fs_paths fs).

(** [src/src/util.cc:69-75 __MkDir]
    Whether it returns 0. *)
Definition MkDir_ (mkdir : mkdir_answer) (dirname : bytes) : M FS bool := fun fs =>
  if bool_decide (dirname ∈ fs_paths fs) then (Ok true, fs)
  else if mkdir fs dirname then (Ok true, mkFS ({[dirname]} ∪ fs_paths fs)) else (Ok false, fs).

(** The positions of ['/'] that [strchr] finds from position [i] on. *)
Fixpoint slashes (i : nat) (s : bytes) : list nat :=
  match s with
  | [] => []
  | c :: s => (if c =? SLASH then [i] else []) ++ slashes (S i) s
  end.

(** [src/src/util.cc:86-95 FSUtil::MKDir]
    The loop over the prefixes; whether it ended with [ptr] null. *)
Fixpoint MKDir_loop (mkdir : mkdir_answer) (path : bytes) (ptrs : list nat) : M FS bool :=
  match ptrs with
  | [] => mret true
  | ptr :: ptrs =>
      r ← MkDir_ mkdir (take ptr path);
      if negb r then mret false else MKDir_loop mkdir path ptrs
  end.

(** [src/src/util.cc:77-103 FSUtil::MKDir]
    [path] is freed before the last directory is made from it. *)
Definition MKDir (mkdir : mkdir_answer) (dirname : bytes) : M FS bool :=
  there ← gets (LStat dirname);
  if there : bool then mret true else
  let path := c_str dirname in
  match path with
  | [] => fail (Undef out_of_bounds)
  | _ :: rest =>
      done ← MKDir_loop mkdir path (slashes 1 rest);
      if negb done then mret false else fail (Undef use_after_free)
  end.

(** [src/src/util.cc:202-212 FSUtil::OpenForWrite]
    [open] is whether the kernel opens the file. *)
Definition OpenForWrite (mkdir : mkdir_answer) (open : FS -> bytes -> bool) (file_name : bytes) : M FS bool :=
  ok ← gets (fun fs => open fs (c_str file_name));
  if ok : bool then mret true else
  MKDir mkdir (Dirname file_name);;
  gets (fun fs => open fs (c_str file_name)).

(** [src/src/util.cc:195-200 FSUtil::OpenForRead] *)
Definition OpenForRead (open : FS -> bytes -> bool) (file_name : bytes) : M FS bool :=
  gets (fun fs => open fs (c_str file_name)).

(** ** Process and time *)

(** [std::getline]: the first line, if there is anything to read. *)
Fixpoint first_line (s : bytes) : bytes :=
  match s with [] => [] | c :: s => if c =? LF then [] else c :: first_line s end.

(** [src/src/util.cc:105-127 FSUtil::ISRunningPidFile]
    [contents] is the file's contents if it exists and opens, [alive pid] is
    whether [kill(pid, 0)] returns 0. *)
Definition ISRunningPidFile (contents : option bytes) (alive : Z -> bool) : bool :=
  match contents with
  | None | Some [] => false
  | Some text =>
      match first_line text with
      | [] => false
      | line => let pid := atoi (c_str line) in
                if pid <=? 1 then false else alive pid
      end
  end.

(** [src/src/util.cc:175-184 GetCurrentMS]
    [gettimeofday] returns the seconds and microseconds. *)
Definition GetCurrentMS (tv_sec tv_usec : Z) : Z := u64 (u64 (tv_sec * 1000) + u64 (tv_usec ÷ 1000)).

(** [src/src/util.cc:186-193 GetCurrentUS] *)
Definition GetCurrentUS (tv_sec tv_usec : Z) : Z := u64 (u64 (s64 (tv_sec * 1000) * 1000) + u64 tv_usec).

(** ** Lemmas *)

Lemma rfind_spec c s : match rfind c s with
  | Some n => exists a b, s = a ++ c :: b /\ length a = n /\ c ∉ b
  | None => c ∉ s
  end.
Proof.
  induction s as [|x s IH]; [apply not_elem_of_nil|]. cbn [rfind]. destruct (rfind c s) as [n|].
  - destruct IH as (a & b & -> & <- & Hb). by exists (x :: a), b.
  - destruct (Z.eqb_spec x c) as [->|]; [by exists [], s|]. by apply not_elem_of_cons.
Qed.

(** A path is its directory and its last component. *)
Lemma dirname_basename f : SLASH ∈ f ->
  exists a, f = a ++ SLASH :: Basename f /\ SLASH ∉ Basename f
  /\ Dirname f = match a with [] => str "/" | _ => a end.
Proof.
  intros Hf. unfold Dirname, Basename. pose proof (rfind_spec SLASH f) as H.
  destruct (rfind SLASH f) as [n|]; [|done]. destruct H as (a & b & -> & <- & Hb). exists a.
  assert (drop (length a + 1) (a ++ SLASH :: b) = b) as Hd.
  { change (SLASH :: b) with ([SLASH] ++ b). rewrite app_assoc.
    replace (length a + 1)%nat with (length (a ++ [SLASH])) by (rewrite length_app; done).
    apply drop_app_length. }
  rewrite Hd. destruct a as [|x a]; [done|]. cbn [app length]. split_and!; [done..|].
  cbn. f_equal. apply take_app_length.
Qed.

Lemma has_subfix_spec n s : has_subfix n s = true <-> exists a, n = a ++ s.
Proof.
  unfold has_subfix. destruct s as [|c s]; [split; [exists n; by rewrite app_nil_r|done]|].
  destruct (Nat.ltb_spec (length n) (length (c :: s))) as [Hl|Hl].
  - split; [done|]. intros [a ->]. rewrite length_app in Hl. lia.
  - destruct (bytes_eqb_spec (drop (length n - length (c :: s)) n) (c :: s)) as [E|E]; split; try done.
    + intros _. exists (take (length n - length (c :: s)) n). etransitivity; [symmetry; apply take_drop|]. by rewrite E.
    + intros [a ->]. destruct E. rewrite length_app, Nat.add_sub. apply drop_app_length.
Qed.

(** The files below a directory: the relative path of a regular file reached
    through directories that open. *)
Inductive below (subfix : bytes) : dirent -> bytes -> Prop :=
| below_file d entries n a :
    DT_REG n ∈ entries -> n = a ++ subfix -> below subfix (DT_DIR d true entries) (SLASH :: n)
| below_dir d entries n o es r :
    DT_DIR n o es ∈ entries -> c_str n <> str "." -> c_str n <> str ".." ->
    below subfix (DT_DIR n o es) r -> below subfix (DT_DIR d true entries) (SLASH :: n ++ r).

Fixpoint size (d : dirent) : nat :=
  match d with DT_DIR _ _ es => S (list_sum (map size es)) | _ => 1 end.

Lemma size_elem d es : d ∈ es -> (size d <= list_sum (map size es))%nat.
Proof.
  induction es as [|e es IH]; intros H; [by apply elem_of_nil in H|]. cbn [map list_sum].
  apply elem_of_cons in H as [->|H]; [|apply IH in H]; change (list_sum (?x :: ?l)) with (x + list_sum l)%nat; lia.
Qed.

Lemma list_complete k : forall d path subfix f, (size d <= k)%nat ->
  f ∈ ListAllFile path subfix d -> exists r, f = path ++ r /\ below subfix d r.
Proof.
  induction k as [|k IH]; intros [n o es|n|n] path subfix f Hs Hf; cbn [size] in Hs; try lia;
    cbn [ListAllFile] in Hf; try (by apply elem_of_nil in Hf).
  destruct o; [|by apply elem_of_nil in Hf].
  apply list_elem_of_In, in_concat in Hf as (l & Hl & Hf). apply in_map_iff in Hl as (e & <- & He).
  apply list_elem_of_In in He. pose proof (size_elem e es He) as Hsz.
  destruct e as [m o' es'|m|m]; [| |done].
  - destruct (streq (str ".") m || streq (str "..") m) eqn:Hdots; [done|].
    apply orb_false_iff in Hdots as [H1 H2]. unfold streq in H1, H2.
    destruct (bytes_eqb_spec (str ".") (c_str m)); [done|]. destruct (bytes_eqb_spec (str "..") (c_str m)); [done|].
    apply list_elem_of_In, IH in Hf as (r & -> & Hr); [|lia]. exists (SLASH :: m ++ r).
    split; [by rewrite <-!app_assoc|]. by eapply below_dir.
  - destruct (has_subfix m subfix) eqn:Hm; [|done]. apply has_subfix_spec in Hm as [a Ha].
    destruct Hf as [<-|[]]. exists (SLASH :: m). split; [done|]. by eapply below_file.
Qed.

Lemma list_sound subfix d r : below subfix d r -> forall path, path ++ r ∈ ListAllFile path subfix d.
Proof.
  induction 1 as [d es n a He Hn|d es n o es' r He H1 H2 Hb IH]; intros path; cbn [ListAllFile];
    apply list_elem_of_In, in_concat.
  - exists [path ++ SLASH :: n]. split; [|by left]. apply in_map_iff. exists (DT_REG n).
    split; [|by apply list_elem_of_In]. by rewrite (proj2 (has_subfix_spec n subfix)) by eauto.
  - exists (ListAllFile (path ++ [SLASH] ++ n) subfix (DT_DIR n o es')). split.
    + apply in_map_iff. exists (DT_DIR n o es'). split; [|by apply list_elem_of_In]. unfold streq.
      destruct (bytes_eqb_spec (str ".") (c_str n)); [congruence|].
      by destruct (bytes_eqb_spec (str "..") (c_str n)).
    + apply list_elem_of_In. specialize (IH (path ++ [SLASH] ++ n)). by rewrite <-!app_assoc in IH.
Qed.

(** ListAllFile lists exactly the regular files with the suffix that are
    reachable through directories that open, with their full paths. *)
Theorem ListAllFile_exact path subfix d f :
  f ∈ ListAllFile path subfix d <-> exists r, f = path ++ r /\ below subfix d r.
Proof.
  split; [by apply (list_complete (size d))|]. intros (r & -> & H). by apply list_sound.
Qed.

(** ** Making a directory *)

Lemma MKDir_loop_returns mkdir path ptrs : forall fs, exists b fs', MKDir_loop mkdir path ptrs fs = (Ok b, fs').
Proof.
  induction ptrs as [|ptr ptrs IH]; intros fs; [by exists true, fs|]. cbn [MKDir_loop].
  unfold mbind, M_bind, MkDir_.
  destruct (bool_decide _); [apply IH|]. destruct (mkdir _ _); [apply IH|]. by exists false, fs.
Qed.

(** A directory that does not exist is never reported as made: either a parent
    cannot be made, or the freed path is used. *)
Lemma MKDir_use_after_free mkdir dirname fs : c_str dirname <> [] -> LStat dirname fs = false ->
  exists fs', MKDir mkdir dirname fs = (Ok false, fs') \/ MKDir mkdir dirname fs = (Err (Undef use_after_free), fs').
Proof.
  intros Hne Hl. unfold MKDir, gets. unfold mbind, M_bind. rewrite Hl.
  destruct (c_str dirname) as [|c rest] eqn:E; [done|].
  destruct (MKDir_loop_returns mkdir (c :: rest) (slashes 1 rest) fs) as (b & fs' & ->).
  exists fs'. destruct b; [by right|by left].
Qed.

(** In particular when all parents are there. *)
Example MKDir_log : fst (MKDir (fun _ _ => true) (str "/var/log/sylar") (mkFS {[str "/var"; str "/var/log"]}))
  = Err (Undef use_after_free).
Proof. reflexivity. Qed.
