(* ===== verification/Env.v ===== *)
(** * Command line and environment ([src/src/env.cc])

    [init] reads the options of the command line into a map.  The kernel's
    answer to [readlink] and the process environment are arguments. *)
From Stdlib Require Import String.
From S2P Require Import Prelude CString Util.
#[local] Open Scope string_scope.
#[local] Open Scope list_scope.
#[local] Open Scope Z_scope.

(** [src/include/sylar/env.hh:130-138 Env] *)
Record Env := mkEnv {
  m_args : gmap bytes bytes; m_helps : list (bytes * bytes);
  m_program : bytes; m_exe : bytes; m_cwd : bytes
}.

Definition set_args (a : gmap bytes bytes) (e : Env) : Env := mkEnv a (m_helps e) (m_program e) (m_exe e) (m_cwd e).
Definition set_helps (h : list (bytes * bytes)) (e : Env) : Env := mkEnv (m_args e) h (m_program e) (m_exe e) (m_cwd e).

Definition Env_new : Env := mkEnv ∅ [] [] [] [].

(** [src/src/env.cc:73-77 Env::add] *)
Definition add (key val : bytes) (e : Env) : Env := set_args (<[key := val]> (m_args e)) e.
(** [src/src/env.cc:79-83 Env::del] *)
Definition Env_del (key : bytes) (e : Env) : Env := set_args (delete key (m_args e)) e.
(** [src/src/env.cc:85-90 Env::has] *)
Definition has (key : bytes) (e : Env) : bool := bool_decide (is_Some (m_args e !! key)).
(** [src/src/env.cc:92-98 Env::get] *)
Definition Env_get (key default_value : bytes) (e : Env) : bytes := default default_value (m_args e !! key).
(** [src/src/env.cc:67-71 Env::argsIsEmpty] *)
Definition argsIsEmpty (e : Env) : bool := bool_decide (m_args e = ∅).

(** [src/src/env.cc:107-118 Env::removeHelp] *)
Definition removeHelp (key : bytes) (e : Env) : Env :=
  set_helps (filter (fun h => h.1 <> key) (m_helps e)) e.

(** [src/src/env.cc:100-105 Env::addHelp] *)
Definition addHelp (key desc : bytes) (e : Env) : Env :=
  let e := removeHelp key e in
  set_helps (m_helps e ++ [(key, desc)]) e.

(** [src/src/env.cc:120-128 Env::printHelp]
    The text on the standard output. *)
Definition printHelp (e : Env) : bytes :=
  str "Usage: " ++ m_program e ++ str " [Options]" ++ [LF]
  ++ concat (map (fun i => str "    -" ++ i.1 ++ str " : " ++ i.2 ++ [LF]) (m_helps e)).

Definition DASH : Z := 45.

(** [src/src/env.cc:26-58 Env::init]
    The loop over the arguments and what follows it; [now_key] is the option
    whose value may come next. *)
Fixpoint init_args (argv : list bytes) (now_key : option bytes) (e : Env) : bool * Env :=
  match argv with
  | [] => (true, match now_key with Some k => add k [] e | None => e end)
  | (c :: key) :: argv =>
      if c =? DASH then
        match key with
        | [] => (false, e)
        | _ => init_args argv (Some key) (match now_key with Some k => add k [] e | None => e end)
        end
      else match now_key with
           | Some k => init_args argv None (add k (c :: key) e)
           | None => (false, e)
           end
  | [] :: argv =>
      match now_key with
      | Some k => init_args argv None (add k [] e)
      | None => (false, e)
      end
  end.

(** [src/src/env.cc:12-65 Env::init]
    [path] is what [readlink] wrote; the third result is the text printed. *)
Definition init (path : bytes) (argv : list bytes) (e : Env) : bool * Env * bytes :=
  let m_exe := c_str path in
  let m_cwd := match rfind SLASH m_exe with Some pos => take pos m_exe | None => m_exe end ++ [SLASH] in
  let e := mkEnv (m_args e) (m_helps e) (hd [] argv) m_exe m_cwd in
  match init_args (tail argv) None e with
  | (true, e) => (true, e, if argsIsEmpty e then printHelp e else [])
  | (false, e) => (false, e, [])
  end.

(** [src/src/env.cc:145-154 Env::getAbsolutePath] *)
Definition getAbsolutePath (path : bytes) (e : Env) : bytes :=
  match path with
  | [] => str "/"
  | c :: _ => if c =? SLASH then path else m_cwd e ++ path
  end.

(** [src/src/env.cc:130-133 Env::setEnv]
    On the environment of the process: [setenv] refuses a name that is empty or
    has an equals sign. *)
Definition setEnv (key val : bytes) (environ : gmap bytes bytes) : bool * gmap bytes bytes :=
  let k := c_str key in
  if bool_decide (k = [] \/ 61 ∈ k) then (false, environ) else (true, <[k := c_str val]> environ).

(** [src/src/env.cc:135-143 Env::getEnv] *)
Definition getEnv (key default_value : bytes) (environ : gmap bytes bytes) : bytes :=
  default default_value (environ !! c_str key).

(** ** The command line *)

(** An option with or without a value, as the user writes it. *)
Definition opt_print (o : bytes * option bytes) : list bytes :=
  (DASH :: o.1) :: match o.2 with Some v => [v] | None => [] end.

(** Names are not empty and values do not look like options. *)
Definition opt_ok (o : bytes * option bytes) : Prop :=
  o.1 <> [] /\ match o.2 with Some (c :: _) => c <> DASH | _ => True end.

(** The arguments the options stand for: later ones replace earlier ones. *)
Definition opts_args (opts : list (bytes * option bytes)) (a : gmap bytes bytes) : gmap bytes bytes :=
  fold_left (fun a o => <[o.1 := default [] o.2]> a) opts a.

(** What the pending option adds in front. *)
Definition pending (k : option bytes) (v : option bytes) : list (bytes * option bytes) :=
  match k with Some k => [(k, v)] | None => [] end.

Lemma init_args_reads opts : forall e, Forall opt_ok opts ->
  init_args (concat (map opt_print opts)) None e = (true, set_args (opts_args opts (m_args e)) e).
Proof.
  assert (forall opts k e, k <> [] -> Forall opt_ok opts ->
    init_args (concat (map opt_print opts)) None (add k [] e)
    = (true, set_args (opts_args opts (<[k := []]> (m_args e))) e) ->
    init_args (concat (map opt_print opts)) (Some k) e
    = (true, set_args (opts_args opts (<[k := []]> (m_args e))) e)) as Hnone.
  { intros l k e Hk Hl. destruct l as [|[k' v'] l]; [done|]. cbn [map concat opt_print fst].
    apply Forall_cons in Hl as [[Hk' _] _]. cbn [fst] in Hk'. destruct k'; [done|]. done. }
  induction opts as [|[k v] opts IH]; intros e Hok; [by destruct e|].
  apply Forall_cons in Hok as [[Hk Hv] Hok]. cbn [fst snd] in Hk, Hv.
  change (opts_args ((k, v) :: opts) (m_args e)) with (opts_args opts (<[k := default [] v]> (m_args e))).
  destruct k as [|c k]; [done|]. destruct v as [[|x v]|]; cbn [map concat opt_print fst snd app init_args default].
  - by rewrite (IH (add (c :: k) [] e) Hok).
  - rewrite (proj2 (Z.eqb_neq x DASH)) by done. by rewrite (IH (add (c :: k) (x :: v) e) Hok).
  - apply Hnone; [done|done|]. by rewrite (IH (add (c :: k) [] e) Hok).
Qed.

Lemma init_args_only argv : forall k e e', init_args argv k e = (true, e') ->
  exists opts v, Forall opt_ok opts /\ concat (map opt_print (pending k v ++ opts)) = concat (map opt_print (pending k None)) ++ argv
  /\ match v with Some (c :: _) => c <> DASH | _ => True end.
Proof.
  induction argv as [|a argv IH]; intros k e e' H.
  - exists [], None. by rewrite !app_nil_r.
  - destruct a as [|c key]; cbn [init_args] in H.
    + destruct k as [k|]; [|done]. apply IH in H as (opts & v & Hok & Heq & _). cbn in Heq.
      exists opts, (Some []). split_and!; [done| |done]. cbn. by rewrite Heq.
    + destruct (Z.eqb_spec c DASH) as [->|Hc].
      * destruct key as [|x key]; [done|]. apply IH in H as (opts & v & Hok & Heq & Hv).
        exists ((x :: key, v) :: opts), None. split_and!; [|  |done].
        -- constructor; [|done]. by split.
        -- rewrite map_app, concat_app. f_equal. cbn in Heq. injection Heq as Heq. cbn. by rewrite Heq.
      * destruct k as [k|]; [|done]. apply IH in H as (opts & v & Hok & Heq & _). cbn in Heq.
        exists opts, (Some (c :: key)). split_and!; [done| |done]. cbn. by rewrite Heq.
Qed.

(** The command line is accepted exactly when it is a sequence of options, each
    a dash and a name with at most one value that does not begin with a dash, and
    then every lookup is answered from the last option of that name. *)
Theorem command_line_parsed path prog argv e :
  (fst (fst (init path (prog :: argv) e)) = true
   <-> exists opts, Forall opt_ok opts /\ argv = concat (map opt_print opts))
  /\ (forall opts, Forall opt_ok opts -> argv = concat (map opt_print opts) ->
      forall e' out, init path (prog :: argv) e = (true, e', out) ->
      m_args e' = opts_args opts (m_args e) /\ m_helps e' = m_helps e
      /\ (out <> [] <-> m_args e' = ∅)).
Proof.
  unfold init. cbn [tail hd]. set (e0 := mkEnv _ _ _ _ _). split.
  - split.
    + destruct (init_args argv None e0) as [[|] e'] eqn:E; [|done]. intros _.
      apply init_args_only in E as (opts & v & Hok & Heq & _). exists opts. by split.
    + intros (opts & Hok & ->). by rewrite (init_args_reads opts e0 Hok).
  - intros opts Hok -> e' out. rewrite (init_args_reads opts e0 Hok). intros [= <- <-]. split; [done|]. split; [done|].
    unfold argsIsEmpty. cbn [set_args m_args e0]. case_bool_decide.
    + split; [done|]. intros _. discriminate.
    + by split.
Qed.

Lemma command_line_parsed_witness :
  exists e' out, init (str "/opt/sylar/bin/server") [str "server"; str "-c"; str "conf"; str "-d"] Env_new = (true, e', out)
  /\ m_args e' = opts_args [(str "c", Some (str "conf")); (str "d", None)] ∅ /\ m_helps e' = [].
Proof.
  eexists _, _. split; [reflexivity|].
  edestruct (command_line_parsed (str "/opt/sylar/bin/server") (str "server")
    [str "-c"; str "conf"; str "-d"] Env_new) as [_ H].
  edestruct (H [(str "c", Some (str "conf")); (str "d", None)]) as (H1 & H2 & _);
    [repeat constructor; cbn; discriminate || done|reflexivity|reflexivity|]. done.
Defined.

(** A help text is listed once, under its last description. *)
Lemma addHelp_replaces key desc e :
  (key, desc) ∈ m_helps (addHelp key desc e)
  /\ (forall d, (key, d) ∈ m_helps (addHelp key desc e) -> d = desc)
  /\ (forall k d, k <> key -> (k, d) ∈ m_helps (addHelp key desc e) <-> (k, d) ∈ m_helps e).
Proof.
  unfold addHelp, removeHelp. cbn [set_helps m_helps]. split_and!.
  - apply elem_of_app. right. by apply list_elem_of_singleton.
  - intros d [H|H]%elem_of_app; [by apply list_elem_of_filter in H as [H _]|].
    apply list_elem_of_singleton in H. congruence.
  - intros k d Hk. rewrite elem_of_app, list_elem_of_filter, list_elem_of_singleton. split.
    + intros [[_ H]|H]; [done|congruence].
    + intros H. by left.
Qed.

Lemma getEnv_setEnv key val d environ : c_str key <> [] -> 61 ∉ c_str key ->
  exists environ', setEnv key val environ = (true, environ') /\ getEnv key d environ' = c_str val.
Proof.
  intros H1 H2. unfold setEnv. rewrite bool_decide_eq_false_2 by tauto.
  eexists. split; [done|]. unfold getEnv. by rewrite lookup_insert_eq.
Qed.
