(* ===== verification/ConfigCast.v ===== *)
(** * Conversions of configuration values ([LexicalCast] of [include/sylar/config.hh])

    A configuration value is converted to a string and back by [LexicalCast],
    whose specialisations build and read YAML trees.  yaml-cpp and
    [boost::lexical_cast] are the typeclass [YamlCpp] with its laws and the
    conversions of the element types; the specialisations for containers are
    instances of the typeclass [Conv], and [containers_roundtrip] shows that
    each keeps the law [Cast], so that it holds for any nesting. *)
From stdpp Require Import sorting.
From S2P Require Import Prelude CString.

(** ** YAML *)

(** A tree of yaml-cpp. *)
Inductive Node :=
| Null
| Scalar (s : bytes)
| Sequence (l : list Node)
| Map (l : list (Node * Node)).

(** [node.Scalar()] *)
Definition scalar_of (n : Node) : bytes := match n with Scalar s => s | _ => [] end.
Definition IsScalar (n : Node) : bool := match n with Scalar _ => true | _ => false end.

(** [node.push_back(x)] on a node built by pushing. *)
Definition push_back (n x : Node) : Node :=
  match n with Sequence l => Sequence (l ++ [x]) | _ => Sequence [x] end.

Fixpoint set_key (k : bytes) (x : Node) (l : list (Node * Node)) : list (Node * Node) :=
  match l with
  | [] => [(Scalar k, x)]
  | (k', x') :: l => if bytes_eqb (scalar_of k') k then (k', x) :: l else (k', x') :: set_key k x l
  end.

(** [node[k] = x] on a node built by assigning to keys. *)
Definition set_node (n : Node) (k : bytes) (x : Node) : Node :=
  match n with Map l => Map (set_key k x l) | _ => Map [(Scalar k, x)] end.

(** What the code uses of yaml-cpp: parsing (which may throw), the stream
    operator, [size()], [node[i]] and the pairs an iterator visits (which may
    throw). *)
Class YamlCpp := {
  Load : bytes -> option Node;
  Emit : Node -> bytes;
  size : Node -> nat;
  index : Node -> nat -> Node;
  entries : Node -> option (list (Node * Node))
}.

(** What is relied on: trees survive emitting and parsing, and access to
    sequences, maps and the empty node. *)
Class YamlLaws `{YamlCpp} := {
  load_emit n : Load (Emit n) = Some n;
  size_sequence l : size (Sequence l) = length l;
  size_null : size Null = 0%nat;
  index_sequence l i x : l !! i = Some x -> index (Sequence l) i = x;
  entries_map l : entries (Map l) = Some l;
  entries_null : entries Null = Some []
}.

(** ** Conversions *)

(** [LexicalCast<std::string, T>] and [LexicalCast<T, std::string>]; [None] is an
    exception. *)
Class Conv (T : Type) := { FromStr : bytes -> option T; ToStr : T -> option bytes }.

(** A value that survives the round trip through its text, directly and as an
    element of a container, where the text goes through a YAML node. *)
Definition roundtrips `{YamlCpp} {T} (to : T -> option bytes) (from : bytes -> option T) (x : T) : Prop :=
  exists s n, to x = Some s /\ from s = Some x /\ Load s = Some n /\ from (Emit n) = Some x.

(** The law of a conversion, for the values that [valid] admits. *)
Class Cast `{YamlCpp} (T : Type) `{Conv T} (valid : T -> Prop) :=
  cast_ok x : valid x -> roundtrips ToStr FromStr x.

(** A strict order, as [operator<]. *)
Class Less (T : Type) := less : T -> T -> bool.

Class StrictLess (T : Type) `{Less T} := {
  less_irrefl (x : T) : less x x = false;
  less_trans (x y z : T) : less x y = true -> less y z = true -> less x z = true
}.

#[export] Instance bytes_less : Less bytes := lexlt.
#[export] Instance bytes_strict : StrictLess bytes.
Proof. constructor; [apply lexlt_irrefl|apply lexlt_trans]. Qed.

(** [std::set<T>] and the keys of [std::map]: ascending lists. *)
Definition ascending {T} `{Less T} : list T -> Prop := StronglySorted (fun x y => less x y = true).

(** [std::set::insert]: an element that is there stays. *)
Fixpoint set_insert {T} `{Less T} (x : T) (l : list T) : list T :=
  match l with
  | [] => [x]
  | y :: l' => if less y x then y :: set_insert x l' else if less x y then x :: l else l
  end.

(** [std::map::insert] *)
Fixpoint map_insert {T} (kv : bytes * T) (l : list (bytes * T)) : list (bytes * T) :=
  match l with
  | [] => [kv]
  | y :: l' => if less y.1 kv.1 then y :: map_insert kv l' else if less kv.1 y.1 then kv :: l else l
  end.

Section Containers.
Context `{YamlCpp} {T : Type} `{Conv T}.

(** The elements of a container: [YAML::Load] of the text of each. *)
Definition element (x : T) : option Node := s ← ToStr x; Load s.

(** [src/include/sylar/config.hh:120-124 LexicalCast<std::string, std::vector<T>>]
    The loop over the nodes from [i] on, adding with [add]. *)
Fixpoint from_nodes {A} (add : A -> T -> A) (node : Node) (i n : nat) (acc : A) : option A :=
  match n with
  | O => Some acc
  | S n => x ← FromStr (Emit (index node i)); from_nodes add node (S i) n (add acc x)
  end.

(** [src/include/sylar/config.hh:109-127 LexicalCast<std::string, std::vector<T>>] *)
Definition vector_FromStr (v : bytes) : option (list T) :=
  node ← Load v; from_nodes (fun l x => l ++ [x]) node 0 (size node) [].

(** [src/include/sylar/config.hh:133-149 LexicalCast<std::vector<T>, std::string>] *)
Fixpoint vector_node (v : list T) (node : Node) : option Node :=
  match v with
  | [] => Some node
  | x :: v => n ← element x; vector_node v (push_back node n)
  end.
Definition vector_ToStr (v : list T) : option bytes := node ← vector_node v Null; Some (Emit node).

(** [src/include/sylar/config.hh:155-170 LexicalCast<std::string, std::list<T>>] *)
Definition list_FromStr (v : bytes) : option (list T) :=
  node ← Load v; from_nodes (fun l x => l ++ [x]) node 0 (size node) [].

(** [src/include/sylar/config.hh:176-190 LexicalCast<std::list<T>, std::string>] *)
Definition list_ToStr (v : list T) : option bytes := node ← vector_node v Null; Some (Emit node).

(** [src/include/sylar/config.hh:196-213 LexicalCast<std::string, std::set<T>>] *)
Definition set_FromStr `{Less T} (v : bytes) : option (list T) :=
  node ← Load v; from_nodes (fun l x => set_insert x l) node 0 (size node) [].

(** [src/include/sylar/config.hh:219-234 LexicalCast<std::set<T>, std::string>] *)
Definition set_ToStr (v : list T) : option bytes := node ← vector_node v Null; Some (Emit node).

(** [src/include/sylar/config.hh:291-296 LexicalCast<std::string, std::map<std::string, T>>] *)
Fixpoint from_entries (l : list (Node * Node)) (acc : list (bytes * T)) : option (list (bytes * T)) :=
  match l with
  | [] => Some acc
  | (k, n) :: l => x ← FromStr (Emit n); from_entries l (map_insert (scalar_of k, x) acc)
  end.

(** [src/include/sylar/config.hh:281-299 LexicalCast<std::string, std::map<std::string, T>>] *)
Definition map_FromStr (v : bytes) : option (list (bytes * T)) :=
  node ← Load v; l ← entries node; from_entries l [].

(** [src/include/sylar/config.hh:311-313 LexicalCast<std::map<std::string, T>, std::string>] *)
Fixpoint map_node (v : list (bytes * T)) (node : Node) : option Node :=
  match v with
  | [] => Some node
  | (k, x) :: v => n ← element x; map_node v (set_node node k n)
  end.

(** [src/include/sylar/config.hh:305-318 LexicalCast<std::map<std::string, T>, std::string>] *)
Definition map_ToStr (v : list (bytes * T)) : option bytes := node ← map_node v Null; Some (Emit node).

(** ** Round trips *)

Context `{!YamlLaws} (valid : T -> Prop) `{!Cast T valid}.

Definition elem_node (x : T) (n : Node) : Prop := element x = Some n /\ FromStr (Emit n) = Some x.

Lemma elements_nodes (v : list T) : Forall valid v -> exists ns, Forall2 elem_node v ns.
Proof.
  induction 1 as [|x v Hx _ [ns IH]]; [by exists []|]. destruct (cast_ok x Hx) as (s & n & Hs & _ & Hn & Hf).
  exists (n :: ns). constructor; [|done]. split; [|done]. unfold element. by rewrite Hs.
Qed.

Definition seq_of (ns : list Node) : Node := match ns with [] => Null | _ => Sequence ns end.

Lemma push_back_seq ns n : push_back (seq_of ns) n = seq_of (ns ++ [n]).
Proof. by destruct ns. Qed.

Lemma vector_node_spec (v : list T) ns : Forall2 elem_node v ns ->
  forall pre, vector_node v (seq_of pre) = Some (seq_of (pre ++ ns)).
Proof.
  induction 1 as [|x n v ns [Hx _] _ IH]; intros pre; cbn [vector_node]; [by rewrite app_nil_r|].
  rewrite Hx. cbn. rewrite push_back_seq, IH. by rewrite <-app_assoc.
Qed.

Lemma size_seq_of ns : size (seq_of ns) = length ns.
Proof. destruct ns; [apply size_null|apply size_sequence]. Qed.

Lemma from_nodes_spec {A} (add : A -> T -> A) (v : list T) ns : Forall2 elem_node v ns ->
  forall pre acc, from_nodes add (seq_of (pre ++ ns)) (length pre) (length ns) acc = Some (fold_left add v acc).
Proof.
  induction 1 as [|x n v ns [_ Hx] _ IH]; intros pre acc; [done|]. cbn [from_nodes length].
  assert (index (seq_of (pre ++ n :: ns)) (length pre) = n) as ->.
  { replace (seq_of (pre ++ n :: ns)) with (Sequence (pre ++ n :: ns)) by (by destruct pre).
    apply index_sequence. by apply list_lookup_middle. }
  rewrite Hx. cbn. specialize (IH (pre ++ [n]) (add acc x)). rewrite <-app_assoc, length_app in IH. cbn in IH.
  by rewrite Nat.add_1_r in IH.
Qed.

(** Any container filled from a sequence by [add]. *)
Lemma sequence_roundtrip (add : list T -> T -> list T) (v : list T) :
  Forall valid v -> fold_left add v [] = v ->
  roundtrips (fun v => node ← vector_node v Null; Some (Emit node))
    (fun s => node ← Load s; from_nodes add node 0 (size node) []) v.
Proof.
  intros Hv Hadd. destruct (elements_nodes v Hv) as [ns Hns].
  assert (from_nodes add (seq_of ns) 0 (size (seq_of ns)) [] = Some v) as Hfrom.
  { rewrite size_seq_of, <-(f_equal Some Hadd). apply (from_nodes_spec add v ns Hns []). }
  exists (Emit (seq_of ns)), (seq_of ns). rewrite load_emit. cbn.
  rewrite (vector_node_spec v ns Hns [] : vector_node v Null = _). done.
Qed.

Lemma fold_snoc (v acc : list T) : fold_left (fun l x => l ++ [x]) v acc = acc ++ v.
Proof.
  revert acc. induction v as [|x v IH]; intros acc; cbn; [by rewrite app_nil_r|]. rewrite IH. by rewrite <-app_assoc.
Qed.

Lemma set_insert_max `{Less T} (x : T) l : Forall (fun y => less y x = true) l -> set_insert x l = l ++ [x].
Proof. induction 1 as [|y l Hy _ IH]; [done|]. cbn. by rewrite Hy, IH. Qed.

Lemma fold_set_insert `{Less T} (v : list T) : forall acc, ascending (acc ++ v) ->
  fold_left (fun l x => set_insert x l) v acc = acc ++ v.
Proof.
  induction v as [|x v IH]; intros acc Hs; cbn; [by rewrite app_nil_r|].
  rewrite set_insert_max; [rewrite IH; by rewrite <-app_assoc|].
  apply Forall_forall. intros y Hy. apply (StronglySorted_app_1_elem_of _ _ _ y x Hs Hy). by left.
Qed.

(** *** Maps *)

Definition map_of (l : list (Node * Node)) : Node := match l with [] => Null | _ => Map l end.

Lemma set_key_new k n l : Forall (fun y => scalar_of y.1 <> k) l -> set_key k n l = l ++ [(Scalar k, n)].
Proof.
  induction 1 as [|[k' x'] l Hy _ IH]; [done|]. cbn in *. destruct (bytes_eqb_spec (scalar_of k') k); [done|].
  by rewrite IH.
Qed.

Lemma set_node_new k n l : Forall (fun y => scalar_of y.1 <> k) l -> set_node (map_of l) k n = map_of (l ++ [(Scalar k, n)]).
Proof. intros Hl. destruct l as [|y l]; [done|]. cbn [map_of set_node]. by rewrite set_key_new. Qed.

Definition entry_node (kv : bytes * T) (kn : Node * Node) : Prop := kn.1 = Scalar kv.1 /\ elem_node kv.2 kn.2.

Lemma entries_nodes (v : list (bytes * T)) : Forall (fun kv => valid kv.2) v -> exists ns, Forall2 entry_node v ns.
Proof.
  induction 1 as [|[k x] v Hx _ [ns IH]]; [by exists []|].
  destruct (elements_nodes [x]) as [l Hl]; [by repeat constructor|].
  apply Forall2_cons_inv_l in Hl as (n & l' & Hn & _ & _). exists ((Scalar k, n) :: ns).
  constructor; [by split|done].
Qed.

Lemma ascending_nodup (l : list bytes) : ascending l -> NoDup l.
Proof.
  induction 1 as [|x l _ IH Hx]; constructor; [|done]. intros Hin. rewrite Forall_forall in Hx.
  specialize (Hx x Hin). by rewrite less_irrefl in Hx.
Qed.

Lemma map_node_spec (v : list (bytes * T)) ns : Forall2 entry_node v ns ->
  forall pre, NoDup (map (fun y => scalar_of y.1) pre ++ map fst v) ->
  map_node v (map_of pre) = Some (map_of (pre ++ ns)).
Proof.
  induction 1 as [|[k x] [k' n] v ns [Hk [Hx _]] _ IH]; intros pre Hnd; cbn [map_node]; [by rewrite app_nil_r|].
  cbn [fst snd] in *. subst k'. rewrite Hx. cbn [mbind option_bind]. cbn [map] in Hnd.
  rewrite set_node_new.
  - rewrite IH; [by rewrite <-app_assoc|]. rewrite map_app, <-app_assoc. done.
  - apply NoDup_app in Hnd as (_ & Hnd & _). apply Forall_forall. intros y Hy E.
    apply (Hnd (scalar_of y.1)).
    + apply list_elem_of_In, (in_map (fun y => scalar_of y.1)), list_elem_of_In. done.
    + rewrite E. by left.
Qed.

Lemma map_insert_max (kv : bytes * T) l : Forall (fun y => less y.1 kv.1 = true) l -> map_insert kv l = l ++ [kv].
Proof. induction 1 as [|y l Hy _ IH]; [done|]. cbn. by rewrite Hy, IH. Qed.

Lemma from_entries_spec (v : list (bytes * T)) ns : Forall2 entry_node v ns ->
  forall acc, ascending (map fst (acc ++ v)) -> from_entries ns acc = Some (acc ++ v).
Proof.
  induction 1 as [|[k x] [k' n] v ns [Hk [_ Hx]] _ IH]; intros acc Hs; cbn [from_entries]; [by rewrite app_nil_r|].
  cbn [fst snd] in *. subst k'. rewrite Hx. cbn [mbind option_bind scalar_of].
  rewrite map_insert_max; [rewrite IH; by rewrite <-app_assoc|].
  apply Forall_forall. intros y Hy. rewrite map_app in Hs.
  apply (StronglySorted_app_1_elem_of _ _ _ y.1 k Hs); [|by left].
  apply list_elem_of_In, in_map, list_elem_of_In. done.
Qed.

Lemma map_roundtrip (v : list (bytes * T)) : Forall (fun kv => valid kv.2) v -> ascending (map fst v) ->
  roundtrips map_ToStr map_FromStr v.
Proof.
  intros Hv Hs. destruct (entries_nodes v Hv) as [ns Hns].
  assert (entries (map_of ns) = Some ns) as He by (destruct ns; [apply entries_null|apply entries_map]).
  assert (map_FromStr (Emit (map_of ns)) = Some v) as Hfrom.
  { unfold map_FromStr. rewrite load_emit. cbn. rewrite He. cbn. by apply (from_entries_spec v ns Hns []). }
  exists (Emit (map_of ns)), (map_of ns). rewrite load_emit. unfold map_ToStr.
  rewrite (map_node_spec v ns Hns [] (ascending_nodup _ Hs) : map_node v Null = _). done.
Qed.

(** The conversions of vectors, lists, sets and string-keyed maps to text and
    back are inverse whenever that of the elements is, also when the container is
    itself an element, so for every nesting of them. *)
Theorem containers_roundtrip `{Less T} :
  (forall v : list T, Forall valid v -> roundtrips vector_ToStr vector_FromStr v)
  /\ (forall v : list T, Forall valid v -> roundtrips list_ToStr list_FromStr v)
  /\ (forall v : list T, Forall valid v -> ascending v -> roundtrips set_ToStr set_FromStr v)
  /\ (forall v : list (bytes * T), Forall (fun kv => valid kv.2) v -> ascending (map fst v) ->
      roundtrips map_ToStr map_FromStr v).
Proof.
  split_and!; intros v Hv; [..|by apply map_roundtrip].
  - apply sequence_roundtrip; [done|]. apply fold_snoc.
  - apply sequence_roundtrip; [done|]. apply fold_snoc.
  - intros Hs. apply sequence_roundtrip; [done|]. by apply fold_set_insert.
Qed.
End Containers.

(** ** A model of the interfaces

    A concrete [YamlCpp]: numbers are plain scalars, and any other tree is
    written as a mark followed by the bits of its code. *)

Module Plain.

Fixpoint to_tree (n : Node) : gen_tree bytes :=
  match n with
  | Null => GenNode 0 []
  | Scalar s => GenLeaf s
  | Sequence l => GenNode 1 (map to_tree l)
  | Map l => GenNode 2 (map (fun kv => GenNode 3 [to_tree kv.1; to_tree kv.2]) l)
  end.

Fixpoint of_tree (t : gen_tree bytes) : Node :=
  match t with
  | GenLeaf s => Scalar s
  | GenNode 1 l => Sequence (map of_tree l)
  | GenNode 2 l => Map (map (fun t => match t with GenNode _ [k; v] => (of_tree k, of_tree v) | _ => (Null, Null) end) l)
  | GenNode _ _ => Null
  end.

Fixpoint of_to_tree (n : Node) : of_tree (to_tree n) = n.
Proof.
  destruct n as [|s|l|l]; cbn; [done..| |]; f_equal.
  - induction l as [|x l IH]; cbn; [done|]. by rewrite of_to_tree, IH.
  - induction l as [|[k v] l IH]; cbn; [done|]. by rewrite !of_to_tree, IH.
Qed.

Fixpoint bits (p : positive) : bytes :=
  match p with xH => [] | xO p => 0 :: bits p | xI p => 1 :: bits p end.
Fixpoint unbits (s : bytes) : positive :=
  match s with [] => xH | b :: s => if b =? 0 then xO (unbits s) else xI (unbits s) end.

Lemma unbits_bits p : unbits (bits p) = p.
Proof. induction p; cbn; by f_equal. Qed.

Definition number (s : bytes) : bool := match s with [] => false | _ => forallb is_digit s end.

Definition load (s : bytes) : option Node :=
  if number s then Some (Scalar s) else option_map of_tree (decode (unbits (tail s))).
Definition emit (n : Node) : bytes :=
  if number (scalar_of n) then scalar_of n else 33 :: bits (encode (to_tree n)).

#[export] Instance plain : YamlCpp := {
  Load := load; Emit := emit;
  size n := match n with Sequence l => length l | Map l => length l | _ => 0%nat end;
  index n i := match n with Sequence l => nth i l Null | _ => Null end;
  entries n := match n with Map l => Some l | Sequence _ => None | _ => Some [] end
}.

#[export] Instance plain_laws : YamlLaws.
Proof.
  constructor; try done.
  - intros n. cbn. unfold load, emit. destruct (number (scalar_of n)) eqn:E.
    + rewrite E. by destruct n.
    + change (number (33 :: ?s)) with false. cbv iota. cbn [tail].
      by rewrite unbits_bits, decode_encode; cbn; rewrite of_to_tree.
  - intros l i x Hx. cbn. by apply nth_lookup_Some.
Qed.

(** Unsigned 64-bit numbers. *)
Definition valid (x : Z) : Prop := 0 <= x < 2 ^ 64.

#[export] Instance u64_conv : Conv Z := {
  FromStr s := if number s then Some (undec s) else None;
  ToStr x := Some (dec x)
}.

#[export] Instance u64_cast : Cast Z valid.
Proof.
  intros x Hx. destruct (dec_spec x Hx) as (Hu & Hne & Hd).
  assert (number (dec x) = true) as Hn by (by destruct (dec x)).
  exists (dec x), (Scalar (dec x)). cbn [ToStr FromStr u64_conv Load Emit plain]. unfold load, emit. cbn [scalar_of].
  rewrite !Hn. by rewrite Hu.
Qed.

#[export] Instance u64_less : Less Z := Z.ltb.


End Plain.

(** The witness: a map of vectors of numbers, by the law at two levels. *)
Section Witness.
Import Plain.

#[local] Instance vector_conv : Conv (list Z) := { FromStr := vector_FromStr; ToStr := vector_ToStr }.
#[local] Instance vector_cast : Cast (list Z) (Forall valid).
Proof. intros v Hv. by apply (sequence_roundtrip valid), fold_snoc. Qed.
#[local] Instance vector_less : Less (list Z) := lexlt.

Lemma containers_roundtrip_witness :
  roundtrips map_ToStr map_FromStr [([97], [1; 20]); ([98], [])]
  /\ roundtrips set_ToStr set_FromStr [[7; 1]; [7; 300]].
Proof.
  destruct (containers_roundtrip (T := list Z) (Forall valid)) as (_ & _ & Hset & Hmap). split.
  - apply Hmap; [|by repeat constructor]. repeat constructor; cbn; lia.
  - apply Hset; [|by repeat constructor]. repeat constructor; cbn; lia.
Defined.
End Witness.
