(* ===== verification/Config.v ===== *)
(** * The configuration registry ([src/src/config.cc], [include/sylar/config.hh])

    Variables of different types live behind one base class.  A type is a code
    [t : Ty] with the Rocq type [den t] of its values, its [Conv] and its
    [operator==]; a variable is a pair of a code and a [ConfigVar (den t)], and
    [dynamic_pointer_cast] compares codes.  Variables are shared objects: the
    registry maps names to their addresses.  A listener acts on a world [W]. *)
From Stdlib Require Import String.
From stdpp Require Import sorting.
From S2P Require Import Prelude CString ConfigCast.
#[local] Open Scope string_scope.
#[local] Open Scope list_scope.
#[local] Open Scope Z_scope.

(** ** One variable *)

(** [src/include/sylar/config.hh:470-476 ConfigVar]
    With the members of [ConfigVarBase] (lines 83 to 85). *)
Record ConfigVar (W T : Type) := mkVar {
  m_name : bytes; m_description : bytes; m_val : T; m_cbs : list (Z * (T -> T -> W -> W))
}.
Arguments mkVar {W T}. Arguments m_name {W T}. Arguments m_description {W T}.
Arguments m_val {W T}. Arguments m_cbs {W T}.

Section Var.
Context {W T : Type} `{!EqDecision T} `{!Conv T}.
Implicit Types v : ConfigVar W T.

Definition set_val (x : T) v : ConfigVar W T := mkVar (m_name v) (m_description v) x (m_cbs v).
Definition set_cbs (c : list (Z * (T -> T -> W -> W))) v : ConfigVar W T :=
  mkVar (m_name v) (m_description v) (m_val v) c.

(** [src/include/sylar/config.hh:376-379 ConfigVar::ConfigVar]
    With [ConfigVarBase::ConfigVarBase] (lines 45 to 51), which folds the name
    to lower case. *)
Definition ConfigVar_new (name : bytes) (default_value : T) (description : bytes) : ConfigVar W T :=
  mkVar (map tolower name) description default_value [].

(** [src/include/sylar/config.hh:385-398 ConfigVar::toString] *)
Definition toString v : bytes := default [] (ToStr (m_val v)).

(** [src/include/sylar/config.hh:424-438 ConfigVar::setValue]
    The listeners run before the value changes. *)
Definition setValue (x : T) v (w : W) : ConfigVar W T * W :=
  if decide (x = m_val v) then (v, w)
  else (set_val x v, fold_left (fun w cb => cb.2 (m_val v) x w) (m_cbs v) w).

(** [src/include/sylar/config.hh:405-416 ConfigVar::fromString] *)
Definition fromString (val : bytes) v (w : W) : bool * ConfigVar W T * W :=
  match FromStr val with
  | Some x => let '(v, w) := setValue x v w in (true, v, w)
  | None => (false, v, w)
  end.

(** [m_cbs[id] = cb], the map being ordered by its keys. *)
Fixpoint cbs_set (id : Z) (cb : T -> T -> W -> W) (l : list (Z * (T -> T -> W -> W))) :=
  match l with
  | [] => [(id, cb)]
  | (i, c) :: l' => if i <? id then (i, c) :: cbs_set id cb l' else if id <? i then (id, cb) :: l else (id, cb) :: l'
  end.

(** [src/include/sylar/config.hh:442-449 ConfigVar::addListener]
    [s_fun_id] is the counter of the type. *)
Definition addListener (cb : T -> T -> W -> W) (s_fun_id : Z) v : Z * Z * ConfigVar W T :=
  let s_fun_id := u64 (s_fun_id + 1) in
  (s_fun_id, s_fun_id, set_cbs (cbs_set s_fun_id cb (m_cbs v)) v).

(** [src/include/sylar/config.hh:451-455 ConfigVar::delListener] *)
Definition delListener (key : Z) v : ConfigVar W T := set_cbs (filter (fun c => c.1 <> key) (m_cbs v)) v.

(** [src/include/sylar/config.hh:457-461 ConfigVar::clearListener] *)
Definition clearListener v : ConfigVar W T := set_cbs [] v.

(** [src/include/sylar/config.hh:463-468 ConfigVar::getListener] *)
Definition getListener (key : Z) v : option (T -> T -> W -> W) :=
  option_map snd (find (fun c => c.1 =? key) (m_cbs v)).
End Var.

(** ** The walk over a YAML tree *)

(** A byte that [boost::regex("[^a-zA-Z0-9._]")] does not match. *)
Definition name_byte (c : Z) : bool :=
  ((97 <=? c) && (c <=? 122)) || ((65 <=? c) && (c <=? 90)) || ((48 <=? c) && (c <=? 57)) || (c =? 46) || (c =? 95).
Definition invalid_name (s : bytes) : bool := negb (forallb name_byte s).

Definition join (prefix key : bytes) : bytes := match prefix with [] => key | _ => prefix ++ [46] ++ key end.

(** [src/src/config.cc:26-49 ListAllMember]
    The pairs added to [output]. *)
Fixpoint ListAllMember (prefix : bytes) (node : Node) : list (bytes * Node) :=
  if invalid_name prefix then [] else
  (prefix, node)
  :: match node with
     | Map l => concat (map (fun it => ListAllMember (join prefix (scalar_of it.1)) it.2) l)
     | _ => []
     end.

(** ** The registry *)

Section Registry.
Context `{YamlCpp} {W Ty : Type} `{!EqDecision Ty} (den : Ty -> Type).
Context {den_eq : forall t, EqDecision (den t)} {den_conv : forall t, Conv (den t)}.

(** A [ConfigVarBase] object. *)
Record AnyVar := anyvar { av_type : Ty; av_var : ConfigVar W (den av_type) }.

(** The variables in memory, [GetDatas()] and the world of the listeners. *)
Record Config := mkConfig { vars : list AnyVar; s_datas : gmap bytes nat; world : W }.

Definition set_vars (l : list AnyVar) (c : Config) : Config := mkConfig l (s_datas c) (world c).

(** [dynamic_pointer_cast<ConfigVar<T>>] of the object at [a]: the same pointer
    or null. *)
Definition dyn_cast (t : Ty) (a : nat) (c : Config) : option nat :=
  match vars c !! a with Some v => if decide (av_type v = t) then Some a else None | None => None end.

(** [src/include/sylar/config.hh:492-540 Config::Lookup] *)
Definition Lookup (t : Ty) (name : bytes) (default_value : den t) (description : bytes) : M Config (option nat) :=
  c ← get;
  match s_datas c !! name with
  | Some a => mret (dyn_cast t a c)
  | None =>
      if invalid_name name then fail (Throw invalid_argument) else
      let a := length (vars c) in
      put (mkConfig (vars c ++ [anyvar t (ConfigVar_new name default_value description)])
             (<[name := a]> (s_datas c)) (world c));;
      mret (Some a)
  end.

(** [src/include/sylar/config.hh:542-552 Config::Lookup] *)
Definition Lookup_existing (t : Ty) (name : bytes) (c : Config) : option nat :=
  match s_datas c !! name with Some a => dyn_cast t a c | None => None end.

(** [src/src/config.cc:12-17 Config::LookupBase] *)
Definition LookupBase (name : bytes) (c : Config) : option nat := s_datas c !! name.

(** [var->fromString(val)] on the object at [a]. *)
Definition fromString_at (a : nat) (val : bytes) (c : Config) : Config :=
  match vars c !! a with
  | Some (anyvar t v) =>
      let '(_, v, w) := fromString val v (world c) in
      mkConfig (<[a := anyvar t v]> (vars c)) (s_datas c) w
  | None => c
  end.

(** The text of a node for [fromString]. *)
Definition node_text (n : Node) : bytes := match n with Scalar s => s | _ => Emit n end.

(** [src/src/config.cc:58-80 Config::LoadFromYaml]
    One entry of the list. *)
Definition load_entry (c : Config) (i : bytes * Node) : Config :=
  match i.1 with
  | [] => c
  | _ =>
      let key := map tolower i.1 in
      match LookupBase key c with
      | Some var => fromString_at var (node_text i.2) c
      | None => c
      end
  end.

(** [src/src/config.cc:51-81 Config::LoadFromYaml] *)
Definition LoadFromYaml (root : Node) (c : Config) : Config :=
  fold_left load_entry (ListAllMember [] root) c.

(** [src/src/config.cc:95-119 Config::LoadFromConfDir]
    One file, with its modification time and what [YAML::LoadFile] returns, nothing
    if it throws; [S_FileModifyTime] is the state besides the registry. *)
Definition load_file (s : gmap bytes Z * Config) (f : bytes * Z * option Node) : gmap bytes Z * Config :=
  let '(times, c) := s in
  let '(i, st_mtime, root) := f in
  if default 0 (times !! i) =? u64 st_mtime then (<[i := default 0 (times !! i)]> times, c) else
  (<[i := u64 st_mtime]> times, match root with Some root => LoadFromYaml root c | None => c end).

(** [src/src/config.cc:86-120 Config::LoadFromConfDir]
    [files] is what [ListAllFile] lists, in its order. *)
Definition LoadFromConfDir (files : list (bytes * Z * option Node)) (times : gmap bytes Z) (c : Config) :
    gmap bytes Z * Config :=
  fold_left load_file files (times, c).
End Registry.

(** ** What is listed *)

(** The node a path of keys leads to, with all prefixes valid names. *)
Inductive member : bytes -> Node -> bytes -> Node -> Prop :=
| member_here p n : invalid_name p = false -> member p n p n
| member_below p l k x q n : invalid_name p = false -> (k, x) ∈ l -> member (join p (scalar_of k)) x q n ->
    member p (Map l) q n.

Fixpoint node_size (n : Node) : nat :=
  match n with
  | Map l => S (list_sum (map (fun it => node_size it.2) l))
  | _ => 1
  end.

Lemma node_size_elem (k x : Node) l : (k, x) ∈ l -> (node_size x <= list_sum (map (fun it => node_size it.2) l))%nat.
Proof.
  induction l as [|[k' x'] l IH]; intros Hin; [by apply elem_of_nil in Hin|]. cbn [map].
  change (list_sum (?a :: ?m)) with (a + list_sum m)%nat.
  apply elem_of_cons in Hin as [[= -> ->]|Hin]; cbn [snd]; [|apply IH in Hin]; lia.
Qed.

Lemma ListAllMember_sound k : forall p n q m, (node_size n <= k)%nat -> (q, m) ∈ ListAllMember p n -> member p n q m.
Proof.
  induction k as [|k IH]; intros p n q m Hk Hin; [destruct n; cbn in Hk; lia|].
  destruct n as [|s|l|l]; cbn [ListAllMember] in Hin; destruct (invalid_name p) eqn:Hp;
    try (by apply elem_of_nil in Hin); apply elem_of_cons in Hin as [[= -> ->]|Hin];
    try (by apply member_here); try (by apply elem_of_nil in Hin).
  apply list_elem_of_In, in_concat in Hin as (r & Hr & Hin). apply in_map_iff in Hr as ([key x] & <- & Hx).
  apply list_elem_of_In in Hx, Hin. cbn [fst snd] in Hin. cbn [node_size] in Hk.
  pose proof (node_size_elem key x l Hx). eapply member_below; [done..|]. apply IH; [lia|done].
Qed.

Lemma ListAllMember_spec p n q m : (q, m) ∈ ListAllMember p n <-> member p n q m.
Proof.
  split; [by apply (ListAllMember_sound (node_size n))|].
  induction 1 as [p n Hp|p l key x q n Hp Hx _ IH].
  - destruct n; cbn [ListAllMember]; rewrite Hp; by left.
  - cbn [ListAllMember]. rewrite Hp. right. apply list_elem_of_In, in_concat.
    exists (ListAllMember (join p (scalar_of key)) x). split; [|by apply list_elem_of_In].
    apply in_map_iff. exists (key, x). split; [done|by apply list_elem_of_In].
Qed.

(** ** What loading does *)

Section Load.
Context `{YamlCpp} {W Ty : Type} `{!EqDecision Ty} (den : Ty -> Type).
Context {den_eq : forall t, EqDecision (den t)} {den_conv : forall t, Conv (den t)}.
Notation Config := (Config (W := W) den).
Implicit Types c : Config.

(** Names lead to different objects that exist. *)
Definition reg_ok (c : Config) : Prop :=
  (forall n a, s_datas den c !! n = Some a -> (a < length (vars den c))%nat)
  /\ (forall n n' a, s_datas den c !! n = Some a -> s_datas den c !! n' = Some a -> n = n').

(** The values a list of entries has for the variable [n] of type [t], in their
    order: those whose path is [n] up to case and whose text converts. *)
Definition updates (t : Ty) (n : bytes) (l : list (bytes * Node)) : list (den t) :=
  omap (fun i => match i.1 with
                 | [] => None
                 | _ => if decide (map tolower i.1 = n) then FromStr (node_text i.2) else None
                 end) l.

Definition last_or {A} (x : A) (l : list A) : A := fold_left (fun _ y => y) l x.

Lemma fromString_at_spec c a t v val : vars den c !! a = Some (anyvar den t v) ->
  exists v', vars den (fromString_at den a val c) = <[a := anyvar den t v']> (vars den c)
  /\ s_datas den (fromString_at den a val c) = s_datas den c
  /\ m_val v' = default (m_val v) (FromStr val) /\ m_cbs v' = m_cbs v /\ m_name v' = m_name v.
Proof.
  intros Ha. unfold fromString_at. rewrite Ha. unfold fromString, setValue.
  destruct (FromStr val) as [x|]; [|by exists v]. destruct (decide (x = m_val v)) as [->|]; by eexists.
Qed.

(** The same object, with perhaps another value. *)
Lemma load_entry_spec c i n a t v : reg_ok c -> s_datas den c !! n = Some a -> vars den c !! a = Some (anyvar den t v) ->
  reg_ok (load_entry den c i) /\ s_datas den (load_entry den c i) = s_datas den c
  /\ exists v', vars den (load_entry den c i) !! a = Some (anyvar den t v')
     /\ m_val v' = last_or (m_val v) (updates t n [i]) /\ m_cbs v' = m_cbs v /\ m_name v' = m_name v.
Proof.
  intros Hok Hn Ha. destruct Hok as [Hr Hinj]. unfold load_entry, updates. cbn [omap list_omap].
  destruct i as [[|b q] m]; cbn [fst snd].
  { split_and!; [by split|done|]. by exists v. }
  unfold LookupBase. destruct (s_datas den c !! map tolower (b :: q)) as [a'|] eqn:E.
  - destruct (decide (a' = a)) as [->|Hne].
    + assert (map tolower (b :: q) = n) as -> by (by eapply Hinj).
      destruct (fromString_at_spec c a t v (node_text m) Ha) as (v2 & Hvars & Hd & Hval & Hcbs & Hname).
      split_and!; [split; rewrite ?Hvars, Hd, ?length_insert; done|done|]. exists v2.
      rewrite Hvars, list_lookup_insert_eq by (by eapply lookup_lt_Some). split_and!; [done| |done..].
      rewrite decide_True by done. rewrite Hval. by destruct (FromStr _).
    + destruct (lookup_lt_is_Some_2 (vars den c) a') as [[t' v'] Ha']; [by eapply Hr|].
      destruct (fromString_at_spec c a' t' v' (node_text m) Ha') as (v2 & Hvars & Hd & _).
      split_and!; [split; rewrite ?Hvars, Hd, ?length_insert; done|done|]. exists v.
      rewrite Hvars, list_lookup_insert_ne by done. split_and!; [done| |done..].
      rewrite decide_False by (intros <-; congruence). done.
  - split_and!; [by split|done|]. exists v. split_and!; [done| |done..].
    rewrite decide_False by (intros <-; congruence). done.
Qed.

Lemma load_entries_spec l : forall c n a t v, reg_ok c -> s_datas den c !! n = Some a ->
  vars den c !! a = Some (anyvar den t v) ->
  let c' := fold_left (load_entry den) l c in
  reg_ok c' /\ s_datas den c' = s_datas den c
  /\ exists v', vars den c' !! a = Some (anyvar den t v')
     /\ m_val v' = last_or (m_val v) (updates t n l) /\ m_cbs v' = m_cbs v /\ m_name v' = m_name v.
Proof.
  induction l as [|i l IH]; intros c n a t v Hok Hn Ha; cbn [fold_left].
  { split_and!; [done|done|]. by exists v. }
  destruct (load_entry_spec c i n a t v Hok Hn Ha) as (Hok1 & Hd1 & v1 & Ha1 & Hv1 & Hc1 & Hn1).
  destruct (IH (load_entry den c i) n a t v1 Hok1) as (Hok2 & Hd2 & v2 & Ha2 & Hv2 & Hc2 & Hn2); [by rewrite Hd1|done|].
  split_and!; [done|congruence|]. exists v2. split_and!; [done| |congruence..].
  rewrite Hv2, Hv1. unfold updates, last_or. cbn [omap list_omap]. by destruct (match i.1 with [] => _ | _ => _ end).
Qed.


(** A variable registered under a name with a capital letter is never loaded. *)
Lemma uppercase_never_loaded root c n a t v :
  reg_ok c -> s_datas den c !! n = Some a -> vars den c !! a = Some (anyvar den t v) -> map tolower n <> n ->
  exists v', vars den (LoadFromYaml den root c) !! a = Some (anyvar den t v') /\ m_val v' = m_val v.
Proof.
  intros Hok Hn Ha Hup. destruct (load_entries_spec (ListAllMember [] root) c n a t v Hok Hn Ha) as (_ & _ & v' & H1 & H2 & _).
  exists v'. split; [done|]. rewrite H2. unfold updates.
  replace (omap _ _) with (@nil (den t)); [done|]. generalize (ListAllMember [] root). clear -Hup.
  induction l as [|[[|b q] m] l IH]; [done|by cbn|]. cbn [omap list_omap fst]. rewrite decide_False; [done|].
  intros E. apply Hup. rewrite <-E, map_map. apply map_ext. intros x. unfold tolower.
  destruct ((65 <=? x) && (x <=? 90)) eqn:Ex; [|by rewrite Ex].
  apply andb_true_iff in Ex as [E1 E2]. apply Z.leb_le in E1, E2.
  by rewrite (proj2 (Z.leb_gt (x + 32) 90)), andb_false_r by lia.
Qed.

(** Registration: a new valid name gets a fresh variable with the default value;
    a name that is there gets its variable if the type agrees and null if not;
    an invalid new name throws.  The invariant is kept. *)
Lemma Lookup_spec t n d desc c : reg_ok c ->
  match s_datas den c !! n with
  | Some a => Lookup den t n d desc c = (Ok (dyn_cast den t a c), c)
  | None =>
      if invalid_name n then Lookup den t n d desc c = (Err (Throw invalid_argument), c)
      else exists a c', Lookup den t n d desc c = (Ok (Some a), c') /\ reg_ok c'
        /\ s_datas den c' = <[n := a]> (s_datas den c)
        /\ vars den c' = vars den c ++ [anyvar den t (ConfigVar_new n d desc)]
        /\ Lookup_existing den t n c' = Some a
  end.
Proof.
  intros [Hr Hinj]. unfold Lookup. mstep. destruct (s_datas den c !! n) as [a|] eqn:E; [done|].
  destruct (invalid_name n); [done|]. do 2 eexists. split; [done|]. cbn [s_datas vars]. split_and!; [split| | |].
  - intros n' a Hn'. cbn [s_datas vars] in *. rewrite length_app. cbn.
    destruct (decide (n' = n)) as [->|Hne]; [rewrite lookup_insert_eq in Hn'; injection Hn' as <-; lia|].
    rewrite lookup_insert_ne in Hn' by done. apply Hr in Hn'. lia.
  - intros n1 n2 a H1 H2. cbn [s_datas] in *.
    destruct (decide (n1 = n)) as [->|Hne1].
    + rewrite lookup_insert_eq in H1. injection H1 as <-. destruct (decide (n2 = n)) as [->|Hne2]; [done|].
      rewrite lookup_insert_ne in H2 by done. apply Hr in H2. lia.
    + rewrite lookup_insert_ne in H1 by done. destruct (decide (n2 = n)) as [->|Hne2].
      * rewrite lookup_insert_eq in H2. injection H2 as <-. apply Hr in H1. lia.
      * rewrite lookup_insert_ne in H2 by done. by eapply Hinj.
  - done.
  - done.
  - unfold Lookup_existing, dyn_cast. cbn [s_datas vars]. rewrite lookup_insert_eq, list_lookup_middle by done.
    cbn [av_type]. by rewrite decide_True.
Qed.

(** Loading a directory again with nothing modified changes nothing. *)
Lemma LoadFromConfDir_again files times (c : Config) :
  (forall f, f ∈ files -> times !! f.1.1 = Some (u64 f.1.2)) ->
  LoadFromConfDir den files times c = (times, c).
Proof.
  intros Ht. unfold LoadFromConfDir. induction files as [|[[i mt] root] files IH]; [done|]. cbn [fold_left].
  specialize (Ht ((i, mt), root)) as Hi. cbn [fst snd] in Hi. unfold load_file at 2.
  rewrite Hi by (by left). cbn [default]. rewrite Z.eqb_refl, insert_id by (apply Hi; by left).
  apply IH. intros f Hf. apply Ht. by right.
Qed.
End Load.

(** ** Listeners *)

(** Setting a value tells every listener, in the order of registration, the old
    and the new value, but only when they differ. *)
Lemma setValue_notifies {T} `{!EqDecision T} (v : ConfigVar (list (Z * T * T)) T) x w :
  (forall i cb, (i, cb) ∈ m_cbs v -> cb = fun o n w => w ++ [(i, o, n)]) ->
  setValue x v w = (if decide (x = m_val v) then v else set_val x v,
                    if decide (x = m_val v) then w else w ++ map (fun cb => (cb.1, m_val v, x)) (m_cbs v)).
Proof.
  intros Hcb. unfold setValue. destruct (decide (x = m_val v)); [done|]. f_equal.
  revert w Hcb. generalize (m_cbs v) as cbs.
  induction cbs as [|[i cb] cbs IH]; intros w Hcb; cbn [fold_left map fst snd]; [by rewrite app_nil_r|].
  rewrite IH by (intros j cb' Hin; apply Hcb; by right).
  rewrite (Hcb i cb) by (by left). by rewrite <-app_assoc.
Qed.

(** ** A registry of numbers *)

Import Plain.

Definition demo_den (t : unit) : Type := Z.
#[local] Instance demo_eq t : EqDecision (demo_den t) := Z.eq_dec.
#[local] Instance demo_conv t : Conv (demo_den t) := u64_conv.

Definition demo_config : Config (W := unit) demo_den :=
  mkConfig demo_den [anyvar demo_den tt (ConfigVar_new (str "tcp.port") 8080 [])] {[ str "tcp.port" := 0%nat ]} tt.

Definition demo_yaml : Node := Map [(Scalar (str "tcp"), Map [(Scalar (str "Port"), Scalar (str "80"))])].

