(* ===== verification/ConfigUnordered.v ===== *)
(** * Unordered containers of the configuration ([include/sylar/config.hh])

    [std::unordered_set] and [std::unordered_map] as finite sets and maps.  The order
    in which they are iterated is the standard library's: the class [Iteration]
    with the law that every element comes once.  The conversions round-trip in
    whatever order, and [Config::Visit] visits every variable once. *)
From stdpp Require Import gmap fin_sets.
From S2P Require Import Prelude CString ConfigCast Config.

(** The order of iteration. *)
Class Iteration (T : Type) `{Countable T} := {
  iter_set : gset T -> list T;
  iter_set_perm s : iter_set s ≡ₚ elements s;
  iter_map {B} : gmap T B -> list (T * B);
  iter_map_perm {B} (m : gmap T B) : iter_map m ≡ₚ map_to_list m
}.

Section Unordered.
Context `{YamlCpp} {T : Type} `{Countable T} `{Conv T} `{!Iteration T} `{!Iteration bytes}.

(** [src/include/sylar/config.hh:240-256 LexicalCast<std::string, std::unordered_set<T>>] *)
Definition unordered_set_FromStr (v : bytes) : option (gset T) :=
  node ← Load v; from_nodes (fun s x => {[x]} ∪ s) node 0 (size node) ∅.

(** [src/include/sylar/config.hh:262-275 LexicalCast<std::unordered_set<T>, std::string>] *)
Definition unordered_set_ToStr (v : gset T) : option bytes := node ← vector_node (iter_set v) Null; Some (Emit node).

(** [src/include/sylar/config.hh:334-339 LexicalCast<std::string, std::unordered_map<std::string, T>>]
    An entry whose key is there stays. *)
Fixpoint insert_entries (l : list (Node * Node)) (vec : gmap bytes T) : option (gmap bytes T) :=
  match l with
  | [] => Some vec
  | (k, n) :: l =>
      x ← FromStr (Emit n);
      insert_entries l (match vec !! scalar_of k with Some _ => vec | None => <[scalar_of k := x]> vec end)
  end.

(** [src/include/sylar/config.hh:325-342 LexicalCast<std::string, std::unordered_map<std::string, T>>] *)
Definition unordered_map_FromStr (v : bytes) : option (gmap bytes T) :=
  node ← Load v; l ← entries node; insert_entries l ∅.

(** [src/include/sylar/config.hh:348-362 LexicalCast<std::unordered_map<std::string, T>, std::string>] *)
Definition unordered_map_ToStr (v : gmap bytes T) : option bytes := node ← map_node (iter_map v) Null; Some (Emit node).

Context `{!YamlLaws} (valid : T -> Prop) `{!Cast T valid}.

Lemma fold_insert_set (l : list T) : forall acc : gset T,
  fold_left (fun s x => {[x]} ∪ s) l acc = list_to_set l ∪ acc.
Proof. induction l as [|x l IH]; intros acc; cbn; [set_solver|]. rewrite IH. set_solver. Qed.

Lemma unordered_set_roundtrip (v : gset T) : set_Forall valid v ->
  roundtrips unordered_set_ToStr unordered_set_FromStr v.
Proof.
  intros Hv. assert (Forall valid (iter_set v)) as Hl.
  { apply Forall_forall. intros x Hx. rewrite iter_set_perm in Hx. by apply Hv, elem_of_elements. }
  destruct (elements_nodes valid (iter_set v) Hl) as [ns Hns].
  assert (from_nodes (fun s x => {[x]} ∪ s) (seq_of ns) 0 (size (seq_of ns)) (∅ : gset T) = Some v) as Hfrom.
  { rewrite size_seq_of. rewrite (from_nodes_spec _ (iter_set v) ns Hns [] ∅ : from_nodes _ (seq_of ns) 0 _ _ = _).
    f_equal. rewrite fold_insert_set. apply set_eq. intros x. rewrite elem_of_union, elem_of_list_to_set, iter_set_perm.
    rewrite elem_of_elements. set_solver. }
  exists (Emit (seq_of ns)), (seq_of ns). unfold unordered_set_ToStr, unordered_set_FromStr. rewrite load_emit. cbn.
  rewrite (vector_node_spec (iter_set v) ns Hns [] : vector_node _ Null = _). done.
Qed.

Lemma insert_entries_spec (v : list (bytes * T)) ns : Forall2 entry_node v ns ->
  forall acc, NoDup v.*1 -> Forall (fun kv => acc !! kv.1 = None) v ->
  insert_entries ns acc = Some (list_to_map v ∪ acc).
Proof.
  induction 1 as [|[k x] [k' n] v ns [Hk [_ Hx]] _ IH]; intros acc Hnd Hnew; cbn [insert_entries fmap list_fmap list_to_map foldr].
  { f_equal. symmetry. apply (left_id_L ∅ (∪)). }
  cbn [fst snd] in *. subst k'. apply Forall_cons in Hnew as [Hn Hnew]. cbn [fst] in Hn. apply NoDup_cons in Hnd as [Hk Hnd].
  rewrite Hx. cbn [mbind option_bind scalar_of]. rewrite Hn, IH; [|done|].
  - f_equal. rewrite <-insert_union_r, <-insert_union_l; [done|]. by apply not_elem_of_list_to_map_1.
  - apply Forall_forall. intros [k2 y] Hin. rewrite Forall_forall in Hnew. cbn. rewrite lookup_insert_ne; [by apply (Hnew (k2, y))|].
    intros ->. apply Hk. apply list_elem_of_fmap. by exists (k2, y).
Qed.

Lemma unordered_map_roundtrip (v : gmap bytes T) : map_Forall (fun _ x => valid x) v ->
  roundtrips unordered_map_ToStr unordered_map_FromStr v.
Proof.
  intros Hv. assert (Forall (fun kv => valid kv.2) (iter_map v)) as Hl.
  { apply Forall_forall. intros [k x] Hx. rewrite iter_map_perm in Hx. by apply (Hv k), elem_of_map_to_list. }
  assert (NoDup (iter_map v).*1) as Hnd by (rewrite iter_map_perm; apply NoDup_fst_map_to_list).
  destruct (entries_nodes valid (iter_map v) Hl) as [ns Hns].
  assert (entries (map_of ns) = Some ns) as He by (destruct ns; [apply entries_null|apply entries_map]).
  assert (insert_entries ns ∅ = Some v) as Hfrom.
  { rewrite (insert_entries_spec (iter_map v) ns Hns ∅ Hnd); [|apply Forall_forall; intros kv _; apply lookup_empty].
    f_equal. rewrite (right_id_L ∅ (∪)). rewrite (list_to_map_proper _ (map_to_list v)); [apply list_to_map_to_list|done|].
    apply iter_map_perm. }
  exists (Emit (map_of ns)), (map_of ns). unfold unordered_map_ToStr, unordered_map_FromStr. rewrite load_emit. cbn.
  rewrite He. cbn. rewrite (map_node_spec (iter_map v) ns Hns [] Hnd : map_node (iter_map v) Null = _). done.
Qed.
End Unordered.

(** ** Visiting the registry *)

Section Visit.
Context {W Ty : Type} `{!EqDecision Ty} (den : Ty -> Type) `{!Iteration bytes} {V : Type}.

(** [src/src/config.cc:123-131 Config::Visit]
    [cb] acts on the visitor's state with each variable, by its address. *)
Definition Visit (cb : nat -> V -> V) (c : Config (W := W) den) (v : V) : V :=
  fold_left (fun v it => cb it.2 v) (iter_map (s_datas den c)) v.
End Visit.

(** Every registered variable is visited, and once. *)
Lemma Visit_once {W Ty : Type} `{!EqDecision Ty} (den : Ty -> Type) `{!Iteration bytes} (c : Config (W := W) den) :
  reg_ok den c ->
  let visited := Visit den (fun a l => a :: l) c [] in
  NoDup visited /\ forall a, a ∈ visited <-> exists n, s_datas den c !! n = Some a.
Proof.
  intros [_ Hinj]. unfold Visit.
  assert (forall l acc, fold_left (fun (v : list nat) (it : bytes * nat) => it.2 :: v) l acc ≡ₚ l.*2 ++ acc) as Hfold.
  { induction l as [|it l IH]; intros acc; cbn; [done|]. rewrite IH. by rewrite Permutation_middle. }
  cbv zeta. rewrite Hfold, app_nil_r. split.
  - rewrite iter_map_perm. apply NoDup_fmap_2_strong; [|apply NoDup_map_to_list].
    intros [n a] [n' a'] Hn Hn' E. cbn in E. subst a'. apply elem_of_map_to_list in Hn, Hn'. f_equal. by eapply Hinj.
  - intros a. rewrite Hfold, app_nil_r, iter_map_perm, list_elem_of_fmap. split.
    + intros ([n b] & -> & Hin%elem_of_map_to_list). by exists n.
    + intros [n Hn]. exists (n, a). split; [done|]. by apply elem_of_map_to_list.
Qed.
