(* ===== verification/Settings.v ===== *)
(** * The settings of the system and the copies the code keeps of them

    Several files register variables in the configuration and keep a plain static
    copy that a listener updates ([hook.cc], [http_parser.cc]); others read the
    variable when they need it ([fiber.cc], [tcp_server.cc], [daemon.cc]).  The
    statics are the world on which listeners act.  The theorem: whatever is loaded,
    each static is the value of its variable. *)
From Stdlib Require Import String.
From stdpp Require Import finite.
From S2P Require Import Prelude CString ConfigCast Config.
#[local] Open Scope string_scope.
#[local] Open Scope list_scope.
#[local] Open Scope Z_scope.

(** The types of the numeric variables. *)
Inductive ty := T_int | T_uint32 | T_uint64.
#[export] Instance ty_eq_dec : EqDecision ty.
Proof. solve_decision. Defined.

Definition num (t : ty) : Type := Z.
#[export] Instance num_eq_dec t : EqDecision (num t) := Z.eq_dec.

(** [src/src/http_parser.cc:23-39 s_http_request_buffer_size]
    The statics of [http_parser.cc] and, from [hook.cc] line 63,
    [s_connect_timeout]. *)
Record Statics := mkStatics {
  s_connect_timeout : Z;
  s_http_request_buffer_size : Z;
  s_http_request_max_body_size : Z;
  s_http_response_buffer_size : Z;
  s_http_response_max_body_size : Z
}.

(** The values before any initialiser runs. *)
Definition statics0 : Statics := mkStatics (u64 (-1)) 0 0 0 0.

(** The variables that have a static. *)
Inductive setting := connect_timeout | request_buffer | request_body | response_buffer | response_body.
#[export] Instance setting_eq_dec : EqDecision setting.
Proof. solve_decision. Defined.

#[export] Program Instance setting_finite : Finite setting :=
  {| enum := [connect_timeout; request_buffer; request_body; response_buffer; response_body] |}.
Next Obligation. by apply (bool_decide_unpack _). Qed.
Next Obligation. intros []; by apply (bool_decide_unpack _). Qed.

Definition static_of (k : setting) (s : Statics) : Z :=
  match k with
  | connect_timeout => s_connect_timeout s
  | request_buffer => s_http_request_buffer_size s
  | request_body => s_http_request_max_body_size s
  | response_buffer => s_http_response_buffer_size s
  | response_body => s_http_response_max_body_size s
  end.

Definition set_static (k : setting) (x : Z) (s : Statics) : Statics :=
  let '(mkStatics a b c d e) := s in
  match k with
  | connect_timeout => mkStatics x b c d e
  | request_buffer => mkStatics a x c d e
  | request_body => mkStatics a b x d e
  | response_buffer => mkStatics a b c x e
  | response_body => mkStatics a b c d x
  end.

(** The static is an [uint64_t]; the connect timeout comes from an [int]. *)
Definition copied (k : setting) (x : Z) : Z := match k with connect_timeout => u64 x | _ => x end.

Section Settings.
Context `{YamlCpp} {conv : forall t, Conv (num t)}.
Notation Cfg := (Config (W := Statics) num).
Notation Var := (ConfigVar Statics Z).

(** The registry with the listener counters, one for each type. *)
Record Process := mkProcess { conf : Cfg; s_fun_id : ty -> Z }.

(** Before [main]: an empty registry. *)
Definition process0 : Process := mkProcess (mkConfig num [] ∅ statics0) (fun _ => 0).

Definition set_conf (c : Cfg) (p : Process) : Process := mkProcess c (s_fun_id p).
Definition set_world (w : Statics) (p : Process) : Process :=
  set_conf (mkConfig num (vars num (conf p)) (s_datas num (conf p)) w) p.

(** [Config::Lookup(name, default_value, description)] in the process. *)
Definition lookup_var (t : ty) (name : bytes) (d : Z) (desc : bytes) : M Process (option nat) := fun p =>
  let '(r, c) := Lookup num t name d desc (conf p) in (r, set_conf c p).

(** The variable behind a pointer; a null pointer is followed. *)
Definition var_at (a : option nat) : M Process (nat * AnyVar (W := Statics) num) := fun p =>
  match a with
  | None => (Err (Undef null_deref), p)
  | Some a => match vars num (conf p) !! a with
              | Some v => (Ok (a, v), p)
              | None => (Err (Undef use_after_free), p)
              end
  end.

(** [src/include/sylar/config.hh:418-422 ConfigVar::getValue] *)
Definition getValue (a : option nat) : M Process Z :=
  '(_, v) ← var_at a; mret (m_val (av_var num v) : Z).

(** [addListener] through a pointer, with the counter of the variable's type. *)
Definition add_listener (a : option nat) (cb : Z -> Z -> Statics -> Statics) : M Process unit :=
  '(a, v) ← var_at a;
  p ← get;
  let t := av_type num v in
  let '(_, n, v') := addListener cb (s_fun_id p t) (av_var num v : Var) in
  put (mkProcess (set_vars num (<[a := anyvar num t v']> (vars num (conf p))) (conf p))
         (fun t' => if decide (t' = t) then n else s_fun_id p t')).

(** [s = g->getValue()] and the listener of the setting. *)
Definition copy_now (k : setting) (a : option nat) : M Process unit :=
  x ← getValue a; modify (fun p => set_world (set_static k (copied k x) (world num (conf p))) p).
Definition listener (k : setting) : Z -> Z -> Statics -> Statics := fun _ nv => set_static k (copied k nv).

(** [src/src/hook.cc:63-81 _HookIniter::_HookIniter] *)
Definition HookIniter (g_tcp_connect_timeout : option nat) : M Process unit :=
  copy_now connect_timeout g_tcp_connect_timeout;;
  add_listener g_tcp_connect_timeout (listener connect_timeout).

(** [src/src/http_parser.cc:41-71 _RequestSizeIniter::_RequestSizeIniter] *)
Definition RequestSizeIniter (g_request_buffer g_request_body g_response_buffer g_response_body : option nat)
    : M Process unit :=
  copy_now request_buffer g_request_buffer;;
  copy_now request_body g_request_body;;
  copy_now response_buffer g_response_buffer;;
  copy_now response_body g_response_body;;
  add_listener g_request_buffer (listener request_buffer);;
  add_listener g_request_body (listener request_body);;
  add_listener g_response_buffer (listener response_buffer);;
  add_listener g_response_body (listener response_body).

(** [src/src/hook.cc:21-22 g_tcp_connect_timeout] *)
Definition hook_settings : M Process unit :=
  g ← lookup_var T_int (str "tcp.connect.timeout") 5000 (str "tcp connect timeout");
  HookIniter g.

(** [src/src/http_parser.cc:12-36 g_http_request_buffer_size] *)
Definition http_settings : M Process unit :=
  g1 ← lookup_var T_uint64 (str "http.request.buffer_size") (4 * 1024) (str "http.request.buffer_size");
  g2 ← lookup_var T_uint64 (str "http.request.max_body_size") (64 * 1024 * 1024) (str "http request max body size");
  g3 ← lookup_var T_uint64 (str "http.response.buffer_size") (4 * 1024) (str "http.response.buffer_size");
  g4 ← lookup_var T_uint64 (str "http.response.max_body_size") (64 * 1024 * 1024)
         (str "http response max body size");
  RequestSizeIniter g1 g2 g3 g4.

(** [src/src/fiber.cc:31-32 g_fiber_stack_size] *)
Definition g_fiber_stack_size : M Process (option nat) :=
  lookup_var T_uint32 (str "fiber.stack_size") (1024 * 1024) (str "fiber stack size").

(** [src/src/tcp_server.cc:7-9 g_tcp_server_read_timeout] *)
Definition g_tcp_server_read_timeout : M Process (option nat) :=
  lookup_var T_uint64 (str "tcp_server.read_timeout") (60 * 1000 * 2) (str "tcp server read timeout").

(** [src/src/daemon.cc:12-14 g_daemon_restart_interval] *)
Definition g_daemon_restart_interval : M Process (option nat) :=
  lookup_var T_uint32 (str "daemon.restart_interval") 5 (str "daemon restart interval").

(** The initialisation before [main], one translation unit after the other; the
    names differ, so that the order does not matter. *)
Definition settings_init : M Process unit :=
  hook_settings;; http_settings;;
  g_fiber_stack_size;; g_tcp_server_read_timeout;; g_daemon_restart_interval;; mret ().

(** [src/src/http_parser.cc:289-292 HttpRequestParser::GetHttpRequestBufferSize] *)
Definition GetHttpRequestBufferSize (p : Process) : Z := s_http_request_buffer_size (world num (conf p)).
(** [src/src/http_parser.cc:294-297 HttpRequestParser::GetHttpRequestMaxBodySize] *)
Definition GetHttpRequestMaxBodySize (p : Process) : Z := s_http_request_max_body_size (world num (conf p)).
(** [src/src/http_parser.cc:299-302 HttpResponseParser::GetHttpResponseBufferSize] *)
Definition GetHttpResponseBufferSize (p : Process) : Z := s_http_response_buffer_size (world num (conf p)).
(** [src/src/http_parser.cc:304-307 HttpResponseParser::GetHttpResponseMaxBodySize] *)
Definition GetHttpResponseMaxBodySize (p : Process) : Z := s_http_response_max_body_size (world num (conf p)).

(** ** What a program does with the configuration *)

Inductive config_op :=
| OpYaml (root : Node)
| OpDir (files : list (bytes * Z * option Node)) (times : gmap bytes Z)
| OpSet (name : bytes) (t : ty) (x : Z)
| OpLookup (t : ty) (name : bytes) (d : Z) (desc : bytes).

(** [setValue] on the variable that [Lookup] finds under the name, if any. *)
Definition set_named (name : bytes) (t : ty) (x : Z) (c : Cfg) : Cfg :=
  match Lookup_existing num t name c with
  | Some a =>
      match vars num c !! a with
      | Some (anyvar _ t' v) =>
          let '(v, w) := setValue (x : num t') v (world num c) in
          mkConfig num (<[a := anyvar num t' v]> (vars num c)) (s_datas num c) w
      | None => c
      end
  | None => c
  end.

Definition op_run (o : config_op) (c : Cfg) : Cfg :=
  match o with
  | OpYaml root => LoadFromYaml num root c
  | OpDir files times => (LoadFromConfDir num files times c).2
  | OpSet name t x => set_named name t x c
  | OpLookup t name d desc => (Lookup num t name d desc c).2
  end.

(** ** Each static follows its variable *)

Definition setting_name (k : setting) : bytes :=
  match k with
  | connect_timeout => str "tcp.connect.timeout"
  | request_buffer => str "http.request.buffer_size"
  | request_body => str "http.request.max_body_size"
  | response_buffer => str "http.response.buffer_size"
  | response_body => str "http.response.max_body_size"
  end.

Definition setting_type (k : setting) : ty := match k with connect_timeout => T_int | _ => T_uint64 end.

(** The value of a variable, whatever its type. *)
Abbreviation value V := (m_val (av_var num V) : Z).
Abbreviation listeners V := (m_cbs (av_var num V) : list (Z * (Z -> Z -> Statics -> Statics))).

(** The variable of a setting is registered, has the setting's listener and no
    other, and the static is its value. *)
Definition follows (c : Cfg) (k : setting) (a : nat) : Prop :=
  s_datas num c !! setting_name k = Some a
  /\ exists V i, vars num c !! a = Some V /\ av_type num V = setting_type k /\ listeners V = [(i, listener k)]
     /\ static_of k (world num c) = copied k (value V).

Record tracked (addr : setting -> nat) (c : Cfg) : Prop := {
  tr_reg : reg_ok num c;
  tr_follows k : follows c k (addr k);
  tr_others a V : vars num c !! a = Some V -> (forall k, a <> addr k) -> listeners V = []
}.

Lemma static_same k x s : static_of k (set_static k x s) = x.
Proof. by destruct k, s. Qed.

Lemma static_other k k' x s : k <> k' -> static_of k' (set_static k x s) = static_of k' s.
Proof. by destruct k, k', s. Qed.

Lemma addr_inj addr c k k' : tracked addr c -> addr k = addr k' -> k = k'.
Proof.
  intros [[_ Hinj] Hf _] E. destruct (Hf k) as [H1 _], (Hf k') as [H2 _]. rewrite <-E in H2.
  pose proof (Hinj _ _ _ H1 H2) as En. destruct k, k'; try done; vm_compute in En; discriminate En.
Qed.

(** The object at [a] with another value, its listeners told. *)
Definition assigned (a : nat) (V : AnyVar (W := Statics) num) (x : Z) (c : Cfg) : Cfg :=
  let '(v, w) := setValue (x : num (av_type num V)) (av_var num V) (world num c) in
  mkConfig num (<[a := anyvar num (av_type num V) v]> (vars num c)) (s_datas num c) w.

Lemma assigned_tracked addr a V x c : tracked addr c -> vars num c !! a = Some V -> tracked addr (assigned a V x c).
Proof.
  intros Ht Ha. pose proof Ht as [[Hr Hinj] Hf Ho]. unfold assigned, setValue.
  pose proof (lookup_lt_Some _ _ _ Ha) as Hlt.
  case_decide as E.
  - cbv beta iota. assert (anyvar num (av_type num V) (av_var num V) = V) as -> by (by destruct V). rewrite list_insert_id by done.
    destruct c. by constructor.
  - constructor.
    + split; cbn [s_datas vars]; rewrite ?length_insert; done.
    + intros k. destruct (Hf k) as (Hn & Vk & i & Hk & Hty & Hl & Hst). split; [done|].
      destruct (decide (addr k = a)) as [<-|Hak].
      * assert (Vk = V) as -> by congruence. exists (anyvar num (av_type num V) (set_val x (av_var num V))), i.
        cbn [vars world av_type av_var m_val m_cbs set_val]. rewrite list_lookup_insert_eq by done.
        split_and!; try done. cbn in Hl. rewrite Hl. cbn [fold_left snd]. apply static_same.
      * exists Vk, i. cbn [vars world]. rewrite list_lookup_insert_ne by done. split_and!; try done.
        destruct (decide (exists k', a = addr k')) as [[k' ->]|Hno].
        -- destruct (Hf k') as (_ & V' & i' & Hk' & _ & Hl' & _). assert (V' = V) as -> by congruence.
           rewrite Hl'. cbn [fold_left snd]. unfold listener. rewrite static_other; [done|].
           intros ->. done.
        -- rewrite (Ho a V Ha) by (intros k' ->; apply Hno; by exists k'). done.
    + intros b W Hb Hnk. cbn [vars] in Hb. destruct (decide (b = a)) as [->|Hba].
      * rewrite list_lookup_insert_eq in Hb by done. injection Hb as <-. cbn. by apply (Ho a V).
      * rewrite list_lookup_insert_ne in Hb by done. by apply (Ho b).
Qed.

Lemma fromString_at_tracked addr a val c : tracked addr c -> tracked addr (fromString_at num a val c).
Proof.
  intros Ht. unfold fromString_at. destruct (vars num c !! a) as [[t v]|] eqn:Ha; [|done].
  unfold fromString. destruct (FromStr val) as [x|].
  - pose proof (assigned_tracked addr a _ x c Ht Ha) as H'. unfold assigned in H'. cbn [av_type av_var] in H'.
    by destruct (setValue x v (world num c)).
  - assert (mkConfig num (<[a := anyvar num t v]> (vars num c)) (s_datas num c) (world num c) = c) as ->; [|done].
    rewrite list_insert_id by done. by destruct c.
Qed.

Lemma load_tracked addr root c : tracked addr c -> tracked addr (LoadFromYaml num root c).
Proof.
  unfold LoadFromYaml. generalize (ListAllMember [] root). intros l. revert c. induction l as [|i l IH]; intros c Ht; [done|].
  cbn [fold_left]. apply IH. unfold load_entry. destruct i.1; [done|].
  destruct (LookupBase _ _); [by apply fromString_at_tracked|done].
Qed.

Lemma dir_tracked addr files times c : tracked addr c -> tracked addr (LoadFromConfDir num files times c).2.
Proof.
  unfold LoadFromConfDir. revert times c. induction files as [|[[i mt] root] files IH]; intros times c Ht; [done|].
  cbn [fold_left]. unfold load_file at 2. destruct (_ =? _); [by apply IH|].
  destruct root; apply IH; [by apply load_tracked|done].
Qed.

Lemma lookup_tracked addr t n d desc c : tracked addr c -> tracked addr (Lookup num t n d desc c).2.
Proof.
  intros Ht. pose proof Ht as [Hreg Hf Ho]. pose proof (Lookup_spec num t n d desc c Hreg) as Hs.
  destruct (s_datas num c !! n) as [a|] eqn:E; [by rewrite Hs|]. unfold Lookup in *. mstep. rewrite E in *.
  destruct (invalid_name n); [done|]. cbn [snd] in *. destruct Hs as (a & c' & [= <- <-] & Hreg' & _).
  constructor; [done| |]; cbn [s_datas vars world].
  - intros k. destruct (Hf k) as (Hn & V & i & Hk & Hrest). split; cbn [s_datas vars world].
    + rewrite lookup_insert_ne; [done|]. intros ->. congruence.
    + exists V, i. split; [by apply lookup_app_l_Some|done].
  - intros b V Hb Hnk. apply lookup_app_Some in Hb as [Hb|[_ Hb]]; [by apply (Ho b)|].
    apply list_lookup_singleton_Some in Hb as [_ <-]. done.
Qed.

Lemma set_named_tracked addr n t x c : tracked addr c -> tracked addr (set_named n t x c).
Proof.
  intros Ht. unfold set_named. destruct (Lookup_existing num t n c) as [a|]; [|done].
  destruct (vars num c !! a) as [[t' v]|] eqn:Ha; [|done].
  pose proof (assigned_tracked addr a _ x c Ht Ha) as H'. unfold assigned in H'. cbn [av_type av_var] in H'.
  by destruct (setValue _ v (world num c)).
Qed.

Lemma op_tracked addr o c : tracked addr c -> tracked addr (op_run o c).
Proof.
  destruct o; cbn [op_run]; [apply load_tracked|apply dir_tracked|apply set_named_tracked|apply lookup_tracked].
Qed.

(** The registry after the initialisation: variables in the order of their names
    in [settings_init]. *)
Definition setting_addr (k : setting) : nat :=
  match k with
  | connect_timeout => 0 | request_buffer => 1 | request_body => 2 | response_buffer => 3 | response_body => 4
  end%nat.

(** The initialisers keep the registry's invariant. *)
Definition keeps_reg {A} (m : M Process A) : Prop := forall p, reg_ok num (conf p) -> reg_ok num (conf (m p).2).

Lemma keeps_bind {A B} (m : M Process A) (f : A -> M Process B) :
  keeps_reg m -> (forall a, keeps_reg (f a)) -> keeps_reg (m ≫= f).
Proof.
  intros Hm Hf p Hp. unfold mbind, M_bind. specialize (Hm p Hp). destruct (m p) as [[a|e] p1]; [by apply Hf|done].
Qed.

Lemma keeps_lookup t n d desc : keeps_reg (lookup_var t n d desc).
Proof.
  intros p Hp. unfold lookup_var. pose proof (Lookup_spec num t n d desc (conf p) Hp) as Hs.
  destruct (s_datas num (conf p) !! n); [by rewrite Hs|].
  destruct (invalid_name n); [by rewrite Hs|]. destruct Hs as (a & c' & -> & Hc & _). exact Hc.
Qed.

Lemma keeps_copy k a : keeps_reg (copy_now k a).
Proof.
  intros p Hp. unfold copy_now, getValue, var_at. mstep. destruct a as [a|]; [|done].
  destruct (vars num (conf p) !! a); [|done]. destruct Hp as [Hr Hinj]. by split.
Qed.

Lemma keeps_listener a cb : keeps_reg (add_listener a cb).
Proof.
  intros p Hp. unfold add_listener, var_at. mstep. destruct a as [a|]; [|done].
  destruct (vars num (conf p) !! a); [|done]. destruct Hp as [Hr Hinj]. cbn. split; [|done].
  intros n b Hb. cbn [vars set_vars]. rewrite length_insert. by apply (Hr n).
Qed.

Lemma settings_init_reg : reg_ok num (conf (settings_init process0).2).
Proof.
  assert (keeps_reg settings_init) as Hk.
  { unfold settings_init, hook_settings, http_settings, HookIniter, RequestSizeIniter, g_fiber_stack_size,
      g_tcp_server_read_timeout, g_daemon_restart_interval.
    repeat first [apply keeps_lookup|apply keeps_copy|apply keeps_listener|by intros p Hp|apply keeps_bind; [|intros ?]]. }
  apply Hk. split; intros n a; cbn; by rewrite lookup_empty.
Qed.

Lemma settings_init_ok : (settings_init process0).1 = Ok tt.
Proof. by vm_compute. Qed.

Lemma settings_init_length : length (vars num (conf (settings_init process0).2)) = 8%nat.
Proof. by vm_compute. Qed.

Lemma settings_init_tracked : tracked setting_addr (conf (settings_init process0).2).
Proof.
  constructor; [exact settings_init_reg| |].
  - intros k. unfold follows, settings_init, hook_settings, http_settings, HookIniter, RequestSizeIniter.
    generalize listener. intros lis. split; [by destruct k; vm_compute|].
    destruct k; (eexists _, _; split; [vm_compute; reflexivity|]); split_and!; vm_compute; reflexivity.
  - intros a V Ha Hk. pose proof (lookup_lt_Some _ _ _ Ha) as Hlt. rewrite settings_init_length in Hlt.
    assert (5 <= a)%nat as Hge.
    { destruct (decide (5 <= a)%nat) as [|Hlt5]; [done|]. exfalso.
      destruct a as [|[|[|[|[|a]]]]]; [by apply (Hk connect_timeout)|by apply (Hk request_buffer)
        |by apply (Hk request_body)|by apply (Hk response_buffer)|by apply (Hk response_body)|lia]. }
    revert Ha. unfold settings_init, hook_settings, http_settings, HookIniter, RequestSizeIniter.
    generalize listener. intros lis.
    assert (a = 5 \/ a = 6 \/ a = 7)%nat as [-> | [-> | ->]] by lia; vm_compute; by intros [= <-].
Qed.

(** C39: each static is the value of its variable.  After the initialisation, and
    after any sequence of YAML documents and configuration directories loaded, values
    set and further variables registered, the connect timeout of the hooks and the
    sizes that the HTTP parsers hand out are the current values of their
    configuration variables (an [int] as an [uint64_t]). *)
Theorem statics_follow ops k :
  let c := fold_left (fun c o => op_run o c) ops (conf (settings_init process0).2) in
  (settings_init process0).1 = Ok tt
  /\ exists a V, Lookup_existing num (setting_type k) (setting_name k) c = Some a /\ vars num c !! a = Some V
     /\ static_of k (world num c) = copied k (value V).
Proof.
  intros c. split; [exact settings_init_ok|].
  assert (tracked setting_addr c) as [_ Hf _].
  { unfold c. generalize settings_init_tracked. generalize (conf (settings_init process0).2).
    induction ops as [|o ops IH]; intros c0 H0; [done|]. by apply IH, op_tracked. }
  destruct (Hf k) as (Hn & V & i & Ha & Ht & _ & Hs). exists (setting_addr k), V. split_and!; try done.
  unfold Lookup_existing, dyn_cast. by rewrite Hn, Ha, decide_True.
Qed.
End Settings.
