(* ===== verification/Log.v ===== *)
(** * Loggers ([src/src/log.cc], [include/sylar/log.hh])

    Loggers and appenders are shared objects: the state holds both by address,
    with the manager's table of names, the file system that file appenders open
    their files in, and the text written so far to each sink.  Formatters are
    immutable after construction and are values.  The kernel's answers to [mkdir]
    and [open] and the text of a time are arguments. *)
From Stdlib Require Import String.
From S2P Require Import Prelude CString Util LogFormat ConfigCast.
#[local] Open Scope string_scope.
#[local] Open Scope list_scope.
#[local] Open Scope Z_scope.

(** Where an appender writes: its class and, for files, the name. *)
Inductive Sink := StdoutSink | FileSink (m_filename : bytes).

#[export] Instance Sink_eq_dec : EqDecision Sink.
Proof. solve_decision. Defined.

(** [src/include/sylar/log.hh:250-256 LogAppender]
    With the members of [StdoutLogAppender] and [FileLogAppender] (lines 351 to
    352 and 387 to 392); [m_filestream] is whether the stream can be written. *)
Record LogAppender := mkApp {
  ap_sink : Sink; ap_name : bytes; ap_level : Level; m_hasFormatter : bool;
  ap_formatter : option LogFormatter; m_lastTime : Z; m_filestream : bool
}.

(** [src/include/sylar/log.hh:306-313 Logger] *)
Record Logger := mkLogger {
  lg_name : bytes; lg_level : Level; m_appenders : list nat; lg_formatter : option LogFormatter;
  m_root : option nat
}.

(** The objects and the manager ([src/include/sylar/log.hh:411-415]). *)
Record LogSys := mkSys {
  loggers : list Logger; appenders : list LogAppender; m_loggers : gmap bytes nat; mgr_root : nat;
  fs : FS; out : list (Sink * bytes)
}.

Definition set_loggers (l : list Logger) (s : LogSys) : LogSys :=
  mkSys l (appenders s) (m_loggers s) (mgr_root s) (fs s) (out s).
Definition set_appenders (l : list LogAppender) (s : LogSys) : LogSys :=
  mkSys (loggers s) l (m_loggers s) (mgr_root s) (fs s) (out s).
Definition set_table (t : gmap bytes nat) (s : LogSys) : LogSys :=
  mkSys (loggers s) (appenders s) t (mgr_root s) (fs s) (out s).
Definition set_fs (f : FS) (s : LogSys) : LogSys :=
  mkSys (loggers s) (appenders s) (m_loggers s) (mgr_root s) f (out s).
Definition add_out (x : Sink * bytes) (s : LogSys) : LogSys :=
  mkSys (loggers s) (appenders s) (m_loggers s) (mgr_root s) (fs s) (out s ++ [x]).

Definition logger_at (l : nat) : M LogSys Logger := s ← get; deref (loggers s !! l) use_after_free.
Definition app_at (a : nat) : M LogSys LogAppender := s ← get; deref (appenders s !! a) use_after_free.
Definition put_logger (l : nat) (x : Logger) : M LogSys unit := modify (fun s => set_loggers (<[l := x]> (loggers s)) s).
Definition put_app (a : nat) (x : LogAppender) : M LogSys unit :=
  modify (fun s => set_appenders (<[a := x]> (appenders s)) s).

(** Allocation. *)
Definition new_logger (x : Logger) : M LogSys nat := fun s =>
  (Ok (length (loggers s)), set_loggers (loggers s ++ [x]) s).
Definition new_app (x : LogAppender) : M LogSys nat := fun s =>
  (Ok (length (appenders s)), set_appenders (appenders s ++ [x]) s).

Definition ge (a b : Level) : bool := level_val b <=? level_val a.

(** ** Appenders *)

Definition app_with_formatter (f : option LogFormatter) (has : bool) (x : LogAppender) : LogAppender :=
  mkApp (ap_sink x) (ap_name x) (ap_level x) has f (m_lastTime x) (m_filestream x).
Definition app_with_level (v : Level) (x : LogAppender) : LogAppender :=
  mkApp (ap_sink x) (ap_name x) v (m_hasFormatter x) (ap_formatter x) (m_lastTime x) (m_filestream x).
Definition app_with_stream (t : Z) (o : bool) (x : LogAppender) : LogAppender :=
  mkApp (ap_sink x) (ap_name x) (ap_level x) (m_hasFormatter x) (ap_formatter x) t o.

(** [src/src/log.cc:98-109 LogAppender::setFormatter] *)
Definition LogAppender_setFormatter (a : nat) (var : option LogFormatter) : M LogSys unit :=
  x ← app_at a;
  put_app a (app_with_formatter var (bool_decide (is_Some var)) x).

(** [src/include/sylar/log.hh:242-242 LogAppender::setLevel] *)
Definition LogAppender_setLevel (a : nat) (v : Level) : M LogSys unit :=
  x ← app_at a; put_app a (app_with_level v x).

(** [src/include/sylar/log.hh:345-349 StdoutLogAppender::operator==]
    And [FileLogAppender::operator==] (lines 372 to 378): the class, the level
    and the name of the appender, not the file. *)
Definition app_eqb (x y : LogAppender) : bool :=
  match ap_sink x, ap_sink y with
  | StdoutSink, StdoutSink => bytes_eqb (ap_name x) (ap_name y) && bool_decide (ap_level x = ap_level y)
  | FileSink _, FileSink _ => bool_decide (ap_level x = ap_level y) && bytes_eqb (ap_name x) (ap_name y)
  | _, _ => false
  end.

(** [src/include/sylar/log.hh:337-337 StdoutLogAppender::StdoutLogAppender] *)
Definition StdoutLogAppender_new : M LogSys nat :=
  new_app (mkApp StdoutSink (str "StdoutLogAppender") DEBUG false None 0 true).

Section Kernel.
Context (mkdir : mkdir_answer) (open : FS -> bytes -> bool) (strftime : bytes -> Z -> bytes).

Definition on_fs {A} (m : M FS A) : M LogSys A := fun s => let '(r, f) := m (fs s) in (r, set_fs f s).

(** [src/src/log.cc:282-292 FileLogAppender::reopen] *)
Definition reopen (a : nat) : M LogSys bool :=
  x ← app_at a;
  match ap_sink x with
  | StdoutSink => mret true
  | FileSink m_filename =>
      ok ← on_fs (OpenForWrite mkdir open m_filename);
      put_app a (app_with_stream (m_lastTime x) ok x);;
      mret ok
  end.

(** [src/src/log.cc:294-298 FileLogAppender::FileLogAppender] *)
Definition FileLogAppender_new (filename : bytes) : M LogSys nat :=
  a ← new_app (mkApp (FileSink filename) (str "FileLogAppender") DEBUG false None 0 false);
  reopen a;;
  mret a.

(** [src/src/log.cc:300-318 FileLogAppender::log]
    And [StdoutLogAppender::log] (lines 320 to 331).  Text for a stream that is
    not open is lost. *)
Definition LogAppender_log (a : nat) (name : bytes) (level : Level) (event : LogEvent) : M LogSys unit :=
  x ← app_at a;
  if negb (ge level (ap_level x)) then mret () else
  (match ap_sink x with
   | StdoutSink => mret ()
   | FileSink _ =>
       let now := getTime event in
       if u64 (m_lastTime x + 3) <=? now then
         reopen a;;
         x ← app_at a;
         put_app a (app_with_stream now (m_filestream x) x)
       else mret ()
   end);;
  x ← app_at a;
  f ← deref (ap_formatter x) null_deref;
  if m_filestream x then modify (add_out (ap_sink x, LogFormatter_format strftime f name level event)) else mret ().

(** ** Loggers *)

Definition lg_with_appenders (l : list nat) (x : Logger) : Logger :=
  mkLogger (lg_name x) (lg_level x) l (lg_formatter x) (m_root x).
Definition lg_with_formatter (f : option LogFormatter) (x : Logger) : Logger :=
  mkLogger (lg_name x) (lg_level x) (m_appenders x) f (m_root x).
Definition lg_with_level (v : Level) (x : Logger) : Logger :=
  mkLogger (lg_name x) v (m_appenders x) (lg_formatter x) (m_root x).

Definition default_pattern : bytes :=
  str "%d{%Y-%m-%d %H:%M:%S}%T%t%T%N%T%F%T[%p]%T[%c]%T%f:%l%T%m%T%N%n".

(** [src/src/log.cc:111-115 Logger::Logger] *)
Definition Logger_new (name : bytes) : M LogSys nat :=
  f ← lift (LogFormatter_new default_pattern);
  new_logger (mkLogger name DEBUG [] (Some f) None).

(** [src/src/log.cc:128-134 Logger::setFormatter]
    The appenders without a formatter of their own. *)
Fixpoint inherit (f : option LogFormatter) (apps : list nat) : M LogSys unit :=
  match apps with
  | [] => mret ()
  | a :: apps =>
      x ← app_at a;
      (if m_hasFormatter x then mret () else put_app a (app_with_formatter f false x));;
      inherit f apps
  end.

(** [src/src/log.cc:123-135 Logger::setFormatter] *)
Definition Logger_setFormatter_ptr (l : nat) (var : option LogFormatter) : M LogSys unit :=
  x ← logger_at l;
  put_logger l (lg_with_formatter var x);;
  inherit var (m_appenders x).

(** [src/src/log.cc:137-147 Logger::setFormatter] *)
Definition Logger_setFormatter (l : nat) (var : bytes) : M LogSys unit :=
  f ← lift (LogFormatter_new var);
  if m_error f then mret () else Logger_setFormatter_ptr l (Some f).

(** [src/include/sylar/log.hh:289-289 Logger::setLevel] *)
Definition Logger_setLevel (l : nat) (v : Level) : M LogSys unit :=
  x ← logger_at l; put_logger l (lg_with_level v x).

(** [src/src/log.cc:185-189 Logger::addAppender]
    Whether an equal appender is there. *)
Fixpoint has_equal (x : LogAppender) (apps : list nat) : M LogSys bool :=
  match apps with
  | [] => mret false
  | a :: apps => y ← app_at a; if app_eqb y x then mret true else has_equal x apps
  end.

(** [src/src/log.cc:181-199 Logger::addAppender] *)
Definition addAppender (l a : nat) : M LogSys unit :=
  lg ← logger_at l;
  x ← app_at a;
  dup ← has_equal x (m_appenders lg);
  if dup : bool then mret () else
  (match ap_formatter x with
   | None => put_app a (app_with_formatter (lg_formatter lg) (m_hasFormatter x) x)
   | Some _ => mret ()
   end);;
  put_logger l (lg_with_appenders (m_appenders lg ++ [a]) lg).

(** The first occurrence removed. *)
Fixpoint remove_first (a : nat) (l : list nat) : list nat :=
  match l with [] => [] | b :: l => if (b =? a)%nat then l else b :: remove_first a l end.

(** [src/src/log.cc:206-215 Logger::delAppender] *)
Definition delAppender (l a : nat) : M LogSys unit :=
  lg ← logger_at l; put_logger l (lg_with_appenders (remove_first a (m_appenders lg)) lg).

(** [src/src/log.cc:217-221 Logger::clearAppenders] *)
Definition clearAppenders (l : nat) : M LogSys unit :=
  lg ← logger_at l; put_logger l (lg_with_appenders [] lg).

(** [src/src/log.cc:239-241 Logger::log] *)
Fixpoint log_all (apps : list nat) (name : bytes) (level : Level) (event : LogEvent) : M LogSys unit :=
  match apps with
  | [] => mret ()
  | a :: apps => LogAppender_log a name level event;; log_all apps name level event
  end.

(** [src/src/log.cc:230-247 Logger::log]
    One unit of fuel per logger on the way to the root. *)
Fixpoint Logger_log (fuel : nat) (l : nat) (level : Level) (event : LogEvent) : M LogSys unit :=
  match fuel with
  | O => fail OutOfFuel
  | S fuel =>
      lg ← logger_at l;
      if negb (ge level (lg_level lg)) then mret () else
      match m_appenders lg, m_root lg with
      | [], Some r => Logger_log fuel r level event
      | [], None => mret ()
      | apps, _ => log_all apps (lg_name lg) level event
      end
  end.

(** [src/src/log.cc:66-69 LogEventWrap::~LogEventWrap]
    Behind the level test of the logging macros. *)
Definition LogEventWrap_log (l : nat) (event : LogEvent) : M LogSys unit :=
  lg ← logger_at l;
  if level_val (lg_level lg) <=? level_val (ev_level event) then Logger_log 2 l (ev_level event) event else mret ().

(** [src/src/log.cc:249-249 Logger::debug] *)
Definition Logger_debug (l : nat) (event : LogEvent) : M LogSys unit := Logger_log 2 l DEBUG event.

(** [src/src/log.cc:251-251 Logger::info] *)
Definition Logger_info (l : nat) (event : LogEvent) : M LogSys unit := Logger_log 2 l INFO event.

(** [src/src/log.cc:253-253 Logger::warn] *)
Definition Logger_warn (l : nat) (event : LogEvent) : M LogSys unit := Logger_log 2 l WARN event.

(** [src/src/log.cc:255-255 Logger::error] *)
Definition Logger_error (l : nat) (event : LogEvent) : M LogSys unit := Logger_log 2 l ERROR event.

(** [src/src/log.cc:257-257 Logger::fatal] *)
Definition Logger_fatal (l : nat) (event : LogEvent) : M LogSys unit := Logger_log 2 l FATAL event.

(** [src/src/log.cc:170-174 Logger::getFormatter] *)
Definition Logger_getFormatter (l : nat) : M LogSys (option LogFormatter) := x ← logger_at l; mret (lg_formatter x).

(** [src/src/log.cc:370-375 LogAppender::getFormatter] *)
Definition LogAppender_getFormatter (a : nat) : M LogSys (option LogFormatter) := x ← app_at a; mret (ap_formatter x).

(** [src/src/log.cc:117-121 Logger::initFormatter] *)
Definition initFormatter (l : nat) : M LogSys unit :=
  x ← logger_at l;
  f ← lift (LogFormatter_new (str "%d{%Y-%m-%d %H:%M:%S}%T%t%T%F%T[%p]%T[%c]%T%f:%l%T%m%T%N%n"));
  put_logger l (lg_with_formatter (Some f) x).

(** ** The manager *)

(** [src/src/log.cc:714-728 LoggerManager::getLogger] *)
Definition getLogger (name : bytes) : M LogSys nat :=
  s ← get;
  match m_loggers s !! name with
  | Some l => mret l
  | None =>
      l ← Logger_new name;
      lg ← logger_at l;
      put_logger l (mkLogger (lg_name lg) (lg_level lg) (m_appenders lg) (lg_formatter lg) (Some (mgr_root s)));;
      modify (fun s => set_table (<[name := l]> (m_loggers s)) s);;
      mret l
  end.

(** [src/src/log.cc:965-972 LoggerManager::LoggerManager]
    From nothing; the root is the first logger. *)
Definition LoggerManager_new (f : FS) : result unit * LogSys :=
  (r ← Logger_new (str "root");
   a ← StdoutLogAppender_new;
   addAppender r a;;
   modify (fun s => mkSys (loggers s) (appenders s) {[ str "root" := r ]} r (fs s) (out s)))
  (mkSys [] [] ∅ 0 f []).

(** ** Configuration *)

(** [src/src/log.cc:730-741 LogAppenderDefine] *)
Record LogAppenderDefine := mkAppDef { ad_type : Z; ad_level : Level; ad_formatter : bytes; ad_file : bytes }.

(** [src/src/log.cc:743-756 LogDefine] *)
Record LogDefine := mkDef { ld_name : bytes; ld_level : Level; ld_formatter : bytes; ld_appenders : list LogAppenderDefine }.

#[local] Instance LogAppenderDefine_eq_dec : EqDecision LogAppenderDefine.
Proof. solve_decision. Defined.
#[local] Instance LogDefine_eq_dec : EqDecision LogDefine.
Proof. solve_decision. Defined.

(** [set::find], by name. *)
Definition find_def (d : LogDefine) (l : list LogDefine) : option LogDefine :=
  find (fun x => bytes_eqb (ld_name x) (ld_name d)) l.

(** [src/src/log.cc:907-933 LogIniter::LogIniter]
    One appender of the configuration; [daemon] is whether the option [d] was
    given. *)
Definition apply_appender (daemon : bool) (l : nat) (a : LogAppenderDefine) : M LogSys unit :=
  let go (mk : M LogSys nat) :=
    ap ← mk;
    LogAppender_setLevel ap (ad_level a);;
    (match ad_formatter a with
     | [] => mret ()
     | p => f ← lift (LogFormatter_new p);
            if m_error f then mret () else LogAppender_setFormatter ap (Some f)
     end);;
    addAppender l ap in
  if ad_type a =? 1 then go (FileLogAppender_new (ad_file a))
  else if ad_type a =? 2 then if daemon then mret () else go StdoutLogAppender_new
  else fail (Undef null_deref).

Fixpoint each {A} (f : A -> M LogSys unit) (l : list A) : M LogSys unit :=
  match l with [] => mret () | x :: l => f x;; each f l end.

(** [src/src/log.cc:884-935 LogIniter::LogIniter]
    One logger of the new configuration. *)
Definition apply_define (daemon : bool) (old_value : list LogDefine) (i : LogDefine) : M LogSys unit :=
  let change :=
    l ← getLogger (ld_name i);
    Logger_setLevel l (ld_level i);;
    (match ld_formatter i with [] => mret () | p => Logger_setFormatter l p end);;
    clearAppenders l;;
    each (apply_appender daemon l) (ld_appenders i) in
  match find_def i old_value with
  | None => change
  | Some it => if decide (i = it) then mret () else change
  end.

(** [src/src/log.cc:937-945 LogIniter::LogIniter]
    One logger of the old configuration. *)
Definition retire_define (new_value : list LogDefine) (i : LogDefine) : M LogSys unit :=
  match find_def i new_value with
  | Some _ => mret ()
  | None =>
      l ← getLogger (ld_name i);
      Logger_setLevel l UNKNOW;;
      clearAppenders l
  end.

(** [src/src/log.cc:878-947 LogIniter::LogIniter]
    The listener of the variable [logs]. *)
Definition logs_changed (daemon : bool) (old_value new_value : list LogDefine) : M LogSys unit :=
  each (apply_define daemon old_value) new_value;;
  each (retire_define new_value) old_value.
End Kernel.
