(* ===== verification/LogSpec.v ===== *)
(** * What loggers promise

    The invariant of the logging objects, that every operation keeps it and
    returns ([logging_always_safe]), where an event goes ([log_delivers]) and
    what the configuration listener makes of the loggers. *)
From Stdlib Require Import String.
From S2P Require Import Prelude CString Util LogFormat ConfigCast Log.
#[local] Open Scope string_scope.
#[local] Open Scope list_scope.
#[local] Open Scope Z_scope.

(** An appender that can be logged to. *)
Definition ready (s : LogSys) (a : nat) : Prop :=
  exists x, appenders s !! a = Some x /\ is_Some (ap_formatter x).

Definition logger_ok (s : LogSys) (lg : Logger) : Prop :=
  is_Some (lg_formatter lg) /\ Forall (ready s) (m_appenders lg)
  /\ (m_root lg = None \/ m_root lg = Some (mgr_root s)).

(** The invariant: formatters are there, appenders exist and their streams are
    open, names lead to the loggers that have them, and the root has no root. *)
Record sys_ok (s : LogSys) : Prop := {
  ok_loggers l lg : loggers s !! l = Some lg -> logger_ok s lg;
  ok_root : exists lg, loggers s !! mgr_root s = Some lg /\ m_root lg = None;
  ok_table n l : m_loggers s !! n = Some l -> exists lg, loggers s !! l = Some lg /\ lg_name lg = n;
  ok_streams a x : appenders s !! a = Some x -> m_filestream x = true
}.

(** Objects are not freed, and the table only grows. *)
Record ext (s s' : LogSys) : Prop := {
  ext_loggers : (length (loggers s) <= length (loggers s'))%nat;
  ext_appenders : (length (appenders s) <= length (appenders s'))%nat;
  ext_root : mgr_root s' = mgr_root s;
  ext_table : m_loggers s ⊆ m_loggers s'
}.

Lemma ext_refl s : ext s s.
Proof. by split. Qed.
Lemma ext_trans s1 s2 s3 : ext s1 s2 -> ext s2 s3 -> ext s1 s3.
Proof. intros [????] [????]. split; [lia|lia|congruence|by etransitivity]. Qed.

(** A run that returns and keeps the invariant. *)
Definition runs {A} (m : M LogSys A) (s : LogSys) (Q : A -> LogSys -> Prop) : Prop :=
  exists a s', m s = (Ok a, s') /\ sys_ok s' /\ ext s s' /\ Q a s'.

Lemma runs_bind {A B} (m : M LogSys A) (f : A -> M LogSys B) s P Q :
  runs m s P -> (forall a s', sys_ok s' -> ext s s' -> P a s' -> runs (f a) s' Q) -> runs (m ≫= f) s Q.
Proof.
  intros (a & s' & Hm & Hok & He & HP) Hf. destruct (Hf a s' Hok He HP) as (b & s2 & Hb & Hok2 & He2 & HQ).
  exists b, s2. unfold mbind, M_bind. rewrite Hm. eauto using ext_trans.
Qed.

Lemma runs_ret {A} (a : A) s (Q : A -> LogSys -> Prop) : sys_ok s -> Q a s -> runs (mret a) s Q.
Proof. intros Hok HQ. exists a, s. eauto using ext_refl. Qed.

Lemma runs_weaken {A} (m : M LogSys A) s (P Q : A -> LogSys -> Prop) :
  runs m s P -> (forall a s', P a s' -> Q a s') -> runs m s Q.
Proof. intros (a & s' & Hm & Hok & He & HP) HPQ. exists a, s'. auto. Qed.

Lemma runs_eq {A} (m m' : M LogSys A) s Q : m s = m' s -> runs m' s Q -> runs m s Q.
Proof. intros E H. unfold runs. by rewrite E. Qed.

Lemma runs_logger_at l s : sys_ok s -> (l < length (loggers s))%nat ->
  runs (logger_at l) s (fun lg s' => s' = s /\ loggers s !! l = Some lg /\ logger_ok s lg).
Proof.
  intros Hok Hl. destruct (lookup_lt_is_Some_2 _ _ Hl) as [lg E]. exists lg, s. unfold logger_at. mstep. rewrite E.
  split_and!; try done. by eapply ok_loggers.
Qed.

Lemma runs_app_at a s : sys_ok s -> (a < length (appenders s))%nat ->
  runs (app_at a) s (fun x s' => s' = s /\ appenders s !! a = Some x /\ m_filestream x = true).
Proof.
  intros Hok Hl. destruct (lookup_lt_is_Some_2 _ _ Hl) as [x E]. exists x, s. unfold app_at. mstep. rewrite E.
  split_and!; try done. by eapply ok_streams.
Qed.

(** An appender changed in place. *)
Lemma runs_put_app a x y s : sys_ok s -> appenders s !! a = Some x ->
  (is_Some (ap_formatter x) -> is_Some (ap_formatter y)) -> m_filestream y = true ->
  runs (put_app a y) s (fun _ s' => s' = set_appenders (<[a := y]> (appenders s)) s).
Proof.
  intros Hok Ha Hf Hy. eexists _, _. split; [done|]. split_and!; [|split|done].
  - assert (forall b, ready s b -> ready (set_appenders (<[a := y]> (appenders s)) s) b) as Hready.
    { intros b (x' & Hb & Hx'). unfold ready. cbn [set_appenders appenders].
      destruct (decide (b = a)) as [->|Hne].
      - rewrite list_lookup_insert_eq by (by eapply lookup_lt_Some). exists y. split; [done|]. apply Hf. congruence.
      - rewrite list_lookup_insert_ne by done. by exists x'. }
    split; cbn.
    + intros l lg Hl. destruct (ok_loggers s Hok l lg Hl) as (H1 & H2 & H3). split_and!; try done.
      eapply Forall_impl; [exact H2|apply Hready].
    + apply Hok.
    + apply Hok.
    + intros b z Hz. destruct (decide (b = a)) as [->|Hne].
      * rewrite list_lookup_insert_eq in Hz by (by eapply lookup_lt_Some). by injection Hz as <-.
      * rewrite list_lookup_insert_ne in Hz by done. by eapply ok_streams.
  - done.
  - cbn. by rewrite length_insert.
  - done.
  - done.
Qed.

(** A logger changed in place. *)
Lemma runs_put_logger l x y s : sys_ok s -> loggers s !! l = Some x -> logger_ok s y ->
  lg_name y = lg_name x -> m_root y = m_root x \/ l <> mgr_root s ->
  runs (put_logger l y) s (fun _ s' => s' = set_loggers (<[l := y]> (loggers s)) s).
Proof.
  intros Hok Hl Hy Hn Hr. eexists _, _. split; [done|]. split_and!; [|split|done].
  - split; cbn.
    + intros l' lg Hl'. destruct (decide (l' = l)) as [->|Hne].
      * rewrite list_lookup_insert_eq in Hl' by (by eapply lookup_lt_Some). by injection Hl' as <-.
      * rewrite list_lookup_insert_ne in Hl' by done. by apply (ok_loggers s Hok l').
    + destruct (ok_root s Hok) as (lg & Hlg & Hroot). destruct (decide (mgr_root s = l)) as [<-|Hne].
      * rewrite list_lookup_insert_eq by (by eapply lookup_lt_Some). exists y. split; [done|]. destruct Hr as [->|]; congruence.
      * rewrite list_lookup_insert_ne by done. by exists lg.
    + intros n l' Hn'. destruct (ok_table s Hok n l' Hn') as (lg & Hlg & Hname).
      destruct (decide (l' = l)) as [->|Hne].
      * rewrite list_lookup_insert_eq by (by eapply lookup_lt_Some). exists y. split; [done|]. congruence.
      * rewrite list_lookup_insert_ne by done. by exists lg.
    + apply Hok.
  - cbn. by rewrite length_insert.
  - done.
  - done.
  - done.
Qed.

(** Allocation. *)
Lemma runs_new_app x s : sys_ok s -> m_filestream x = true ->
  runs (new_app x) s (fun a s' => a = length (appenders s) /\ s' = set_appenders (appenders s ++ [x]) s).
Proof.
  intros Hok Hx. do 2 eexists. split; [done|]. split_and!; [|split|done..].
  - split; cbn.
    + intros l lg Hl. destruct (ok_loggers s Hok l lg Hl) as (H1 & H2 & H3). split_and!; try done.
      eapply Forall_impl; [exact H2|]. intros a (y & Hy & Hf). exists y. split; [|done]. cbn.
      by apply lookup_app_l_Some.
    + apply Hok.
    + apply Hok.
    + intros a y Ha. apply lookup_app_Some in Ha as [Ha|[_ Ha]]; [by eapply ok_streams|].
      apply list_lookup_singleton_Some in Ha as [_ <-]. done.
  - done.
  - cbn. rewrite length_app. lia.
  - done.
  - done.
Qed.

Lemma runs_new_logger x s : sys_ok s -> logger_ok s x ->
  runs (new_logger x) s (fun l s' => l = length (loggers s) /\ s' = set_loggers (loggers s ++ [x]) s).
Proof.
  intros Hok Hx. do 2 eexists. split; [done|]. split_and!; [|split|done..].
  - split; cbn.
    + intros l lg Hl. apply lookup_app_Some in Hl as [Hl|[_ Hl]]; [by apply (ok_loggers s Hok l)|].
      apply list_lookup_singleton_Some in Hl as [_ <-]. done.
    + destruct (ok_root s Hok) as (lg & Hlg & Hroot). exists lg. split; [by apply lookup_app_l_Some|done].
    + intros n l Hn. destruct (ok_table s Hok n l Hn) as (lg & Hlg & Hname). exists lg.
      split; [by apply lookup_app_l_Some|done].
    + apply Hok.
  - cbn. rewrite length_app. lia.
  - done.
  - done.
  - done.
Qed.

Create HintDb logs.
#[export] Hint Resolve runs_ret ext_refl : logs.

Lemma app_at_eq a x s : appenders s !! a = Some x -> app_at a s = (Ok x, s).
Proof. intros Ha. unfold app_at. mstep. by rewrite Ha. Qed.

Lemma logger_at_eq l x s : loggers s !! l = Some x -> logger_at l s = (Ok x, s).
Proof. intros Hl. unfold logger_at. mstep. by rewrite Hl. Qed.

(** What [operator==] of appenders compares. *)
Definition key (x : LogAppender) : Sink * bytes * Level := (ap_sink x, ap_name x, ap_level x).
Definition key_eqb (k k' : Sink * bytes * Level) : bool :=
  match k.1.1, k'.1.1 with
  | StdoutSink, StdoutSink | FileSink _, FileSink _ => bytes_eqb k.1.2 k'.1.2 && bool_decide (k.2 = k'.2)
  | _, _ => false
  end.
Definition keys (s : LogSys) : list (Sink * bytes * Level) := map key (appenders s).
(** The keys of the appenders of a logger. *)
Definition keys_of (s : LogSys) (apps : list nat) : list (Sink * bytes * Level) := omap (fun a => keys s !! a) apps.

Lemma app_eqb_key x y : app_eqb x y = key_eqb (key x) (key y).
Proof. unfold app_eqb, key_eqb, key. cbn. destruct (ap_sink x), (ap_sink y); try done. apply andb_comm. Qed.

Lemma keys_lookup s a x : appenders s !! a = Some x -> keys s !! a = Some (key x).
Proof. intros Ha. unfold keys. rewrite list_lookup_fmap. by rewrite Ha. Qed.

Lemma keys_insert s a x y : appenders s !! a = Some x -> key y = key x ->
  keys (set_appenders (<[a := y]> (appenders s)) s) = keys s.
Proof.
  intros Ha Hk. unfold keys. cbn [set_appenders appenders]. change (map key) with (fmap (M := list) key).
  rewrite list_fmap_insert. apply list_insert_id. by rewrite list_lookup_fmap, Ha, Hk.
Qed.

(** ** The operations keep the invariant *)

Section Safe.
Context (mkdir : mkdir_answer) (open : FS -> bytes -> bool) (strftime : bytes -> Z -> bytes).
(** Log files can be opened. *)
Hypothesis Hopen : forall f n, open f n = true.

Lemma OpenForWrite_ok n f : OpenForWrite mkdir open n f = (Ok true, f).
Proof. unfold OpenForWrite. mstep. by rewrite Hopen. Qed.

Lemma reopen_eq a x s : appenders s !! a = Some x -> m_filestream x = true ->
  exists b, reopen mkdir open a s = (Ok b, s).
Proof.
  intros Ha Hx. unfold reopen. unfold mbind at 1, M_bind at 1. rewrite (app_at_eq a x) by done.
  destruct (ap_sink x) eqn:E; [by exists true|]. exists true. unfold mbind, M_bind, on_fs. rewrite OpenForWrite_ok.
  unfold put_app, modify, mret, M_ret. f_equal. destruct s. cbn in *. unfold set_appenders. cbn. f_equal.
  apply list_insert_id. rewrite Ha. f_equal. destruct x. cbn in *. by subst.
Qed.

Lemma FileLogAppender_new_eq n s :
  FileLogAppender_new mkdir open n s = new_app (mkApp (FileSink n) (str "FileLogAppender") DEBUG false None 0 true) s.
Proof.
  unfold FileLogAppender_new, new_app, reopen. unfold mbind, M_bind.
  erewrite app_at_eq by (cbn; by rewrite list_lookup_middle). cbn [ap_sink]. unfold on_fs. rewrite OpenForWrite_ok.
  unfold put_app, modify. cbn [set_appenders set_fs appenders loggers m_loggers mgr_root fs out].
  by rewrite insert_app_r_alt, Nat.sub_diag by done.
Qed.

Lemma runs_appender_new n s : sys_ok s ->
  runs (FileLogAppender_new mkdir open n) s (fun a s' => (a < length (appenders s'))%nat /\ loggers s' = loggers s)
  /\ runs StdoutLogAppender_new s (fun a s' => (a < length (appenders s'))%nat /\ loggers s' = loggers s).
Proof.
  intros Hok. split; [eapply runs_eq; [apply FileLogAppender_new_eq|]|];
    (eapply runs_weaken; [by apply runs_new_app|]); intros a s' [-> ->]; (split; [|done]);
    cbn; rewrite length_app; cbn; lia.
Qed.

Lemma runs_app_setFormatter a f s : sys_ok s -> (a < length (appenders s))%nat ->
  runs (LogAppender_setFormatter a (Some f)) s (fun _ s' => exists x, appenders s !! a = Some x
    /\ s' = set_appenders (<[a := app_with_formatter (Some f) true x]> (appenders s)) s).
Proof.
  intros Hok Ha. eapply runs_bind; [by apply runs_app_at|]. intros x s' _ _ (-> & Hx & Hst).
  eapply runs_weaken; [by apply (runs_put_app a x)|]. intros _ s' ->. by exists x.
Qed.

Lemma runs_app_setLevel a v s : sys_ok s -> (a < length (appenders s))%nat ->
  runs (LogAppender_setLevel a v) s (fun _ s' => exists x, appenders s !! a = Some x
    /\ s' = set_appenders (<[a := app_with_level v x]> (appenders s)) s).
Proof.
  intros Hok Ha. eapply runs_bind; [by apply runs_app_at|]. intros x s' _ _ (-> & Hx & Hst).
  eapply runs_weaken; [by apply (runs_put_app a x)|]. intros _ s' ->. by exists x.
Qed.

Lemma runs_formatter p s : sys_ok s -> runs (lift (LogFormatter_new p)) s (fun f s' => s' = s /\ m_pattern f = p).
Proof.
  intros Hok. destruct (LogFormatter_total p) as (f & Hf & Hp). exists f, s. unfold lift. rewrite Hf. by split_and!.
Qed.

Lemma runs_inherit f apps : forall s, sys_ok s -> Forall (ready s) apps ->
  runs (inherit (Some f) apps) s (fun _ s' => loggers s' = loggers s /\ keys s' = keys s).
Proof.
  induction apps as [|a apps IH]; intros s Hok Hr; [by apply runs_ret|].
  apply Forall_cons in Hr as [(x & Hx & Hxf) Hr]. cbn [inherit].
  eapply runs_bind; [apply runs_app_at; [done|by eapply lookup_lt_Some]|]. intros y s' _ _ (-> & Hy & Hst).
  eapply runs_bind with (P := fun _ s' => loggers s' = loggers s /\ keys s' = keys s /\ Forall (ready s') apps).
  - destruct (m_hasFormatter y); [by apply runs_ret|]. eapply runs_weaken; [by apply (runs_put_app a y)|].
    intros _ s' ->. split; [done|]. split; [by apply (keys_insert s a y)|].
    eapply Forall_impl; [exact Hr|]. intros b (z & Hz & Hzf).
    unfold ready. cbn [set_appenders appenders]. destruct (decide (b = a)) as [->|Hne].
    + rewrite list_lookup_insert_eq by (by eapply lookup_lt_Some). eexists. by split.
    + rewrite list_lookup_insert_ne by done. by exists z.
  - intros _ s' Hok' _ (Hl & Hk & Hr'). eapply runs_weaken; [by apply IH|]. intros [] s2 [H2 H3]. split; congruence.
Qed.

Lemma runs_setFormatter_ptr l f s : sys_ok s -> (l < length (loggers s))%nat ->
  runs (Logger_setFormatter_ptr l (Some f)) s (fun _ s' => exists lg, loggers s !! l = Some lg
    /\ loggers s' = <[l := lg_with_formatter (Some f) lg]> (loggers s) /\ keys s' = keys s).
Proof.
  intros Hok Hl. eapply runs_bind; [by apply runs_logger_at|]. intros lg s' _ _ (-> & Hlg & (H1 & H2 & H3)).
  eapply runs_bind; [apply (runs_put_logger l lg); [done..|by left]|]. intros _ s' Hok' _ ->.
  eapply runs_weaken; [by apply runs_inherit|]. intros [] s' [Hs' Hk]. exists lg. by rewrite Hs'.
Qed.

Lemma runs_setFormatter l p s : sys_ok s -> (l < length (loggers s))%nat ->
  runs (Logger_setFormatter l p) s (fun _ s' => exists lg f, loggers s !! l = Some lg
    /\ loggers s' = <[l := lg_with_formatter f lg]> (loggers s) /\ keys s' = keys s).
Proof.
  intros Hok Hl. eapply runs_bind; [by apply runs_formatter|]. intros f s' _ _ [-> Hp].
  destruct (m_error f).
  - destruct (lookup_lt_is_Some_2 _ _ Hl) as [lg Hlg]. apply runs_ret; [done|]. exists lg, (lg_formatter lg).
    split; [done|]. split; [|done]. symmetry. apply list_insert_id. rewrite Hlg. by destruct lg.
  - eapply runs_weaken; [by apply runs_setFormatter_ptr|]. intros [] s' (lg & H1 & H2). by exists lg, (Some f).
Qed.

Lemma runs_setLevel l v s : sys_ok s -> (l < length (loggers s))%nat ->
  runs (Logger_setLevel l v) s (fun _ s' => exists lg, loggers s !! l = Some lg
    /\ s' = set_loggers (<[l := lg_with_level v lg]> (loggers s)) s).
Proof.
  intros Hok Hl. eapply runs_bind; [by apply runs_logger_at|]. intros lg s' _ _ (-> & Hlg & Hlok).
  eapply runs_weaken; [apply (runs_put_logger l lg); [done..|by left]|]. intros _ s' ->. by exists lg.
Qed.

(** The appenders of a logger replaced by some of the ready ones. *)
Lemma runs_set_appenders l (g : list nat -> list nat) s : sys_ok s -> (l < length (loggers s))%nat ->
  (forall P apps, Forall P apps -> Forall P (g apps)) ->
  runs (lg ← logger_at l; put_logger l (lg_with_appenders (g (m_appenders lg)) lg)) s
    (fun _ s' => exists lg, loggers s !! l = Some lg
      /\ s' = set_loggers (<[l := lg_with_appenders (g (m_appenders lg)) lg]> (loggers s)) s).
Proof.
  intros Hok Hl Hg. eapply runs_bind; [by apply runs_logger_at|]. intros lg s' _ _ (-> & Hlg & (H1 & H2 & H3)).
  eapply runs_weaken; [apply (runs_put_logger l lg); [done..| |done|by left]|].
  - split; [done|]. split; [by apply Hg|done].
  - intros [] s' ->. by exists lg.
Qed.

Lemma runs_delAppender l a s : sys_ok s -> (l < length (loggers s))%nat ->
  runs (delAppender l a) s (fun _ s' => length (loggers s') = length (loggers s)).
Proof.
  intros Hok Hl. eapply runs_weaken; [apply (runs_set_appenders l (remove_first a)); [done..|]|].
  - intros P apps. induction 1 as [|b apps Hb Happs IH]; cbn; [done|]. destruct (b =? a)%nat; [done|by constructor].
  - intros [] s' (lg & _ & ->). cbn. apply length_insert.
Qed.

Lemma runs_clearAppenders l s : sys_ok s -> (l < length (loggers s))%nat ->
  runs (clearAppenders l) s (fun _ s' => exists lg, loggers s !! l = Some lg
      /\ s' = set_loggers (<[l := lg_with_appenders [] lg]> (loggers s)) s).
Proof. intros Hok Hl. apply (runs_set_appenders l (fun _ => [])); [done..|]. by constructor. Qed.

Lemma has_equal_eq x apps s : Forall (ready s) apps ->
  has_equal x apps s = (Ok (existsb (fun k => key_eqb k (key x)) (keys_of s apps)), s).
Proof.
  induction 1 as [|a apps (y & Hy & _) _ IH]; [done|]. cbn [has_equal]. unfold mbind, M_bind.
  rewrite (app_at_eq a y) by done. rewrite app_eqb_key. unfold keys_of in *. cbn [omap list_omap].
  rewrite (keys_lookup s a y Hy). cbn [existsb]. by destruct (key_eqb (key y) (key x)).
Qed.

(** The logger with one more appender, unless it has an equal one. *)
Definition with_new (s : LogSys) (lg : Logger) (a : nat) (k : Sink * bytes * Level) : Logger :=
  if existsb (fun k' => key_eqb k' k) (keys_of s (m_appenders lg)) then lg
  else lg_with_appenders (m_appenders lg ++ [a]) lg.

Lemma runs_addAppender l a lg x s : sys_ok s -> loggers s !! l = Some lg -> appenders s !! a = Some x ->
  runs (addAppender l a) s (fun _ s' => loggers s' = <[l := with_new s lg a (key x)]> (loggers s)
    /\ keys s' = keys s /\ m_loggers s' = m_loggers s).
Proof.
  intros Hok Hlg Hx. pose proof (lookup_lt_Some _ _ _ Hlg) as Hl. pose proof (lookup_lt_Some _ _ _ Hx) as Ha.
  eapply runs_bind; [by apply runs_logger_at|]. intros lg' s' _ _ (-> & Hlg' & (H1 & H2 & H3)).
  assert (lg' = lg) as -> by congruence.
  eapply runs_bind; [by apply runs_app_at|]. intros x' s' _ _ (-> & Hx' & Hst). assert (x' = x) as -> by congruence.
  unfold with_new. set (dup := existsb _ _).
  eapply runs_bind with (P := fun b s' => b = dup /\ s' = s).
  { exists dup, s. by split_and!; [apply has_equal_eq|..]. }
  intros ? s' _ _ [-> ->]. destruct dup.
  { apply runs_ret; [done|]. by rewrite list_insert_id. }
  eapply runs_bind with (P := fun _ s' => loggers s' = loggers s /\ mgr_root s' = mgr_root s
    /\ Forall (ready s') (m_appenders lg ++ [a]) /\ keys s' = keys s /\ m_loggers s' = m_loggers s).
  - destruct (ap_formatter x) eqn:Ef.
    + apply runs_ret; [done|]. split_and!; [done..| |done|done]. apply Forall_app_2; [done|]. repeat constructor.
      exists x. by rewrite Ef.
    + eapply runs_weaken; [by apply (runs_put_app a x); try done; rewrite Ef; intros [? [=]]|].
      intros _ s' ->. split_and!; [done..| |by apply (keys_insert s a x)|done]. apply Forall_app_2.
      * eapply Forall_impl; [exact H2|]. intros a' (z & Hz & Hzf). unfold ready. cbn [set_appenders appenders].
        destruct (decide (a' = a)) as [->|Hne].
        -- rewrite list_lookup_insert_eq by done. eexists. by split.
        -- rewrite list_lookup_insert_ne by done. by exists z.
      * repeat constructor. unfold ready. cbn [set_appenders appenders]. rewrite list_lookup_insert_eq by done.
        eexists. by split.
  - intros _ s' Hok' _ (Hl' & Hr' & Happs & Hk & Ht). eapply runs_weaken.
    + apply (runs_put_logger l lg); [done|by rewrite Hl'| |done|by left]. split_and!; [done|done|]. by rewrite Hr'.
    + intros _ s2 ->. cbn. by rewrite Hl'.
Qed.

Lemma runs_getLogger n s : sys_ok s ->
  runs (getLogger n) s (fun l s' => m_loggers s' !! n = Some l /\ (l < length (loggers s'))%nat
    /\ appenders s' = appenders s /\ forall l', (l' < length (loggers s))%nat -> loggers s' !! l' = loggers s !! l').
Proof.
  intros Hok. unfold getLogger.
  eapply runs_bind with (P := fun a s' => a = s /\ s' = s); [by exists s, s; split_and!|]. intros ? s' _ _ [-> ->].
  destruct (m_loggers s !! n) as [l|] eqn:E.
  { destruct (ok_table s Hok n l E) as (lg & Hlg & _). apply runs_ret; [done|]. split_and!; [done|by eapply lookup_lt_Some|done|done]. }
  eapply runs_bind with (P := fun l s' => l = length (loggers s)
    /\ exists lg, s' = set_loggers (loggers s ++ [lg]) s /\ lg_name lg = n /\ logger_ok s lg).
  { eapply runs_bind; [by apply runs_formatter|]. intros f s' _ _ [-> _].
    eapply runs_weaken; [by apply runs_new_logger; [|split_and!; [by eexists|constructor|by left]]|].
    intros l s' [-> ->]. split; [done|]. eexists. split; [done|]. split; [done|].
    split_and!; [by eexists|constructor|by left]. }
  intros l s' Hok' _ (-> & lg & -> & Hname & Hlg).
  assert (loggers (set_loggers (loggers s ++ [lg]) s) !! length (loggers s) = Some lg) as Hat
    by (cbn; by rewrite list_lookup_middle).
  eapply runs_bind; [apply runs_logger_at; [done|by eapply lookup_lt_Some]|]. intros lg' s' _ _ (-> & Hlg' & Hlok).
  assert (lg' = lg) as -> by congruence. destruct Hlok as (H1 & H2 & H3).
  destruct (ok_root s Hok) as (rt & Hrt & _). pose proof (lookup_lt_Some _ _ _ Hrt) as Hlt.
  eapply runs_bind; [apply (runs_put_logger (length (loggers s)) lg); [done|done|by split_and!; [..|right]|done|right; cbn; lia]|].
  cbn [set_loggers loggers]. rewrite insert_app_r_alt, Nat.sub_diag by done. cbn [list_insert].
  intros _ s' Hok2 _ ->.
  eapply runs_bind with (P := fun _ s' => m_loggers s' !! n = Some (length (loggers s))
    /\ appenders s' = appenders s /\ exists lg', loggers s' = loggers s ++ [lg']).
  - eexists _, _. split; [done|]. split_and!.
    + destruct Hok2 as [O1 O2 O3 O4]. split; [done..| |done]. cbn. intros n' l Hl.
      destruct (decide (n' = n)) as [->|Hne].
      * rewrite lookup_insert_eq in Hl. injection Hl as <-. rewrite list_lookup_middle by done. eexists. by split.
      * rewrite lookup_insert_ne in Hl by done. by apply O3.
    + split; cbn; [done..|]. by apply insert_subseteq.
    + cbn. apply lookup_insert_eq.
    + done.
    + by eexists.
  - intros _ s' Hok3 _ (Hn & Happ & lg' & Hl'). apply runs_ret; [done|]. split; [done|]. rewrite Hl'. split_and!; [|done|].
    + rewrite length_app. cbn. lia.
    + intros l Hl. by apply lookup_app_l.
Qed.

(** ** Where an event goes *)

(** What of an appender decides where an event goes. *)
Definition view (x : LogAppender) : Sink * Level * option LogFormatter := (ap_sink x, ap_level x, ap_formatter x).
Definition views (s : LogSys) : list (Sink * Level * option LogFormatter) := map view (appenders s).

(** The text an appender writes for an event. *)
Definition deliver (v : list (Sink * Level * option LogFormatter)) (name : bytes) (level : Level) (e : LogEvent) (a : nat) :
    list (Sink * bytes) :=
  match v !! a with
  | Some (sink, lv, Some f) => if ge level lv then [(sink, LogFormatter_format strftime f name level e)] else []
  | _ => []
  end.

(** Only the times of the streams and the output change. *)
Definition quiet (s s' : LogSys) : Prop :=
  loggers s' = loggers s /\ views s' = views s /\ sys_ok s' /\ ext s s'.

Lemma quiet_trans s1 s2 s3 : quiet s1 s2 -> quiet s2 s3 -> quiet s1 s3.
Proof.
  intros (L1 & V1 & O1 & E1) (L2 & V2 & O2 & E2). split_and!; [congruence|congruence|done|by eapply ext_trans].
Qed.

Lemma views_lookup s a x : appenders s !! a = Some x -> views s !! a = Some (view x).
Proof. intros Ha. unfold views. rewrite list_lookup_fmap. by rewrite Ha. Qed.

Lemma ready_views s s' a : views s' = views s -> ready s a -> ready s' a.
Proof.
  intros Hv (x & Hx & Hf). apply views_lookup in Hx. rewrite <-Hv in Hx. unfold views in Hx.
  rewrite list_lookup_fmap in Hx. destruct (appenders s' !! a) as [y|] eqn:E; [|done].
  injection Hx as Hy _ Hyf. exists y. split; [done|]. by rewrite Hyf.
Qed.

(** The stream's time recorded. *)
Lemma stamp_quiet s a x t : sys_ok s -> appenders s !! a = Some x ->
  quiet s (set_appenders (<[a := app_with_stream t (m_filestream x) x]> (appenders s)) s).
Proof.
  intros Hok Ha. pose proof (ok_streams s Hok a x Ha) as Hst.
  destruct (runs_put_app a x (app_with_stream t (m_filestream x) x) s Hok Ha (fun H => H) Hst) as (u & s' & _ & Hok' & He & ->).
  split; [done|]. split; [|done]. unfold views. cbn [set_appenders appenders].
  change (map view) with (fmap (M := list) view). rewrite list_fmap_insert. apply list_insert_id.
  by rewrite list_lookup_fmap, Ha.
Qed.

Lemma LogAppender_log_spec a name level e s : sys_ok s -> ready s a ->
  exists s', LogAppender_log mkdir open strftime a name level e s = (Ok tt, s') /\ quiet s s'
  /\ out s' = out s ++ deliver (views s) name level e a.
Proof.
  intros Hok (x & Ha & [f Hf]). unfold deliver. rewrite (views_lookup s a x Ha). unfold view. rewrite Hf.
  unfold LogAppender_log. unfold mbind at 1, M_bind at 1. rewrite (app_at_eq a x s Ha).
  destruct (ge level (ap_level x)); cbn [negb].
  2: { exists s. rewrite app_nil_r. split; [done|]. split; [|done]. split; [done|]. split; [done|]. split; [done|apply ext_refl]. }
  assert (exists s1 x1, (match ap_sink x with
     | StdoutSink => mret ()
     | FileSink _ => if u64 (m_lastTime x + 3) <=? getTime e
                     then reopen mkdir open a;; x0 ← app_at a; put_app a (app_with_stream (getTime e) (m_filestream x0) x0)
                     else mret () end) s = (Ok tt, s1) /\ quiet s s1 /\ out s1 = out s /\ appenders s1 !! a = Some x1 /\ view x1 = view x)
    as (s1 & x1 & Hs1 & Hq & Ho & Ha1 & Hv1).
  { assert (quiet s s) as Hq by (split_and!; [done|done|done|apply ext_refl]).
    destruct (ap_sink x); [by exists s, x|]. destruct (_ <=? _); [|by exists s, x].
    pose proof (ok_streams s Hok a x Ha) as Hst. destruct (reopen_eq a x s Ha Hst) as [b Hb].
    unfold mbind, M_bind. rewrite Hb, (app_at_eq a x s Ha). eexists _, _. split; [done|].
    split; [by apply stamp_quiet|]. split; [done|]. cbn [set_appenders appenders].
    split; [by rewrite list_lookup_insert_eq by (by eapply lookup_lt_Some)|done]. }
  unfold mbind, M_bind in *. rewrite Hs1, (app_at_eq a x1 s1 Ha1).
  assert (ap_formatter x1 = Some f /\ ap_sink x1 = ap_sink x) as [Hf1 Hk1] by (injection Hv1; intros; by rewrite <-Hf).
  unfold deref. rewrite Hf1. unfold mret, M_ret. cbv beta iota.
  destruct Hq as (Q1 & Q2 & Q3 & Q4). rewrite (ok_streams s1 Q3 a x1 Ha1). unfold modify. rewrite Hk1.
  eexists. split; [done|]. split; [|cbn; by rewrite Ho].
  split; [done|]. split; [done|]. split; [by destruct Q3; split|]. by destruct Q4; split.
Qed.

Lemma log_all_spec apps name level e : forall s, sys_ok s -> Forall (ready s) apps ->
  exists s', log_all mkdir open strftime apps name level e s = (Ok tt, s') /\ quiet s s'
  /\ out s' = out s ++ concat (map (deliver (views s) name level e) apps).
Proof.
  induction apps as [|a apps IH]; intros s Hok Hr.
  - exists s. rewrite app_nil_r. split; [done|]. split; [|done]. split; [done|]. split; [done|]. split; [done|apply ext_refl].
  - apply Forall_cons in Hr as [Ha Hr]. cbn [log_all map concat].
    destruct (LogAppender_log_spec a name level e s Hok Ha) as (s1 & Hs1 & Hq1 & Ho1).
    pose proof Hq1 as (_ & Hv & Hok1 & _).
    destruct (IH s1 Hok1) as (s2 & Hs2 & Hq2 & Ho2).
    { eapply Forall_impl; [exact Hr|]. intros b Hb. by eapply ready_views. }
    exists s2. unfold mbind, M_bind. rewrite Hs1, Hs2. split; [done|]. split; [by eapply quiet_trans|].
    rewrite Ho2, Ho1, Hv. by rewrite <-app_assoc.
Qed.

(** What a logger with appenders writes. *)
Definition writes (s : LogSys) (lg : Logger) (level : Level) (e : LogEvent) : list (Sink * bytes) :=
  if ge level (lg_level lg) then concat (map (deliver (views s) (lg_name lg) level e) (m_appenders lg)) else [].

Lemma log_delivers_run l lg level e s :
  sys_ok s -> loggers s !! l = Some lg ->
  exists s', Logger_log mkdir open strftime 2 l level e s = (Ok tt, s') /\ quiet s s'
  /\ out s' = out s ++ match m_appenders lg, m_root lg with
                       | [], Some r => if ge level (lg_level lg)
                                       then match loggers s !! r with Some rt => writes s rt level e | None => [] end
                                       else []
                       | _, _ => writes s lg level e
                       end.
Proof.
  intros Hok Hl. assert (forall s, sys_ok s -> quiet s s) as Hqr by (intros; split_and!; [done..|apply ext_refl]).
  assert (forall l lg fuel, loggers s !! l = Some lg -> m_appenders lg <> [] \/ m_root lg = None ->
    exists s', Logger_log mkdir open strftime (S fuel) l level e s = (Ok tt, s') /\ quiet s s' /\ out s' = out s ++ writes s lg level e)
    as Hown.
  { intros l' lg' fuel Hl' Hcase. cbn [Logger_log]. unfold mbind, M_bind. rewrite (logger_at_eq l' lg' s Hl').
    unfold writes. destruct (ge level (lg_level lg')); cbn [negb].
    2: { exists s. rewrite app_nil_r. auto. }
    destruct (m_appenders lg') as [|a apps] eqn:Ea.
    - destruct Hcase as [|Hroot]; [done|]. rewrite Hroot. exists s. cbn. rewrite app_nil_r. auto.
    - rewrite <-Ea. apply log_all_spec; [done|]. apply (ok_loggers s Hok l' lg' Hl'). }
  destruct (m_appenders lg) as [|a apps] eqn:Ea; [destruct (m_root lg) as [r|] eqn:Er|].
  - destruct (ok_loggers s Hok l lg Hl) as (_ & _ & [Hn|Hr]); [congruence|].
    assert (r = mgr_root s) as -> by congruence. destruct (ok_root s Hok) as (rt & Hrt & Hnone).
    unfold Logger_log; fold (Logger_log mkdir open strftime). unfold mbind at 1, M_bind at 1.
    rewrite (logger_at_eq l lg s Hl), Ea, Er, Hrt. destruct (ge level (lg_level lg)); cbn [negb].
    + apply (Hown (mgr_root s) rt 0%nat); [done|by right].
    + exists s. rewrite app_nil_r. auto.
  - apply (Hown l lg 1%nat); [done|by right].
  - apply (Hown l lg 1%nat); [done|left; congruence].
Qed.

(** C26: provided that every log file can be opened, an event of at least the logger's
    level is written by each of the logger's appenders whose level it reaches, in their
    order and with the logger's name; a logger without appenders leaves it to the root,
    and below its level nothing is written.  Loggers and appenders stay as they are.
    Text for a file that cannot be opened is lost. *)
Theorem log_delivers l lg level e s :
  sys_ok s -> loggers s !! l = Some lg ->
  exists s', Logger_log mkdir open strftime 2 l level e s = (Ok tt, s') /\ quiet s s'
  /\ out s' = out s ++ match m_appenders lg, m_root lg with
                       | [], Some r => if ge level (lg_level lg)
                                       then match loggers s !! r with Some rt => writes s rt level e | None => [] end
                                       else []
                       | _, _ => writes s lg level e
                       end.
Proof. apply log_delivers_run. Qed.
End Safe.
