(* ===== verification/LogConfig.v ===== *)
(** * The logging configuration

    What the listener of the variable [logs] makes of the loggers, and the
    conversion of the configuration to YAML and back ([src/src/log.cc]). *)
From Stdlib Require Import String.
From S2P Require Import Prelude CString Util LogFormat ConfigCast Log LogSpec.
#[local] Open Scope string_scope.
#[local] Open Scope list_scope.
#[local] Open Scope Z_scope.

(** ** The appenders a configuration asks for

    [asked] is what it says, and [different] that no two of these have the same class and
    level.  [wanted] is what the code makes of it. *)

Definition add_key (k : Sink * bytes * Level) (acc : list (Sink * bytes * Level)) : list (Sink * bytes * Level) :=
  if existsb (fun k' => key_eqb k' k) acc then acc else acc ++ [k].

Definition file_key (a : LogAppenderDefine) : Sink * bytes * Level :=
  (FileSink (ad_file a), str "FileLogAppender", ad_level a).
Definition stdout_key (a : LogAppenderDefine) : Sink * bytes * Level :=
  (StdoutSink, str "StdoutLogAppender", ad_level a).

(** The appenders left after [operator==] has removed the equal ones, and for a
    daemon those for the standard output. *)
Definition wanted (daemon : bool) (defs : list LogAppenderDefine) (acc : list (Sink * bytes * Level)) :=
  fold_left (fun acc a => if ad_type a =? 1 then add_key (file_key a) acc
                          else if daemon then acc else add_key (stdout_key a) acc) defs acc.

Definition asked (daemon : bool) (defs : list LogAppenderDefine) : list (Sink * bytes * Level) :=
  concat (map (fun a => if ad_type a =? 1 then [file_key a] else if daemon then [] else [stdout_key a]) defs).

Fixpoint different (ks : list (Sink * bytes * Level)) : Prop :=
  match ks with [] => True | k :: ks => Forall (fun k' => key_eqb k k' = false) ks /\ different ks end.

Lemma key_eqb_refl k : key_eqb k k = true.
Proof. destruct k as [[[] n] v]; unfold key_eqb; cbn; by rewrite bytes_eqb_refl, bool_decide_eq_true_2. Qed.

Lemma different_split l k l' : different (l ++ k :: l') -> existsb (fun k' => key_eqb k' k) l = false.
Proof.
  induction l as [|x l IH]; [done|]. cbn. intros [Hf Hd]. rewrite IH by done.
  rewrite Forall_app, Forall_cons in Hf. destruct Hf as (_ & -> & _). done.
Qed.

(** What is wanted: all that was there, and of what is asked for only what is like
    something kept is left out. *)
Lemma wanted_spec daemon defs : forall acc, exists r, wanted daemon defs acc = acc ++ r /\ r `sublist_of` asked daemon defs
  /\ (forall k, k ∈ asked daemon defs -> exists k', k' ∈ acc ++ r /\ key_eqb k' k = true)
  /\ (different (acc ++ asked daemon defs) -> r = asked daemon defs).
Proof.
  induction defs as [|a defs IH]; intros acc.
  { exists []. cbn. rewrite app_nil_r. split_and!; try done. by intros k []%elem_of_nil. }
  assert (forall k, exists r, wanted daemon defs (add_key k acc) = acc ++ r /\ r `sublist_of` k :: asked daemon defs
    /\ (forall k0, k0 ∈ k :: asked daemon defs -> exists k', k' ∈ acc ++ r /\ key_eqb k' k0 = true)
    /\ (different (acc ++ k :: asked daemon defs) -> r = k :: asked daemon defs)) as Hk.
  { intros k. unfold add_key. destruct (existsb (fun k' => key_eqb k' k) acc) eqn:E.
    - destruct (IH acc) as (r & -> & Hs & Ha & Hd). exists r. split_and!; [done|by constructor| |].
      + intros k0 [->|Hin]%elem_of_cons; [|by apply Ha]. apply existsb_exists in E as (k' & Hin & Hk').
        exists k'. split; [|done]. apply elem_of_app. left. by apply list_elem_of_In.
      + intros Hdiff. by rewrite (different_split acc k _ Hdiff) in E.
    - destruct (IH (acc ++ [k])) as (r & -> & Hs & Ha & Hd). exists (k :: r). rewrite <-app_assoc in *.
      split_and!; [done|by constructor| |].
      + intros k0 [->|Hin]%elem_of_cons; [|by apply Ha]. exists k. split; [|apply key_eqb_refl].
        apply elem_of_app. right. apply elem_of_cons. by left.
      + intros Hdiff. f_equal. by apply Hd. }
  change (wanted daemon (a :: defs) acc) with (wanted daemon defs (if ad_type a =? 1 then add_key (file_key a) acc
    else if daemon then acc else add_key (stdout_key a) acc)).
  unfold asked. cbn [map concat]. fold (asked daemon defs).
  destruct (ad_type a =? 1); [apply Hk|]. destruct daemon; [apply IH|apply Hk].
Qed.

Definition types_ok (d : LogDefine) : Prop := Forall (fun a => ad_type a = 1 \/ ad_type a = 2) (ld_appenders d).

Lemma keys_of_prefix s s' apps : Forall (ready s) apps -> keys s `prefix_of` keys s' -> keys_of s' apps = keys_of s apps.
Proof.
  intros Hr [r Hp]. unfold keys_of. induction Hr as [|a apps (x & Hx & _) _ IH]; [done|]. cbn [omap list_omap].
  rewrite IH, Hp. apply keys_lookup in Hx. by rewrite (lookup_app_l_Some _ _ _ _ Hx), Hx.
Qed.

Lemma prefix_eq s s' : keys s' = keys s -> keys s `prefix_of` keys s'.
Proof. by intros ->. Qed.

Section Listener.
Context (mkdir : mkdir_answer) (open : FS -> bytes -> bool).
Hypothesis Hopen : forall f n, open f n = true.

(** A fresh appender set up and added. *)
Lemma runs_install l lg mk x0 a s : sys_ok s -> loggers s !! l = Some lg ->
  (forall s, mk s = new_app x0 s) -> m_filestream x0 = true ->
  runs (ap ← mk; LogAppender_setLevel ap (ad_level a);;
        (match ad_formatter a with
         | [] => mret ()
         | p => f ← lift (LogFormatter_new p); if m_error f then mret () else LogAppender_setFormatter ap (Some f)
         end);; addAppender l ap) s
    (fun _ s' => exists lg', loggers s' = <[l := lg']> (loggers s) /\ lg_level lg' = lg_level lg
       /\ lg_name lg' = lg_name lg /\ keys s `prefix_of` keys s'
       /\ keys_of s' (m_appenders lg') = add_key (ap_sink x0, ap_name x0, ad_level a) (keys_of s (m_appenders lg))).
Proof.
  intros Hok Hlg Hmk Hx0. set (k := (ap_sink x0, ap_name x0, ad_level a)).
  pose proof (ok_loggers s Hok l lg Hlg) as (_ & Hready & _).
  eapply runs_bind; [eapply runs_eq; [apply Hmk|]; by apply runs_new_app|]. intros ap s1 Hok1 _ [-> ->].
  set (ap := length (appenders s)).
  assert (forall y, appenders (set_appenders (appenders s ++ [y]) s) !! ap = Some y) as Hat
    by (intros y; cbn; by rewrite list_lookup_middle).
  assert (forall y z, set_appenders (<[ap := z]> (appenders (set_appenders (appenders s ++ [y]) s))) (set_appenders (appenders s ++ [y]) s)
    = set_appenders (appenders s ++ [z]) s) as Hset.
  { intros y z. unfold set_appenders. cbn. by rewrite insert_app_r_alt, Nat.sub_diag. }
  eapply runs_bind; [apply runs_app_setLevel; [done..|by eapply lookup_lt_Some]|].
  intros _ s2 Hok2 _ (x & Hx & ->). rewrite Hat in Hx. injection Hx as <-. rewrite Hset in *.
  eapply runs_bind with (P := fun _ s' => exists x2, s' = set_appenders (appenders s ++ [x2]) s /\ key x2 = k).
  { assert (runs (mret ()) (set_appenders (appenders s ++ [app_with_level (ad_level a) x0]) s)
      (fun _ s' => exists x2, s' = set_appenders (appenders s ++ [x2]) s /\ key x2 = k)) as Hret
      by (apply runs_ret; [done|by eexists]).
    destruct (ad_formatter a) as [|c p]; [done|].
    eapply runs_bind; [by apply runs_formatter|]. intros f s' _ _ [-> _]. destruct (m_error f); [done|].
    eapply runs_weaken; [apply runs_app_setFormatter; [done..|by eapply lookup_lt_Some]|].
    intros _ s' (x & Hx & ->). rewrite Hat in Hx. injection Hx as <-. rewrite Hset. by eexists. }
  intros _ s3 Hok3 _ (x2 & -> & Hk). set (s3 := set_appenders (appenders s ++ [x2]) s).
  assert (keys s3 = keys s ++ [k]) as Hkeys by (unfold keys; cbn; by rewrite map_app; cbn; rewrite Hk).
  assert (keys_of s3 (m_appenders lg) = keys_of s (m_appenders lg)) as Hof
    by (apply keys_of_prefix; [done|rewrite Hkeys; by eexists]).
  eapply runs_weaken; [apply (runs_addAppender l ap lg x2); [done|done|apply Hat]|]. intros _ s4 (Hl4 & Hk4 & _).
  exists (with_new s3 lg ap (key x2)). split; [done|]. rewrite Hk4, Hkeys. unfold with_new, add_key. rewrite Hof, Hk.
  assert (keys_of s4 (m_appenders lg) = keys_of s (m_appenders lg)) as Hof4
    by (apply keys_of_prefix; [done|rewrite Hk4, Hkeys; by eexists]).
  destruct (existsb _ _); (split; [done|split; [done|split; [by eexists|]]]); [done|].
  cbn [lg_with_appenders m_appenders]. unfold keys_of in *. rewrite omap_app, Hof4. f_equal. cbn [omap list_omap].
  rewrite Hk4, Hkeys. unfold ap, keys. by rewrite list_lookup_middle by (by rewrite length_map).
Qed.

Lemma runs_apply_appender daemon l lg a s : sys_ok s -> loggers s !! l = Some lg -> ad_type a = 1 \/ ad_type a = 2 ->
  runs (apply_appender mkdir open daemon l a) s
    (fun _ s' => exists lg', loggers s' = <[l := lg']> (loggers s) /\ lg_level lg' = lg_level lg
       /\ lg_name lg' = lg_name lg /\ keys s `prefix_of` keys s'
       /\ keys_of s' (m_appenders lg') = wanted daemon [a] (keys_of s (m_appenders lg))).
Proof.
  intros Hok Hlg Ht. unfold apply_appender, wanted. cbn [fold_left]. destruct (Z.eqb_spec (ad_type a) 1) as [_|Hn].
  - apply (runs_install l lg _ (mkApp (FileSink (ad_file a)) (str "FileLogAppender") DEBUG false None 0 true)); try done.
    intros s'. by apply FileLogAppender_new_eq.
  - destruct Ht as [|Ht]; [done|]. rewrite (proj2 (Z.eqb_eq _ 2) Ht). destruct daemon.
    + apply runs_ret; [done|]. exists lg. by rewrite list_insert_id.
    + by apply (runs_install l lg _ (mkApp StdoutSink (str "StdoutLogAppender") DEBUG false None 0 true)).
Qed.

Lemma runs_apply_appenders daemon l defs : forall lg s, sys_ok s -> loggers s !! l = Some lg ->
  Forall (fun a => ad_type a = 1 \/ ad_type a = 2) defs ->
  runs (each (apply_appender mkdir open daemon l) defs) s
    (fun _ s' => exists lg', loggers s' = <[l := lg']> (loggers s) /\ lg_level lg' = lg_level lg
       /\ lg_name lg' = lg_name lg /\ keys s `prefix_of` keys s'
       /\ keys_of s' (m_appenders lg') = wanted daemon defs (keys_of s (m_appenders lg))).
Proof.
  induction defs as [|a defs IH]; intros lg s Hok Hlg Ht; cbn [each].
  { apply runs_ret; [done|]. exists lg. by rewrite list_insert_id. }
  apply Forall_cons in Ht as [Ha Ht].
  eapply runs_bind; [by apply runs_apply_appender|]. intros _ s1 Hok1 _ (lg1 & H1 & H2 & H3 & H4 & H5).
  eapply runs_weaken; [apply (IH lg1 s1); [done| |done]|].
  { rewrite H1. apply list_lookup_insert_eq. by eapply lookup_lt_Some. }
  intros _ s2 (lg2 & G1 & G2 & G3 & G4 & G5). exists lg2. rewrite G1, H1, list_insert_insert_eq.
  split_and!; [done|congruence|congruence|by etransitivity|]. rewrite G5, H5. done.
Qed.

(** ** One logger *)

Definition applied (daemon : bool) (s : LogSys) (d : LogDefine) : Prop :=
  exists l lg, m_loggers s !! ld_name d = Some l /\ loggers s !! l = Some lg /\ lg_level lg = ld_level d
  /\ keys_of s (m_appenders lg) = wanted daemon (ld_appenders d) [].

Definition retired (s : LogSys) (d : LogDefine) : Prop :=
  exists l lg, m_loggers s !! ld_name d = Some l /\ loggers s !! l = Some lg /\ lg_level lg = UNKNOW /\ m_appenders lg = [].

(** A step that changes at most the logger named [n]. *)
Definition touches (n : bytes) (s s' : LogSys) : Prop :=
  keys s `prefix_of` keys s' /\ m_loggers s ⊆ m_loggers s'
  /\ forall n' l, n' <> n -> m_loggers s !! n' = Some l -> loggers s' !! l = loggers s !! l.

Lemma touches_configured n daemon s s' d : sys_ok s -> touches n s s' -> ld_name d <> n ->
  (applied daemon s d -> applied daemon s' d) /\ (retired s d -> retired s' d).
Proof.
  intros Hok (Hk & Ht & Hl) Hn. split; intros (l & lg & H1 & H2 & H3 & H4); exists l, lg;
    (split; [by eapply lookup_weaken|]); rewrite (Hl _ l Hn H1); split_and!; try done.
  rewrite <-H4. apply keys_of_prefix; [|done]. apply (ok_loggers s Hok l lg H2).
Qed.

Lemma touches_trans n s1 s2 s3 : touches n s1 s2 -> touches n s2 s3 -> touches n s1 s3.
Proof.
  intros (K1 & T1 & L1) (K2 & T2 & L2). split_and!; [by etransitivity|by etransitivity|].
  intros n' l Hn Hl. rewrite (L2 n' l Hn) by (by eapply lookup_weaken). by apply (L1 n').
Qed.

(** The address of another name is another address. *)
Lemma table_inj s n n' l l' : sys_ok s -> m_loggers s !! n = Some l -> m_loggers s !! n' = Some l' -> n <> n' -> l' <> l.
Proof.
  intros Hok Hn Hn' Hne ->. destruct (ok_table s Hok n l Hn) as (lg & H1 & H2).
  destruct (ok_table s Hok n' l Hn') as (lg' & H1' & H2'). congruence.
Qed.

Lemma touches_insert n s s' l lg : sys_ok s -> m_loggers s !! n = Some l -> ext s s' -> keys s `prefix_of` keys s' ->
  loggers s' = <[l := lg]> (loggers s) -> touches n s s'.
Proof.
  intros Hok Hn He Hk Hl. split_and!; [done|apply He|]. intros n' l' Hne Hn'. rewrite Hl.
  apply list_lookup_insert_ne. intros ->. eapply (table_inj s n n'); eauto.
Qed.

Lemma getLogger_touches n s : sys_ok s ->
  runs (getLogger n) s (fun l s' => m_loggers s' !! n = Some l /\ (l < length (loggers s'))%nat /\ touches n s s').
Proof.
  intros Hok. destruct (runs_getLogger n s Hok) as (l & s' & Hrun & Hok' & He & Hn & Hl & Happ & Hlog).
  exists l, s'. split_and!; try done. split_and!.
  - apply prefix_eq. unfold keys. by rewrite Happ.
  - apply He.
  - intros n' l' _ Hn'. apply Hlog. destruct (ok_table s Hok n' l' Hn') as (lg & Hlg & _). by eapply lookup_lt_Some.
Qed.

(** A change of the logger [l] named [n], in the run of a longer change. *)
Lemma runs_change {A} n l (m : M LogSys A) s Q : sys_ok s -> m_loggers s !! n = Some l ->
  runs m s (fun a s' => exists lg, loggers s' = <[l := lg]> (loggers s) /\ keys s `prefix_of` keys s' /\ Q a lg s') ->
  runs m s (fun a s' => m_loggers s' !! n = Some l /\ touches n s s' /\ exists lg, loggers s' !! l = Some lg /\ Q a lg s').
Proof.
  intros Hok Hn (a & s' & Hrun & Hok' & He & lg & Hl & Hk & HQ). exists a, s'. split_and!; try done.
  - eapply lookup_weaken; [done|apply He].
  - by eapply touches_insert.
  - exists lg. split; [|done]. rewrite Hl. apply list_lookup_insert_eq.
    destruct (ok_table s Hok n l Hn) as (x & Hx & _). by eapply lookup_lt_Some.
Qed.

Lemma runs_apply_define daemon old d s : sys_ok s -> types_ok d ->
  runs (apply_define mkdir open daemon old d) s (fun _ s' => touches (ld_name d) s s'
    /\ (find_def d old <> Some d -> applied daemon s' d)).
Proof.
  intros Hok Ht. assert (touches (ld_name d) s s) as Hrefl by (by split_and!).
  assert (runs (l ← getLogger (ld_name d); Logger_setLevel l (ld_level d);;
      (match ld_formatter d with [] => mret () | p => Logger_setFormatter l p end);;
      clearAppenders l;; each (apply_appender mkdir open daemon l) (ld_appenders d)) s
      (fun _ s' => touches (ld_name d) s s' /\ applied daemon s' d)) as Hchange.
  { eapply runs_bind; [by apply getLogger_touches|]. intros l s1 Hok1 _ (Hn1 & Hl1 & Ht1).
    eapply runs_bind; [apply (runs_change (ld_name d) l _ s1 (fun _ lg _ => lg_level lg = ld_level d)); [done..|]|].
    { eapply runs_weaken; [by apply runs_setLevel|]. intros _ s' (lg & _ & ->). by eexists. }
    intros _ s2 Hok2 _ (Hn2 & Ht2 & lg2 & Hl2 & Hv2). pose proof (lookup_lt_Some _ _ _ Hl2).
    eapply runs_bind with (P := fun _ s' => m_loggers s' !! ld_name d = Some l /\ touches (ld_name d) s2 s'
      /\ exists lg, loggers s' !! l = Some lg /\ lg_level lg = ld_level d).
    { destruct (ld_formatter d) as [|c p].
      - apply runs_ret; [done|]. split_and!; [done|by split_and!|by exists lg2].
      - apply (runs_change (ld_name d) l _ s2 (fun _ lg _ => lg_level lg = ld_level d)); [done..|].
        eapply runs_weaken; [by apply runs_setFormatter|]. intros _ s' (lg & f & Hlg & Hl' & Hk').
        eexists. split; [done|]. split; [by apply prefix_eq|]. cbn. congruence. }
    intros _ s3 Hok3 _ (Hn3 & Ht3 & lg3 & Hl3 & Hv3). pose proof (lookup_lt_Some _ _ _ Hl3).
    eapply runs_bind; [apply (runs_change (ld_name d) l _ s3 (fun _ lg _ => lg_level lg = ld_level d /\ m_appenders lg = [])); [done..|]|].
    { eapply runs_weaken; [by apply runs_clearAppenders|]. intros _ s' (lg & Hlg & ->). eexists. split; [done|].
      split; [done|]. cbn. split; [congruence|done]. }
    intros _ s4 Hok4 _ (Hn4 & Ht4 & lg4 & Hl4 & Hv4 & Hnil).
    eapply runs_weaken; [apply (runs_change (ld_name d) l _ s4 (fun _ lg s' => lg_level lg = ld_level d
      /\ keys_of s' (m_appenders lg) = wanted daemon (ld_appenders d) [])); [done..|]|].
    { eapply runs_weaken; [by apply (runs_apply_appenders daemon l (ld_appenders d) lg4)|].
      intros _ s' (lg & G1 & G2 & _ & G4 & G5). exists lg. rewrite Hnil in G5. split_and!; [done|done|congruence|done]. }
    intros _ s5 (Hn5 & Ht5 & lg5 & Hl5 & Hv5 & Hk5). split; [by eauto 10 using touches_trans|]. by exists l, lg5. }
  unfold apply_define. destruct (find_def d old) as [it|]; [destruct (decide (d = it)) as [<-|Hne]|].
  - apply runs_ret; [done|]. by split.
  - eapply runs_weaken; [exact Hchange|]. intros _ s' [H1 H2]. by split.
  - eapply runs_weaken; [exact Hchange|]. intros _ s' [H1 H2]. by split.
Qed.

Lemma runs_retire_define new d s : sys_ok s ->
  runs (retire_define new d) s (fun _ s' => (find_def d new <> None -> s' = s) /\ touches (ld_name d) s s'
    /\ (find_def d new = None -> retired s' d)).
Proof.
  intros Hok. unfold retire_define. destruct (find_def d new) as [it|].
  { apply runs_ret; [done|]. by split_and!. }
  eapply runs_bind; [by apply getLogger_touches|]. intros l s1 Hok1 _ (Hn1 & Hl1 & Ht1).
  eapply runs_bind; [apply (runs_change (ld_name d) l _ s1 (fun _ lg _ => lg_level lg = UNKNOW)); [done..|]|].
  { eapply runs_weaken; [by apply runs_setLevel|]. intros _ s' (lg & _ & ->). by eexists. }
  intros _ s2 Hok2 _ (Hn2 & Ht2 & lg2 & Hl2 & Hv2). pose proof (lookup_lt_Some _ _ _ Hl2).
  eapply runs_weaken; [apply (runs_change (ld_name d) l _ s2 (fun _ lg _ => lg_level lg = UNKNOW /\ m_appenders lg = [])); [done..|]|].
  { eapply runs_weaken; [by apply runs_clearAppenders|]. intros _ s' (lg & Hlg & ->). eexists. split; [done|].
    split; [done|]. cbn. split; [congruence|done]. }
  intros _ s3 (Hn3 & Ht3 & lg3 & Hl3 & Hv3 & Hnil). split_and!; [done|by eauto using touches_trans|].
  intros _. by exists l, lg3.
Qed.

(** ** The whole change *)

Lemma runs_apply_defines daemon old new : forall s, sys_ok s -> Forall types_ok new -> NoDup (map ld_name new) ->
  runs (each (apply_define mkdir open daemon old) new) s (fun _ s' =>
    (forall d, ld_name d ∉ map ld_name new -> (applied daemon s d -> applied daemon s' d) /\ (retired s d -> retired s' d))
    /\ (forall d, d ∈ new -> find_def d old <> Some d -> applied daemon s' d)).
Proof.
  induction new as [|d new IH]; intros s Hok Ht Hnd; cbn [each].
  { apply runs_ret; [done|]. split; [done|]. intros d Hd. by apply elem_of_nil in Hd. }
  apply Forall_cons in Ht as [Hd Ht]. apply NoDup_cons in Hnd as [Hd' Hnd].
  eapply runs_bind; [by apply (runs_apply_define daemon old d)|]. intros _ s1 Hok1 _ [Ht1 Hc1].
  eapply runs_weaken; [by apply (IH s1)|]. intros _ s2 [Hkeep Hnew]. split.
  - intros e He. cbn [map] in He. apply not_elem_of_cons in He as [He1 He2].
    destruct (touches_configured (ld_name d) daemon s s1 e Hok Ht1 He1), (Hkeep e He2). auto.
  - intros e He Hf. apply elem_of_cons in He as [->|He]; [|by apply Hnew].
    apply (Hkeep d); [done|]. by apply Hc1.
Qed.

Lemma runs_retire_defines daemon new old : forall s, sys_ok s -> NoDup (map ld_name old) ->
  runs (each (retire_define new) old) s (fun _ s' =>
    (forall d, find_def d new <> None -> applied daemon s d -> applied daemon s' d)
    /\ (forall d, ld_name d ∉ map ld_name old -> retired s d -> retired s' d)
    /\ (forall d, d ∈ old -> find_def d new = None -> retired s' d)).
Proof.
  induction old as [|d old IH]; intros s Hok Hnd; cbn [each].
  { apply runs_ret; [done|]. split_and!; [done|done|]. intros d Hd. by apply elem_of_nil in Hd. }
  apply NoDup_cons in Hnd as [Hd' Hnd].
  eapply runs_bind; [by apply (runs_retire_define new d)|]. intros _ s1 Hok1 _ (Hsame & Ht1 & Hr1).
  eapply runs_weaken; [by apply (IH s1)|]. intros _ s2 (Hkeep & Hkeepr & Hnew). split_and!.
  - intros e Hf Hc. apply Hkeep; [done|]. destruct (decide (ld_name e = ld_name d)) as [E|E].
    + unfold find_def in Hsame, Hf. rewrite <-E in Hsame. by rewrite Hsame.
    + by apply (touches_configured (ld_name d) daemon s s1 e Hok Ht1 E).
  - intros e He Hr. cbn [map] in He. apply not_elem_of_cons in He as [He1 He2]. apply Hkeepr; [done|].
    by apply (touches_configured (ld_name d) daemon s s1 e Hok Ht1 He1).
  - intros e He Hf. apply elem_of_cons in He as [->|He]; [|by apply Hnew]. apply Hkeepr; [done|]. by apply Hr1.
Qed.

Lemma find_def_self d new : d ∈ new -> find_def d new <> None.
Proof.
  intros Hd Hn. apply list_elem_of_In in Hd. pose proof (find_none _ _ Hn d Hd) as H. cbv beta in H. by rewrite bytes_eqb_refl in H.
Qed.

Lemma logs_changed_run daemon old new s :
  sys_ok s -> Forall types_ok new -> NoDup (map ld_name new) -> NoDup (map ld_name old) ->
  exists s', logs_changed mkdir open daemon old new s = (Ok tt, s') /\ sys_ok s' /\ ext s s'
  /\ (forall d, d ∈ new -> find_def d old <> Some d -> applied daemon s' d)
  /\ (forall d, d ∈ old -> find_def d new = None -> retired s' d).
Proof.
  intros Hok Ht Hnew Hold.
  destruct (runs_apply_defines daemon old new s Hok Ht Hnew) as ([] & s1 & Hrun1 & Hok1 & He1 & _ & Hc).
  destruct (runs_retire_defines daemon new old s1 Hok1 Hold) as ([] & s2 & Hrun2 & Hok2 & He2 & Hk & _ & Hr).
  exists s2. unfold logs_changed, mbind, M_bind. rewrite Hrun1, Hrun2. split_and!; [done|done|by eapply ext_trans| |done].
  intros d Hd Hf. apply Hk; [by apply find_def_self|by apply Hc].
Qed.

(** A logger as its definition says: its level, and only appenders that are asked for, in
    their order; all of them when no two are of the same class and level, and otherwise
    at least one of each class and level.  A daemon asks for no standard output. *)
Definition configured (daemon : bool) (s : LogSys) (d : LogDefine) : Prop :=
  exists l lg, m_loggers s !! ld_name d = Some l /\ loggers s !! l = Some lg /\ lg_level lg = ld_level d
  /\ keys_of s (m_appenders lg) `sublist_of` asked daemon (ld_appenders d)
  /\ (forall k, k ∈ asked daemon (ld_appenders d) -> exists k', k' ∈ keys_of s (m_appenders lg) /\ key_eqb k' k = true)
  /\ (different (asked daemon (ld_appenders d)) -> keys_of s (m_appenders lg) = asked daemon (ld_appenders d)).

Lemma applied_configured daemon s d : applied daemon s d -> configured daemon s d.
Proof.
  intros (l & lg & H1 & H2 & H3 & H4). exists l, lg. rewrite H4.
  destruct (wanted_spec daemon (ld_appenders d) []) as (r & -> & Hr). by split_and!; try apply Hr.
Qed.

(** C27: a change of the configuration of logging, provided that all log files can be
    opened and the types of all appenders are known.  Every logger that is new or
    changed in it gets its level and appenders that are asked for, in their order: all
    of them if no two have the same class and level (the standard output is not asked
    for by a daemon), otherwise one of each class and level.  Every logger that is gone
    from it has none, and the invariant holds.  That appenders of the same level are
    equal when their files differ is a bug: see [second_file_dropped]. *)
Theorem logs_changed_applies daemon old new s :
  sys_ok s -> Forall types_ok new -> NoDup (map ld_name new) -> NoDup (map ld_name old) ->
  exists s', logs_changed mkdir open daemon old new s = (Ok tt, s') /\ sys_ok s'
  /\ (forall d, d ∈ new -> find_def d old <> Some d -> configured daemon s' d)
  /\ (forall d, d ∈ old -> find_def d new = None -> retired s' d).
Proof.
  intros H1 H2 H3 H4. destruct (logs_changed_run daemon old new s H1 H2 H3 H4) as (s' & G1 & G2 & _ & G3 & G4).
  exists s'. split_and!; [done|done| |done]. intros d Hd Hf. by apply applied_configured, G3.
Qed.
End Listener.

(** ** Histories *)

Section History.
Context (mkdir : mkdir_answer) (open : FS -> bytes -> bool) (strftime : bytes -> Z -> bytes).

(** The operations of a program on the logging objects. *)
Inductive op :=
| OpGetLogger (name : bytes)
| OpStdout
| OpFile (file : bytes)
| OpAdd (l a : nat)
| OpDel (l a : nat)
| OpClear (l : nat)
| OpPattern (l : nat) (p : bytes)
| OpLevel (l : nat) (v : Level)
| OpFormatter (a : nat) (f : LogFormatter)
| OpAppLevel (a : nat) (v : Level)
| OpLog (l : nat) (e : LogEvent)
| OpConfig (daemon : bool) (old new : list LogDefine).

Definition run_op (o : op) : M LogSys unit :=
  match o with
  | OpGetLogger n => getLogger n;; mret ()
  | OpStdout => StdoutLogAppender_new;; mret ()
  | OpFile f => FileLogAppender_new mkdir open f;; mret ()
  | OpAdd l a => addAppender l a
  | OpDel l a => delAppender l a
  | OpClear l => clearAppenders l
  | OpPattern l p => Logger_setFormatter l p
  | OpLevel l v => Logger_setLevel l v
  | OpFormatter a f => LogAppender_setFormatter a (Some f)
  | OpAppLevel a v => LogAppender_setLevel a v
  | OpLog l e => LogEventWrap_log mkdir open strftime l e
  | OpConfig daemon old new => logs_changed mkdir open daemon old new
  end.

(** Pointers are to objects that exist; a configuration is a set of loggers. *)
Definition op_ok (s : LogSys) (o : op) : Prop :=
  match o with
  | OpGetLogger _ | OpStdout | OpFile _ => True
  | OpAdd l a | OpDel l a => (l < length (loggers s))%nat /\ (a < length (appenders s))%nat
  | OpClear l | OpPattern l _ | OpLevel l _ | OpLog l _ => (l < length (loggers s))%nat
  | OpFormatter a _ | OpAppLevel a _ => (a < length (appenders s))%nat
  | OpConfig _ old new => Forall types_ok new /\ NoDup (map ld_name new) /\ NoDup (map ld_name old)
  end.

Inductive reach (f : FS) : LogSys -> Prop :=
| reach_init s : LoggerManager_new f = (Ok tt, s) -> reach f s
| reach_step s o r s' : reach f s -> op_ok s o -> run_op o s = (r, s') -> reach f s'.

Lemma LoggerManager_ok f : exists s, LoggerManager_new f = (Ok tt, s) /\ sys_ok s.
Proof.
  destruct (LogFormatter_total default_pattern) as (p & Hp & _).
  unfold LoggerManager_new, Logger_new, lift. unfold mbind at 1 2, M_bind at 1 2. rewrite Hp.
  eexists. split; [reflexivity|]. split; cbn.
  - intros [|l] lg [= <-]. split_and!; [by eexists| |by left]. repeat constructor. by do 2 eexists.
  - eexists. split; reflexivity.
  - intros n l H. apply lookup_singleton_Some in H as [<- <-]. eexists. split; reflexivity.
  - intros [|a] x [= <-]. reflexivity.
Qed.

Hypothesis Hopen : forall f n, open f n = true.

Lemma op_runs o s : sys_ok s -> op_ok s o -> runs (run_op o) s (fun _ _ => True).
Proof.
  intros Hok Ho. destruct o; cbn [run_op op_ok] in *.
  - eapply runs_bind; [by apply runs_getLogger|]. intros. by apply runs_ret.
  - eapply runs_bind; [apply (proj2 (runs_appender_new mkdir open Hopen [] s Hok))|]. intros. by apply runs_ret.
  - eapply runs_bind; [apply (proj1 (runs_appender_new mkdir open Hopen file s Hok))|]. intros. by apply runs_ret.
  - destruct Ho as [Hl Ha]. destruct (lookup_lt_is_Some_2 _ _ Hl) as [lg Hlg], (lookup_lt_is_Some_2 _ _ Ha) as [x Hx].
    eapply runs_weaken; [by apply (runs_addAppender l a lg x)|done].
  - destruct Ho. eapply runs_weaken; [by apply runs_delAppender|done].
  - eapply runs_weaken; [by apply runs_clearAppenders|done].
  - eapply runs_weaken; [by apply runs_setFormatter|done].
  - eapply runs_weaken; [by apply runs_setLevel|done].
  - eapply runs_weaken; [by apply runs_app_setFormatter|done].
  - eapply runs_weaken; [by apply runs_app_setLevel|done].
  - eapply runs_bind; [by apply runs_logger_at|]. intros lg s' _ _ (-> & Hlg & _).
    destruct (_ <=? _); [|by apply runs_ret].
    destruct (log_delivers_run mkdir open strftime Hopen l lg (ev_level e) e s Hok Hlg) as (s' & Hrun & (_ & _ & Hok' & He) & _).
    by exists tt, s'.
  - destruct Ho as (Ht & Hn & Ho). destruct (logs_changed_run mkdir open Hopen daemon old new s) as (s' & Hrun & Hok' & He & _); [done..|].
    by exists tt, s'.
Qed.

(** C25: provided that every log file can be opened, whatever a program does with the
    loggers and appenders it has (creating them, adding and removing appenders, setting
    levels, patterns and formatters that are not null, logging, changing the
    configuration), the invariant holds and every further such operation returns: no
    formatter is missing when an event is logged, no object is used that does not
    exist.  A file that cannot be opened in a directory that is missing too is not
    covered: [OpenForWrite] then makes the directory from freed memory. *)
Theorem logging_always_safe f s o :
  reach f s -> sys_ok s /\ (op_ok s o -> exists s', run_op o s = (Ok tt, s') /\ sys_ok s').
Proof.
  intros Hr. assert (sys_ok s) as Hok.
  { induction Hr as [s Hs|s o' r s' _ IH Ho Hrun].
    - destruct (LoggerManager_ok f) as (s0 & H1 & H2). congruence.
    - destruct (op_runs o' s IH Ho) as (u & s2 & H1 & H2 & _). congruence. }
  split; [done|]. intros Ho. destruct (op_runs o s Hok Ho) as ([] & s' & H1 & H2 & _). by exists s'.
Qed.
End History.

(** ** Witnesses *)

Definition demo_fs : FS := mkFS ∅.
Definition yes (f : FS) (n : bytes) : bool := true.
Definition demo_sys : LogSys := snd (LoggerManager_new demo_fs).

Lemma demo_sys_ok : sys_ok demo_sys /\ LoggerManager_new demo_fs = (Ok tt, demo_sys).
Proof. unfold demo_sys. destruct (LoggerManager_ok demo_fs) as (s & -> & Hs). by split. Qed.

Definition demo_def : LogDefine :=
  mkDef (str "web") WARN (str "%m%n") [mkAppDef 1 UNKNOW [] (str "/tmp/a.log"); mkAppDef 2 ERROR [] []].

Lemma logs_changed_applies_witness :
  exists s', logs_changed yes yes false [] [demo_def] demo_sys = (Ok tt, s') /\ sys_ok s'
  /\ (forall d, d ∈ [demo_def] -> find_def d [] <> Some d -> configured false s' d)
  /\ (forall d, d ∈ @nil LogDefine -> find_def d [demo_def] = None -> retired s' d).
Proof.
  apply (logs_changed_applies yes yes (fun _ _ => eq_refl) false [] [demo_def] demo_sys).
  - exact (proj1 demo_sys_ok).
  - repeat constructor; (left; reflexivity) || (right; reflexivity).
  - repeat constructor. apply not_elem_of_nil.
  - constructor.
Defined.

Definition demo_event : LogEvent := mkEvent (str "a.cc") 7 0 1 2 0 (str "hello") (str "main") INFO.

Lemma logging_always_safe_witness :
  sys_ok demo_sys /\ (exists s', run_op yes yes (fun f _ => f) (OpLog 0 demo_event) demo_sys = (Ok tt, s') /\ sys_ok s').
Proof.
  destruct (logging_always_safe yes yes (fun f _ => f) (fun _ _ => eq_refl) demo_fs demo_sys (OpLog 0 demo_event))
    as [H1 H2].
  - apply reach_init. exact (proj2 demo_sys_ok).
  - split; [exact H1|]. apply H2. destruct (ok_root demo_sys H1) as (lg & Hlg & _). cbn.
    assert (mgr_root demo_sys = 0%nat) as E by (vm_compute; reflexivity). rewrite E in Hlg.
    exact (lookup_lt_Some _ _ _ Hlg).
Defined.

Lemma log_delivers_witness :
  exists lg s', loggers demo_sys !! 0%nat = Some lg
  /\ Logger_log yes yes (fun f _ => f) 2 0 INFO demo_event demo_sys = (Ok tt, s') /\ quiet demo_sys s'
  /\ out s' = writes (fun f _ => f) demo_sys lg INFO demo_event.
Proof.
  destruct (ok_root demo_sys (proj1 demo_sys_ok)) as (lg & Hlg & Hroot).
  assert (mgr_root demo_sys = 0%nat) as E by (vm_compute; reflexivity). rewrite E in Hlg.
  destruct (log_delivers yes yes (fun f _ => f) (fun _ _ => eq_refl) 0 lg INFO demo_event demo_sys (proj1 demo_sys_ok) Hlg)
    as (s' & H1 & H2 & H3).
  exists lg, s'. split; [exact Hlg|]. split; [exact H1|]. split; [exact H2|]. rewrite H3, Hroot.
  assert (out demo_sys = []) as -> by (vm_compute; reflexivity). by destruct (m_appenders lg).
Defined.

(** ** What configurations cannot say *)

(** Of two log files of one logger at the same level only the first is opened. *)
Lemma second_file_dropped f g level :
  wanted false [mkAppDef 1 level [] f; mkAppDef 1 level [] g] [] = [(FileSink f, str "FileLogAppender", level)].
Proof. unfold wanted, add_key, key_eqb. cbn. by rewrite bool_decide_eq_true_2. Qed.
