(* ===== verification/LogYaml.v ===== *)
(** * The logging configuration as YAML ([LexicalCast] of [src/src/log.cc])

    The conversions of [std::set<LogDefine>].  Access to keys and scalars of
    yaml-cpp is the typeclass [YamlAccess]. *)
From Stdlib Require Import String.
From stdpp Require Import sorting.
From S2P Require Import Prelude CString LogFormat ConfigCast Log.
#[local] Open Scope string_scope.
#[local] Open Scope list_scope.
#[local] Open Scope Z_scope.

(** [n["key"]] where [IsDefined()] holds and [as<std::string>()]; both may throw. *)
Class YamlAccess := {
  child : Node -> bytes -> option (option Node);
  as_string : Node -> option bytes
}.

(** The value of the first key with that text. *)
Definition find_key (k : bytes) (l : list (Node * Node)) : option Node :=
  option_map snd (find (fun kv => bytes_eqb (scalar_of kv.1) k) l).

Class AccessLaws `{YamlAccess} := {
  child_map l k : child (Map l) k = Some (find_key k l);
  as_string_scalar s : as_string (Scalar s) = Some s
}.

#[export] Instance LogDefine_less : Less LogDefine := fun x y => less (ld_name x) (ld_name y).

Section Yaml.
Context `{YamlCpp} `{YamlAccess}.

(** The text under a key that may be missing. *)
Definition text_or (n : Node) (k def : bytes) : option bytes :=
  c ← child n k; match c with Some x => as_string x | None => Some def end.

(** [src/src/log.cc:788-819 LexicalCast<std::string, std::set<LogDefine>>]
    One appender: an exception, nothing, or its definition. *)
Definition appender_from (a : Node) : option (option LogAppenderDefine) :=
  t ← child a (str "type");
  match t with
  | None => Some None
  | Some t =>
      type ← as_string t;
      if bytes_eqb type (str "FileLogAppender") then
        f ← child a (str "file");
        match f with
        | None => Some None
        | Some f =>
            file ← as_string f;
            fmt ← text_or a (str "formatter") [];
            Some (Some (mkAppDef 1 UNKNOW fmt file))
        end
      else if bytes_eqb type (str "StdoutLogAppender") then Some (Some (mkAppDef 2 UNKNOW [] []))
      else Some None
  end.

(** [src/src/log.cc:787-820 LexicalCast<std::string, std::set<LogDefine>>]
    The appenders from [x] on. *)
Fixpoint appenders_from (node : Node) (x n : nat) (acc : list LogAppenderDefine) : option (list LogAppenderDefine) :=
  match n with
  | O => Some acc
  | S n =>
      a ← appender_from (index node x);
      appenders_from node (S x) n (match a with Some a => acc ++ [a] | None => acc end)
  end.

(** [src/src/log.cc:766-824 LexicalCast<std::string, std::set<LogDefine>>]
    One logger. *)
Definition define_from (n : Node) : option (option LogDefine) :=
  nm ← child n (str "name");
  match nm with
  | None => Some None
  | Some nm =>
      name ← as_string nm;
      level ← text_or n (str "level") [];
      fmt ← text_or n (str "formatter") [];
      apps ← child n (str "appenders");
      l ← match apps with None => Some [] | Some apps => appenders_from apps 0 (size apps) [] end;
      Some (Some (mkDef name (Level_FromString level) fmt l))
  end.

Fixpoint defines_from (node : Node) (i n : nat) (acc : list LogDefine) : option (list LogDefine) :=
  match n with
  | O => Some acc
  | S n =>
      d ← define_from (index node i);
      defines_from node (S i) n (match d with Some d => set_insert d acc | None => acc end)
  end.

(** [src/src/log.cc:758-828 LexicalCast<std::string, std::set<LogDefine>>] *)
Definition logs_FromStr (v : bytes) : option (list LogDefine) :=
  node ← Load v; defines_from node 0 (size node) [].

(** [src/src/log.cc:847-863 LexicalCast<std::set<LogDefine>, std::string>] *)
Definition appender_node (a : LogAppenderDefine) : Node :=
  let na := Null in
  let na := if ad_type a =? 1 then set_node (set_node na (str "type") (Scalar (str "FileLogAppender"))) (str "file") (Scalar (ad_file a))
            else if ad_type a =? 2 then set_node na (str "type") (Scalar (str "StdoutLogAppender")) else na in
  let na := if decide (ad_level a = UNKNOW) then na else set_node na (str "level") (Scalar (Level_ToString (ad_level a))) in
  match ad_formatter a with [] => na | f => set_node na (str "formatter") (Scalar f) end.

(** [src/src/log.cc:837-865 LexicalCast<std::set<LogDefine>, std::string>]
    The formatter is written only when it is empty. *)
Definition define_node (i : LogDefine) : Node :=
  let n := set_node Null (str "name") (Scalar (ld_name i)) in
  let n := if decide (ld_level i = UNKNOW) then n else set_node n (str "level") (Scalar (Level_ToString (ld_level i))) in
  let n := match ld_formatter i with [] => set_node n (str "formatter") (Scalar []) | _ => n end in
  match ld_appenders i with
  | [] => n
  | l => set_node n (str "appenders") (fold_left (fun node a => push_back node (appender_node a)) l Null)
  end.

(** [src/src/log.cc:830-872 LexicalCast<std::set<LogDefine>, std::string>] *)
Definition logs_ToStr (v : list LogDefine) : option bytes :=
  Some (Emit (fold_left (fun node i => push_back node (define_node i)) v Null)).

(** ** What survives *)

(** The levels and, for the standard output, the formatters of appenders are not
    read; the formatters of loggers are not written. *)
Definition kept_appender (a : LogAppenderDefine) : LogAppenderDefine :=
  if ad_type a =? 1 then mkAppDef 1 UNKNOW (ad_formatter a) (ad_file a) else mkAppDef 2 UNKNOW [] [].
Definition kept (d : LogDefine) : LogDefine :=
  mkDef (ld_name d) (ld_level d) [] (map kept_appender (ld_appenders d)).

End Yaml.

Section Access.
Context `{YamlCpp} `{AccessLaws}.

(** Reading a map that was built by assigning to keys. *)
Definition mapish (n : Node) : Prop := match n with Null | Map _ => True | _ => False end.
Definition getk (n : Node) (k : bytes) : option Node := match n with Map l => find_key k l | _ => None end.

Lemma find_set_key k x k' l : find_key k' (set_key k x l) = if bytes_eqb k k' then Some x else find_key k' l.
Proof.
  unfold find_key. induction l as [|[kn y] l IH]; cbn [set_key find fst scalar_of]; [by destruct (bytes_eqb k k')|].
  destruct (bytes_eqb_spec (scalar_of kn) k) as [E|Hne]; cbn [find fst].
  - rewrite E. by destruct (bytes_eqb k k').
  - destruct (bytes_eqb_spec (scalar_of kn) k') as [<-|]; [|done].
    by destruct (bytes_eqb_spec k (scalar_of kn)).
Qed.

Lemma set_node_mapish n k x : mapish (set_node n k x).
Proof. by destruct n. Qed.

Lemma getk_set n k x k' : mapish n -> getk (set_node n k x) k' = if bytes_eqb k k' then Some x else getk n k'.
Proof.
  intros Hn. destruct n; try done; cbn [set_node getk]; [|apply find_set_key].
  unfold find_key. cbn [find fst scalar_of]. by destruct (bytes_eqb k k').
Qed.

Lemma child_set n k x k' : child (set_node n k x) k' = Some (getk (set_node n k x) k').
Proof. destruct n; apply child_map. Qed.

End Access.

(** Evaluate a key of a map built by assignments. *)
Ltac keys :=
  repeat first
    [ rewrite child_set
    | rewrite getk_set by (exact I || apply set_node_mapish)
    | rewrite as_string_scalar
    | match goal with |- context [bytes_eqb (str ?x) (str ?y)] =>
        let b := eval vm_compute in (bytes_eqb (str x) (str y)) in change (bytes_eqb (str x) (str y)) with b end
    | progress cbn [mbind option_bind getk] ].

Section Kept.
Context `{YamlLaws} `{AccessLaws}.

Lemma appender_kept a : ad_type a = 1 \/ ad_type a = 2 -> appender_from (appender_node a) = Some (Some (kept_appender a)).
Proof.
  intros Ht. unfold appender_from, appender_node, kept_appender, text_or.
  destruct Ht as [-> | ->]; cbn [Z.eqb Pos.eqb];
    destruct (decide (ad_level a = UNKNOW)), (ad_formatter a); keys; done.
Qed.

Lemma fold_push {A} (f : A -> Node) l : forall pre,
  fold_left (fun node a => push_back node (f a)) l (seq_of pre) = seq_of (pre ++ map f l).
Proof.
  induction l as [|a l IH]; intros pre; cbn [fold_left map]; [rewrite app_nil_r; by destruct pre|].
  rewrite (cons_middle (f a)), app_assoc, <-IH. by destruct pre.
Qed.

Lemma index_at pre (n : Node) rest : index (Sequence (pre ++ n :: rest)) (length pre) = n.
Proof. apply index_sequence. by apply list_lookup_middle. Qed.

(** Reading a sequence of appenders each of which can be read. *)
Lemma appenders_read ns ds : Forall2 (fun n d => appender_from n = Some (Some d)) ns ds -> forall pre acc,
  appenders_from (Sequence (pre ++ ns)) (length pre) (length ns) acc = Some (acc ++ ds).
Proof.
  induction 1 as [|n d ns ds Hn _ IH]; intros pre acc; cbn [appenders_from length]; [by rewrite app_nil_r|].
  rewrite index_at, Hn. cbn [mbind option_bind]. specialize (IH (pre ++ [n]) (acc ++ [d])).
  rewrite length_app, Nat.add_1_r, <-!app_assoc in IH. exact IH.
Qed.

Lemma appenders_kept l : Forall (fun a => ad_type a = 1 \/ ad_type a = 2) l ->
  Forall2 (fun n d => appender_from n = Some (Some d)) (map appender_node l) (map kept_appender l).
Proof. induction 1; cbn; constructor; [by apply appender_kept|done]. Qed.

Lemma define_kept d : Forall (fun a => ad_type a = 1 \/ ad_type a = 2) (ld_appenders d) ->
  define_from (define_node d) = Some (Some (kept d)).
Proof.
  intros Ht. unfold define_from, define_node, kept, text_or.
  assert (forall (a : LogAppenderDefine) l, l = ld_appenders d -> l <> [] ->
    appenders_from (Sequence (map appender_node l)) 0 (size (Sequence (map appender_node l))) [] = Some (map kept_appender l)) as Happs.
  { intros _ l -> _. rewrite size_sequence. by apply (appenders_read _ _ (appenders_kept _ Ht) [] []). }
  destruct (ld_appenders d) as [|a l].
  - destruct (decide (ld_level d = UNKNOW)) as [->|Hl], (ld_formatter d); keys; rewrite ?Level_roundtrip; done.
  - change (fold_left _ (a :: l) Null) with (fold_left (fun node a => push_back node (appender_node a)) (a :: l) (seq_of [])).
    rewrite (fold_push appender_node (a :: l) []). cbn [app map seq_of].
    specialize (Happs a (a :: l) eq_refl ltac:(done)). cbn [map] in Happs.
    destruct (decide (ld_level d = UNKNOW)) as [->|Hl], (ld_formatter d); keys;
      rewrite Happs; cbn [mbind option_bind]; rewrite ?Level_roundtrip; done.
Qed.

(** Reading a sequence of loggers in the order of their names. *)
Lemma defines_read ns ds : Forall2 (fun n d => define_from n = Some (Some d)) ns ds -> forall pre acc,
  ascending (acc ++ ds) -> defines_from (Sequence (pre ++ ns)) (length pre) (length ns) acc = Some (acc ++ ds).
Proof.
  induction 1 as [|n d ns ds Hn _ IH]; intros pre acc Hs; cbn [defines_from length]; [by rewrite app_nil_r|].
  rewrite index_at, Hn. cbn [mbind option_bind]. rewrite set_insert_max.
  - specialize (IH (pre ++ [n]) (acc ++ [d])).
    rewrite length_app, Nat.add_1_r, <-!app_assoc in IH. by apply IH.
  - apply Forall_forall. intros y Hy. apply (StronglySorted_app_1_elem_of _ _ _ y d Hs Hy). by left.
Qed.

(** A text with that sequence. *)
Lemma logs_read ns ds : Forall2 (fun n d => define_from n = Some (Some d)) ns ds -> ascending ds ->
  logs_FromStr (Emit (seq_of ns)) = Some ds.
Proof.
  intros Hd Hs. unfold logs_FromStr. rewrite load_emit. cbn [mbind option_bind].
  pose proof (defines_read ns ds Hd [] [] Hs) as Hr. destruct Hd; cbn [seq_of]; [by rewrite size_null|].
  rewrite size_sequence. exact Hr.
Qed.

Lemma ascending_kept l : ascending l -> ascending (map kept l).
Proof.
  induction 1 as [|d l _ IH Hd]; cbn; constructor; [done|].
  apply Forall_forall. intros y Hy. apply list_elem_of_In, in_map_iff in Hy as (z & <- & Hz).
  rewrite Forall_forall in Hd. by apply (Hd z), list_elem_of_In.
Qed.

(** A logging configuration written as YAML and read back keeps the loggers,
    their levels and their appenders with files and file formatters, and loses
    exactly the formatters of loggers, the levels of appenders and the formatters
    of those for the standard output. *)
Theorem logs_yaml_keeps l :
  ascending l -> Forall (fun d => Forall (fun a => ad_type a = 1 \/ ad_type a = 2) (ld_appenders d)) l ->
  exists s, logs_ToStr l = Some s /\ logs_FromStr s = Some (map kept l).
Proof.
  intros Hs Ht. unfold logs_ToStr. eexists. split; [done|]. change Null with (seq_of []). rewrite (fold_push define_node l []). cbn [app].
  apply logs_read; [|by apply ascending_kept]. clear Hs.
  induction Ht; cbn; constructor; [by apply define_kept|done].
Qed.
End Kept.

(** ** A witness *)

Module PlainAccess.
Import Plain.

#[export] Instance plain_access : YamlAccess := {
  child n k := Some (match n with Map l => find_key k l | _ => None end);
  as_string n := match n with Scalar s => Some s | _ => None end
}.
#[export] Instance plain_access_laws : AccessLaws.
Proof. by constructor. Qed.

Definition demo_logs : list LogDefine :=
  [mkDef (str "root") INFO (str "%m%n") [mkAppDef 1 WARN (str "%d %m") (str "a.log"); mkAppDef 2 ERROR [] []];
   mkDef (str "web") UNKNOW [] []].

Lemma logs_yaml_keeps_witness : exists s, logs_ToStr demo_logs = Some s /\ logs_FromStr s = Some (map kept demo_logs).
Proof.
  apply (logs_yaml_keeps demo_logs).
  - repeat constructor; vm_compute; reflexivity.
  - repeat constructor; (left; reflexivity) || (right; reflexivity).
Defined.
End PlainAccess.
