(* ===== verification/LogDump.v ===== *)
(** * The text of the logging system ([toYamlString] of [src/src/log.cc])

    Loggers, appenders and their manager as YAML, and what the configuration
    loader reads back from it ([manager_dump_reads]). *)
From Stdlib Require Import String.
From stdpp Require Import sorting.
From S2P Require Import Prelude CString Util LogFormat ConfigCast Log LogSpec LogConfig LogYaml.
#[local] Open Scope string_scope.
#[local] Open Scope list_scope.
#[local] Open Scope Z_scope.

Section Dump.
Context `{YamlCpp}.

(** An exception of yaml-cpp. *)
Definition of_yaml {A} (o : option A) : M LogSys A :=
  match o with Some a => mret a | None => fail (Throw invalid_argument) end.

Definition level_key (n : Node) (v : Level) : Node :=
  if decide (v = UNKNOW) then n else set_node n (str "level") (Scalar (Level_ToString v)).

Definition formatter_key (n : Node) (f : option LogFormatter) : Node :=
  match f with Some f => set_node n (str "formatter") (Scalar (m_pattern f)) | None => n end.

(** [src/src/log.cc:259-274 FileLogAppender::toYamlString]
    The node that is written. *)
Definition FileLogAppender_node (x : LogAppender) (file : bytes) : Node :=
  let node := set_node (set_node Null (str "type") (Scalar (str "FileLogAppender"))) (str "file") (Scalar file) in
  let node := level_key node (ap_level x) in
  formatter_key node (if m_hasFormatter x then ap_formatter x else None).

(** [src/src/log.cc:333-347 StdoutLogAppender::toYamlString]
    The node that is written. *)
Definition StdoutLogAppender_node (x : LogAppender) : Node :=
  let node := set_node Null (str "type") (Scalar (str "StdoutLogAppender")) in
  let node := level_key node (ap_level x) in
  formatter_key node (if m_hasFormatter x then ap_formatter x else None).

Definition appender_node_of (x : LogAppender) : Node :=
  match ap_sink x with FileSink f => FileLogAppender_node x f | StdoutSink => StdoutLogAppender_node x end.

(** The virtual [toYamlString] of an appender. *)
Definition LogAppender_toYamlString (a : nat) : M LogSys bytes :=
  x ← app_at a; mret (Emit (appender_node_of x)).

(** [node[k].push_back(x)] *)
Definition push_under (k : bytes) (n x : Node) : Node :=
  set_node n k (push_back (match n with Map l => default Null (find_key k l) | _ => Null end) x).

(** [src/src/log.cc:162-164 Logger::toYamlString] *)
Fixpoint push_appenders (node : Node) (apps : list nat) : M LogSys Node :=
  match apps with
  | [] => mret node
  | a :: apps =>
      text ← LogAppender_toYamlString a;
      x ← of_yaml (Load text);
      push_appenders (push_under (str "appenders") node x) apps
  end.

(** [src/src/log.cc:149-168 Logger::toYamlString] *)
Definition Logger_toYamlString (l : nat) : M LogSys bytes :=
  x ← logger_at l;
  let node := set_node Null (str "name") (Scalar (lg_name x)) in
  let node := level_key node (lg_level x) in
  let node := formatter_key node (lg_formatter x) in
  node ← push_appenders node (m_appenders x);
  mret (Emit node).

(** The entries of the manager's [std::map], in the order of their names. *)
Definition sorted_loggers (t : gmap bytes nat) : list (bytes * nat) := foldr map_insert [] (map_to_list t).

(** [src/src/log.cc:957-959 LoggerManager::toYamlString] *)
Fixpoint push_loggers (node : Node) (l : list (bytes * nat)) : M LogSys Node :=
  match l with
  | [] => mret node
  | i :: l =>
      text ← Logger_toYamlString i.2;
      x ← of_yaml (Load text);
      push_loggers (push_back node x) l
  end.

(** [src/src/log.cc:952-963 LoggerManager::toYamlString] *)
Definition LoggerManager_toYamlString : M LogSys bytes :=
  s ← get;
  node ← push_loggers Null (sorted_loggers (m_loggers s));
  mret (Emit node).
End Dump.

(** ** What the text says *)

(** An appender as the configuration describes it: the loader reads neither the
    levels of appenders nor the formatters of those for the standard output. *)
Definition app_described (x : LogAppender) : LogAppenderDefine :=
  match ap_sink x with
  | FileSink f =>
      mkAppDef 1 UNKNOW
        (if m_hasFormatter x then match ap_formatter x with Some f => m_pattern f | None => [] end else []) f
  | StdoutSink => mkAppDef 2 UNKNOW [] []
  end.

Definition described (s : LogSys) (lg : Logger) : LogDefine :=
  mkDef (lg_name lg) (lg_level lg) (match lg_formatter lg with Some f => m_pattern f | None => [] end)
    (map app_described (omap (fun a => appenders s !! a) (m_appenders lg))).

(** The loggers of the manager, in the order of their names. *)
Definition managed (s : LogSys) : list Logger :=
  omap (fun e => loggers s !! e.2) (sorted_loggers (m_loggers s)).

Section Sorted.
Context {T : Type}.
Implicit Types l : list (bytes * T).

Lemma map_insert_spec (kv : bytes * T) l : ascending (map fst l) -> kv.1 ∉ map fst l ->
  map_insert kv l ≡ₚ kv :: l /\ ascending (map fst (map_insert kv l)).
Proof.
  induction l as [|y l IH]; intros Hs Hn; [split; [done|by repeat constructor]|]. cbn [map_insert].
  cbn [map] in *. apply not_elem_of_cons in Hn as [Hne Hn]. inversion Hs as [|? ? Hs' Hy]; subst.
  destruct (less y.1 kv.1) eqn:E1.
  - destruct (IH Hs' Hn) as [Hp Ha]. split; [rewrite Hp; apply Permutation_swap|].
    cbn [map]. constructor; [done|]. rewrite Hp. cbn [map]. by constructor.
  - destruct (less kv.1 y.1) eqn:E2.
    + split; [done|]. cbn [map]. constructor; [done|]. constructor; [done|].
      eapply Forall_impl; [exact Hy|]. intros z Hz. by eapply less_trans.
    + exfalso. apply Hne. symmetry. by apply lexlt_total.
Qed.

Lemma foldr_insert l : NoDup (map fst l) ->
  foldr map_insert [] l ≡ₚ l /\ ascending (map fst (foldr map_insert [] l)).
Proof.
  induction l as [|y l IH]; cbn [foldr map]; intros Hn; [split; [done|constructor]|].
  apply NoDup_cons in Hn as [Hy Hn]. destruct (IH Hn) as [Hp Ha].
  destruct (map_insert_spec y (foldr map_insert [] l) Ha) as [Hq Hb]; [by rewrite Hp|].
  split; [|done]. by rewrite Hq, Hp.
Qed.
End Sorted.

Lemma sorted_loggers_spec (t : gmap bytes nat) :
  sorted_loggers t ≡ₚ map_to_list t /\ ascending (map fst (sorted_loggers t)).
Proof. apply foldr_insert, NoDup_fst_map_to_list. Qed.

Section Reads.
Context `{YamlLaws} `{AccessLaws}.

Lemma appender_described x : appender_from (appender_node_of x) = Some (Some (app_described x)).
Proof.
  unfold appender_from, appender_node_of, FileLogAppender_node, StdoutLogAppender_node, app_described, text_or,
    level_key, formatter_key.
  destruct (ap_sink x); destruct (decide (ap_level x = UNKNOW)), (m_hasFormatter x), (ap_formatter x); keys; done.
Qed.

Lemma appender_text s a x : appenders s !! a = Some x ->
  LogAppender_toYamlString a s = (Ok (Emit (appender_node_of x)), s).
Proof. intros Ha. unfold LogAppender_toYamlString, app_at. mstep. by rewrite Ha. Qed.

Notation APPS := (str "appenders").

(** Pushing the appenders under their key leaves the other keys. *)
Lemma push_appenders_spec s apps : Forall (ready s) apps -> forall n pre,
  mapish n -> default Null (getk n APPS) = seq_of pre ->
  exists n', push_appenders n apps s = (Ok n', s) /\ mapish n'
    /\ (forall k, bytes_eqb APPS k = false -> getk n' k = getk n k)
    /\ (apps = [] -> n' = n)
    /\ (apps <> [] -> getk n' APPS
         = Some (Sequence (pre ++ map appender_node_of (omap (fun a => appenders s !! a) apps)))).
Proof.
  induction 1 as [|a apps (x & Ha & _) _ IH]; intros n pre Hn Hpre; [by exists n|].
  cbn [push_appenders]. unfold mbind at 1, M_bind at 1. rewrite (appender_text s a x Ha). unfold of_yaml.
  rewrite load_emit. mstep. unfold push_under.
  replace (match n with Map l => default Null (find_key APPS l) | _ => Null end) with (default Null (getk n APPS))
    by (by destruct n).
  rewrite Hpre, push_back_seq.
  destruct (IH (set_node n APPS (seq_of (pre ++ [appender_node_of x]))) (pre ++ [appender_node_of x]))
    as (n' & Hrun & Hm & Hk & Hnil & Happs).
  { apply set_node_mapish. }
  { rewrite getk_set by done. by rewrite bytes_eqb_refl. }
  exists n'. split_and!; try done.
  - intros k Hne. rewrite Hk, getk_set, Hne by done. done.
  - intros _. cbn [omap list_omap]. rewrite Ha. cbn [map]. destruct apps as [|b apps].
    + rewrite (Hnil eq_refl), getk_set, bytes_eqb_refl by done. by destruct pre.
    + rewrite Happs by done. by rewrite <-app_assoc.
Qed.

Lemma all_ready s apps : Forall (ready s) apps -> length (omap (fun a => appenders s !! a) apps) = length apps.
Proof. induction 1 as [|a apps (x & Ha & _) _ IH]; [done|]. cbn. rewrite Ha. cbn. by rewrite IH. Qed.

(** The text of a logger is read back as its definition. *)
Lemma logger_described s l lg : sys_ok s -> loggers s !! l = Some lg ->
  exists n, Logger_toYamlString l s = (Ok (Emit n), s) /\ define_from n = Some (Some (described s lg)).
Proof.
  intros Hok Hl. destruct (ok_loggers s Hok l lg Hl) as ([f Hf] & Hready & _).
  unfold Logger_toYamlString, logger_at. mstep. rewrite Hl. mstep. rewrite Hf. cbn [formatter_key].
  set (n0 := set_node _ (str "formatter") _).
  assert (mapish n0) as Hm by apply set_node_mapish.
  assert (getk n0 APPS = None) as Hnone by (unfold n0, level_key; destruct (decide (lg_level lg = UNKNOW)); keys; done).
  destruct (push_appenders_spec s (m_appenders lg) Hready n0 [] Hm) as (n & Hrun & Hmn & Hk & Hnil & Happs);
    [by rewrite Hnone|].
  rewrite Hrun. exists n. split; [done|]. unfold define_from, text_or.
  assert (forall k, child n k = Some (getk n k)) as Hchild.
  { assert (n0 <> Null) as Hn0 by (unfold n0; by destruct (level_key _ _)).
    intros k. destruct n; try done; [|apply child_map]. destruct (m_appenders lg); [by rewrite (Hnil eq_refl) in Hn0|].
    by specialize (Happs ltac:(done)). }
  rewrite !Hchild. rewrite (Hk (str "name")), (Hk (str "level")), (Hk (str "formatter")) by reflexivity.
  assert (getk n0 (str "name") = Some (Scalar (lg_name lg))
    /\ getk n0 (str "formatter") = Some (Scalar (m_pattern f))
    /\ getk n0 (str "level") = if decide (lg_level lg = UNKNOW) then None else Some (Scalar (Level_ToString (lg_level lg))))
    as (-> & -> & ->).
  { unfold n0, level_key. destruct (decide (lg_level lg = UNKNOW)); (split; [|split]); keys; done. }
  cbn [mbind option_bind]. rewrite !as_string_scalar. cbn [mbind option_bind]. unfold described. rewrite Hf.
  assert (exists t, (match (if decide (lg_level lg = UNKNOW) then None else Some (Scalar (Level_ToString (lg_level lg)))) with
      | Some x => as_string x | None => Some [] end) = Some t /\ Level_FromString t = lg_level lg) as (t & -> & <-).
  { destruct (decide (lg_level lg = UNKNOW)) as [->|]; [by exists []|]. rewrite as_string_scalar.
    eexists. split; [done|]. apply Level_roundtrip. }
  cbn [mbind option_bind]. destruct (decide (m_appenders lg = [])) as [Hempty|Hne].
  - rewrite Hempty in *. rewrite (Hnil eq_refl), Hnone. done.
  - rewrite (Happs Hne). cbn [app]. set (xs := omap _ _).
    assert (Forall2 (fun n d => appender_from n = Some (Some d)) (map appender_node_of xs) (map app_described xs)) as Hxs
      by (clearbody xs; induction xs; [constructor|]; cbn; constructor; [apply appender_described|done]).
    pose proof (appenders_read _ _ Hxs [] []) as Hread. cbn [app length] in Hread.
    rewrite size_sequence, Hread. done.
Qed.

Lemma push_loggers_spec s l : sys_ok s -> Forall (fun e => is_Some (loggers s !! e.2)) l -> forall pre,
  exists ns, push_loggers (seq_of pre) l s = (Ok (seq_of (pre ++ ns)), s)
    /\ Forall2 (fun n d => define_from n = Some (Some d)) ns (map (described s) (omap (fun e => loggers s !! e.2) l)).
Proof.
  intros Hok. induction 1 as [|e l [lg Hl] _ IH]; intros pre; [exists []; by rewrite app_nil_r|].
  destruct (logger_described s e.2 lg Hok Hl) as (n & Hrun & Hd). cbn [push_loggers].
  unfold mbind at 1, M_bind at 1. rewrite Hrun. unfold of_yaml. rewrite load_emit. mstep. rewrite push_back_seq.
  destruct (IH (pre ++ [n])) as (ns & Hr & Hf). exists (n :: ns). split; [by rewrite Hr, <-app_assoc|].
  cbn. rewrite Hl. by constructor.
Qed.

(** The text of the logging system can always be made, leaves the system as it
    is, and is read by the configuration loader as one definition per logger, in
    the order of their names, with its name, level and pattern and its appenders
    in order, with the files and patterns of those that write to files. *)
Theorem manager_dump_reads s : sys_ok s -> exists text,
  LoggerManager_toYamlString s = (Ok text, s) /\ logs_FromStr text = Some (map (described s) (managed s)).
Proof.
  intros Hok. destruct (sorted_loggers_spec (m_loggers s)) as [Hp Hs].
  assert (forall e, e ∈ sorted_loggers (m_loggers s) -> exists lg, loggers s !! e.2 = Some lg /\ lg_name lg = e.1) as Hent.
  { intros [name l] He. rewrite Hp in He. apply elem_of_map_to_list in He. by apply (ok_table s Hok). }
  destruct (push_loggers_spec s (sorted_loggers (m_loggers s)) Hok) with (pre := @nil Node) as (ns & Hrun & Hd).
  { apply Forall_forall. intros e He. destruct (Hent e He) as (lg & -> & _). done. }
  unfold LoggerManager_toYamlString. mstep. cbn [app seq_of] in Hrun. rewrite Hrun. eexists. split; [done|].
  apply logs_read; [done|]. unfold managed. clear Hrun Hd Hp.
  induction (sorted_loggers (m_loggers s)) as [|e l IH]; [constructor|]. inversion Hs as [|? ? Hs' He]; subst.
  destruct (Hent e ltac:(left)) as (lg & Hl & Hn). cbn. rewrite Hl. cbn.
  assert (forall e0, e0 ∈ l -> exists lg0, loggers s !! e0.2 = Some lg0 /\ lg_name lg0 = e0.1) as Hent'
    by (intros e0 He0; apply Hent; by right).
  constructor; [by apply IH|]. clear IH Hs Hs' Hent.
  induction l as [|e0 l IH]; [constructor|]. apply Forall_cons in He as [He0 He].
  destruct (Hent' e0 ltac:(left)) as (lg0 & Hl0 & Hn0). cbn. rewrite Hl0. cbn. constructor.
  - unfold less, LogDefine_less. cbn. rewrite Hn, Hn0. exact He0.
  - apply IH; [done|]. intros e1 He1. apply Hent'. by right.
Qed.
End Reads.

Section Witness.
Import Plain PlainAccess.

Lemma manager_dump_reads_witness : exists text,
  LoggerManager_toYamlString demo_sys = (Ok text, demo_sys)
  /\ logs_FromStr text = Some [mkDef (str "root") DEBUG default_pattern [mkAppDef 2 UNKNOW [] []]].
Proof. apply (manager_dump_reads demo_sys). exact (proj1 demo_sys_ok). Defined.
End Witness.
