(* ===== verification/Socket.v ===== *)
(** * Sockets ([src/src/socket.cc])

    A socket object on top of the hooked system calls: the state is the event
    loop and the descriptor contexts with the kernel's descriptors.  What the
    kernel answers to [socket], [bind], [connect], [listen], [accept] and to the
    questions for addresses is an argument of the operation that asks. *)
From S2P Require Import Prelude FdManager IOManager IOManagerSpec Hook.

Definition SOCK_STREAM : Z := 1.
Definition SOCK_DGRAM : Z := 2.
Definition PF_UNIX : Z := 1.
Definition PF_INET : Z := 2.
Definition PF_INET6 : Z := 10.
Definition SO_REUSEADDR : Z := 2.
Definition IPPROTO_TCP : Z := 6.
Definition TCP_NODELAY : Z := 1.

(** Addresses, with [getFamily()] and [UnknowAddress]. *)
Class AddressOps (A : Type) := { getFamily : A -> Z; UnknowAddress : Z -> A }.

(** [src/include/sylar/socket.hh:366-374 Socket] *)
Record Sock (A : Type) := mkSock {
  m_sock : Z; m_family : Z; m_type : Z; m_protocol : Z; m_isConnected : bool;
  m_localAddress : option A; m_remoteAddress : option A
}.
Arguments mkSock {A}. Arguments m_sock {A}. Arguments m_family {A}. Arguments m_type {A}. Arguments m_protocol {A}.
Arguments m_isConnected {A}. Arguments m_localAddress {A}. Arguments m_remoteAddress {A}.

Section Sockets.
Context {C A : Type} `{AddressOps A}.
(** Whether the thread hooks its calls, has an event loop, and whether
    [epoll_ctl] succeeds. *)
Context (hook iom allow : bool).
Notation W := (IOManager C * FdManager)%type.
Implicit Types sk : Sock A.

Definition on_fm {B} (m : M FdManager B) : M W B := fun '(io, fm) => let '(r, fm') := m fm in (r, (io, fm')).
Definition on_io {B} (m : M (IOManager C) B) : M W B := fun '(io, fm) => let '(r, io') := m io in (r, (io', fm)).

Definition set_sock (fd : Z) (c : bool) sk : Sock A :=
  mkSock fd (m_family sk) (m_type sk) (m_protocol sk) c (m_localAddress sk) (m_remoteAddress sk).
Definition set_local (a : option A) sk : Sock A :=
  mkSock (m_sock sk) (m_family sk) (m_type sk) (m_protocol sk) (m_isConnected sk) a (m_remoteAddress sk).
Definition set_remote (a : option A) sk : Sock A :=
  mkSock (m_sock sk) (m_family sk) (m_type sk) (m_protocol sk) (m_isConnected sk) (m_localAddress sk) a.

(** [src/src/socket.cc:70-73 Socket::Socket] *)
Definition Socket_new (family type protocol : Z) : Sock A := mkSock (-1) family type protocol false None None.

(** [src/src/socket.cc:430-430 Socket::isVaild] *)
Definition isVaild sk : bool := negb (m_sock sk =? -1).

(** [src/src/socket.cc:120-130 Socket::setOption]
    The effect of [setsockopt] on the contexts; [sec] and [usec] matter for the
    timeouts only, and the kernel accepts the option. *)
Definition setOption (level option sec usec : Z) sk : M FdManager unit :=
  setsockopt_timeout hook (m_sock sk) level option sec usec.

(** [src/src/socket.cc:462-469 Socket::initSock] *)
Definition initSock sk : M FdManager unit :=
  setOption SOL_SOCKET SO_REUSEADDR 0 0 sk;;
  if (m_type sk =? SOCK_STREAM) && ((m_family sk =? PF_INET) || (m_family sk =? PF_INET6))
  then setOption IPPROTO_TCP TCP_NODELAY 0 0 sk else mret ().

(** The kernel opens a socket at the number it answers. *)
Definition kernel_opens (fd : Z) : M FdManager unit :=
  if fd =? -1 then mret () else modify (fun s => set_kernel (<[fd := mkFile true 2]> (kernel s)) s).

(** [src/src/socket.cc:471-482 Socket::newSock]
    [ans] is what the kernel answers to [socket]. *)
Definition newSock (ans : Z) sk : M FdManager (Sock A) :=
  kernel_opens ans;;
  fd ← hook_socket hook ans;
  let sk := set_sock fd (m_isConnected sk) sk in
  (if negb (fd =? -1) then initSock sk else mret ());;
  mret sk.

(** [src/src/socket.cc:14-18 Socket::CreateTCP] *)
Definition CreateTCP (address : A) : Sock A := Socket_new (getFamily address) SOCK_STREAM 0.

(** [src/src/socket.cc:20-27 Socket::CreateUDP] *)
Definition CreateUDP (ans : Z) (address : A) : M FdManager (Sock A) :=
  sk ← newSock ans (Socket_new (getFamily address) SOCK_DGRAM 0);
  mret (set_sock (m_sock sk) true sk).

(** [src/src/socket.cc:29-33 Socket::CreateTCPSocket] *)
Definition CreateTCPSocket : Sock A := Socket_new PF_INET SOCK_STREAM 0.
(** [src/src/socket.cc:35-42 Socket::CreateUDPSocket] *)
Definition CreateUDPSocket (ans : Z) : M FdManager (Sock A) :=
  sk ← newSock ans (Socket_new PF_INET SOCK_DGRAM 0); mret (set_sock (m_sock sk) true sk).
(** [src/src/socket.cc:44-48 Socket::CreateTCPSocket6] *)
Definition CreateTCPSocket6 : Sock A := Socket_new PF_INET6 SOCK_STREAM 0.
(** [src/src/socket.cc:50-56 Socket::CreateUDPSocket6] *)
Definition CreateUDPSocket6 (ans : Z) : M FdManager (Sock A) :=
  sk ← newSock ans (Socket_new PF_INET6 SOCK_DGRAM 0); mret (set_sock (m_sock sk) true sk).
(** [src/src/socket.cc:58-62 Socket::CreateUnixTCPSocket] *)
Definition CreateUnixTCPSocket : Sock A := Socket_new PF_UNIX SOCK_STREAM 0.
(** [src/src/socket.cc:64-68 Socket::CreateUnixUDPSocket] *)
Definition CreateUnixUDPSocket : Sock A := Socket_new PF_UNIX SOCK_DGRAM 0.

(** [src/src/socket.cc:86-90 Socket::setSendTimeout] *)
Definition setSendTimeout (v : Z) sk : M FdManager unit :=
  setOption SOL_SOCKET SO_SNDTIMEO (s32 (v ÷ 1000)) (s32 (Z.rem v 1000 * 1000)) sk.

(** [src/src/socket.cc:101-105 Socket::setRecvTimeout] *)
Definition setRecvTimeout (v : Z) sk : M FdManager unit :=
  setOption SOL_SOCKET SO_RCVTIMEO (s32 (v ÷ 1000)) (s32 (Z.rem v 1000 * 1000)) sk.

(** [src/src/socket.cc:77-84 Socket::getSendTimeout] *)
Definition getSendTimeout sk : M FdManager Z :=
  ctx ← FdManager_get (m_sock sk) false;
  mret (match ctx with Some c => s64 (getTimeout SO_SNDTIMEO c) | None => -1 end).

(** [src/src/socket.cc:92-99 Socket::getRecvTimeout] *)
Definition getRecvTimeout sk : M FdManager Z :=
  ctx ← FdManager_get (m_sock sk) false;
  mret (match ctx with Some c => s64 (getTimeout SO_RCVTIMEO c) | None => -1 end).

(** [src/src/socket.cc:378-418 Socket::getLocalAddress]
    [name] is what [getsockname] fills in, nothing if it fails. *)
Definition getLocalAddress (name : option A) sk : A * Sock A :=
  match m_localAddress sk, name with
  | Some a, _ => (a, sk)
  | None, None => (UnknowAddress (m_family sk), sk)
  | None, Some a => (a, set_local (Some a) sk)
  end.

(** [src/src/socket.cc:341-376 Socket::getRemoteAddress] *)
Definition getRemoteAddress (name : option A) sk : A * Sock A :=
  match m_remoteAddress sk, name with
  | Some a, _ => (a, sk)
  | None, None => (UnknowAddress (m_family sk), sk)
  | None, Some a => (a, set_remote (Some a) sk)
  end.

(** [src/src/socket.cc:484-496 Socket::init] *)
Definition Socket_init (sock : Z) (local remote : option A) sk : M FdManager (bool * Sock A) :=
  ctx ← FdManager_get sock false;
  if managed ctx then
    let sk := set_sock sock true sk in
    initSock sk;;
    let sk := snd (getLocalAddress local sk) in
    let sk := snd (getRemoteAddress remote sk) in
    mret (true, sk)
  else mret (false, sk).

(** [src/src/socket.cc:132-147 Socket::accept]
    [newsock] is what the original [accept] returned. *)
Definition Socket_accept (newsock : Z) (local remote : option A) sk : M FdManager (option (Sock A)) :=
  let sock := Socket_new (m_family sk) (m_type sk) (m_protocol sk) in
  kernel_opens newsock;;
  fd ← hook_accept newsock;
  if fd =? -1 then mret None else
  '(ok, sock) ← Socket_init fd local remote sock;
  mret (if ok : bool then Some sock else None).

(** [src/src/socket.cc:149-172 Socket::bind] *)
Definition Socket_bind (ans : Z) (bound : bool) (local : option A) (addr : A) sk : M FdManager (bool * Sock A) :=
  sk ← (if negb (isVaild sk) then newSock ans sk else mret sk);
  if negb (isVaild sk) then mret (false, sk) else
  if negb (getFamily addr =? m_family sk) then mret (false, sk) else
  if negb bound then mret (false, sk) else
  mret (true, snd (getLocalAddress local sk)).

(** [src/src/socket.cc:221-233 Socket::listen] *)
Definition Socket_listen (listens : bool) sk : bool := if negb (isVaild sk) then false else listens.

(** [src/src/socket.cc:235-248 Socket::close] *)
Definition Socket_close sk : M W (bool * Sock A) :=
  if negb (m_isConnected sk) && (m_sock sk =? -1) then mret (true, sk) else
  let sk := set_sock (m_sock sk) false sk in
  if negb (m_sock sk =? -1) then
    hook_close hook iom allow (m_sock sk);;
    mret (false, set_sock (-1) false sk)
  else mret (false, sk).

(** [src/src/socket.cc:174-219 Socket::connect]
    [connected] is whether [connect] or [connect_with_timeout] returns 0. *)
Definition Socket_connect (ans : Z) (connected : bool) (local remote : option A) (addr : A) sk : M W (bool * Sock A) :=
  sk ← on_fm (if negb (isVaild sk) then newSock ans sk else mret sk);
  if negb (isVaild sk) then mret (false, sk) else
  if negb (getFamily addr =? m_family sk) then mret (false, sk) else
  if negb connected then
    '(_, sk) ← Socket_close sk;
    mret (false, sk)
  else
    let sk := set_sock (m_sock sk) true sk in
    let sk := snd (getRemoteAddress remote sk) in
    let sk := snd (getLocalAddress local sk) in
    mret (true, sk).

(** [src/src/socket.cc:420-428 Socket::getError]
    [ans] is the error [getsockopt] reports, or the [errno] of its failure. *)
Definition getError (ans : Z + Z) : Z := match ans with inl error => error | inr errno => errno end.

(** [src/src/socket.cc:448-451 Socket::cancelRead] *)
Definition cancelRead sk : M W bool := on_io (cancelEvent allow (m_sock sk) READ).
(** [src/src/socket.cc:452-455 Socket::cancelWrite] *)
Definition cancelWrite sk : M W bool := on_io (cancelEvent allow (m_sock sk) WRITE).
(** [src/src/socket.cc:456-459 Socket::cancelAccept] *)
Definition cancelAccept sk : M W bool := on_io (cancelEvent allow (m_sock sk) READ).
(** [src/src/socket.cc:460-460 Socket::cancelAll] *)
Definition Socket_cancelAll sk : M W bool := on_io (cancelAll allow (m_sock sk)).
End Sockets.

(** ** Timeouts *)

Section SocketSpec.
Context {C A : Type} `{AddressOps A}.
Implicit Types sk : Sock A.

(** The seconds and microseconds of a number of milliseconds add up again. *)
Lemma timeval_roundtrip v : 0 <= v < 2 ^ 31 * 1000 -> s32 (v ÷ 1000) * 1000 + s32 (Z.rem v 1000 * 1000) ÷ 1000 = v.
Proof.
  intros Hv. rewrite Z.quot_div_nonneg, Z.rem_mod_nonneg by lia.
  pose proof (Z.div_mod v 1000 ltac:(lia)). pose proof (Z.mod_pos_bound v 1000 ltac:(lia)).
  rewrite s32_small by (split; [apply Z.div_pos; lia|apply Z.div_lt_upper_bound; lia]).
  rewrite s32_small by lia. rewrite Z.quot_mul by lia. lia.
Qed.

Lemma set_timeout_spec t v sk fm c : 0 <= m_sock sk -> ctx_at fm (m_sock sk) = Some c -> 0 <= v < 2 ^ 31 * 1000 ->
  t = SO_RCVTIMEO \/ t = SO_SNDTIMEO ->
  exists fm', setOption true SOL_SOCKET t (s32 (v ÷ 1000)) (s32 (Z.rem v 1000 * 1000)) sk fm = (Ok tt, fm')
  /\ ctx_at fm' (m_sock sk) = Some (setTimeout t v c) /\ kernel fm' = kernel fm
  /\ forall fd, 0 <= fd -> fd <> m_sock sk -> ctx_at fm' fd = ctx_at fm fd.
Proof.
  intros Hfd Hc Hv Ht. unfold setOption, setsockopt_timeout. cbn [negb].
  replace ((SOL_SOCKET =? SOL_SOCKET) && ((t =? SO_RCVTIMEO) || (t =? SO_SNDTIMEO))) with true
    by (by destruct Ht as [-> | ->]).
  unfold mbind, M_bind. rewrite (get_existing fm _ false c) by done. eexists. split; [done|].
  rewrite timeval_roundtrip by done. split; [by apply ctx_at_update|]. split; [done|].
  intros fd Hfd' Hne. unfold ctx_at, update_ctx. cbn [set_datas m_datas].
  rewrite (proj2 (Z.ltb_ge fd 0)) by lia. rewrite list_lookup_alter_ne by lia. done.
Qed.

(** C38: a timeout set on a socket is the timeout read back and the one a blocking
    call waits for, for all values an [int] of seconds can hold; the other timeout
    and the other descriptors are not affected. *)
Theorem timeouts_roundtrip v w sk fm c :
  0 <= m_sock sk -> ctx_at fm (m_sock sk) = Some c -> 0 <= v < 2 ^ 31 * 1000 -> 0 <= w < 2 ^ 31 * 1000 ->
  exists fm1 fm2 c', setRecvTimeout true v sk fm = (Ok tt, fm1) /\ setSendTimeout true w sk fm1 = (Ok tt, fm2)
  /\ getRecvTimeout sk fm2 = (Ok v, fm2) /\ getSendTimeout sk fm2 = (Ok w, fm2)
  /\ ctx_at fm2 (m_sock sk) = Some c' /\ getTimeout SO_RCVTIMEO c' = v /\ getTimeout SO_SNDTIMEO c' = w
  /\ forall fd, 0 <= fd -> fd <> m_sock sk -> ctx_at fm2 fd = ctx_at fm fd.
Proof.
  intros Hfd Hc Hv Hw.
  destruct (set_timeout_spec SO_RCVTIMEO v sk fm c Hfd Hc Hv (or_introl eq_refl)) as (fm1 & H1 & Hc1 & _ & Ho1).
  destruct (set_timeout_spec SO_SNDTIMEO w sk fm1 _ Hfd Hc1 Hw (or_intror eq_refl)) as (fm2 & H2 & Hc2 & _ & Ho2).
  assert (forall x, 0 <= x < 2 ^ 31 * 1000 -> s64 x = x /\ u64 x = x) as Hx.
  { intros x Hx. unfold s64, sgn, u64. split; [|rewrite Z.mod_small; lia].
    rewrite Z.mod_small by lia. lia. }
  set (c' := setTimeout SO_SNDTIMEO w (setTimeout SO_RCVTIMEO v c)) in *.
  assert (getTimeout SO_RCVTIMEO c' = v) as Gv by exact (proj2 (Hx v Hv)).
  assert (getTimeout SO_SNDTIMEO c' = w) as Gw by exact (proj2 (Hx w Hw)).
  clearbody c'. exists fm1, fm2, c'. split; [exact H1|]. split; [exact H2|].
  unfold getRecvTimeout, getSendTimeout. unfold mbind, M_bind.
  rewrite !(get_existing fm2 _ false c' Hfd Hc2), Gv, Gw, (proj1 (Hx v Hv)), (proj1 (Hx w Hw)).
  split_and!; try done. intros fd Hfd' Hne. rewrite Ho2 by done. by apply Ho1.
Qed.

(** ** Descriptors come and go *)

(** Contexts are kept for open descriptors only. *)
Definition fm_ok (fm : FdManager) : Prop :=
  (64 <= length (m_datas fm))%nat
  /\ forall fd, 0 <= fd -> is_Some (ctx_at fm fd) -> is_Some (kernel fm !! fd).

(** A run that leaves the other descriptors alone. *)
Definition only_at (fd : Z) (fm fm' : FdManager) : Prop :=
  (length (m_datas fm) <= length (m_datas fm'))%nat
  /\ forall fd', 0 <= fd' -> fd' <> fd -> ctx_at fm' fd' = ctx_at fm fd' /\ kernel fm' !! fd' = kernel fm !! fd'.

Lemma only_at_refl fd fm : only_at fd fm fm.
Proof. by split. Qed.

Lemma only_at_trans fd f1 f2 f3 : only_at fd f1 f2 -> only_at fd f2 f3 -> only_at fd f1 f3.
Proof.
  intros [L1 H1] [L2 H2]. split; [lia|]. intros fd' H0 Hne.
  destruct (H1 fd' H0 Hne), (H2 fd' H0 Hne). split; congruence.
Qed.

Lemma FdCtx_new_frame fd fm c fm' : FdCtx_new fd fm = (c, fm') ->
  m_datas fm' = m_datas fm /\ forall fd', fd' <> fd -> kernel fm' !! fd' = kernel fm !! fd'.
Proof.
  unfold FdCtx_new, FdCtx_init. cbn [m_isInit m_fd]. unfold k_getfl, k_setfl.
  destruct (kernel fm !! fd) as [f|]; [|by intros [= _ <-]].
  destruct (k_socket f && _); cbn [snd]; intros [= _ <-]; [|done]. split; [done|].
  intros fd' Hne. cbn. by rewrite lookup_insert_ne.
Qed.

Lemma resize_ctx n d i : (length d <= n)%nat ->
  match resize n d !! i with Some c => c | None => None end = match d !! i with Some c => c | None => None end.
Proof.
  intros Hn. unfold resize. rewrite (take_ge d n) by done. destruct (decide (i < length d)%nat) as [Hi|Hi].
  - by rewrite lookup_app_l.
  - rewrite lookup_app_r, (lookup_ge_None_2 d i) by lia. destruct (repeat None (n - length d) !! (i - length d)%nat) as [c|] eqn:E; [|done].
    by apply list_elem_of_lookup_2, list_elem_of_In, repeat_spec in E.
Qed.

Lemma get_frame fd fm r fm' : 0 <= fd -> (64 <= length (m_datas fm))%nat ->
  FdManager_get fd true fm = (Ok r, fm') -> only_at fd fm fm'.
Proof.
  intros Hfd H64. unfold FdManager_get. rewrite (proj2 (Z.eqb_neq fd (-1))) by lia.
  unfold mbind, M_bind, get, put. rewrite (proj2 (Z.ltb_ge fd 0)) by lia. cbv zeta beta iota.
  assert (forall c f, FdCtx_new fd fm = (c, f) -> forall n, (length (m_datas fm) <= n)%nat -> (Z.to_nat fd < n)%nat ->
    only_at fd fm (set_datas (<[Z.to_nat fd := Some c]> (resize n (m_datas fm))) f)) as Hput.
  { intros c f Hnew n Hn Hlt. destruct (FdCtx_new_frame fd fm c f Hnew) as [Hd Hk]. split.
    - cbn. rewrite length_insert. unfold resize. rewrite length_app, length_take, repeat_length. lia.
    - intros fd' H0 Hne. split; [|by apply Hk]. unfold ctx_at. rewrite (proj2 (Z.ltb_ge fd' 0)) by lia.
      cbn [set_datas m_datas]. rewrite list_lookup_insert_ne by lia. by apply resize_ctx. }
  assert (forall d : list (option FdCtx), resize (length d) d = d) as Hid.
  { intros d. unfold resize. by rewrite take_ge, Nat.sub_diag, app_nil_r by lia. }
  destruct (FdCtx_new fd fm) as [c f] eqn:Hnew. destruct (FdCtx_new_frame fd fm c f Hnew) as [Hd Hk].
  specialize (Hput c f eq_refl).
  destruct (Z.leb_spec (Z.of_nat (length (m_datas fm))) fd) as [Hge|Hlt].
  - assert (fd + 1 <= fd * 3 / 2) by (apply Z.div_le_lower_bound; lia).
    assert (Z.of_nat (length (resize (Z.to_nat (fd * 3 / 2)) (m_datas fm))) > fd) as Hlen
      by (unfold resize; rewrite length_app, length_take, repeat_length; lia).
    rewrite Hnew. cbv beta iota. rewrite Hd, (proj2 (Z.leb_le (Z.of_nat (length (m_datas fm))) fd)) by lia.
    rewrite (proj2 (Z.leb_gt _ fd)) by lia. intros [= _ <-]. apply Hput; lia.
  - destruct (lookup_lt_is_Some_2 (m_datas fm) (Z.to_nat fd)) as [o E]; [lia|]. unfold deref. rewrite E.
    unfold mret, M_ret. cbv beta iota. destruct o as [c'|]; [intros [= _ <-]; apply only_at_refl|].
    rewrite Hnew. cbv beta iota. rewrite Hd, !(proj2 (Z.leb_gt (Z.of_nat (length (m_datas fm))) fd)) by lia.
    intros [= _ <-]. rewrite <-(Hid (m_datas fm)) at 1. apply Hput; lia.
Qed.

Lemma initSock_quiet sk fm : initSock true sk fm = (Ok tt, fm).
Proof. unfold initSock. mstep. by destruct (_ && _). Qed.

(** Opening: a descriptor the kernel does not use becomes a hooked socket. *)
Lemma newSock_opens fd sk fm : fm_ok fm -> 0 <= fd -> kernel fm !! fd = None ->
  exists fm' c, newSock true fd sk fm = (Ok (set_sock fd (m_isConnected sk) sk), fm') /\ fm_ok fm' /\ only_at fd fm fm'
  /\ ctx_at fm' fd = Some c /\ managed (Some c) = true /\ is_Some (kernel fm' !! fd).
Proof.
  intros [H64 Hctx] Hfd Hk.
  assert (ctx_at fm fd = None) as Hnone.
  { apply eq_None_not_Some. intros Hc. destruct (Hctx fd Hfd Hc). congruence. }
  unfold newSock, kernel_opens, hook_socket. rewrite (proj2 (Z.eqb_neq fd (-1))) by lia. cbn [negb].
  set (fm1 := set_kernel (<[fd := mkFile true 2]> (kernel fm)) fm).
  destruct (get_creates fm1 fd 2 Hfd H64 Hnone) as (fm2 & Hrun & Hc2 & Hk2); [cbn; by rewrite lookup_insert_eq|].
  assert (only_at fd fm1 fm2) as Hfr by (by eapply get_frame).
  assert (only_at fd fm fm1) as Hfr1.
  { split; [done|]. intros fd' _ Hne. cbn. split; [done|]. by rewrite lookup_insert_ne. }
  unfold mbind, M_bind, modify. cbv beta iota. fold fm1. rewrite Hrun. unfold mret, M_ret. cbv beta iota zeta.
  rewrite (proj2 (Z.eqb_neq fd (-1))) by lia. cbn [negb]. rewrite initSock_quiet. eexists _, _. split; [done|]. split; [|split; [by eapply only_at_trans|by rewrite Hk2]].
  pose proof (only_at_trans _ _ _ _ Hfr1 Hfr) as [Hl Hfr2]. split; [lia|].
  intros fd' H0 Hs. destruct (decide (fd' = fd)) as [->|Hne]; [by rewrite Hk2|].
  destruct (Hfr2 fd' H0 Hne) as [E1 E2]. rewrite E1 in Hs. rewrite E2. by apply Hctx.
Qed.

Lemma newSock_fails sk fm : newSock true (-1) sk fm = (Ok (set_sock (-1) (m_isConnected sk) sk), fm).
Proof. done. Qed.

Lemma cancelAll_total (io : IOManager C) fd : io_inv io -> 0 <= fd ->
  exists b io', cancelAll true fd io = (Ok b, io') /\ io_inv io'.
Proof.
  intros Hinv Hfd. destruct (ctx_of io fd) as [c|] eqn:Hc.
  - destruct (Z.eq_dec (fc_events c) 0) as [E|E].
    + exists false, io. destruct (ctx_of_ok io fd c Hinv Hfd Hc) as (a & Ea & Ha & Hrun & Hlen & _). split; [|done].
      unfold cancelAll, mbind, M_bind, get. rewrite Hlen, Hrun. cbv beta iota. unfold fd_at. by rewrite Ha, E.
    + destruct (cancel_all_spec io fd c Hinv Hfd Hc E) as (io' & H1 & H2 & _). by exists true, io'.
  - exists false, io. split; [|done]. unfold cancelAll. mstep.
    destruct (Z.leb_spec (Z.of_nat (length (m_fdContexts io))) fd) as [|Hlt]; [done|]. exfalso.
    destruct (lookup_lt_is_Some_2 (m_fdContexts io) (Z.to_nat fd)) as [a Ea]; [lia|].
    destruct (io_vec io Hinv _ _ Ea) as (c & Hc' & _). unfold ctx_of in Hc. rewrite Ea in Hc. cbn in Hc. congruence.
Qed.

(** Closing: the descriptor and its context are gone. *)
Lemma close_frees (io : IOManager C) fm fd c : io_inv io -> fm_ok fm -> 0 <= fd -> ctx_at fm fd = Some c ->
  exists io' fm', hook_close true true true fd (io, fm) = (Ok tt, (io', fm')) /\ io_inv io' /\ fm_ok fm'
  /\ only_at fd fm fm' /\ ctx_at fm' fd = None /\ kernel fm' !! fd = None.
Proof.
  intros Hinv [H64 Hctx] Hfd Hc. destruct (cancelAll_total io fd Hinv Hfd) as (b & io' & Hcancel & Hinv').
  unfold hook_close. cbn [negb]. rewrite (get_existing fm fd false c) by done. rewrite Hcancel.
  unfold ctx_at in Hc. rewrite (proj2 (Z.ltb_ge fd 0)) in Hc by lia.
  destruct (m_datas fm !! Z.to_nat fd) as [c'|] eqn:E; [|done]. pose proof (lookup_lt_Some _ _ _ E) as Hlt.
  unfold del, mbind, M_bind, get, put. rewrite (proj2 (Z.leb_gt _ fd)), (proj2 (Z.ltb_ge fd 0)) by lia.
  set (fm' := set_kernel _ _).
  assert (ctx_at fm' fd = None) as Hn.
  { unfold ctx_at. rewrite (proj2 (Z.ltb_ge fd 0)) by lia. cbn. by rewrite list_lookup_insert_eq by lia. }
  assert (only_at fd fm fm') as Hfr.
  { split; [cbn; by rewrite length_insert|]. intros fd' H0 Hne. cbn. rewrite lookup_delete_ne by done. split; [|done].
    unfold ctx_at. rewrite (proj2 (Z.ltb_ge fd' 0)) by lia. cbn. by rewrite list_lookup_insert_ne by lia. }
  exists io', fm'. split; [done|]. split; [done|]. split; [|split; [done|split; [done|apply lookup_delete_eq]]].
  split; [cbn; by rewrite length_insert|]. intros fd' H0 Hs. destruct (decide (fd' = fd)) as [->|Hne].
  - rewrite Hn in Hs. by destruct Hs.
  - destruct Hfr as [_ Hfr]. destruct (Hfr fd' H0 Hne) as [E1 E2]. rewrite E1 in Hs. rewrite E2. by apply Hctx.
Qed.

(** ** What goes wrong *)

(** [CreateUDP] reports a connected socket also when the kernel has none left. *)
Lemma CreateUDP_ignores_failure addr fm :
  exists sk, CreateUDP true (-1) addr fm = (Ok sk, fm) /\ m_isConnected sk = true /\ m_sock sk = -1.
Proof. eexists. split; [done|]. done. Qed.

(** After [close] the addresses are kept, so a second connection reports those of
    the first. *)
Lemma reconnect_keeps_address a b sk :
  m_localAddress sk = Some a -> fst (getLocalAddress (Some b) (set_sock (-1) false sk)) = a.
Proof. intros Ha. unfold getLocalAddress. cbn. by rewrite Ha. Qed.
End SocketSpec.

(** ** Witness *)

#[local] Instance nat_address : AddressOps nat := {| getFamily _ := PF_INET; UnknowAddress _ := 0%nat |}.

Definition demo_tcp : Sock nat := set_sock 5 true CreateTCPSocket.

Lemma timeouts_roundtrip_witness :
  exists fm1 fm2 c', setRecvTimeout true 120000 demo_tcp demo_fm = (Ok tt, fm1)
  /\ setSendTimeout true 1500 demo_tcp fm1 = (Ok tt, fm2)
  /\ getRecvTimeout demo_tcp fm2 = (Ok 120000, fm2)
  /\ getSendTimeout demo_tcp fm2 = (Ok 1500, fm2)
  /\ ctx_at fm2 5 = Some c' /\ getTimeout SO_RCVTIMEO c' = 120000 /\ getTimeout SO_SNDTIMEO c' = 1500
  /\ forall fd, 0 <= fd -> fd <> 5 -> ctx_at fm2 fd = ctx_at demo_fm fd.
Proof.
  apply (timeouts_roundtrip 120000 1500 demo_tcp demo_fm demo_sock);
    [cbn; lia|vm_compute; reflexivity|lia|lia].
Defined.
