(* ===== verification/SocketIO.v ===== *)
(** * Moving data through sockets ([src/src/socket.cc])

    The transfers of a socket, with one buffer or an array of them, to and from an
    address or the connected peer, as calls of the kernel; the addresses that the
    kernel fills in; and the text of a socket.  The system calls are the class
    [SockCalls]; what POSIX says of their gathering and scattering variants is
    [SockLaws]. *)
From Stdlib Require Import String.
From S2P Require Import Prelude CString Endian FdManager IOManager Hook Address AddressSpec AddressText Socket.

#[local] Open Scope list_scope.
#[local] Open Scope Z_scope.

(** The message header of [sendmsg] and [recvmsg]; the buffers with their memory. *)
Record msghdr := mkMsg {
  msg_name : option bytes; msg_namelen : Z; msg_iov : list bytes; msg_iovlen : Z; msg_control : option bytes;
  msg_controllen : Z; msg_flags : Z
}.

(** [memset(&msg, 0, sizeof(msg))] *)
Definition msg_zero : msghdr := mkMsg None 0 [] 0 None 0 0.

(** The system calls, as the hooks return them: a result of [ssize_t], the memory
    that is stored, and the kernel afterwards. *)
Class SockCalls (K : Type) := {
  k_send : Z -> bytes -> Z -> K -> Z * K;
  k_sendto : Z -> bytes -> Z -> bytes -> Z -> K -> Z * K;
  k_sendmsg : Z -> msghdr -> Z -> K -> Z * K;
  k_recv : Z -> Z -> Z -> K -> (Z * bytes) * K;
  k_recvfrom : Z -> Z -> Z -> bytes -> Z -> K -> (Z * bytes * bytes * Z) * K;
  k_recvmsg : Z -> msghdr -> Z -> K -> (Z * list bytes * option bytes) * K
}.

(** ** Addresses as memory *)

Section Host.
Variable host : endian.

(** The object [getAddr] points to after [m] was stored at its beginning; its
    class stays, and so does the length a [UnixAddress] keeps. *)
Definition addr_store (m : bytes) (a : Address) : Address :=
  let m := splice 0 m (addr_memory host a) in
  let u16_at i := of_mem host uint16_t (slice i 2 m) in
  let u32_at i := of_mem host uint32_t (slice i 4 m) in
  match a with
  | AddrV4 _ => AddrV4 (mkIn (u16_at 0%nat) (u16_at 2%nat) (u32_at 4%nat) (slice 8 8 m))
  | AddrV6 _ => AddrV6 (mkIn6 (u16_at 0%nat) (u16_at 2%nat) (u32_at 4%nat) (slice 8 16 m) (u32_at 24%nat))
  | AddrUnix a => AddrUnix (mkUn (u16_at 0%nat) (slice 2 108 m) (m_length a))
  | AddrUnknown _ _ => AddrUnknown (u16_at 0%nat) (slice 2 14 m)
  end.

(** [src/src/address.cc:593-597 UnknowAddress::UnknowAddress] *)
Definition UnknowAddress_new (family : Z) : Address := AddrUnknown (u16 family) (repeat 0 14).

(** [src/src/socket.cc:384-398 Socket::getLocalAddress]
    The object for the answer; [getRemoteAddress] (lines 347 to 361) has the same
    [switch]. *)
Definition empty_address (family : Z) : Address :=
  if family =? AF_INET then AddrV4 (IPv4Address_new host 0 0)
  else if family =? AF_INET6 then AddrV6 IPv6Address_any
  else if family =? AF_UNIX then AddrUnix UnixAddress_any
  else UnknowAddress_new family.

(** [src/src/socket.cc:400-417 Socket::getLocalAddress]
    And lines 363 to 375 of [getRemoteAddress].  [ask] is [getsockname] or
    [getpeername], given the length of the object: what it stores and the length
    it reports, or nothing if it fails. *)
Definition named_address (family : Z) (ask : Z -> option (bytes * Z)) : option Address :=
  let result := empty_address family in
  match ask (getAddrLen result) with
  | None => None
  | Some (m, addrlen) =>
      let result := addr_store m result in
      Some (match result with
            | AddrUnix a => if family =? AF_UNIX then AddrUnix (setAddrLen addrlen a) else result
            | _ => result
            end)
  end.
End Host.

(** ** Transfers *)

Section Transfers.
Context {K : Type} `{SockCalls K} (host : endian).
Implicit Types (sk : Sock Address) (k : K).

(** [src/src/socket.cc:250-256 Socket::send]
    The [ssize_t] of the call becomes an [int]. *)
Definition Socket_send (buffer : bytes) (flags : Z) sk k : Z * K :=
  if m_isConnected sk then let '(r, k) := k_send (m_sock sk) buffer flags k in (s32 r, k) else (-1, k).

(** [src/src/socket.cc:258-268 Socket::send] *)
Definition Socket_send_iov (buffers : list bytes) (len flags : Z) sk k : Z * K :=
  if m_isConnected sk then
    let msg := mkMsg (msg_name msg_zero) (msg_namelen msg_zero) buffers len None 0 0 in
    let '(r, k) := k_sendmsg (m_sock sk) msg flags k in (s32 r, k)
  else (-1, k).

(** [src/src/socket.cc:270-278 Socket::sendTo] *)
Definition Socket_sendTo (buffer : bytes) (to : Address) (flags : Z) sk k : Z * K :=
  if m_isConnected sk then
    let '(r, k) := k_sendto (m_sock sk) buffer flags (addr_memory host to) (getAddrLen to) k in (s32 r, k)
  else (-1, k).

(** [src/src/socket.cc:280-293 Socket::sendTo] *)
Definition Socket_sendTo_iov (buffers : list bytes) (len : Z) (to : Address) (flags : Z) sk k : Z * K :=
  if m_isConnected sk then
    let msg := mkMsg (Some (addr_memory host to)) (getAddrLen to) buffers len None 0 0 in
    let '(r, k) := k_sendmsg (m_sock sk) msg flags k in (s32 r, k)
  else (-1, k).

(** [src/src/socket.cc:295-301 Socket::recv]
    The result and the bytes stored. *)
Definition Socket_recv (len flags : Z) sk k : (Z * bytes) * K :=
  if m_isConnected sk then let '((r, bs), k) := k_recv (m_sock sk) len flags k in ((s32 r, bs), k) else ((-1, []), k).

(** [src/src/socket.cc:303-313 Socket::recv]
    The buffers with what is stored in them. *)
Definition Socket_recv_iov (buffer : list bytes) (len flags : Z) sk k : (Z * list bytes) * K :=
  if m_isConnected sk then
    let msg := mkMsg (msg_name msg_zero) (msg_namelen msg_zero) buffer len None 0 0 in
    let '((r, bufs, _), k) := k_recvmsg (m_sock sk) msg flags k in ((s32 r, bufs), k)
  else ((-1, buffer), k).

(** [src/src/socket.cc:315-323 Socket::recvFrom]
    The kernel stores the sender in the object of [from]; the length it reports
    goes to a local variable. *)
Definition Socket_recvFrom (len : Z) (from : Address) (flags : Z) sk k : (Z * bytes * Address) * K :=
  if m_isConnected sk then
    let '((r, bs, name, _), k) := k_recvfrom (m_sock sk) len flags (addr_memory host from) (getAddrLen from) k in
    ((s32 r, bs, addr_store host name from), k)
  else ((-1, [], from), k).

(** [src/src/socket.cc:325-339 Socket::recvFrom] *)
Definition Socket_recvFrom_iov (buffer : list bytes) (len : Z) (from : Address) (flags : Z) sk k
    : (Z * list bytes * Address) * K :=
  if m_isConnected sk then
    let msg := mkMsg (Some (addr_memory host from)) (getAddrLen from) buffer len None 0 0 in
    let '((r, bufs, name), k) := k_recvmsg (m_sock sk) msg flags k in
    ((s32 r, bufs, match name with Some m => addr_store host m from | None => from end), k)
  else ((-1, buffer, from), k).

(** [src/src/socket.cc:107-118 Socket::getOption]
    [getsockopt] answers a value and its length, or fails. *)
Definition getOption (getsockopt : Z -> Z -> Z -> Z -> option (bytes * Z)) (level option len : Z) sk
    : bool * Datatypes.option (bytes * Z) :=
  match getsockopt (m_sock sk) level option len with
  | None => (false, None)
  | Some r => (true, Some r)
  end.
End Transfers.

Section Text.
Variable host : endian.

(** [src/src/socket.cc:432-446 Socket::dump]
    With lines 498 to 501, [operator<<]. *)
Definition Socket_dump (sk : Sock Address) : bytes :=
  str "[Socket sock=" ++ sdec (m_sock sk) ++ str " is_connected=" ++ str (if m_isConnected sk then "1" else "0")
  ++ str " family=" ++ sdec (m_family sk) ++ str " type=" ++ sdec (m_type sk)
  ++ str " portocol=" ++ sdec (m_protocol sk)
  ++ match m_localAddress sk with Some a => str " local_Address=" ++ Address_toString host a | None => [] end
  ++ match m_remoteAddress sk with Some a => str " remote_Address=" ++ Address_toString host a | None => [] end
  ++ str "]".
End Text.

Section Destruct.
Context {C : Type} (hook iom allow : bool).

(** [src/src/socket.cc:75-75 Socket::~Socket] *)
Definition Socket_delete (sk : Sock Address) : M (IOManager C * FdManager) unit :=
  Socket_close hook iom allow sk;; mret ().
End Destruct.

(** ** Addresses the kernel fills in *)

(** The fields of an address fit the object that holds them. *)
Definition addr_ok (a : Address) : Prop :=
  match a with
  | AddrV4 a => int_range uint16_t (sin_family a) /\ int_range uint16_t (sin_port a)
                /\ int_range uint32_t (sin_addr a) /\ length (sin_zero a) = 8%nat
  | AddrV6 a => int_range uint16_t (sin6_family a) /\ int_range uint16_t (sin6_port a)
                /\ int_range uint32_t (sin6_flowinfo a) /\ length (sin6_addr a) = 16%nat
                /\ int_range uint32_t (sin6_scope a)
  | AddrUnix a => int_range uint16_t (sun_family a) /\ length (sun_path a) = 108%nat /\ 0 <= m_length a < 2 ^ 32
  | AddrUnknown f d => int_range uint16_t f /\ length d = 14%nat
  end.

(** Objects of the same class. *)
Definition same_class (a b : Address) : Prop :=
  match a, b with
  | AddrV4 _, AddrV4 _ | AddrV6 _, AddrV6 _ | AddrUnix _, AddrUnix _ | AddrUnknown _ _, AddrUnknown _ _ => True
  | _, _ => False
  end.

(** [b] with the length that the object [a] keeps. *)
Definition with_length_of (a b : Address) : Address :=
  match a, b with
  | AddrUnix a, AddrUnix b => AddrUnix (mkUn (sun_family b) (sun_path b) (m_length a))
  | _, _ => b
  end.

(** The addresses that are made for a family. *)
Definition of_family (family : Z) (a : Address) : Prop :=
  Address_getFamily a = family /\ same_class (empty_address SYLAR_LITTLE_ENDIAN family) a.

Section AddressMemory.
Variable host : endian.

Lemma of_mem_slice t l v r : int_range t v -> (0 < int_size t)%nat ->
  of_mem host t (slice (length l) (int_size t) (l ++ mem_of host t v ++ r)) = v.
Proof.
  intros Hv Ht. rewrite <-(Nat.add_0_r (length l)), slice_app_r, slice_app_l.
  - unfold slice. rewrite drop_0, take_ge by (by rewrite length_mem_of). by apply of_mem_mem_of.
  - by rewrite length_mem_of.
Qed.

Lemma slice_mid {A} (l m r : list A) n : length m = n -> slice (length l) n (l ++ m ++ r) = m.
Proof.
  intros Hm. rewrite <-(Nat.add_0_r (length l)), slice_app_r, slice_app_l by lia.
  unfold slice. by rewrite drop_0, take_ge by lia.
Qed.

Lemma length_memory a : addr_ok a -> Z.of_nat (length (addr_memory host a)) =
  match a with AddrV4 _ => 16 | AddrV6 _ => 28 | AddrUnix _ => 110 | AddrUnknown _ _ => 16 end.
Proof.
  destruct a as [a|a|a|f d]; cbn [addr_ok addr_memory]; intros Hok;
    repeat rewrite length_app; rewrite ?length_mem_of; cbn [int_size];
    [destruct Hok as (_ & _ & _ & ->)|destruct Hok as (_ & _ & _ & -> & _)|destruct Hok as (_ & -> & _)
    |destruct Hok as (_ & ->)]; done.
Qed.

(** Storing the memory of an address in an object of its class makes the object
    that address. *)
Lemma addr_store_memory a b : addr_ok a -> addr_ok b -> same_class a b ->
  addr_store host (addr_memory host b) a = with_length_of a b.
Proof.
  intros Ha Hb Hs. pose proof (length_memory a Ha) as La. pose proof (length_memory b Hb) as Lb.
  unfold addr_store. rewrite splice_all by (destruct a, b; done || lia).
  assert (forall t v, length (mem_of host t v) = int_size t) as Hl by (intros; apply length_mem_of).
  destruct a as [a|a|a|f d], b as [b|b|b|f' d']; try done; cbn [addr_memory with_length_of addr_ok] in *.
  - destruct b as [f p s z], Hb as (Hf & Hp & Hs' & Hz). cbn [sin_family sin_port sin_addr sin_zero] in *.
    f_equal. f_equal.
    + by apply (of_mem_slice uint16_t []); [|cbn; lia].
    + pose proof (of_mem_slice uint16_t (mem_of host uint16_t f) p) as E. rewrite Hl in E. apply E; [done|cbn; lia].
    + pose proof (of_mem_slice uint32_t (mem_of host uint16_t f ++ mem_of host uint16_t p) s z) as E.
      rewrite length_app, !Hl, <-app_assoc in E. apply E; [done|cbn; lia].
    + pose proof (slice_mid (mem_of host uint16_t f ++ mem_of host uint16_t p ++ mem_of host uint32_t s) z [] 8 Hz) as E.
      rewrite !length_app, !Hl, app_nil_r, <-!app_assoc in E. exact E.
  - destruct b as [f p fl ad sc], Hb as (Hf & Hp & Hfl & Had & Hsc).
    cbn [sin6_family sin6_port sin6_flowinfo sin6_addr sin6_scope] in *. f_equal. f_equal.
    + by apply (of_mem_slice uint16_t []); [|cbn; lia].
    + pose proof (of_mem_slice uint16_t (mem_of host uint16_t f) p) as E. rewrite Hl in E. apply E; [done|cbn; lia].
    + pose proof (of_mem_slice uint32_t (mem_of host uint16_t f ++ mem_of host uint16_t p) fl) as E.
      rewrite length_app, !Hl in E. specialize (E (ad ++ mem_of host uint32_t sc)). rewrite <-app_assoc in E.
      apply E; [done|cbn; lia].
    + pose proof (slice_mid (mem_of host uint16_t f ++ mem_of host uint16_t p ++ mem_of host uint32_t fl) ad
        (mem_of host uint32_t sc) 16 Had) as E. rewrite !length_app, !Hl, <-!app_assoc in E. exact E.
    + pose proof (of_mem_slice uint32_t (mem_of host uint16_t f ++ mem_of host uint16_t p ++ mem_of host uint32_t fl ++ ad)
        sc []) as E. rewrite !length_app, !Hl, Had, app_nil_r, <-!app_assoc in E. apply E; [done|cbn; lia].
  - destruct b as [f p ln], Hb as (Hf & Hp & _). cbn [sun_family sun_path m_length] in *. f_equal. f_equal.
    + by apply (of_mem_slice uint16_t []); [|cbn; lia].
    + pose proof (slice_mid (mem_of host uint16_t f) p [] 108 Hp) as E. rewrite Hl, app_nil_r in E. exact E.
  - destruct Hb as (Hf & Hd). f_equal.
    + by apply (of_mem_slice uint16_t []); [|cbn; lia].
    + pose proof (slice_mid (mem_of host uint16_t f') d' [] 14 Hd) as E. rewrite Hl, app_nil_r in E. exact E.
Qed.
End AddressMemory.

Section Named.
Variable host : endian.

Lemma byteswapOnLittleEndian_range t v : (0 < int_size t)%nat -> int_range t v ->
  int_range t (byteswapOnLittleEndian host t v).
Proof. intros Ht Hv. unfold byteswapOnLittleEndian. destruct host; [by apply byteswap_range|done]. Qed.

Lemma empty_address_ok family : addr_ok (empty_address host family).
Proof.
  unfold empty_address. pose proof (Z.mod_pos_bound family (2 ^ 16) ltac:(lia)).
  destruct (family =? AF_INET).
  - cbn [addr_ok IPv4Address_new sin_family sin_port sin_addr sin_zero].
    split; [done|]. split; [apply byteswapOnLittleEndian_range; (cbn; lia) || done|].
    split; [apply byteswapOnLittleEndian_range; (cbn; lia) || done|done].
  - destruct (family =? AF_INET6); [done|]. by destruct (family =? AF_UNIX).
Qed.

(** A class that a family has does not depend on the machine. *)
Lemma empty_address_class family a :
  same_class (empty_address SYLAR_LITTLE_ENDIAN family) a -> same_class (empty_address host family) a.
Proof. unfold empty_address. by destruct (family =? AF_INET), (family =? AF_INET6), (family =? AF_UNIX). Qed.

(** The kernel stores an address up to the length it is given, and reports the
    whole length. *)
Definition stores (b : Address) (n : Z) : bytes * Z := (take (Z.to_nat n) (addr_memory host b), getAddrLen b).

(** What a [UnixAddress] can lose: the last byte of a path of 108. *)
Definition fits (a : Address) : Prop :=
  match a with AddrUnix a => nth 107 (sun_path a) 0 = 0 | _ => True end.

Lemma unix_prefix b : addr_ok (AddrUnix b) -> fits (AddrUnix b) ->
  splice 0 (take 109 (addr_memory host (AddrUnix b))) (addr_memory host (AddrUnix UnixAddress_any))
  = addr_memory host (AddrUnix b).
Proof.
  intros (_ & Hp & _) Hfit. cbn [fits addr_memory] in *.
  destruct (@exists_last _ (sun_path b)) as (p & c & E); [by intros E; rewrite E in Hp|].
  assert (length p = 107%nat) as Hp' by (rewrite E, length_app in Hp; cbn in Hp; lia).
  assert (c = 0) as -> by (rewrite E, app_nth2, Hp' in Hfit by lia; done).
  assert (length (mem_of host uint16_t (sun_family b) ++ p) = 109%nat) as Hl
    by (rewrite length_app, length_mem_of, Hp'; done).
  rewrite E, app_assoc, take_app_length' by done. unfold splice. rewrite take_0, app_nil_l, Nat.add_0_l, Hl.
  f_equal. rewrite drop_app_ge by (rewrite length_mem_of; cbn; lia). by rewrite length_mem_of.
Qed.

(** Storing an address in the object made for its family, up to the length of the
    object. *)
Lemma store_prefix family b : of_family family b -> addr_ok b -> fits b ->
  addr_store host (take (Z.to_nat (getAddrLen (empty_address host family))) (addr_memory host b))
    (empty_address host family)
  = with_length_of (empty_address host family) b.
Proof.
  intros [_ Hc%empty_address_class] Hb Hfit. pose proof (empty_address_ok family) as He.
  rewrite <-(addr_store_memory host) by done. pose proof (length_memory host b Hb) as Lb.
  pose proof (length_memory host _ He) as Le. unfold addr_store.
  enough (splice 0 (take (Z.to_nat (getAddrLen (empty_address host family))) (addr_memory host b))
            (addr_memory host (empty_address host family)) = splice 0 (addr_memory host b)
            (addr_memory host (empty_address host family))) as -> by done.
  destruct (empty_address host family) as [a|a|a|f d] eqn:E; destruct b as [b|b|b|f' d']; try done;
    cbn [getAddrLen]; try (by rewrite take_ge by lia).
  assert (a = UnixAddress_any) as ->.
  { unfold empty_address in E. destruct (family =? AF_INET); [done|]. destruct (family =? AF_INET6); [done|].
    destruct (family =? AF_UNIX); [by injection E|done]. }
  change (Z.to_nat (m_length UnixAddress_any)) with 109%nat. rewrite unix_prefix by done.
  by rewrite splice_all by lia.
Qed.

(** [getLocalAddress] and [getRemoteAddress] of a socket yield the address the
    kernel has for it. *)
Lemma named_address_exact family b : of_family family b -> addr_ok b -> fits b ->
  (match b with AddrUnix _ => family = AF_UNIX | _ => True end) ->
  named_address host family (fun n => Some (stores b n)) = Some b.
Proof.
  intros Hfam Hb Hfit Hu. unfold named_address, stores. rewrite store_prefix by done.
  destruct Hfam as [_ Hc%empty_address_class].
  destruct (empty_address host family) as [a|a|a|f d], b as [b|b|b|f' d']; try done.
  cbn [with_length_of getAddrLen]. subst family. cbn [AF_UNIX Z.eqb Pos.eqb setAddrLen sun_family sun_path].
  destruct b as [f p l], Hb as (_ & _ & Hl). cbn in *. unfold setAddrLen. cbn. by rewrite u32_small.
Qed.
End Named.

(** ** Arrays of buffers *)

(** Bytes stored in the buffers of an array, one after the other. *)
Fixpoint scatter (bs : bytes) (iov : list bytes) : list bytes :=
  match iov with
  | [] => []
  | b :: iov => splice 0 (take (length b) bs) b :: scatter (drop (length b) bs) iov
  end.

(** What POSIX says of [sendmsg] and [recvmsg]: they are the plain calls on the
    buffers taken together. *)
Class SockLaws (K : Type) `{SockCalls K} : Prop := {
  sendmsg_gathers fd iov flags k :
    k_sendmsg fd (mkMsg None 0 iov (Z.of_nat (length iov)) None 0 0) flags k = k_send fd (concat iov) flags k;
  sendmsg_gathers_to fd m n iov flags k :
    k_sendmsg fd (mkMsg (Some m) n iov (Z.of_nat (length iov)) None 0 0) flags k
    = k_sendto fd (concat iov) flags m n k;
  recvmsg_scatters fd iov flags k :
    k_recvmsg fd (mkMsg None 0 iov (Z.of_nat (length iov)) None 0 0) flags k
    = (let '((r, bs), k) := k_recv fd (Z.of_nat (length (concat iov))) flags k in ((r, scatter bs iov, None), k));
  recvmsg_scatters_from fd m n iov flags k :
    k_recvmsg fd (mkMsg (Some m) n iov (Z.of_nat (length iov)) None 0 0) flags k
    = (let '((r, bs, name, _), k) := k_recvfrom fd (Z.of_nat (length (concat iov))) flags m n k in
       ((r, scatter bs iov, Some name), k));
  recv_within fd n flags k r bs k' : 0 <= n -> k_recv fd n flags k = ((r, bs), k') -> Z.of_nat (length bs) <= n;
  recvfrom_within fd n flags m l k r bs name l' k' : 0 <= n ->
    k_recvfrom fd n flags m l k = ((r, bs, name, l'), k') -> Z.of_nat (length bs) <= n
}.

Lemma concat_scatter bs iov : (length bs <= length (concat iov))%nat ->
  concat (scatter bs iov) = splice 0 bs (concat iov).
Proof.
  revert bs. induction iov as [|b iov IH]; intros bs Hl; cbn [scatter concat] in *.
  { destruct bs; [done|]. cbn in Hl. lia. }
  rewrite length_app in Hl. rewrite IH by (rewrite length_drop; lia).
  unfold splice. rewrite !take_0, !app_nil_l, !Nat.add_0_l, length_take, length_drop, drop_app.
  destruct (decide (length b <= length bs)%nat) as [Hb|Hb].
  - rewrite (drop_ge b) by lia. rewrite (drop_ge b) by lia. rewrite app_nil_r, app_assoc. cbn [app].
    by rewrite take_drop.
  - rewrite (take_ge bs), (drop_ge bs) by lia. rewrite Nat.min_r by lia.
    replace (length bs - length b)%nat with 0%nat by lia. cbn [app length]. by rewrite drop_0, <-app_assoc.
Qed.

Section Vectors.
Context {K : Type} `{SockLaws K} (host : endian).
Implicit Types (sk : Sock Address) (k : K).

(** A socket that is not connected moves nothing and does not call the kernel. *)
Lemma disconnected_moves_nothing sk k buf iov len flags a : m_isConnected sk = false ->
  Socket_send buf flags sk k = (-1, k) /\ Socket_send_iov iov len flags sk k = (-1, k)
  /\ Socket_sendTo host buf a flags sk k = (-1, k) /\ Socket_sendTo_iov host iov len a flags sk k = (-1, k)
  /\ Socket_recv len flags sk k = ((-1, []), k) /\ Socket_recv_iov iov len flags sk k = ((-1, iov), k)
  /\ Socket_recvFrom host len a flags sk k = ((-1, [], a), k)
  /\ Socket_recvFrom_iov host iov len a flags sk k = ((-1, iov, a), k).
Proof.
  intros Hc. unfold Socket_send, Socket_send_iov, Socket_sendTo, Socket_sendTo_iov, Socket_recv, Socket_recv_iov,
    Socket_recvFrom, Socket_recvFrom_iov. by rewrite Hc.
Qed.

(** Sending an array of buffers is sending the bytes in them together. *)
Lemma send_array iov flags sk k : Socket_send_iov iov (Z.of_nat (length iov)) flags sk k
                                  = Socket_send (concat iov) flags sk k.
Proof. unfold Socket_send_iov, Socket_send. cbn [msg_zero msg_name msg_namelen]. by rewrite sendmsg_gathers. Qed.

Lemma sendTo_array iov to flags sk k : Socket_sendTo_iov host iov (Z.of_nat (length iov)) to flags sk k
                                       = Socket_sendTo host (concat iov) to flags sk k.
Proof. unfold Socket_sendTo_iov, Socket_sendTo. by rewrite sendmsg_gathers_to. Qed.

(** Receiving into an array of buffers is receiving into one buffer of their size:
    the same result, and the same bytes at the beginning of the array. *)
Lemma recv_array iov flags sk k : exists r bs k' iov',
  Socket_recv (Z.of_nat (length (concat iov))) flags sk k = ((r, bs), k')
  /\ Socket_recv_iov iov (Z.of_nat (length iov)) flags sk k = ((r, iov'), k')
  /\ concat iov' = splice 0 bs (concat iov).
Proof.
  unfold Socket_recv, Socket_recv_iov. cbn [msg_zero msg_name msg_namelen]. rewrite recvmsg_scatters.
  destruct (m_isConnected sk); [|eexists _, _, _, _; split_and!; try done; by rewrite splice_nil].
  destruct (k_recv _ _ flags k) as [[r bs] k'] eqn:E. eexists _, _, _, _. split_and!; try done.
  apply concat_scatter. apply recv_within in E; lia.
Qed.

Lemma recvFrom_array iov from flags sk k : exists r bs a k' iov',
  Socket_recvFrom host (Z.of_nat (length (concat iov))) from flags sk k = ((r, bs, a), k')
  /\ Socket_recvFrom_iov host iov (Z.of_nat (length iov)) from flags sk k = ((r, iov', a), k')
  /\ concat iov' = splice 0 bs (concat iov).
Proof.
  unfold Socket_recvFrom, Socket_recvFrom_iov. rewrite recvmsg_scatters_from.
  destruct (m_isConnected sk); [|eexists _, _, _, _, _; split_and!; try done; by rewrite splice_nil].
  destruct (k_recvfrom _ _ flags _ _ k) as [[[[r bs] name] l] k'] eqn:E. eexists _, _, _, _, _. split_and!; try done.
  apply concat_scatter. apply recvfrom_within in E; lia.
Qed.

(** The sender of a datagram: when the kernel stores the address [b] of the sender,
    [recvFrom] makes [from] that address, except for the length, which stays that of
    [from]. *)
Lemma recvFrom_sender sk k len from b flags r bs l k' : m_isConnected sk = true ->
  addr_ok from -> addr_ok b -> same_class from b ->
  k_recvfrom (m_sock sk) len flags (addr_memory host from) (getAddrLen from) k
  = ((r, bs, addr_memory host b, l), k') ->
  Socket_recvFrom host len from flags sk k = ((s32 r, bs, with_length_of from b), k').
Proof.
  intros Hc Hf Hb Hs Hk. unfold Socket_recvFrom. by rewrite Hc, Hk, addr_store_memory.
Qed.
End Vectors.

(** An abstract name of three bytes arrives with the length of the object that
    receives it: its text is padded with zeros, and answers go to another name. *)
Lemma recvFrom_drops_length host :
  let from := AddrUnix UnixAddress_any in
  match UnixAddress_new (0 :: str "ab") with
  | Ok b =>
      with_length_of from (AddrUnix b) <> AddrUnix b
      /\ getAddrLen (AddrUnix b) = 5 /\ getAddrLen (with_length_of from (AddrUnix b)) = 109
      /\ Address_toString host (AddrUnix b) = str "\0ab"
      /\ Address_toString host (with_length_of from (AddrUnix b)) = str "\0ab" ++ repeat 0 104
  | Err _ => False
  end.
Proof. vm_compute. by split_and!. Qed.

(** ** A kernel for which the laws hold *)

(** One queue of datagrams with their senders; a datagram longer than the buffer is
    cut. *)
Definition Queue : Type := list (bytes * (bytes * Z)).

Definition q_push (bs m : bytes) (n : Z) (q : Queue) : Z * Queue := (Z.of_nat (length bs), q ++ [(bs, (m, n))]).
Definition q_pop (n : Z) (q : Queue) : (Z * bytes * (bytes * Z)) * Queue :=
  match q with
  | [] => ((-1, [], ([], 0)), [])
  | (bs, from) :: q => let bs := take (Z.to_nat n) bs in ((Z.of_nat (length bs), bs, from), q)
  end.

#[local] Instance Queue_calls : SockCalls Queue := {
  k_send _ bs _ q := q_push bs [] 0 q;
  k_sendto _ bs _ m n q := q_push bs m n q;
  k_sendmsg _ msg _ q := q_push (concat (msg_iov msg)) (default [] (msg_name msg)) (msg_namelen msg) q;
  k_recv _ n _ q := let '((r, bs, _), q) := q_pop n q in ((r, bs), q);
  k_recvfrom _ n _ _ _ q := let '((r, bs, (m, l)), q) := q_pop n q in ((r, bs, m, l), q);
  k_recvmsg _ msg _ q :=
    let '((r, bs, (m, _)), q) := q_pop (Z.of_nat (length (concat (msg_iov msg)))) q in
    ((r, scatter bs (msg_iov msg), match msg_name msg with Some _ => Some m | None => None end), q)
}.

Lemma q_pop_within n q r bs m q' : 0 <= n -> q_pop n q = ((r, bs, m), q') -> Z.of_nat (length bs) <= n.
Proof.
  intros Hn. unfold q_pop. destruct q as [|[b f] q].
  - intros [= _ <- _ _]. cbn. lia.
  - intros [= _ <- _ _]. rewrite length_take. lia.
Qed.

#[local] Instance Queue_laws : SockLaws Queue.
Proof.
  constructor.
  - done.
  - done.
  - intros fd iov flags k. cbn. by destruct (q_pop _ k) as [[[r bs] [m l]] q].
  - intros fd m n iov flags k. cbn. by destruct (q_pop _ k) as [[[r bs] [m' l]] q].
  - intros fd n flags k r bs k' Hn. cbn. destruct (q_pop n k) as [[[r' bs'] [m l]] q] eqn:E.
    intros [= <- <- <-]. by eapply q_pop_within.
  - intros fd n flags m l k r bs name l' k' Hn. cbn. destruct (q_pop n k) as [[[r' bs'] [m' l'']] q] eqn:E.
    intros [= <- <- <- <- <-]. by eapply q_pop_within.
Qed.

(** A datagram from one socket to the other: sent in three pieces, received in two
    buffers, with its sender. *)
Definition demo_udp : Sock Address := set_sock 5 true (Socket_new AF_INET SOCK_DGRAM 0).

Lemma datagram_example :
  let me := AddrV4 (IPv4Address_new SYLAR_LITTLE_ENDIAN 2130706433 80) in
  let '(n, q) := Socket_sendTo_iov SYLAR_LITTLE_ENDIAN [str "ab"; []; str "cde"] 3 me 0 demo_udp ([] : Queue) in
  let '((r, iov, from), q) := Socket_recvFrom_iov SYLAR_LITTLE_ENDIAN [repeat 0 4; repeat 0 3] 2
    (empty_address SYLAR_LITTLE_ENDIAN AF_INET) 0 demo_udp q in
  n = 5 /\ r = 5 /\ iov = [str "abcd"; 101 :: repeat 0 2] /\ q = []
  /\ Address_toString SYLAR_LITTLE_ENDIAN from = str "127.0.0.1:80".
Proof. by vm_compute. Qed.

Lemma socket_text : Socket_dump SYLAR_LITTLE_ENDIAN demo_udp = str "[Socket sock=5 is_connected=1 family=2 type=2 portocol=0]".
Proof. by vm_compute. Qed.
