(* ===== verification/EchoServer.v ===== *)
(** * The echo servers ([src/src/example])

    A server on top of sockets and the serialisation buffer: what a client sends is
    received into the blocks of a [ByteArray] and sent back.  The theorem says that
    over a stream the client gets exactly what it sent, in whatever pieces it
    arrives.  The datagram server and the sending loop of the client follow. *)
From S2P Require Import Prelude CString Endian ByteArray ByteArraySpec ByteArrayIO BufferStream.
From S2P Require Import Socket Address AddressSpec AddressText SocketIO.
#[local] Open Scope list_scope.
#[local] Open Scope Z_scope.

(** ** Ranges of a buffer as the memory of a call *)

(** The memory of the ranges. *)
Definition iov_mem (ns : list Node) (l : list iovec) : list bytes :=
  (fun v => match ns !! iov_node v with
            | Some n => slice (Z.to_nat (iov_off v)) (Z.to_nat (iov_len v)) (Node_ptr n)
            | None => [] end) <$> l.

(** The blocks when the memory of the ranges is [bufs]. *)
Fixpoint fill (bufs : list bytes) (l : list iovec) (ns : list Node) : list Node :=
  match l, bufs with
  | v :: l, b :: bufs =>
      fill bufs l
        (alter (fun nd => {| Node_ptr := splice (Z.to_nat (iov_off v)) b (Node_ptr nd); Node_size := Node_size nd |})
           (iov_node v) ns)
  | _, _ => ns
  end.

Lemma fill_scatter bufs l ns : Forall2 (fun v b => length b = Z.to_nat (iov_len v)) l bufs ->
  fill bufs l ns = BufferStream.scatter (concat bufs) l ns.
Proof.
  intros H. revert ns. induction H as [|v b l bufs Hb _ IH]; intros ns; [done|]. cbn [fill BufferStream.scatter concat].
  rewrite <-Hb, take_app_length, drop_app_length. apply IH.
Qed.

Lemma iov_mem_lengths b ns l : forall start len, 0 < b -> Forall (node_ok b) ns -> 0 <= start ->
  start + len <= b * Z.of_nat (length ns) -> iov_covers b start len l ->
  Forall2 (fun v m => length m = Z.to_nat (iov_len v)) l (iov_mem ns l).
Proof.
  induction l as [|v l IH]; intros start len Hb Hns Hs Hfit Hc; cbn [iov_mem fmap list_fmap]; [constructor|].
  cbn [iov_covers] in Hc. destruct Hc as (H1 & H2 & H3 & H4 & Hc). pose proof (iov_covers_nonneg _ _ _ _ Hc) as Hle.
  destruct (node_at_ok b ns (iov_node v) Hns ltac:(nia)) as (n & Hni & _ & _ & Hlen).
  constructor; [|apply (IH (start + iov_len v) (len - iov_len v)); (done || lia)].
  rewrite Hni. apply length_slice. lia.
Qed.

Lemma scatter_lengths bs (ms : list bytes) l : Forall2 (fun v m => length m = Z.to_nat (iov_len v)) l ms ->
  Forall2 (fun v m => length m = Z.to_nat (iov_len v)) l (SocketIO.scatter bs ms).
Proof.
  intros H. revert bs. induction H as [|v m l ms Hm _ IH]; intros bs; cbn [SocketIO.scatter]; constructor; [|apply IH].
  rewrite length_splice; [done|]. rewrite length_take. lia.
Qed.

(** ** The server *)

Section Echo.
Context `{Platform} {K : Type} `{SockCalls K}.

(** What [handleClient] works on: its buffer, the kernel, and what it printed. *)
Record Server := mkServer { ba : ByteArray; kern : K; cout : bytes }.

Definition on_buf {T} (m : M ByteArray T) : M Server T := fun s =>
  let '(r, b) := m (ba s) in (r, mkServer b (kern s) (cout s)).
Definition on_kern {T} (f : K -> T * K) : M Server T := fun s =>
  let '(x, k) := f (kern s) in (Ok x, mkServer (ba s) k (cout s)).

(** The [n] bytes at [text.c_str()]. *)
Definition c_mem (text : bytes) (n : Z) : result bytes :=
  if Z.of_nat (length text) + 1 <? n then Err (Undef out_of_bounds) else Ok (take (Z.to_nat n) (text ++ [0])).

(** [src/src/example/echo_server.cc:29-62 EchoServer::handleClient]
    One round of the loop; whether there is another.  [&iovs[0]] of no range at all
    is not defined. *)
Definition echo_round (m_type : Z) (client : Sock Address) : M Server bool :=
  on_buf (modify clear);;
  '(iovs, _) ← on_buf (getWriteBuffers 1024);
  (match iovs with [] => fail (Undef out_of_bounds) | _ => mret () end);;
  st ← get;
  '(rt, bufs) ← on_kern (Socket_recv_iov (iov_mem (m_nodes (ba st)) iovs) (Z.of_nat (length iovs)) 0 client);
  on_buf (modify (fun b => set_nodes (fill bufs iovs (m_nodes b)) b));;
  if rt =? 0 then mret false else
  if rt <? 0 then mret false else
  st ← get;
  on_buf (setPosition (u64 (m_position (ba st) + rt)));;
  on_buf (setPosition 0);;
  st ← get;
  (if m_type =? 1 then lift (toString (ba st));; mret ()
   else h ← lift (toHexString (ba st)); modify (fun s => mkServer (ba s) (kern s) (cout s ++ h)));;
  text ← lift (toString (ba st));
  data ← lift (c_mem text rt);
  on_kern (Socket_send data 0 client);;
  mret true.

Fixpoint echo_loop (fuel : nat) (m_type : Z) (client : Sock Address) : M Server unit :=
  match fuel with
  | O => fail OutOfFuel
  | S fuel =>
      more ← echo_round m_type client;
      if more : bool then echo_loop fuel m_type client else mret ()
  end.

(** [src/src/example/echo_server.cc:25-64 EchoServer::handleClient] *)
Definition EchoServer_handleClient (fuel : nat) (m_type : Z) (client : Sock Address) : M (K * bytes) unit :=
  fun '(k, out) =>
    let '(r, s) := echo_loop fuel m_type client (mkServer (ByteArray_new 4096) k out) in (r, (kern s, cout s)).
End Echo.
Arguments Server : clear implicits.

(** ** What goes through a connection *)

(** A connected stream: [arrived] is what the peer sent and is not received yet,
    [answered] what was sent to it.  A receive returns some of it, unless there is
    nothing, as long as the peer sends at all; a send takes a part. *)
Class Connected (K : Type) `{SockCalls K} (fd : Z) := {
  arrived : K -> bytes;
  answered : K -> bytes;
  recv_stream n k : 0 < n -> exists m k',
    k_recv fd n 0 k = ((Z.of_nat m, take m (arrived k)), k') /\ Z.of_nat m <= n /\ (m <= length (arrived k))%nat
    /\ (arrived k <> [] -> (0 < m)%nat) /\ arrived k' = drop m (arrived k) /\ answered k' = answered k;
  send_stream bs k : exists m k',
    k_send fd bs 0 k = (Z.of_nat m, k') /\ (m <= length bs)%nat
    /\ answered k' = answered k ++ take m bs /\ arrived k' = arrived k
}.

(** A hex dump in front of another. *)
Lemma unhex_app i bs rest : Forall is_byte bs ->
  unhex (hex_loop i bs ++ rest) = match unhex rest with Some r => Some (bs ++ r) | None => None end.
Proof.
  intros Hs. revert i. induction Hs as [|c bs Hc _ IH]; intros i; [cbn; by destruct (unhex rest)|].
  unfold is_byte in Hc. cbn [hex_loop]. rewrite <-app_assoc.
  assert (u8 c = c) as -> by (apply Z.mod_small; lia).
  assert (0 <= c / 16 < 16) as Hq by (split; [apply Z.div_pos|apply Z.div_lt_upper_bound]; lia).
  pose proof (Z.div_mod c 16 ltac:(lia)) as Hc16. pose proof (Z.mod_pos_bound c 16 ltac:(lia)) as Hr.
  destruct (from_hex_digit _ Hq) as [Eq Nq], (from_hex_digit _ Hr) as [Er _].
  assert (unhex (([hex_digit (c / 16); hex_digit (c mod 16); 32] ++ hex_loop (i + 1) bs) ++ rest)
          = match unhex rest with Some r => Some (c :: bs ++ r) | None => None end) as Hu.
  { cbn [app unhex]. rewrite (proj2 (Z.eqb_neq _ _) Nq). cbn [Z.eqb Pos.eqb].
    rewrite IH, Eq, Er. destruct (unhex rest); [|done]. do 2 f_equal. lia. }
  destruct ((i >? 0) && (i mod 32 =? 0)); [|done]. cbn [app unhex Z.eqb Pos.eqb]. exact Hu.
Qed.

Section Spec.
Context `{Platform} {K : Type} `{SockLaws K} (client : Sock Address) `{!Connected K (m_sock client)}.
Context (connected : m_isConnected client = true).
Notation fd := (m_sock client).
Implicit Types (s : Server K).

(** The ranges are filled with [bs] in front of what was there, and the position set
    behind [bs] and back: the buffer's contents are [bs]. *)
Lemma received_spec b l bs : wf b -> m_position b = 0 -> m_size b = 0 -> 1024 <= m_capacity b ->
  iov_covers (m_baseSize b) 0 1024 l -> Forall is_byte bs -> (length bs <= 1024)%nat ->
  let b2 := set_nodes (fill (SocketIO.scatter bs (iov_mem (m_nodes b) l)) l (m_nodes b)) b in
  exists b3 b4, setPosition (Z.of_nat (length bs)) b2 = (Ok tt, b3) /\ setPosition 0 b3 = (Ok tt, b4)
  /\ wf b2 /\ wf b4 /\ m_baseSize b4 = m_baseSize b /\ toString b4 = Ok bs.
Proof.
  intros Hwf Hp Hs Hcap Hcov Hbs Hle b2. pose proof Hwf as [Hb Hns Hne Hc Hc64 _ _ _].
  pose proof (length_chain _ _ Hns) as Hlc.
  pose proof (iov_mem_lengths _ _ _ 0 1024 Hb Hns ltac:(lia) ltac:(lia) Hcov) as Hml.
  pose proof (iov_covers_bytes _ _ _ 0 1024 Hb Hns ltac:(lia) ltac:(lia) Hcov) as Hby.
  change (iov_bytes (m_nodes b) l) with (concat (iov_mem (m_nodes b) l)) in Hby.
  assert (length (concat (iov_mem (m_nodes b) l)) = 1024%nat) as Hlen by (rewrite Hby, length_slice; lia).
  set (D := splice 0 bs (concat (iov_mem (m_nodes b) l))).
  assert (length D = 1024%nat) as HD by (unfold D; rewrite length_splice; lia).
  assert (Forall is_byte D) as HDb.
  { assert (Forall is_byte (concat (iov_mem (m_nodes b) l))) as Hm.
    { rewrite Hby. unfold slice. apply Forall_take, Forall_drop. by eapply chain_bytes. }
    unfold D, splice. apply Forall_app. split; [by apply Forall_take|]. apply Forall_app. split; [done|].
    by apply Forall_drop. }
  assert (fill (SocketIO.scatter bs (iov_mem (m_nodes b) l)) l (m_nodes b) = BufferStream.scatter D l (m_nodes b)) as Hfill.
  { rewrite fill_scatter by (by apply scatter_lengths). rewrite concat_scatter by lia. done. }
  unfold b2. rewrite Hfill. clear b2.
  destruct (scatter_spec _ _ l 0 1024 D Hb Hns ltac:(lia) ltac:(lia) Hcov HDb ltac:(lia)) as (_ & _ & Hch).
  destruct (filled_spec b l 1024 D Hwf) as [Hwf2 _]; [by rewrite Hp|lia|done|lia|].
  destruct (setPosition_spec (Z.of_nat (length bs)) (set_nodes (BufferStream.scatter D l (m_nodes b)) b) Hwf2)
    as (b3 & Hrun3 & Hwf3 & Hp3 & Hs3 & Hn3 & _ & Hb3 & _); [cbn; lia|].
  destruct (seek_refines 0 b3 Hwf3) as (b4 & Hrun4 & Hwf4 & Habs & _ & Hb4 & _); [pose proof (wf_size b3 Hwf3); lia|].
  exists b3, b4. split_and!; try done; [by rewrite Hb4, Hb3|]. rewrite toString_spec, Habs by done. cbn [f_pos f_data].
  change (Z.to_nat 0) with 0%nat. rewrite drop_0. f_equal. cbn [abs f_data]. rewrite Hs3, Hn3. cbn [set_nodes m_nodes m_size].
  rewrite Hch. change (Z.to_nat 0) with 0%nat. rewrite Hs, Z.max_r, Nat2Z.id by lia.
  unfold splice at 1. rewrite take_0. cbn [app]. rewrite take_app_le by lia. unfold D, splice. rewrite take_0. cbn [app].
  by rewrite take_app_length.
Qed.
(** Receiving into ranges of 1024 bytes together. *)
Lemma recv_ranges ns l k m bs k1 : length (concat (iov_mem ns l)) = 1024%nat -> Z.of_nat m <= 1024 ->
  k_recv fd 1024 0 k = ((Z.of_nat m, bs), k1) ->
  Socket_recv_iov (iov_mem ns l) (Z.of_nat (length l)) 0 client k = ((Z.of_nat m, SocketIO.scatter bs (iov_mem ns l)), k1).
Proof.
  intros Hlen Hm Hrecv. unfold Socket_recv_iov. rewrite connected. cbn [msg_zero msg_name msg_namelen].
  replace (length l) with (length (iov_mem ns l)) by (unfold iov_mem; by rewrite length_fmap).
  rewrite recvmsg_scatters, Hlen. change (Z.of_nat 1024) with 1024. rewrite Hrecv. by rewrite s32_small by lia.
Qed.

(** [rt] bytes of the text that was received. *)
Lemma c_mem_all text : c_mem text (Z.of_nat (length text)) = Ok text.
Proof. unfold c_mem. rewrite (proj2 (Z.ltb_ge _ _)), Nat2Z.id by lia. f_equal. apply take_app_length. Qed.

(** What one round sends and prints, for [bs] received: as much of [bs] as the
    connection takes; all of it, if it takes all it is given. *)
Definition takes_all : Prop := forall bs k, (k_send fd bs 0 k).1 = Z.of_nat (length bs).

Lemma echo_round_spec t s : wf (ba s) -> m_baseSize (ba s) < 2 ^ 32 -> Forall is_byte (arrived (kern s)) ->
  exists m p s', echo_round t client s = (Ok (negb (m =? 0)%nat), s')
  /\ (m <= length (arrived (kern s)))%nat /\ (arrived (kern s) <> [] -> (0 < m)%nat)
  /\ (p <= m)%nat /\ (takes_all -> p = m)
  /\ arrived (kern s') = drop m (arrived (kern s)) /\ answered (kern s') = answered (kern s) ++ take p (arrived (kern s))
  /\ cout s' = cout s ++ (if t =? 1 then [] else hex_loop 0 (take m (arrived (kern s))))
  /\ wf (ba s') /\ m_baseSize (ba s') = m_baseSize (ba s).
Proof.
  destruct s as [b k out]. cbn [ba kern cout]. intros Hwf Hb32 Hby.
  destruct (clear_refines b Hwf) as [Hwfc _]. set (bc := clear b) in *.
  destruct (write_buffers_spec bc 1024 Hwfc) as (l & b1 & Hrun & Hwf1 & _ & Hfit & Hcov & Hp1 & Hs1 & Hb1 & _);
    [lia|unfold room; cbn; lia|]. cbn [bc clear m_position m_size m_baseSize] in Hp1, Hs1, Hb1, Hcov, Hfit.
  rewrite <-Hb1 in Hcov.
  destruct (recv_stream 1024 k ltac:(lia)) as (m & k1 & Hrecv & Hm & Hma & Hm0 & Har & Han).
  assert (Forall is_byte (take m (arrived k))) as Hbs by (by apply Forall_take).
  assert (length (take m (arrived k)) = m) as Hlm by (rewrite length_take; lia).
  pose proof Hwf1 as [Hb Hns _ Hcap _ _ _ _].
  assert (length (concat (iov_mem (m_nodes b1) l)) = 1024%nat) as Hlen.
  { pose proof (iov_covers_bytes _ _ _ 0 1024 Hb Hns ltac:(lia) ltac:(lia) Hcov) as Hm'.
    change (iov_bytes (m_nodes b1) l) with (concat (iov_mem (m_nodes b1) l)) in Hm'.
    pose proof (length_chain _ _ Hns). rewrite Hm', length_slice; lia. }
  destruct (received_spec b1 l (take m (arrived k)) Hwf1 Hp1 Hs1 ltac:(lia) Hcov Hbs ltac:(lia))
    as (b3 & b4 & Hset & Hseek & Hwf2 & Hwf4 & Hb4 & Htext). rewrite Hlm in Hset.
  pose proof (recv_ranges (m_nodes b1) l k m _ k1 Hlen Hm Hrecv) as Hin. set (b2 := set_nodes _ b1) in *.
  destruct (send_stream (take m (arrived k)) k1) as (p & k2 & Hsend & Hp & Han2 & Har2).
  assert (takes_all -> p = m) as Hall.
  { intros Ha. specialize (Ha (take m (arrived k)) k1). rewrite Hsend in Ha. cbn in Ha. lia. }
  exists m. destruct (Nat.eqb_spec m 0) as [->|Hm1].
  - exists 0%nat. eexists (mkServer b2 k1 (cout (mkServer b1 k out))). split.
    { unfold echo_round, mbind, M_bind, on_buf, on_kern, modify, mret, M_ret, get. cbn [ba kern cout]. fold bc.
      rewrite Hrun. destruct l as [|v l]; [cbn in Hcov; lia|]. cbn [ba kern cout]. by rewrite Hin. }
    cbn [kern ba cout]. rewrite Har, Han, take_0, !app_nil_r. cbn [hex_loop].
    split_and!; try done; try lia. destruct (t =? 1); by rewrite app_nil_r.
  - exists p. eexists (mkServer b4 k2 (out ++ if t =? 1 then [] else hex_loop 0 (take m (arrived k)))). split.
    { unfold echo_round, mbind, M_bind, on_buf, on_kern, modify, mret, M_ret, get, lift. cbn [ba kern cout]. fold bc.
      rewrite Hrun. destruct l as [|v l]; [cbn in Hcov; lia|]. cbn [ba kern cout]. rewrite Hin. cbn [ba kern cout].
      rewrite (proj2 (Z.eqb_neq _ 0)), (proj2 (Z.ltb_ge _ 0)) by lia. cbn [ba kern cout]. fold b2.
      change (m_position b2) with (m_position b1). rewrite Hp1, Z.add_0_l, u64_small by lia.
      rewrite Hset. cbn [ba kern cout]. rewrite Hseek. cbn [ba kern cout]. unfold toHexString. rewrite Htext.
      pose proof (c_mem_all (take m (arrived k))) as Hc. rewrite Hlm in Hc.
      destruct (t =? 1); cbn [ba kern cout]; rewrite Hc; unfold Socket_send; rewrite connected; cbn [ba kern cout];
        rewrite Hsend, ?app_nil_r; done. }
    cbn [kern ba cout]. rewrite Har2, Har, Han2, Han, take_take. rewrite Nat.min_l by lia.
    split_and!; try done; try lia.
Qed.
Lemma echo_loop_spec t fuel : takes_all -> forall s,
  wf (ba s) -> m_baseSize (ba s) < 2 ^ 32 -> Forall is_byte (arrived (kern s)) -> (length (arrived (kern s)) < fuel)%nat ->
  exists s' parts, echo_loop fuel t client s = (Ok tt, s') /\ concat parts = arrived (kern s)
  /\ arrived (kern s') = [] /\ answered (kern s') = answered (kern s) ++ arrived (kern s)
  /\ cout s' = cout s ++ (if t =? 1 then [] else concat (hex_loop 0 <$> parts)).
Proof.
  intros Hall. induction fuel as [|fuel IH]; intros s Hwf Hb Hby Hf; [lia|].
  destruct (echo_round_spec t s Hwf Hb Hby) as (m & p & s1 & Hrun & Hm & Hm0 & _ & Hp & Har & Han & Hc & Hwf1 & Hb1).
  specialize (Hp Hall) as ->. cbn [echo_loop]. unfold mbind, M_bind. rewrite Hrun.
  destruct (Nat.eqb_spec m 0) as [->|Hne]; cbn [negb].
  - assert (arrived (kern s) = []) as E by (destruct (arrived (kern s)); [done|]; specialize (Hm0 ltac:(done)); lia).
    rewrite E in *. cbn [drop take] in *. exists s1, []. split; [done|]. cbn [concat fmap list_fmap]. split_and!; try done.
  - destruct (IH s1 Hwf1) as (s2 & parts & Hrun2 & Hparts & Har2 & Han2 & Hc2).
    { lia. } { rewrite Har. by apply Forall_drop. } { rewrite Har, length_drop. lia. }
    exists s2, (take m (arrived (kern s)) :: parts). split; [done|]. cbn [concat fmap list_fmap]. rewrite Hparts, Har, take_drop.
    split; [done|]. split; [done|]. rewrite Han2, Han, Hc2, Hc, Har, <-!app_assoc, take_drop. split; [done|]. f_equal.
    by destruct (t =? 1).
Qed.
End Spec.

(** C23: the echo server gives back what it gets.  Over a connection that takes what it
    is given, in whatever pieces the client's bytes arrive, [handleClient] comes to
    an end with the connection: everything the client sent has been received, and
    exactly these bytes, in their order, have been sent back; in mode [-b] the hex
    dumps that it printed are the dumps of these bytes. *)
Theorem echo_answers `{Platform} {K : Type} `{SockLaws K} (client : Sock Address) `{!Connected K (m_sock client)}
    (k : K) (out : bytes) t fuel :
  m_isConnected client = true -> (forall bs k, (k_send (m_sock client) bs 0 k).1 = Z.of_nat (length bs)) ->
  Forall is_byte (arrived k) -> (length (arrived k) < fuel)%nat ->
  exists k' printed, EchoServer_handleClient fuel t client (k, out) = (Ok tt, (k', out ++ printed))
  /\ arrived k' = [] /\ answered k' = answered k ++ arrived k
  /\ (t <> 1 -> unhex printed = Some (arrived k)).
Proof.
  intros Hconn Hall Hby Hf.
  destruct (echo_loop_spec client Hconn t fuel Hall (mkServer (ByteArray_new 4096) k out))
    as (s' & parts & Hrun & Hparts & Har & Han & Hc); [apply wf_new; lia|cbn; lia|done..|]. cbn [kern ba cout] in *.
  eexists (kern s'), _. split; [unfold EchoServer_handleClient; rewrite Hrun; by rewrite Hc|].
  split; [done|]. split; [done|]. intros Ht. rewrite (proj2 (Z.eqb_neq _ _) Ht). rewrite <-Hparts in Hby |- *. clear -Hby.
  induction parts as [|bs parts IH]; [done|]. cbn [concat fmap list_fmap] in *. apply Forall_app in Hby as [H1 H2].
  rewrite unhex_app by done. by rewrite IH.
Qed.

(** ** A stream *)

(** Bytes on their way, how many of them the next receives find, and the bytes sent. *)
Record Pipe := mkPipe { p_in : bytes; p_cuts : list nat; p_out : bytes }.

Definition pipe_recv (n : Z) (k : Pipe) : (Z * bytes) * Pipe :=
  let c := match p_cuts k with c :: _ => S c | [] => length (p_in k) end in
  let m := Nat.min c (Nat.min (Z.to_nat n) (length (p_in k))) in
  ((Z.of_nat m, take m (p_in k)), mkPipe (drop m (p_in k)) (tail (p_cuts k)) (p_out k)).

Section Pipe.
(** How many bytes a send takes. *)
Variable taken : nat -> nat.

Definition pipe_send (bs : bytes) (k : Pipe) : Z * Pipe :=
  let m := Nat.min (taken (length bs)) (length bs) in
  (Z.of_nat m, mkPipe (p_in k) (p_cuts k) (p_out k ++ take m bs)).

#[local] Instance Pipe_calls : SockCalls Pipe := {
  k_send _ bs _ := pipe_send bs;
  k_sendto _ bs _ _ _ := pipe_send bs;
  k_sendmsg _ msg _ := pipe_send (concat (msg_iov msg));
  k_recv _ n _ := pipe_recv n;
  k_recvfrom _ n _ _ _ k := let '((r, bs), k) := pipe_recv n k in ((r, bs, [], 0), k);
  k_recvmsg _ msg _ k :=
    let '((r, bs), k) := pipe_recv (Z.of_nat (length (concat (msg_iov msg)))) k in
    ((r, SocketIO.scatter bs (msg_iov msg), match msg_name msg with Some _ => Some [] | None => None end), k)
}.

#[local] Instance Pipe_laws : SockLaws Pipe.
Proof.
  constructor; try done.
  - intros fd n flags k r bs k' Hn. cbn. intros [= _ <- _]. rewrite length_take. lia.
  - intros fd n flags m l k r bs name l' k' Hn. cbn. intros [= _ <- _ _ _]. rewrite length_take. lia.
Qed.

#[local, refine] Instance Pipe_connected fd : Connected Pipe fd := { arrived := p_in; answered := p_out }.
Proof.
  - intros n k Hn. eexists _, _. split; [reflexivity|]. cbn [p_in p_out]. split_and!; try done; try lia.
    intros Hne. assert (0 < length (p_in k))%nat by (destruct (p_in k); [done|cbn; lia]).
    destruct (p_cuts k); lia.
  - intros bs k. eexists _, _. split; [reflexivity|]. cbn [p_in p_out]. split_and!; try done. lia.
Defined.
End Pipe.

(** Three bytes that come as one and two. *)
Definition demo_client : Sock Address := set_sock 5 true (Socket_new AF_INET SOCK_STREAM 0).
Definition demo_pipe : Pipe := mkPipe (str "abc") [0%nat] [].

Lemma echo_answers_witness :
  (exists k' printed, @EchoServer_handleClient x86 _ (Pipe_calls id) 4 2 demo_client (demo_pipe, []) = (Ok tt, (k', [] ++ printed))
  /\ p_in k' = [] /\ p_out k' = [] ++ str "abc" /\ (2 <> 1 -> unhex printed = Some (str "abc")))
  /\ snd (snd (@EchoServer_handleClient x86 _ (Pipe_calls id) 4 2 demo_client (demo_pipe, []))) = str "61 62 63 ".
Proof.
  split; [|vm_compute; reflexivity].
  apply (@echo_answers x86 _ _ (Pipe_laws id) demo_client (Pipe_connected id _) demo_pipe [] 2 4).
  - reflexivity.
  - intros bs k. cbn. unfold id. by rewrite Nat.min_id.
  - repeat constructor; vm_compute; (done || discriminate).
  - vm_compute. lia.
Defined.

(** The result of [send] is not looked at: over a connection that takes two bytes at a
    time the client loses the third. *)
Lemma echo_drops : exists k',
  @EchoServer_handleClient x86 _ (Pipe_calls (fun _ => 2%nat)) 4 1 demo_client (mkPipe (str "abc") [] [], []) = (Ok tt, (k', []))
  /\ p_in k' = [] /\ p_out k' = str "ab".
Proof. eexists. by vm_compute. Qed.

(** ** The client *)

Section Client.
Context {K : Type} `{SockCalls K}.

(** [src/src/example/echo_client.cc:45-53 main]
    Sending a line; [sent] is an [ssize_t], [input_size] a [size_t]. *)
Fixpoint client_send (fuel : nat) (sockfd : Z) (input : bytes) (input_size : Z) (k : K) : result K :=
  match fuel with
  | O => Err OutOfFuel
  | S fuel =>
      if input_size <? Z.of_nat (length input) then
        let '(sent, k) := k_send sockfd input 0 k in
        if sent <? 0 then Ok k else client_send fuel sockfd input (u64 (input_size + sent)) k
      else Ok k
  end.
End Client.

(** Each round sends from the beginning of the line: what is sent over a connection
    that takes two bytes at a time is not the line. *)
Lemma client_repeats : exists k,
  @client_send _ (Pipe_calls (fun _ => 2%nat)) 9 5 (str "hello!") 0 (mkPipe [] [] []) = Ok k /\ p_out k = str "hehehe".
Proof. eexists. by vm_compute. Qed.

(** ** The datagram server *)

Section Datagrams.
Context (host : endian) {K : Type} `{SockCalls K}.

(** [src/src/example/echo_server_udp.cc:21-32 run]
    One round; [buff] is what the 1024 bytes on the stack happen to be. *)
Definition udp_round (buff : bytes) (sock : Sock Address) : M K unit := fun k =>
  let from := AddrV4 (IPv4Address_new host 0 0) in
  let '((len, bs, from), k) := Socket_recvFrom host 1024 from 0 sock k in
  if len >? 0 then
    if len >=? 1024 then (Err (Undef out_of_bounds), k)
    else
      let buff := splice (Z.to_nat len) [0] (splice 0 bs buff) in
      let '(len, k) := Socket_sendTo host (take (Z.to_nat len) buff) from 0 sock k in (Ok tt, k)
  else (Ok tt, k).

(** A datagram of less than 1024 bytes goes back to its sender; one that fills the
    buffer makes the server write behind it. *)
Lemma udp_echoes buff sock b bs l k k1 : m_isConnected sock = true -> length buff = 1024%nat ->
  addr_ok (AddrV4 b) -> (0 < length bs)%nat ->
  k_recvfrom (m_sock sock) 1024 0 (addr_memory host (AddrV4 (IPv4Address_new host 0 0))) 16 k
  = ((Z.of_nat (length bs), bs, addr_memory host (AddrV4 b), l), k1) ->
  ((length bs < 1024)%nat ->
   udp_round buff sock k = (Ok tt, (k_sendto (m_sock sock) bs 0 (addr_memory host (AddrV4 b)) 16 k1).2))
  /\ (length bs = 1024%nat -> udp_round buff sock k = (Err (Undef out_of_bounds), k1)).
Proof.
  intros Hc Hb Hok Hpos Hrecv. pose proof (empty_address_ok host AF_INET) as He.
  change (empty_address host AF_INET) with (AddrV4 (IPv4Address_new host 0 0)) in He.
  pose proof (fun Hlt => recvFrom_sender host sock k 1024 (AddrV4 (IPv4Address_new host 0 0)) (AddrV4 b) 0 _ bs l k1 Hc He Hok Hlt Hrecv) as Hr.
  assert (same_class (AddrV4 (IPv4Address_new host 0 0)) (AddrV4 b)) as Hs by done. specialize (Hr Hs).
  unfold udp_round. split; intros Hlen; rewrite Hr; cbn [with_length_of].
  - rewrite s32_small by lia. rewrite Z.gtb_ltb, Z.geb_leb, (proj2 (Z.ltb_lt _ _)), (proj2 (Z.leb_gt _ _)) by lia.
    unfold Socket_sendTo. rewrite Hc, Nat2Z.id. assert (take (length bs) (splice (length bs) [0] (splice 0 bs buff)) = bs) as ->.
    { unfold splice. rewrite take_0. cbn [app]. rewrite take_app_le by (rewrite length_take, length_app; lia).
      rewrite take_take, Nat.min_id. by rewrite take_app_length. }
    cbn [getAddrLen]. by destruct (k_sendto _ _ _ _ _ _).
  - rewrite s32_small by lia. rewrite Hlen. done.
Qed.
End Datagrams.
