(* ===== verification/TcpServer.v ===== *)
(** * The TCP server ([src/src/tcp_server.cc])

    Binding, accepting and stopping on top of [Socket].  The kernel's choice of a
    descriptor is the function [pick]; its answers to [bind], [listen] and
    [accept] are given per address and per connection. *)
From S2P Require Import Prelude FdManager IOManager IOManagerSpec Hook Socket.

(** [src/include/http/tcp_server.hh:84-91 TcpServer]
    The schedulers are where the tasks below are sent. *)
Record TcpServer (A : Type) := mkServer { m_socks : list (Sock A); m_recvTimeout : Z; m_isStop : bool }.
Arguments mkServer {A}. Arguments m_socks {A}. Arguments m_recvTimeout {A}. Arguments m_isStop {A}.

(** What the kernel answers for one address. *)
Record Answer (A : Type) := mkAnswer { an_bound : bool; an_listens : bool; an_local : option A }.
Arguments mkAnswer {A}. Arguments an_bound {A}. Arguments an_listens {A}. Arguments an_local {A}.

(** A task handed to a scheduler: a loop accepting on a listener, the closing of
    the listeners, or the handling of a client. *)
Inductive Task (A : Type) := AcceptOn (s : Sock A) | CloseAll | HandleClient (s : Sock A).
Arguments AcceptOn {A}. Arguments CloseAll {A}. Arguments HandleClient {A}.

Section Server.
Context {C A : Type} `{AddressOps A} (pick : FdManager -> Z).
Notation W := (IOManager C * FdManager)%type.

(** [src/src/tcp_server.cc:13-20 TcpServer::TcpServer] *)
Definition TcpServer_new (read_timeout : Z) : TcpServer A := mkServer [] read_timeout true.

(** Sockets that go out of scope are closed ([Socket::~Socket]). *)
Fixpoint close_all (l : list (Sock A)) : M W unit :=
  match l with [] => mret () | sk :: l => Socket_close true true true sk;; close_all l end.

(** [src/src/tcp_server.cc:22-28 TcpServer::~TcpServer] *)
Definition TcpServer_delete (t : TcpServer A) : M W unit := close_all (m_socks t).

(** [src/src/tcp_server.cc:41-61 TcpServer::bind]
    The loop over the addresses. *)
Fixpoint bind_loop (addrs : list (A * Answer A)) (socks : list (Sock A)) (fails : list A) : M W (list (Sock A) * list A) :=
  match addrs with
  | [] => mret (socks, fails)
  | (addr, an) :: addrs =>
      w ← get;
      '(ok, sock) ← on_fm (Socket_bind true (pick w.2) (an_bound an) (an_local an) addr (CreateTCP addr));
      let fails := if ok : bool then fails else fails ++ [addr] in
      if negb (Socket_listen (an_listens an) sock) then
        Socket_close true true true sock;;
        bind_loop addrs socks (fails ++ [addr])
      else bind_loop addrs (socks ++ [sock]) fails
  end.

(** [src/src/tcp_server.cc:38-73 TcpServer::bind]
    The result, the failed addresses and the server. *)
Definition bind (addrs : list (A * Answer A)) (fails : list A) (t : TcpServer A) : M W (bool * list A * TcpServer A) :=
  '(socks, fails) ← bind_loop addrs (m_socks t) fails;
  match fails with
  | [] => mret (true, fails, mkServer socks (m_recvTimeout t) (m_isStop t))
  | _ =>
      close_all socks;;
      mret (false, fails, mkServer [] (m_recvTimeout t) (m_isStop t))
  end.

(** [src/src/tcp_server.cc:30-36 TcpServer::bind] *)
Definition bind_one (addr : A) (an : Answer A) (t : TcpServer A) : M W (bool * TcpServer A) :=
  '(ok, _, t) ← bind [(addr, an)] [] t; mret (ok, t).

(** What happens in one round of the accepting loop: the server is stopped, or
    [accept] returns a descriptor (or -1) with its addresses. *)
Inductive Round := Stopped | Accepts (newsock : Z) (local remote : option A).

(** [src/src/tcp_server.cc:75-90 TcpServer::startAccept]
    The clients handed to the workers; the loop goes on while rounds are given. *)
Fixpoint startAccept (rounds : list Round) (timeout : Z) (sock : Sock A) : M W (list (Task A)) :=
  match rounds with
  | [] => fail OutOfFuel
  | Stopped :: _ => mret []
  | Accepts newsock local remote :: rounds =>
      client ← on_fm (Socket_accept true newsock local remote sock);
      match client with
      | Some client =>
          on_fm (setRecvTimeout true timeout client);;
          ts ← startAccept rounds timeout sock;
          mret (HandleClient client :: ts)
      | None => startAccept rounds timeout sock
      end
  end.

(** [src/src/tcp_server.cc:92-104 TcpServer::start]
    The tasks for the accepting scheduler. *)
Definition start (t : TcpServer A) : bool * list (Task A) * TcpServer A :=
  if negb (m_isStop t) then (true, [], t)
  else (true, map AcceptOn (m_socks t), mkServer (m_socks t) (m_recvTimeout t) false).

(** [src/src/tcp_server.cc:106-109 TcpServer::stop] *)
Definition stop (t : TcpServer A) : list (Task A) * TcpServer A :=
  ([CloseAll], mkServer (m_socks t) (m_recvTimeout t) true).

(** [src/src/tcp_server.cc:109-115 TcpServer::stop]
    The task that closes the listeners. *)
Fixpoint stop_task (l : list (Sock A)) : M W unit :=
  match l with
  | [] => mret ()
  | sk :: l => Socket_cancelAll true sk;; Socket_close true true true sk;; stop_task l
  end.

(** ** Binding is all or nothing *)

(** The kernel hands out descriptors that are not open, or none. *)
Hypothesis pick_fresh : forall fm, pick fm = -1 \/ (0 <= pick fm /\ kernel fm !! pick fm = None).

(** A listener: an open hooked descriptor. *)
Definition listener (fm : FdManager) (sk : Sock A) : Prop :=
  0 <= m_sock sk /\ is_Some (ctx_at fm (m_sock sk)) /\ is_Some (kernel fm !! m_sock sk).

Definition w_ok (w : W) : Prop := io_inv w.1 /\ fm_ok w.2.

(** Different sockets have different descriptors. *)
Definition socks_ok (fm : FdManager) (l : list (Sock A)) : Prop := Forall (listener fm) l /\ NoDup (map m_sock l).

(** The descriptors not of the sockets are as before. *)
Definition others (fm fm' : FdManager) (fds : list Z) : Prop :=
  forall fd, 0 <= fd -> fd ∉ fds -> ctx_at fm' fd = ctx_at fm fd /\ kernel fm' !! fd = kernel fm !! fd.

Lemma listener_only fd fm fm' sk : only_at fd fm fm' -> m_sock sk <> fd -> listener fm sk -> listener fm' sk.
Proof.
  intros [_ Ho] Hne (H0 & H1 & H2). destruct (Ho (m_sock sk) H0 Hne) as [E1 E2].
  split; [done|]. by rewrite E1, E2.
Qed.

Lemma Socket_close_spec (w : W) sk : w_ok w -> listener w.2 sk ->
  exists w', Socket_close true true true sk w = (Ok (false, set_sock (-1) false sk), w') /\ w_ok w'
  /\ only_at (m_sock sk) w.2 w'.2 /\ ctx_at w'.2 (m_sock sk) = None /\ kernel w'.2 !! m_sock sk = None.
Proof.
  destruct w as [io fm]. intros [Hio Hfm] (H0 & [c Hc] & _). cbn [fst snd] in *.
  destruct (close_frees io fm (m_sock sk) c Hio Hfm H0 Hc) as (io' & fm' & Hrun & H1 & H2 & H3 & H4 & H5).
  exists (io', fm'). unfold Socket_close. rewrite (proj2 (Z.eqb_neq (m_sock sk) (-1))) by lia. rewrite andb_false_r.
  cbn [set_sock m_sock]. rewrite (proj2 (Z.eqb_neq (m_sock sk) (-1))) by lia. cbn [negb].
  unfold mbind, M_bind. rewrite Hrun. by split_and!.
Qed.

Lemma close_all_spec l : forall w, w_ok w -> socks_ok w.2 l ->
  exists w', close_all l w = (Ok tt, w') /\ w_ok w' /\ others w.2 w'.2 (map m_sock l)
  /\ forall sk, sk ∈ l -> ctx_at w'.2 (m_sock sk) = None /\ kernel w'.2 !! m_sock sk = None.
Proof.
  induction l as [|sk l IH]; intros w Hw [Hl Hnd]; cbn [close_all].
  { exists w. split_and!; [done|done| |]; [intros fd _ _; done|]. intros sk Hsk. by apply elem_of_nil in Hsk. }
  apply Forall_cons in Hl as [Hsk Hl]. cbn [map] in Hnd. apply NoDup_cons in Hnd as [Hni Hnd].
  destruct (Socket_close_spec w sk Hw Hsk) as (w1 & Hrun & Hw1 & Hon & Hc & Hk).
  assert (forall x, x ∈ l -> m_sock x <> m_sock sk) as Hne.
  { intros x Hx E. apply Hni. rewrite <-E. apply list_elem_of_In, in_map, list_elem_of_In. done. }
  destruct (IH w1 Hw1) as (w2 & Hrun2 & Hw2 & Ho & Hclosed).
  { split; [|done]. apply Forall_forall. intros x Hx. eapply listener_only; [done|by apply Hne|].
    rewrite Forall_forall in Hl. by apply Hl. }
  exists w2. unfold mbind, M_bind. rewrite Hrun, Hrun2. split; [done|]. split; [done|]. destruct Hsk as (Hp & _).
  split.
  - intros fd H0 Hfd. cbn [map] in Hfd. apply not_elem_of_cons in Hfd as [H1 H2].
    destruct (Ho fd H0 H2) as [-> ->]. destruct Hon as [_ Hon]. by apply Hon.
  - intros x Hx. apply elem_of_cons in Hx as [->|Hx]; [|by apply Hclosed].
    destruct (Ho (m_sock sk) Hp Hni) as [-> ->]. done.
Qed.

Definition good (a : A * Answer A) : Prop := an_bound a.2 = true /\ an_listens a.2 = true.

(** One address: the socket it leaves, open unless no descriptor was left. *)
Lemma bind_step addr an (w : W) : w_ok w ->
  exists ok sk w', on_fm (Socket_bind true (pick w.2) (an_bound an) (an_local an) addr (CreateTCP addr)) w = (Ok (ok, sk), w')
  /\ w_ok w' /\ ((m_sock sk = -1 /\ m_isConnected sk = false /\ ok = false /\ pick w.2 = -1 /\ w' = w)
     \/ (listener w'.2 sk /\ kernel w.2 !! m_sock sk = None /\ ctx_at w.2 (m_sock sk) = None
         /\ only_at (m_sock sk) w.2 w'.2 /\ ok = an_bound an)).
Proof.
  destruct w as [io fm]. intros [Hio Hfm]. cbn [fst snd] in *. unfold on_fm, Socket_bind.
  change (isVaild (CreateTCP addr)) with false. cbn [negb]. unfold mbind at 1, M_bind at 1.
  destruct (pick_fresh fm) as [E|[Hp Hk]].
  - rewrite E, newSock_fails. cbv beta iota. change (isVaild (set_sock (-1) _ _)) with false. cbn [negb].
    eexists _, _, _. split; [done|]. split; [done|]. left. by split_and!.
  - destruct (newSock_opens (pick fm) (CreateTCP addr) fm Hfm Hp Hk) as (fm' & c & Hrun & Hfm' & Hon & Hc & _ & Hk').
    rewrite Hrun. cbv beta iota. unfold isVaild. cbn [set_sock m_sock m_family].
    rewrite (proj2 (Z.eqb_neq (pick fm) (-1))) by lia. cbn [negb CreateTCP Socket_new m_family].
    rewrite Z.eqb_refl. cbn [negb].
    assert (ctx_at fm (pick fm) = None) as Hnone.
    { apply eq_None_not_Some. intros Hs. destruct (proj2 Hfm _ Hp Hs). congruence. }
    destruct (an_bound an); cbn [negb]; eexists _, _, _; (split; [done|]); (split; [done|]); right;
      unfold listener, getLocalAddress; cbn [snd]; [destruct (an_local an)|]; cbn; rewrite Hc; by split_and!.
Qed.

Lemma bind_loop_spec addrs : forall socks fails w, w_ok w -> socks_ok w.2 socks ->
  exists new bad w', bind_loop addrs socks fails w = (Ok (socks ++ new, fails ++ bad), w') /\ w_ok w'
  /\ socks_ok w'.2 (socks ++ new) /\ others w.2 w'.2 (map m_sock new) /\ bad ⊆ map fst addrs
  /\ Forall (fun x => 0 <= m_sock x /\ kernel w.2 !! m_sock x = None /\ ctx_at w.2 (m_sock x) = None) new
  /\ (bad = [] -> length new = length addrs /\ Forall good addrs)
  /\ (Forall good addrs -> (forall fm, pick fm <> -1) -> bad = []).
Proof.
  induction addrs as [|[addr an] addrs IH]; intros socks fails w Hw Hs; cbn [bind_loop].
  { exists [], [], w. rewrite !app_nil_r. split_and!; try done. }
  unfold mbind, M_bind, get. destruct (bind_step addr an w Hw) as (ok & sk & w1 & -> & Hw1 & Hcase).
  cbv beta iota. destruct Hcase as [(Hm & Hconn & -> & Hpick & ->)|(Hsk & Hk & Hc & Hon & ->)].
  - (* no descriptor *)
    unfold Socket_listen, isVaild. rewrite Hm. cbn [negb Z.eqb Pos.eqb].
    unfold Socket_close. rewrite Hconn, Hm. cbn [negb andb Z.eqb Pos.eqb].
    destruct (IH socks ((fails ++ [addr]) ++ [addr]) w Hw Hs) as (new & bad & w' & Hrun & Hw' & Hs' & Ho & Hsub & Hf & Hg & Hn).
    unfold mret, M_ret. cbv beta iota. unfold mret, M_ret in Hrun. rewrite Hrun. exists new, (addr :: addr :: bad), w'.
    split; [by rewrite <-!app_assoc|]. split; [done|]. split; [done|]. split; [done|].
    split; [cbn; set_solver|]. split; [done|]. split; [done|]. intros _ Hp. by destruct (Hp w.2).
  - assert (m_sock sk ∉ map m_sock socks) as Hni.
    { intros Hin. apply list_elem_of_In, in_map_iff in Hin as (x & E & Hx). apply list_elem_of_In in Hx.
      destruct Hs as [Hl _]. rewrite Forall_forall in Hl. destruct (Hl x Hx) as (_ & _ & [k Hk']). rewrite E in Hk'. congruence. }
    assert (socks_ok w1.2 socks) as Hs1.
    { split; [|apply Hs]. destruct Hs as [Hl _]. apply Forall_forall. intros x Hx. rewrite Forall_forall in Hl.
      eapply listener_only; [done| |by apply Hl]. intros E. apply Hni. rewrite <-E.
      apply list_elem_of_In, in_map, list_elem_of_In. done. }
    unfold Socket_listen, isVaild. pose proof Hsk as (Hp & _).
    rewrite (proj2 (Z.eqb_neq (m_sock sk) (-1))) by lia. cbn [negb].
    set (fails1 := if an_bound an then fails else fails ++ [addr]).
    destruct (an_listens an) eqn:El; cbn [negb].
    + destruct (IH (socks ++ [sk]) fails1 w1 Hw1) as (new & bad & w' & Hrun & Hw' & Hs' & Ho & Hsub & Hf & Hg & Hn).
      { split; [apply Forall_app_2; [apply Hs1|by constructor]|]. rewrite map_app. apply NoDup_app. split; [apply Hs|].
        split; [|apply NoDup_singleton]. intros x Hx Hx'. apply list_elem_of_singleton in Hx' as ->. done. }
      rewrite Hrun. exists (sk :: new), ((if an_bound an then [] else [addr]) ++ bad), w'.
      rewrite <-app_assoc in Hs' |- *. cbn [app] in Hs' |- *.
      split; [unfold fails1; destruct (an_bound an); by rewrite <-?app_assoc|]. split; [done|]. split; [done|]. split.
      { intros fd H0 Hfd. cbn [map] in Hfd. apply not_elem_of_cons in Hfd as [H1 H2].
        destruct (Ho fd H0 H2) as [-> ->]. by apply Hon. }
      split; [destruct (an_bound an); cbn; set_solver|]. split.
      { constructor; [done|]. eapply Forall_impl; [exact Hf|]. intros x (X0 & X1 & X2).
        assert (m_sock x <> m_sock sk) as Hne.
        { intros E. destruct Hsk as (_ & _ & [k Hk']). rewrite E in X1. congruence. }
        destruct Hon as [_ Hon]. destruct (Hon (m_sock x) X0 Hne) as [E1 E2]. rewrite <-E1, <-E2. done. }
      split.
      * intros E. destruct (an_bound an) eqn:Eb; [|done]. cbn in E. destruct (Hg E) as [G1 G2]. cbn. split; [congruence|].
        by constructor.
      * intros Hgood Hp'. apply Forall_cons in Hgood as [[Hb _] Hgood]. cbn in Hb. rewrite Hb. by apply Hn.
    + destruct (Socket_close_spec w1 sk Hw1 Hsk) as (w2 & Hclose & Hw2 & Hon2 & Hc2 & Hk2). rewrite Hclose. cbv beta iota.
      assert (others w.2 w2.2 []) as Hback.
      { intros fd H0 _. destruct (decide (fd = m_sock sk)) as [->|Hne]; [by rewrite Hc2, Hk2, Hc, Hk|].
        destruct Hon2 as [_ Hon2]. destruct (Hon2 fd H0 Hne) as [-> ->]. by apply Hon. }
      destruct (IH socks (fails1 ++ [addr]) w2 Hw2) as (new & bad & w' & Hrun & Hw' & Hs' & Ho & Hsub & Hf & Hg & Hn).
      { split; [|apply Hs]. destruct Hs1 as [Hl _]. apply Forall_forall. intros x Hx. rewrite Forall_forall in Hl.
        eapply listener_only; [done| |by apply Hl]. intros E. apply Hni. rewrite <-E.
        apply list_elem_of_In, in_map, list_elem_of_In. done. }
      rewrite Hrun. exists new, ((if an_bound an then [] else [addr]) ++ addr :: bad), w'.
      split; [unfold fails1; destruct (an_bound an); by rewrite <-!app_assoc|]. split; [done|]. split; [done|]. split.
      { intros fd H0 Hfd. destruct (Ho fd H0 Hfd) as [-> ->]. apply Hback; [done|apply not_elem_of_nil]. }
      split; [destruct (an_bound an); cbn; set_solver|]. split.
      { eapply Forall_impl; [exact Hf|]. intros x (X0 & X1 & X2).
        destruct (Hback (m_sock x) X0 (not_elem_of_nil _)) as [E1 E2]. rewrite <-E1, <-E2. done. }
      split; [by destruct (an_bound an)|].
      intros Hgood _. apply Forall_cons in Hgood as [[_ Hl] _]. cbn in Hl. congruence.
Qed.

(** Binding, with the new descriptors fresh. *)
Lemma bind_run addrs t (w : W) :
  w_ok w -> socks_ok w.2 (m_socks t) ->
  exists ok fails t' w', bind addrs [] t w = (Ok (ok, fails, t'), w') /\ w_ok w' /\ fails ⊆ map fst addrs
  /\ (ok = true -> fails = [] /\ Forall good addrs /\ exists new, m_socks t' = m_socks t ++ new
      /\ length new = length addrs /\ socks_ok w'.2 (m_socks t') /\ others w.2 w'.2 (map m_sock new)
      /\ Forall (fun x => kernel w.2 !! m_sock x = None) new)
  /\ (ok = false -> fails <> [] /\ m_socks t' = [] /\ others w.2 w'.2 (map m_sock (m_socks t))
      /\ forall sk, sk ∈ m_socks t -> kernel w'.2 !! m_sock sk = None)
  /\ (Forall good addrs -> (forall fm, pick fm <> -1) -> ok = true).
Proof.
  intros Hw Hs. unfold bind.
  destruct (bind_loop_spec addrs (m_socks t) [] w Hw Hs) as (new & bad & w1 & Hrun & Hw1 & Hs1 & Ho & Hsub & Hf & Hg & Hn).
  unfold mbind, M_bind. rewrite Hrun. cbn [app]. destruct bad as [|b bad].
  - eexists true, [], _, w1. split; [done|]. split; [done|]. split; [done|].
    split; [|by split]. intros _. destruct (Hg eq_refl). split; [done|]. split; [done|]. exists new. split_and!; try done.
    eapply Forall_impl; [exact Hf|]. by intros x (_ & ? & _).
  - destruct (close_all_spec (m_socks t ++ new) w1 Hw1 Hs1) as (w2 & Hrun2 & Hw2 & Ho2 & Hclosed). rewrite Hrun2.
    eexists false, (b :: bad), _, w2. split; [done|]. split; [done|]. split; [done|]. split; [done|].
    assert (forall x, x ∈ new -> kernel w.2 !! m_sock x = None /\ ctx_at w.2 (m_sock x) = None) as Hfresh.
    { intros x Hx. rewrite Forall_forall in Hf. by destruct (Hf x Hx) as (_ & ? & ?). }
    split; [|by intros Hgood Hp; specialize (Hn Hgood Hp)]. intros _. split; [done|]. split; [done|]. split.
    + intros fd H0 Hfd. destruct (decide (fd ∈ map m_sock new)) as [Hin|Hin].
      * apply list_elem_of_In, in_map_iff in Hin as (x & <- & Hx). apply list_elem_of_In in Hx.
        destruct (Hclosed x) as [-> ->]; [apply elem_of_app; by right|]. by destruct (Hfresh x Hx) as [-> ->].
      * destruct (Ho2 fd H0) as [-> ->]; [rewrite map_app, elem_of_app; tauto|]. by apply Ho.
    + intros sk Hsk. apply Hclosed. apply elem_of_app. by left.
Qed.

Lemma bind_keeps_stop addrs fails t (w : W) ok fails' t' w' :
  bind addrs fails t w = (Ok (ok, fails', t'), w') -> m_isStop t' = m_isStop t.
Proof.
  unfold bind, mbind, M_bind. destruct (bind_loop _ _ _ w) as [[[socks bad]|e] w1]; [|done].
  destruct bad; [by intros [= <- <- <- <-]|]. destruct (close_all socks w1) as [[[]|e] w2]; [|done].
  by intros [= <- <- <- <-].
Qed.

(** Binding a server to a list of addresses is all or nothing: either every
    address has an open listener of its own and the other descriptors are as they
    were, or the failed addresses are reported, the server has no listeners, and
    every descriptor opened on the way (and those it had) is closed again. *)
Theorem bind_all_or_nothing addrs t (w : W) :
  w_ok w -> socks_ok w.2 (m_socks t) ->
  exists ok fails t' w', bind addrs [] t w = (Ok (ok, fails, t'), w') /\ w_ok w' /\ fails ⊆ map fst addrs
  /\ (ok = true -> fails = [] /\ Forall good addrs /\ exists new, m_socks t' = m_socks t ++ new
      /\ length new = length addrs /\ socks_ok w'.2 (m_socks t') /\ others w.2 w'.2 (map m_sock new))
  /\ (ok = false -> fails <> [] /\ m_socks t' = [] /\ others w.2 w'.2 (map m_sock (m_socks t))
      /\ forall sk, sk ∈ m_socks t -> kernel w'.2 !! m_sock sk = None)
  /\ (Forall good addrs -> (forall fm, pick fm <> -1) -> ok = true).
Proof.
  intros Hw Hs. destruct (bind_run addrs t w Hw Hs) as (ok & fails & t' & w' & H1 & H2 & H3 & H4 & H5).
  exists ok, fails, t', w'. split_and!; try done; [|apply H5..]. intros Hok. destruct (H4 Hok) as (? & ? & new & ? & ? & ? & ? & _).
  split_and!; try done. by exists new.
Qed.

(** ** Accepting *)

(** What [accept] delivers, one after the other. *)
Definition round_of (c : Z * option A * option A) : Round := Accepts c.1.1 c.1.2 c.2.
Definition delivered (conns : list (Z * option A * option A)) : list Z :=
  omap (fun c => if c.1.1 =? -1 then None else Some c.1.1) conns.

Lemma Socket_accept_opens fd local remote sk fm : fm_ok fm -> 0 <= fd -> kernel fm !! fd = None ->
  exists fm' client c, Socket_accept true fd local remote sk fm = (Ok (Some client), fm') /\ fm_ok fm' /\ only_at fd fm fm'
  /\ m_sock client = fd /\ m_isConnected client = true /\ ctx_at fm' fd = Some c.
Proof.
  intros Hfm Hfd Hk.
  destruct (newSock_opens (A := A) fd (Socket_new (m_family sk) (m_type sk) (m_protocol sk)) fm Hfm Hfd Hk)
    as (fm' & c & Hrun & Hfm' & Hon & Hc & Hmg & _).
  exists fm'. unfold Socket_accept. unfold newSock, hook_socket in Hrun. unfold hook_accept.
  unfold mbind, M_bind in *. unfold kernel_opens in *. rewrite (proj2 (Z.eqb_neq fd (-1))) in * by lia.
  unfold modify in *. cbv beta iota in *. cbn [negb] in Hrun. rewrite (proj2 (Z.geb_le fd 0)) by lia.
  destruct (FdManager_get fd true (set_kernel (<[fd := mkFile true 2]> (kernel fm)) fm)) as [[o|e] fm1]; [|done].
  unfold mret, M_ret in *. cbv beta iota zeta in *. rewrite (proj2 (Z.eqb_neq fd (-1))) in * by lia. cbn [negb] in Hrun.
  rewrite initSock_quiet in Hrun. injection Hrun as ->.
  unfold Socket_init. unfold mbind, M_bind. rewrite (get_existing fm' fd false c Hfd Hc), Hmg.
  rewrite initSock_quiet. unfold mret, M_ret. cbv beta iota zeta.
  eexists _, c. split; [done|]. split; [done|]. split; [done|].
  unfold getRemoteAddress, getLocalAddress. destruct local, remote; cbn; by split_and!.
Qed.

(** Every connection that [accept] delivers before the server stops is handed
    to a worker as a connected socket of its own, in order and exactly once, with
    the server's receive timeout set; failures of [accept] hand over nothing. *)
Theorem startAccept_hands_over conns timeout sock (w : W) :
  w_ok w -> 0 <= timeout < 2 ^ 31 * 1000 ->
  NoDup (delivered conns) -> Forall (fun fd => 0 <= fd /\ kernel w.2 !! fd = None) (delivered conns) ->
  exists clients w', startAccept (map round_of conns ++ [Stopped]) timeout sock w = (Ok (map HandleClient clients), w')
  /\ w_ok w' /\ map m_sock clients = delivered conns
  /\ Forall (fun c => m_isConnected c = true
       /\ exists x, ctx_at w'.2 (m_sock c) = Some x /\ getTimeout SO_RCVTIMEO x = timeout) clients.
Proof.
  intros Hw Ht Hnd Hfresh.
  cut (exists clients w', startAccept (map round_of conns ++ [Stopped]) timeout sock w = (Ok (map HandleClient clients), w')
    /\ w_ok w' /\ map m_sock clients = delivered conns /\ others w.2 w'.2 (delivered conns)
    /\ Forall (fun c => m_isConnected c = true
         /\ exists x, ctx_at w'.2 (m_sock c) = Some x /\ getTimeout SO_RCVTIMEO x = timeout) clients).
  { intros (cl & w' & H1 & H2 & H3 & _ & H4). by exists cl, w'. }
  revert w Hw Hnd Hfresh. induction conns as [|[[fd local] remote] conns IH]; intros w Hw Hnd Hfresh.
  { exists [], w. split_and!; try done. }
  cbn [map app startAccept round_of fst snd]. unfold delivered in *. cbn [omap list_omap fst] in *.
  fold (delivered conns) in *. destruct w as [io fm]. destruct Hw as [Hio Hfm]. cbn [fst snd] in *.
  destruct (Z.eqb_spec fd (-1)) as [->|Hne].
  - unfold mbind at 1, M_bind at 1. change (on_fm (Socket_accept true (-1) local remote sock) (io, fm)) with (Ok (@None (Sock A)), (io, fm)).
    cbv beta iota. apply (IH (io, fm)); done.
  - apply NoDup_cons in Hnd as [Hni Hnd]. apply Forall_cons in Hfresh as [[Hfd Hk] Hfresh].
    destruct (Socket_accept_opens fd local remote sock fm Hfm Hfd Hk) as (fm1 & cl & c & Hrun & Hfm1 & Hon1 & Hs & Hconn & Hc).
    subst fd. destruct (set_timeout_spec SO_RCVTIMEO timeout cl fm1 c Hfd Hc Ht (or_introl eq_refl)) as (fm2 & Hrun2 & Hc2 & Hk2 & Ho2).
    assert (only_at (m_sock cl) fm fm2) as Hon.
    { eapply only_at_trans; [exact Hon1|]. split; [|intros fd' H0 Hn'; by rewrite Hk2, Ho2].
      revert Hrun2. unfold setOption, setsockopt_timeout. cbn [negb]. destruct (_ && _); [|by intros [= <-]].
      unfold mbind, M_bind. rewrite (get_existing fm1 _ false c) by done. intros [= <-].
      cbn. by rewrite length_alter. }
    assert (fm_ok fm2) as Hfm2.
    { destruct Hfm1 as [L1 K1]. split; [destruct Hon as [Hl _]; destruct Hfm; lia|]. intros fd' H0 Hsome. rewrite Hk2. apply K1; [done|].
      destruct (decide (fd' = m_sock cl)) as [->|Hn']; [by rewrite Hc|]. by rewrite <-Ho2. }
    destruct (IH (io, fm2)) as (cls & w' & Hrun3 & Hw' & Hm & Ho & Hall); [done|done| |].
    { apply Forall_forall. intros fd' Hin. rewrite Forall_forall in Hfresh. destruct (Hfresh fd' Hin) as [H0 Hk'].
      split; [done|]. destruct Hon as [_ Hon]. destruct (Hon fd' H0) as [_ E]; [by intros ->|]. cbn. by rewrite E. }
    exists (cl :: cls), w'. unfold mbind at 1, M_bind at 1, on_fm at 1. rewrite Hrun. cbv beta iota.
    unfold mbind, M_bind, on_fm. unfold setRecvTimeout. rewrite Hrun2. cbv beta iota. unfold mbind, M_bind in Hrun3.
    rewrite Hrun3. split; [done|]. split; [done|]. split; [cbn; by rewrite Hm|]. split.
    + intros fd' H0 Hn'. apply not_elem_of_cons in Hn' as [H1 H2]. destruct (Ho fd' H0 H2) as [-> ->]. cbn.
      destruct Hon as [_ Hon]. by apply Hon.
    + constructor; [|done]. split; [done|]. destruct (Ho (m_sock cl) Hfd Hni) as [E _]. rewrite E. cbn.
      eexists. split; [exact Hc2|]. apply Z.mod_small. lia.
Qed.
End Server.

(** ** Witnesses *)

#[local] Instance demo_address : AddressOps nat := {| getFamily _ := PF_INET; UnknowAddress _ := 0%nat |}.

(** A kernel with two descriptors to give. *)
Definition demo_pick (fm : FdManager) : Z :=
  if decide (kernel fm !! 7 = None) then 7 else if decide (kernel fm !! 8 = None) then 8 else -1.

Definition demo_w : IOManager nat * FdManager := (IOManager_new, FdManager_new ∅).

Lemma demo_w_ok : w_ok demo_w.
Proof.
  split; [exact IOManager_new_inv|]. split; [cbn; lia|]. intros fd Hfd [c Hc]. exfalso. unfold ctx_at in Hc.
  rewrite (proj2 (Z.ltb_ge fd 0)) in Hc by lia. cbn [demo_w snd FdManager_new m_datas] in Hc.
  destruct (repeat None 64 !! Z.to_nat fd) as [o|] eqn:E; [|done].
  by apply list_elem_of_lookup_2, list_elem_of_In, repeat_spec in E as ->.
Qed.

Lemma demo_pick_fresh fm : demo_pick fm = -1 \/ (0 <= demo_pick fm /\ kernel fm !! demo_pick fm = None).
Proof.
  unfold demo_pick. destruct (decide (kernel fm !! 7 = None)); [right; split; [lia|done]|].
  destruct (decide (kernel fm !! 8 = None)); [right; split; [lia|done]|by left].
Qed.

Definition demo_addrs : list (nat * Answer nat) := [(80%nat, mkAnswer true true None); (81%nat, mkAnswer true false None)].

Lemma bind_all_or_nothing_witness :
  exists ok fails t' w', bind demo_pick demo_addrs [] (TcpServer_new 120000) demo_w = (Ok (ok, fails, t'), w') /\ w_ok w'
  /\ fails ⊆ map fst demo_addrs
  /\ (ok = false -> fails <> [] /\ m_socks t' = [] /\ others demo_w.2 w'.2 [] ).
Proof.
  destruct (bind_all_or_nothing demo_pick demo_pick_fresh demo_addrs (TcpServer_new 120000) demo_w)
    as (ok & fails & t' & w' & H1 & H2 & H3 & _ & H4 & _); [exact demo_w_ok|split; constructor|].
  exists ok, fails, t', w'. split; [exact H1|]. split; [exact H2|]. split; [exact H3|].
  intros Hok. destruct (H4 Hok) as (G1 & G2 & G3 & _). split; [exact G1|]. split; [exact G2|exact G3].
Defined.

Lemma startAccept_hands_over_witness :
  exists clients w', startAccept (map round_of [(5, None, None); (-1, None, None); (6, None, None)] ++ [Stopped]) 120000
      (CreateTCP 80%nat) demo_w = (Ok (map HandleClient clients), w')
  /\ w_ok w' /\ map m_sock clients = [5; 6]
  /\ Forall (fun c => m_isConnected c = true
       /\ exists x, ctx_at w'.2 (m_sock c) = Some x /\ getTimeout SO_RCVTIMEO x = 120000) clients.
Proof.
  apply (startAccept_hands_over [(5, None, None); (-1, None, None); (6, None, None)] 120000 (CreateTCP 80%nat) demo_w);
    [exact demo_w_ok|lia| |].
  - apply (bool_decide_unpack _). vm_compute. exact I.
  - repeat constructor; vm_compute; done || discriminate.
Defined.

(** A failed [bind] goes on to [listen], and its address is reported twice when
    that fails too. *)
Lemma failed_address_twice :
  exists w' t', bind demo_pick [(80%nat, mkAnswer false false None)] [] (TcpServer_new 0) demo_w
  = (Ok (false, [80%nat; 80%nat], t'), w').
Proof. eexists _, _. vm_compute. reflexivity. Qed.
