(* ===== verification/Thread.v ===== *)
(** * Threads and locks ([src/src/thread.cc], [include/sylar/thread.hh])

    The scoped locks over the locks of pthread, the spin lock on an atomic flag, and
    the hand-shake between a thread's creator and its [run].  The locks of pthread
    answer as POSIX says, errors included ([pthread_lock], [pthread_unlock]), and the
    classes of the source ignore what they return ([do_call]); threads interleave
    arbitrarily, one access at a time. *)
From Stdlib Require Import String.
From S2P Require Import Prelude CString.

#[local] Open Scope string_scope.
#[local] Open Scope list_scope.
#[local] Open Scope Z_scope.

(** ** Scoped locks *)

(** The calls a scoped lock makes. *)
Inductive call := c_lock | c_rdlock | c_wrlock | c_unlock.

(** What a scoped lock does: the calls made and the new [m_locked]. *)
Record GuardOps := mkOps {
  go_new : list call * bool;
  go_lock : bool -> list call * bool;
  go_unlock : bool -> list call * bool;
  go_delete : bool -> list call * bool
}.

(** The constructor acquires; [lock] and [unlock] act unless it is done already; the
    destructor is [unlock]. *)
Definition guard_ops (acquire : call) : GuardOps :=
  let unlock m_locked := if (m_locked : bool) then ([c_unlock], false) else ([], m_locked) in
  {| go_new := ([acquire], true);
     go_lock m_locked := if negb m_locked then ([acquire], true) else ([], m_locked);
     go_unlock := unlock;
     go_delete := unlock |}.

(** [src/include/sylar/thread.hh:35-65 ScopedLockImpl] *)
Definition ScopedLockImpl : GuardOps := guard_ops c_lock.

(** [src/include/sylar/thread.hh:67-97 ReadScopedLockImpl] *)
Definition ReadScopedLockImpl : GuardOps := guard_ops c_rdlock.

(** [src/include/sylar/thread.hh:99-129 WriteScopedLockImpl] *)
Definition WriteScopedLockImpl : GuardOps := guard_ops c_wrlock.

Inductive Kind := Scoped | ReadScoped | WriteScoped.

#[export] Instance Kind_eq_dec : EqDecision Kind.
Proof. solve_decision. Defined.

Definition ops_of (k : Kind) : GuardOps :=
  match k with Scoped => ScopedLockImpl | ReadScoped => ReadScopedLockImpl | WriteScoped => WriteScopedLockImpl end.

(** ** The locks of pthread *)

(** A lock by itself: free, held by readers, or held by one. *)
Inductive LockState := Free | Readers (n : Z) | Exclusive.

(** Whether the caller gets the lock now. *)
Definition acquire (c : call) (l : LockState) : option LockState :=
  match c, l with
  | c_rdlock, Free => Some (Readers 1)
  | c_rdlock, Readers n => Some (Readers (n + 1))
  | (c_lock | c_wrlock), Free => Some Exclusive
  | _, _ => None
  end.

(** Releasing a lock that is free is undefined. *)
Definition release (l : LockState) : result LockState :=
  match l with
  | Free => Err (Undef bad_unlock)
  | Readers n => Ok (if n =? 1 then Free else Readers (n - 1))
  | Exclusive => Ok Free
  end.

(** The locks of pthread know their threads: the one that holds the lock, or the readers,
    each as often as it has locked.  A read-write lock can be read-locked [max_readers]
    times at once. *)
Inductive Held := HFree | HReaders (ts : list nat) | HExclusive (t : nat).

Class Pthread := { max_readers : Z }.

Definition EAGAIN : Z := 11.
Definition EDEADLK : Z := 35.

(** What a call for a lock comes to: the lock is granted, the caller waits, or the call
    returns an error. *)
Inductive answer := Granted (l : Held) | Waits | Fails (errno : Z).

Fixpoint drop_one (t : nat) (ts : list nat) : list nat :=
  match ts with [] => [] | x :: ts => if decide (x = t) then ts else x :: drop_one t ts end.

(** [pthread_mutex_unlock], [pthread_rwlock_unlock] and [pthread_spin_unlock]: undefined
    when the caller does not hold the lock. *)
Definition pthread_unlock (t : nat) (l : Held) : result Held :=
  match l with
  | HFree => Err (Undef bad_unlock)
  | HReaders ts =>
      if decide (t ∈ ts) then Ok (match drop_one t ts with [] => HFree | ts' => HReaders ts' end)
      else Err (Undef bad_unlock)
  | HExclusive o => if decide (o = t) then Ok HFree else Err (Undef bad_unlock)
  end.

Section Pthreads.
Context `{Pthread}.

(** [pthread_mutex_lock] and [pthread_spin_lock] wait for the lock, also for the caller's
    own; [pthread_rwlock_rdlock] and [pthread_rwlock_wrlock] refuse a thread that holds
    the lock for writing, and the first refuses too many readers. *)
Definition pthread_lock (t : nat) (c : call) (l : Held) : answer :=
  match c, l with
  | c_rdlock, HFree => if 0 <? max_readers then Granted (HReaders [t]) else Fails EAGAIN
  | c_rdlock, HReaders ts =>
      if Z.of_nat (length ts) <? max_readers then Granted (HReaders (t :: ts)) else Fails EAGAIN
  | (c_rdlock | c_wrlock), HExclusive o => if decide (o = t) then Fails EDEADLK else Waits
  | (c_lock | c_wrlock), HFree => Granted (HExclusive t)
  | _, _ => Waits
  end.

(** [src/include/sylar/thread.hh:131-154 Mutex]
    With [Spinlock] (lines 210-233) and [RWMutex] (166-194), by thread [t]: each member
    function is one call of pthread whose result is ignored.  None when the caller has
    to wait. *)
Definition do_call (t : nat) (c : call) (l : Held) : option (result Held) :=
  match c with
  | c_unlock => Some (pthread_unlock t l)
  | _ => match pthread_lock t c l with
         | Granted l' => Some (Ok l')
         | Fails _ => Some (Ok l)
         | Waits => None
         end
  end.

Fixpoint do_calls (t : nat) (cs : list call) (l : Held) : option (result Held) :=
  match cs with
  | [] => Some (Ok l)
  | c :: cs => match do_call t c l with
               | Some (Ok l') => do_calls t cs l'
               | r => r
               end
  end.

(** A scoped lock: its thread, its kind, and [m_locked]; none once destroyed. *)
Notation scoped := (option (nat * Kind * bool)) (only parsing).

(** One lock and the scoped locks on it, of all threads.  A scoped lock is a local
    variable: the thread that made it makes the calls on it. *)
Record Sys := mkSys { the_lock : Held; guards : list scoped }.

Inductive gop := GNew (t : nat) (k : Kind) | GLock (g : nat) | GUnlock (g : nat) | GDelete (g : nat).

Definition on_guard (s : Sys) (g : nat) (f : GuardOps -> bool -> list call * bool) (keep : bool) : option (result Sys) :=
  match guards s !! g with
  | Some (Some (t, k, m_locked)) =>
      let '(cs, m_locked') := f (ops_of k) m_locked in
      match do_calls t cs (the_lock s) with
      | Some (Ok l) => Some (Ok (mkSys l (<[g := if keep then Some (t, k, m_locked') else None]> (guards s))))
      | Some (Err e) => Some (Err e)
      | None => None
      end
  | _ => Some (Ok s)
  end.

Definition exec (o : gop) (s : Sys) : option (result Sys) :=
  match o with
  | GNew t k =>
      let '(cs, m_locked) := go_new (ops_of k) in
      match do_calls t cs (the_lock s) with
      | Some (Ok l) => Some (Ok (mkSys l (guards s ++ [Some (t, k, m_locked)])))
      | Some (Err e) => Some (Err e)
      | None => None
      end
  | GLock g => on_guard s g go_lock true
  | GUnlock g => on_guard s g go_unlock true
  | GDelete g => on_guard s g go_delete false
  end.

(** ** Counting holders *)

Section Totals.
Context {A : Type} (f : A -> Z).

Fixpoint total (l : list A) : Z := match l with [] => 0 | x :: l => f x + total l end.

Lemma total_app l1 l2 : total (l1 ++ l2) = total l1 + total l2.
Proof. induction l1 as [|x l1 IH]; cbn; lia. Qed.

Lemma total_insert l i x y : l !! i = Some x -> total (<[i := y]> l) = total l - f x + f y.
Proof.
  revert i. induction l as [|z l IH]; intros [|i] Hi; try done.
  - cbn in *. injection Hi as ->. lia.
  - specialize (IH i Hi). change (<[S i := y]> (z :: l)) with (z :: <[i := y]> l). cbn [total]. lia.
Qed.

Hypothesis f_nonneg : forall x, 0 <= f x.

Lemma total_nonneg l : 0 <= total l.
Proof. induction l as [|x l IH]; cbn; [done|]. pose proof (f_nonneg x). lia. Qed.

Lemma total_lookup l i x : l !! i = Some x -> f x <= total l.
Proof.
  revert i. induction l as [|z l IH]; intros [|i] Hi; try done; cbn in *.
  - injection Hi as ->. pose proof (total_nonneg l). lia.
  - specialize (IH i Hi). pose proof (f_nonneg z). lia.
Qed.

Lemma total_two l i j x y : i <> j -> l !! i = Some x -> l !! j = Some y -> f x + f y <= total l.
Proof.
  revert i j. induction l as [|z l IH]; intros [|i] [|j] Hne Hi Hj; try done; cbn in *.
  - injection Hi as ->. pose proof (total_lookup l j y Hj). lia.
  - injection Hj as ->. pose proof (total_lookup l i x Hi). lia.
  - pose proof (IH i j ltac:(congruence) Hi Hj). pose proof (f_nonneg z). lia.
Qed.
End Totals.

(** A smaller count is smaller by at least what one element makes. *)
Lemma total_gap {A} (f h : A -> Z) l i x : (forall y, f y <= h y) -> l !! i = Some x ->
  total f l + (h x - f x) <= total h l.
Proof.
  intros Hle. revert i. induction l as [|z l IH]; intros [|i] Hi; try done; cbn in *.
  - injection Hi as ->. assert (total f l <= total h l); [|lia]. clear IH.
    induction l as [|y l IH]; cbn; [done|]. pose proof (Hle y). lia.
  - specialize (IH i Hi). pose proof (Hle z). lia.
Qed.

Definition reads (g : scoped) : Z := match g with Some (_, ReadScoped, true) => 1 | _ => 0 end.
Definition writes (g : scoped) : Z :=
  match g with Some (_, ReadScoped, _) => 0 | Some (_, _, true) => 1 | _ => 0 end.
Definition by_thread (t : nat) (f : scoped -> Z) (g : scoped) : Z :=
  match g with Some (t', _, _) => if decide (t' = t) then f g else 0 | None => 0 end.
Definition occ (t x : nat) : Z := if decide (x = t) then 1 else 0.

Lemma reads_nonneg g : 0 <= reads g.
Proof. destruct g as [[[? []] []]|]; cbn; lia. Qed.
Lemma writes_nonneg g : 0 <= writes g.
Proof. destruct g as [[[? []] []]|]; cbn; lia. Qed.
Lemma by_thread_le t f g : (forall g, 0 <= f g) -> by_thread t f g <= f g.
Proof. intros Hf. unfold by_thread. pose proof (Hf g). destruct g as [[[t' k] b]|]; [case_decide|]; lia. Qed.
Lemma by_thread_nonneg t f g : (forall g, 0 <= f g) -> 0 <= by_thread t f g.
Proof. intros Hf. unfold by_thread. pose proof (Hf g). destruct g as [[[t' k] b]|]; [case_decide|]; lia. Qed.
Lemma occ_nonneg t x : 0 <= occ t x.
Proof. unfold occ. case_decide; lia. Qed.

Lemma occ_elem t ts : t ∈ ts <-> 0 < total (occ t) ts.
Proof.
  induction ts as [|x ts IH]; cbn; [split; [by intros []%not_elem_of_nil|lia]|].
  pose proof (total_nonneg (occ t) (occ_nonneg t) ts). rewrite elem_of_cons, IH.
  assert (occ t x = if decide (x = t) then 1 else 0) as -> by done. case_decide; [subst; split; [lia|by left]|]. split; [intros [->|]; [done|lia]|right; lia].
Qed.

Lemma occ_drop t ts u : t ∈ ts -> total (occ u) (drop_one t ts) = total (occ u) ts - occ u t.
Proof.
  induction ts as [|x ts IH]; [by intros []%not_elem_of_nil|]. cbn. case_decide; [subst; cbn; lia|].
  intros [->|Hin]%elem_of_cons; [done|]. cbn. specialize (IH Hin). lia.
Qed.

Lemma length_drop_one t ts : t ∈ ts -> Z.of_nat (length (drop_one t ts)) = Z.of_nat (length ts) - 1.
Proof.
  induction ts as [|x ts IH]; [by intros []%not_elem_of_nil|]. cbn. case_decide; [lia|].
  intros [->|Hin]%elem_of_cons; [done|]. cbn. specialize (IH Hin). lia.
Qed.

(** The lock is held by exactly the scoped locks that are locked, and for their threads. *)
Definition lock_ok (s : Sys) : Prop :=
  match the_lock s with
  | HFree => total reads (guards s) = 0 /\ total writes (guards s) = 0
  | HReaders ts => ts <> [] /\ total reads (guards s) = Z.of_nat (length ts) /\ total writes (guards s) = 0
      /\ forall t, total (by_thread t reads) (guards s) = total (occ t) ts
  | HExclusive o => total reads (guards s) = 0 /\ total writes (guards s) = 1
      /\ total (by_thread o writes) (guards s) = 1
  end.

(** The scoped lock that an operation wants to lock. *)
Definition wants (o : gop) (s : Sys) : option (nat * Kind) :=
  match o with
  | GNew t k => Some (t, k)
  | GLock g => match guards s !! g with Some (Some (t, k, false)) => Some (t, k) | _ => None end
  | _ => None
  end.

(** The discipline on threads: while one holds a read-write lock for writing it does not
    lock it again, and there are never more than [max_readers] readers. *)
Definition may_want (t : nat) (k : Kind) (gs : list scoped) : Prop :=
  k <> Scoped ->
  (forall g k', k' <> ReadScoped -> gs !! g <> Some (Some (t, k', true)))
  /\ (k = ReadScoped -> total reads gs < max_readers).

Definition disciplined (o : gop) (s : Sys) : Prop :=
  match wants o s with Some (t, k) => may_want t k (guards s) | None => True end.

Inductive greach : Sys -> Prop :=
| greach_new : greach (mkSys HFree [])
| greach_op s o s' : greach s -> disciplined o s -> exec o s = Some (Ok s') -> greach s'.

(** What counts only locked scoped locks. *)
Definition counting (f : scoped -> Z) : Prop := f None = 0 /\ forall t k, f (Some (t, k, false)) = 0.

Lemma counting_reads : counting reads.
Proof. split; [done|]. by intros t []. Qed.
Lemma counting_writes : counting writes.
Proof. split; [done|]. by intros t []. Qed.
Lemma counting_by t f : counting f -> counting (by_thread t f).
Proof. intros [_ Hf]. split; [done|]. intros t' k. cbn. case_decide; [apply Hf|done]. Qed.

(** Locking a scoped lock, when the discipline allows it. *)
Lemma lock_call t k l gs gs' c : lock_ok (mkSys l gs) -> may_want t k gs ->
  c = match k with Scoped => c_lock | ReadScoped => c_rdlock | WriteScoped => c_wrlock end ->
  (forall f, counting f -> total f gs' = total f gs + f (Some (t, k, true))) ->
  match do_call t c l with
  | Some (Ok l') => lock_ok (mkSys l' gs')
  | Some (Err _) => False
  | None => l <> HFree
  end.
Proof.
  intros Hok Hd -> Hgs. pose proof (Hgs reads counting_reads) as Hr. pose proof (Hgs writes counting_writes) as Hw.
  pose proof (fun u => Hgs _ (counting_by u _ counting_reads)) as Hru.
  pose proof (fun u => Hgs _ (counting_by u _ counting_writes)) as Hwu.
  unfold may_want in Hd. unfold lock_ok in *. cbn [the_lock guards] in *.
  destruct l as [|ts|o].
  - assert (total (by_thread t writes) gs = 0) as H0.
    { pose proof (total_nonneg (by_thread t writes) (fun g => by_thread_nonneg t _ g writes_nonneg) gs).
      assert (forall l, total (by_thread t writes) l <= total writes l); [|pose proof (H1 gs); lia].
      induction l as [|g l IH]; cbn; [done|]. pose proof (by_thread_le t _ g writes_nonneg). lia. }
    assert (forall u, total (by_thread u reads) gs = 0) as H1.
    { intros u. pose proof (total_nonneg (by_thread u reads) (fun g => by_thread_nonneg u _ g reads_nonneg) gs).
      assert (forall l, total (by_thread u reads) l <= total reads l); [|pose proof (H2 gs); lia].
      induction l as [|g l IH]; cbn; [done|]. pose proof (by_thread_le u _ g reads_nonneg). lia. }
    destruct k; cbn in *.
    + rewrite Hwu, decide_True by done. split_and!; lia.
    + destruct (Z.ltb_spec 0 max_readers) as [|Hm]; [|destruct Hd as [_ Hd]; [done|]; specialize (Hd eq_refl); lia].
      split_and!; [done|cbn; lia|lia|]. intros u. rewrite Hru, H1. cbn. unfold occ. lia.
    + rewrite Hwu, decide_True by done. split_and!; lia.
  - destruct Hok as (Hne & Hlen & Hw0 & Hts). destruct k; cbn in *; try done.
    destruct Hd as [_ Hd]; [done|]. specialize (Hd eq_refl). destruct (Z.ltb_spec (Z.of_nat (length ts)) max_readers); [|lia].
    split_and!; [done|cbn; lia|lia|]. intros u. rewrite Hru, Hts. cbn. unfold occ at 2. lia.
  - destruct Hok as (H0 & H1 & H2). destruct k; cbn; try done.
    all: destruct (decide (o = t)) as [->|]; [exfalso|done].
    all: destruct Hd as [Hd _]; [done|]; clear -Hd H2; induction gs as [|g gs IH]; cbn in *; [lia|].
    all: assert (by_thread t writes g = 0) as Hg by
      (pose proof (Hd 0%nat) as Hx; destruct g as [[[u k] b]|]; cbn in *; [|done]; case_decide; [subst|done];
       destruct b; [|by destruct k]; destruct k; [by destruct (Hx Scoped)|done|by destruct (Hx WriteScoped)]).
    all: apply IH; [lia|intros i k' Hk'; apply (Hd (S i) k' Hk')].
Qed.

(** Unlocking one that is locked. *)
Lemma unlock_call g t k l gs gs' : lock_ok (mkSys l gs) -> gs !! g = Some (Some (t, k, true)) ->
  (forall f, counting f -> total f gs' = total f gs - f (Some (t, k, true))) ->
  exists l', do_call t c_unlock l = Some (Ok l') /\ lock_ok (mkSys l' gs').
Proof.
  intros Hok Hg Hgs. pose proof (Hgs reads counting_reads) as Hr. pose proof (Hgs writes counting_writes) as Hw.
  pose proof (fun u => Hgs _ (counting_by u _ counting_reads)) as Hru.
  pose proof (total_lookup reads reads_nonneg gs g _ Hg) as Lr.
  pose proof (total_lookup writes writes_nonneg gs g _ Hg) as Lw.
  unfold lock_ok in Hok. cbn [the_lock guards do_call pthread_unlock] in *. destruct l as [|ts|o].
  - destruct k; cbn in *; lia.
  - destruct Hok as (Hne & Hlen & Hw0 & Hts). destruct k; cbn in Lw; try lia.
    pose proof (total_lookup _ (fun x => by_thread_nonneg t _ x reads_nonneg) gs g _ Hg) as Lt.
    cbn in Lt. rewrite decide_True in Lt by done.
    assert (t ∈ ts) as Hin by (apply occ_elem; rewrite <-Hts; lia).
    cbn [pthread_unlock]. rewrite decide_True by done.
    pose proof (length_drop_one t ts Hin) as Hl. eexists. split; [done|]. unfold lock_ok. cbn [the_lock guards].
    destruct (drop_one t ts) as [|x ts'] eqn:E; cbn in Hr, Hw, Hl; [lia|]. split_and!; [done|cbn; lia|lia|].
    intros u. rewrite Hru, Hts, <-E, occ_drop by done. cbn. unfold occ. lia.
  - destruct Hok as (H0 & H1 & H2). destruct k; cbn in Lr; try lia.
    all: assert (o = t) as -> by (destruct (decide (t = o)) as [|Hne]; [done|];
      pose proof (total_gap (by_thread o writes) writes gs g _ (fun y => by_thread_le o _ y writes_nonneg) Hg) as Hx;
      cbn in Hx; rewrite decide_False in Hx by done; lia).
    all: cbn [pthread_unlock]; rewrite decide_True by done; eexists; split; [done|]; unfold lock_ok; cbn in *; lia.
Qed.

Lemma do_calls_one t c l : do_calls t [c] l = match do_call t c l with Some (Ok l') => Some (Ok l') | r => r end.
Proof. cbn [do_calls]. by destruct (do_call t c l) as [[]|]. Qed.

Lemma exec_ok o s : lock_ok s -> disciplined o s ->
  match exec o s with Some (Ok s') => lock_ok s' | Some (Err _) => False | None => the_lock s <> HFree end.
Proof.
  intros Hok Hd. destruct s as [l gs]. unfold disciplined in Hd.
  assert (forall g t k b b', gs !! g = Some (Some (t, k, b)) -> b' <> Some (t, k, true) -> forall f, counting f ->
    f b' = 0 -> total f (<[g := b']> gs) = total f gs - f (Some (t, k, b))) as Hins.
  { intros g t k b b' Hg _ f _ Hb'. rewrite (total_insert _ _ _ _ _ Hg). lia. }
  assert (forall g t k keep f, gs !! g = Some (Some (t, k, true)) ->
    f = go_unlock (ops_of k) -> match on_guard (mkSys l gs) g (fun _ => f) keep with
      Some (Ok s') => lock_ok s' | _ => False end) as Hunlock.
  { intros g t k keep f Hg ->. unfold on_guard. cbn [guards the_lock]. rewrite Hg.
    destruct (unlock_call g t k l gs (<[g := if keep then Some (t, k, false) else None]> gs) Hok Hg) as (l' & Hl' & Hok').
    { intros f Hf. apply (Hins g t k true); [done|by destruct keep|done|]. destruct Hf as [? Hf]. by destruct keep. }
    replace (go_unlock (ops_of k) true) with ([c_unlock], false) by (by destruct k).
    rewrite do_calls_one, Hl'. done. }
  assert (forall g keep f, (forall k, f (ops_of k) = go_unlock (ops_of k)) ->
    match on_guard (mkSys l gs) g f keep with
      Some (Ok s') => lock_ok s' | _ => False end) as Hun.
  { intros g keep f Hf. destruct (gs !! g) as [[[[t k] []]|]|] eqn:E.
    - pose proof (Hunlock g t k keep _ E eq_refl) as Hx. unfold on_guard in *. cbn [guards the_lock] in *. rewrite E in *.
      by rewrite Hf.
    - unfold on_guard. cbn [guards the_lock]. rewrite E, Hf.
      replace (go_unlock (ops_of k) false) with ([] : list call, false) by (by destruct k). cbn [do_calls].
      unfold lock_ok in *. cbn [the_lock guards] in *.
      assert (forall h, counting h -> total h (<[g := if keep then Some (t, k, false) else None]> gs) = total h gs) as Ht.
      { intros h [Hn Hh]. rewrite (total_insert _ _ _ _ _ E), Hh. destruct keep; rewrite ?Hh, ?Hn; lia. }
      rewrite !Ht by (apply counting_reads || apply counting_writes). destruct l; try done.
      + destruct Hok as (? & ? & ? & Hts). split_and!; try done. intros u. by rewrite Ht by apply counting_by, counting_reads.
      + by rewrite Ht by apply counting_by, counting_writes.
    - unfold on_guard. cbn [guards]. by rewrite E.
    - unfold on_guard. cbn [guards]. by rewrite E. }
  destruct o as [t k|g|g|g]; cbn [exec].
  - pose proof (lock_call t k l gs (gs ++ [Some (t, k, true)]) _ Hok Hd eq_refl) as Hc.
    replace (go_new (ops_of k)) with ([match k with Scoped => c_lock | ReadScoped => c_rdlock | WriteScoped => c_wrlock end], true)
      by (by destruct k).
    rewrite do_calls_one. cbn [the_lock guards]. specialize (Hc ltac:(intros h Hh; rewrite total_app; cbn; lia)).
    by destruct (do_call t _ l) as [[l'|]|].
  - unfold on_guard. cbn [guards the_lock]. cbn [wants guards] in Hd. destruct (gs !! g) as [[[[t k] b]|]|] eqn:E; [|done..].
    destruct b; [|].
    + replace (go_lock (ops_of k) true) with ([] : list call, true) by (by destruct k). cbn [do_calls].
      by rewrite list_insert_id.
    + pose proof (lock_call t k l gs (<[g := Some (t, k, true)]> gs) _ Hok Hd eq_refl) as Hc.
      replace (go_lock (ops_of k) false) with ([match k with Scoped => c_lock | ReadScoped => c_rdlock | WriteScoped => c_wrlock end], true)
        by (by destruct k).
      rewrite do_calls_one. specialize (Hc ltac:(intros h [_ Hh]; rewrite (total_insert _ _ _ _ _ E), Hh; lia)).
      by destruct (do_call t _ l) as [[l'|]|].
  - pose proof (Hun g true go_unlock ltac:(done)) as Hx. by destruct (on_guard _ _ _ _) as [[]|].
  - pose proof (Hun g false go_delete ltac:(by intros [])) as Hx. by destruct (on_guard _ _ _ _) as [[]|].
Qed.

Lemma greach_ok s : greach s -> lock_ok s.
Proof.
  induction 1 as [|s o s' _ IH Hd He]; [done|]. pose proof (exec_ok o s IH Hd) as H0. by rewrite He in H0.
Qed.

(** Whether a thread holds the lock as a scoped lock of the kind says. *)
Definition held_by (t : nat) (k : Kind) (l : Held) : Prop :=
  match k, l with
  | ReadScoped, HReaders ts => t ∈ ts
  | (Scoped | WriteScoped), HExclusive o => o = t
  | _, _ => False
  end.

Lemma locked_holds s g t k : lock_ok s -> guards s !! g = Some (Some (t, k, true)) -> held_by t k (the_lock s).
Proof.
  intros Hok Hg. pose proof (total_lookup reads reads_nonneg _ g _ Hg) as Lr.
  pose proof (total_lookup writes writes_nonneg _ g _ Hg) as Lw. unfold lock_ok in Hok.
  destruct (the_lock s) as [|ts|o], k; cbn in Lr, Lw |- *; try lia.
  - apply occ_elem. destruct Hok as (_ & _ & _ & Hts). rewrite <-Hts.
    pose proof (total_lookup _ (fun x => by_thread_nonneg t _ x reads_nonneg) _ g _ Hg) as Lt.
    cbn in Lt. rewrite decide_True in Lt by done. lia.
  - destruct (decide (t = o)) as [|Hne]; [done|].
    pose proof (total_gap (by_thread o writes) writes _ g _ (fun y => by_thread_le o _ y writes_nonneg) Hg) as Hx.
    cbn in Hx. rewrite decide_False in Hx by done. lia.
  - destruct (decide (t = o)) as [|Hne]; [done|].
    pose proof (total_gap (by_thread o writes) writes _ g _ (fun y => by_thread_le o _ y writes_nonneg) Hg) as Hx.
    cbn in Hx. rewrite decide_False in Hx by done. lia.
Qed.

(** Only a release can be undefined. *)
Lemma do_call_defined t c l e : c <> c_unlock -> do_call t c l <> Some (Err e).
Proof. intros Hc. destruct c; try done; cbn [do_call]; by destruct (pthread_lock _ _ _). Qed.

Lemma exec_defined o s e : lock_ok s -> exec o s <> Some (Err e).
Proof.
  intros Hok He. destruct o as [t k|g|g|g].
  3: pose proof (exec_ok (GUnlock g) s Hok I) as Hx; by rewrite He in Hx.
  3: pose proof (exec_ok (GDelete g) s Hok I) as Hx; by rewrite He in Hx.
  - cbn [exec] in He. destruct k; cbn [go_new ops_of ScopedLockImpl ReadScopedLockImpl WriteScopedLockImpl guard_ops] in He;
      rewrite do_calls_one in He; destruct (do_call _ _ _) as [[l|e']|] eqn:Ec; try done; by apply do_call_defined in Ec.
  - cbn [exec] in He. unfold on_guard in He. destruct (guards s !! g) as [[[[t k] []]|]|]; [| |done..];
      destruct k; cbn [go_lock ops_of ScopedLockImpl ReadScopedLockImpl WriteScopedLockImpl guard_ops negb] in He; try done;
      rewrite do_calls_one in He; destruct (do_call _ _ _) as [[l|e']|] eqn:Ec; try done; by apply do_call_defined in Ec.
Qed.

(** C21: scoped locks keep a lock's contract, for any threads that do not lock a
    read-write lock again while they hold it for writing and are never too many readers
    at once: no operation releases a lock that its thread does not hold; a scoped lock
    that believes to be locked is, for its thread; while a scoped or write lock is
    locked, no other scoped lock on the same object is; and once none is locked the
    object is free, so that nobody waits.  Without the discipline all of it fails: see
    [relock_breaks]. *)
Theorem scoped_locks_exclude s :
  greach s ->
  (forall o e, exec o s <> Some (Err e))
  /\ (forall g t k, guards s !! g = Some (Some (t, k, true)) -> held_by t k (the_lock s))
  /\ (forall g g' t t' k k', k <> ReadScoped -> g <> g' ->
      guards s !! g = Some (Some (t, k, true)) -> guards s !! g' <> Some (Some (t', k', true)))
  /\ ((forall g t k b, guards s !! g = Some (Some (t, k, b)) -> b = false) ->
      forall o, disciplined o s -> exec o s <> None).
Proof.
  intros Hr. pose proof (greach_ok s Hr) as Hok. split_and!.
  - intros o e. by apply exec_defined.
  - intros g t k. by apply locked_holds.
  - intros g g' t t' k k' Hk Hne Hg Hg'. assert (1 <= total writes (guards s)) as Hw.
    { pose proof (total_lookup writes writes_nonneg _ _ _ Hg). by destruct k. }
    assert (total reads (guards s) = 0 /\ total writes (guards s) = 1) as [H0 H1].
    { unfold lock_ok in Hok. destruct (the_lock s); lia. }
    destruct (decide (k' = ReadScoped)) as [->|Hk'].
    + pose proof (total_lookup reads reads_nonneg _ _ _ Hg') as Hx. cbn in Hx. lia.
    + pose proof (total_two writes writes_nonneg _ _ _ _ _ Hne Hg Hg') as Hx. destruct k, k'; cbn in Hx; done || lia.
  - intros Hall o Hd He. pose proof (exec_ok o s Hok Hd) as Hx. rewrite He in Hx. apply Hx. clear Hx He Hd.
    assert (forall f, (f = reads \/ f = writes) -> total f (guards s) = 0) as Hz.
    { intros f Hf. clear Hok Hr. destruct s as [l gs]. cbn [guards] in *. induction gs as [|x gs IH]; [done|]. cbn [total].
      rewrite (IH (fun g t k b Hg => Hall (S g) t k b Hg)). destruct x as [[[t k] b]|]; [|destruct Hf; by subst].
      rewrite (Hall 0%nat t k b eq_refl). destruct Hf; subst; by destruct k. }
    unfold lock_ok in Hok. pose proof (Hz reads ltac:(auto)). pose proof (Hz writes ltac:(auto)).
    destruct (the_lock s) as [|ts|o']; [done| |lia]. destruct Hok as (Hne & Hl & _). destruct ts; [done|]. cbn in Hl. lia.
Qed.

(** A thread that locks a read-write lock it holds for writing is told EDEADLK, which
    [RWMutex] ignores: the scoped lock believes to be locked, releases the other one's
    lock, a second writer gets in beside the first, and the end of the first releases
    what its thread does not hold. *)
Fixpoint exec_all (os : list gop) (s : Sys) : option (result Sys) :=
  match os with
  | [] => Some (Ok s)
  | o :: os => match exec o s with Some (Ok s') => exec_all os s' | r => r end
  end.

Theorem relock_breaks :
  exists s, exec_all [GNew 1 WriteScoped; GNew 1 ReadScoped; GDelete 1; GNew 2 WriteScoped] (mkSys HFree []) = Some (Ok s)
  /\ guards s !! 0%nat = Some (Some (1%nat, WriteScoped, true))
  /\ guards s !! 2%nat = Some (Some (2%nat, WriteScoped, true))
  /\ exec (GDelete 0) s = Some (Err (Undef bad_unlock)).
Proof. eexists. split; [reflexivity|]. split_and!; reflexivity. Qed.

(** One reader too many is told EAGAIN and believes to have the lock too. *)
Theorem reader_overflow ts t : Z.of_nat (length ts) = max_readers -> t ∉ ts ->
  do_call t c_rdlock (HReaders ts) = Some (Ok (HReaders ts)) /\ ~ held_by t ReadScoped (HReaders ts).
Proof. intros Hl Ht. cbn. rewrite (proj2 (Z.ltb_ge _ _)) by lia. done. Qed.
End Pthreads.

(** ** The spin lock on an atomic flag *)

(** Where a thread is with respect to the lock. *)
Inductive cas_pc := Outside | Spinning | Inside.

(** [src/include/sylar/thread.hh:257-258 CASLock]
    The flag, and the threads that use it. *)
Record CASLock := mkCAS { m_mutex : bool; pcs : list cas_pc }.

(** [src/include/sylar/thread.hh:242-244 CASLock::CASLock] *)
Definition CASLock_new (n : nat) : CASLock := mkCAS false (repeat Outside n).

(** [src/include/sylar/thread.hh:249-251 CASLock::lock]
    Each test-and-set is one access: the loop ends when it finds the flag clear. *)
Definition test_and_set (i : nat) (s : CASLock) : CASLock :=
  if m_mutex s then s else mkCAS true (<[i := Inside]> (pcs s)).

(** [src/include/sylar/thread.hh:253-255 CASLock::unlock] *)
Definition CASLock_unlock (i : nat) (s : CASLock) : CASLock := mkCAS false (<[i := Outside]> (pcs s)).

Inductive cas_label := EnterLock (i : nat) | Try (i : nat) | Leave (i : nat).

Inductive cas_step : CASLock -> cas_label -> CASLock -> Prop :=
| cas_enter s i : pcs s !! i = Some Outside -> cas_step s (EnterLock i) (mkCAS (m_mutex s) (<[i := Spinning]> (pcs s)))
| cas_try s i : pcs s !! i = Some Spinning -> cas_step s (Try i) (test_and_set i s)
| cas_leave s i : pcs s !! i = Some Inside -> cas_step s (Leave i) (CASLock_unlock i s).

Inductive cas_reach (n : nat) : CASLock -> Prop :=
| cas_init : cas_reach n (CASLock_new n)
| cas_next s lab s' : cas_reach n s -> cas_step s lab s' -> cas_reach n s'.

Definition inside (p : cas_pc) : Z := match p with Inside => 1 | _ => 0 end.

Lemma inside_nonneg p : 0 <= inside p.
Proof. by destruct p. Qed.

Lemma cas_reach_count n s : cas_reach n s -> total inside (pcs s) = if m_mutex s then 1 else 0.
Proof.
  induction 1 as [|s lab s' _ IH Hs].
  - cbn. induction n as [|n IHn]; [done|]. cbn. lia.
  - destruct Hs as [s i Hi|s i Hi|s i Hi]; cbn [pcs m_mutex] in *.
    + rewrite (total_insert inside _ _ _ _ Hi). cbn. lia.
    + unfold test_and_set. destruct (m_mutex s) eqn:E; [by rewrite E|]. cbn [pcs m_mutex]. rewrite (total_insert inside _ _ _ _ Hi). cbn. lia.
    + pose proof (total_lookup inside inside_nonneg _ _ _ Hi) as H. cbn in H. unfold CASLock_unlock. cbn [pcs m_mutex]. rewrite (total_insert inside _ _ _ _ Hi). cbn.
      destruct (m_mutex s); lia.
Qed.

(** The abstract lock a flag stands for. *)
Definition cas_abs (s : CASLock) : LockState := if m_mutex s then Exclusive else Free.

(** C31: the spin lock implements a mutex: in every interleaving at most one thread is
    between [lock] and [unlock]; every access is, for the abstract lock, either nothing
    (a spin), the acquisition of a free lock, or the release of a held one; and a
    waiting thread that finds nobody inside gets the lock with its next access. *)
Theorem CASLock_is_mutex n s :
  cas_reach n s ->
  (forall i j, pcs s !! i = Some Inside -> pcs s !! j = Some Inside -> i = j)
  /\ (forall lab s', cas_step s lab s' ->
      cas_abs s' = cas_abs s
      \/ (exists i, lab = Try i /\ acquire c_lock (cas_abs s) = Some (cas_abs s') /\ pcs s' !! i = Some Inside)
      \/ (exists i, lab = Leave i /\ release (cas_abs s) = Ok (cas_abs s')))
  /\ (forall i, pcs s !! i = Some Spinning -> (forall j, pcs s !! j <> Some Inside) ->
      pcs (test_and_set i s) !! i = Some Inside).
Proof.
  intros Hr. pose proof (cas_reach_count n s Hr) as Hc. split_and!.
  - intros i j Hi Hj. destruct (decide (i = j)) as [|Hne]; [done|].
    pose proof (total_two inside inside_nonneg _ _ _ _ _ Hne Hi Hj) as H. cbn in H. destruct (m_mutex s); lia.
  - intros lab s' Hs. destruct Hs as [s i Hi|s i Hi|s i Hi].
    + by left.
    + unfold test_and_set, cas_abs. destruct (m_mutex s) eqn:E; [left; by rewrite E|]. right. left. exists i. cbn.
      rewrite list_lookup_insert_eq by (by eapply lookup_lt_Some). done.
    + right. right. exists i. pose proof (total_lookup inside inside_nonneg _ _ _ Hi) as H. cbn in H.
      unfold cas_abs. cbn. destruct (m_mutex s); [done|lia].
  - intros i Hi Hnone. unfold test_and_set. destruct (m_mutex s).
    + exfalso. clear Hi Hr. revert Hc Hnone. generalize (pcs s). induction l as [|p l IH]; cbn; [lia|]. intros Hc Hnone.
      destruct p; cbn in Hc; [..|by apply (Hnone 0%nat)]; (apply IH; [lia|intros j; apply (Hnone (S j))]).
    + cbn. by rewrite list_lookup_insert_eq by (by eapply lookup_lt_Some).
Qed.

(** ** Semaphores *)

(** The greatest count of a semaphore. *)
Definition SEM_VALUE_MAX : Z := 2 ^ 31 - 1.

(** [src/src/thread.cc:14-19 Semaphore::Semaphore]
    [sem_init] refuses a greater count; the parameter is an [uint32_t]. *)
Definition Semaphore_new (count : Z) : result Z :=
  if SEM_VALUE_MAX <? u32 count then Err (Throw logic_error) else Ok (u32 count).

(** [src/src/thread.cc:25-29 Semaphore::wait]
    Nothing while the caller blocks; a signal ends the wait with an error. *)
Definition Semaphore_wait (interrupted : bool) (count : Z) : option (result unit * Z) :=
  if interrupted then Some (Err (Throw logic_error), count)
  else if 0 <? count then Some (Ok tt, count - 1) else None.

(** [src/src/thread.cc:31-35 Semaphore::notify]
    [sem_post] fails on overflow. *)
Definition Semaphore_notify (count : Z) : result unit * Z :=
  if count =? SEM_VALUE_MAX then (Err (Throw logic_error), count) else (Ok tt, count + 1).

(** The calls on a semaphore in the order in which they take effect. *)
Inductive sem_reach (n : Z) : nat -> nat -> Z -> Prop :=
| sem_start : sem_reach n 0 0 n
| sem_waited w p c c' : sem_reach n w p c -> Semaphore_wait false c = Some (Ok tt, c') -> sem_reach n (S w) p c'
| sem_posted w p c c' : sem_reach n w p c -> Semaphore_notify c = (Ok tt, c') -> sem_reach n w (S p) c'.

(** Whatever the order, no more waits have returned than there were counts and
    posts, the count says how many more can, and a wait on a positive one returns. *)
Lemma semaphore_counts count n w p c : Semaphore_new count = Ok n -> sem_reach n w p c ->
  c = n + Z.of_nat p - Z.of_nat w /\ 0 <= c <= SEM_VALUE_MAX
  /\ (0 < c -> Semaphore_wait false c = Some (Ok tt, c - 1)) /\ (c = 0 -> Semaphore_wait false c = None).
Proof.
  intros Hn Hr. assert (c = n + Z.of_nat p - Z.of_nat w /\ 0 <= c <= SEM_VALUE_MAX) as [Hc Hb].
  { induction Hr as [|w p c c' _ IH Hw|w p c c' _ IH Hp].
    - unfold Semaphore_new in Hn. pose proof (u32_range count). destruct (Z.ltb_spec SEM_VALUE_MAX (u32 count)); [done|].
      injection Hn as <-. lia.
    - unfold Semaphore_wait in Hw. destruct (Z.ltb_spec 0 c); [|done]. injection Hw as <-. lia.
    - unfold Semaphore_notify in Hp. destruct (Z.eqb_spec c SEM_VALUE_MAX); [done|]. injection Hp as <-. lia. }
  split; [done|]. split; [done|]. unfold Semaphore_wait. split; intros H; [by rewrite (proj2 (Z.ltb_lt _ _))|by rewrite H].
Qed.

(** ** Starting a thread *)

Section Start.
Context {C : Type}.

(** [src/include/sylar/thread.hh:281-287 Thread]
    [sem] is the count of [m_semaphore], [alive] whether the object exists. *)
Record Thread := mkThread { m_id : Z; m_cb : option C; m_name : bytes; sem : Z; alive : bool }.

(** [src/src/thread.cc:51-55 Thread::Thread]
    The name, from the argument and the counter of threads. *)
Definition Thread_name (name : bytes) (s_thread_count : Z) : bytes :=
  match name with [] => str "UNKNOWN" | _ => name ++ dec (u64 (s_thread_count + 1)) end.

(** The creator: in [pthread_create], waiting for the semaphore, returned from the
    constructor, or left it by an exception. *)
Inductive parent_pc := P_create | P_wait | P_returned | P_thrown.

(** The new thread in [run]: not there, at each of its accesses to the object, about
    to call the callback, finished. *)
Inductive child_pc := C_none | C_publish | C_swap | C_notify (cb : option C) | C_call (cb : option C) | C_done.

Record Start := mkStart {
  st_thread : Thread;
  st_parent : parent_pc;
  st_child : child_pc;
  st_self : bytes;                 (* [t_thread_name] of the new thread *)
  st_kernel : bytes;               (* the name [pthread_setname_np] sets *)
  st_ran : list C                  (* the callbacks it has run *)
}.

(** [src/src/thread.cc:51-58 Thread::Thread]
    Up to [pthread_create]. *)
Definition Thread_start (cb : option C) (name : bytes) (s_thread_count : Z) : Start :=
  mkStart (mkThread 1 cb (Thread_name name s_thread_count) 0 true) P_create C_none [] [] [].

(** An access of [run] to the object through its pointer. *)
Definition with_object (s : Start) (k : Thread -> Start) : result Start :=
  if alive (st_thread s) then Ok (k (st_thread s)) else Err (Undef use_after_free).

(** [src/src/thread.cc:88-107 Thread::run]
    Its next step; none when it is not running or has finished. *)
Definition run_step (tid : Z) (s : Start) : option (result Start) :=
  match st_child s with
  | C_none | C_done => None
  | C_publish =>
      Some (with_object s (fun t =>
        mkStart (mkThread tid (m_cb t) (m_name t) (sem t) (alive t)) (st_parent s) C_swap (m_name t)
          (c_str (take 15 (m_name t))) (st_ran s)))
  | C_swap =>
      Some (with_object s (fun t =>
        mkStart (mkThread (m_id t) None (m_name t) (sem t) (alive t)) (st_parent s) (C_notify (m_cb t)) (st_self s)
          (st_kernel s) (st_ran s)))
  | C_notify cb =>
      Some (with_object s (fun t =>
        mkStart (mkThread (m_id t) (m_cb t) (m_name t) (sem t + 1) (alive t)) (st_parent s) (C_call cb) (st_self s)
          (st_kernel s) (st_ran s)))
  | C_call cb =>
      Some match cb with
           | Some f => Ok (mkStart (st_thread s) (st_parent s) C_done (st_self s) (st_kernel s) (st_ran s ++ [f]))
           | None => Err (Throw bad_function_call)
           end
  end.

(** [src/src/thread.cc:57-64 Thread::Thread]
    The creator's next step.  [created] says whether [pthread_create] succeeds,
    [interrupted] whether a signal ends [sem_wait]; an exception destroys the members
    of the object.  None while it waits. *)
Definition parent_step (created interrupted : bool) (s : Start) : option Start :=
  let dead t := mkThread (m_id t) (m_cb t) (m_name t) (sem t) false in
  match st_parent s with
  | P_create =>
      Some (if created then mkStart (st_thread s) P_wait C_publish (st_self s) (st_kernel s) (st_ran s)
            else mkStart (dead (st_thread s)) P_thrown C_none (st_self s) (st_kernel s) (st_ran s))
  | P_wait =>
      let t := st_thread s in
      if interrupted then Some (mkStart (dead t) P_thrown (st_child s) (st_self s) (st_kernel s) (st_ran s))
      else if 0 <? sem t then
        Some (mkStart (mkThread (m_id t) (m_cb t) (m_name t) (sem t - 1) (alive t)) P_returned (st_child s) (st_self s)
                (st_kernel s) (st_ran s))
      else None
  | P_returned | P_thrown => None
  end.

(** [src/src/thread.cc:66-73 Thread::~Thread]
    The owner destroys the object after the constructor has returned; the thread is
    detached. *)
Definition Thread_delete (s : Start) : option Start :=
  let t := st_thread s in
  match st_parent s with
  | P_returned =>
      if alive t then Some (mkStart (mkThread (m_id t) (m_cb t) (m_name t) (sem t) false) P_returned (st_child s)
                              (st_self s) (st_kernel s) (st_ran s))
      else None
  | _ => None
  end.

(** All interleavings; [signals] says whether [sem_wait] can be interrupted. *)
Inductive tstep (tid : Z) (signals : bool) (s : Start) : result Start -> Prop :=
| t_parent created interrupted s' : (interrupted = true -> signals = true) ->
    parent_step created interrupted s = Some s' -> tstep tid signals s (Ok s')
| t_child r : run_step tid s = Some r -> tstep tid signals s r
| t_delete s' : Thread_delete s = Some s' -> tstep tid signals s (Ok s').

Inductive treach (tid : Z) (signals : bool) (s0 : Start) : Start -> Prop :=
| treach_refl : treach tid signals s0 s0
| treach_step s s' : treach tid signals s0 s -> tstep tid signals s (Ok s') -> treach tid signals s0 s'.

(** What holds at each point of the hand-shake. *)
Definition start_inv (tid : Z) (cb : C) (name : bytes) (s : Start) : Prop :=
  let t := st_thread s in
  m_name t = name
  /\ match st_parent s with
     | P_create => st_child s = C_none /\ sem t = 0 /\ alive t = true /\ m_cb t = Some cb /\ st_ran s = []
     | P_thrown => st_child s = C_none /\ st_ran s = []
     | P_wait =>
         alive t = true
         /\ match st_child s with
            | C_none => False
            | C_publish => sem t = 0 /\ m_cb t = Some cb /\ st_ran s = []
            | C_swap => sem t = 0 /\ m_cb t = Some cb /\ m_id t = tid /\ st_self s = name /\ st_ran s = []
            | C_notify c => sem t = 0 /\ c = Some cb /\ m_cb t = None /\ m_id t = tid /\ st_self s = name /\ st_ran s = []
            | C_call c => sem t = 1 /\ c = Some cb /\ m_cb t = None /\ m_id t = tid /\ st_self s = name /\ st_ran s = []
            | C_done => sem t = 1 /\ m_cb t = None /\ m_id t = tid /\ st_self s = name /\ st_ran s = [cb]
            end
     | P_returned =>
         m_id t = tid /\ m_cb t = None /\ st_self s = name
         /\ match st_child s with
            | C_call c => c = Some cb /\ st_ran s = []
            | C_done => st_ran s = [cb]
            | _ => False
            end
     end.

Lemma start_step tid cb name s r : start_inv tid cb name s -> tstep tid false s r ->
  exists s', r = Ok s' /\ start_inv tid cb name s'.
Proof.
  intros [Hn Hinv] Hs. destruct s as [t p c self kn ran]. cbn [st_thread st_parent st_child st_self st_kernel st_ran] in *.
  destruct Hs as [created interrupted s' Hi Hs|r Hs|s' Hs].
  - destruct interrupted; [by specialize (Hi eq_refl)|]. exists s'. split; [done|]. unfold parent_step in Hs. cbn in Hs.
    destruct p; [|destruct (Z.ltb_spec 0 (sem t)); [|done]|done|done].
    + destruct created; injection Hs as <-; (split; [done|]); cbn; [|tauto]. destruct Hinv as (-> & ? & ? & ? & ?). by split_and!.
    + injection Hs as <-. split; [done|]. cbn. destruct Hinv as [_ Hinv]. destruct c; try lia; tauto.
  - unfold run_step, with_object in Hs. cbn in Hs.
    destruct p; [by destruct Hinv as [-> _]| | |by destruct Hinv as [-> _]].
    2:{ destruct Hinv as (H1 & H2 & H3 & Hc). destruct c as [| | |x|x|]; try done. destruct Hc as [-> ->].
        injection Hs as <-. eexists. split; [done|]. by split_and!. }
    destruct Hinv as [Ha Hinv]. rewrite Ha in Hs.
    destruct c as [| | |x|[f|]|]; try done; injection Hs as <-; try (by destruct Hinv as (_ & ? & _));
      (eexists; split; [done|]; split; [done|]; split; [done|]; cbn); [tauto|tauto| |]; destruct Hinv as (H1 & H2 & H3).
    + split; [lia|]. by split.
    + injection H2 as ->. destruct H3 as (? & ? & ? & ->). by split_and!.
  - exists s'. split; [done|]. unfold Thread_delete in Hs. cbn in Hs. destruct p; try done. destruct (alive t); [|done].
    injection Hs as <-. by split.
Qed.

(** C22: starting a thread is safe where no signal interrupts the constructor's wait for
    the new thread: in every such interleaving of the creator, the new thread and the
    owner of the object no step touches an object that is gone; when the constructor
    has returned the object carries the new thread's id, the thread has its name and
    has taken the callback over; and the callback runs at most once.  With a signal the
    new thread can use a destroyed object ([interrupted_start_dangles]). *)
Theorem thread_start_safe tid cb name count s :
  treach tid false (Thread_start (Some cb) name count) s ->
  (forall r, tstep tid false s r -> exists s', r = Ok s')
  /\ (st_parent s = P_returned -> m_id (st_thread s) = tid /\ m_cb (st_thread s) = None
      /\ st_self s = Thread_name name count)
  /\ (st_ran s = [] \/ st_ran s = [cb])
  /\ (st_child s = C_done -> st_ran s = [cb]).
Proof.
  intros Hr. assert (start_inv tid cb (Thread_name name count) s) as Hinv.
  { induction Hr as [|s s' _ IH Hs]; [by split|]. destruct (start_step _ _ _ _ _ IH Hs) as (? & [= <-] & ?). done. }
  split; [intros r Hs; destruct (start_step _ _ _ _ _ Hinv Hs) as (s' & -> & _); by exists s'|].
  destruct Hinv as [_ Hinv]. split_and!.
  - intros E. rewrite E in Hinv. tauto.
  - destruct (st_parent s); [tauto| | |tauto].
    + destruct Hinv as [_ Hinv]. destruct (st_child s); tauto.
    + destruct Hinv as (_ & _ & _ & Hinv). destruct (st_child s); tauto.
  - intros E. rewrite E in Hinv. destruct (st_parent s); [by destruct Hinv| | |by destruct Hinv].
    + tauto.
    + tauto.
Qed.

(** A signal that ends the creator's wait destroys the object under the new thread. *)
Lemma interrupted_start_dangles tid cb name count :
  exists s, treach tid true (Thread_start (Some cb) name count) s /\ tstep tid true s (Err (Undef use_after_free)).
Proof.
  eexists. split.
  - eapply treach_step; [eapply treach_step; [apply treach_refl|]|].
    + eapply (t_parent _ _ _ true false); [done|reflexivity].
    + eapply (t_parent _ _ _ true true); [done|reflexivity].
  - apply t_child. reflexivity.
Qed.
End Start.

(** [src/src/thread.cc:43-49 Thread::SetName]
    The object of the calling thread, if it has one, and [t_thread_name]. *)
Definition SetName {C} (name : bytes) (t_thread : option (Thread (C := C))) (t_thread_name : bytes)
    : option (Thread (C := C)) * bytes :=
  (match t_thread with
   | Some t => Some (mkThread (m_id t) (m_cb t) name (sem t) (alive t))
   | None => None
   end, name).

(** [src/src/thread.cc:75-86 Thread::join]
    [m_thread] and what [pthread_join] returns; the result is the new [m_thread]. *)
Definition join (m_thread rt : Z) : result Z :=
  if m_thread =? 0 then Ok m_thread else if negb (rt =? 0) then Err (Throw logic_error) else Ok 0.

(** ** Witnesses *)

#[local] Instance demo_pthread : Pthread := {| max_readers := 2 ^ 28 |}.

(** Thread 1 has written and writes again, thread 2 has read. *)
Definition demo_held : Sys := mkSys (HExclusive 1) [Some (1%nat, WriteScoped, true); None].

Lemma demo_held_reach : greach demo_held.
Proof.
  eapply (greach_op (mkSys (HExclusive 1) [Some (1%nat, WriteScoped, true); Some (2%nat, ReadScoped, false)]) (GDelete 1));
    [|done|reflexivity].
  eapply (greach_op (mkSys HFree [Some (1%nat, WriteScoped, false); Some (2%nat, ReadScoped, false)]) (GLock 0)); [| |reflexivity].
  2: { intros _. split; [|done]. intros [|[|g]] k' _; done. }
  eapply (greach_op (mkSys (HReaders [2%nat]) [Some (1%nat, WriteScoped, false); Some (2%nat, ReadScoped, true)]) (GUnlock 1));
    [|done|reflexivity].
  eapply (greach_op (mkSys HFree [Some (1%nat, WriteScoped, false)]) (GNew 2 ReadScoped)); [| |reflexivity].
  2: { intros _. split; [|done]. intros [|g] k' _; done. }
  eapply (greach_op (mkSys (HExclusive 1) [Some (1%nat, WriteScoped, true)]) (GUnlock 0)); [|done|reflexivity].
  eapply (greach_op (mkSys HFree []) (GNew 1 WriteScoped)); [constructor| |reflexivity].
  intros _. split; [|done]. intros g k' _. done.
Qed.

Lemma scoped_locks_exclude_witness :
  (forall o e, exec o demo_held <> Some (Err e)) /\ held_by 1 WriteScoped (the_lock demo_held)
  /\ guards demo_held !! 1%nat <> Some (Some (2%nat, WriteScoped, true)).
Proof.
  destruct (scoped_locks_exclude demo_held demo_held_reach) as (H1 & H2 & H3 & _). split; [exact H1|].
  split; [apply (H2 0%nat 1%nat WriteScoped); reflexivity|].
  apply (H3 0%nat 1%nat 1%nat 2%nat WriteScoped WriteScoped); [discriminate|discriminate|reflexivity].
Defined.

Definition demo_cas : CASLock := mkCAS true [Spinning; Inside].

Lemma demo_cas_reach : cas_reach 2 demo_cas.
Proof.
  eapply (cas_next 2 _ (EnterLock 0) demo_cas).
  - eapply (cas_next 2 _ (Try 1) (mkCAS true [Outside; Inside])).
    + eapply (cas_next 2 _ (EnterLock 1) (mkCAS false [Outside; Spinning])); [apply cas_init|]. by apply (cas_enter (CASLock_new 2) 1).
    + by apply (cas_try (mkCAS false [Outside; Spinning]) 1).
  - by apply (cas_enter (mkCAS true [Outside; Inside]) 0).
Qed.

Lemma CASLock_is_mutex_witness :
  (forall i j, pcs demo_cas !! i = Some Inside -> pcs demo_cas !! j = Some Inside -> i = j)
  /\ cas_abs (CASLock_unlock 1 demo_cas) = Free.
Proof.
  destruct (CASLock_is_mutex 2 demo_cas demo_cas_reach) as (H1 & _ & _). split; [exact H1|reflexivity].
Defined.

Definition demo_start : Start (C := nat) :=
  mkStart (mkThread 7 None (str "worker1") 0 true) P_returned (C_call (Some 5%nat)) (str "worker1") (str "worker1") [].

Lemma thread_start_safe_witness :
  (st_ran demo_start = [] \/ st_ran demo_start = [5%nat])
  /\ (st_parent demo_start = P_returned -> m_id (st_thread demo_start) = 7 /\ m_cb (st_thread demo_start) = None
      /\ st_self demo_start = Thread_name (str "worker") 0).
Proof.
  assert (treach 7 false (Thread_start (Some 5%nat) (str "worker") 0) demo_start) as Hr.
  { eapply treach_step; [eapply treach_step; [eapply treach_step; [eapply treach_step; [eapply treach_step; [apply treach_refl|]|]|]|]|].
    - apply (t_parent _ _ _ true false); [discriminate|reflexivity].
    - apply t_child. reflexivity.
    - apply t_child. reflexivity.
    - apply t_child. reflexivity.
    - apply (t_parent _ _ _ true false); [discriminate|vm_compute; reflexivity]. }
  destruct (thread_start_safe 7 5%nat (str "worker") 0 demo_start Hr) as (_ & H2 & H3 & _). split; [exact H3|exact H2].
Defined.
