(* ===== verification/ThreadTest.v ===== *)
(** * The test of threads and locks ([src/src/test/test_thread.cc])

    Threads that each take a scoped lock on one mutex and increment a shared counter
    in a loop.  An interleaving is the list of the threads that move, one access at a
    time.  The theorem: no increment is lost, nothing deadlocks, and the test ends. *)
From S2P Require Import Prelude Thread.
#[local] Open Scope Z_scope.

(** Where a thread is in the loop of [fun1], with the rounds left after this one:
    before a round, inside the lock (the scoped lock is [guards !! g]), after reading
    [count], after writing it. *)
Inductive tpc :=
| Loop (n : nat)
| InLock (n g : nat)
| Loaded (n g : nat) (v : Z)
| Stored (n g : nat).

#[export] Instance tpc_eq_dec : EqDecision tpc.
Proof. solve_decision. Defined.

(** [src/src/test/test_thread.cc:6-8 count]
    With [s_mutex] and the scoped locks on it, and the threads of line 39. *)
Record Prog := mkProg { locks : Sys; count : Z; thrs : list tpc }.

Section Test.
Context `{HP : Pthread}.

(** [src/src/test/test_thread.cc:16-19 fun1]
    One step of thread [i] in its loop; none when it has to wait or is finished.
    [count] is an [int]. *)
Definition fun1_step (i : nat) (s : Prog) : option (result Prog) :=
  match thrs s !! i with
  | Some (Loop (S n)) =>
      match exec (GNew i Scoped) (locks s) with
      | Some (Ok l) => Some (Ok (mkProg l (count s) (<[i := InLock n (length (guards (locks s)))]> (thrs s))))
      | Some (Err e) => Some (Err e)
      | None => None
      end
  | Some (InLock n g) => Some (Ok (mkProg (locks s) (count s) (<[i := Loaded n g (count s)]> (thrs s))))
  | Some (Loaded n g v) =>
      if v + 1 <? 2 ^ 31 then Some (Ok (mkProg (locks s) (v + 1) (<[i := Stored n g]> (thrs s))))
      else Some (Err (Undef signed_overflow))
  | Some (Stored n g) =>
      match exec (GDelete g) (locks s) with
      | Some (Ok l) => Some (Ok (mkProg l (count s) (<[i := Loop n]> (thrs s))))
      | Some (Err e) => Some (Err e)
      | None => None
      end
  | _ => None
  end.

(** [src/src/test/test_thread.cc:43-49 main]
    The threads that were created, of [n] rounds each. *)
Definition main_start (k n : nat) : Prog := mkProg (mkSys HFree []) 0 (replicate k (Loop n)).

(** The threads of [sched] move in turn. *)
Fixpoint run (sched : list nat) (s : Prog) : option (result Prog) :=
  match sched with
  | [] => Some (Ok s)
  | i :: sched =>
      match fun1_step i s with
      | Some (Ok s') => run sched s'
      | r => r
      end
  end.

(** ** Counting *)

Definition holding (p : tpc) : Z := match p with Loop _ => 0 | _ => 1 end.
(** The increments and the steps that a thread has before it. *)
Definition left_incs (p : tpc) : Z :=
  match p with Loop n | Stored n _ => Z.of_nat n | InLock n _ | Loaded n _ _ => Z.of_nat n + 1 end.
Definition left_steps (p : tpc) : Z :=
  match p with
  | Loop n => 4 * Z.of_nat n
  | InLock n _ => 4 * Z.of_nat n + 3
  | Loaded n _ _ => 4 * Z.of_nat n + 2
  | Stored n _ => 4 * Z.of_nat n + 1
  end.

Lemma holding_nonneg p : 0 <= holding p.
Proof. destruct p; cbn; lia. Qed.
Lemma left_incs_nonneg p : 0 <= left_incs p.
Proof. destruct p; cbn; lia. Qed.
Lemma left_steps_nonneg p : 0 <= left_steps p.
Proof. destruct p; cbn; lia. Qed.

(** The mutex is locked by the scoped lock of the one thread inside, which has seen
    the current count. *)
Definition holds (s : Prog) (i : nat) (p : tpc) : Prop :=
  match p with
  | Loop _ => True
  | InLock _ g | Stored _ g => guards (locks s) !! g = Some (Some (i, Scoped, true))
  | Loaded _ g v => guards (locks s) !! g = Some (Some (i, Scoped, true)) /\ v = count s
  end.

Record tinv (all : Z) (s : Prog) : Prop := {
  ti_lock : lock_ok (locks s);
  ti_reads : total reads (guards (locks s)) = 0;
  ti_inside : total holding (thrs s) = total writes (guards (locks s));
  ti_holds : forall i p, thrs s !! i = Some p -> holds s i p;
  ti_sum : count s + total left_incs (thrs s) = all
}.

Lemma total_replicate (f : tpc -> Z) p k : total f (replicate k p) = Z.of_nat k * f p.
Proof. induction k as [|k IH]; cbn [replicate total]; [done|]. rewrite IH. lia. Qed.

Lemma tinv_start k n : tinv (Z.of_nat k * Z.of_nat n) (main_start k n).
Proof.
  constructor; cbn; try done; rewrite ?total_replicate; cbn; try lia.
  intros i p [-> _]%lookup_replicate_1. done.
Qed.

(** At most one thread is inside. *)
Lemma one_inside all s i j p q : tinv all s -> i <> j -> thrs s !! i = Some p -> thrs s !! j = Some q ->
  holding p = 1 -> holding q = 0.
Proof.
  intros [Hl _ Hi _ _] Hne Hp Hq Hin. pose proof (total_two holding holding_nonneg _ _ _ _ _ Hne Hp Hq) as H.
  pose proof (holding_nonneg q). assert (total writes (guards (locks s)) <= 1); [|lia].
  unfold lock_ok in Hl. destruct (the_lock (locks s)); lia.
Qed.

(** Thread [i] moves from [p] to [p']. *)
Lemma tinv_move all s i p p' l c : tinv all s -> thrs s !! i = Some p ->
  lock_ok l -> total reads (guards l) = 0 ->
  total writes (guards l) = total writes (guards (locks s)) - holding p + holding p' ->
  c + left_incs p' = count s + left_incs p ->
  (forall ts, holds (mkProg l c ts) i p') ->
  (forall j q ts, i <> j -> thrs s !! j = Some q -> holds s j q -> holds (mkProg l c ts) j q) ->
  tinv all (mkProg l c (<[i := p']> (thrs s))).
Proof.
  intros [_ _ Hi Hh Hs] Ei Hl Hr Hw Hc Hp Hq. pose proof (lookup_lt_Some _ _ _ Ei).
  constructor; cbn [locks count thrs]; rewrite ?(total_insert _ _ _ _ _ Ei); try done; try lia.
  intros j q Hj. destruct (decide (i = j)) as [<-|Hne].
  - rewrite list_lookup_insert_eq in Hj by done. injection Hj as <-. apply Hp.
  - rewrite list_lookup_insert_ne in Hj by done. apply (Hq j); [done..|by eapply Hh].
Qed.

Lemma tinv_step all i s : tinv all s -> all < 2 ^ 31 ->
  match fun1_step i s with
  | Some (Ok s') => tinv all s' /\ total left_steps (thrs s') = total left_steps (thrs s) - 1
  | Some (Err _) => False
  | None => thrs s !! i = None \/ thrs s !! i = Some (Loop 0) \/ 0 < total holding (thrs s)
  end.
Proof.
  intros Hinv Hall. unfold fun1_step. destruct (thrs s !! i) as [p|] eqn:Ei; [|by left].
  pose proof Hinv as [Hl Hr Hi Hh Hs]. pose proof (Hh i p Ei) as Hp.
  pose proof (total_lookup holding holding_nonneg _ _ _ Ei) as Hin.
  pose proof (total_lookup left_incs left_incs_nonneg _ _ _ Ei) as Hleft.
  assert (forall j q ts l c, i <> j -> thrs s !! j = Some q -> holding p = 1 -> holds (mkProg l c ts) j q) as Hothers.
  { intros j q ts l c Hne Hq H1. pose proof (one_inside all s i j p q Hinv Hne Ei Hq H1). by destruct q. }
  assert (forall p', left_steps p' = left_steps p - 1 ->
    total left_steps (<[i := p']> (thrs s)) = total left_steps (thrs s) - 1) as Hst.
  { intros p' Hp'. rewrite (total_insert _ _ _ _ _ Ei). lia. }
  destruct s as [[l gs] c ts]. cbn [locks count thrs guards the_lock] in *.
  destruct p as [[|n]|n g|n g v|n g]; cbn [holds locks guards count] in Hp.
  - by right; left.
  - pose proof (exec_ok (GNew i Scoped) (mkSys l gs) Hl ltac:(by intros [])) as Hok.
    cbn [exec go_new ops_of ScopedLockImpl guard_ops do_calls do_call pthread_lock the_lock guards] in *.
    unfold lock_ok in Hl. cbn [the_lock guards] in Hl. destruct l as [|m|o]; [| |right; right; lia].
    2: { destruct Hl as (Hm & Hl & _). destruct m; [done|cbn in Hl; lia]. }
    split; [|apply Hst; cbn; lia].
    apply (tinv_move all (mkProg (mkSys HFree gs) c ts) i (Loop (S n))); cbn; try done; rewrite ?total_app; cbn; try lia.
    + intros _. by rewrite lookup_app_r, Nat.sub_diag by lia.
    + intros j q ts' _ _ Hq. destruct q; cbn in *; destruct_and?; rewrite ?lookup_app_l by (by eapply lookup_lt_Some); done.
  - split; [|apply Hst; cbn; lia]. apply (tinv_move all (mkProg (mkSys l gs) c ts) i (InLock n g)); cbn; try done; try lia.
  - destruct Hp as [Hp ->]. pose proof (total_nonneg left_incs left_incs_nonneg ts). cbn in Hleft.
    destruct (Z.ltb_spec (c + 1) (2 ^ 31)); [|lia]. split; [|apply Hst; cbn; lia].
    apply (tinv_move all (mkProg (mkSys l gs) c ts) i (Loaded n g c)); cbn; try done; try lia.
    intros j q ts' Hne Hq _. by apply (Hothers j).
  - pose proof (total_lookup writes writes_nonneg _ _ _ Hp) as Hw. cbn in Hw.
    pose proof (locked_holds (mkSys l gs) g i Scoped Hl Hp) as Hheld. cbn [the_lock] in Hheld.
    destruct l as [|m|o]; [done..|]. cbn in Hheld. subst o.
    pose proof (exec_ok (GDelete g) (mkSys (HExclusive i) gs) Hl I) as Hok.
    cbn [exec] in *. unfold on_guard in *. cbn [guards the_lock] in *. rewrite Hp in *.
    cbn [go_delete ops_of ScopedLockImpl guard_ops do_calls do_call pthread_unlock] in *.
    rewrite decide_True in * by done. split; [|apply Hst; cbn; lia].
    unfold lock_ok in Hl. cbn [the_lock guards] in Hl.
    apply (tinv_move all (mkProg (mkSys (HExclusive i) gs) c ts) i (Stored n g)); cbn; try done;
      rewrite ?(total_insert _ _ _ _ _ Hp); cbn; try lia.
    intros j q ts' Hne Hq _. by apply (Hothers j).
Qed.

Lemma run_tinv all sched : forall s, tinv all s -> all < 2 ^ 31 ->
  match run sched s with
  | Some (Ok s') => tinv all s' /\ total left_steps (thrs s') + Z.of_nat (length sched) = total left_steps (thrs s)
  | Some (Err _) => False
  | None => True
  end.
Proof.
  induction sched as [|i sched IH]; intros s Hi Hall; cbn [run length]; [split; [done|lia]|].
  pose proof (tinv_step all i s Hi Hall) as H. destruct (fun1_step i s) as [[s1|]|]; [|done|done].
  destruct H as [Hi1 Hst]. specialize (IH s1 Hi1 Hall). destruct (run sched s1) as [[s2|]|]; [|done|done].
  destruct IH as [? ?]. split; [done|lia].
Qed.

(** A thread that is inside can move, and if none is, every thread that has rounds
    left can. *)
Lemma someone_moves all s : tinv all s -> all < 2 ^ 31 -> Forall (eq (Loop 0)) (thrs s) \/ exists i s', fun1_step i s = Some (Ok s').
Proof.
  intros Hinv Hall.
  assert (forall i p, thrs s !! i = Some p -> holding p = 1 -> exists s', fun1_step i s = Some (Ok s')) as Hin.
  { intros i p Hp H1. pose proof (tinv_step all i s Hinv Hall) as H.
    destruct (fun1_step i s) as [[s'|]|] eqn:E; [by exists s'|done|]. exfalso. unfold fun1_step in E. rewrite Hp in E.
    destruct p as [n|n g|n g v|n g]; [done|done|by destruct (v + 1 <? 2 ^ 31)|].
    pose proof (ti_holds _ _ Hinv i _ Hp) as Hg. cbn in Hg. cbn [exec] in E. unfold on_guard in E. rewrite Hg in E. cbn in E.
    by destruct (pthread_unlock _ _). }
  destruct (decide (Forall (eq (Loop 0)) (thrs s))) as [|Hex]; [by left|]. right.
  apply not_Forall_Exists in Hex; [|apply _]. apply Exists_exists in Hex as (p & [i Hi]%list_elem_of_lookup_1 & Hp).
  destruct (decide (holding p = 1)) as [H1|H0]; [destruct (Hin i p Hi H1) as [s' H]; by exists i, s'|].
  pose proof (tinv_step all i s Hinv Hall) as H. destruct (fun1_step i s) as [[s'|]|] eqn:E; [by exists i, s'|done|].
  destruct H as [H|[H|H]]; [congruence|congruence|].
  assert (exists j q, thrs s !! j = Some q /\ holding q = 1) as (j & q & Hq & H1).
  { revert H. clear. induction (thrs s) as [|q l IH]; cbn [total]; [lia|]. intros H.
    destruct (decide (holding q = 1)) as [Hq|Hq]; [by exists 0%nat, q|].
    destruct IH as (j & r & Hj & Hr); [destruct q; cbn in *; lia|]. by exists (S j), r. }
  destruct (Hin j q Hq H1) as [s' Hs']. by exists j, s'.
Qed.

(** The test of threads counts every increment.  With any number of threads and
    rounds that an [int] can count, in every interleaving: nothing is undefined; at
    most four steps for each round are made; as long as a thread has a round left
    some thread can move; and when none has, the counter is the number of rounds of
    all threads and the mutex is free. *)
Theorem test_thread_counts k n sched :
  Z.of_nat k * Z.of_nat n < 2 ^ 31 ->
  match run sched (main_start k n) with
  | Some (Ok s) =>
      (length sched <= 4 * k * n)%nat
      /\ ((exists i s', fun1_step i s = Some (Ok s'))
          \/ Forall (eq (Loop 0)) (thrs s) /\ count s = Z.of_nat k * Z.of_nat n /\ the_lock (locks s) = HFree)
  | Some (Err _) => False
  | None => True
  end.
Proof.
  intros Hall. pose proof (run_tinv _ sched _ (tinv_start k n) Hall) as H.
  destruct (run sched (main_start k n)) as [[s|e]|]; [|done|done]. destruct H as [Hinv Hlen]. split.
  - cbn [main_start thrs] in Hlen. rewrite total_replicate in Hlen. cbn [left_steps] in Hlen.
    pose proof (total_nonneg left_steps left_steps_nonneg (thrs s)). nia.
  - destruct (someone_moves _ s Hinv Hall) as [Hdone|Hm]; [right|by left]. split; [done|].
    assert (total holding (thrs s) = 0 /\ total left_incs (thrs s) = 0) as [Hi Hs].
    { clear -Hdone. induction Hdone as [|p l <- _ IH]; cbn [total holding left_incs]; lia. }
    pose proof Hinv as [Hl Hr Hw _ Hc]. split; [lia|]. unfold lock_ok in Hl. destruct (the_lock (locks s)); [done|destruct Hl as (Hm & Hl & _); destruct ts; [done|cbn in Hl; lia]|lia].
Qed.
End Test.

#[local] Instance demo_pthread : Pthread := {| max_readers := 2 ^ 28 |}.

(** Two threads of two rounds each. *)
Definition demo_sched : list nat := [0; 0; 0; 0; 1; 1; 1; 1; 1; 1; 1; 1; 0; 0; 0; 0]%nat.

Lemma test_thread_counts_witness :
  match run demo_sched (main_start 2 2) with
  | Some (Ok s) =>
      (length demo_sched <= 4 * 2 * 2)%nat
      /\ ((exists i s', fun1_step i s = Some (Ok s'))
          \/ Forall (eq (Loop 0)) (thrs s) /\ count s = Z.of_nat 2 * Z.of_nat 2 /\ the_lock (locks s) = HFree)
  | Some (Err _) => False
  | None => True
  end
  /\ match run demo_sched (main_start 2 2) with Some (Ok s) => count s = 4 | _ => False end.
Proof. split; [apply (test_thread_counts 2 2 demo_sched); vm_compute; reflexivity|vm_compute; reflexivity]. Defined.
