(* ===== verification/Application.v ===== *)
(** * The application ([src/src/application.cc], [src/src/daemon.cc])

    What a server program does from its command line to its listening sockets:
    [Application::init] over the options ([Env]), the configuration ([Config]) and the
    file system ([Util]); the supervising loop of the daemon over what [fork] and
    [waitpid] answer; the configuration of HTTP servers as YAML; and [run_fiber], which
    turns the configured addresses into bound servers ([TcpServer]). *)
From Stdlib Require Import String.
From S2P Require Import Prelude CString Endian Util Env ConfigCast Config LogYaml.
From S2P Require Import Address AddressSpec AddressText FdManager IOManager IOManagerSpec Hook Socket TcpServer.
#[local] Open Scope string_scope.
#[local] Open Scope list_scope.
#[local] Open Scope Z_scope.

(** ** The daemon *)

(** [src/include/sylar/daemon.hh:15-23 ProcessInfo] *)
Record ProcessInfo := mkInfo {
  parent_id : Z; parent_start_time : Z; main_id : Z; main_start_time : Z; restart_count : Z
}.

(** What one [fork] leads to: this process is the child, it is the parent and the
    child ended with a status, or there is no child. *)
Inductive Forked := IsChild (pid now : Z) | ChildEnded (status : Z) | ForkFailed.

(** [src/src/daemon.cc:26-30 real_start] *)
Definition real_start (main_cb : Z) : Z := main_cb.

(** [src/src/daemon.cc:40-70 real_daemon]
    The loop: the result, the process info and the seconds slept.  [main_cb] is what
    the application's [main] returns. *)
Fixpoint daemon_loop (main_cb interval : Z) (forks : list Forked) (p : ProcessInfo) (slept : list Z)
    : result (Z * ProcessInfo * list Z) :=
  match forks with
  | [] => Err OutOfFuel
  | IsChild pid now :: _ =>
      Ok (real_start main_cb, mkInfo (parent_id p) (parent_start_time p) pid (u32 now) (restart_count p), slept)
  | ChildEnded status :: forks =>
      if status =? 0 then Ok (0, p, slept) else
      daemon_loop main_cb interval forks
        (mkInfo (parent_id p) (parent_start_time p) (main_id p) (main_start_time p) (u32 (restart_count p + 1)))
        (slept ++ [interval])
  | ForkFailed :: forks => daemon_loop main_cb interval forks p slept
  end.

(** [src/src/daemon.cc:32-72 real_daemon] *)
Definition real_daemon (main_cb interval pid now : Z) (forks : list Forked) (p : ProcessInfo)
    : result (Z * ProcessInfo * list Z) :=
  daemon_loop main_cb interval forks (mkInfo pid (u64 now) (main_id p) (main_start_time p) (restart_count p)) [].

(** [src/src/daemon.cc:74-82 start_daemon] *)
Definition start_daemon (main_cb interval pid now : Z) (forks : list Forked) (is_daemon : bool) (p : ProcessInfo)
    : result (Z * ProcessInfo * list Z) :=
  if negb is_daemon then Ok (real_start main_cb, p, []) else real_daemon main_cb interval pid now forks p.

(** The number of children that crashed. *)
Fixpoint crashes (forks : list Forked) : nat :=
  match forks with
  | [] => 0
  | ChildEnded status :: forks => if status =? 0 then crashes forks else S (crashes forks)
  | _ :: forks => crashes forks
  end.

Definition supervised (f : Forked) : Prop := match f with IsChild _ _ => False | ChildEnded s => s <> 0 | ForkFailed => True end.

(** The daemon restarts its child after every crash and only then, counting and
    sleeping once each time whatever forks fail in between, and ends with the first
    child that ends well; a child runs [main] and nothing else of the loop. *)
Theorem daemon_restarts main_cb interval pid now forks last p :
  Forall supervised forks -> (last = ChildEnded 0 \/ exists cpid t, last = IsChild cpid t) ->
  0 <= restart_count p -> restart_count p + Z.of_nat (length forks) < 2 ^ 32 ->
  exists p', real_daemon main_cb interval pid now (forks ++ [last]) p
    = Ok (match last with IsChild _ _ => main_cb | _ => 0 end, p', repeat interval (crashes forks))
  /\ restart_count p' = restart_count p + Z.of_nat (crashes forks) /\ parent_id p' = pid.
Proof.
  intros Hf Hlast H0 Hb. unfold real_daemon.
  cut (forall p0 slept, parent_id p0 = pid -> 0 <= restart_count p0 -> restart_count p0 + Z.of_nat (length forks) < 2 ^ 32 ->
    exists p', daemon_loop main_cb interval (forks ++ [last]) p0 slept
      = Ok (match last with IsChild _ _ => main_cb | _ => 0 end, p', slept ++ repeat interval (crashes forks))
    /\ restart_count p' = restart_count p0 + Z.of_nat (crashes forks) /\ parent_id p' = pid).
  { intros H. apply (H (mkInfo pid (u64 now) (main_id p) (main_start_time p) (restart_count p)) []); done. }
  clear Hb H0. induction Hf as [|f forks Hf _ IH]; intros p0 slept Hp H0 Hb.
  - cbn [app daemon_loop crashes repeat]. rewrite app_nil_r.
    destruct Hlast as [->|(cpid & t & ->)]; (eexists; split; [done|]); cbn; split; done || lia.
  - cbn [length] in Hb. destruct f as [|status|]; [done| |].
    + cbn in Hf. cbn [app daemon_loop crashes]. rewrite (proj2 (Z.eqb_neq status 0)) by done. cbn [repeat]. rewrite u32_small by lia.
      destruct (IH (mkInfo (parent_id p0) (parent_start_time p0) (main_id p0) (main_start_time p0) (restart_count p0 + 1))
        (slept ++ [interval])) as (p' & -> & H1 & H2); [done|cbn; lia|cbn; lia|].
      exists p'. rewrite <-app_assoc. cbn in *. split; [done|]. split; [lia|done].
    + cbn [app daemon_loop crashes]. apply IH; [done|done|lia].
Qed.

(** ** Server configurations *)

(** [src/src/application.cc:20-24 HttpServerConf] *)
Record HttpServerConf := mkConf { cf_address : list bytes; cf_keepalive : Z; cf_timeout : Z; cf_name : bytes }.

Definition HttpServerConf_new : HttpServerConf := mkConf [] 0 (1000 * 2 * 60) [].

(** [src/src/application.cc:26-26 HttpServerConf::isVaild] *)
Definition conf_isVaild (c : HttpServerConf) : bool := negb (bool_decide (cf_address c = [])).

(** [src/src/application.cc:28-32 HttpServerConf::operator==] *)
Definition conf_eqb (a b : HttpServerConf) : bool :=
  bool_decide (cf_address a = cf_address b) && (cf_keepalive a =? cf_keepalive b) && bytes_eqb (cf_name a) (cf_name b).

(** [as<int>()] and the text of an [int]. *)
Class YamlInt := { as_int : Node -> option Z; int_text : Z -> bytes }.
Class IntLaws `{YamlInt} := as_int_text z : - 2 ^ 31 <= z < 2 ^ 31 -> as_int (Scalar (int_text z)) = Some z.

Section Conf.
Context `{YamlCpp} `{YamlAccess} `{YamlInt}.

(** [node[k].as<T>(fallback)] *)
Definition as_or {T} (get : Node -> option T) (n : Node) (k : bytes) (fallback : T) : option T :=
  c ← child n k; Some (match c with Some x => default fallback (get x) | None => fallback end).

Fixpoint addresses_from (node : Node) (i n : nat) : option (list bytes) :=
  match n with
  | O => Some []
  | S n => a ← as_string (index node i); l ← addresses_from node (S i) n; Some (a :: l)
  end.

(** [src/src/application.cc:38-51 LexicalCast<std::string, HttpServerConf>]
    None when yaml-cpp throws. *)
Definition conf_FromStr (v : bytes) : option HttpServerConf :=
  node ← Load v;
  keepalive ← as_or as_int node (str "keepalive") (cf_keepalive HttpServerConf_new);
  timeout ← as_or as_int node (str "timeout") (cf_timeout HttpServerConf_new);
  name ← as_or as_string node (str "name") (cf_name HttpServerConf_new);
  addr ← child node (str "address");
  l ← match addr with Some a => addresses_from a 0 (size a) | None => Some [] end;
  Some (mkConf l keepalive timeout name).

(** [src/src/application.cc:57-69 LexicalCast<HttpServerConf, std::string>] *)
Definition conf_node (c : HttpServerConf) : Node :=
  let node := set_node Null (str "name") (Scalar (cf_name c)) in
  let node := set_node node (str "timeout") (Scalar (int_text (cf_timeout c))) in
  let node := set_node node (str "keepalive") (Scalar (int_text (cf_keepalive c))) in
  match cf_address c with
  | [] => node
  | l => set_node node (str "address") (fold_left (fun node i => push_back node (Scalar i)) l Null)
  end.

(** [src/src/application.cc:57-69 LexicalCast<HttpServerConf, std::string>] *)
Definition conf_ToStr (c : HttpServerConf) : option bytes := Some (Emit (conf_node c)).

Context `{!YamlLaws} `{!AccessLaws} `{!IntLaws}.

Lemma addresses_read l : forall pre, addresses_from (Sequence (pre ++ map Scalar l)) (length pre) (length l) = Some l.
Proof.
  induction l as [|a l IH]; intros pre; cbn [addresses_from length map]; [done|].
  rewrite index_at, as_string_scalar. cbn [mbind option_bind].
  specialize (IH (pre ++ [Scalar a])). rewrite length_app, Nat.add_1_r, <-app_assoc in IH. cbn [app] in IH. by rewrite IH.
Qed.

(** The configuration of a server survives its text. *)
Lemma conf_roundtrip c : - 2 ^ 31 <= cf_keepalive c < 2 ^ 31 -> - 2 ^ 31 <= cf_timeout c < 2 ^ 31 ->
  exists s, conf_ToStr c = Some s /\ conf_FromStr s = Some c.
Proof.
  intros Hk Ht. eexists. split; [done|]. unfold conf_FromStr. rewrite load_emit. cbn [mbind option_bind].
  unfold as_or, conf_node. destruct c as [addr keep to name]. cbn [cf_address cf_keepalive cf_timeout cf_name] in *.
  destruct addr as [|a l].
  - keys. by rewrite !as_int_text.
  - rewrite (fold_push Scalar (a :: l) [] : fold_left _ _ Null = _). cbn [app map seq_of]. keys. rewrite !as_int_text by done. cbn [default].
    rewrite size_sequence. change (Scalar a :: map Scalar l) with (map Scalar (a :: l)). rewrite length_map.
    pose proof (addresses_read (a :: l) []) as Hr. cbn [app length] in Hr |- *. by rewrite Hr.
Qed.
End Conf.

(** Two configurations that differ in the timeout are equal for the registry, which
    then ignores the change. *)
Lemma timeout_not_compared l k t t' n : conf_eqb (mkConf l k t n) (mkConf l k t' n) = true.
Proof. unfold conf_eqb. cbn. by rewrite bool_decide_eq_true_2, Z.eqb_refl, bytes_eqb_refl. Qed.

(** ** Starting up *)

(** The string variables of the registry; the others do not matter here. *)
Inductive AppTy := TString.
#[export] Instance AppTy_eq_dec : EqDecision AppTy.
Proof. solve_decision. Defined.
Definition app_den (t : AppTy) : Type := bytes.
#[export] Instance app_den_eq t : EqDecision (app_den t).
Proof. unfold app_den. apply _. Defined.
#[export] Instance app_den_conv t : Conv (app_den t) := { FromStr s := Some s; ToStr s := Some s }.

Abbreviation AppConfig := (Config (W := unit) app_den).

(** [src/include/sylar/application.hh:20-25 Application]
    With the singletons it uses: the environment, the registry with the times of the
    files it has loaded, and the file system. *)
Record App := mkApp { ap_env : Env; ap_times : gmap bytes Z; ap_config : AppConfig; ap_fs : FS }.

(** [var->getValue()] of a string variable. *)
Definition string_value (a : nat) (c : AppConfig) : bytes :=
  match vars app_den c !! a with Some v => m_val (av_var app_den v) | None => [] end.

Section Init.
Context `{YamlCpp}.
(** The addresses of [g_server_work_path] and [g_server_pid_file]. *)
Variables work_path pid_file : nat.
(** What the system answers: the text of [readlink], the files of a directory tree,
    the contents of a file, which processes run, and [mkdir]. *)
Variables (exe : bytes) (conf_files : bytes -> list (bytes * Z * option Node)) (contents : bytes -> option bytes)
  (running : Z -> bool) (mkdir : mkdir_answer).

(** [src/src/application.cc:125-126 Application::init]
    The same in [main], lines 156 to 157. *)
Definition pidfile (c : AppConfig) : bytes := string_value work_path c ++ [SLASH] ++ string_value pid_file c.

(** [src/src/application.cc:85-88 Application::init] *)
Definition add_helps (e : Env) : Env :=
  addHelp (str "p") (str "print help") (addHelp (str "c") (str "conf path default: ../conf")
    (addHelp (str "d") (str "run as daemon") (addHelp (str "s") (str "start writh the terminal") e))).

(** [src/src/application.cc:79-141 Application::init]
    The result and the text on the standard output. *)
Definition Application_init (argv : list bytes) : M App (bool * bytes) := fun s =>
  let '(ok, e, out) := init exe argv (add_helps (ap_env s)) in
  let s := mkApp e (ap_times s) (ap_config s) (ap_fs s) in
  if negb ok then (Ok (false, out ++ printHelp e), s) else
  if has (str "p") e then (Ok (false, out ++ printHelp e), s) else
  let run_type := if has (str "d") e then 2 else if has (str "s") e then 1 else 0 in
  if run_type =? 0 then (Ok (false, out), s) else
  let conf_path := getAbsolutePath (Env_get (str "c") (str "../../../../../conf/") e) e in
  let '(times, c) := LoadFromConfDir app_den (conf_files conf_path) (ap_times s) (ap_config s) in
  if ISRunningPidFile (contents (pidfile c)) running then (Ok (false, out), mkApp e times c (ap_fs s)) else
  let '(r, fs) := MKDir mkdir (string_value work_path c) (ap_fs s) in
  (match r with Ok b => Ok (b, out) | Err f => Err f end, mkApp e times c fs).

(** [src/src/application.cc:143-149 Application::run]
    Whether it supervises. *)
Definition is_daemon (e : Env) : bool := has (str "d") e.

(** Whether all directories above a path are there or can be made; true also of the empty
    path. *)
Definition makeable (path : bytes) (fs : FS) : Prop :=
  match c_str path with [] => True | x :: rest => fst (MKDir_loop mkdir (x :: rest) (slashes 1 rest) fs) = Ok true end.

(** [MKDir] succeeds only on what is there; it fails on what it cannot make, and what it
    could make it makes from freed memory. *)
Lemma MKDir_cases path fs :
  (fst (MKDir mkdir path fs) = Ok true <-> LStat path fs = true)
  /\ ((exists u, fst (MKDir mkdir path fs) = Err (Undef u)) <-> LStat path fs = false /\ makeable path fs)
  /\ ((exists b, fst (MKDir mkdir path fs) = Ok b) \/ exists u, fst (MKDir mkdir path fs) = Err (Undef u)).
Proof.
  unfold MKDir, makeable, gets, mbind, M_bind. destruct (LStat path fs).
  { cbn. split; [done|]. split; [split; [by intros []|by intros []]|left; by exists true]. }
  destruct (c_str path) as [|x rest].
  { cbn. split; [done|]. split; [split; [done|by exists out_of_bounds]|right; by exists out_of_bounds]. }
  destruct (MKDir_loop_returns mkdir (x :: rest) (slashes 1 rest) fs) as ([|] & fs' & ->); cbn.
  - split; [done|]. split; [split; [done|by exists use_after_free]|right; by exists use_after_free].
  - split; [done|]. split; [split; [by intros []|by intros []]|left; by exists false].
Qed.

(** The command lines that start the application. *)
Definition line_ok (argv : list bytes) : Prop :=
  exists opts, Forall opt_ok opts /\ argv = concat (map opt_print opts)
  /\ opts_args opts ∅ !! str "p" = None
  /\ (is_Some (opts_args opts ∅ !! str "s") \/ is_Some (opts_args opts ∅ !! str "d")).

(** With such a line, and no process of the pid file, all depends on [MKDir]; otherwise
    the application does not start. *)
Lemma init_line argv prog s e0 :
  ap_env s = Env_new -> e0 = snd (fst (init exe (prog :: argv) (add_helps Env_new))) ->
  let c := snd (LoadFromConfDir app_den
             (conf_files (getAbsolutePath (Env_get (str "c") (str "../../../../../conf/") e0) e0)) (ap_times s) (ap_config s)) in
  exists out s',
    (line_ok argv /\ ISRunningPidFile (contents (pidfile c)) running = false
     /\ Application_init (prog :: argv) s
        = (match fst (MKDir mkdir (string_value work_path c) (ap_fs s)) with Ok b => Ok (b, out) | Err f => Err f end, s'))
    \/ (~ (line_ok argv /\ ISRunningPidFile (contents (pidfile c)) running = false)
        /\ Application_init (prog :: argv) s = (Ok (false, out), s')).
Proof.
  intros Henv He0. cbv zeta. unfold Application_init. rewrite Henv. revert He0. unfold init. cbn [hd tail].
  set (e1 := Env.mkEnv _ _ _ _ _). assert (m_args e1 = ∅) as Ha by done.
  destruct (init_args argv None e1) as [[|] e] eqn:E.
  - cbn [fst snd negb]. intros ->. destruct (LoadFromConfDir _ _ _ _) as [times c]. cbn [snd].
    assert (forall opts, Forall opt_ok opts -> argv = concat (map opt_print opts) -> m_args e = opts_args opts ∅) as Hargs.
    { intros opts Hok ->. rewrite (init_args_reads opts e1 Hok) in E. by injection E as <-. }
    destruct (init_args_only _ _ _ _ E) as (opts & v & Hok & Heq & _). cbn [pending app map concat] in Heq.
    pose proof (Hargs opts Hok (eq_sym Heq)) as Hm. unfold has. rewrite Hm.
    assert (line_ok argv <-> opts_args opts ∅ !! str "p" = None
      /\ (is_Some (opts_args opts ∅ !! str "s") \/ is_Some (opts_args opts ∅ !! str "d"))) as Hline.
    { split; [|intros []; by exists opts]. intros (opts' & Hok' & Heq' & Hp & Hsd). by rewrite <-(Hargs opts' Hok' Heq'), Hm in Hp, Hsd. }
    case_bool_decide as Hp; [eexists _, _; right; split; [|done]; intros [[Hn _]%Hline _]; rewrite Hn in Hp; by destruct Hp|].
    apply eq_None_not_Some in Hp.
    case_bool_decide as Hd; [|case_bool_decide as Hs]; cbn [Z.eqb];
      [| |eexists _, _; right; split; [|done]; intros [[_ [?|?]]%Hline _]; done];
      (destruct (ISRunningPidFile _ _) eqn:Hr; [eexists _, _; right; split; [by intros []|done]|]);
      (destruct (MKDir _ _ _) as [r fs]; eexists _, _; left; split; [apply Hline; tauto|by split]).
  - cbn [fst snd negb]. intros _. eexists _, _. right. split; [|done].
    intros [(opts & Hok & -> & _) _]. by rewrite (init_args_reads opts e1 Hok) in E.
Qed.

(** C33: how the application starts, on any command line.  It goes on exactly when
    the line is a sequence of options that names [-s] or [-d] and not [-p], no process of
    the pid file of the loaded configuration runs, and the configured work path exists.
    When only the last is missing, the code means to create the work path: if a
    directory above it cannot be made the application does not start, and otherwise
    the path is made from freed memory (an empty one is read past its end) and the
    behaviour is undefined, so that the work path is never created as intended.  In all
    other cases it does not start. *)
Theorem init_starts argv prog s e0 :
  ap_env s = Env_new -> e0 = snd (fst (init exe (prog :: argv) (add_helps Env_new))) ->
  let c := snd (LoadFromConfDir app_den
             (conf_files (getAbsolutePath (Env_get (str "c") (str "../../../../../conf/") e0) e0)) (ap_times s) (ap_config s)) in
  let may_start := line_ok argv /\ ISRunningPidFile (contents (pidfile c)) running = false in
  ((exists out s', Application_init (prog :: argv) s = (Ok (true, out), s'))
   <-> may_start /\ LStat (string_value work_path c) (ap_fs s) = true)
  /\ ((exists u s', Application_init (prog :: argv) s = (Err (Undef u), s'))
      <-> may_start /\ LStat (string_value work_path c) (ap_fs s) = false /\ makeable (string_value work_path c) (ap_fs s))
  /\ ((exists b out s', Application_init (prog :: argv) s = (Ok (b, out), s'))
      \/ exists u s', Application_init (prog :: argv) s = (Err (Undef u), s')).
Proof.
  intros Henv He0 c may_start. pose proof (MKDir_cases (string_value work_path c) (ap_fs s)) as (Ht & Hu & Hall).
  pose proof (init_line argv prog s e0 Henv He0) as Hx. cbv zeta in Hx. fold c in Hx.
  destruct Hx as (out & s' & [(Hl & Hr & ->)|[Hno ->]]).
  - assert (may_start) as Hm by done. rewrite <-Ht, <-Hu.
    destruct (fst (MKDir mkdir (string_value work_path c) (ap_fs s))) as [b|f].
    + split_and!; [naive_solver|naive_solver|left; by eexists _, _, _].
    + destruct Hall as [[b Hb]|[u Hf]]; [done|]. split_and!; [naive_solver|naive_solver|right]. exists u, s'. congruence.
  - fold may_start in Hno. split_and!; [naive_solver|naive_solver|left; by eexists _, _, _].
Qed.
End Init.

(** [src/src/application.cc:151-173 Application::main]
    [opens] says whether the pid file can be written; the result, what is written to
    it, and whether [run_fiber] is scheduled. *)
Definition Application_main (opens : bool) (pid : Z) : Z * option bytes * bool :=
  if negb opens then (0, None, false) else (0, Some (dec pid), true).

(** ** Listening *)

#[export] Instance Address_ops : AddressOps Address := {
  getFamily := Address_getFamily;
  UnknowAddress f := AddrUnknown f (repeat 0 14)
}.

Section Listen.
Variable host : endian.
(** The addresses of a name, and the interfaces of the machine. *)
Variables (getaddrinfo : bytes -> option (list sockaddr)) (getifaddrs : option (list ifaddrs)).

(** [ipaddr->setPort(port)] *)
Definition set_port (port : Z) (a : Address) : Address :=
  match a with
  | AddrV4 a => AddrV4 (IPv4_setPort host port a)
  | AddrV6 a => AddrV6 (IPv6_setPort host port a)
  | _ => a
  end.

(** [src/src/application.cc:185-220 Application::run_fiber]
    The addresses of one configured text. *)
Definition listen_on (a : bytes) : result (list Address) :=
  match memchr 58 a with
  | None => match UnixAddress_new a with Ok u => Ok [AddrUnix u] | Err e => Err e end
  | Some pos =>
      let port := s32 (atoi (c_str (drop (S pos) a))) in
      match IPAddress_Create host getaddrinfo (take pos a) (u16 port) with
      | Err e => Err e
      | Ok (Some addr) => Ok [addr]
      | Ok None =>
          match GetInterFaceAddresses_of host getifaddrs [] (take pos a) AF_INET with
          | Err e => Err e
          | Ok (false, _) => Ok []
          | Ok (true, result) => Ok (map (fun x => set_port (u16 port) x.1) result)
          end
      end
  end.

(** [src/src/application.cc:183-220 Application::run_fiber] *)
Fixpoint listen_all (l : list bytes) : result (list Address) :=
  match l with
  | [] => Ok []
  | a :: l =>
      match listen_on a with
      | Err e => Err e
      | Ok x => match listen_all l with Ok y => Ok (x ++ y) | Err e => Err e end
      end
  end.

(** A server that was started, with the tasks for its accepting scheduler. *)
Record Started := mkStarted {
  sv_name : bytes; sv_isKeepAlive : bool; sv_server : TcpServer Address; sv_tasks : list (Task Address)
}.

(** The process serves, or ends with [_exit]. *)
Inductive Outcome := Serving (l : list Started) | Exited (fails : list Address).

Section Run.
Context {C : Type} (pick : FdManager -> Z) (answer : Address -> Answer Address) (read_timeout : Z).
Notation W := (IOManager C * FdManager)%type.

(** [src/src/application.cc:175-250 Application::run_fiber]
    With [HttpServer::HttpServer] ([http_server.cc], lines 9 to 16). *)
Fixpoint run_fiber (http_conf : list HttpServerConf) (m_httpservers : list Started) : M W Outcome :=
  match http_conf with
  | [] => mret (Serving m_httpservers)
  | i :: http_conf =>
      address ← lift (listen_all (cf_address i));
      '(ok, fails, server) ← bind pick (map (fun a => (a, answer a)) address) [] (TcpServer_new read_timeout);
      if negb ok then mret (Exited fails) else
      let name := match cf_name i with [] => str "sylar/1.0.0" | n => n end in
      let '(_, tasks, server) := start server in
      run_fiber http_conf (m_httpservers ++ [mkStarted name (negb (cf_keepalive i =? 0)) server tasks])
  end.

Hypothesis pick_fresh : forall fm, pick fm = -1 \/ (0 <= pick fm /\ kernel fm !! pick fm = None).

(** A started server serves a configuration: a listener per address, all accepting. *)
Definition serves (i : HttpServerConf) (sv : Started) : Prop :=
  exists address, listen_all (cf_address i) = Ok address
  /\ length (m_socks (sv_server sv)) = length address
  /\ sv_tasks sv = map AcceptOn (m_socks (sv_server sv))
  /\ m_isStop (sv_server sv) = false
  /\ sv_isKeepAlive sv = negb (cf_keepalive i =? 0)
  /\ sv_name sv = match cf_name i with [] => str "sylar/1.0.0" | n => n end.

Definition all_socks (l : list Started) : list (Sock Address) := concat (map (fun sv => m_socks (sv_server sv)) l).

Lemma run_fiber_spec confs : forall done pre (w : W),
  w_ok w -> socks_ok w.2 (all_socks done) -> Forall2 serves pre done ->
  Forall (fun i => exists a, listen_all (cf_address i) = Ok a) confs ->
  exists o w', run_fiber confs done w = (Ok o, w') /\ w_ok w'
  /\ match o with
     | Exited fails => fails <> []
     | Serving l => Forall2 serves (pre ++ confs) l /\ socks_ok w'.2 (all_socks l)
     end.
Proof.
  induction confs as [|i confs IH]; intros dn pre w Hw Hs Hd Hc; cbn [run_fiber].
  { exists (Serving dn), w. rewrite app_nil_r. by split_and!. }
  apply Forall_cons in Hc as [[address Ha] Hc]. unfold mbind at 1, M_bind at 1, lift. rewrite Ha.
  destruct (bind_run pick pick_fresh (map (fun a => (a, answer a)) address) (TcpServer_new read_timeout) w Hw)
    as (ok & fails & t & w1 & Hrun & Hw1 & _ & Hgood & Hbad & _); [split; constructor|].
  unfold mbind, M_bind. rewrite Hrun. destruct ok; cbn [negb].
  2:{ exists (Exited fails), w1. split; [done|]. split; [done|]. by destruct (Hbad eq_refl). }
  destruct (Hgood eq_refl) as (-> & _ & new & Hm & Hl & Hs1 & Ho & Hfresh). cbn [TcpServer_new m_socks app] in Hm.
  pose proof (bind_keeps_stop _ _ _ _ _ _ _ _ _ Hrun) as Hstop. cbn [TcpServer_new m_isStop] in Hstop.
  unfold start. rewrite Hstop. cbn [negb].
  set (sv := mkStarted _ _ _ _).
  assert (socks_ok w1.2 (all_socks (dn ++ [sv]))) as Hs2.
  { unfold all_socks. rewrite map_app, concat_app. cbn [map concat]. rewrite app_nil_r. cbn [sv sv_server m_socks]. rewrite Hm in *.
    fold (all_socks dn). destruct Hs as [Hl0 Hn0], Hs1 as [Hl1 Hn1].
    assert (forall x, x ∈ all_socks dn -> m_sock x ∉ map m_sock new) as Hdis.
    { intros x Hx Hin. apply list_elem_of_In, in_map_iff in Hin as (y & E & Hy). apply list_elem_of_In in Hy.
      rewrite Forall_forall in Hfresh, Hl0. specialize (Hfresh y Hy). destruct (Hl0 x Hx) as (_ & _ & [k Hk]). congruence. }
    split.
    - apply Forall_app_2; [|done]. apply Forall_forall. intros x Hx. rewrite Forall_forall in Hl0. destruct (Hl0 x Hx) as (X0 & X1 & X2).
      destruct (Ho (m_sock x) X0 (Hdis x Hx)) as [E1 E2]. split; [done|]. by rewrite E1, E2.
    - rewrite map_app. apply NoDup_app. split; [done|]. split; [|done]. intros fd Hfd Hfd'.
      apply list_elem_of_In, in_map_iff in Hfd as (x & <- & Hx). by apply (Hdis x); [apply list_elem_of_In|]. }
  destruct (IH (dn ++ [sv]) (pre ++ [i]) w1 Hw1 Hs2) as (o & w' & H1 & H2 & H3); [|done|].
  { apply Forall2_app; [done|]. constructor; [|constructor]. exists address. rewrite length_map in Hl.
    cbn [sv sv_server sv_tasks sv_isKeepAlive sv_name m_socks m_isStop]. rewrite Hm. by split_and!. }
  exists o, w'. unfold sv in H1. split; [exact H1|]. split; [done|]. destruct o; [|done]. by rewrite <-app_assoc in H3.
Qed.

(** C30: when the texts of all configured addresses are resolved without a fault, the
    application serves all addresses that they resolve to or none: either every
    configured server is running, with one listener of its own for each of these
    addresses, all of them accepting and no descriptor used twice, or the process exits
    and there are addresses that could not be bound.  A text that cannot be parsed
    resolves to no address and is dropped with a log line, so that a server may run with
    fewer listeners than texts, or with none: see [ipv6_listen_dropped]. *)
Theorem run_fiber_serves_all confs (w : W) :
  w_ok w -> Forall (fun i => exists a, listen_all (cf_address i) = Ok a) confs ->
  exists o w', run_fiber confs [] w = (Ok o, w') /\ w_ok w'
  /\ match o with
     | Exited fails => fails <> []
     | Serving l => Forall2 serves confs l /\ socks_ok w'.2 (all_socks l)
     end.
Proof. intros Hw Hc. apply (run_fiber_spec confs [] [] w Hw); [split; constructor|constructor|done]. Qed.
End Run.

(** A name with a port: every address listened on has that port. *)
Definition port_of (a : Address) : option Z :=
  match a with AddrV4 a => Some (IPv4_getPort host a) | AddrV6 a => Some (IPv6_getPort host a) | _ => None end.

Lemma set_port_of port a : 0 <= port < 2 ^ 16 -> is_ip (Some a) = true -> port_of (set_port port a) = Some port.
Proof. intros Hp. destruct a; intros; try done; cbn; f_equal; by apply hton16_hton16. Qed.

Lemma interface_ips family l : forall acc, Forall (fun kv => is_ip (Some kv.2.1) = true) acc ->
  forall r, interface_loop family l acc = Ok r -> Forall (fun kv => is_ip (Some kv.2.1) = true) r.
Proof.
  induction l as [|e l IH]; intros acc Hacc r; cbn [interface_loop]; [by intros [= <-]|].
  unfold interface_entry. destruct (ifa_addr e) as [sa|]; [|done].
  destruct (negb (family =? AF_UNSPEC) && negb (family =? family_of sa)); [by apply IH|].
  assert (forall x, is_ip (Some x.1) = true -> Forall (fun kv => is_ip (Some kv.2.1) = true) (multimap_insert (c_str (ifa_name e)) x acc)) as Hins.
  { intros x Hx. clear IH. induction acc as [|[k v] acc IHa]; cbn [multimap_insert]; [by constructor|].
    apply Forall_cons in Hacc as [H1 H2]. destruct (lexlt _ k); repeat (constructor; [done|]); [done|by apply IHa]. }
  destruct sa as [a|a|f d], (ifa_netmask e) as [[m|m|mf md]|]; try done; try (by apply IH).
  - destruct (CountBytes 32 (sin_addr m)); [|done]. apply IH. by apply Hins.
  - destruct (count6 (sin6_addr m)); [|done]. apply IH. by apply Hins.
Qed.

Lemma equal_range_Forall {V} (P : V -> Prop) k m : Forall (fun kv => P kv.2) m -> Forall P (equal_range k m).
Proof.
  intros Hm. unfold equal_range. assert (Forall (fun kv => P kv.2) (lower_bound k m)) as Hl.
  { induction Hm as [|[k' v] m Hv Hm IH]; cbn [lower_bound]; [constructor|]. destruct (lexlt k' k); [done|by constructor]. }
  revert Hl. generalize (lower_bound k m). induction l as [|[k' v] l IH]; intros Hl; cbn [upto_bound]; [constructor|].
  apply Forall_cons in Hl as [H1 H2]. destruct (lexlt k k'); constructor; [done|by apply IH].
Qed.

Lemma digits_value_dec ds : forall acc, forallb is_digit ds = true -> digits_value acc ds = fold_left (fun v c => v * 10 + (c - 48)) ds acc.
Proof.
  induction ds as [|d ds IH]; intros acc; cbn [digits_value forallb fold_left]; [done|]. intros [-> H]%andb_true_iff. by apply IH.
Qed.

Lemma atoi_of_dec n : 0 <= n < 2 ^ 64 -> atoi (c_str (dec n)) = n.
Proof.
  intros Hn. destruct (dec_spec n Hn) as (Hu & Hne & Hd). rewrite c_str_id by (by apply dec_no).
  destruct (dec n) as [|d ds]; [done|]. pose proof Hd as Hd0. cbn [forallb] in Hd0. apply andb_true_iff in Hd0 as [Hd0 _].
  unfold is_digit in Hd0. apply andb_true_iff in Hd0 as [H1%Z.leb_le H2%Z.leb_le]. cbn [atoi].
  rewrite (proj2 (Z.eqb_neq d 32)), (proj2 (Z.leb_gt d 13)), andb_false_r by lia. cbn [orb].
  rewrite (proj2 (Z.eqb_neq d 45)), (proj2 (Z.eqb_neq d 43)) by lia. rewrite digits_value_dec by done. exact Hu.
Qed.

(** A configured name with a port listens, if it is a host, on its first address,
    and otherwise on the addresses of the interface of that name, and always on that
    port. *)
Theorem listen_on_port name port l :
  58 ∉ name -> 0 <= port < 2 ^ 16 -> listen_on (name ++ str ":" ++ dec port) = Ok l ->
  Forall (fun a => port_of a = Some port) l
  /\ (forall sa rest, getaddrinfo (c_str name) = Some (sa :: rest) -> is_ip (Address_Create (Some sa)) = true -> length l = 1%nat).
Proof.
  intros Hn Hp. unfold listen_on. change (name ++ str ":" ++ dec port) with (name ++ 58 :: dec port).
  rewrite memchr_app by done. rewrite take_app_length.
  assert (drop (S (length name)) (name ++ 58 :: dec port) = dec port) as ->.
  { rewrite drop_app_ge by lia. by replace (S (length name) - length name)%nat with 1%nat by lia. }
  rewrite atoi_of_dec, s32_small by lia. replace (u16 port) with port by (symmetry; apply Z.mod_small; lia). unfold IPAddress_Create.
  assert (forall x, GetInterFaceAddresses_of host getifaddrs [] name AF_INET = x ->
    match x with Err e => Err e | Ok (false, _) => Ok [] | Ok (true, result) => Ok (map (fun y => set_port port y.1) result) end = Ok l ->
    Forall (fun a => port_of a = Some port) l) as Hif.
  { intros x <-. unfold GetInterFaceAddresses_of, GetInterFaceAddresses.
    destruct (match name with [] => true | _ => bytes_eqb name (str "*") end).
    { intros [= <-]. repeat constructor. by apply (set_port_of port (AddrV4 (IPv4Address_new host 0 0))). }
    destruct getifaddrs as [ifs|]; [|by intros [= <-]]. destruct (interface_loop AF_INET ifs []) as [r|] eqn:E; [|done].
    intros [= <-]. apply (interface_ips _ _ [] ltac:(constructor)) in E. apply (equal_range_Forall (fun x => is_ip (Some x.1) = true) name) in E.
    cbn [app]. apply Forall_map. eapply Forall_impl; [exact E|]. intros [x n] Hx. by apply set_port_of. }
  destruct (getaddrinfo (c_str name)) as [[|sa rest]|]; [done| |by intros H; split; [eapply Hif|]].
  destruct sa as [a|a|f d]; cbn [Address_Create]; [intros [= <-]..|].
  - split; [|done]. constructor; [by apply (set_port_of port (AddrV4 a))|constructor].
  - split; [|done]. constructor; [by apply (set_port_of port (AddrV6 a))|constructor].
  - intros H. split; [by eapply Hif|]. intros ? ? [= <- <-]. done.
Qed.

(** The port of a bracketed IPv6 address is not found: the text is cut at its first
    colon. *)
Lemma ipv6_listen_dropped : getaddrinfo (str "[") = None -> getifaddrs = Some [] -> listen_on (str "[::1]:80") = Ok [].
Proof.
  intros H1 H2. unfold listen_on. change (memchr 58 (str "[::1]:80")) with (Some 1%nat). cbv beta iota zeta.
  unfold IPAddress_Create. change (c_str (take 1 (str "[::1]:80"))) with (str "["). rewrite H1, H2. reflexivity.
Qed.
End Listen.

(** ** Witnesses *)

Lemma daemon_restarts_witness :
  exists p', real_daemon 0 5 7 100 ([ChildEnded 11; ForkFailed; ChildEnded 6] ++ [ChildEnded 0]) (mkInfo 0 0 0 0 0)
    = Ok (0, p', [5; 5])
  /\ restart_count p' = 0 + Z.of_nat (crashes [ChildEnded 11; ForkFailed; ChildEnded 6]) /\ parent_id p' = 7.
Proof.
  apply (daemon_restarts 0 5 7 100 [ChildEnded 11; ForkFailed; ChildEnded 6] (ChildEnded 0) (mkInfo 0 0 0 0 0));
    [repeat constructor; discriminate|left; reflexivity|cbn; lia|cbn; lia].
Defined.

Section Witness.
Import Plain.

Definition demo_config : AppConfig :=
  mkConfig app_den
    [anyvar app_den TString (ConfigVar_new (str "server.work_path") (str "/apps/work") []);
     anyvar app_den TString (ConfigVar_new (str "server.pid_file") (str "sylar.pid") [])]
    (<[str "server.work_path" := 0%nat]> {[str "server.pid_file" := 1%nat]}) tt.

Definition demo_app : App := mkApp Env_new ∅ demo_config (mkFS {[str "/apps/work"]}).

Lemma init_starts_witness :
  exists out s', Application_init 0 1 (str "/apps/bin/server") (fun _ => []) (fun _ => None) (fun _ => false) (fun _ _ => false)
    [str "server"; str "-s"] demo_app = (Ok (true, out), s').
Proof.
  apply (proj1 (init_starts 0 1 (str "/apps/bin/server") (fun _ => []) (fun _ => None) (fun _ => false) (fun _ _ => false)
    [str "-s"] (str "server") demo_app _ eq_refl eq_refl)).
  split; [split; [|reflexivity]|vm_compute; reflexivity]. exists [(str "s", None)].
  split; [repeat constructor; discriminate|]. split; [reflexivity|]. split; [vm_compute; reflexivity|]. left. vm_compute. by eexists.
Defined.
End Witness.

Definition demo_name (n : bytes) : option (list sockaddr) :=
  if bytes_eqb n (str "localhost") then Some [SA_in (IPv4Address_new SYLAR_LITTLE_ENDIAN 2130706433 0)] else None.

Lemma listen_on_port_witness :
  Forall (fun a => port_of SYLAR_LITTLE_ENDIAN a = Some 8020)
    [AddrV4 (IPv4Address_new SYLAR_LITTLE_ENDIAN 2130706433 8020)].
Proof.
  apply (listen_on_port SYLAR_LITTLE_ENDIAN demo_name None (str "localhost") 8020
    [AddrV4 (IPv4Address_new SYLAR_LITTLE_ENDIAN 2130706433 8020)]); [|lia|vm_compute; reflexivity].
  apply (bool_decide_unpack _). vm_compute. exact I.
Defined.

Definition demo_confs : list HttpServerConf :=
  [mkConf [str "localhost:7"; str "/tmp/sock"] 1 1000 (str "web"); mkConf [str "localhost:8"] 0 1000 []].

(** A kernel that opens the lowest descriptors. *)
Definition pick_low (fm : FdManager) : Z :=
  if decide (kernel fm !! 5 = None) then 5 else if decide (kernel fm !! 6 = None) then 6
  else if decide (kernel fm !! 7 = None) then 7 else -1.

Lemma pick_low_fresh fm : pick_low fm = -1 \/ (0 <= pick_low fm /\ kernel fm !! pick_low fm = None).
Proof. unfold pick_low. repeat case_decide; [right; split; [lia|done]..|by left]. Qed.

Lemma run_fiber_serves_all_witness :
  exists o w', run_fiber SYLAR_LITTLE_ENDIAN demo_name None pick_low (fun _ => mkAnswer true true None) 120000 demo_confs [] demo_w
    = (Ok o, w') /\ w_ok w'.
Proof.
  destruct (run_fiber_serves_all SYLAR_LITTLE_ENDIAN demo_name None pick_low (fun _ => mkAnswer true true None) 120000 pick_low_fresh
    demo_confs demo_w demo_w_ok) as (o & w' & H1 & H2 & _).
  - repeat constructor; eexists; vm_compute; reflexivity.
  - exists o, w'. split; [exact H1|exact H2].
Defined.
