(* ===== verification/Diagnostics.v ===== *)
(** * Log statements, backtraces and the process info

    What a logging macro does from the level test to the appenders
    ([include/sylar/log.hh], [src/src/log.cc]), the text of backtraces and times
    ([src/src/util.cc]) and of the process info ([src/src/daemon.cc]).  What the
    system calls answer is an argument. *)
From Stdlib Require Import Ascii String.
From S2P Require Import Prelude CString LogFormat Util Log LogSpec Application.

#[local] Open Scope string_scope.
#[local] Open Scope list_scope.
#[local] Open Scope Z_scope.

(** ** Events *)

(** [src/src/log.cc:706-712 LogEvent::LogEvent]
    The parameters are [int32_t], [uint32_t] and [uint64_t]; the stream is empty. *)
Definition LogEvent_new (level : Level) (file : bytes) (line elapse thread_id fiber_id time : Z) (thread_name : bytes)
    : LogEvent :=
  mkEvent file (s32 line) (u32 elapse) (u32 thread_id) (u32 fiber_id) (u64 time) [] thread_name level.

(** [m_ss << s] *)
Definition ss_write (s : bytes) (e : LogEvent) : LogEvent :=
  mkEvent (m_file e) (m_line e) (m_elapse e) (m_threadId e) (m_fiberId e) (m_time e) (m_ss e ++ s) (m_threadName e)
    (ev_level e).

(** [src/src/log.cc:71-94 LogEvent::format]
    [vasprintf] is the text it allocates and its length, or nothing if it fails. *)
Definition LogEvent_format (vasprintf : option (bytes * Z)) (e : LogEvent) : LogEvent :=
  match vasprintf with
  | Some (buf, len) => ss_write (take (Z.to_nat len) buf) e
  | None => e
  end.

(** What a statement reads of its thread and of the clock. *)
Record Site := mkSite { at_file : bytes; at_line : Z; at_thread : Z; at_fiber : Z; at_time : Z; at_name : bytes }.

Section Statements.
Context (mkdir : mkdir_answer) (open : FS -> bytes -> bool) (strftime : bytes -> Z -> bytes).

(** [src/include/sylar/log.hh:21-27 SYLAR_LOG_LEVEL]
    With what is written to the stream, piece by piece; the temporary
    [LogEventWrap] of lines 62 to 69 and 96 of [log.cc] logs when it is destroyed,
    at the end of the statement. *)
Definition SYLAR_LOG_LEVEL (logger : nat) (level : Level) (site : Site) (pieces : list bytes) : M LogSys unit :=
  lg ← logger_at logger;
  if level_val (lg_level lg) <=? level_val level then
    let event := LogEvent_new level (at_file site) (at_line site) 0 (at_thread site) (at_fiber site) (at_time site)
                   (at_name site) in
    let event := fold_left (fun e s => ss_write s e) pieces event in
    Logger_log mkdir open strftime 2 logger (ev_level event) event
  else mret ().

(** The event of a statement. *)
Definition event_of (level : Level) (site : Site) (pieces : list bytes) : LogEvent :=
  mkEvent (at_file site) (s32 (at_line site)) 0 (u32 (at_thread site)) (u32 (at_fiber site)) (u64 (at_time site))
    (concat pieces) (at_name site) level.

Lemma fold_pieces pieces : forall e, fold_left (fun e s => ss_write s e) pieces e = ss_write (concat pieces) e.
Proof.
  induction pieces as [|s pieces IH]; intros e; cbn [fold_left concat].
  - destruct e. unfold ss_write. cbn. by rewrite app_nil_r.
  - rewrite IH. destruct e. unfold ss_write. cbn. by rewrite app_assoc.
Qed.

(** Log files can be opened. *)
Context (open_ok : forall f n, open f n = true).

(** A statement below the logger's level does nothing; otherwise each appender that
    the level reaches (those of the root for a logger without) gets the pieces as
    one message, with the file, line, thread, fiber and time of the statement. *)
Lemma statement_logs logger lg level site pieces s :
  sys_ok s -> loggers s !! logger = Some lg ->
  exists s', SYLAR_LOG_LEVEL logger level site pieces s = (Ok tt, s') /\ quiet s s'
  /\ out s' = out s ++
       (if ge level (lg_level lg) then
          match m_appenders lg, m_root lg with
          | [], Some r => match loggers s !! r with
                          | Some rt => writes strftime s rt level (event_of level site pieces)
                          | None => [] end
          | _, _ => writes strftime s lg level (event_of level site pieces)
          end
        else []).
Proof.
  intros Hok Hl. unfold SYLAR_LOG_LEVEL, mbind, M_bind. rewrite (logger_at_eq logger lg s Hl).
  rewrite fold_pieces. fold (event_of level site pieces).
  assert (ss_write (concat pieces) (LogEvent_new level (at_file site) (at_line site) 0 (at_thread site) (at_fiber site)
            (at_time site) (at_name site)) = event_of level site pieces) as -> by done.
  cbn [ev_level event_of].
  unfold ge. destruct (Z.leb_spec (level_val (lg_level lg)) (level_val level)) as [Hle|Hlt].
  - destruct (log_delivers_run mkdir open strftime open_ok logger lg level (event_of level site pieces) s Hok Hl)
      as (s' & Hrun & Hq & Ho). exists s'. split; [exact Hrun|]. split; [done|]. rewrite Ho.
    unfold ge. rewrite (proj2 (Z.leb_le _ _) Hle). done.
  - exists s. rewrite app_nil_r. split; [done|]. split; [|done]. split_and!; [done..|apply ext_refl].
Qed.
End Statements.

(** ** Times *)

(** [src/src/util.cc:129-136 Time2Str]
    [strftime] yields the text in local time, nothing if it does not fit in 64
    bytes; then the text is what [buf] happened to contain. *)
Definition Time2Str (strftime : bytes -> Z -> option bytes) (buf : bytes) (ts : Z) (format : bytes) : bytes :=
  match strftime (c_str format) ts with Some s => c_str s | None => c_str buf end.

(** A text that does not fit is not an error: the caller gets what the stack holds. *)
Lemma Time2Str_leaks (strftime : bytes -> Z -> option bytes) ts format buf :
  strftime (c_str format) ts = None -> Time2Str strftime buf ts format = c_str buf.
Proof. intros Hs. unfold Time2Str. by rewrite Hs. Qed.

(** [src/src/daemon.cc:16-24 ProcessInfo::toString] *)
Definition ProcessInfo_toString (time2str : Z -> bytes) (p : ProcessInfo) : bytes :=
  str "[ProcessInfo parent_id=" ++ sdec (parent_id p) ++ str " main_id=" ++ sdec (main_id p)
  ++ str " parent_start_time=" ++ time2str (parent_start_time p)
  ++ str " main_start_time=" ++ time2str (main_start_time p)
  ++ str " restart_count=" ++ dec (restart_count p) ++ str "]".

(** ** Backtraces *)

(** [src/src/util.cc:142-159 Backtrace]
    [frames] is the stack as [backtrace] finds it, at most [size] addresses of it;
    [symbols] names them or fails.  The result comes with the number of blocks that
    are not freed. *)
Definition Backtrace (frames : list Z) (symbols : list Z -> option (list bytes)) (bt : list bytes) (size skip : Z)
    : list bytes * nat :=
  let array := take (Z.to_nat size) frames in
  match symbols array with
  | None => (bt, 1%nat)
  | Some strings => (bt ++ (if skip <? 0 then [] else drop (Z.to_nat skip) (take (length array) strings)), 0%nat)
  end.

(** [src/src/util.cc:161-171 BacktraceToString] *)
Definition BacktraceToString (frames : list Z) (symbols : list Z -> option (list bytes)) (size skip : Z) (prefix : bytes)
    : bytes :=
  concat (map (fun s => prefix ++ s ++ [10]) (Backtrace frames symbols [] size skip).1).

(** One line for each frame between [skip] and [size], in their order. *)
Lemma BacktraceToString_lines frames (name : Z -> bytes) size skip prefix : 0 <= skip ->
  BacktraceToString frames (fun l => Some (map name l)) size skip prefix
  = concat (map (fun f => prefix ++ name f ++ [10]) (drop (Z.to_nat skip) (take (Z.to_nat size) frames))).
Proof.
  intros Hs. unfold BacktraceToString, Backtrace. rewrite (proj2 (Z.ltb_ge skip 0)) by lia. cbn [app fst].
  rewrite take_ge by (by rewrite length_map).
  rewrite <-(firstn_skipn (Z.to_nat skip) (take _ frames)) at 1. rewrite map_app.
  set (l := take (Z.to_nat size) frames). destruct (decide (Z.to_nat skip <= length l)%nat) as [Hle|Hgt].
  - rewrite drop_app_length' by (rewrite length_map, length_take; lia). by rewrite map_map.
  - rewrite (drop_ge l) by lia. rewrite app_nil_r, drop_ge; [done|]. rewrite length_map, length_take. lia.
Qed.

(** When the frames cannot be named the array of their addresses is never freed. *)
Lemma Backtrace_leaks frames symbols bt size skip : symbols (take (Z.to_nat size) frames) = None ->
  Backtrace frames symbols bt size skip = (bt, 1%nat).
Proof. intros Hs. unfold Backtrace. by rewrite Hs. Qed.
